(* ===== verification/_CoqProject ===== *)
-Q . S2P
Prelude.v
Text.v
Scope.v
Externals.v
Pagination.v
Formats.v
TokenFormat.v
DataModel.v
CompatModel.v
UpstreamModel.v
AccountModel.v
Storage.v
QueueRepo.v
QueueWorker.v
Triples.v
QueueFacts.v
QueueSystem.v
QueueHistory.v
TokenRepo.v
GrantRepo.v
UserRepo.v
UpstreamRepo.v
AccountRepo.v
CompatRepo.v
PersonalRepo.v
Jobs.v
AppSessionRepo.v
Passwords.v
ClientAuth.v
TokenEndpoint.v
Revocation.v
DeviceAuthorize.v
GraphqlSession.v
WebSession.v
Introspection.v
CompatEndpoints.v
Authorization.v
DeviceConsent.v
ClientMetadata.v
Registration.v
RegisterForms.v
Register.v
AccountPages.v
AccountMutations.v
Tasks.v
Cleanup.v
RepoFacts.v
CompatRepoFacts.v
Integrity.v
Evolution.v
Scenario.v
QueueTheorems.v
Stored.v
ListingFacts.v
TaskFacts.v
DeactivationFacts.v
TokenFacts.v
CodeExchange.v
RefreshRotation.v
OtherGrants.v
DeviceFacts.v
RevocationFacts.v
GraphqlFacts.v
CompatRefreshFacts.v
CompatLoginFacts.v
IntrospectionFacts.v
ConsentFacts.v
RegistrationFacts.v
AccountIntegrity.v
AccountSteps.v
Lifecycle.v
CompatHistory.v
CompatTheorems.v
RecoveryFacts.v
RegisterFacts.v
UpstreamFacts.v
CleanupFacts.v
