(* ===== verification/Prelude.v ===== *)
(** * Matrix Authentication Service

    The repository is an OpenID Connect provider for Matrix homeservers,
    written in Rust.  Clients obtain tokens for sessions of users through the
    OAuth 2.0 endpoints of crates/handlers, older clients through the
    compatibility API, and users sign in and consent on its pages; jobs in a
    queue keep the homeserver in step.  All work on the structs and state
    machines of crates/data-model, and reach PostgreSQL through the repositories
    whose traits are in crates/storage and whose implementation is in
    crates/storage-pg.  This library models the path of a token: how a client is
    registered, how a user consents, how a grant is stored and exchanged, how
    tokens are issued, rotated, revoked and introspected, how sessions end, what
    the tasks do, and what the database looks like at every point of it.

    ** Files

    Shared:
    - [Prelude]: Rust's [Result], the state and error monad of the handlers
      with its notations, relations kept by every run, hint databases.
    - [Text]: the operations of [str] and [BTreeSet<String>].
    - [Externals]: the third-party crates the code calls (rand, crc, base64ct,
      sha2, ulid, url, serde_json, chrono) and what PostgreSQL does with texts, as
      classes of operations and of documented laws, with one concrete instance,
      [Counter].
    - [Storage]: storage-pg/src/errors.rs and repository.rs, the tables as finite
      maps by primary key, what PostgreSQL does with the statements the
      repositories send, and the world of a request.
    - [Triples], [RepoFacts], [CompatRepoFacts]: triples, inversion lemmas for the
      repository operations, and the readings of the clock.
    - [Integrity]: the constraints of the migrations as an invariant;
      [Evolution]: how rows may change; [Stored]: the value an operation returns
      is the value stored; [Scenario]: a concrete deployment the witnesses run on.

    Data and formats:
    - [Scope]: oauth2-types/src/scope.rs, data-model/src/compat/device.rs and
      pg_scopes.rs, [normalize_scope] of handlers/src/oauth2/introspection.rs;
      [Formats]: oauth2-types/src/pkce.rs and errors.rs, data-model/src/utils.rs
      and storage-pg/src/ulid_at.rs; [TokenFormat]: the token format of
      data-model/src/tokens.rs; [ClientMetadata]:
      oauth2-types/src/registration/mod.rs; [Passwords]: handlers/src/passwords.rs
      and keystore/src/encrypter.rs.
    - [DataModel], [CompatModel], [UpstreamModel], [AccountModel]: the structs
      and state machines of data-model/src, one [Module] per struct.
    - [Pagination]: storage/src/pagination.rs,
      storage-pg/src/pagination.rs and the links of the administration API.

    Repositories, one [Module] per repository of storage-pg/src:
    - [TokenRepo] (oauth2/access_token.rs, refresh_token.rs, session.rs),
      [GrantRepo] (authorization_grant.rs, device_code_grant.rs), [UserRepo]
      (client.rs, user/session.rs, user/mod.rs, user/password.rs, user/email.rs),
      [CompatRepo] (compat), [PersonalRepo] (personal), [AppSessionRepo]
      (app_session.rs), [ListingFacts] (the pages of sessions),
      [QueueRepo] (queue), [UpstreamRepo]
      (upstream_oauth2), [AccountRepo] (user/registration.rs,
      registration_token.rs, recovery.rs, terms.rs, and the authentications of
      email.rs and session.rs); [UpstreamFacts] and [AccountIntegrity]: what
      holds of them.

    Endpoints and pages of handlers/src:
    - [ClientAuth]: axum-utils/src/client_authorization.rs; [TokenEndpoint],
      with [TokenFacts], [CodeExchange], [RefreshRotation], [OtherGrants]:
      oauth2/token.rs; [Revocation] and [RevocationFacts]: oauth2/revoke.rs;
      [DeviceAuthorize] and [DeviceFacts]: oauth2/device/authorize.rs;
      [Introspection] and [IntrospectionFacts]: oauth2/introspection.rs.
    - [WebSession]: axum-utils/src/csrf.rs and session.rs; [Authorization]:
      oauth2/authorization; [DeviceConsent]: oauth2/device/consent.rs and
      link.rs; [ConsentFacts]: what the pages write, and when.
    - [Registration] and [RegistrationFacts]: oauth2/registration.rs.
    - [RegisterForms] (templates/src/forms.rs, captcha.rs, rate_limit.rs,
      views/register/cookie.rs), [Register] and [RegisterFacts]: views/register;
      [AccountPages]: views/login.rs, logout.rs and recovery.
    - [GraphqlSession] and [GraphqlFacts]: the requester and the session
      mutations of graphql; [AccountMutations] and [RecoveryFacts]: the other
      mutations of graphql/mutations.
    - [CompatEndpoints], with [CompatRefreshFacts], [CompatLoginFacts]: compat.

    Queue and tasks of tasks/src:
    - [QueueWorker] (new_queue.rs), [QueueFacts], [QueueSystem], [QueueHistory],
      [QueueTheorems]: the workers of the job queue as a transition system.
    - [Jobs] (storage/src/queue/tasks.rs), [Tasks] (matrix.rs, user.rs,
      sessions.rs, email.rs, recovery.rs), [TaskFacts], [DeactivationFacts].
    - [Cleanup] (the clean-up deletions of storage-pg/src/oauth2 and user, and
      the jobs of tasks/src/cleanup), [CleanupFacts].

    Histories of requests, as the reflexive and transitive closure of a step
    relation that has a step per endpoint, page, mutation and job:
    [AccountSteps], [Lifecycle], [CompatHistory], [CompatTheorems].

    ** How the code is modelled

    A handler is a function of type [M (World R) RouteError A]: a state of the
    world to a result and a new state.  An early return keeps what was done
    before it, as in the code.  The world holds the committed database and the
    transaction of the request, the generator, the readings of the clock, the
    calls made to the homeserver and the activity recorded, and for each of the
    next statements, homeserver calls and renderings whether it fails; theorems
    quantify over it, so they cover every failure of the database, of the
    homeserver and of a template at every point, those that follow the commit
    included.  A transaction is opened by [from_pool] and committed by
    [save]; a handler that returns before [save] leaves the committed database
    alone.  An [INSERT] or [UPDATE] that violates a constraint of
    crates/storage-pg/migrations is refused, and a [DELETE] cascades as they say,
    so the constraints hold in every state of a history ([steps_integrity] and
    [steps_accounts], which the other theorems build on).  Dates are microseconds, the
    resolution of the columns; identifiers are the 128-bit integers of ULIDs;
    a string is the list of its UTF-8 bytes.  The generator, hashes, ciphers,
    signatures, the policy engine, templates and the homeserver are parameters.
    A page is the value its template is given, if the template renders; a cookie
    jar is what its cookies decode to.

    Loops that are not structural take fuel.  That of [base62_encode] has six
    turns, and [base62_encode_u32] shows that they are enough for every [u32].
    Following the links of a listing ([read_all]) and collecting the devices of
    a user ([cycle]) answer [None] when the fuel runs out: [sessions_enumerated]
    and [sync_devices_ends] show that one turn more than there are rows is
    enough, and [browser_sessions_never_enumerated] that for browser sessions no
    fuel is.  The loop of a clean-up ([batches]) ends after one turn more than
    there are full batches of old rows ([cleanup_ends]).

    ** What is shown

    - The endpoints: when a request is answered with tokens, and exactly what is
      then committed ([code_exchange], [refresh_rotation], [device_exchange],
      [client_credentials_session], [device_authorization],
      [revocation_ends_session], [create_session_admin], [end_session_rights],
      [requester_authenticated], [compat_login_opens_session],
      [compat_refresh_rotation], [compat_logout_ends_sessions]); that a refused request commits nothing, the
      session ended by a replayed code apart ([token_refused_atomic],
      [revoke_refused_atomic], [mutation_refused_atomic]); what the
      introspection answers, against the documented rules
      ([introspection_truthful]).
    - The pages and clients: a consent needs a form of the service and a user who
      is signed in ([consent_protected], [device_consent_protected],
      [form_roundtrip]); where a request is answered ([authorization_requested]);
      which metadata are accepted, said of their fields alone
      ([metadata_validated]), which clients are registered, and that they
      authenticate ([client_registered], [registered_client_authenticates],
      [verify_iff]).
    - Accounts: what the end of a registration requires and writes
      ([registration_finished]); who sets a password by recovery
      ([account_recovered]).
    - Histories: a session never has two live refresh tokens nor two valid access
      tokens ([one_valid_token_per_session], [one_compat_refresh_token]); a code
      and a login token are exchanged once ([code_exchanged_once],
      [login_token_exchanged_once]); a finished session stays so and its tokens
      are dead ([finished_session_is_final], [compat_session_over]); a recovery
      sets one password ([recovery_used_once]); rows only move forward
      ([nothing_taken_back]).
    - The clean-ups: a job that ends has removed the old rows of its table, all
      of them and nothing else, and the constraints of the schema hold after it
      ([old_rows_cleaned]).
    - The tasks and the queue: [deactivation_locks_out], [devices_synced],
      [queue_invariant], [job_moves_forward], [leader_exclusive],
      [available_job_reserved].
    - The repositories refine the state machines of the data model: what an
      operation returns is what is stored and read back ([tokens_stored],
      [sessions_stored], [grants_stored], [stored_read_back],
      [upstream_sessions_refine], [provider_reads_back]).
    - The formats: scopes, tokens, PKCE, ULIDs, node identifiers, error codes.
    - Where the code falls short: grants that are stored and cannot be read
      ([device_without_scope], [unknown_method_unreadable]), a checksum that is
      not injective ([base62_encode_not_injective]), clients that can never
      authenticate ([client_without_method_refused]), jobs that are lost
      ([device_jobs_lost]), the largest page ([largest_page_panics]), personal
      tokens of locked users ([locked_actor_diverges]).

    ** What is not modelled

    Requests run one after the other: the interleaving of concurrent
    transactions (PostgreSQL's READ COMMITTED) is not modelled, and the
    histories contain the [DELETE] statements of the clean-up jobs for the tables
    of the accounts, not those for the tables of tokens and sessions, which
    [CleanupFacts] studies by themselves.  The
    transactions of the handlers that are not modelled appear in [Lifecycle] as
    arbitrary sequences of the repository operations they use.  Left out: the
    pages that log in with upstream providers, the user info endpoint, the
    queries of GraphQL, the pruning of stale policy data, the REST handlers of the administration API, the
    transport of emails, the Rego policies, and the crates that only render,
    translate, configure or transport. *)

From stdpp Require Import base tactics list strings gmap sorting.
From Stdlib Require Import ZArith Lia.

(** ** Scope, hint databases and tactics of the development *)

Declare Scope mas_scope.
Delimit Scope mas_scope with mas.
Open Scope mas_scope.

Create HintDb mas.
Create HintDb keeps.
Create HintDb mas_ops.

(** Abbreviations of the identifiers and clock readings of the program: a
    [Ulid] is its 128-bit value, a [DateTime<Utc>] its distance to the epoch
    in microseconds (the resolution of the [timestamptz] columns), a
    [Duration] a number of microseconds. *)
Abbreviation Ulid := Z (only parsing).
Abbreviation DateTime := Z (only parsing).
Abbreviation Duration := Z (only parsing).

(** ** Rust's [Result] *)

Inductive result (E A : Type) : Type :=
| Ok (a : A)
| Err (e : E).
Arguments Ok {E A} _.
Arguments Err {E A} _.

#[export] Instance result_eq_dec {E A} `{EqDecision E, EqDecision A} :
  EqDecision (result E A).
Proof. solve_decision. Defined.

Definition is_ok {E A} (r : result E A) : bool :=
  match r with Ok _ => true | Err _ => false end.

(** [Result::map_err] and [Option::ok_or]. *)
Definition map_err {E F A} (f : E → F) (r : result E A) : result F A :=
  match r with Ok a => Ok a | Err e => Err (f e) end.

Definition ok_or {E A} (o : option A) (e : E) : result E A :=
  match o with Some a => Ok a | None => Err e end.

(** The [?] operator on plain results. *)
Definition rbind {E A B} (r : result E A) (f : A → result E B) : result E B :=
  match r with Ok a => f a | Err e => Err e end.

Notation "'try' x <- r ; k" := (rbind r (fun x => k))
  (at level 60, x pattern, r at next level, right associativity) : mas_scope.

Lemma rbind_Ok_inv {E A B} (r : result E A) (f : A → result E B) b :
  rbind r f = Ok b → ∃ a, r = Ok a ∧ f a = Ok b.
Proof. destruct r; simpl; naive_solver. Qed.

(** [Iterator::collect] into a [Result]: the first error, or all values. *)
Fixpoint collect {E A B} (f : A → result E B) (l : list A) : result E (list B) :=
  match l with
  | [] => Ok []
  | x :: l => try y <- f x; try ys <- collect f l; Ok (y :: ys)
  end.

Lemma collect_Ok_Forall2 {E A B} (f : A → result E B) l r :
  collect f l = Ok r ↔ Forall2 (λ x y, f x = Ok y) l r.
Proof.
  revert r. induction l as [|x l IH]; intros r; simpl.
  - split; [intros [= <-]; constructor | intros H; by inversion H].
  - split.
    + intros (y & Hy & (ys & Hys & [= <-])%rbind_Ok_inv)%rbind_Ok_inv.
      constructor; [done | by apply IH].
    + intros H. inversion H as [|? y ? ys Hy Hys]; subst.
      rewrite Hy. simpl. apply IH in Hys as ->. done.
Qed.

Lemma collect_id {E A} (f : A → result E A) l :
  Forall (λ x, f x = Ok x) l → collect f l = Ok l.
Proof. intros H. apply collect_Ok_Forall2. by induction H; constructor. Qed.

(** ** State and error monad of the request handlers

    A handler runs against a world [W] and ends with a [Result]; the effects
    made before an early return stay in the world. *)
Definition M (W E A : Type) : Type := W → result E A * W.

Section Monad.
Context {W : Type}.

Definition ret {E A} (a : A) : M W E A := λ w, (Ok a, w).
Definition fail {E A} (e : E) : M W E A := λ w, (Err e, w).

Definition bind {E A B} (m : M W E A) (f : A → M W E B) : M W E B := λ w,
  match m w with
  | (Ok a, w') => f a w'
  | (Err e, w') => (Err e, w')
  end.

(** [.map_err(f)] on a computation. *)
Definition mmap_err {E F A} (f : E → F) (m : M W E A) : M W F A := λ w,
  let '(r, w') := m w in (map_err f r, w').

(** A pure [Result] used inside a handler. *)
Definition lift {E A} (r : result E A) : M W E A := λ w, (r, w).

Definition gets {E A} (f : W → A) : M W E A := λ w, (Ok (f w), w).
Definition modify {E} (f : W → W) : M W E unit := λ w, (Ok tt, f w).

Lemma bind_Ok_inv {E A B} (m : M W E A) (f : A → M W E B) w b w' :
  bind m f w = (Ok b, w') →
  ∃ a w1, m w = (Ok a, w1) ∧ f a w1 = (Ok b, w').
Proof. unfold bind. destruct (m w) as [[a|e] w1]; naive_solver. Qed.

Lemma bind_Err_inv {E A B} (m : M W E A) (f : A → M W E B) w e w' :
  bind m f w = (Err e, w') →
  m w = (Err e, w') ∨ ∃ a w1, m w = (Ok a, w1) ∧ f a w1 = (Err e, w').
Proof. unfold bind. destruct (m w) as [[a|e'] w1]; naive_solver. Qed.

Lemma mmap_err_Ok_inv {E F A} (f : E → F) (m : M W E A) w a w' :
  mmap_err f m w = (Ok a, w') → m w = (Ok a, w').
Proof. unfold mmap_err. destruct (m w) as [[]]; naive_solver. Qed.

Lemma mmap_err_Err_inv {E F A} (f : E → F) (m : M W E A) w e w' :
  mmap_err f m w = (Err e, w') → ∃ e', m w = (Err e', w') ∧ e = f e'.
Proof. unfold mmap_err. destruct (m w) as [[]]; naive_solver. Qed.

Lemma lift_inv {E A} (r r' : result E A) w w' :
  lift r w = (r', w') → r' = r ∧ w' = w.
Proof. unfold lift. naive_solver. Qed.

(** ** Relations every run of a computation keeps

    [keeps R m]: whatever [m] returns, an error included, the world it
    leaves is related to the one it started from. *)
Definition keeps {E A} (R : W → W → Prop) (m : M W E A) : Prop :=
  ∀ w, R w (m w).2.

Context (R : W → W → Prop) `{!PreOrder R}.

Lemma keeps_ret {E A} (a : A) : keeps R (@ret E A a).
Proof. intros w. simpl. reflexivity. Qed.

Lemma keeps_fail {E A} (e : E) : keeps R (@fail E A e).
Proof. intros w. simpl. reflexivity. Qed.

Lemma keeps_lift {E A} (r : result E A) : keeps R (lift r).
Proof. intros w. simpl. reflexivity. Qed.

Lemma keeps_gets {E A} (f : W → A) : keeps R (@gets E A f).
Proof. intros w. simpl. reflexivity. Qed.

Lemma keeps_bind {E A B} (m : M W E A) (f : A → M W E B) :
  keeps R m → (∀ a, keeps R (f a)) → keeps R (bind m f).
Proof.
  intros Hm Hf w. specialize (Hm w). unfold bind.
  destruct (m w) as [[a|e] w1]; [|done].
  transitivity w1; [done | apply Hf].
Qed.

Lemma keeps_mmap_err {E F A} (f : E → F) (m : M W E A) :
  keeps R m → keeps R (mmap_err f m).
Proof. intros Hm w. specialize (Hm w). unfold mmap_err. by destruct (m w). Qed.

(** The same for the runs that end with an error only. *)
Definition err_keeps {E A} (m : M W E A) : Prop :=
  ∀ w e w', m w = (Err e, w') → R w w'.

Lemma keeps_err_keeps {E A} (m : M W E A) : keeps R m → err_keeps m.
Proof. intros Hm w e w' Hw. specialize (Hm w). by rewrite Hw in Hm. Qed.

Lemma err_keeps_bind {E A B} (m : M W E A) (f : A → M W E B) :
  keeps R m → (∀ a, err_keeps (f a)) → err_keeps (bind m f).
Proof.
  intros Hm Hf w e w' [H|(a & w1 & H & H1)]%bind_Err_inv.
  - by apply (keeps_err_keeps m Hm) in H.
  - specialize (Hm w). rewrite H in Hm. simpl in Hm. transitivity w1; [done | by eapply Hf].
Qed.

Lemma keeps_run {E A} (m : M W E A) w r w' :
  keeps R m → m w = (r, w') → R w w'.
Proof. intros Hm Hw. specialize (Hm w). by rewrite Hw in Hm. Qed.
End Monad.

Notation "'do' x <- m ; k" := (bind m (fun x => k))
  (at level 60, x pattern, m at next level, right associativity) : mas_scope.
Notation "'do!' m ; k" := (bind m (fun _ => k))
  (at level 60, m at next level, right associativity) : mas_scope.

#[export] Hint Resolve keeps_ret keeps_fail keeps_lift keeps_gets : keeps.

(** A run, from what it answers. *)
Lemma fst_run {A B} (p : A * B) a : p.1 = a → p = (a, p.2).
Proof. by destruct p; simpl; intros ->. Qed.

(** Closes [keeps R m] for a handler built from [bind], [match] and
    operations whose own [keeps] lemma is in the database [keeps] or whose
    definition is in the database [mas_ops]. *)
Ltac keeps_tac :=
  repeat (intros; lazymatch goal with
    | |- keeps _ (bind _ _) => apply keeps_bind; [try apply _ | | intros ?]
    | |- keeps _ (mmap_err _ _) => apply keeps_mmap_err
    | |- keeps _ (match ?x with _ => _ end) => destruct x
    | |- keeps _ (let '(_, _) := ?x in _) => destruct x
    | |- keeps _ _ =>
        first [solve [eauto with keeps typeclass_instances]
              | progress autounfold with mas_ops]
    | |- PreOrder _ => apply _
    end).

(** Inverts a successful run one step at a time. *)
Ltac minv H :=
  repeat lazymatch type of H with
    | bind _ _ _ = (Ok _, _) =>
        let a := fresh "a" in let w := fresh "w" in
        let Hm := fresh "Hm" in
        apply bind_Ok_inv in H as (a & w & Hm & H)
    | ret _ _ = (Ok _, _) => injection H as ? ?; subst
    | fail _ _ = (Ok _, _) => discriminate H
    end.
