(* ===== verification/Text.v ===== *)
(** * Strings and ordered sets of strings

    The operations of Rust's [str] and [BTreeSet<String>] the program uses,
    with the lemmas the components share.  A Rust [String] is the list of its
    UTF-8 bytes. *)

From stdpp Require Import base tactics list strings sets sorting.
From Stdlib Require Import ZArith Lia Ascii.
From S2P Require Import Prelude.

(** [s.chars().all(p)] for a predicate that rejects every non-ASCII
    character: on the bytes of the string. *)
Fixpoint all_chars (p : ascii → bool) (s : string) : bool :=
  match s with
  | EmptyString => true
  | String c s => p c && all_chars p s
  end.

(** [s.len()], in bytes. *)
Fixpoint str_len (s : string) : nat :=
  match s with EmptyString => 0 | String _ s => S (str_len s) end.

(** [s.strip_prefix(p)]. *)
Fixpoint str_strip_prefix (p s : string) : option string :=
  match p, s with
  | EmptyString, _ => Some s
  | String a p, String b s => if decide (a = b) then str_strip_prefix p s else None
  | String _ _, EmptyString => None
  end.

(** [s.starts_with(p)]. *)
Definition starts_with (s p : string) : bool :=
  match str_strip_prefix p s with Some _ => true | None => false end.

(** [s.split(c)]: never empty, [""] splits to [[""]]. *)
Fixpoint split_char (c : ascii) (s : string) : list string :=
  match s with
  | EmptyString => [""]
  | String d s' =>
      if decide (d = c) then "" :: split_char c s'
      else match split_char c s' with
           | w :: ws => String d w :: ws
           | [] => [String d ""]
           end
  end.

(** The pieces of a non-empty list separated by [c]. *)
Fixpoint join_char (c : ascii) (l : list string) : string :=
  match l with
  | [] => ""
  | [w] => w
  | w :: l => w +:+ String c (join_char c l)
  end.

Definition no_char (c : ascii) (s : string) : bool :=
  all_chars (λ d, bool_decide (d ≠ c)) s.

(** [str::split_once] on a character. *)
Fixpoint split_once (c : ascii) (s : string) : option (string * string) :=
  match s with
  | EmptyString => None
  | String a s =>
      if Ascii.eqb a c then Some (EmptyString, s)
      else match split_once c s with
           | Some (l, r) => Some (String a l, r)
           | None => None
           end
  end.

(** [s.contains(c)] for an ASCII character. *)
Definition has_char (c : ascii) (s : string) : bool := negb (no_char c s).

(** ** Lemmas on strings *)

Lemma split_once_app c p s :
  no_char c p = true → split_once c (p +:+ String c s) = Some (p, s).
Proof.
  induction p as [|a p IH]; simpl; intros Hp.
  - by rewrite Ascii.eqb_refl.
  - unfold no_char in Hp. simpl in Hp. apply andb_true_iff in Hp as [Ha Hp].
    apply bool_decide_eq_true in Ha. destruct (Ascii.eqb_spec a c) as [->|_]; [done|].
    by rewrite IH.
Qed.

Lemma app_str_cons a s t : String a s +:+ t = String a (s +:+ t).
Proof. done. Qed.

Lemma app_str_nil_l (s : string) : "" +:+ s = s.
Proof. done. Qed.

Lemma app_str_nil_r (s : string) : s +:+ "" = s.
Proof. induction s as [|a s IH]; [done|]. rewrite app_str_cons. congruence. Qed.

Lemma app_str_assoc (s t u : string) : (s +:+ t) +:+ u = s +:+ (t +:+ u).
Proof. induction s as [|a s IH]; [done|]. rewrite !app_str_cons. by f_equal. Qed.

Lemma all_chars_app p s t :
  all_chars p (s +:+ t) = all_chars p s && all_chars p t.
Proof.
  induction s as [|a s IH]; [done|].
  rewrite app_str_cons. simpl. rewrite IH. apply andb_assoc.
Qed.

Lemma all_chars_impl (p q : ascii → bool) s :
  (∀ c, p c = true → q c = true) → all_chars p s = true → all_chars q s = true.
Proof.
  intros Hpq. induction s as [|a s IH]; [done|]. simpl.
  rewrite !andb_true_iff. intros [H1 H2]. auto.
Qed.

Lemma str_len_app s t : str_len (s +:+ t) = (str_len s + str_len t)%nat.
Proof. induction s as [|a s IH]; [done|]. rewrite app_str_cons. simpl. lia. Qed.

Lemma str_strip_prefix_app p s : str_strip_prefix p (p +:+ s) = Some s.
Proof.
  induction p as [|a p IH]; [done|]. rewrite app_str_cons. simpl.
  by rewrite decide_True.
Qed.

Lemma str_strip_prefix_Some p s t : str_strip_prefix p s = Some t ↔ s = p +:+ t.
Proof.
  split; [|intros ->; apply str_strip_prefix_app].
  revert s. induction p as [|a p IH]; intros s; simpl; [naive_solver|].
  destruct s as [|b s]; [done|]. case_decide; [|done]. subst.
  intros ->%IH. by rewrite app_str_cons.
Qed.

Lemma split_char_cons c s : ∃ w ws, split_char c s = w :: ws.
Proof.
  destruct s as [|d s]; simpl; [eauto|].
  case_decide; [eauto|]. destruct (split_char c s); eauto.
Qed.

Lemma split_char_word c w :
  no_char c w = true → split_char c w = [w].
Proof.
  induction w as [|d w IH]; [done|]. unfold no_char in *. simpl.
  rewrite andb_true_iff, bool_decide_eq_true. intros [Hd Hw].
  by rewrite decide_False, IH by done.
Qed.

Lemma split_char_app c w s :
  no_char c w = true → split_char c (w +:+ String c s) = w :: split_char c s.
Proof.
  induction w as [|d w IH]; intros Hw.
  - simpl. by rewrite decide_True.
  - unfold no_char in *. simpl in Hw. rewrite andb_true_iff, bool_decide_eq_true in Hw.
    destruct Hw as [Hd Hw]. rewrite app_str_cons. simpl.
    by rewrite decide_False, IH by done.
Qed.

(** Splitting what was joined gives the pieces back. *)
Lemma split_join c (l : list string) :
  l ≠ [] → Forall (λ w, no_char c w = true) l → split_char c (join_char c l) = l.
Proof.
  intros Hne Hl. induction Hl as [|w l Hw Hl IH]; [done|].
  destruct l as [|w' l]; [by apply split_char_word|].
  change (join_char c (w :: w' :: l)) with (w +:+ String c (join_char c (w' :: l))).
  rewrite split_char_app by done. by rewrite IH.
Qed.

(** The pieces of a split are free of the separator and join back. *)
Lemma split_join_inv c s l :
  split_char c s = l → s = join_char c l ∧ Forall (λ w, no_char c w = true) l.
Proof.
  intros <-. induction s as [|d s IH]; simpl; [by repeat constructor|].
  destruct IH as [IH1 IH2].
  destruct (split_char_cons c s) as (w & ws & Hw). rewrite Hw in *.
  case_decide as Hd.
  - subst d. split; [|by constructor]. rewrite IH1 at 1. done.
  - apply Forall_cons in IH2 as [Hw1 Hw2]. split.
    + rewrite IH1 at 1. by destruct ws.
    + constructor; [|done]. unfold no_char in *. simpl. rewrite Hw1.
      by rewrite bool_decide_eq_true_2.
Qed.

(** ** [BTreeSet<String>]

    A set is the strictly increasing list of its elements, in the order the
    set iterates in. *)
Definition str_lt (s t : string) : Prop := String.compare s t = Lt.

Fixpoint btree_insert (x : string) (l : list string) : list string :=
  match l with
  | [] => [x]
  | y :: l' =>
      match String.compare x y with
      | Lt => x :: l
      | Eq => l
      | Gt => y :: btree_insert x l'
      end
  end.

(** [BTreeSet::from_iter]. *)
Definition btree_of_list (l : list string) : list string :=
  foldl (λ s x, btree_insert x s) [] l.

Definition btree_contains (x : string) (l : list string) : bool :=
  bool_decide (x ∈ l).

(** [BTreeSet::append]. *)
Definition btree_append (l l' : list string) : list string :=
  foldl (λ s x, btree_insert x s) l l'.

Lemma str_compare_refl s : String.compare s s = Eq.
Proof.
  assert (String.compare s s = CompOpp (String.compare s s)) as H
    by apply String.compare_antisym.
  by destruct (String.compare s s).
Qed.

#[export] Instance str_lt_strict : StrictOrder str_lt.
Proof.
  unfold str_lt. split.
  - intros s H. by rewrite str_compare_refl in H.
  - intros s t u Hst Htu.
    destruct (String.compare s u) eqn:Hsu; [exfalso|done|exfalso].
    + apply String.compare_eq_iff in Hsu as ->.
      rewrite String.compare_antisym in Hst. rewrite Htu in Hst. discriminate.
    + assert (String.le s t) as H1 by (unfold String.le, String.leb; by rewrite Hst).
      assert (String.le t u) as H2 by (unfold String.le, String.leb; by rewrite Htu).
      assert (String.le s u) as H3 by (by etrans).
      unfold String.le, String.leb in H3. by rewrite Hsu in H3.
Qed.

Lemma str_compare_Gt s t : String.compare s t = Gt ↔ str_lt t s.
Proof.
  unfold str_lt. rewrite String.compare_antisym.
  destruct (String.compare t s); naive_solver.
Qed.

Definition btree_ok (l : list string) : Prop := StronglySorted str_lt l.

Lemma elem_of_btree_insert x y l : x ∈ btree_insert y l ↔ x = y ∨ x ∈ l.
Proof.
  induction l as [|z l IH]; simpl; [set_solver|].
  destruct (String.compare y z) eqn:Hc; [|set_solver|set_solver].
  apply String.compare_eq_iff in Hc as ->. set_solver.
Qed.

Lemma btree_insert_ok x l : btree_ok l → btree_ok (btree_insert x l).
Proof.
  intros Hl. induction Hl as [|y l Hl IH Hy]; simpl; [repeat constructor|].
  destruct (String.compare x y) eqn:Hc; [by constructor| |].
  - constructor; [by constructor|]. constructor; [done|].
    eapply Forall_impl; [exact Hy|]. intros z Hz. by transitivity y.
  - constructor; [done|]. apply Forall_forall. intros z Hz.
    apply elem_of_btree_insert in Hz as [->|Hz].
    + by apply str_compare_Gt.
    + rewrite Forall_forall in Hy. by apply Hy.
Qed.

Lemma elem_of_btree_append x l l' : x ∈ btree_append l l' ↔ x ∈ l ∨ x ∈ l'.
Proof.
  unfold btree_append. revert l. induction l' as [|y l' IH]; intros l; simpl.
  - set_solver.
  - rewrite IH, elem_of_btree_insert. set_solver.
Qed.

Lemma btree_append_ok l l' : btree_ok l → btree_ok (btree_append l l').
Proof.
  unfold btree_append. revert l. induction l' as [|y l' IH]; intros l Hl; simpl; [done|].
  apply IH. by apply btree_insert_ok.
Qed.

Lemma elem_of_btree_of_list x l : x ∈ btree_of_list l ↔ x ∈ l.
Proof. unfold btree_of_list. rewrite (elem_of_btree_append x [] l). set_solver. Qed.

Lemma btree_of_list_ok l : btree_ok (btree_of_list l).
Proof. apply (btree_append_ok [] l). constructor. Qed.

(** A set is determined by its elements. *)
Lemma btree_ext l l' :
  btree_ok l → btree_ok l' → (∀ x, x ∈ l ↔ x ∈ l') → l = l'.
Proof.
  intros Hl. revert l'. induction Hl as [|x l Hl IH Hx]; intros l' Hl' Heq.
  - destruct l' as [|y l']; [done|]. exfalso.
    apply (not_elem_of_nil y), Heq, list_elem_of_here.
  - destruct Hl' as [|y l' Hl' Hy].
    { exfalso. apply (not_elem_of_nil x), Heq, list_elem_of_here. }
    rewrite Forall_forall in Hx, Hy. setoid_rewrite elem_of_cons in Heq.
    assert (x = y) as ->.
    { destruct (proj1 (Heq x) (or_introl eq_refl)) as [|Hxl']; [done|].
      destruct (proj2 (Heq y) (or_introl eq_refl)) as [|Hyl]; [done|].
      exfalso. apply (irreflexivity str_lt x). transitivity y; auto. }
    assert (y ∉ l) by (intros Hz; by apply (irreflexivity str_lt y), Hx).
    assert (y ∉ l') by (intros Hz; by apply (irreflexivity str_lt y), Hy).
    f_equal. apply IH; [done|]. intros z. specialize (Heq z). naive_solver.
Qed.

(** Collecting the elements of a set builds the same set. *)
Lemma btree_of_list_id l : btree_ok l → btree_of_list l = l.
Proof.
  intros Hl. apply btree_ext; [apply btree_of_list_ok|done|].
  intros x. apply elem_of_btree_of_list.
Qed.

#[export] Hint Resolve btree_insert_ok btree_append_ok btree_of_list_ok : mas.
