(* ===== verification/Scope.v ===== *)
(** * Scopes and device scopes

    crates/oauth2-types/src/scope.rs ([ScopeToken], [Scope]),
    crates/data-model/src/compat/device.rs ([Device]),
    crates/data-model/src/pg_scopes.rs and [normalize_scope] of
    crates/handlers/src/oauth2/introspection.rs. *)

From stdpp Require Import base tactics list strings sorting.
From Stdlib Require Import ZArith Lia Ascii.
From S2P Require Import Prelude Text.

(** ** Scope tokens *)

Inductive InvalidScope : Type := InvalidScope_.

(** [ScopeToken(Cow<'static, str>)]: the string it holds. *)
Abbreviation ScopeToken := string (only parsing).

Definition OPENID : ScopeToken := "openid".

(** NQCHAR = %x21 / %x23-5B / %x5D-7E *)
Definition nqchar (c : ascii) : bool :=
  let n := N_of_ascii c in
  (n =? 0x21)%N || ((0x23 <=? n)%N && (n <=? 0x5B)%N)
  || ((0x5D <=? n)%N && (n <=? 0x7E)%N).

Definition ScopeToken_from_str (s : string) : result InvalidScope ScopeToken :=
  if bool_decide (s ≠ "") && all_chars nqchar s then Ok s else Err InvalidScope_.

(** ** Scopes *)

(** [Scope(BTreeSet<ScopeToken>)]: the tokens in iteration order. *)
Abbreviation Scope := (list string) (only parsing).

Definition Scope_from_str (s : string) : result InvalidScope Scope :=
  try scopes <- collect ScopeToken_from_str (split_char " " s);
  Ok (btree_of_list scopes).

Definition Scope_is_empty (s : Scope) : bool :=
  match s with [] => true | _ => false end.

Definition Scope_contains (s : Scope) (token : string) : bool :=
  match ScopeToken_from_str token with
  | Ok token => btree_contains token s
  | Err _ => false
  end.

(** [Display]: the first token bare, every other one after a space. *)
Definition Scope_to_string (s : Scope) : string :=
  match s with
  | [] => ""
  | t :: s => t +:+ foldr (λ token acc, " " +:+ token +:+ acc) "" s
  end.

(** [impl FromIterator<ScopeToken> for Scope]. *)
Definition Scope_from_iter (l : list ScopeToken) : Scope := btree_of_list l.

(** The scopes of this fork that drive session expiration and logout. *)
Definition PG_MAS_LOGOUT : ScopeToken := "urn:pg:mas-logout".
Definition PG_SESSION_SHORT_LIVED : ScopeToken := "urn:pg:session:short-lived".
Definition PG_SESSION_LONG_LIVED : ScopeToken := "urn:pg:session:long-lived".

(** ** Devices *)

Module Device.
Definition UNSTABLE_DEVICE_SCOPE_PREFIX : string :=
  "urn:matrix:org.matrix.msc2967.client:device:".
Definition STABLE_DEVICE_SCOPE_PREFIX : string := "urn:matrix:client:device:".

Record Device := mkDevice { id : string }.

Inductive ToScopeTokenError : Type := InvalidCharacters.

Definition to_scope_token (d : Device) :
    result ToScopeTokenError (ScopeToken * ScopeToken) :=
  try stable <- map_err (λ _, InvalidCharacters)
    (ScopeToken_from_str (STABLE_DEVICE_SCOPE_PREFIX +:+ id d));
  try unstable <- map_err (λ _, InvalidCharacters)
    (ScopeToken_from_str (UNSTABLE_DEVICE_SCOPE_PREFIX +:+ id d));
  Ok (stable, unstable).

Definition from_scope_token (token : ScopeToken) : option Device :=
  let stable := str_strip_prefix STABLE_DEVICE_SCOPE_PREFIX token in
  let unstable := str_strip_prefix UNSTABLE_DEVICE_SCOPE_PREFIX token in
  id' ← match stable with Some i => Some i | None => unstable end;
  Some (mkDevice id').

Definition GENERATED_DEVICE_ID_LENGTH : nat := 10.

(** [PersonalSession::has_device] asks this of a scope. *)
Definition has_device (s : Scope) : bool :=
  existsb (λ t, match from_scope_token t with Some _ => true | None => false end) s.
End Device.

(** ** Scope normalization of the introspection endpoint *)

Definition UNSTABLE_API_SCOPE : ScopeToken :=
  "urn:matrix:org.matrix.msc2967.client:api:*".
Definition STABLE_API_SCOPE : ScopeToken := "urn:matrix:client:api:*".
Definition SYNAPSE_ADMIN_SCOPE : ScopeToken := "urn:synapse:admin:*".

(** What one token adds; [None] stands for the panic of the [expect]. *)
Definition normalize_token (token : ScopeToken) : option (list ScopeToken) :=
  if decide (token = STABLE_API_SCOPE) then Some [UNSTABLE_API_SCOPE]
  else if decide (token = UNSTABLE_API_SCOPE) then Some [STABLE_API_SCOPE]
  else match Device.from_scope_token token with
       | Some device =>
           match Device.to_scope_token device with
           | Ok (stable, unstable) => Some [stable; unstable]
           | Err _ => None
           end
       | None => Some []
       end.

Fixpoint normalize_to_add (tokens : list ScopeToken) (to_add : list string) :
    option (list string) :=
  match tokens with
  | [] => Some to_add
  | token :: tokens =>
      extra ← normalize_token token;
      normalize_to_add tokens (btree_append to_add extra)
  end.

Definition normalize_scope (scope : Scope) : option Scope :=
  to_add ← normalize_to_add scope [];
  Some (btree_append scope to_add).

(** ** Well-formed scopes *)

Definition token_ok (t : string) : Prop := t ≠ "" ∧ all_chars nqchar t = true.

(** The invariant of the [Scope] type: an ordered set of valid tokens. *)
Definition scope_ok (s : Scope) : Prop := btree_ok s ∧ Forall token_ok s.

Lemma ScopeToken_from_str_Ok s t :
  ScopeToken_from_str s = Ok t ↔ t = s ∧ token_ok s.
Proof.
  unfold ScopeToken_from_str, token_ok.
  destruct (bool_decide (s ≠ "")) eqn:H1; simpl.
  - apply bool_decide_eq_true in H1. destruct (all_chars nqchar s); naive_solver.
  - apply bool_decide_eq_false in H1. naive_solver.
Qed.

Lemma ScopeToken_from_str_id t : token_ok t → ScopeToken_from_str t = Ok t.
Proof. intros. by apply ScopeToken_from_str_Ok. Qed.

Lemma nqchar_not_space c : nqchar c = true → c ≠ " "%char.
Proof. intros H ->. vm_compute in H. done. Qed.

Lemma token_ok_no_space t : token_ok t → no_char " " t = true.
Proof.
  intros [_ H]. eapply all_chars_impl; [|exact H].
  intros c Hc. apply bool_decide_eq_true. by apply nqchar_not_space.
Qed.

Lemma collect_tokens l r :
  collect ScopeToken_from_str l = Ok r → r = l ∧ Forall token_ok l.
Proof.
  intros H%collect_Ok_Forall2. induction H as [|x y l r Hxy Hl IH]; [done|].
  apply ScopeToken_from_str_Ok in Hxy as [-> Hx]. destruct IH as [-> IH].
  split; [done | by constructor].
Qed.

Lemma collect_tokens_id l : Forall token_ok l → collect ScopeToken_from_str l = Ok l.
Proof.
  intros H. apply collect_id. eapply Forall_impl; [exact H|].
  apply ScopeToken_from_str_id.
Qed.

Lemma Scope_contains_elem s t : token_ok t → Scope_contains s t = true ↔ t ∈ s.
Proof.
  intros Ht. unfold Scope_contains. rewrite ScopeToken_from_str_id by done.
  apply bool_decide_eq_true.
Qed.

Lemma Scope_to_string_join s : Scope_to_string s = join_char " " s.
Proof.
  destruct s as [|t s]; [done|]. revert t.
  induction s as [|u s IH]; intros t.
  - apply app_str_nil_r.
  - specialize (IH u). cbn in *. by rewrite <- IH.
Qed.

Lemma scope_ok_from_tokens l : Forall token_ok l → scope_ok (btree_of_list l).
Proof.
  intros H. split; [apply btree_of_list_ok|].
  rewrite Forall_forall in H. apply Forall_forall.
  intros x Hx. apply H. by rewrite elem_of_btree_of_list in Hx.
Qed.

(** Parsing yields exactly the space-separated pieces, as an ordered set. *)
Lemma Scope_from_str_spec s sc :
  Scope_from_str s = Ok sc →
  scope_ok sc ∧ sc ≠ [] ∧ ∀ t, t ∈ sc ↔ t ∈ split_char " " s.
Proof.
  intros (l & Hl & [= <-])%rbind_Ok_inv.
  apply collect_tokens in Hl as [-> Hok].
  split; [by apply scope_ok_from_tokens|]. split.
  - intros Hnil. destruct (split_char_cons " " s) as (w & ws & Hw).
    apply (not_elem_of_nil w). rewrite <- Hnil.
    apply elem_of_btree_of_list. rewrite Hw. apply list_elem_of_here.
  - intros t. apply elem_of_btree_of_list.
Qed.

Lemma Scope_reads_back s :
  scope_ok s → s ≠ [] → Scope_from_str (Scope_to_string s) = Ok s.
Proof.
  intros [Hs Hok] Hne. unfold Scope_from_str.
  rewrite Scope_to_string_join, split_join; [|done|].
  - rewrite collect_tokens_id by done. simpl. by rewrite btree_of_list_id.
  - eapply Forall_impl; [exact Hok | apply token_ok_no_space].
Qed.

Lemma Scope_from_str_empty : Scope_from_str (Scope_to_string []) = Err InvalidScope_.
Proof. reflexivity. Qed.

(** Printing a well-formed scope and parsing the text gives the same scope
    back, so the text columns that store scopes lose nothing, with one
    exception: the text of the empty scope is not a scope. *)
Theorem scope_print_parse s :
  scope_ok s →
  Scope_from_str (Scope_to_string s) = if Scope_is_empty s then Err InvalidScope_ else Ok s.
Proof.
  intros Hs. destruct s as [|t s]; [apply Scope_from_str_empty|].
  by apply Scope_reads_back.
Qed.

Lemma scope_print_parse_witness :
  Scope_from_str (Scope_to_string ["email"; "openid"]) = Ok ["email"; "openid"].
Proof.
  apply (scope_print_parse ["email"; "openid"]). split.
  - repeat constructor.
  - repeat constructor; done.
Defined.

(** ** Devices *)

Lemma prefix_token_ok p t :
  p ≠ "" → all_chars nqchar p = true → all_chars nqchar t = true → token_ok (p +:+ t).
Proof.
  intros Hne Hp Ht. split; [by destruct p|]. by rewrite all_chars_app, Hp, Ht.
Qed.

Lemma device_tokens (i : string) :
  all_chars nqchar i = true →
  token_ok (Device.STABLE_DEVICE_SCOPE_PREFIX +:+ i) ∧
  token_ok (Device.UNSTABLE_DEVICE_SCOPE_PREFIX +:+ i).
Proof. intros Hi. split; apply prefix_token_ok; done. Qed.

Lemma to_scope_token_Ok d :
  all_chars nqchar (Device.id d) = true →
  Device.to_scope_token d =
    Ok (Device.STABLE_DEVICE_SCOPE_PREFIX +:+ Device.id d,
        Device.UNSTABLE_DEVICE_SCOPE_PREFIX +:+ Device.id d).
Proof.
  intros [H1 H2]%device_tokens. unfold Device.to_scope_token.
  by rewrite !ScopeToken_from_str_id.
Qed.

Lemma from_scope_token_stable i :
  Device.from_scope_token (Device.STABLE_DEVICE_SCOPE_PREFIX +:+ i)
  = Some (Device.mkDevice i).
Proof. unfold Device.from_scope_token. by rewrite str_strip_prefix_app. Qed.

Lemma from_scope_token_unstable i :
  Device.from_scope_token (Device.UNSTABLE_DEVICE_SCOPE_PREFIX +:+ i)
  = Some (Device.mkDevice i).
Proof.
  unfold Device.from_scope_token. rewrite str_strip_prefix_app.
  by replace (str_strip_prefix Device.STABLE_DEVICE_SCOPE_PREFIX _) with (@None string).
Qed.

Lemma from_scope_token_Some t d :
  Device.from_scope_token t = Some d →
  t = Device.STABLE_DEVICE_SCOPE_PREFIX +:+ Device.id d ∨
  t = Device.UNSTABLE_DEVICE_SCOPE_PREFIX +:+ Device.id d.
Proof.
  unfold Device.from_scope_token.
  destruct (str_strip_prefix Device.STABLE_DEVICE_SCOPE_PREFIX t) as [i|] eqn:H1.
  - intros [= <-]. left. by apply str_strip_prefix_Some.
  - destruct (str_strip_prefix Device.UNSTABLE_DEVICE_SCOPE_PREFIX t) as [i|] eqn:H2;
      intros [= <-]. right. by apply str_strip_prefix_Some.
Qed.

(** A device id made of scope characters survives the trip through
    either of its two scope tokens, and nothing but those two tokens denotes
    the device. *)
Theorem device_scope_roundtrip (d : Device.Device) :
  all_chars nqchar (Device.id d) = true →
  ∃ stable unstable,
    Device.to_scope_token d = Ok (stable, unstable) ∧
    ∀ t, Device.from_scope_token t = Some d ↔ t = stable ∨ t = unstable.
Proof.
  intros Hd. rewrite to_scope_token_Ok by done. eexists _, _. split; [done|].
  intros t. destruct d as [i]. split; [apply from_scope_token_Some|].
  intros [-> | ->]; [apply from_scope_token_stable | apply from_scope_token_unstable].
Qed.

Lemma device_scope_roundtrip_witness :
  ∃ stable unstable,
    Device.to_scope_token (Device.mkDevice "AABBCCDDEE") = Ok (stable, unstable) ∧
    ∀ t, Device.from_scope_token t = Some (Device.mkDevice "AABBCCDDEE")
         ↔ t = stable ∨ t = unstable.
Proof. apply device_scope_roundtrip. reflexivity. Defined.

(** ** Normalization *)

(** Two scope tokens that grant the same access: the same token, the two
    spellings of the API scope, or the two spellings of one device. *)
Inductive same_access : ScopeToken → ScopeToken → Prop :=
| same_refl t : same_access t t
| same_api_su : same_access STABLE_API_SCOPE UNSTABLE_API_SCOPE
| same_api_us : same_access UNSTABLE_API_SCOPE STABLE_API_SCOPE
| same_device t u d :
    Device.from_scope_token t = Some d → Device.from_scope_token u = Some d →
    same_access t u.

Lemma device_id_chars t d :
  token_ok t → Device.from_scope_token t = Some d →
  all_chars nqchar (Device.id d) = true.
Proof.
  intros [_ Ht] [-> | ->]%from_scope_token_Some;
    rewrite all_chars_app in Ht; by apply andb_true_iff in Ht as [_ Ht].
Qed.

(** What a valid token adds is valid and has the same meaning. *)
Lemma normalize_token_spec t :
  token_ok t →
  ∃ extra, normalize_token t = Some extra ∧ Forall token_ok extra ∧
    ∀ u, (u = t ∨ u ∈ extra) ↔ same_access t u.
Proof.
  intros Ht. unfold normalize_token. case_decide as H1.
  { subst. eexists. split; [done|]. split; [repeat constructor; done|].
    intros u. rewrite list_elem_of_singleton. split.
    - intros [-> | ->]; constructor.
    - inversion 1; subst; auto; discriminate. }
  case_decide as H2.
  { subst. eexists. split; [done|]. split; [repeat constructor; done|].
    intros u. rewrite list_elem_of_singleton. split.
    - intros [-> | ->]; constructor.
    - inversion 1; subst; auto; discriminate. }
  destruct (Device.from_scope_token t) as [d|] eqn:Hd.
  - pose proof (device_id_chars t d Ht Hd) as Hid.
    rewrite to_scope_token_Ok by done. eexists. split; [done|].
    destruct (device_tokens _ Hid) as [Hst Hun]. split; [by repeat constructor|].
    intros u. rewrite elem_of_cons, list_elem_of_singleton. split.
    + intros [->|[->| ->]]; [constructor| |]; apply (same_device _ _ d); try done;
        destruct d; [apply from_scope_token_stable|apply from_scope_token_unstable].
    + inversion 1 as [| | |? ? d' Hd' Hu]; subst; [by left|done|done|].
      rewrite Hd in Hd'. injection Hd' as <-. right. by apply from_scope_token_Some.
  - eexists. split; [done|]. split; [constructor|]. intros u. split.
    + intros [->|[]%not_elem_of_nil]. constructor.
    + inversion 1 as [| | |? ? d' Hd' Hu]; subst; [by left|done|done|congruence].
Qed.

Lemma normalize_to_add_spec tokens to_add :
  Forall token_ok tokens → Forall token_ok to_add →
  ∃ r, normalize_to_add tokens to_add = Some r ∧ Forall token_ok r ∧
    (∀ u, u ∈ to_add → u ∈ r) ∧
    ∀ u, (u ∈ tokens ∨ u ∈ r) ↔ (u ∈ to_add ∨ ∃ t, t ∈ tokens ∧ same_access t u).
Proof.
  intros Htok. revert to_add. induction Htok as [|t tokens Ht Htok IH]; intros to_add Hadd.
  - exists to_add. repeat split; auto; setoid_rewrite elem_of_nil; naive_solver.
  - destruct (normalize_token_spec t Ht) as (extra & He & Hok & Hsp). simpl. rewrite He. simpl.
    destruct (IH (btree_append to_add extra)) as (r & Hr & Hrok & Hsub & Hiff).
    { apply Forall_forall. intros x. rewrite elem_of_btree_append.
      rewrite Forall_forall in Hadd, Hok. naive_solver. }
    setoid_rewrite elem_of_btree_append in Hsub.
    setoid_rewrite elem_of_btree_append in Hiff.
    exists r. split; [done|]. split; [done|]. split; [naive_solver|].
    intros u. specialize (Hiff u). specialize (Hsp u). specialize (Hsub u).
    setoid_rewrite elem_of_cons. split.
    + intros [[->|Hu]|Hu]; [right; exists t; naive_solver| |].
      * destruct (proj1 Hiff) as [[|]|(t' & ? & ?)]; naive_solver.
      * destruct (proj1 Hiff) as [[|]|(t' & ? & ?)]; naive_solver.
    + intros [Hu|(t' & [->|Ht'] & Hs)]; [naive_solver|naive_solver|].
      destruct (proj2 Hiff) as [?|?]; naive_solver.
Qed.

(** On a well-formed scope the introspection endpoint's normalization does
    not panic, returns a well-formed scope, and adds exactly the equivalent
    spellings: a token is in the result iff it grants the same access as a
    token of the session. *)
Theorem normalize_scope_equiv s :
  scope_ok s →
  ∃ s', normalize_scope s = Some s' ∧ scope_ok s' ∧
    ∀ u, u ∈ s' ↔ ∃ t, t ∈ s ∧ same_access t u.
Proof.
  intros [Hs Hok]. unfold normalize_scope.
  destruct (normalize_to_add_spec s [] Hok) as (r & Hr & Hrok & _ & Hiff); [constructor|].
  rewrite Hr. simpl. eexists. split; [done|]. split; [split|].
  - by apply btree_append_ok.
  - apply Forall_forall. intros x. rewrite elem_of_btree_append.
    rewrite Forall_forall in Hok, Hrok. naive_solver.
  - intros u. rewrite elem_of_btree_append, Hiff, elem_of_nil. naive_solver.
Qed.

Lemma normalize_scope_equiv_witness :
  ∃ s', normalize_scope ["openid"; STABLE_API_SCOPE] = Some s' ∧ scope_ok s' ∧
    ∀ u, u ∈ s' ↔ ∃ t, t ∈ ["openid"; STABLE_API_SCOPE] ∧ same_access t u.
Proof. apply normalize_scope_equiv. split; repeat constructor; done. Defined.
