(* ===== verification/Externals.v ===== *)
(** * Crates the program calls

    The operations of third-party crates the modelled code uses, as classes
    of parameters, and the documented facts the theorems rely on, as classes
    of laws.  Nothing below is defined: every component takes these
    operations as arguments.  [Counter] gives a concrete instance, so that
    theorems under these laws have witnesses. *)

From stdpp Require Import base tactics list strings gmap.
From Stdlib Require Import ZArith Lia Ascii.
From S2P Require Import Prelude Text.

(** ASCII letters and digits. *)
Definition ascii_alphanumeric (c : ascii) : bool :=
  let n := N_of_ascii c in
  ((48 <=? n) && (n <=? 57) || (65 <=? n) && (n <=? 90) || (97 <=? n) && (n <=? 122))%N.

(** [rand]: a generator of 16-bit and 64-bit integers, and
    [rng.sample_iter(&Alphanumeric).take(n)]. *)
Class RngCore (R : Type) := {
  gen_u16 : R → Z * R;
  gen_u64 : R → Z * R;
  sample_alphanumeric : nat → R → string * R;
}.

(** The integers have their width; the samples have the requested length and
    are letters and digits. *)
Class RngLaws (R : Type) `{!RngCore R} : Prop := {
  gen_u16_range r : (0 ≤ (gen_u16 r).1 < 2 ^ 16)%Z;
  gen_u64_range r : (0 ≤ (gen_u64 r).1 < 2 ^ 64)%Z;
  sample_length n r : str_len (sample_alphanumeric n r).1 = n;
  sample_chars n r : all_chars ascii_alphanumeric (sample_alphanumeric n r).1 = true;
}.

(** [rand]: [Standard.sample] of an array of bytes. *)
Class RngBytes (R : Type) := sample_bytes : nat → R → string * R.

(** [crc]: [Crc::<u32>::new(&CRC_32_ISO_HDLC).checksum]. *)
Class Crc := crc32 : string → Z.
Class CrcLaws `{!Crc} : Prop := crc32_range s : (0 ≤ crc32 s < 2 ^ 32)%Z.

(** [base64ct]: [Base64UrlUnpadded]. *)
Class Base64 := {
  base64url_encode : string → string;
  base64url_decode : string → option string;
}.

(** What was encoded decodes to itself. *)
Class Base64RoundTrip `{!Base64} : Prop :=
  base64url_encode_decode s : base64url_decode (base64url_encode s) = Some s.

(** Unpadded Base64 has no text of length 1 modulo 4: decoding one fails. *)
Class Base64Laws `{!Base64} : Prop :=
  base64url_decode_length s : (str_len s mod 4)%nat = 1 → base64url_decode s = None.

(** [sha2]: [Sha256] of the bytes of a string. *)
Class Sha2 := sha256 : string → string.

(** [ulid]: the Crockford Base32 text of an identifier and its parser. *)
Class UlidText := {
  ulid_to_string : Z → string;
  ulid_from_string : string → option Z;
}.

(** Printing and parsing a 128-bit identifier is a round trip. *)
Class UlidTextLaws `{!UlidText} : Prop :=
  ulid_print_parse id : (0 ≤ id < 2 ^ 128)%Z →
    ulid_from_string (ulid_to_string id) = Some id.

(** [url]: parsing a text gives the serialization of the URL it denotes. *)
Class UrlLib := url_parse : string → option string.

(** A serialized URL parses to itself. *)
Class UrlLaws `{!UrlLib} : Prop :=
  url_parse_idem s u : url_parse s = Some u → url_parse u = Some u.

(** [url]: the parts of a URL the callbacks look at and set; [set_port(None)]
    fails on a URL that cannot have a port. *)
Class UrlEdit := {
  url_fragment : string → option string;
  url_query : string → option string;
  url_host_str : string → option string;
  url_set_query : option string → string → string;
  url_set_fragment : option string → string → string;
  url_without_port : string → option string;
}.

(** [serde_urlencoded]: reading a query string into a map, and writing a list
    of parameters. *)
Class UrlEncoded := {
  urlencoded_from_str : string → option (gmap string string);
  urlencoded_to_string : list (string * string) → string;
}.

(** [str::to_uppercase]: the Unicode mapping. *)
Class UnicodeCase := str_to_uppercase : string → string.

(** [serde_json]: values. *)
Inductive Json : Type :=
| JNull
| JBool (b : bool)
| JNumber (n : Z)
| JString (s : string)
| JArray (l : list Json)
| JObject (l : list (string * Json)).

(** [serde_json]: reading a JSON Web Key Set; the text stands for the value. *)
Class JwksJson := jwks_from_value : string → option string.

(** PostgreSQL: [LOWER] of a text, in the locale of the database. *)
Class PgText := pg_lower : string → string.

(** PostgreSQL: the order of texts in the collation of the database. *)
Class PgCollation := {
  pg_le : string → string → Prop;
  #[global] pg_le_dec :: RelDecision pg_le;
}.

(** PostgreSQL: [ILIKE], a text against a pattern. *)
Class PgPattern := pg_ilike : string → string → bool.

(** PostgreSQL: [->>], a field of a JSON value as a text. *)
Class PgJson := pg_json_field : Json → string → option string.

(** chrono: a date as an RFC 3339 text, as serde writes it. *)
Class ChronoText := datetime_to_string : DateTime → string.

(** ** A concrete instance *)

Module Counter.
(** A counter as generator: its low bits, as integers and as letters. *)
Fixpoint letters (k : nat) (n : Z) : string :=
  match k with
  | O => ""
  | S k => String (if Z.odd n then "b" else "a") (letters k (n / 2))
  end.

#[export] Instance counter_rng : RngCore Z := {
  gen_u16 n := (n mod 2 ^ 16, n + 1)%Z;
  gen_u64 n := (n mod 2 ^ 64, n + 1)%Z;
  sample_alphanumeric k n := (letters k n, n + 1)%Z;
}.

#[export] Instance counter_rng_laws : RngLaws Z.
Proof.
  split; intros; simpl.
  - apply Z.mod_pos_bound; lia.
  - apply Z.mod_pos_bound; lia.
  - revert r. induction n as [|n IH]; intros r; simpl; [done|]. by rewrite IH.
  - revert r. induction n as [|n IH]; intros r; simpl; [done|]. rewrite IH.
    by destruct (Z.odd r).
Qed.

#[export] Instance counter_bytes : RngBytes Z := λ k n, (letters k n, n + 1)%Z.

#[export] Instance length_crc : Crc := λ s, (Z.of_nat (str_len s) mod 2 ^ 32)%Z.
#[export] Instance length_crc_laws : CrcLaws.
Proof. intros s. apply Z.mod_pos_bound; lia. Qed.

#[export] Instance no_base64 : Base64 := {
  base64url_encode s := s;
  base64url_decode _ := None;
}.
#[export] Instance no_base64_laws : Base64Laws.
Proof. done. Qed.

#[export] Instance id_sha : Sha2 := λ s, s.

#[export] Instance any_url : UrlLib := Some.
#[export] Instance any_url_laws : UrlLaws.
Proof. done. Qed.

(** URLs that have neither query nor fragment; what is set is appended. *)
#[export] Instance plain_urls : UrlEdit := {
  url_fragment _ := None;
  url_query _ := None;
  url_host_str _ := None;
  url_set_query q u := match q with Some q => u +:+ "?" +:+ q | None => u end;
  url_set_fragment f u := match f with Some f => u +:+ "#" +:+ f | None => u end;
  url_without_port _ := None;
}.
#[export] Instance plain_urlencoded : UrlEncoded := {
  urlencoded_from_str _ := Some ∅;
  urlencoded_to_string l :=
    foldr (λ kv s, kv.1 +:+ "=" +:+ kv.2 +:+ "&" +:+ s) "" l;
}.
#[export] Instance no_uppercase : UnicodeCase := λ s, s.

#[export] Instance any_jwks : JwksJson := Some.

(** The letters of ASCII. *)
Fixpoint ascii_lower (s : string) : string :=
  match s with
  | "" => ""
  | String c s =>
      let n := N_of_ascii c in
      String (if (65 <=? n) && (n <=? 90) then ascii_of_N (n + 32) else c)%N (ascii_lower s)
  end.
#[export] Instance ascii_pg : PgText := ascii_lower.
#[export] Instance by_length : PgCollation := {
  pg_le a b := (String.length a ≤ String.length b)%nat;
  pg_le_dec a b := decide (String.length a ≤ String.length b)%nat;
}.
#[export] Instance same_pattern : PgPattern := λ s p, String.eqb s p.
#[export] Instance string_fields : PgJson := λ j k,
  match j with
  | JObject l => match filter (λ kv, kv.1 = k) l with (_, JString s) :: _ => Some s | _ => None end
  | _ => None
  end.
#[export] Instance no_text : ChronoText := λ _, ""%string.

(** An identifier as the text of its bits, lowest first. *)
Fixpoint bits_text (p : positive) : string :=
  match p with
  | xH => ""
  | xO p => String "0" (bits_text p)
  | xI p => String "1" (bits_text p)
  end.
Fixpoint text_bits (s : string) : positive :=
  match s with
  | "" => xH
  | String c s => if Ascii.eqb c "0" then xO (text_bits s) else xI (text_bits s)
  end.

#[export] Instance bits_ulid : UlidText := {
  ulid_to_string n := bits_text (Z.to_pos (n + 1));
  ulid_from_string s := Some (Z.pos (text_bits s) - 1)%Z;
}.
#[export] Instance bits_ulid_laws : UlidTextLaws.
Proof.
  intros id Hid. simpl.
  assert (∀ p, text_bits (bits_text p) = p) as -> by (intros p; induction p; simpl; congruence).
  rewrite Z2Pos.id by lia. f_equal. lia.
Qed.
End Counter.
