(* ===== verification/Pagination.v ===== *)
(** * Pages of a listing

    crates/storage/src/pagination.rs (the parameters of a page and the page
    made of the rows of a query), crates/storage-pg/src/pagination.rs (the
    [WHERE], [ORDER BY] and [LIMIT] of the query) and the parameters and links
    of the administration API (crates/handlers/src/admin/params.rs and
    response.rs).

    The facts: a page holds the first, or last, rows of its window in the
    order of the cursor, its flag is exact, and following the [next] links
    ends and meets every row once, provided that the cursor of a row is the
    column the query orders by. *)

From stdpp Require Import base tactics list strings sorting pretty gmap.
From Stdlib Require Import ZArith Lia Ascii.
From S2P Require Import Prelude Text Externals.

#[local] Open Scope Z_scope.

(** ** Parameters and pages (storage/src/pagination.rs) *)

Inductive PaginationDirection : Type := Forward | Backward.

Module Pagination.
Record t := mk {
  before : option Ulid;
  after : option Ulid;
  count : Z;
  direction : PaginationDirection;
}.
End Pagination.

Inductive InvalidPaginationError : Type := InvalidPagination.

(** [count + 1] on [usize]: wraps around when overflow is not checked. *)
Definition usize_succ (n : Z) : Z := (n + 1) mod 2 ^ 64.

Definition try_new (before after : option Ulid) (first last : option Z) :
    result InvalidPaginationError Pagination.t :=
  match first, last with
  | Some first, _ => Ok (Pagination.mk before after first Forward)
  | None, Some last => Ok (Pagination.mk before after last Backward)
  | None, None => Err InvalidPagination
  end.

Definition first_page (first : Z) : Pagination.t := Pagination.mk None None first Forward.
Definition last_page (last : Z) : Pagination.t := Pagination.mk None None last Backward.

Definition with_before (c : Ulid) (p : Pagination.t) : Pagination.t :=
  Pagination.mk (Some c) (Pagination.after p) (Pagination.count p) (Pagination.direction p).
Definition clear_before (p : Pagination.t) : Pagination.t :=
  Pagination.mk None (Pagination.after p) (Pagination.count p) (Pagination.direction p).
Definition with_after (c : Ulid) (p : Pagination.t) : Pagination.t :=
  Pagination.mk (Pagination.before p) (Some c) (Pagination.count p) (Pagination.direction p).
Definition clear_after (p : Pagination.t) : Pagination.t :=
  Pagination.mk (Pagination.before p) None (Pagination.count p) (Pagination.direction p).

(** The cursor of a row. *)
Class Node (T : Type) := cursor_of : T → Ulid.

Module Edge.
Record t (T : Type) := mk { cursor : Ulid; node : T }.
Arguments mk {T} _ _.
Arguments cursor {T} _.
Arguments node {T} _.
End Edge.

Module Page.
Record t (T : Type) := mk {
  has_next_page : bool;
  has_previous_page : bool;
  edges : list (Edge.t T);
}.
Arguments mk {T} _ _ _.
Arguments has_next_page {T} _.
Arguments has_previous_page {T} _.
Arguments edges {T} _.

Definition map {T T2} (f : T → T2) (p : t T) : t T2 :=
  mk (has_next_page p) (has_previous_page p)
    ((λ e, Edge.mk (Edge.cursor e) (f (Edge.node e))) <$> edges p).

Definition try_map {T T2 E} (f : T → result E T2) (p : t T) : result E (t T2) :=
  try es <- collect (λ e, try n <- f (Edge.node e); Ok (Edge.mk (Edge.cursor e) n)) (edges p);
  Ok (mk (has_next_page p) (has_previous_page p) es).

Definition nodes {T} (p : t T) : list T := Edge.node <$> edges p.
End Page.

Definition process {T} `{!Node T} (p : Pagination.t) (nodes : list T) : Page.t T :=
  let is_full := bool_decide (Z.of_nat (length nodes) = usize_succ (Pagination.count p)) in
  let nodes := if is_full then removelast nodes else nodes in
  let '(has_previous_page, has_next_page, nodes) :=
    match Pagination.direction p with
    | Forward => (false, is_full, nodes)
    | Backward => (is_full, false, reverse nodes)
    end in
  Page.mk has_next_page has_previous_page ((λ n, Edge.mk (cursor_of n) n) <$> nodes).

(** ** The query (storage-pg/src/pagination.rs) *)

Section Query.
Context {Row : Type} (column : Row → Ulid).

Definition asc (a b : Row) : Prop := column a <= column b.
Definition desc (a b : Row) : Prop := column b <= column a.
#[local] Instance asc_dec : RelDecision asc.
Proof. intros a b. unfold asc. apply _. Defined.
#[local] Instance desc_dec : RelDecision desc.
Proof. intros a b. unfold desc. apply _. Defined.

Definition in_window (p : Pagination.t) (r : Row) : bool :=
  match Pagination.after p with Some c => bool_decide (c < column r) | None => true end
  && match Pagination.before p with Some c => bool_decide (column r < c) | None => true end.

Definition window (p : Pagination.t) (rs : list Row) : list Row :=
  filter (λ r, in_window p r = true) rs.

Definition order_asc (rs : list Row) : list Row := merge_sort asc rs.
Definition order_desc (rs : list Row) : list Row := merge_sort desc rs.

Definition generate_pagination (p : Pagination.t) (rs : list Row) : list Row :=
  let limit := Z.to_nat (usize_succ (Pagination.count p)) in
  match Pagination.direction p with
  | Forward => take limit (order_asc (window p rs))
  | Backward => take limit (order_desc (window p rs))
  end.

Definition list_page `{!Node Row} (p : Pagination.t) (rs : list Row) : Page.t Row :=
  process p (generate_pagination p rs).
End Query.

(** ** The administration API (handlers/src/admin) *)

Definition DEFAULT_PAGE_SIZE : Z := 10.

Inductive IncludeCount : Type := CountTrue | CountFalse | CountOnly.

(** [PaginationParams]; [page[first]] and [page[last]] are positive. *)
Module PaginationParams.
Record t := mk {
  before : option Ulid;
  after : option Ulid;
  first : option Z;
  last : option Z;
  include_count : option IncludeCount;
}.
End PaginationParams.

Inductive PaginationRejection : Type := FirstAndLast.

Definition from_request_parts (params : PaginationParams.t) :
    result PaginationRejection (Pagination.t * IncludeCount) :=
  try (direction, count) <-
    match PaginationParams.first params, PaginationParams.last params with
    | Some _, Some _ => Err FirstAndLast
    | None, None => Ok (Forward, DEFAULT_PAGE_SIZE)
    | Some first, None => Ok (Forward, first)
    | None, Some last => Ok (Backward, last)
    end;
  Ok (Pagination.mk (PaginationParams.before params) (PaginationParams.after params)
        count direction,
      default CountTrue (PaginationParams.include_count params)).

(** The pages the links of a response lead to; [unwrap] on a page without
    an edge panics. *)
Inductive Panic : Type := Panicked.

Module PaginationLinks.
Record t (L : Type) := mk {
  self_ : L;
  first : option L;
  last : option L;
  next : option L;
  prev : option L;
}.
Arguments mk {L} _ _ _ _ _.
Arguments self_ {L} _.
Arguments first {L} _.
Arguments last {L} _.
Arguments next {L} _.
Arguments prev {L} _.

Definition map {L L2} (f : L → L2) (l : t L) : t L2 :=
  mk (f (self_ l)) (f <$> first l) (f <$> last l) (f <$> next l) (f <$> prev l).
End PaginationLinks.

Definition page_links {T} (page : Page.t T) (current : Pagination.t) :
    result Panic (PaginationLinks.t Pagination.t) :=
  try next <-
    (if Page.has_next_page page
     then try e <- ok_or (last (Page.edges page)) Panicked;
          Ok (Some (with_after (Edge.cursor e) (clear_before current)))
     else Ok None);
  try prev <-
    (if Page.has_previous_page page
     then try e <- ok_or (head (Page.edges page)) Panicked;
          Ok (Some (with_before (Edge.cursor e) (clear_after current)))
     else Ok None);
  Ok (PaginationLinks.mk current (Some (first_page (Pagination.count current)))
        (Some (last_page (Pagination.count current))) next prev).

(** What a response holds (response.rs, and the trait of model.rs). *)
Class Resource (T : Type) := {
  KIND : string;
  PATH : string;
  resource_id : T → Ulid;
}.

Module SingleResource.
Record t (T : Type) := mk {
  type_ : string;
  id : Ulid;
  attributes : T;
  self_ : string;
  page_cursor : option string;
}.
Arguments mk {T} _ _ _ _ _.
Arguments type_ {T} _.
Arguments id {T} _.
Arguments attributes {T} _.
Arguments self_ {T} _.
Arguments page_cursor {T} _.
End SingleResource.

Module PaginatedResponse.
Record t (T : Type) := mk {
  meta_count : option Z;
  data : option (list (SingleResource.t T));
  links : PaginationLinks.t string;
}.
Arguments mk {T} _ _ _.
Arguments meta_count {T} _.
Arguments data {T} _.
Arguments links {T} _.
End PaginatedResponse.

(** The text of a link. *)
Section Response.
Context {ulid_text : UlidText}.

(** [s.trim_start_matches('&')]. *)
Fixpoint trim_start_amp (s : string) : string :=
  match s with
  | String c s' => if decide (c = "&"%char) then trim_start_amp s' else s
  | EmptyString => s
  end.

Definition url_with_pagination (base : string) (p : Pagination.t) : string :=
  let '(path, query) := default (base, "") (split_once "?" base) in
  let query := match Pagination.before p with
               | Some before => query +:+ "&page[before]=" +:+ ulid_to_string before
               | None => query
               end in
  let query := match Pagination.after p with
               | Some after => query +:+ "&page[after]=" +:+ ulid_to_string after
               | None => query
               end in
  let count := pretty (Z.to_N (Pagination.count p)) in
  let query := match Pagination.direction p with
               | Forward => query +:+ "&page[first]=" +:+ count
               | Backward => query +:+ "&page[last]=" +:+ count
               end in
  path +:+ "?" +:+ trim_start_amp query.

(** [IncludeCount::add_to_base]. *)
Definition add_to_base (c : IncludeCount) (base : string) : string :=
  let separator := if has_char "?" base then "&" else "?" in
  match c with
  | CountTrue => base
  | CountFalse => base +:+ separator +:+ "count=false"
  | CountOnly => base +:+ separator +:+ "count=only"
  end.

Definition resource_path {T} `{!Resource T} (r : T) : string :=
  PATH (T := T) +:+ "/" +:+ ulid_to_string (resource_id r).

Definition SingleResource_new {T} `{!Resource T} (r : T) : SingleResource.t T :=
  SingleResource.mk (KIND (T := T)) (resource_id r) r (resource_path r) None.

Definition from_edge {T} `{!Resource T} (e : Edge.t T) : SingleResource.t T :=
  let r := SingleResource_new (Edge.node e) in
  SingleResource.mk (SingleResource.type_ r) (SingleResource.id r)
    (SingleResource.attributes r) (SingleResource.self_ r)
    (Some (ulid_to_string (Edge.cursor e))).

Definition for_page {T} `{!Resource T} (page : Page.t T) (current : Pagination.t)
    (count : option Z) (base : string) : result Panic (PaginatedResponse.t T) :=
  try links <- page_links page current;
  Ok (PaginatedResponse.mk count (Some (from_edge <$> Page.edges page))
        (PaginationLinks.map (url_with_pagination base) links)).

Definition for_count_only {T} (count : Z) (base : string) : PaginatedResponse.t T :=
  PaginatedResponse.mk (Some count) None (PaginationLinks.mk base None None None None).
End Response.

(** Reading a listing from a page on by following the [next] links, at most
    [fuel] of them. *)
Fixpoint follow_next {T} (fetch : Pagination.t → Page.t T) (fuel : nat) (p : Pagination.t) :
    option (list T) :=
  match fuel with
  | O => None
  | S fuel =>
      let page := fetch p in
      match page_links page p with
      | Err _ => None
      | Ok links =>
          match PaginationLinks.next links with
          | None => Some (Page.nodes page)
          | Some p' => app (Page.nodes page) <$> follow_next fetch fuel p'
          end
      end
  end.

(** ** Correctness of pages

    What a page holds, and what following its links reads, for rows whose
    column is unique (a primary key). *)

#[local] Open Scope Z_scope.

(** A count the query can be asked for: [count + 1] does not overflow. *)
Definition valid_count (n : Z) : Prop := 0 <= n < 2 ^ 64 - 1.

Lemma usize_succ_valid n : valid_count n → usize_succ n = n + 1.
Proof. unfold valid_count, usize_succ. intros H. apply Z.mod_small. lia. Qed.

Lemma filter_all {A} (P : A → Prop) `{!∀ x, Decision (P x)} l : Forall P l → filter P l = l.
Proof. induction 1; [done|]. rewrite filter_cons_True by done. by f_equal. Qed.

Lemma filter_none {A} (P : A → Prop) `{!∀ x, Decision (P x)} l :
  Forall (λ x, ¬ P x) l → filter P l = [].
Proof. induction 1; [done|]. by rewrite filter_cons_False. Qed.

Lemma removelast_take {A} (l : list A) n : length l = S n → removelast l = take n l.
Proof.
  revert n. induction l as [|x l IH]; intros n Hn; [done|].
  destruct l as [|y l]; simpl in Hn.
  - by assert (n = 0%nat) as -> by lia.
  - destruct n as [|n]; [simpl in *; lia|]. change (removelast (x :: y :: l)) with (x :: removelast (y :: l)).
    simpl. f_equal. apply (IH n). simpl. lia.
Qed.

Lemma removelast_take_succ {A} (l : list A) n :
  (if decide (length (take (S n) l) = S n) then removelast (take (S n) l) else take (S n) l)
  = take n l.
Proof.
  case_decide as H.
  - rewrite (removelast_take _ n H). rewrite take_take. f_equal. lia.
  - rewrite length_take in H. rewrite !take_ge by lia. done.
Qed.

(** The rows of a table keyed by a column. *)
Lemma table_column_nodup {Row} (column : Row → Z) (m : gmap Z Row) :
  (∀ k r, m !! k = Some r → column r = k) → NoDup (column <$> (map_to_list m).*2).
Proof.
  intros Hk. rewrite <-list_fmap_compose.
  assert ((column ∘ snd) <$> map_to_list m = fst <$> map_to_list m) as ->.
  { apply list_fmap_ext. intros i [k r] Hi. apply list_elem_of_lookup_2 in Hi.
    apply elem_of_map_to_list in Hi. simpl. eauto. }
  apply NoDup_fst_map_to_list.
Qed.

Section Facts.
Context {Row : Type} (column : Row → Ulid).

Local Abbreviation asc := (asc column).
Local Abbreviation desc := (desc column).
Local Abbreviation order_asc := (order_asc column).
Local Abbreviation order_desc := (order_desc column).
Local Abbreviation in_window := (in_window column).
Local Abbreviation window := (window column).

(** The rows of a table: no two have the same key. *)
Definition unique_column (rs : list Row) : Prop := NoDup (column <$> rs).

#[local] Instance asc_trans : Transitive asc.
Proof. intros a b c. unfold Pagination.asc. lia. Qed.
#[local] Instance asc_total : Total asc.
Proof. intros a b. unfold Pagination.asc. lia. Qed.
#[local] Instance desc_trans : Transitive desc.
Proof. intros a b c. unfold Pagination.desc. lia. Qed.
#[local] Instance desc_total : Total desc.
Proof. intros a b. unfold Pagination.desc. lia. Qed.

Lemma order_asc_perm rs : order_asc rs ≡ₚ rs.
Proof. apply merge_sort_Permutation. Qed.

Lemma length_order_asc rs : length (order_asc rs) = length rs.
Proof. by rewrite order_asc_perm. Qed.

Lemma order_asc_sorted rs : StronglySorted asc (order_asc rs).
Proof. apply StronglySorted_merge_sort; apply _. Qed.

Lemma order_desc_perm rs : order_desc rs ≡ₚ rs.
Proof. apply merge_sort_Permutation. Qed.

Lemma order_desc_sorted rs : StronglySorted desc (order_desc rs).
Proof. apply StronglySorted_merge_sort; apply _. Qed.

Lemma unique_column_inj rs a b :
  unique_column rs → a ∈ rs → b ∈ rs → column a = column b → a = b.
Proof.
  intros Hu (i & Hi)%list_elem_of_lookup (j & Hj)%list_elem_of_lookup Heq.
  assert (i = j) as ->.
  { eapply (NoDup_lookup _ i j (column a) Hu); rewrite list_lookup_fmap.
    - by rewrite Hi. - by rewrite Hj, Heq. }
  congruence.
Qed.

(** There is only one way to order rows by a unique column. *)
Lemma order_asc_unique rs l :
  unique_column rs → StronglySorted asc l → l ≡ₚ rs → l = order_asc rs.
Proof.
  intros Hu Hs Hp. eapply (StronglySorted_unique_strong asc).
  - intros a b Ha Hb Hab Hba. rewrite Hp in Ha. rewrite order_asc_perm in Hb.
    apply (unique_column_inj rs); [done..|]. unfold Pagination.asc in *. lia.
  - done.
  - apply order_asc_sorted.
  - by rewrite Hp, order_asc_perm.
Qed.

Lemma StronglySorted_reverse l : StronglySorted desc l → StronglySorted asc (reverse l).
Proof.
  induction 1 as [|x l Hl IH Hx]; [constructor|].
  rewrite reverse_cons. apply StronglySorted_app; split_and!; [|done|repeat constructor].
  intros y z Hy Hz. apply list_elem_of_singleton in Hz as ->.
  rewrite elem_of_reverse in Hy. rewrite Forall_forall in Hx. exact (Hx y Hy).
Qed.

Lemma order_desc_reverse rs : unique_column rs → order_desc rs = reverse (order_asc rs).
Proof.
  intros Hu. rewrite <-(order_asc_unique rs (reverse (order_desc rs))); [|done|..].
  - by rewrite reverse_involutive.
  - apply StronglySorted_reverse, order_desc_sorted.
  - by rewrite reverse_Permutation, order_desc_perm.
Qed.

Lemma StronglySorted_filter {A} (R : relation A) (P : A → Prop) `{!∀ x, Decision (P x)} l :
  StronglySorted R l → StronglySorted R (filter P l).
Proof.
  induction 1 as [|x l Hl IH Hx]; [constructor|].
  rewrite filter_cons. case_decide; [|done]. constructor; [done|].
  rewrite Forall_forall in Hx |- *. intros y [_ Hy]%list_elem_of_filter. by apply Hx.
Qed.

Lemma unique_column_filter (P : Row → Prop) `{!∀ x, Decision (P x)} rs :
  unique_column rs → unique_column (filter P rs).
Proof.
  unfold unique_column. induction rs as [|r rs IH]; [done|].
  rewrite fmap_cons, NoDup_cons. intros [Hr Hn]. rewrite filter_cons. case_decide; [|by apply IH].
  rewrite fmap_cons, NoDup_cons. split; [|by apply IH].
  intros (x & Hx & [_ Hin]%list_elem_of_filter)%list_elem_of_fmap. apply Hr.
  apply list_elem_of_fmap. eauto.
Qed.

Lemma order_asc_filter (P : Row → Prop) `{!∀ x, Decision (P x)} rs :
  unique_column rs → order_asc (filter P rs) = filter P (order_asc rs).
Proof.
  intros Hu. symmetry. apply order_asc_unique.
  - by apply unique_column_filter.
  - apply StronglySorted_filter, order_asc_sorted.
  - by rewrite order_asc_perm.
Qed.

Lemma window_unique p rs : unique_column rs → unique_column (window p rs).
Proof. apply unique_column_filter. Qed.

(** *** A page *)
Section Page.
Context `{!Node Row}.

Lemma nodes_of_edges (l : list Row) :
  Edge.node <$> ((λ n, Edge.mk (cursor_of n) n) <$> l) = l.
Proof. rewrite <-list_fmap_compose. apply list_fmap_id. Qed.

(** [process] of the rows of a query that asks for one row more. *)
Lemma process_take p (l : list Row) :
  valid_count (Pagination.count p) →
  let n := Z.to_nat (Pagination.count p) in
  let full := bool_decide (n < length l)%nat in
  process p (take (Z.to_nat (usize_succ (Pagination.count p))) l)
  = match Pagination.direction p with
    | Forward => Page.mk full false ((λ n, Edge.mk (cursor_of n) n) <$> take n l)
    | Backward => Page.mk false full ((λ n, Edge.mk (cursor_of n) n) <$> reverse (take n l))
    end.
Proof.
  intros Hc n full. pose proof Hc as Hc'. unfold valid_count in Hc'.
  unfold process. rewrite (usize_succ_valid _ Hc).
  assert (Z.to_nat (Pagination.count p + 1) = S n) as -> by (unfold n; lia).
  assert (bool_decide (Z.of_nat (length (take (S n) l)) = Pagination.count p + 1) = full) as ->.
  { unfold full. apply bool_decide_ext. rewrite length_take. unfold n. lia. }
  assert ((if full then removelast (take (S n) l) else take (S n) l) = take n l) as ->.
  { rewrite <-(removelast_take_succ l n). unfold full.
    rewrite length_take. repeat case_decide; repeat case_bool_decide; try done; lia. }
  by destruct (Pagination.direction p).
Qed.

Lemma list_page_forward p rs :
  valid_count (Pagination.count p) → Pagination.direction p = Forward →
  let n := Z.to_nat (Pagination.count p) in
  let w := order_asc (window p rs) in
  list_page column p rs
  = Page.mk (bool_decide (n < length w)%nat) false ((λ n, Edge.mk (cursor_of n) n) <$> take n w).
Proof.
  intros Hc Hd n w. unfold list_page, generate_pagination. rewrite Hd.
  fold w. rewrite (process_take p w Hc), Hd. done.
Qed.

Lemma list_page_backward p rs :
  valid_count (Pagination.count p) → Pagination.direction p = Backward → unique_column rs →
  let n := Z.to_nat (Pagination.count p) in
  let w := order_asc (window p rs) in
  list_page column p rs
  = Page.mk false (bool_decide (n < length w)%nat)
      ((λ n, Edge.mk (cursor_of n) n) <$> drop (length w - n) w).
Proof.
  intros Hc Hd Hu n w. unfold list_page, generate_pagination. rewrite Hd.
  rewrite (order_desc_reverse _ (window_unique p rs Hu)). fold w.
  rewrite (process_take p (reverse w) Hc), Hd. fold n. cbv zeta.
  by rewrite take_reverse, reverse_involutive, length_reverse.
Qed.
End Page.
End Facts.

(** *** What a page holds *)
Section Window.
Context {Row : Type} (column : Row → Ulid) `{!Node Row}.

Definition before_row (a b : Row) : Prop := column a < column b.

Lemma strictly_sorted rs :
  unique_column column rs → StronglySorted before_row (order_asc column rs).
Proof.
  intros Hu.
  assert (NoDup (column <$> order_asc column rs)) as Hn by by rewrite order_asc_perm.
  pose proof (order_asc_sorted column rs) as Hs.
  induction Hs as [|x l Hl IH Hx]; [constructor|].
  rewrite fmap_cons, NoDup_cons in Hn. destruct Hn as [Hx' Hn].
  constructor; [by apply IH|]. rewrite Forall_forall in Hx |- *. intros y Hy.
  specialize (Hx y Hy). unfold asc, before_row in *.
  assert (column x ≠ column y); [|lia]. intros Heq. apply Hx'. rewrite Heq.
  by apply list_elem_of_fmap_2.
Qed.

Lemma order_window_elem p rs r :
  r ∈ order_asc column (window column p rs) ↔ r ∈ rs ∧ in_window column p r = true.
Proof. rewrite order_asc_perm. unfold window. rewrite list_elem_of_filter. tauto. Qed.

(** A page of a listing ordered by a unique column holds rows of the
    window between its two cursors, in increasing order, as many as were asked
    for or all of them; read forward, they are the first of the window and
    [has_next_page] tells exactly whether rows are left, read backward they
    are the last and [has_previous_page] does. *)
Theorem page_of_window p rs :
  valid_count (Pagination.count p) → unique_column column rs →
  let page := list_page column p rs in
  let ns := Page.nodes page in
  let more := bool_decide (Z.of_nat (length ns) < Z.of_nat (length (window column p rs))) in
  StronglySorted before_row ns ∧
  (∀ r, r ∈ ns → r ∈ rs ∧ in_window column p r = true) ∧
  Z.of_nat (length ns) = Z.min (Pagination.count p) (Z.of_nat (length (window column p rs))) ∧
  (Edge.cursor <$> Page.edges page) = (cursor_of <$> ns) ∧
  match Pagination.direction p with
  | Forward =>
      Page.has_next_page page = more ∧ Page.has_previous_page page = false ∧
      ∀ r x, r ∈ rs → in_window column p r = true → r ∉ ns → x ∈ ns → before_row x r
  | Backward =>
      Page.has_next_page page = false ∧ Page.has_previous_page page = more ∧
      ∀ r x, r ∈ rs → in_window column p r = true → r ∉ ns → x ∈ ns → before_row r x
  end.
Proof.
  intros Hc Hu. unfold valid_count in Hc.
  set (n := Z.to_nat (Pagination.count p)).
  set (w := order_asc column (window column p rs)).
  pose proof (strictly_sorted _ (window_unique column p rs Hu)) as Hs. fold w in Hs.
  assert (length (window column p rs) = length w) as Hlen
    by (unfold w; by rewrite order_asc_perm).
  assert (∀ l1 l2, w = l1 ++ l2 → StronglySorted before_row l1 ∧ StronglySorted before_row l2 ∧
    (∀ r, r ∈ l1 ∨ r ∈ l2 → r ∈ rs ∧ in_window column p r = true) ∧
    (∀ r, r ∈ rs → in_window column p r = true → r ∈ l1 ∨ r ∈ l2) ∧
    ∀ x y, x ∈ l1 → y ∈ l2 → before_row x y) as Hsplit.
  { intros l1 l2 Hw. rewrite Hw in Hs. apply StronglySorted_app in Hs as (Hlt & H1 & H2).
    split_and!; [done..| | |done].
    - intros r Hr. apply order_window_elem. fold w. rewrite Hw. by apply elem_of_app.
    - intros r Hr Hi. apply elem_of_app. rewrite <-Hw. by apply order_window_elem. }
  destruct (Pagination.direction p) eqn:Hd; cbv zeta.
  - rewrite list_page_forward by done. fold n w. unfold Page.nodes. simpl.
    rewrite nodes_of_edges, Hlen.
    destruct (Hsplit (take n w) (drop n w) (eq_sym (take_drop n w))) as (H1 & H2 & H3 & H4 & H5).
    split_and!; [done|naive_solver|rewrite length_take; lia| |apply bool_decide_ext; rewrite length_take; lia|done|].
    + by rewrite <-list_fmap_compose.
    + intros r x Hr Hi Hn Hx. destruct (H4 r Hr Hi); [done|]. by apply H5.
  - rewrite list_page_backward by done. fold n w. unfold Page.nodes. simpl.
    rewrite nodes_of_edges, Hlen. set (k := (length w - n)%nat).
    destruct (Hsplit (take k w) (drop k w) (eq_sym (take_drop k w))) as (H1 & H2 & H3 & H4 & H5).
    split_and!; [done|naive_solver|rewrite length_drop; lia| |done|apply bool_decide_ext; rewrite length_drop; lia|].
    + by rewrite <-list_fmap_compose.
    + intros r x Hr Hi Hn Hx. destruct (H4 r Hr Hi); [|done]. by apply H5.
Qed.

(** *** Following the links *)

Lemma order_asc_after (w l1 l2 : list Row) x :
  StronglySorted before_row w → w = l1 ++ x :: l2 →
  filter (λ r, column x < column r) w = l2.
Proof.
  intros Hs ->. apply StronglySorted_app in Hs as (H1 & _ & Hx).
  inversion Hx as [|? ? Hl2 Hx2]; subst. rewrite filter_app, filter_cons_False by lia.
  rewrite filter_none, filter_all; [done|done|]. apply Forall_forall. intros y Hy.
  specialize (H1 y x Hy ltac:(left)). unfold before_row in H1. lia.
Qed.

(** The pages after the row [x]: what the [next] link asks for. *)
Lemma window_after p rs x :
  Pagination.before p = None → x ∈ window column p rs →
  window column (with_after (column x) (clear_before p)) rs
  = filter (λ r, column x < column r) (window column p rs).
Proof.
  intros Hb Hx. unfold window in *. apply list_elem_of_filter in Hx as [Hx _].
  rewrite list_filter_filter. apply list_filter_iff. intros r. unfold in_window in *. simpl.
  rewrite Hb in *. destruct (Pagination.after p) as [c|]; simpl in *;
    rewrite ?andb_true_r, ?bool_decide_eq_true in *; split; intuition lia.
Qed.

Lemma last_take_split (w : list Row) n x :
  last (take n w) = Some x → (n < length w)%nat → ∃ l1, w = l1 ++ x :: drop n w ∧ length l1 = (n - 1)%nat.
Proof.
  intros Hl Hn. apply last_Some in Hl as [l1 Hl1]. exists l1.
  pose proof (f_equal length Hl1) as Hlen. rewrite length_take, length_app in Hlen. simpl in Hlen.
  split; [|lia]. rewrite <-(take_drop n w) at 1. rewrite Hl1, <-app_assoc. done.
Qed.

Lemma follow_next_window rs n fuel p :
  (∀ r, cursor_of r = column r) → valid_count n → 0 < n → unique_column column rs →
  Pagination.direction p = Forward → Pagination.before p = None → Pagination.count p = n →
  (length (window column p rs) < fuel)%nat →
  follow_next (λ p, list_page column p rs) fuel p
  = Some (order_asc column (window column p rs)).
Proof.
  intros Hcur Hc Hn Hu. revert p. induction fuel as [|fuel IH]; intros p Hd Hb Hcount Hf; [lia|].
  simpl. rewrite list_page_forward by by subst. set (w := order_asc column (window column p rs)).
  assert (length (window column p rs) = length w) as Hlen
    by (unfold w; by rewrite order_asc_perm).
  unfold Page.nodes, page_links. simpl. rewrite nodes_of_edges, Hcount.
  case_bool_decide as Hlt; simpl; [|by rewrite take_ge by lia].
  rewrite fmap_last. destruct (last (take (Z.to_nat n) w)) as [x|] eqn:Hx; simpl;
    [|apply last_None in Hx; apply (f_equal length) in Hx; rewrite length_take in Hx;
      simpl in Hx; lia].
  destruct (last_take_split _ _ _ Hx Hlt) as (l1 & Hw & Hl1). rewrite Hcur.
  assert (x ∈ window column p rs) as Hin
    by (rewrite <-(order_asc_perm column); fold w; rewrite Hw; apply elem_of_app; right; left).
  assert (order_asc column (window column (with_after (column x) (clear_before p)) rs)
    = drop (Z.to_nat n) w) as Hnext.
  { rewrite (window_after p rs x Hb Hin), order_asc_filter by by apply window_unique.
    fold w. eapply order_asc_after; [|exact Hw]. by apply strictly_sorted, window_unique. }
  rewrite IH; [|done..|].
  - rewrite Hnext. simpl. by rewrite take_drop.
  - rewrite <-(length_order_asc column), Hnext, length_drop. lia.
Qed.

(** A client that reads a listing from its first page on by following the
    [next] links ends, never panics, and gets every row of the listing exactly
    once, in order, provided that the cursor of a row is the column the
    listing is ordered by; one link per row, and one more, are enough. *)
Lemma next_links_enumerate rs n fuel :
  (∀ r, cursor_of r = column r) → valid_count n → 0 < n → unique_column column rs →
  (length rs < fuel)%nat →
  ∃ l, follow_next (λ p, list_page column p rs) fuel (first_page n) = Some l ∧
    StronglySorted before_row l ∧ l ≡ₚ rs.
Proof.
  intros Hcur Hc Hn Hu Hf.
  assert (window column (first_page n) rs = rs) as Hw by (apply filter_all, Forall_forall; done).
  exists (order_asc column rs). split_and!.
  - rewrite (follow_next_window rs n); rewrite ?Hw; done.
  - by apply strictly_sorted.
  - apply order_asc_perm.
Qed.
End Window.
