(* ===== verification/Formats.v ===== *)
(** * Code challenges, identifiers and error codes

    Proof Key for Code Exchange (crates/oauth2-types/src/pkce.rs, and [Pkce] of
    crates/data-model/src/oauth2/authorization_grant.rs), the ULIDs drawn at a
    date (crates/data-model/src/utils.rs, crates/storage-pg/src/ulid_at.rs) and the
    errors of the OAuth 2.0 endpoints (crates/oauth2-types/src/errors.rs). *)

From stdpp Require Import base tactics list strings.
From Stdlib Require Import ZArith Lia Ascii.
From S2P Require Import Prelude Text Externals.

(** ** Proof Key for Code Exchange

    crates/oauth2-types/src/pkce.rs and [Pkce] of
    crates/data-model/src/oauth2/authorization_grant.rs. *)

(** [mas_iana::oauth::PkceCodeChallengeMethod]. *)
Inductive PkceCodeChallengeMethod : Type :=
| Plain
| S256
| UnknownMethod (s : string).

#[export] Instance PkceCodeChallengeMethod_eq_dec : EqDecision PkceCodeChallengeMethod.
Proof. solve_decision. Defined.

Inductive CodeChallengeError : Type :=
| TooShort
| TooLong
| InvalidCharacters
| VerificationFailed
| UnknownChallengeMethod.

(** The messages of the [#[error]] attributes. *)
Definition CodeChallengeError_to_string (e : CodeChallengeError) : string :=
  match e with
  | TooShort => "code_verifier should be at least 43 characters long"
  | TooLong => "code_verifier should be at most 128 characters long"
  | InvalidCharacters => "code_verifier contains invalid characters"
  | VerificationFailed => "challenge verification failed"
  | UnknownChallengeMethod => "unknown challenge method"
  end.

Definition verifier_char (c : ascii) : bool :=
  ascii_alphanumeric c || bool_decide (c = "-"%char) || bool_decide (c = "."%char)
  || bool_decide (c = "_"%char) || bool_decide (c = "~"%char).

Definition validate_verifier (verifier : string) : result CodeChallengeError unit :=
  if (str_len verifier <? 43)%nat then Err TooShort
  else if (128 <? str_len verifier)%nat then Err TooLong
  else if negb (all_chars verifier_char verifier) then Err InvalidCharacters
  else Ok tt.

(** [struct Pkce]. *)
Record Pkce := mkPkce {
  challenge_method : PkceCodeChallengeMethod;
  challenge : string;
}.

#[export] Instance Pkce_eq_dec : EqDecision Pkce.
Proof. solve_decision. Defined.

Section Pkce.
Context `{!Sha2, !Base64}.

Definition compute_challenge (m : PkceCodeChallengeMethod) (verifier : string) :
    result CodeChallengeError string :=
  try _ <- validate_verifier verifier;
  match m with
  | Plain => Ok verifier
  | S256 => Ok (base64url_encode (sha256 verifier))
  | UnknownMethod _ => Err UnknownChallengeMethod
  end.

(** [CodeChallengeMethodExt::verify]. *)
Definition method_verify (m : PkceCodeChallengeMethod) (challenge verifier : string) :
    result CodeChallengeError unit :=
  try computed <- compute_challenge m verifier;
  if decide (computed = challenge) then Ok tt else Err VerificationFailed.

(** [Pkce::verify]. *)
Definition Pkce_verify (p : Pkce) (verifier : string) : result CodeChallengeError unit :=
  method_verify (challenge_method p) (challenge p) verifier.

(** A verifier of the form RFC 7636 asks for. *)
Definition verifier_ok (v : string) : Prop :=
  43 ≤ str_len v ≤ 128 ∧ all_chars verifier_char v = true.

Lemma validate_verifier_Ok v : validate_verifier v = Ok tt ↔ verifier_ok v.
Proof.
  unfold validate_verifier, verifier_ok.
  destruct (Nat.ltb_spec (str_len v) 43); [split; [done|lia]|].
  destruct (Nat.ltb_spec 128 (str_len v)); [split; [done|lia]|].
  destruct (all_chars verifier_char v); simpl; split; try done; lia.
Qed.

(** PKCE verification succeeds exactly when the verifier has the length
    and the characters RFC 7636 asks for and the challenge is the verifier
    itself ([plain]) or the Base64url text of its SHA-256 ([S256]); a method
    the server does not know never verifies. *)
Theorem pkce_verify_iff p v :
  Pkce_verify p v = Ok tt ↔
  verifier_ok v ∧
  match challenge_method p with
  | Plain => challenge p = v
  | S256 => challenge p = base64url_encode (sha256 v)
  | UnknownMethod _ => False
  end.
Proof.
  unfold Pkce_verify, method_verify, compute_challenge.
  rewrite <- validate_verifier_Ok.
  destruct (validate_verifier v) as [[]|e]; [|split; [done|by intros [? _]]].
  destruct (challenge_method p); simpl; try case_decide; naive_solver.
Qed.
End Pkce.

(** ** ULIDs

    crates/data-model/src/utils.rs and crates/storage-pg/src/ulid_at.rs: an
    identifier is 48 bits of milliseconds followed by 80 random bits, and the
    storage layer filters on the creation time by comparing identifiers. *)

#[local] Open Scope Z_scope.

Definition TIME_BITS : Z := 48.

(** [u64::try_from(t.timestamp_millis()).unwrap_or(0)]: a clock reading is in
    microseconds. *)
Definition timestamp_ms_of (t : DateTime) : Z :=
  let millis := t / 1000 in if 0 <=? millis then millis else 0.

Definition from_datetime_with_rng {R} `{!RngCore R} (datetime : DateTime) (rng : R) :
    Ulid * R :=
  let timestamp_ms := timestamp_ms_of datetime in
  let timebits := Z.land timestamp_ms (Z.shiftl 1 TIME_BITS - 1) in
  let '(r16, rng) := gen_u16 rng in
  let msb := Z.lor (Z.shiftl timebits 16) r16 in
  let '(lsb, rng) := gen_u64 rng in
  (Z.lor (Z.shiftl msb 64) lsb, rng).

(** [Ulid::timestamp_ms] and [Ulid::from_parts] of the [ulid] crate: the high
    48 bits, and the two parts cut to their widths. *)
Definition timestamp_ms (id : Ulid) : Z := Z.shiftr id 80.
Definition from_parts (timestamp_ms random : Z) : Ulid :=
  Z.lor (Z.shiftl (Z.land timestamp_ms (Z.ones 48)) 80) (Z.land random (Z.ones 80)).

Definition datetime_utc (id : Ulid) : DateTime := timestamp_ms id * 1000.

Definition min_ulid_at (t : DateTime) : Ulid := from_parts (timestamp_ms_of t) 0.
Definition max_ulid_at (t : DateTime) : Ulid :=
  from_parts (timestamp_ms_of t) (2 ^ 128 - 1).

(** *** Lemmas on the bit layout *)

Lemma lor_shiftl_add a b n : 0 ≤ n → 0 ≤ b < 2 ^ n → Z.lor (Z.shiftl a n) b = a * 2 ^ n + b.
Proof.
  intros Hn Hb. pose proof (Z.add_lor_land (Z.shiftl a n) b) as H.
  rewrite Z.shiftl_mul_pow2 in * by done.
  assert (Z.land (a * 2 ^ n) b = 0) as Hz; [|lia].
  rewrite <- (Z.mod_small b (2 ^ n)) by done.
  apply Z.bits_inj'. intros i Hi. rewrite Z.land_spec, Z.bits_0.
  destruct (Z.lt_ge_cases i n).
  - by rewrite Z.mul_pow2_bits_low.
  - rewrite Z.mod_pow2_bits_high by lia. apply andb_false_r.
Qed.

Lemma timestamp_ms_of_nonneg t : 0 ≤ timestamp_ms_of t.
Proof. unfold timestamp_ms_of. destruct (Z.leb_spec 0 (t / 1000)); lia. Qed.

Lemma from_parts_eq ms r :
  from_parts ms r = ms mod 2 ^ 48 * 2 ^ 80 + r mod 2 ^ 80.
Proof.
  unfold from_parts. rewrite !Z.land_ones by lia.
  apply lor_shiftl_add; [lia|]. apply Z.mod_pos_bound. lia.
Qed.

Lemma timestamp_ms_add ms r : 0 ≤ r < 2 ^ 80 → timestamp_ms (ms * 2 ^ 80 + r) = ms.
Proof.
  intros Hr. unfold timestamp_ms. rewrite Z.shiftr_div_pow2 by lia.
  rewrite Z.div_add_l by lia. rewrite Z.div_small by lia. lia.
Qed.

Section Laws.
Context {R : Type} `{!RngCore R, !RngLaws R}.

(** The identifier drawn at a given time, as a time part and a random part. *)
Lemma from_datetime_eq t (rng : R) : ∃ random, 0 ≤ random < 2 ^ 80 ∧
  (from_datetime_with_rng t rng).1 = timestamp_ms_of t mod 2 ^ 48 * 2 ^ 80 + random.
Proof.
  unfold from_datetime_with_rng. change (Z.shiftl 1 TIME_BITS - 1) with (Z.ones 48).
  rewrite Z.land_ones by lia.
  pose proof (gen_u16_range rng) as H16. destruct (gen_u16 rng) as [r16 rng'].
  pose proof (gen_u64_range rng') as H64. destruct (gen_u64 rng') as [lsb rng''].
  simpl in *. exists (r16 * 2 ^ 64 + lsb). split; [lia|].
  rewrite !lor_shiftl_add by lia. lia.
Qed.

(** An identifier drawn at time [t], from the epoch to the end of the
    48-bit range, is a 128-bit integer from which [datetime_utc] reads [t]
    back, cut to the millisecond. *)
Theorem ulid_datetime_roundtrip t (rng : R) :
  0 ≤ t < 2 ^ 48 * 1000 →
  let id := (from_datetime_with_rng t rng).1 in
  0 ≤ id < 2 ^ 128 ∧ datetime_utc id ≤ t < datetime_utc id + 1000.
Proof.
  intros Ht. destruct (from_datetime_eq t rng) as (random & Hr & ->). simpl.
  unfold datetime_utc. rewrite timestamp_ms_add by done.
  unfold timestamp_ms_of. rewrite (proj2 (Z.leb_le 0 (t / 1000))) by (apply Z.div_pos; lia).
  assert (0 ≤ t / 1000 < 2 ^ 48)
    by (split; [apply Z.div_pos; lia | apply Z.div_lt_upper_bound; lia]).
  rewrite Z.mod_small by done. pose proof (Z.div_mod t 1000). pose proof (Z.mod_pos_bound t 1000).
  lia.
Qed.

(** C40: comparing a primary key with [max_ulid_at] and [min_ulid_at] is the
    same as comparing the creation time of the row, in milliseconds, with the
    bound: the index on the key answers the filters on the creation time. *)
Theorem ulid_window created t (rng : R) :
  0 ≤ created < 2 ^ 48 * 1000 → 0 ≤ t < 2 ^ 48 * 1000 →
  let id := (from_datetime_with_rng created rng).1 in
  (max_ulid_at t < id ↔ t / 1000 < created / 1000) ∧
  (id < min_ulid_at t ↔ created / 1000 < t / 1000).
Proof.
  intros Hc Ht. destruct (from_datetime_eq created rng) as (random & Hr & ->). simpl.
  unfold max_ulid_at, min_ulid_at. rewrite !from_parts_eq.
  assert (∀ x, 0 ≤ x < 2 ^ 48 * 1000 → timestamp_ms_of x mod 2 ^ 48 = x / 1000) as Hms.
  { intros x Hx. unfold timestamp_ms_of.
    assert (0 ≤ x / 1000 < 2 ^ 48)
      by (split; [apply Z.div_pos; lia | apply Z.div_lt_upper_bound; lia]).
    rewrite (proj2 (Z.leb_le 0 (x / 1000))) by lia. by apply Z.mod_small. }
  rewrite !Hms by done.
  replace ((2 ^ 128 - 1) mod 2 ^ 80) with (2 ^ 80 - 1) by reflexivity.
  rewrite Z.mod_0_l by lia. split; split; intros; nia.
Qed.
End Laws.

Section Witnesses.
Import Counter.

Lemma ulid_datetime_roundtrip_witness :
  0 ≤ 1700000000123456 < 2 ^ 48 * 1000 ∧
  let id := (from_datetime_with_rng 1700000000123456 7).1 in
  0 ≤ id < 2 ^ 128 ∧ datetime_utc id ≤ 1700000000123456 < datetime_utc id + 1000.
Proof.
  split; [lia|]. apply (ulid_datetime_roundtrip (R := Z) 1700000000123456 7). lia.
Defined.

Lemma ulid_window_witness :
  let id := (from_datetime_with_rng 1700000000123456 7).1 in
  (max_ulid_at 1700000000000000 < id ↔ 1700000000000000 / 1000 < 1700000000123456 / 1000) ∧
  (id < min_ulid_at 1700000000000000 ↔ 1700000000123456 / 1000 < 1700000000000000 / 1000).
Proof. apply (ulid_window (R := Z) 1700000000123456 1700000000000000 7); lia. Defined.
End Witnesses.

(** ** Errors of the OAuth 2.0 endpoints

    crates/oauth2-types/src/errors.rs: the error codes, their text and the
    body of an error response. *)

Module ClientErrorCode.
Inductive t : Type :=
| InvalidRequest
| InvalidClient
| InvalidGrant
| UnauthorizedClient
| UnsupportedGrantType
| AccessDenied
| UnsupportedResponseType
| InvalidScope
| ServerError
| TemporarilyUnavailable
| InteractionRequired
| LoginRequired
| AccountSelectionRequired
| ConsentRequired
| InvalidRequestUri
| InvalidRequestObject
| RequestNotSupported
| RequestUriNotSupported
| RegistrationNotSupported
| InvalidRedirectUri
| InvalidClientMetadata
| AuthorizationPending
| SlowDown
| ExpiredToken
| UnsupportedTokenType
| Unknown (s : string).

#[export] Instance eq_dec : EqDecision t.
Proof. solve_decision. Defined.

(** [Display]. *)
Definition to_string (c : t) : string :=
  match c with
  | InvalidRequest => "invalid_request"
  | InvalidClient => "invalid_client"
  | InvalidGrant => "invalid_grant"
  | UnauthorizedClient => "unauthorized_client"
  | UnsupportedGrantType => "unsupported_grant_type"
  | AccessDenied => "access_denied"
  | UnsupportedResponseType => "unsupported_response_type"
  | InvalidScope => "invalid_scope"
  | ServerError => "server_error"
  | TemporarilyUnavailable => "temporarily_unavailable"
  | InteractionRequired => "interaction_required"
  | LoginRequired => "login_required"
  | AccountSelectionRequired => "account_selection_required"
  | ConsentRequired => "consent_required"
  | InvalidRequestUri => "invalid_request_uri"
  | InvalidRequestObject => "invalid_request_object"
  | RequestNotSupported => "request_not_supported"
  | RequestUriNotSupported => "request_uri_not_supported"
  | RegistrationNotSupported => "registration_not_supported"
  | InvalidRedirectUri => "invalid_redirect_uri"
  | InvalidClientMetadata => "invalid_client_metadata"
  | AuthorizationPending => "authorization_pending"
  | SlowDown => "slow_down"
  | ExpiredToken => "expired_token"
  | UnsupportedTokenType => "unsupported_token_type"
  | Unknown value => value
  end.

(** [FromStr], which never fails. *)
Definition from_str (s : string) : t :=
  if String.eqb s "invalid_request" then InvalidRequest
  else if String.eqb s "invalid_client" then InvalidClient
  else if String.eqb s "invalid_grant" then InvalidGrant
  else if String.eqb s "unauthorized_client" then UnauthorizedClient
  else if String.eqb s "unsupported_grant_type" then UnsupportedGrantType
  else if String.eqb s "access_denied" then AccessDenied
  else if String.eqb s "unsupported_response_type" then UnsupportedResponseType
  else if String.eqb s "invalid_scope" then InvalidScope
  else if String.eqb s "server_error" then ServerError
  else if String.eqb s "temporarily_unavailable" then TemporarilyUnavailable
  else if String.eqb s "interaction_required" then InteractionRequired
  else if String.eqb s "login_required" then LoginRequired
  else if String.eqb s "account_selection_required" then AccountSelectionRequired
  else if String.eqb s "consent_required" then ConsentRequired
  else if String.eqb s "invalid_request_uri" then InvalidRequestUri
  else if String.eqb s "invalid_request_object" then InvalidRequestObject
  else if String.eqb s "request_not_supported" then RequestNotSupported
  else if String.eqb s "request_uri_not_supported" then RequestUriNotSupported
  else if String.eqb s "registration_not_supported" then RegistrationNotSupported
  else if String.eqb s "invalid_redirect_uri" then InvalidRedirectUri
  else if String.eqb s "invalid_client_metadata" then InvalidClientMetadata
  else if String.eqb s "authorization_pending" then AuthorizationPending
  else if String.eqb s "slow_down" then SlowDown
  else if String.eqb s "expired_token" then ExpiredToken
  else if String.eqb s "unsupported_token_type" then UnsupportedTokenType
  else Unknown s.

(** A double quote. *)
Definition quote : string := String (ascii_of_nat 34) "".

Definition default_description (c : t) : string :=
  match c with
  | InvalidRequest =>
      "The request is missing a required parameter, includes an invalid parameter value, includes a parameter more than once, or is otherwise malformed."
  | InvalidClient => "Client authentication failed."
  | InvalidGrant => "The provided access grant is invalid, expired, or revoked."
  | UnauthorizedClient =>
      "The client is not authorized to request an access token using this method."
  | UnsupportedGrantType =>
      "The authorization grant type is not supported by the authorization server."
  | AccessDenied => "The resource owner or authorization server denied the request."
  | UnsupportedResponseType =>
      "The authorization server does not support obtaining an access token using this method."
  | InvalidScope => "The requested scope is invalid, unknown, or malformed."
  | ServerError =>
      "The authorization server encountered an unexpected condition that prevented it from fulfilling the request."
  | TemporarilyUnavailable =>
      "The authorization server is currently unable to handle the request due to a temporary overloading or maintenance of the server."
  | InteractionRequired =>
      "The Authorization Server requires End-User interaction of some form to proceed."
  | LoginRequired => "The Authorization Server requires End-User authentication."
  | AccountSelectionRequired =>
      "The End-User is required to select a session at the Authorization Server."
  | ConsentRequired => "The Authorization Server requires End-User consent."
  | InvalidRequestUri =>
      "The request_uri in the Authorization Request returns an error or contains invalid data."
  | InvalidRequestObject => "The request parameter contains an invalid Request Object."
  | RequestNotSupported => "The provider does not support use of the request parameter."
  | RequestUriNotSupported => "The provider does not support use of the request_uri parameter."
  | RegistrationNotSupported => "The provider does not support use of the registration parameter."
  | InvalidRedirectUri => "The value of one or more redirection URIs is invalid."
  | InvalidClientMetadata => "The value of one of the client metadata fields is invalid"
  | AuthorizationPending => "The authorization request is still pending"
  | SlowDown => "The interval must be increased by 5 seconds for this and all subsequent requests"
  | ExpiredToken =>
      "The " +:+ quote +:+ "device_code" +:+ quote +:+ " has expired, and the device authorization session has concluded"
  | UnsupportedTokenType =>
      "The authorization server does not support the revocation of the presented token type."
  | Unknown _ => ""
  end.
End ClientErrorCode.

Record ClientError := mkClientError {
  error : ClientErrorCode.t;
  error_description : option string;
}.

(** [From<ClientErrorCode>]. *)
Definition client_error (code : ClientErrorCode.t) : ClientError :=
  mkClientError code (Some (ClientErrorCode.default_description code)).

Definition with_description (description : string) (e : ClientError) : ClientError :=
  mkClientError (error e) (Some description).

(** A code the text of which is not that of a known one. *)
Definition code_ok (c : ClientErrorCode.t) : Prop :=
  ∀ s, c = ClientErrorCode.Unknown s → ClientErrorCode.from_str s = ClientErrorCode.Unknown s.

Lemma from_str_to_string s : ClientErrorCode.to_string (ClientErrorCode.from_str s) = s.
Proof.
  unfold ClientErrorCode.from_str.
  repeat match goal with
    | |- context [String.eqb ?x ?y] => destruct (String.eqb_spec x y) as [->|_]; [done|]
    end. done.
Qed.

(** An error code is read back from its text, and every text is that of
    the code it is read as; only a code made from the text of a known one is
    read back as that one. *)
Theorem error_code_roundtrip c s :
  (ClientErrorCode.from_str (ClientErrorCode.to_string c) = c ↔ code_ok c) ∧
  ClientErrorCode.to_string (ClientErrorCode.from_str s) = s.
Proof.
  split; [|apply from_str_to_string]. unfold code_ok.
  split; [by intros H s' ->|]. intros H. destruct c; try done. simpl. by apply H.
Qed.
