(* ===== verification/TokenFormat.v ===== *)
(** * Token strings

    [TokenType], [base62_encode] and [is_likely_synapse_macaroon] of
    crates/data-model/src/tokens.rs: how tokens are minted and how their text
    is recognised. *)

From stdpp Require Import base tactics list strings.
From Stdlib Require Import ZArith Lia Ascii.
From S2P Require Import Prelude Text Externals.

Inductive TokenType : Type :=
| AccessTokenType
| RefreshTokenType
| CompatAccessTokenType
| CompatRefreshTokenType
| PersonalAccessTokenType.

#[export] Instance TokenType_eq_dec : EqDecision TokenType.
Proof. solve_decision. Defined.

Inductive TokenFormatError : Type :=
| InvalidFormat
| UnknownPrefix (prefix : string)
| InvalidCrc (expected got : string).

#[export] Instance TokenFormatError_eq_dec : EqDecision TokenFormatError.
Proof. solve_decision. Defined.

(** [mas_iana::oauth::OAuthTokenTypeHint]. *)
Inductive OAuthTokenTypeHint : Type :=
| HintAccessToken
| HintRefreshToken
| HintPct
| HintUnknown (s : string).

Definition prefix (t : TokenType) : string :=
  match t with
  | AccessTokenType => "mat"
  | RefreshTokenType => "mar"
  | CompatAccessTokenType => "mct"
  | CompatRefreshTokenType => "mcr"
  | PersonalAccessTokenType => "mpt"
  end.

Definition match_prefix (p : string) : option TokenType :=
  if decide (p = "mat") then Some AccessTokenType
  else if decide (p = "mar") then Some RefreshTokenType
  else if decide (p = "mct" ∨ p = "syt") then Some CompatAccessTokenType
  else if decide (p = "mcr" ∨ p = "syr") then Some CompatRefreshTokenType
  else if decide (p = "mpt") then Some PersonalAccessTokenType
  else None.

(** [impl PartialEq<OAuthTokenTypeHint> for TokenType]. *)
Definition matches_hint (t : TokenType) (h : OAuthTokenTypeHint) : bool :=
  match t, h with
  | (AccessTokenType | CompatAccessTokenType | PersonalAccessTokenType), HintAccessToken
  | (RefreshTokenType | CompatRefreshTokenType), HintRefreshToken => true
  | _, _ => false
  end.

(** ** Base 62 *)

Definition NUM : string :=
  "0123456789ABCDEFGHIJKLMNOPQRSTUVWXYZabcdefghijklmnopqrstuvwxyz".

(** The [while num > 0] loop; the digits are pushed least significant first.
    Six turns exhaust a [u32] ([base62_fuel]). *)
Fixpoint base62_digits (fuel : nat) (num : Z) : string :=
  match fuel with
  | O => ""
  | S fuel =>
      if (0 <? num)%Z
      then String (default "0"%char (String.get (Z.to_nat (num mod 62)) NUM))
             (base62_digits fuel (num / 62))
      else ""
  end.

(** [format!("{res:0>6}")]: right-aligned, filled with zeros. *)
Fixpoint zeros (n : nat) : string :=
  match n with O => "" | S n => String "0" (zeros n) end.
Definition pad_left_zero (width : nat) (s : string) : string :=
  zeros (width - str_len s) +:+ s.

Definition base62_encode (num : Z) : string :=
  pad_left_zero 6 (base62_digits 6 num).

(** ** Minting and checking *)

(** [decoded.get(4..13) == Some(b"location ")]: the nine bytes from offset 4
    on, when the text has at least thirteen. *)
Definition is_location (decoded : string) : bool :=
  (13 <=? str_len decoded)%nat
  && bool_decide (String.substring 4 9 decoded = "location ").

Section Tokens.
Context `{!Crc, !Base64}.

Definition is_likely_synapse_macaroon (token : string) : bool :=
  match base64url_decode token with
  | None => false
  | Some decoded => is_location decoded
  end.

(** [format!("{prefix}_{random_part}")] and the token built from it. *)
Definition token_base (t : TokenType) (random_part : string) : string :=
  prefix t +:+ "_" +:+ random_part.
Definition token_text (t : TokenType) (random_part : string) : string :=
  let base := token_base t random_part in
  let crc := base62_encode (crc32 base) in
  base +:+ "_" +:+ crc.

(** [TokenType::generate]. *)
Definition generate {R} `{!RngCore R} (t : TokenType) (rng : R) : string * R :=
  let '(random_part, rng) := sample_alphanumeric 30 rng in
  (token_text t random_part, rng).

(** [TokenType::check]. *)
Definition check (token : string) : result TokenFormatError TokenType :=
  if starts_with token "syt_" || is_likely_synapse_macaroon token
  then Ok CompatAccessTokenType
  else if starts_with token "syr_" then Ok CompatRefreshTokenType
  else
    match split_char "_" token with
    | [pre; random_part; crc] =>
        if negb (str_len pre =? 3)%nat || negb (str_len random_part =? 30)%nat
           || negb (str_len crc =? 6)%nat
        then Err InvalidFormat
        else
          try token_type <- ok_or (match_prefix pre) (UnknownPrefix pre);
          let base := prefix token_type +:+ "_" +:+ random_part in
          let expected_crc := base62_encode (crc32 base) in
          if decide (crc = expected_crc) then Ok token_type
          else Err (InvalidCrc expected_crc crc)
    | _ => Err InvalidFormat
    end.
End Tokens.

(** ** Base 62 lemmas *)

Lemma NUM_get k :
  (0 ≤ k < 62)%Z →
  ∃ c, String.get (Z.to_nat k) NUM = Some c ∧ ascii_alphanumeric c = true.
Proof.
  intros Hk.
  assert (Z.to_nat k < 62)%nat as H by lia. revert H.
  generalize (Z.to_nat k). clear. intros n Hn.
  do 62 (destruct n as [|n]; [eexists; split; reflexivity|]). lia.
Qed.

Lemma base62_digits_len fuel num : (str_len (base62_digits fuel num) ≤ fuel)%nat.
Proof.
  revert num. induction fuel as [|fuel IH]; intros num; simpl; [lia|].
  destruct (0 <? num)%Z; simpl; [specialize (IH (num / 62)%Z)|]; lia.
Qed.

Lemma base62_digits_chars fuel num :
  all_chars ascii_alphanumeric (base62_digits fuel num) = true.
Proof.
  revert num. induction fuel as [|fuel IH]; intros num; cbn [base62_digits]; [done|].
  destruct (0 <? num)%Z; [|done]. cbn [all_chars].
  destruct (NUM_get (num mod 62)) as (c & Hc & Hok); [apply Z.mod_pos_bound; lia|].
  by rewrite Hc, IH; simpl; rewrite Hok.
Qed.

(** Once the fuel covers the number of digits, more fuel changes nothing. *)
Lemma base62_digits_fuel n k num :
  (0 ≤ num < 62 ^ Z.of_nat n)%Z → base62_digits (n + k) num = base62_digits n num.
Proof.
  revert num. induction n as [|n IH]; intros num Hnum.
  - assert (num = 0)%Z as -> by lia. by destruct k.
  - cbn [base62_digits Nat.add]. destruct (Z.ltb_spec 0 num); [|done]. f_equal. apply IH.
    rewrite Nat2Z.inj_succ, Z.pow_succ_r in Hnum by lia. split.
    + apply Z.div_pos; lia.
    + apply Z.div_lt_upper_bound; lia.
Qed.

Lemma zeros_len n : str_len (zeros n) = n.
Proof. induction n; simpl; congruence. Qed.

Lemma zeros_chars n : all_chars ascii_alphanumeric (zeros n) = true.
Proof. by induction n. Qed.

Lemma alphanumeric_no_underscore s :
  all_chars ascii_alphanumeric s = true → no_char "_" s = true.
Proof.
  intros H. eapply all_chars_impl; [|exact H]. intros c Hc.
  apply bool_decide_eq_true. intros ->. vm_compute in Hc. done.
Qed.

Lemma base62_encode_len num : str_len (base62_encode num) = 6.
Proof.
  unfold base62_encode, pad_left_zero. rewrite str_len_app, zeros_len.
  pose proof (base62_digits_len 6 num). lia.
Qed.

Lemma base62_encode_chars num : all_chars ascii_alphanumeric (base62_encode num) = true.
Proof.
  unfold base62_encode, pad_left_zero.
  by rewrite all_chars_app, zeros_chars, base62_digits_chars.
Qed.

(** Encoding a [u32] ends within the six turns the loop is given (more
    turns add no digit) and always yields six letters or digits, the length
    [TokenType::check] expects of the checksum. *)
Theorem base62_encode_u32 num k :
  (0 ≤ num < 2 ^ 32)%Z →
  base62_digits (6 + k) num = base62_digits 6 num ∧
  str_len (base62_encode num) = 6 ∧
  all_chars ascii_alphanumeric (base62_encode num) = true.
Proof.
  intros Hnum. split; [apply base62_digits_fuel; simpl; lia|].
  split; [apply base62_encode_len | apply base62_encode_chars].
Qed.

Lemma base62_encode_u32_witness :
  base62_digits (6 + 4) 4294967295 = base62_digits 6 4294967295 ∧
  str_len (base62_encode 4294967295) = 6 ∧
  all_chars ascii_alphanumeric (base62_encode 4294967295) = true.
Proof. apply base62_encode_u32. lia. Defined.

Lemma zeros_app n s : zeros n +:+ String "0" s = zeros (S n) +:+ s.
Proof. induction n as [|n IH]; [done|]. simpl zeros. rewrite app_str_cons, IH. done. Qed.

(** The six-character checksum is not a faithful image of the CRC: digits
    are written least significant first but filled with zeros on the left, so a
    number and 62 times that number have the same text. *)
Theorem base62_encode_not_injective num :
  (0 < num)%Z → (num * 62 < 2 ^ 32)%Z →
  base62_encode (num * 62) = base62_encode num.
Proof.
  intros Hpos Hlt. unfold base62_encode.
  assert (base62_digits 6 num = base62_digits 5 num) as ->
    by (apply (base62_digits_fuel 5 1); simpl; lia).
  assert (base62_digits 6 (num * 62) = String "0" (base62_digits 5 num)) as ->.
  { change (base62_digits 6 (num * 62)) with
      (if (0 <? num * 62)%Z
       then String (default "0"%char (String.get (Z.to_nat ((num * 62) mod 62)) NUM))
              (base62_digits 5 (num * 62 / 62)) else "").
    rewrite Z.mod_mul, Z.div_mul by lia. by destruct (Z.ltb_spec 0 (num * 62)); [|lia]. }
  pose proof (base62_digits_len 5 num) as Hlen. unfold pad_left_zero.
  rewrite zeros_app. cbn [str_len]. f_equal. f_equal. lia.
Qed.

Lemma base62_encode_not_injective_witness : base62_encode 62 = base62_encode 1.
Proof. apply (base62_encode_not_injective 1); lia. Defined.

(** ** Checking what was minted *)

Lemma prefix_facts t :
  str_len (prefix t) = 3 ∧ no_char "_" (prefix t) = true ∧
  match_prefix (prefix t) = Some t ∧
  ∀ s, starts_with (prefix t +:+ s) "syt_" = false ∧
       starts_with (prefix t +:+ s) "syr_" = false.
Proof. destruct t; repeat split; reflexivity. Qed.

Lemma match_prefix_Some p t :
  match_prefix p = Some t →
  p = prefix t ∨ (p = "syt" ∧ t = CompatAccessTokenType)
  ∨ (p = "syr" ∧ t = CompatRefreshTokenType).
Proof. unfold match_prefix. repeat case_decide; intros [= <-]; simpl; naive_solver. Qed.

Section TokenFacts.
Context `{!Crc, !Base64}.

Lemma token_text_split t r :
  no_char "_" r = true →
  split_char "_" (token_text t r)
  = [prefix t; r; base62_encode (crc32 (token_base t r))].
Proof.
  intros Hr. unfold token_text, token_base at 1.
  destruct (prefix_facts t) as (_ & Hp & _).
  rewrite !app_str_assoc. change ("_" +:+ ?s) with (String "_" s).
  rewrite split_char_app by done.
  change ("_" +:+ ?s) with (String "_" s). rewrite split_char_app by done.
  rewrite split_char_word; [done|].
  apply alphanumeric_no_underscore, base62_encode_chars.
Qed.

Lemma token_text_len t r : str_len (token_text t r) = str_len r + 11.
Proof.
  unfold token_text, token_base. rewrite !str_len_app, base62_encode_len.
  destruct (prefix_facts t) as (-> & _). simpl. lia.
Qed.

Lemma token_text_not_legacy t r :
  starts_with (token_text t r) "syt_" = false ∧
  starts_with (token_text t r) "syr_" = false.
Proof.
  unfold token_text, token_base. rewrite !app_str_assoc.
  destruct (prefix_facts t) as (_ & _ & _ & Hs). apply Hs.
Qed.

Context `{!Base64Laws}.

Lemma token_text_check t r :
  str_len r = 30 → no_char "_" r = true → check (token_text t r) = Ok t.
Proof.
  intros Hlen Hr. unfold check.
  destruct (token_text_not_legacy t r) as [-> ->].
  unfold is_likely_synapse_macaroon.
  rewrite base64url_decode_length by (by rewrite token_text_len, Hlen). simpl.
  rewrite token_text_split by done. destruct (prefix_facts t) as (-> & _ & -> & _).
  rewrite Hlen, base62_encode_len. simpl. by rewrite decide_True.
Qed.

(** C39: every token the server mints, of any type and with any random part
    the generator can draw, is recognised by [TokenType::check] as a token
    of that type. *)
Theorem token_generate_check {R} `{!RngCore R, !RngLaws R} (t : TokenType) (rng : R) :
  check (generate t rng).1 = Ok t.
Proof.
  unfold generate.
  pose proof (sample_length 30 rng) as Hlen. pose proof (sample_chars 30 rng) as Hch.
  destruct (sample_alphanumeric 30 rng) as [r rng']. simpl in *.
  by apply token_text_check; [|apply alphanumeric_no_underscore].
Qed.

(** [TokenType::check] accepts nothing else: an accepted token is one of
    the two kinds of token imported from Synapse, taken as they are, or the
    canonical text (prefix, 30 bytes, checksum) of the type it reports; the
    [syt] and [syr] prefixes never reach the checksum test. *)
Theorem token_check_sound token t :
  check token = Ok t →
  (t = CompatAccessTokenType ∧
     (starts_with token "syt_" = true ∨ is_likely_synapse_macaroon token = true)) ∨
  (t = CompatRefreshTokenType ∧ starts_with token "syr_" = true) ∨
  ∃ r, str_len r = 30 ∧ no_char "_" r = true ∧ token = token_text t r.
Proof.
  unfold check. destruct (starts_with token "syt_") eqn:Hsyt; [naive_solver|].
  destruct (is_likely_synapse_macaroon token) eqn:Hmac; [naive_solver|]. simpl.
  destruct (starts_with token "syr_") eqn:Hsyr; [naive_solver|].
  destruct (split_char "_" token) as [|p [|r [|c [|]]]] eqn:Hs; try done.
  apply split_join_inv in Hs as [-> Hw].
  destruct (negb _ || _ || _) eqn:Hl; [done|].
  rewrite !orb_false_iff, !negb_false_iff, !Nat.eqb_eq in Hl.
  destruct (match_prefix p) as [t'|] eqn:Hm; simpl; [|done].
  case_decide as Hc; [|done]. intros [= <-]. right; right.
  apply match_prefix_Some in Hm as [-> |[[-> ->]|[-> ->]]].
  - exists r. apply Forall_cons in Hw as [_ [Hr _]%Forall_cons].
    split; [naive_solver|]. split; [done|].
    unfold token_text, token_base. rewrite !app_str_assoc. by subst c.
  - by vm_compute in Hsyt.
  - by vm_compute in Hsyr.
Qed.
End TokenFacts.

Section Witnesses.
Import Counter.

Lemma token_generate_check_witness :
  check (generate RefreshTokenType 7%Z).1 = Ok RefreshTokenType.
Proof. apply token_generate_check. Defined.

Lemma token_check_sound_witness :
  (AccessTokenType = CompatAccessTokenType ∧
     (starts_with (generate AccessTokenType 7%Z).1 "syt_" = true ∨
      is_likely_synapse_macaroon (generate AccessTokenType 7%Z).1 = true)) ∨
  (AccessTokenType = CompatRefreshTokenType ∧
     starts_with (generate AccessTokenType 7%Z).1 "syr_" = true) ∨
  ∃ r, str_len r = 30 ∧ no_char "_" r = true ∧
       (generate AccessTokenType 7%Z).1 = token_text AccessTokenType r.
Proof. apply token_check_sound. vm_compute. reflexivity. Defined.
End Witnesses.
