(* ===== verification/DataModel.v ===== *)
(** * The data model

    crates/data-model: the records the storage layer returns and their state
    machines.  One [Module] per struct, so that the fields and the methods
    keep the names of the source. *)

From stdpp Require Import base tactics list strings gmap.
From Stdlib Require Import ZArith Lia Ascii.
From S2P Require Import Prelude Text Scope Externals Formats.

(** [struct InvalidTransitionError] (lib.rs). *)
Inductive InvalidTransitionError : Type := InvalidTransition.

Abbreviation IpAddr := string (only parsing).
Abbreviation Url := string (only parsing).

(** ** OAuth 2.0 sessions (oauth2/session.rs) *)
Module SessionState.
Inductive t : Type :=
| Valid
| Finished (finished_at : DateTime).

Definition is_valid (s : t) : bool := match s with Valid => true | _ => false end.
Definition is_finished (s : t) : bool :=
  match s with Finished _ => true | _ => false end.

Definition finish (s : t) (finished_at : DateTime) : result InvalidTransitionError t :=
  match s with
  | Valid => Ok (Finished finished_at)
  | Finished _ => Err InvalidTransition
  end.

Definition finished_at (s : t) : option DateTime :=
  match s with Valid => None | Finished f => Some f end.
End SessionState.

Module Session.
Record t := mk {
  id : Ulid;
  state : SessionState.t;
  created_at : DateTime;
  user_id : option Ulid;
  user_session_id : option Ulid;
  client_id : Ulid;
  scope : Scope;
  user_agent : option string;
  last_active_at : option DateTime;
  last_active_ip : option IpAddr;
  human_name : option string;
}.

Definition with_state (s : t) (st : SessionState.t) : t :=
  mk (id s) st (created_at s) (user_id s) (user_session_id s) (client_id s) (scope s)
     (user_agent s) (last_active_at s) (last_active_ip s) (human_name s).

Definition with_user_agent (s : t) (ua : option string) : t :=
  mk (id s) (state s) (created_at s) (user_id s) (user_session_id s) (client_id s)
     (scope s) ua (last_active_at s) (last_active_ip s) (human_name s).

Definition with_human_name (s : t) (n : option string) : t :=
  mk (id s) (state s) (created_at s) (user_id s) (user_session_id s) (client_id s)
     (scope s) (user_agent s) (last_active_at s) (last_active_ip s) n.

(** Through [Deref]. *)
Definition is_valid (s : t) : bool := SessionState.is_valid (state s).
Definition is_finished (s : t) : bool := SessionState.is_finished (state s).

Definition finish (s : t) (finished_at : DateTime) : result InvalidTransitionError t :=
  try st <- SessionState.finish (state s) finished_at;
  Ok (with_state s st).
End Session.

(** ** Access and refresh tokens (tokens.rs) *)
Module AccessTokenState.
Inductive t : Type :=
| Valid
| Revoked (revoked_at : DateTime).

Definition revoke (s : t) (revoked_at : DateTime) : result InvalidTransitionError t :=
  match s with
  | Valid => Ok (Revoked revoked_at)
  | Revoked _ => Err InvalidTransition
  end.

Definition is_valid (s : t) : bool := match s with Valid => true | _ => false end.
Definition is_revoked (s : t) : bool := match s with Revoked _ => true | _ => false end.
End AccessTokenState.

Module AccessToken.
Record t := mk {
  id : Ulid;
  state : AccessTokenState.t;
  session_id : Ulid;
  access_token : string;
  created_at : DateTime;
  expires_at : option DateTime;
  first_used_at : option DateTime;
}.

Definition is_expired (a : t) (now : DateTime) : bool :=
  match expires_at a with Some e => (e <? now)%Z | None => false end.

Definition is_valid (a : t) (now : DateTime) : bool :=
  AccessTokenState.is_valid (state a) && negb (is_expired a now).

Definition is_used (a : t) : bool :=
  match first_used_at a with Some _ => true | None => false end.

Definition with_state (a : t) (s : AccessTokenState.t) : t :=
  mk (id a) s (session_id a) (access_token a) (created_at a) (expires_at a)
     (first_used_at a).

Definition with_first_used_at (a : t) (u : option DateTime) : t :=
  mk (id a) (state a) (session_id a) (access_token a) (created_at a) (expires_at a) u.

Definition revoke (a : t) (revoked_at : DateTime) : result InvalidTransitionError t :=
  try s <- AccessTokenState.revoke (state a) revoked_at;
  Ok (with_state a s).
End AccessToken.

Module RefreshTokenState.
Inductive t : Type :=
| Valid
| Consumed (consumed_at : DateTime) (next_refresh_token_id : option Ulid)
| Revoked (revoked_at : DateTime).

Definition consume (s : t) (consumed_at : DateTime) (replaced_by : Ulid) :
    result InvalidTransitionError t :=
  match s with
  | Valid | Consumed _ _ => Ok (Consumed consumed_at (Some replaced_by))
  | Revoked _ => Err InvalidTransition
  end.

Definition revoke (s : t) (revoked_at : DateTime) : result InvalidTransitionError t :=
  match s with
  | Valid => Ok (Revoked revoked_at)
  | Consumed _ _ | Revoked _ => Err InvalidTransition
  end.

Definition is_valid (s : t) : bool := match s with Valid => true | _ => false end.

Definition next_refresh_token_id (s : t) : option Ulid :=
  match s with
  | Valid | Revoked _ => None
  | Consumed _ next => next
  end.
End RefreshTokenState.

Module RefreshToken.
Record t := mk {
  id : Ulid;
  state : RefreshTokenState.t;
  refresh_token : string;
  session_id : Ulid;
  created_at : DateTime;
  access_token_id : option Ulid;
}.

Definition with_state (r : t) (s : RefreshTokenState.t) : t :=
  mk (id r) s (refresh_token r) (session_id r) (created_at r) (access_token_id r).

Definition is_valid (r : t) : bool := RefreshTokenState.is_valid (state r).
Definition next_refresh_token_id (r : t) : option Ulid :=
  RefreshTokenState.next_refresh_token_id (state r).

Definition consume (r : t) (consumed_at : DateTime) (replaced_by : t) :
    result InvalidTransitionError t :=
  try s <- RefreshTokenState.consume (state r) consumed_at (id replaced_by);
  Ok (with_state r s).

Definition revoke (r : t) (revoked_at : DateTime) : result InvalidTransitionError t :=
  try s <- RefreshTokenState.revoke (state r) revoked_at;
  Ok (with_state r s).
End RefreshToken.

(** ** Users and browser sessions (users.rs) *)
Module User.
Record t := mk {
  id : Ulid;
  username : string;
  sub : string;
  created_at : DateTime;
  locked_at : option DateTime;
  deactivated_at : option DateTime;
  can_request_admin : bool;
  is_guest : bool;
}.

Definition is_valid (u : t) : bool :=
  match locked_at u, deactivated_at u with None, None => true | _, _ => false end.

Definition is_valid_actor (u : t) : bool :=
  match deactivated_at u with None => true | Some _ => false end.

Definition with_locked_at (u : t) (v : option DateTime) : t :=
  mk (id u) (username u) (sub u) (created_at u) v (deactivated_at u) (can_request_admin u)
    (is_guest u).
Definition with_deactivated_at (u : t) (v : option DateTime) : t :=
  mk (id u) (username u) (sub u) (created_at u) (locked_at u) v (can_request_admin u)
    (is_guest u).
Definition with_can_request_admin (u : t) (v : bool) : t :=
  mk (id u) (username u) (sub u) (created_at u) (locked_at u) (deactivated_at u) v (is_guest u).
End User.

(** [Password] (users.rs): a hash and the version of the scheme it is of. *)
Module UserPassword.
Record t := mk {
  id : Ulid;
  hashed_password : string;
  version : Z;
  upgraded_from_id : option Ulid;
  created_at : DateTime;
}.
End UserPassword.

Inductive AuthenticationMethod : Type :=
| Password (user_password_id : Ulid)
| UpstreamOAuth2 (upstream_oauth2_session_id : Ulid)
| UnknownAuthentication.

Module Authentication.
Record t := mk {
  id : Ulid;
  created_at : DateTime;
  authentication_method : AuthenticationMethod;
}.
End Authentication.

Module BrowserSession.
Record t := mk {
  id : Ulid;
  user : User.t;
  created_at : DateTime;
  finished_at : option DateTime;
  user_agent : option string;
  last_active_at : option DateTime;
  last_active_ip : option IpAddr;
}.

Definition active (b : t) : bool :=
  match finished_at b with None => User.is_valid (user b) | Some _ => false end.

Definition with_finished_at (b : t) (f : option DateTime) : t :=
  mk (id b) (user b) (created_at b) f (user_agent b) (last_active_at b)
     (last_active_ip b).
End BrowserSession.

(** ** Clients (oauth2/client.rs) *)
Inductive GrantType : Type :=
| AuthorizationCode
| RefreshTokenGrantType
| Implicit
| ClientCredentials
| PasswordGrantType
| DeviceCode
| JwtBearer
| ClientInitiatedBackchannelAuthentication
| UnknownGrantType (s : string).

#[export] Instance GrantType_eq_dec : EqDecision GrantType.
Proof. solve_decision. Defined.

Inductive OAuthClientAuthenticationMethod : Type :=
| NoAuthentication
| ClientSecretPost
| ClientSecretBasic
| ClientSecretJwt
| PrivateKeyJwt
| TlsClientAuth
| SelfSignedTlsClientAuth
| UnknownAuthenticationMethod (s : string).

#[export] Instance OAuthClientAuthenticationMethod_eq_dec :
  EqDecision OAuthClientAuthenticationMethod.
Proof. solve_decision. Defined.

(** A key set is kept as its JSON text. *)
Inductive JwksOrJwksUri : Type :=
| Jwks (jwks : string)
| JwksUri (uri : Url).

Module Client.
Record t := mk {
  id : Ulid;
  client_id : string;
  metadata_digest : option string;
  encrypted_client_secret : option string;
  application_type : option string;
  redirect_uris : list Url;
  grant_types : list GrantType;
  client_name : option string;
  logo_uri : option Url;
  client_uri : option Url;
  policy_uri : option Url;
  tos_uri : option Url;
  jwks : option JwksOrJwksUri;
  id_token_signed_response_alg : option string;
  userinfo_signed_response_alg : option string;
  token_endpoint_auth_method : option OAuthClientAuthenticationMethod;
  token_endpoint_auth_signing_alg : option string;
  initiate_login_uri : option Url;
  is_static : bool;
}.

(** [client.grant_types.contains(g)]. *)
Definition has_grant_type (c : t) (g : GrantType) : bool :=
  bool_decide (g ∈ grant_types c).
End Client.

(** ** Authorization grants (oauth2/authorization_grant.rs) *)
Module AuthorizationCode.
Record t := mk { code : string; pkce : option Pkce }.
End AuthorizationCode.

Module AuthorizationGrantStage.
Inductive t : Type :=
| Pending
| Fulfilled (browser_session_id : Ulid) (fulfilled_at : DateTime)
| Exchanged (session_id : Ulid) (fulfilled_at exchanged_at : DateTime)
| Cancelled (cancelled_at : DateTime).

Definition fulfill (s : t) (fulfilled_at : DateTime) (b : BrowserSession.t) :
    result InvalidTransitionError t :=
  match s with
  | Pending => Ok (Fulfilled (BrowserSession.id b) fulfilled_at)
  | _ => Err InvalidTransition
  end.

Definition exchange (s : t) (exchanged_at : DateTime) (session : Session.t) :
    result InvalidTransitionError t :=
  match s with
  | Fulfilled _ fulfilled_at =>
      Ok (Exchanged (Session.id session) fulfilled_at exchanged_at)
  | _ => Err InvalidTransition
  end.

Definition cancel (s : t) (cancelled_at : DateTime) : result InvalidTransitionError t :=
  match s with
  | Pending => Ok (Cancelled cancelled_at)
  | _ => Err InvalidTransition
  end.

Definition is_pending (s : t) : bool := match s with Pending => true | _ => false end.
Definition is_fulfilled (s : t) : bool :=
  match s with Fulfilled _ _ => true | _ => false end.
Definition is_exchanged (s : t) : bool :=
  match s with Exchanged _ _ _ => true | _ => false end.
End AuthorizationGrantStage.

(** [ResponseMode] of crates/oauth2-types/src/requests.rs. *)
Inductive ResponseMode : Type :=
| Query
| Fragment
| FormPost
| UnknownResponseMode (s : string).

Module AuthorizationGrant.
Record t := mk {
  id : Ulid;
  stage : AuthorizationGrantStage.t;
  code : option AuthorizationCode.t;
  client_id : Ulid;
  redirect_uri : Url;
  scope : Scope;
  state : option string;
  nonce : option string;
  response_mode : ResponseMode;
  response_type_id_token : bool;
  created_at : DateTime;
  login_hint : option string;
  locale : option string;
  raw_parameters : gmap string string;
}.

Definition with_stage (g : t) (s : AuthorizationGrantStage.t) : t :=
  mk (id g) s (code g) (client_id g) (redirect_uri g) (scope g) (state g) (nonce g)
     (response_mode g) (response_type_id_token g) (created_at g) (login_hint g)
     (locale g) (raw_parameters g).

Definition exchange (g : t) (exchanged_at : DateTime) (session : Session.t) :
    result InvalidTransitionError t :=
  try s <- AuthorizationGrantStage.exchange (stage g) exchanged_at session;
  Ok (with_stage g s).

Definition fulfill (g : t) (fulfilled_at : DateTime) (b : BrowserSession.t) :
    result InvalidTransitionError t :=
  try s <- AuthorizationGrantStage.fulfill (stage g) fulfilled_at b;
  Ok (with_stage g s).

Definition cancel (g : t) (cancelled_at : DateTime) : result InvalidTransitionError t :=
  try s <- AuthorizationGrantStage.cancel (stage g) cancelled_at;
  Ok (with_stage g s).
End AuthorizationGrant.

(** ** Device code grants (oauth2/device_code_grant.rs) *)
Module DeviceCodeGrantState.
Inductive t : Type :=
| Pending
| Fulfilled (browser_session_id : Ulid) (fulfilled_at : DateTime)
| Rejected (browser_session_id : Ulid) (rejected_at : DateTime)
| Exchanged (browser_session_id : Ulid) (fulfilled_at exchanged_at : DateTime)
    (session_id : Ulid).

Definition fulfill (s : t) (b : BrowserSession.t) (fulfilled_at : DateTime) :
    result InvalidTransitionError t :=
  match s with
  | Pending => Ok (Fulfilled (BrowserSession.id b) fulfilled_at)
  | _ => Err InvalidTransition
  end.

Definition reject (s : t) (b : BrowserSession.t) (rejected_at : DateTime) :
    result InvalidTransitionError t :=
  match s with
  | Pending => Ok (Rejected (BrowserSession.id b) rejected_at)
  | _ => Err InvalidTransition
  end.

Definition exchange (s : t) (session : Session.t) (exchanged_at : DateTime) :
    result InvalidTransitionError t :=
  match s with
  | Fulfilled browser_session_id fulfilled_at =>
      Ok (Exchanged browser_session_id fulfilled_at exchanged_at (Session.id session))
  | _ => Err InvalidTransition
  end.

Definition is_pending (s : t) : bool := match s with Pending => true | _ => false end.
Definition is_fulfilled (s : t) : bool :=
  match s with Fulfilled _ _ => true | _ => false end.
Definition is_rejected (s : t) : bool :=
  match s with Rejected _ _ => true | _ => false end.
Definition is_exchanged (s : t) : bool :=
  match s with Exchanged _ _ _ _ => true | _ => false end.
End DeviceCodeGrantState.

Module DeviceCodeGrant.
Record t := mk {
  id : Ulid;
  state : DeviceCodeGrantState.t;
  client_id : Ulid;
  scope : Scope;
  user_code : string;
  device_code : string;
  created_at : DateTime;
  expires_at : DateTime;
  ip_address : option IpAddr;
  user_agent : option string;
  locale : option string;
}.

Definition with_state_locale (g : t) (s : DeviceCodeGrantState.t)
    (locale : option string) : t :=
  mk (id g) s (client_id g) (scope g) (user_code g) (device_code g) (created_at g)
     (expires_at g) (ip_address g) (user_agent g) locale.

Definition fulfill (g : t) (b : BrowserSession.t) (locale' : option string)
    (fulfilled_at : DateTime) : result InvalidTransitionError t :=
  try s <- DeviceCodeGrantState.fulfill (state g) b fulfilled_at;
  Ok (with_state_locale g s locale').

Definition reject (g : t) (b : BrowserSession.t) (rejected_at : DateTime) :
    result InvalidTransitionError t :=
  try s <- DeviceCodeGrantState.reject (state g) b rejected_at;
  Ok (with_state_locale g s (locale g)).

Definition exchange (g : t) (session : Session.t) (exchanged_at : DateTime) :
    result InvalidTransitionError t :=
  try s <- DeviceCodeGrantState.exchange (state g) session exchanged_at;
  Ok (with_state_locale g s (locale g)).
End DeviceCodeGrant.
