(* ===== verification/CompatModel.v ===== *)
(** * Compatibility and personal sessions: the data model

    crates/data-model/src/compat (sessions of the legacy Matrix API, their
    tokens and SSO logins) and crates/data-model/src/personal (personal
    sessions and their access tokens). *)

From stdpp Require Import base tactics list strings.
From Stdlib Require Import ZArith Lia.
From S2P Require Import Prelude Text Scope Externals Formats DataModel.

(** ** Compatibility sessions (compat/session.rs) *)
Module CompatSessionState.
Inductive t : Type :=
| Valid
| Finished (finished_at : DateTime).

Definition is_valid (s : t) : bool := match s with Valid => true | _ => false end.
Definition is_finished (s : t) : bool := match s with Finished _ => true | _ => false end.

Definition finish (s : t) (finished_at : DateTime) : result InvalidTransitionError t :=
  match s with
  | Valid => Ok (Finished finished_at)
  | Finished _ => Err InvalidTransition
  end.

Definition finished_at (s : t) : option DateTime :=
  match s with Valid => None | Finished f => Some f end.
End CompatSessionState.

Module CompatSession.
Record t := mk {
  id : Ulid;
  state : CompatSessionState.t;
  user_id : Ulid;
  device : option Device.Device;
  human_name : option string;
  user_session_id : option Ulid;
  created_at : DateTime;
  is_synapse_admin : bool;
  user_agent : option string;
  last_active_at : option DateTime;
  last_active_ip : option IpAddr;
}.

Definition with_state (s : t) (st : CompatSessionState.t) : t :=
  mk (id s) st (user_id s) (device s) (human_name s) (user_session_id s) (created_at s)
     (is_synapse_admin s) (user_agent s) (last_active_at s) (last_active_ip s).

Definition with_user_agent (s : t) (ua : option string) : t :=
  mk (id s) (state s) (user_id s) (device s) (human_name s) (user_session_id s) (created_at s)
     (is_synapse_admin s) ua (last_active_at s) (last_active_ip s).

Definition with_human_name (s : t) (n : option string) : t :=
  mk (id s) (state s) (user_id s) (device s) n (user_session_id s) (created_at s)
     (is_synapse_admin s) (user_agent s) (last_active_at s) (last_active_ip s).

(** Through [Deref]. *)
Definition is_valid (s : t) : bool := CompatSessionState.is_valid (state s).

Definition finish (s : t) (finished_at : DateTime) : result InvalidTransitionError t :=
  try st <- CompatSessionState.finish (state s) finished_at;
  Ok (with_state s st).
End CompatSession.

(** ** Compatibility tokens (compat/mod.rs) *)
Module CompatAccessToken.
Record t := mk {
  id : Ulid;
  session_id : Ulid;
  token : string;
  created_at : DateTime;
  expires_at : option DateTime;
}.

Definition is_valid (a : t) (now : DateTime) : bool :=
  match expires_at a with Some e => (now <? e)%Z | None => true end.

Definition with_expires_at (a : t) (e : option DateTime) : t :=
  mk (id a) (session_id a) (token a) (created_at a) e.
End CompatAccessToken.

Module CompatRefreshTokenState.
Inductive t : Type :=
| Valid
| Consumed (consumed_at : DateTime).

Definition is_valid (s : t) : bool := match s with Valid => true | _ => false end.
Definition is_consumed (s : t) : bool := match s with Consumed _ => true | _ => false end.

Definition consume (s : t) (consumed_at : DateTime) : result InvalidTransitionError t :=
  match s with
  | Valid => Ok (Consumed consumed_at)
  | Consumed _ => Err InvalidTransition
  end.
End CompatRefreshTokenState.

Module CompatRefreshToken.
Record t := mk {
  id : Ulid;
  state : CompatRefreshTokenState.t;
  session_id : Ulid;
  access_token_id : Ulid;
  token : string;
  created_at : DateTime;
}.

Definition with_state (r : t) (s : CompatRefreshTokenState.t) : t :=
  mk (id r) s (session_id r) (access_token_id r) (token r) (created_at r).

Definition is_valid (r : t) : bool := CompatRefreshTokenState.is_valid (state r).

Definition consume (r : t) (consumed_at : DateTime) : result InvalidTransitionError t :=
  try s <- CompatRefreshTokenState.consume (state r) consumed_at;
  Ok (with_state r s).
End CompatRefreshToken.

(** ** SSO logins (compat/sso_login.rs) *)
Module CompatSsoLoginState.
Inductive t : Type :=
| Pending
| Fulfilled (fulfilled_at : DateTime) (browser_session_id : Ulid)
| Exchanged (fulfilled_at exchanged_at : DateTime) (compat_session_id : Ulid).

Definition is_pending (s : t) : bool := match s with Pending => true | _ => false end.
Definition is_fulfilled (s : t) : bool := match s with Fulfilled _ _ => true | _ => false end.
Definition is_exchanged (s : t) : bool := match s with Exchanged _ _ _ => true | _ => false end.

Definition fulfilled_at (s : t) : option DateTime :=
  match s with Pending => None | Fulfilled f _ | Exchanged f _ _ => Some f end.

Definition exchanged_at (s : t) : option DateTime :=
  match s with Pending | Fulfilled _ _ => None | Exchanged _ e _ => Some e end.

Definition session_id (s : t) : option Ulid :=
  match s with Pending | Fulfilled _ _ => None | Exchanged _ _ i => Some i end.

Definition fulfill (s : t) (fulfilled_at : DateTime) (b : BrowserSession.t) :
    result InvalidTransitionError t :=
  match s with
  | Pending => Ok (Fulfilled fulfilled_at (BrowserSession.id b))
  | Fulfilled _ _ | Exchanged _ _ _ => Err InvalidTransition
  end.

Definition exchange (s : t) (exchanged_at : DateTime) (c : CompatSession.t) :
    result InvalidTransitionError t :=
  match s with
  | Fulfilled fulfilled_at _ => Ok (Exchanged fulfilled_at exchanged_at (CompatSession.id c))
  | Pending | Exchanged _ _ _ => Err InvalidTransition
  end.
End CompatSsoLoginState.

Module CompatSsoLogin.
Record t := mk {
  id : Ulid;
  redirect_uri : Url;
  login_token : string;
  created_at : DateTime;
  state : CompatSsoLoginState.t;
}.

Definition with_state (l : t) (s : CompatSsoLoginState.t) : t :=
  mk (id l) (redirect_uri l) (login_token l) (created_at l) s.

Definition fulfill (l : t) (fulfilled_at : DateTime) (b : BrowserSession.t) :
    result InvalidTransitionError t :=
  try s <- CompatSsoLoginState.fulfill (state l) fulfilled_at b;
  Ok (with_state l s).

Definition exchange (l : t) (exchanged_at : DateTime) (c : CompatSession.t) :
    result InvalidTransitionError t :=
  try s <- CompatSsoLoginState.exchange (state l) exchanged_at c;
  Ok (with_state l s).
End CompatSsoLogin.

(** ** Personal sessions (personal/session.rs, personal/mod.rs) *)
Module PersonalSessionState.
Inductive t : Type :=
| Valid
| Revoked (revoked_at : DateTime).

Definition is_valid (s : t) : bool := match s with Valid => true | _ => false end.
Definition is_revoked (s : t) : bool := match s with Revoked _ => true | _ => false end.

Definition revoke (s : t) (revoked_at : DateTime) : result InvalidTransitionError t :=
  match s with
  | Valid => Ok (Revoked revoked_at)
  | Revoked _ => Err InvalidTransition
  end.

Definition revoked_at (s : t) : option DateTime :=
  match s with Valid => None | Revoked r => Some r end.
End PersonalSessionState.

Inductive PersonalSessionOwner : Type :=
| OwnerUser (user_id : Ulid)
| OwnerOAuth2Client (oauth2_client_id : Ulid).

Module PersonalSession.
Record t := mk {
  id : Ulid;
  state : PersonalSessionState.t;
  owner : PersonalSessionOwner;
  actor_user_id : Ulid;
  human_name : string;
  scope : Scope;
  created_at : DateTime;
  last_active_at : option DateTime;
  last_active_ip : option IpAddr;
}.

Definition with_state (s : t) (st : PersonalSessionState.t) : t :=
  mk (id s) st (owner s) (actor_user_id s) (human_name s) (scope s) (created_at s)
     (last_active_at s) (last_active_ip s).

Definition is_valid (s : t) : bool := PersonalSessionState.is_valid (state s).

Definition finish (s : t) (revoked_at : DateTime) : result InvalidTransitionError t :=
  try st <- PersonalSessionState.revoke (state s) revoked_at;
  Ok (with_state s st).
End PersonalSession.

Module PersonalAccessToken.
Record t := mk {
  id : Ulid;
  session_id : Ulid;
  created_at : DateTime;
  expires_at : option DateTime;
  revoked_at : option DateTime;
}.

Definition is_valid (a : t) (now : DateTime) : bool :=
  match revoked_at a with
  | Some _ => false
  | None => match expires_at a with Some e => (now <? e)%Z | None => true end
  end.

Definition with_revoked_at (a : t) (r : option DateTime) : t :=
  mk (id a) (session_id a) (created_at a) (expires_at a) r.
End PersonalAccessToken.
