(* ===== verification/UpstreamModel.v ===== *)
(** * Upstream providers, links and authorization sessions

    crates/data-model/src/upstream_oauth2: the providers users may log in with
    (provider.rs), the identities they have there (link.rs) and the state machine
    of an authorization at a provider (session.rs). *)

From stdpp Require Import base tactics list strings gmap.
From Stdlib Require Import ZArith Lia.
From S2P Require Import Prelude Text Scope Externals Formats DataModel.

(** ** Settings of a provider (provider.rs)

    The modes, with [as_str] and [FromStr]. *)
Module DiscoveryMode.
Inductive t : Type := Oidc | Insecure | Disabled.
Definition is_disabled (m : t) : bool := match m with Disabled => true | _ => false end.
Definition as_str (m : t) : string :=
  match m with Oidc => "oidc" | Insecure => "insecure" | Disabled => "disabled" end.
Definition from_str (s : string) : option t :=
  if decide (s = "oidc") then Some Oidc
  else if decide (s = "insecure") then Some Insecure
  else if decide (s = "disabled") then Some Disabled
  else None.
End DiscoveryMode.

Module PkceMode.
Inductive t : Type := Auto | S256 | Disabled.
Definition as_str (m : t) : string :=
  match m with Auto => "auto" | S256 => "s256" | Disabled => "disabled" end.
Definition from_str (s : string) : option t :=
  if decide (s = "auto") then Some Auto
  else if decide (s = "s256") then Some S256
  else if decide (s = "disabled") then Some Disabled
  else None.
End PkceMode.

Module UpstreamResponseMode.
Inductive t : Type := Query | FormPost.
Definition as_str (m : t) : string := match m with Query => "query" | FormPost => "form_post" end.
Definition from_str (s : string) : option t :=
  if decide (s = "query") then Some Query
  else if decide (s = "form_post") then Some FormPost
  else None.
End UpstreamResponseMode.

Module TokenAuthMethod.
Inductive t : Type :=
| NoAuth
| ClientSecretBasic
| ClientSecretPost
| ClientSecretJwt
| PrivateKeyJwt
| SignInWithApple.
Definition as_str (m : t) : string :=
  match m with
  | NoAuth => "none"
  | ClientSecretBasic => "client_secret_basic"
  | ClientSecretPost => "client_secret_post"
  | ClientSecretJwt => "client_secret_jwt"
  | PrivateKeyJwt => "private_key_jwt"
  | SignInWithApple => "sign_in_with_apple"
  end.
Definition from_str (s : string) : option t :=
  if decide (s = "none") then Some NoAuth
  else if decide (s = "client_secret_post") then Some ClientSecretPost
  else if decide (s = "client_secret_basic") then Some ClientSecretBasic
  else if decide (s = "client_secret_jwt") then Some ClientSecretJwt
  else if decide (s = "private_key_jwt") then Some PrivateKeyJwt
  else if decide (s = "sign_in_with_apple") then Some SignInWithApple
  else None.
End TokenAuthMethod.

Module OnBackchannelLogout.
Inductive t : Type := DoNothing | LogoutBrowserOnly | LogoutAll.
Definition as_str (m : t) : string :=
  match m with
  | DoNothing => "do_nothing"
  | LogoutBrowserOnly => "logout_browser_only"
  | LogoutAll => "logout_all"
  end.
Definition from_str (s : string) : option t :=
  if decide (s = "do_nothing") then Some DoNothing
  else if decide (s = "logout_browser_only") then Some LogoutBrowserOnly
  else if decide (s = "logout_all") then Some LogoutAll
  else None.
End OnBackchannelLogout.

(** What is imported from the claims of a provider. *)
Module ImportAction.
Inductive t : Type := Ignore | Suggest | Force | Require_.
Definition is_forced_or_required (a : t) : bool :=
  match a with Force | Require_ => true | _ => false end.
Definition ignore (a : t) : bool := match a with Ignore => true | _ => false end.
Definition is_required (a : t) : bool := match a with Require_ => true | _ => false end.
Definition should_import (a : t) (user_preference : bool) : bool :=
  match a with Ignore => false | Suggest => user_preference | Force | Require_ => true end.
End ImportAction.

Module OnConflict.
Inductive t : Type := Fail_ | Add | Replace | Set_.
End OnConflict.

Module LocalpartPreference.
Record t := mk {
  action : ImportAction.t;
  template : option string;
  on_conflict : OnConflict.t;
}.
End LocalpartPreference.

Module ImportPreference.
Record t := mk { action : ImportAction.t; template : option string }.
End ImportPreference.

Module ClaimsImports.
Record t := mk {
  subject : option string;
  skip_confirmation : bool;
  localpart : LocalpartPreference.t;
  displayname : ImportPreference.t;
  email : ImportPreference.t;
  account_name : option string;
}.
End ClaimsImports.

Module UpstreamOAuthProvider.
Record t := mk {
  id : Ulid;
  issuer : option string;
  human_name : option string;
  brand_name : option string;
  discovery_mode : DiscoveryMode.t;
  pkce_mode : PkceMode.t;
  jwks_uri_override : option Url;
  authorization_endpoint_override : option Url;
  scope : Scope;
  token_endpoint_override : option Url;
  userinfo_endpoint_override : option Url;
  fetch_userinfo : bool;
  userinfo_signed_response_alg : option string;
  client_id : string;
  encrypted_client_secret : option string;
  token_endpoint_signing_alg : option string;
  token_endpoint_auth_method : TokenAuthMethod.t;
  id_token_signed_response_alg : string;
  response_mode : option UpstreamResponseMode.t;
  created_at : DateTime;
  disabled_at : option DateTime;
  claims_imports : ClaimsImports.t;
  additional_authorization_parameters : list (string * string);
  forward_login_hint : bool;
  pg_app_scheme : option string;
  on_backchannel_logout : OnBackchannelLogout.t;
  registration_token_required : bool;
}.

Definition enabled (p : t) : bool := bool_decide (disabled_at p = None).
End UpstreamOAuthProvider.

(** ** Links (link.rs) *)
Module UpstreamOAuthLink.
Record t := mk {
  id : Ulid;
  provider_id : Ulid;
  user_id : option Ulid;
  subject : string;
  human_account_name : option string;
  created_at : DateTime;
}.
End UpstreamOAuthLink.

(** ** Authorization sessions (session.rs) *)
Module UpstreamOAuthAuthorizationSessionState.
Inductive t : Type :=
| Pending
| Completed (completed_at : DateTime) (link_id : Ulid) (id_token : option string)
    (id_token_claims extra_callback_parameters userinfo : option Json)
| Consumed (completed_at consumed_at : DateTime) (link_id : Ulid) (id_token : option string)
    (id_token_claims extra_callback_parameters userinfo : option Json)
| Unlinked (completed_at : DateTime) (consumed_at : option DateTime) (unlinked_at : DateTime)
    (id_token : option string) (id_token_claims : option Json).

Definition complete (s : t) (completed_at : DateTime) (link : UpstreamOAuthLink.t)
    (id_token : option string) (id_token_claims extra_callback_parameters userinfo : option Json) :
    result InvalidTransitionError t :=
  match s with
  | Pending =>
      Ok (Completed completed_at (UpstreamOAuthLink.id link) id_token id_token_claims
            extra_callback_parameters userinfo)
  | Completed _ _ _ _ _ _ | Consumed _ _ _ _ _ _ _ | Unlinked _ _ _ _ _ => Err InvalidTransition
  end.

Definition consume (s : t) (consumed_at : DateTime) : result InvalidTransitionError t :=
  match s with
  | Completed completed_at link_id id_token id_token_claims extra userinfo =>
      Ok (Consumed completed_at consumed_at link_id id_token id_token_claims extra userinfo)
  | Pending | Consumed _ _ _ _ _ _ _ | Unlinked _ _ _ _ _ => Err InvalidTransition
  end.

Definition link_id (s : t) : option Ulid :=
  match s with
  | Pending | Unlinked _ _ _ _ _ => None
  | Completed _ link_id _ _ _ _ | Consumed _ _ link_id _ _ _ _ => Some link_id
  end.

Definition completed_at (s : t) : option DateTime :=
  match s with
  | Pending => None
  | Completed completed_at _ _ _ _ _ | Consumed completed_at _ _ _ _ _ _
  | Unlinked completed_at _ _ _ _ => Some completed_at
  end.

Definition id_token (s : t) : option string :=
  match s with
  | Pending => None
  | Completed _ _ id_token _ _ _ | Consumed _ _ _ id_token _ _ _
  | Unlinked _ _ _ id_token _ => id_token
  end.

Definition id_token_claims (s : t) : option Json :=
  match s with
  | Pending => None
  | Completed _ _ _ id_token_claims _ _ | Consumed _ _ _ _ id_token_claims _ _
  | Unlinked _ _ _ _ id_token_claims => id_token_claims
  end.

Definition extra_callback_parameters (s : t) : option Json :=
  match s with
  | Pending | Unlinked _ _ _ _ _ => None
  | Completed _ _ _ _ extra _ | Consumed _ _ _ _ _ extra _ => extra
  end.

Definition userinfo (s : t) : option Json :=
  match s with
  | Pending | Unlinked _ _ _ _ _ => None
  | Completed _ _ _ _ _ userinfo | Consumed _ _ _ _ _ _ userinfo => userinfo
  end.

Definition consumed_at (s : t) : option DateTime :=
  match s with
  | Pending | Completed _ _ _ _ _ _ => None
  | Consumed _ consumed_at _ _ _ _ _ => Some consumed_at
  | Unlinked _ consumed_at _ _ _ => consumed_at
  end.

Definition unlinked_at (s : t) : option DateTime :=
  match s with
  | Unlinked _ _ unlinked_at _ _ => Some unlinked_at
  | _ => None
  end.

Definition is_pending (s : t) : bool := match s with Pending => true | _ => false end.
Definition is_completed (s : t) : bool :=
  match s with Completed _ _ _ _ _ _ => true | _ => false end.
Definition is_consumed (s : t) : bool :=
  match s with Consumed _ _ _ _ _ _ _ => true | _ => false end.
Definition is_unlinked (s : t) : bool :=
  match s with Unlinked _ _ _ _ _ => true | _ => false end.
End UpstreamOAuthAuthorizationSessionState.

Module UpstreamOAuthAuthorizationSession.
Record t := mk {
  id : Ulid;
  state : UpstreamOAuthAuthorizationSessionState.t;
  provider_id : Ulid;
  state_str : string;
  code_challenge_verifier : option string;
  nonce : option string;
  created_at : DateTime;
}.

Definition with_state (s : t) (st : UpstreamOAuthAuthorizationSessionState.t) : t :=
  mk (id s) st (provider_id s) (state_str s) (code_challenge_verifier s) (nonce s) (created_at s).

(** Through [Deref]. *)
Definition link_id (s : t) : option Ulid := UpstreamOAuthAuthorizationSessionState.link_id (state s).
Definition is_consumed (s : t) : bool :=
  UpstreamOAuthAuthorizationSessionState.is_consumed (state s).

Definition complete (s : t) (completed_at : DateTime) (link : UpstreamOAuthLink.t)
    (id_token : option string) (id_token_claims extra_callback_parameters userinfo : option Json) :
    result InvalidTransitionError t :=
  try st <- UpstreamOAuthAuthorizationSessionState.complete (state s) completed_at link id_token
              id_token_claims extra_callback_parameters userinfo;
  Ok (with_state s st).

Definition consume (s : t) (consumed_at : DateTime) : result InvalidTransitionError t :=
  try st <- UpstreamOAuthAuthorizationSessionState.consume (state s) consumed_at;
  Ok (with_state s st).
End UpstreamOAuthAuthorizationSession.
