(* ===== verification/AccountModel.v ===== *)
(** * Accounts in the data model

    The structs of crates/data-model/src/users.rs for the registration of users,
    the verification of email addresses and the recovery of accounts, and the
    action a browser resumes afterwards ([PostAuthAction] and [AccountAction] of
    crates/router/src/endpoints.rs, with its JSON). *)

From stdpp Require Import base tactics list strings gmap.
From Stdlib Require Import ZArith Lia.
From S2P Require Import Prelude Text Externals Formats DataModel.
#[local] Open Scope Z_scope.

(** ** Recovery of an account *)
Module UserRecoverySession.
Record t := mk {
  id : Ulid;
  email : string;
  user_agent : string;
  ip_address : option IpAddr;
  locale : string;
  created_at : DateTime;
  consumed_at : option DateTime;
}.
Definition with_consumed_at (s : t) (v : option DateTime) : t :=
  mk (id s) (email s) (user_agent s) (ip_address s) (locale s) (created_at s) v.
End UserRecoverySession.

Module UserRecoveryTicket.
Record t := mk {
  id : Ulid;
  user_recovery_session_id : Ulid;
  user_email_id : Ulid;
  ticket : string;
  created_at : DateTime;
  expires_at : DateTime;
}.
Definition active (x : t) (now : DateTime) : bool := now <? expires_at x.
End UserRecoveryTicket.

(** ** Verification of an email address *)
Module UserEmailAuthentication.
Record t := mk {
  id : Ulid;
  user_session_id : option Ulid;
  user_registration_id : option Ulid;
  email : string;
  created_at : DateTime;
  completed_at : option DateTime;
}.
Definition with_completed_at (a : t) (v : option DateTime) : t :=
  mk (id a) (user_session_id a) (user_registration_id a) (email a) (created_at a) v.
End UserEmailAuthentication.

Module UserEmailAuthenticationCode.
Record t := mk {
  id : Ulid;
  user_email_authentication_id : Ulid;
  code : string;
  created_at : DateTime;
  expires_at : DateTime;
}.
End UserEmailAuthenticationCode.

(** ** Registration *)
Module UserRegistrationPassword.
Record t := mk { hashed_password : string; version : Z }.
End UserRegistrationPassword.

Module UserRegistrationToken.
Record t := mk {
  id : Ulid;
  token : string;
  usage_limit : option Z;
  times_used : Z;
  created_at : DateTime;
  last_used_at : option DateTime;
  expires_at : option DateTime;
  revoked_at : option DateTime;
}.

Definition is_valid (x : t) (now : DateTime) : bool :=
  if bool_decide (is_Some (revoked_at x)) then false
  else if match expires_at x with Some expires_at => expires_at <=? now | None => false end
  then false
  else if match usage_limit x with
          | Some usage_limit => usage_limit <=? times_used x
          | None => false
          end
  then false
  else true.

Definition can_be_used (x : t) (now : DateTime) : bool := is_valid x now.

Definition with_use (x : t) (times_used : Z) (last_used_at : option DateTime) : t :=
  mk (id x) (token x) (usage_limit x) times_used (created_at x) last_used_at (expires_at x)
    (revoked_at x).
Definition with_revoked_at (x : t) (v : option DateTime) : t :=
  mk (id x) (token x) (usage_limit x) (times_used x) (created_at x) (last_used_at x)
    (expires_at x) v.
Definition with_expires_at (x : t) (v : option DateTime) : t :=
  mk (id x) (token x) (usage_limit x) (times_used x) (created_at x) (last_used_at x) v
    (revoked_at x).
Definition with_usage_limit (x : t) (v : option Z) : t :=
  mk (id x) (token x) v (times_used x) (created_at x) (last_used_at x) (expires_at x)
    (revoked_at x).
End UserRegistrationToken.

Module UserRegistration.
Record t := mk {
  id : Ulid;
  username : string;
  display_name : option string;
  terms_url : option Url;
  email_authentication_id : option Ulid;
  user_registration_token_id : option Ulid;
  password : option UserRegistrationPassword.t;
  upstream_oauth_authorization_session_id : option Ulid;
  post_auth_action : option Json;
  ip_address : option IpAddr;
  user_agent : option string;
  created_at : DateTime;
  completed_at : option DateTime;
}.

(** The assignments of the fields one at a time. *)
Definition with_display_name (r : t) (v : option string) : t :=
  mk (id r) (username r) v (terms_url r) (email_authentication_id r)
    (user_registration_token_id r) (password r) (upstream_oauth_authorization_session_id r)
    (post_auth_action r) (ip_address r) (user_agent r) (created_at r) (completed_at r).
Definition with_terms_url (r : t) (v : option Url) : t :=
  mk (id r) (username r) (display_name r) v (email_authentication_id r)
    (user_registration_token_id r) (password r) (upstream_oauth_authorization_session_id r)
    (post_auth_action r) (ip_address r) (user_agent r) (created_at r) (completed_at r).
Definition with_email_authentication_id (r : t) (v : option Ulid) : t :=
  mk (id r) (username r) (display_name r) (terms_url r) v
    (user_registration_token_id r) (password r) (upstream_oauth_authorization_session_id r)
    (post_auth_action r) (ip_address r) (user_agent r) (created_at r) (completed_at r).
Definition with_user_registration_token_id (r : t) (v : option Ulid) : t :=
  mk (id r) (username r) (display_name r) (terms_url r) (email_authentication_id r)
    v (password r) (upstream_oauth_authorization_session_id r)
    (post_auth_action r) (ip_address r) (user_agent r) (created_at r) (completed_at r).
Definition with_password (r : t) (v : option UserRegistrationPassword.t) : t :=
  mk (id r) (username r) (display_name r) (terms_url r) (email_authentication_id r)
    (user_registration_token_id r) v (upstream_oauth_authorization_session_id r)
    (post_auth_action r) (ip_address r) (user_agent r) (created_at r) (completed_at r).
Definition with_upstream_session_id (r : t) (v : option Ulid) : t :=
  mk (id r) (username r) (display_name r) (terms_url r) (email_authentication_id r)
    (user_registration_token_id r) (password r) v
    (post_auth_action r) (ip_address r) (user_agent r) (created_at r) (completed_at r).
Definition with_completed_at (r : t) (v : option DateTime) : t :=
  mk (id r) (username r) (display_name r) (terms_url r) (email_authentication_id r)
    (user_registration_token_id r) (password r) (upstream_oauth_authorization_session_id r)
    (post_auth_action r) (ip_address r) (user_agent r) (created_at r) v.
End UserRegistration.

(** ** What the browser resumes (router/src/endpoints.rs) *)

Inductive AccountAction : Type :=
| OrgMatrixProfile
| Profile
| OrgMatrixDevicesList
| OrgMatrixSessionsList
| SessionsList
| OrgMatrixDeviceView (device_id : string)
| OrgMatrixSessionView (device_id : string)
| SessionView (device_id : string)
| OrgMatrixDeviceDelete (device_id : string)
| OrgMatrixSessionEnd (device_id : string)
| SessionEnd (device_id : string)
| OrgMatrixCrossSigningReset.

Inductive PostAuthAction : Type :=
| ContinueAuthorizationGrant (id : Ulid)
| ContinueDeviceCodeGrant (id : Ulid)
| ContinueCompatSsoLogin (id : Ulid)
| ChangePassword
| LinkUpstream (id : Ulid)
| ManageAccount (action : option AccountAction).

(** The name and the device of an action. *)
Definition account_action_parts (a : AccountAction) : string * option string :=
  match a with
  | OrgMatrixProfile => ("org.matrix.profile", None)
  | Profile => ("profile", None)
  | OrgMatrixDevicesList => ("org.matrix.devices_list", None)
  | OrgMatrixSessionsList => ("org.matrix.sessions_list", None)
  | SessionsList => ("sessions_list", None)
  | OrgMatrixDeviceView d => ("org.matrix.device_view", Some d)
  | OrgMatrixSessionView d => ("org.matrix.session_view", Some d)
  | SessionView d => ("session_view", Some d)
  | OrgMatrixDeviceDelete d => ("org.matrix.device_delete", Some d)
  | OrgMatrixSessionEnd d => ("org.matrix.session_end", Some d)
  | SessionEnd d => ("session_end", Some d)
  | OrgMatrixCrossSigningReset => ("org.matrix.cross_signing_reset", None)
  end%string.

(** The members [serde] writes for it. *)
Definition account_action_members (a : AccountAction) : list (string * Json) :=
  let '(name, device) := account_action_parts a in
  ("action", JString name)
  :: match device with Some d => [("device_id", JString d)] | None => [] end%string.

(** A member of an object. *)
Definition member (name : string) (l : list (string * Json)) : option Json :=
  snd <$> head (filter (λ kv, kv.1 = name) l).

Definition member_string (name : string) (l : list (string * Json)) : option string :=
  match member name l with Some (JString s) => Some s | _ => None end.

Definition account_action_of (l : list (string * Json)) : option AccountAction :=
  name ← member_string "action" l;
  let device := member_string "device_id" l in
  if decide (name = "org.matrix.profile")%string then Some OrgMatrixProfile
  else if decide (name = "profile")%string then Some Profile
  else if decide (name = "org.matrix.devices_list")%string then Some OrgMatrixDevicesList
  else if decide (name = "org.matrix.sessions_list")%string then Some OrgMatrixSessionsList
  else if decide (name = "sessions_list")%string then Some SessionsList
  else if decide (name = "org.matrix.device_view")%string then OrgMatrixDeviceView <$> device
  else if decide (name = "org.matrix.session_view")%string then OrgMatrixSessionView <$> device
  else if decide (name = "session_view")%string then SessionView <$> device
  else if decide (name = "org.matrix.device_delete")%string then OrgMatrixDeviceDelete <$> device
  else if decide (name = "org.matrix.session_end")%string then OrgMatrixSessionEnd <$> device
  else if decide (name = "session_end")%string then SessionEnd <$> device
  else if decide (name = "org.matrix.cross_signing_reset")%string
  then Some OrgMatrixCrossSigningReset
  else None.

Section PostAuthAction.
Context `{!UlidText}.

(** [serde_json::to_value]: an object tagged by its [kind]. *)
Definition post_auth_action_to_value (a : PostAuthAction) : Json :=
  let id_member id := ("id", JString (ulid_to_string id))%string in
  let kind name := ("kind", JString name)%string in
  match a with
  | ContinueAuthorizationGrant id => JObject [kind "continue_authorization_grant"; id_member id]
  | ContinueDeviceCodeGrant id => JObject [kind "continue_device_code_grant"; id_member id]
  | ContinueCompatSsoLogin id => JObject [kind "continue_compat_sso_login"; id_member id]
  | ChangePassword => JObject [kind "change_password"]
  | LinkUpstream id => JObject [kind "link_upstream"; id_member id]
  | ManageAccount action =>
      JObject (kind "manage_account"
               :: match action with Some a => account_action_members a | None => [] end)
  end%string.

(** [serde_json::from_value] on an object; a member it does not know is passed
    over, and an account action that cannot be read is none. *)
Definition post_auth_action_from_value (j : Json) : option PostAuthAction :=
  match j with
  | JObject l =>
      kind ← member_string "kind" l;
      let id := member_string "id" l ≫= ulid_from_string in
      if decide (kind = "continue_authorization_grant")%string
      then ContinueAuthorizationGrant <$> id
      else if decide (kind = "continue_device_code_grant")%string
      then ContinueDeviceCodeGrant <$> id
      else if decide (kind = "continue_compat_sso_login")%string
      then ContinueCompatSsoLogin <$> id
      else if decide (kind = "change_password")%string then Some ChangePassword
      else if decide (kind = "link_upstream")%string then LinkUpstream <$> id
      else if decide (kind = "manage_account")%string
      then Some (ManageAccount (account_action_of l))
      else None
  | _ => None
  end.
End PostAuthAction.

(** Where the browser is sent: the routes the handlers redirect to. *)
Inductive Route : Type :=
| Index
| ConsentRoute (grant : Ulid)
| DeviceCodeConsent (grant : Ulid)
| CompatLoginSsoComplete (login : Ulid)
| AccountPasswordChange
| UpstreamOAuth2Link (link : Ulid)
| UpstreamOAuth2Authorize (provider : Ulid) (action : option PostAuthAction)
| Account (action : option AccountAction)
| LoginRoute (action : option PostAuthAction)
| PasswordRegister (username : option string) (action : option PostAuthAction)
| RegisterToken (registration : Ulid)
| RegisterDisplayName (registration : Ulid)
| RegisterVerifyEmail (registration : Ulid)
| RegisterFinish (registration : Ulid)
| AccountRecoveryStart
| AccountRecoveryProgress (session : Ulid).

Definition go_next (a : PostAuthAction) : Route :=
  match a with
  | ContinueAuthorizationGrant id => ConsentRoute id
  | ContinueDeviceCodeGrant id => DeviceCodeConsent id
  | ContinueCompatSsoLogin id => CompatLoginSsoComplete id
  | ChangePassword => AccountPasswordChange
  | LinkUpstream id => UpstreamOAuth2Link id
  | ManageAccount action => Account action
  end.

(** [OptionalPostAuthAction::go_next] of handlers/src/views/shared.rs. *)
Definition go_next_or_default (a : option PostAuthAction) (default : Route) : Route :=
  match a with Some a => go_next a | None => default end.
Definition optional_go_next (a : option PostAuthAction) : Route := go_next_or_default a Index.

(** ** Facts *)

(** An action is resumed as it was stored. *)
Lemma account_action_of_members a l :
  member "action" l = None → member "device_id" l = None →
  account_action_of (l ++ account_action_members a) = Some a.
Proof.
  unfold member. intros H1 H2. apply fmap_None in H1, H2.
  unfold account_action_of, member_string, member. rewrite !filter_app.
  destruct (filter (λ kv, kv.1 = "action"%string) l), (filter (λ kv, kv.1 = "device_id"%string) l);
    [|done..].
  by destruct a.
Qed.
