(* ===== verification/Storage.v ===== *)
(** * The database and the request's world

    The tables of crates/storage-pg/migrations the modelled repositories
    read and write, the statements they send, the errors of
    crates/storage-pg/src/errors.rs and the transaction of
    crates/storage-pg/src/repository.rs. *)

From stdpp Require Import base tactics list strings gmap.
From Stdlib Require Import ZArith Lia Ascii.
From S2P Require Import Prelude Text Scope Externals Formats TokenFormat DataModel UpstreamModel.

(** ** Errors (errors.rs) *)

Record DatabaseInconsistencyError := on {
  table : string;
  column : option string;
  row : option Ulid;
}.

Inductive DatabaseError : Type :=
| Driver
| Inconsistency (e : DatabaseInconsistencyError)
| InvalidOperation
| RowsAffected (expected actual : nat).

Definition to_invalid_operation (e : InvalidTransitionError) : DatabaseError :=
  InvalidOperation.

Definition ensure_affected_rows (actual expected : nat) : result DatabaseError unit :=
  if decide (actual = expected) then Ok tt else Err (RowsAffected expected actual).

(** ** Rows

    The [Lookup] structs of the repositories; where a query joins two tables
    ([SessionLookup]) the rows of the tables themselves. *)

Module OAuth2AccessTokenLookup.
Record t := mk {
  oauth2_access_token_id : Ulid;
  oauth2_session_id : Ulid;
  access_token : string;
  created_at : DateTime;
  expires_at : option DateTime;
  revoked_at : option DateTime;
  first_used_at : option DateTime;
}.
End OAuth2AccessTokenLookup.

Module OAuth2RefreshTokenLookup.
Record t := mk {
  oauth2_refresh_token_id : Ulid;
  refresh_token : string;
  created_at : DateTime;
  consumed_at : option DateTime;
  revoked_at : option DateTime;
  oauth2_access_token_id : option Ulid;
  oauth2_session_id : Ulid;
  next_oauth2_refresh_token_id : option Ulid;
}.
End OAuth2RefreshTokenLookup.

Module OAuthSessionLookup.
Record t := mk {
  oauth2_session_id : Ulid;
  user_id : option Ulid;
  user_session_id : option Ulid;
  oauth2_client_id : Ulid;
  scope_list : list string;
  created_at : DateTime;
  finished_at : option DateTime;
  user_agent : option string;
  last_active_at : option DateTime;
  last_active_ip : option IpAddr;
  human_name : option string;
}.
End OAuthSessionLookup.

Module GrantLookup.
Record t := mk {
  oauth2_authorization_grant_id : Ulid;
  created_at : DateTime;
  cancelled_at : option DateTime;
  fulfilled_at : option DateTime;
  exchanged_at : option DateTime;
  scope : string;
  state : option string;
  nonce : option string;
  redirect_uri : string;
  response_mode : string;
  response_type_code : bool;
  response_type_id_token : bool;
  authorization_code : option string;
  code_challenge : option string;
  code_challenge_method : option string;
  login_hint : option string;
  locale : option string;
  raw_parameters : option (gmap string string);
  oauth2_client_id : Ulid;
  user_session_id : option Ulid;
  oauth2_session_id : option Ulid;
}.
End GrantLookup.

Module OAuth2DeviceGrantLookup.
Record t := mk {
  oauth2_device_code_grant_id : Ulid;
  oauth2_client_id : Ulid;
  scope : string;
  device_code : string;
  user_code : string;
  created_at : DateTime;
  expires_at : DateTime;
  fulfilled_at : option DateTime;
  rejected_at : option DateTime;
  exchanged_at : option DateTime;
  user_session_id : option Ulid;
  oauth2_session_id : option Ulid;
  ip_address : option IpAddr;
  user_agent : option string;
  locale : option string;
}.
End OAuth2DeviceGrantLookup.

Module UserLookup.
Record t := mk {
  user_id : Ulid;
  username : string;
  created_at : DateTime;
  locked_at : option DateTime;
  deactivated_at : option DateTime;
  can_request_admin : bool;
  is_guest : bool;
}.
End UserLookup.

Module UserSessionRow.
Record t := mk {
  user_session_id : Ulid;
  user_id : Ulid;
  created_at : DateTime;
  finished_at : option DateTime;
  user_agent : option string;
  last_active_at : option DateTime;
  last_active_ip : option IpAddr;
}.
End UserSessionRow.

Module AuthenticationRow.
Record t := mk {
  user_session_authentication_id : Ulid;
  user_session_id : Ulid;
  created_at : DateTime;
  user_password_id : option Ulid;
  upstream_oauth_authorization_session_id : option Ulid;
}.
End AuthenticationRow.

Module OAuth2ClientLookup.
Record t := mk {
  oauth2_client_id : Ulid;
  metadata_digest : option string;
  encrypted_client_secret : option string;
  application_type : option string;
  redirect_uris : list string;
  grant_type_authorization_code : bool;
  grant_type_refresh_token : bool;
  grant_type_client_credentials : bool;
  grant_type_device_code : bool;
  client_name : option string;
  logo_uri : option string;
  client_uri : option string;
  policy_uri : option string;
  tos_uri : option string;
  jwks_uri : option string;
  jwks : option string;
  id_token_signed_response_alg : option string;
  userinfo_signed_response_alg : option string;
  token_endpoint_auth_method : option string;
  token_endpoint_auth_signing_alg : option string;
  initiate_login_uri : option string;
  is_static : bool;
}.
End OAuth2ClientLookup.

(** The queue: a job, a worker, its leader and a recurring
    schedule.  The trace context of a job (its metadata) is left out. *)
(** [queue_job_status]. *)
Inductive JobStatus : Type :=
| Available | Scheduled | Running | Completed | Failed | Lost.
#[export] Instance JobStatus_eq_dec : EqDecision JobStatus.
Proof. solve_decision. Defined.

Module QueueJobRow.
Record t := mk {
  queue_job_id : Ulid;
  status : JobStatus;
  created_at : DateTime;
  started_at : option DateTime;
  started_by : option Ulid;
  completed_at : option DateTime;
  queue_name : string;
  payload : Json;
  failed_at : option DateTime;
  failed_reason : option string;
  attempt : Z;
  next_attempt_id : option Ulid;
  scheduled_at : option DateTime;
  schedule_name : option string;
}.
End QueueJobRow.

Module QueueWorkerRow.
Record t := mk {
  queue_worker_id : Ulid;
  registered_at : DateTime;
  last_seen_at : DateTime;
  shutdown_at : option DateTime;
}.
End QueueWorkerRow.

Module QueueLeaderRow.
Record t := mk {
  elected_at : DateTime;
  expires_at : DateTime;
  queue_worker_id : Ulid;
}.
End QueueLeaderRow.

Module QueueScheduleRow.
Record t := mk {
  schedule_name : string;
  last_scheduled_at : option DateTime;
  last_scheduled_job_id : option Ulid;
}.
End QueueScheduleRow.

(** Sessions of the compatibility API, their tokens and SSO logins. *)
Module CompatSessionLookup.
Record t := mk {
  compat_session_id : Ulid;
  device_id : option string;
  human_name : option string;
  user_id : Ulid;
  user_session_id : option Ulid;
  created_at : DateTime;
  finished_at : option DateTime;
  is_synapse_admin : bool;
  user_agent : option string;
  last_active_at : option DateTime;
  last_active_ip : option IpAddr;
}.
End CompatSessionLookup.

Module CompatAccessTokenLookup.
Record t := mk {
  compat_access_token_id : Ulid;
  access_token : string;
  created_at : DateTime;
  expires_at : option DateTime;
  compat_session_id : Ulid;
}.
End CompatAccessTokenLookup.

Module CompatRefreshTokenLookup.
Record t := mk {
  compat_refresh_token_id : Ulid;
  refresh_token : string;
  created_at : DateTime;
  consumed_at : option DateTime;
  compat_access_token_id : Ulid;
  compat_session_id : Ulid;
}.
End CompatRefreshTokenLookup.

Module CompatSsoLoginLookup.
Record t := mk {
  compat_sso_login_id : Ulid;
  login_token : string;
  redirect_uri : string;
  created_at : DateTime;
  fulfilled_at : option DateTime;
  exchanged_at : option DateTime;
  compat_session_id : option Ulid;
  user_session_id : option Ulid;
}.
End CompatSsoLoginLookup.

(** Personal sessions and the hashes of their tokens. *)
Module PersonalSessionLookup.
Record t := mk {
  personal_session_id : Ulid;
  owner_user_id : option Ulid;
  owner_oauth2_client_id : option Ulid;
  actor_user_id : Ulid;
  human_name : string;
  scope_list : list string;
  created_at : DateTime;
  revoked_at : option DateTime;
  last_active_at : option DateTime;
  last_active_ip : option IpAddr;
}.
End PersonalSessionLookup.

Module PersonalAccessTokenLookup.
Record t := mk {
  personal_access_token_id : Ulid;
  personal_session_id : Ulid;
  access_token_sha256 : string;
  created_at : DateTime;
  expires_at : option DateTime;
  revoked_at : option DateTime;
}.
End PersonalAccessTokenLookup.

(** The hashed passwords of users. *)
Module UserPasswordLookup.
Record t := mk {
  user_password_id : Ulid;
  user_id : Ulid;
  hashed_password : string;
  version : Z;
  upgraded_from_id : option Ulid;
  created_at : DateTime;
}.
End UserPasswordLookup.

(** The email addresses of users. *)
Module UserEmailLookup.
Record t := mk {
  user_email_id : Ulid;
  user_id : Ulid;
  email : string;
  created_at : DateTime;
}.
End UserEmailLookup.

(** The accounts: the registrations that are under way, the tokens they need, the
    terms that are accepted, the verification of email addresses, the recovery of
    accounts and the identities at upstream providers. *)
Module UserRegistrationLookup.
Record t := mk {
  user_registration_id : Ulid;
  ip_address : option IpAddr;
  user_agent : option string;
  post_auth_action : option Json;
  username : string;
  display_name : option string;
  terms_url : option string;
  email_authentication_id : option Ulid;
  user_registration_token_id : option Ulid;
  hashed_password : option string;
  hashed_password_version : option Z;
  upstream_oauth_authorization_session_id : option Ulid;
  created_at : DateTime;
  completed_at : option DateTime;
}.
End UserRegistrationLookup.

Module UserRegistrationTokenLookup.
Record t := mk {
  user_registration_token_id : Ulid;
  token : string;
  usage_limit : option Z;
  times_used : Z;
  created_at : DateTime;
  last_used_at : option DateTime;
  expires_at : option DateTime;
  revoked_at : option DateTime;
}.
End UserRegistrationTokenLookup.

Module UserTermsRow.
Record t := mk {
  user_terms_id : Ulid;
  user_id : Ulid;
  terms_url : string;
  created_at : DateTime;
}.
End UserTermsRow.

Module UserEmailAuthenticationLookup.
Record t := mk {
  user_email_authentication_id : Ulid;
  user_session_id : option Ulid;
  user_registration_id : option Ulid;
  email : string;
  created_at : DateTime;
  completed_at : option DateTime;
}.
End UserEmailAuthenticationLookup.

Module UserEmailAuthenticationCodeLookup.
Record t := mk {
  user_email_authentication_code_id : Ulid;
  user_email_authentication_id : Ulid;
  code : string;
  created_at : DateTime;
  expires_at : DateTime;
}.
End UserEmailAuthenticationCodeLookup.

Module UserRecoverySessionRow.
Record t := mk {
  user_recovery_session_id : Ulid;
  email : string;
  user_agent : string;
  ip_address : option IpAddr;
  locale : string;
  created_at : DateTime;
  consumed_at : option DateTime;
}.
End UserRecoverySessionRow.

Module UserRecoveryTicketRow.
Record t := mk {
  user_recovery_ticket_id : Ulid;
  user_recovery_session_id : Ulid;
  user_email_id : Ulid;
  ticket : string;
  created_at : DateTime;
  expires_at : DateTime;
}.
End UserRecoveryTicketRow.

(** [claims_imports] and [additional_parameters] are JSON; sqlx decodes them. *)
Module ProviderLookup.
Record t := mk {
  upstream_oauth_provider_id : Ulid;
  issuer : option string;
  human_name : option string;
  brand_name : option string;
  scope : string;
  client_id : string;
  encrypted_client_secret : option string;
  token_endpoint_signing_alg : option string;
  token_endpoint_auth_method : string;
  id_token_signed_response_alg : string;
  fetch_userinfo : bool;
  userinfo_signed_response_alg : option string;
  created_at : DateTime;
  disabled_at : option DateTime;
  claims_imports : ClaimsImports.t;
  jwks_uri_override : option string;
  authorization_endpoint_override : option string;
  token_endpoint_override : option string;
  userinfo_endpoint_override : option string;
  discovery_mode : string;
  pkce_mode : string;
  response_mode : option string;
  additional_parameters : option (list (string * string));
  forward_login_hint : bool;
  pg_app_scheme : option string;
  on_backchannel_logout : string;
  registration_token_required : bool;
  ui_order : Z;
}.
End ProviderLookup.

Module LinkLookup.
Record t := mk {
  upstream_oauth_link_id : Ulid;
  upstream_oauth_provider_id : Ulid;
  user_id : option Ulid;
  subject : string;
  human_account_name : option string;
  created_at : DateTime;
}.
End LinkLookup.

Module UpstreamSessionLookup.
Record t := mk {
  upstream_oauth_authorization_session_id : Ulid;
  upstream_oauth_provider_id : Ulid;
  upstream_oauth_link_id : option Ulid;
  state : string;
  code_challenge_verifier : option string;
  nonce : option string;
  id_token : option string;
  id_token_claims : option Json;
  userinfo : option Json;
  created_at : DateTime;
  completed_at : option DateTime;
  consumed_at : option DateTime;
  extra_callback_parameters : option Json;
  unlinked_at : option DateTime;
  user_session_id : option Ulid;
}.
End UpstreamSessionLookup.

(** ** Tables *)

(** The tables of the accounts, as one field of the database. *)
Record Accounts := mkAccounts {
  user_registrations : gmap Z UserRegistrationLookup.t;
  user_registration_tokens : gmap Z UserRegistrationTokenLookup.t;
  user_terms : gmap Z UserTermsRow.t;
  user_email_authentications : gmap Z UserEmailAuthenticationLookup.t;
  user_email_authentication_codes : gmap Z UserEmailAuthenticationCodeLookup.t;
  user_recovery_sessions : gmap Z UserRecoverySessionRow.t;
  user_recovery_tickets : gmap Z UserRecoveryTicketRow.t;
  upstream_oauth_providers : gmap Z ProviderLookup.t;
  upstream_oauth_links : gmap Z LinkLookup.t;
  upstream_oauth_authorization_sessions : gmap Z UpstreamSessionLookup.t;
}.

Definition no_accounts : Accounts := mkAccounts ∅ ∅ ∅ ∅ ∅ ∅ ∅ ∅ ∅ ∅.

Record Db := mkDb {
  oauth2_clients : gmap Z OAuth2ClientLookup.t;
  users : gmap Z UserLookup.t;
  user_sessions : gmap Z UserSessionRow.t;
  user_session_authentications : gmap Z AuthenticationRow.t;
  oauth2_sessions : gmap Z OAuthSessionLookup.t;
  oauth2_access_tokens : gmap Z OAuth2AccessTokenLookup.t;
  oauth2_refresh_tokens : gmap Z OAuth2RefreshTokenLookup.t;
  oauth2_authorization_grants : gmap Z GrantLookup.t;
  oauth2_device_code_grant : gmap Z OAuth2DeviceGrantLookup.t;
  queue_jobs : gmap Z QueueJobRow.t;
  queue_workers : gmap Z QueueWorkerRow.t;
  queue_schedules : gmap string QueueScheduleRow.t;
  queue_leader : option QueueLeaderRow.t;
  compat_sessions : gmap Z CompatSessionLookup.t;
  compat_access_tokens : gmap Z CompatAccessTokenLookup.t;
  compat_refresh_tokens : gmap Z CompatRefreshTokenLookup.t;
  compat_sso_logins : gmap Z CompatSsoLoginLookup.t;
  personal_sessions : gmap Z PersonalSessionLookup.t;
  personal_access_tokens : gmap Z PersonalAccessTokenLookup.t;
  user_passwords : gmap Z UserPasswordLookup.t;
  user_emails : gmap Z UserEmailLookup.t;
  user_unsupported_third_party_ids : gmap (Z * string * string) DateTime;
  accounts : Accounts;
}.

(** A table of the schema: its rows by primary key. *)
Class Table (Row : Type) := {
  rows : Db → gmap Z Row;
  set_rows : gmap Z Row → Db → Db;
}.

#[export] Instance oauth2_clients_table : Table OAuth2ClientLookup.t := {
  rows := oauth2_clients;
  set_rows m d := mkDb m (users d) (user_sessions d) (user_session_authentications d)
    (oauth2_sessions d) (oauth2_access_tokens d) (oauth2_refresh_tokens d)
    (oauth2_authorization_grants d) (oauth2_device_code_grant d) (queue_jobs d) (queue_workers d)
    (queue_schedules d) (queue_leader d) (compat_sessions d) (compat_access_tokens d)
    (compat_refresh_tokens d) (compat_sso_logins d) (personal_sessions d)
    (personal_access_tokens d)
    (user_passwords d) (user_emails d)
    (user_unsupported_third_party_ids d) (accounts d);
}.

#[export] Instance users_table : Table UserLookup.t := {
  rows := users;
  set_rows m d := mkDb (oauth2_clients d) m (user_sessions d) (user_session_authentications d)
    (oauth2_sessions d) (oauth2_access_tokens d) (oauth2_refresh_tokens d)
    (oauth2_authorization_grants d) (oauth2_device_code_grant d) (queue_jobs d) (queue_workers d)
    (queue_schedules d) (queue_leader d) (compat_sessions d) (compat_access_tokens d)
    (compat_refresh_tokens d) (compat_sso_logins d) (personal_sessions d)
    (personal_access_tokens d)
    (user_passwords d) (user_emails d)
    (user_unsupported_third_party_ids d) (accounts d);
}.

#[export] Instance user_sessions_table : Table UserSessionRow.t := {
  rows := user_sessions;
  set_rows m d := mkDb (oauth2_clients d) (users d) m (user_session_authentications d)
    (oauth2_sessions d) (oauth2_access_tokens d) (oauth2_refresh_tokens d)
    (oauth2_authorization_grants d) (oauth2_device_code_grant d) (queue_jobs d) (queue_workers d)
    (queue_schedules d) (queue_leader d) (compat_sessions d) (compat_access_tokens d)
    (compat_refresh_tokens d) (compat_sso_logins d) (personal_sessions d)
    (personal_access_tokens d)
    (user_passwords d) (user_emails d)
    (user_unsupported_third_party_ids d) (accounts d);
}.

#[export] Instance user_session_authentications_table : Table AuthenticationRow.t := {
  rows := user_session_authentications;
  set_rows m d := mkDb (oauth2_clients d) (users d) (user_sessions d) m (oauth2_sessions d)
    (oauth2_access_tokens d) (oauth2_refresh_tokens d) (oauth2_authorization_grants d)
    (oauth2_device_code_grant d) (queue_jobs d) (queue_workers d) (queue_schedules d)
    (queue_leader d) (compat_sessions d) (compat_access_tokens d) (compat_refresh_tokens d)
    (compat_sso_logins d) (personal_sessions d) (personal_access_tokens d)
    (user_passwords d) (user_emails d)
    (user_unsupported_third_party_ids d) (accounts d);
}.

#[export] Instance oauth2_sessions_table : Table OAuthSessionLookup.t := {
  rows := oauth2_sessions;
  set_rows m d := mkDb (oauth2_clients d) (users d) (user_sessions d)
    (user_session_authentications d) m (oauth2_access_tokens d) (oauth2_refresh_tokens d)
    (oauth2_authorization_grants d) (oauth2_device_code_grant d) (queue_jobs d) (queue_workers d)
    (queue_schedules d) (queue_leader d) (compat_sessions d) (compat_access_tokens d)
    (compat_refresh_tokens d) (compat_sso_logins d) (personal_sessions d)
    (personal_access_tokens d)
    (user_passwords d) (user_emails d)
    (user_unsupported_third_party_ids d) (accounts d);
}.

#[export] Instance oauth2_access_tokens_table : Table OAuth2AccessTokenLookup.t := {
  rows := oauth2_access_tokens;
  set_rows m d := mkDb (oauth2_clients d) (users d) (user_sessions d)
    (user_session_authentications d) (oauth2_sessions d) m (oauth2_refresh_tokens d)
    (oauth2_authorization_grants d) (oauth2_device_code_grant d) (queue_jobs d) (queue_workers d)
    (queue_schedules d) (queue_leader d) (compat_sessions d) (compat_access_tokens d)
    (compat_refresh_tokens d) (compat_sso_logins d) (personal_sessions d)
    (personal_access_tokens d)
    (user_passwords d) (user_emails d)
    (user_unsupported_third_party_ids d) (accounts d);
}.

#[export] Instance oauth2_refresh_tokens_table : Table OAuth2RefreshTokenLookup.t := {
  rows := oauth2_refresh_tokens;
  set_rows m d := mkDb (oauth2_clients d) (users d) (user_sessions d)
    (user_session_authentications d) (oauth2_sessions d) (oauth2_access_tokens d) m
    (oauth2_authorization_grants d) (oauth2_device_code_grant d) (queue_jobs d) (queue_workers d)
    (queue_schedules d) (queue_leader d) (compat_sessions d) (compat_access_tokens d)
    (compat_refresh_tokens d) (compat_sso_logins d) (personal_sessions d)
    (personal_access_tokens d)
    (user_passwords d) (user_emails d)
    (user_unsupported_third_party_ids d) (accounts d);
}.

#[export] Instance oauth2_authorization_grants_table : Table GrantLookup.t := {
  rows := oauth2_authorization_grants;
  set_rows m d := mkDb (oauth2_clients d) (users d) (user_sessions d)
    (user_session_authentications d) (oauth2_sessions d) (oauth2_access_tokens d)
    (oauth2_refresh_tokens d) m (oauth2_device_code_grant d) (queue_jobs d) (queue_workers d)
    (queue_schedules d) (queue_leader d) (compat_sessions d) (compat_access_tokens d)
    (compat_refresh_tokens d) (compat_sso_logins d) (personal_sessions d)
    (personal_access_tokens d)
    (user_passwords d) (user_emails d)
    (user_unsupported_third_party_ids d) (accounts d);
}.

#[export] Instance oauth2_device_code_grant_table : Table OAuth2DeviceGrantLookup.t := {
  rows := oauth2_device_code_grant;
  set_rows m d := mkDb (oauth2_clients d) (users d) (user_sessions d)
    (user_session_authentications d) (oauth2_sessions d) (oauth2_access_tokens d)
    (oauth2_refresh_tokens d) (oauth2_authorization_grants d) m (queue_jobs d) (queue_workers d)
    (queue_schedules d) (queue_leader d) (compat_sessions d) (compat_access_tokens d)
    (compat_refresh_tokens d) (compat_sso_logins d) (personal_sessions d)
    (personal_access_tokens d)
    (user_passwords d) (user_emails d)
    (user_unsupported_third_party_ids d) (accounts d);
}.

#[export] Instance queue_jobs_table : Table QueueJobRow.t := {
  rows := queue_jobs;
  set_rows m d := mkDb (oauth2_clients d) (users d) (user_sessions d)
    (user_session_authentications d) (oauth2_sessions d) (oauth2_access_tokens d)
    (oauth2_refresh_tokens d) (oauth2_authorization_grants d) (oauth2_device_code_grant d) m
    (queue_workers d) (queue_schedules d) (queue_leader d) (compat_sessions d)
    (compat_access_tokens d) (compat_refresh_tokens d) (compat_sso_logins d) (personal_sessions d)
    (personal_access_tokens d)
    (user_passwords d) (user_emails d)
    (user_unsupported_third_party_ids d) (accounts d);
}.

#[export] Instance queue_workers_table : Table QueueWorkerRow.t := {
  rows := queue_workers;
  set_rows m d := mkDb (oauth2_clients d) (users d) (user_sessions d)
    (user_session_authentications d) (oauth2_sessions d) (oauth2_access_tokens d)
    (oauth2_refresh_tokens d) (oauth2_authorization_grants d) (oauth2_device_code_grant d)
    (queue_jobs d) m (queue_schedules d) (queue_leader d) (compat_sessions d)
    (compat_access_tokens d) (compat_refresh_tokens d) (compat_sso_logins d) (personal_sessions d)
    (personal_access_tokens d)
    (user_passwords d) (user_emails d)
    (user_unsupported_third_party_ids d) (accounts d);
}.

(** [queue_schedules] has no identifier of its own. *)
Definition set_queue_schedules (m : gmap string QueueScheduleRow.t) (d : Db) : Db :=
  mkDb (oauth2_clients d) (users d) (user_sessions d) (user_session_authentications d)
    (oauth2_sessions d) (oauth2_access_tokens d) (oauth2_refresh_tokens d)
    (oauth2_authorization_grants d) (oauth2_device_code_grant d) (queue_jobs d) (queue_workers d)
    m (queue_leader d) (compat_sessions d) (compat_access_tokens d) (compat_refresh_tokens d)
    (compat_sso_logins d) (personal_sessions d) (personal_access_tokens d)
    (user_passwords d) (user_emails d)
    (user_unsupported_third_party_ids d) (accounts d).

(** [queue_leader] has no identifier of its own. *)
Definition set_queue_leader (m : option QueueLeaderRow.t) (d : Db) : Db :=
  mkDb (oauth2_clients d) (users d) (user_sessions d) (user_session_authentications d)
    (oauth2_sessions d) (oauth2_access_tokens d) (oauth2_refresh_tokens d)
    (oauth2_authorization_grants d) (oauth2_device_code_grant d) (queue_jobs d) (queue_workers d)
    (queue_schedules d) m (compat_sessions d) (compat_access_tokens d) (compat_refresh_tokens d)
    (compat_sso_logins d) (personal_sessions d) (personal_access_tokens d)
    (user_passwords d) (user_emails d)
    (user_unsupported_third_party_ids d) (accounts d).

#[export] Instance compat_sessions_table : Table CompatSessionLookup.t := {
  rows := compat_sessions;
  set_rows m d := mkDb (oauth2_clients d) (users d) (user_sessions d)
    (user_session_authentications d) (oauth2_sessions d) (oauth2_access_tokens d)
    (oauth2_refresh_tokens d) (oauth2_authorization_grants d) (oauth2_device_code_grant d)
    (queue_jobs d) (queue_workers d) (queue_schedules d) (queue_leader d) m
    (compat_access_tokens d) (compat_refresh_tokens d) (compat_sso_logins d) (personal_sessions d)
    (personal_access_tokens d)
    (user_passwords d) (user_emails d)
    (user_unsupported_third_party_ids d) (accounts d);
}.

#[export] Instance compat_access_tokens_table : Table CompatAccessTokenLookup.t := {
  rows := compat_access_tokens;
  set_rows m d := mkDb (oauth2_clients d) (users d) (user_sessions d)
    (user_session_authentications d) (oauth2_sessions d) (oauth2_access_tokens d)
    (oauth2_refresh_tokens d) (oauth2_authorization_grants d) (oauth2_device_code_grant d)
    (queue_jobs d) (queue_workers d) (queue_schedules d) (queue_leader d) (compat_sessions d) m
    (compat_refresh_tokens d) (compat_sso_logins d) (personal_sessions d)
    (personal_access_tokens d)
    (user_passwords d) (user_emails d)
    (user_unsupported_third_party_ids d) (accounts d);
}.

#[export] Instance compat_refresh_tokens_table : Table CompatRefreshTokenLookup.t := {
  rows := compat_refresh_tokens;
  set_rows m d := mkDb (oauth2_clients d) (users d) (user_sessions d)
    (user_session_authentications d) (oauth2_sessions d) (oauth2_access_tokens d)
    (oauth2_refresh_tokens d) (oauth2_authorization_grants d) (oauth2_device_code_grant d)
    (queue_jobs d) (queue_workers d) (queue_schedules d) (queue_leader d) (compat_sessions d)
    (compat_access_tokens d) m (compat_sso_logins d) (personal_sessions d)
    (personal_access_tokens d)
    (user_passwords d) (user_emails d)
    (user_unsupported_third_party_ids d) (accounts d);
}.

#[export] Instance compat_sso_logins_table : Table CompatSsoLoginLookup.t := {
  rows := compat_sso_logins;
  set_rows m d := mkDb (oauth2_clients d) (users d) (user_sessions d)
    (user_session_authentications d) (oauth2_sessions d) (oauth2_access_tokens d)
    (oauth2_refresh_tokens d) (oauth2_authorization_grants d) (oauth2_device_code_grant d)
    (queue_jobs d) (queue_workers d) (queue_schedules d) (queue_leader d) (compat_sessions d)
    (compat_access_tokens d) (compat_refresh_tokens d) m (personal_sessions d)
    (personal_access_tokens d)
    (user_passwords d) (user_emails d)
    (user_unsupported_third_party_ids d) (accounts d);
}.

#[export] Instance personal_sessions_table : Table PersonalSessionLookup.t := {
  rows := personal_sessions;
  set_rows m d := mkDb (oauth2_clients d) (users d) (user_sessions d)
    (user_session_authentications d) (oauth2_sessions d) (oauth2_access_tokens d)
    (oauth2_refresh_tokens d) (oauth2_authorization_grants d) (oauth2_device_code_grant d)
    (queue_jobs d) (queue_workers d) (queue_schedules d) (queue_leader d) (compat_sessions d)
    (compat_access_tokens d) (compat_refresh_tokens d) (compat_sso_logins d) m
    (personal_access_tokens d)
    (user_passwords d) (user_emails d)
    (user_unsupported_third_party_ids d) (accounts d);
}.

#[export] Instance personal_access_tokens_table : Table PersonalAccessTokenLookup.t := {
  rows := personal_access_tokens;
  set_rows m d := mkDb (oauth2_clients d) (users d) (user_sessions d)
    (user_session_authentications d) (oauth2_sessions d) (oauth2_access_tokens d)
    (oauth2_refresh_tokens d) (oauth2_authorization_grants d) (oauth2_device_code_grant d)
    (queue_jobs d) (queue_workers d) (queue_schedules d) (queue_leader d) (compat_sessions d)
    (compat_access_tokens d) (compat_refresh_tokens d) (compat_sso_logins d) (personal_sessions d)
    m (user_passwords d) (user_emails d) (user_unsupported_third_party_ids d) (accounts d);
}.

#[export] Instance user_passwords_table : Table UserPasswordLookup.t := {
  rows := user_passwords;
  set_rows m d := mkDb (oauth2_clients d) (users d) (user_sessions d)
    (user_session_authentications d) (oauth2_sessions d) (oauth2_access_tokens d)
    (oauth2_refresh_tokens d) (oauth2_authorization_grants d) (oauth2_device_code_grant d)
    (queue_jobs d) (queue_workers d) (queue_schedules d) (queue_leader d) (compat_sessions d)
    (compat_access_tokens d) (compat_refresh_tokens d) (compat_sso_logins d) (personal_sessions d)
    (personal_access_tokens d) m (user_emails d) (user_unsupported_third_party_ids d) (accounts d);
}.

#[export] Instance user_emails_table : Table UserEmailLookup.t := {
  rows := user_emails;
  set_rows m d := mkDb (oauth2_clients d) (users d) (user_sessions d)
    (user_session_authentications d) (oauth2_sessions d) (oauth2_access_tokens d)
    (oauth2_refresh_tokens d) (oauth2_authorization_grants d) (oauth2_device_code_grant d)
    (queue_jobs d) (queue_workers d) (queue_schedules d) (queue_leader d) (compat_sessions d)
    (compat_access_tokens d) (compat_refresh_tokens d) (compat_sso_logins d) (personal_sessions d)
    (personal_access_tokens d) (user_passwords d) m (user_unsupported_third_party_ids d) (accounts d);
}.

(** [user_unsupported_third_party_ids] is keyed by user, medium and address. *)
Definition set_third_party_ids (m : gmap (Z * string * string) DateTime) (d : Db) : Db :=
  mkDb (oauth2_clients d) (users d) (user_sessions d) (user_session_authentications d)
    (oauth2_sessions d) (oauth2_access_tokens d) (oauth2_refresh_tokens d)
    (oauth2_authorization_grants d) (oauth2_device_code_grant d) (queue_jobs d) (queue_workers d)
    (queue_schedules d) (queue_leader d) (compat_sessions d) (compat_access_tokens d)
    (compat_refresh_tokens d) (compat_sso_logins d) (personal_sessions d)
    (personal_access_tokens d) (user_passwords d) (user_emails d) m (accounts d).

(** The accounts. *)
Definition set_accounts (a : Accounts) (d : Db) : Db :=
  mkDb (oauth2_clients d) (users d) (user_sessions d) (user_session_authentications d)
    (oauth2_sessions d) (oauth2_access_tokens d) (oauth2_refresh_tokens d)
    (oauth2_authorization_grants d) (oauth2_device_code_grant d) (queue_jobs d) (queue_workers d)
    (queue_schedules d) (queue_leader d) (compat_sessions d) (compat_access_tokens d)
    (compat_refresh_tokens d) (compat_sso_logins d) (personal_sessions d)
    (personal_access_tokens d) (user_passwords d) (user_emails d)
    (user_unsupported_third_party_ids d) a.

#[export] Instance user_registrations_table : Table UserRegistrationLookup.t := {
  rows d := user_registrations (accounts d);
  set_rows m d := set_accounts (let a := accounts d in
      mkAccounts m (user_registration_tokens a) (user_terms a) (user_email_authentications a)
        (user_email_authentication_codes a) (user_recovery_sessions a)
        (user_recovery_tickets a) (upstream_oauth_providers a) (upstream_oauth_links a)
        (upstream_oauth_authorization_sessions a)) d;
}.

#[export] Instance user_registration_tokens_table : Table UserRegistrationTokenLookup.t := {
  rows d := user_registration_tokens (accounts d);
  set_rows m d := set_accounts (let a := accounts d in
      mkAccounts (user_registrations a) m (user_terms a) (user_email_authentications a)
        (user_email_authentication_codes a) (user_recovery_sessions a)
        (user_recovery_tickets a) (upstream_oauth_providers a) (upstream_oauth_links a)
        (upstream_oauth_authorization_sessions a)) d;
}.

#[export] Instance user_terms_table : Table UserTermsRow.t := {
  rows d := user_terms (accounts d);
  set_rows m d := set_accounts (let a := accounts d in
      mkAccounts (user_registrations a) (user_registration_tokens a) m
        (user_email_authentications a) (user_email_authentication_codes a)
        (user_recovery_sessions a) (user_recovery_tickets a) (upstream_oauth_providers a)
        (upstream_oauth_links a) (upstream_oauth_authorization_sessions a)) d;
}.

#[export] Instance user_email_authentications_table : Table UserEmailAuthenticationLookup.t := {
  rows d := user_email_authentications (accounts d);
  set_rows m d := set_accounts (let a := accounts d in
      mkAccounts (user_registrations a) (user_registration_tokens a) (user_terms a) m
        (user_email_authentication_codes a) (user_recovery_sessions a)
        (user_recovery_tickets a) (upstream_oauth_providers a) (upstream_oauth_links a)
        (upstream_oauth_authorization_sessions a)) d;
}.

#[export] Instance user_email_authentication_codes_table : Table UserEmailAuthenticationCodeLookup.t := {
  rows d := user_email_authentication_codes (accounts d);
  set_rows m d := set_accounts (let a := accounts d in
      mkAccounts (user_registrations a) (user_registration_tokens a) (user_terms a)
        (user_email_authentications a) m (user_recovery_sessions a) (user_recovery_tickets a)
        (upstream_oauth_providers a) (upstream_oauth_links a)
        (upstream_oauth_authorization_sessions a)) d;
}.

#[export] Instance user_recovery_sessions_table : Table UserRecoverySessionRow.t := {
  rows d := user_recovery_sessions (accounts d);
  set_rows m d := set_accounts (let a := accounts d in
      mkAccounts (user_registrations a) (user_registration_tokens a) (user_terms a)
        (user_email_authentications a) (user_email_authentication_codes a) m
        (user_recovery_tickets a) (upstream_oauth_providers a) (upstream_oauth_links a)
        (upstream_oauth_authorization_sessions a)) d;
}.

#[export] Instance user_recovery_tickets_table : Table UserRecoveryTicketRow.t := {
  rows d := user_recovery_tickets (accounts d);
  set_rows m d := set_accounts (let a := accounts d in
      mkAccounts (user_registrations a) (user_registration_tokens a) (user_terms a)
        (user_email_authentications a) (user_email_authentication_codes a)
        (user_recovery_sessions a) m (upstream_oauth_providers a) (upstream_oauth_links a)
        (upstream_oauth_authorization_sessions a)) d;
}.

#[export] Instance upstream_oauth_providers_table : Table ProviderLookup.t := {
  rows d := upstream_oauth_providers (accounts d);
  set_rows m d := set_accounts (let a := accounts d in
      mkAccounts (user_registrations a) (user_registration_tokens a) (user_terms a)
        (user_email_authentications a) (user_email_authentication_codes a)
        (user_recovery_sessions a) (user_recovery_tickets a) m (upstream_oauth_links a)
        (upstream_oauth_authorization_sessions a)) d;
}.

#[export] Instance upstream_oauth_links_table : Table LinkLookup.t := {
  rows d := upstream_oauth_links (accounts d);
  set_rows m d := set_accounts (let a := accounts d in
      mkAccounts (user_registrations a) (user_registration_tokens a) (user_terms a)
        (user_email_authentications a) (user_email_authentication_codes a)
        (user_recovery_sessions a) (user_recovery_tickets a) (upstream_oauth_providers a) m
        (upstream_oauth_authorization_sessions a)) d;
}.

#[export] Instance upstream_oauth_authorization_sessions_table : Table UpstreamSessionLookup.t := {
  rows d := upstream_oauth_authorization_sessions (accounts d);
  set_rows m d := set_accounts (let a := accounts d in
      mkAccounts (user_registrations a) (user_registration_tokens a) (user_terms a)
        (user_email_authentications a) (user_email_authentication_codes a)
        (user_recovery_sessions a) (user_recovery_tickets a) (upstream_oauth_providers a)
        (upstream_oauth_links a) m) d;
}.

(** ** Statements

    What PostgreSQL does with the statements of the repositories.  An
    [INSERT] whose primary key exists, or whose row violates another
    constraint of the table, is refused; an [UPDATE] by primary key affects
    at most one row and is refused when the new row violates a constraint. *)

Definition insert_stmt {Row} `{!Table Row} (id : Ulid) (r : Row) (constraints : Db → bool)
    (d : Db) : option (nat * Db) :=
  match rows d !! id with
  | Some _ => None
  | None => if constraints d then Some (1, set_rows (<[id := r]> (rows d)) d) else None
  end.

Definition update_stmt {Row} `{!Table Row} (id : Ulid) (f : Row → Row)
    (constraints : Db → bool) (d : Db) : option (nat * Db) :=
  match rows d !! id with
  | None => Some (0, d)
  | Some r => if constraints d then Some (1, set_rows (<[id := f r]> (rows d)) d) else None
  end.

(** [UPDATE ... WHERE p]: the rows matching the condition are all updated. *)
Definition update_where_stmt {Row} `{!Table Row} (p : Row → bool) (f : Row → Row)
    (d : Db) : option (nat * Db) :=
  Some (size (filter (λ kr, p kr.2 = true) (rows d)),
        set_rows ((λ r, if p r then f r else r) <$> rows d) d).

(** [DELETE FROM ... WHERE p]. *)
Definition delete_where_stmt {Row} `{!Table Row} (p : Row → bool) (d : Db) : option (nat * Db) :=
  Some (size (filter (λ kr, p kr.2 = true) (rows d)),
        set_rows (filter (λ kr, p kr.2 = false) (rows d)) d).

(** Constraints: a foreign key, a nullable foreign key, a unique column. *)
Definition exists_row {Row} `{!Table Row} (id : Ulid) (d : Db) : bool :=
  match rows d !! id with Some _ => true | None => false end.

Definition exists_row_opt {Row} `{!Table Row} (id : option Ulid) (d : Db) : bool :=
  match id with Some id => exists_row id d | None => true end.

Definition unique_value {Row} `{!Table Row} (col : Row → option string) (v : string)
    (d : Db) : bool :=
  bool_decide (map_Forall (λ _ r, col r ≠ Some v) (rows d)).

(** [SELECT ... WHERE p] with [fetch_optional]. *)
Definition find_row {Row} `{!Table Row} (p : Row → bool) (d : Db) : option Row :=
  head (filter (λ r, p r = true) (map_to_list (rows d)).*2).

(** ** Messages to the outside *)

(** [FieldAction] and [ProvisionRequest] of crates/matrix/src/lib.rs. *)
Inductive FieldAction (T : Type) : Type :=
| DoNothing
| SetField (v : T)
| Unset.
Arguments DoNothing {T}.
Arguments SetField {T} _.
Arguments Unset {T}.

Module ProvisionRequest.
Record t := mk {
  localpart : string;
  sub : string;
  locked : bool;
  displayname : FieldAction string;
  avatar_url : FieldAction string;
  emails : FieldAction (list string);
}.

Definition new (localpart sub : string) (locked : bool) : t :=
  mk localpart sub locked DoNothing DoNothing DoNothing.
Definition set_displayname (v : string) (r : t) : t :=
  mk (localpart r) (sub r) (locked r) (SetField v) (avatar_url r) (emails r).
Definition set_emails (v : list string) (r : t) : t :=
  mk (localpart r) (sub r) (locked r) (displayname r) (avatar_url r) (SetField v).
End ProvisionRequest.

(** What is sent to the homeserver about a user and the devices of a user
    (the [HomeserverConnection] of crates/matrix). *)
Inductive HomeserverCall : Type :=
| UpsertDevice (localpart device_id : string) (initial_display_name : option string)
| UpdateDeviceDisplayName (localpart device_id display_name : string)
| SyncDevices (localpart : string) (devices : gset string)
| ProvisionUser (request : ProvisionRequest.t)
| DeleteUser (localpart : string) (erase : bool)
| ReactivateUser (localpart : string)
| SetDisplayname (localpart displayname : string)
| UnsetDisplayname (localpart : string)
| AllowCrossSigningReset (localpart : string).

Inductive HomeserverError : Type := HomeserverFailed.

(** What is sent to the activity tracker (crates/handlers/src/activity_tracker). *)
Inductive SessionKind : Type := OAuth2Kind | CompatKind | PersonalKind | BrowserKind.

Record Activity := mkActivity {
  kind : SessionKind;
  activity_id : Ulid;
  date_time : DateTime;
  ip : option IpAddr;
}.

(** ** The world of a request

    The committed database and the transaction of the request (a [SELECT]
    sees the transaction's own writes), the generator, the clock readings
    still to come, the date [NOW()] gives in the transaction, whether each of the
    next statements, homeserver calls and renderings of an answer fails, and what
    was sent to the homeserver and to the activity tracker. *)
Record World (R : Type) := mkWorld {
  w_committed : Db;
  w_txn : Db;
  w_rng : R;
  w_clock : nat → DateTime;
  w_ticks : nat;
  w_db_now : DateTime;
  w_driver_faults : list bool;
  w_homeserver_faults : list bool;
  w_render_faults : list bool;
  w_devices : list HomeserverCall;
  w_activity : list Activity;
}.
Arguments mkWorld {R} _ _ _ _ _ _ _ _ _ _ _.
Arguments w_committed {R} _.
Arguments w_txn {R} _.
Arguments w_rng {R} _.
Arguments w_clock {R} _ _.
Arguments w_ticks {R} _.
Arguments w_db_now {R} _.
Arguments w_driver_faults {R} _.
Arguments w_homeserver_faults {R} _.
Arguments w_render_faults {R} _.
Arguments w_devices {R} _.
Arguments w_activity {R} _.

Section World.
Context {R : Type}.

Definition set_committed (w : World R) (d : Db) : World R :=
  mkWorld d (w_txn w) (w_rng w) (w_clock w) (w_ticks w) (w_db_now w) (w_driver_faults w)
    (w_homeserver_faults w) (w_render_faults w) (w_devices w) (w_activity w).
Definition set_txn (w : World R) (d : Db) : World R :=
  mkWorld (w_committed w) d (w_rng w) (w_clock w) (w_ticks w) (w_db_now w) (w_driver_faults w)
    (w_homeserver_faults w) (w_render_faults w) (w_devices w) (w_activity w).
Definition set_rng (w : World R) (r : R) : World R :=
  mkWorld (w_committed w) (w_txn w) r (w_clock w) (w_ticks w) (w_db_now w) (w_driver_faults w)
    (w_homeserver_faults w) (w_render_faults w) (w_devices w) (w_activity w).
Definition tick (w : World R) : World R :=
  mkWorld (w_committed w) (w_txn w) (w_rng w) (w_clock w) (S (w_ticks w)) (w_db_now w)
    (w_driver_faults w) (w_homeserver_faults w) (w_render_faults w) (w_devices w) (w_activity w).
Definition pop_driver_fault (w : World R) : World R :=
  mkWorld (w_committed w) (w_txn w) (w_rng w) (w_clock w) (w_ticks w) (w_db_now w)
    (tail (w_driver_faults w)) (w_homeserver_faults w) (w_render_faults w) (w_devices w)
    (w_activity w).
Definition pop_homeserver_fault (w : World R) : World R :=
  mkWorld (w_committed w) (w_txn w) (w_rng w) (w_clock w) (w_ticks w) (w_db_now w)
    (w_driver_faults w) (tail (w_homeserver_faults w)) (w_render_faults w) (w_devices w)
    (w_activity w).
Definition pop_render_fault (w : World R) : World R :=
  mkWorld (w_committed w) (w_txn w) (w_rng w) (w_clock w) (w_ticks w) (w_db_now w)
    (w_driver_faults w) (w_homeserver_faults w) (tail (w_render_faults w)) (w_devices w)
    (w_activity w).
Definition log_device (w : World R) (d : HomeserverCall) : World R :=
  mkWorld (w_committed w) (w_txn w) (w_rng w) (w_clock w) (w_ticks w) (w_db_now w)
    (w_driver_faults w) (w_homeserver_faults w) (w_render_faults w) (w_devices w ++ [d])
    (w_activity w).
Definition log_activity (w : World R) (a : Activity) : World R :=
  mkWorld (w_committed w) (w_txn w) (w_rng w) (w_clock w) (w_ticks w) (w_db_now w)
    (w_driver_faults w) (w_homeserver_faults w) (w_render_faults w) (w_devices w)
    (w_activity w ++ [a]).

(** [clock.now()]. *)
Definition now {E} : M (World R) E DateTime := λ w, (Ok (w_clock w (w_ticks w)), tick w).

(** A use of the generator. *)
Definition with_rng {E A} (f : R → A * R) : M (World R) E A := λ w,
  let '(a, r) := f (w_rng w) in (Ok a, set_rng w r).

(** A call to the homeserver, which may fail. *)
Definition homeserver_call (c : HomeserverCall) : M (World R) HomeserverError unit := λ w,
  match w_homeserver_faults w with
  | true :: _ => (Err HomeserverFailed, pop_homeserver_fault w)
  | _ => (Ok tt, log_device (pop_homeserver_fault w) c)
  end.

(** An answer is rendered: a template of crates/templates or a serializer, which
    may fail with [e]. *)
Definition render_answer {E} (e : E) : M (World R) E unit := λ w,
  match w_render_faults w with
  | true :: _ => (Err e, pop_render_fault w)
  | _ => (Ok tt, pop_render_fault w)
  end.

(** ** Repositories *)

Abbreviation Repo := (M (World R) DatabaseError) (only parsing).

(** One round trip to the database; it may fail. *)
Definition query : Repo unit := λ w,
  match w_driver_faults w with
  | true :: _ => (Err Driver, pop_driver_fault w)
  | _ => (Ok tt, pop_driver_fault w)
  end.

(** A [SELECT]. *)
Definition select {A} (f : Db → A) : Repo A :=
  do! query;
  gets (λ w, f (w_txn w)).

(** An [INSERT] or [UPDATE]: the number of affected rows. *)
Definition execute (stmt : Db → option (nat * Db)) : Repo nat :=
  do! query;
  λ w, match stmt (w_txn w) with
       | Some (n, d) => (Ok n, set_txn w d)
       | None => (Err Driver, w)
       end.

(** [PgRepository::from_pool]: a transaction on the committed database. *)
Definition from_pool : Repo unit :=
  do! query;
  modify (λ w, set_txn w (w_committed w)).

(** [RepositoryTransaction::save]: commit. *)
Definition save : Repo unit :=
  do! query;
  modify (λ w, set_committed w (w_txn w)).

(** [RepositoryTransaction::cancel]: roll back. *)
Definition cancel : Repo unit :=
  do! query;
  modify (λ w, set_txn w (w_committed w)).
End World.

(** A row read back as a value of the data model. *)
Definition decode_row {Row A W} (decode : Row → result DatabaseInconsistencyError A)
    (r : option Row) : M W DatabaseError (option A) :=
  match r with
  | None => ret None
  | Some r => do a <- lift (map_err Inconsistency (decode r)); ret (Some a)
  end.
