(* ===== verification/QueueRepo.v ===== *)
(** * The job queue's repositories

    crates/storage-pg/src/queue/job.rs, worker.rs and schedule.rs: the jobs,
    the workers with the lease of their leader, and the recurring schedules;
    [schedule_job] of crates/storage/src/queue/job.rs and the job that syncs
    the devices of a user (crates/storage/src/queue/tasks.rs). *)

From stdpp Require Import base tactics list strings gmap.
From Stdlib Require Import ZArith Lia.
From S2P Require Import Prelude Text Externals Formats Pagination TokenFormat DataModel Storage.
#[local] Open Scope Z_scope.

(** [UPDATE ... WHERE id = ... AND p]. *)
Definition update_row_where_stmt {Row} `{!Table Row} (id : Ulid) (p : Row → bool)
    (f : Row → Row) (d : Db) : option (nat * Db) :=
  match rows d !! id with
  | Some r => if p r then Some (1%nat, set_rows (<[id := f r]> (rows d)) d) else Some (0%nat, d)
  | None => Some (0%nat, d)
  end.

(** [Job] (storage/src/queue/job.rs). *)
Module Job.
Record t := mk {
  id : Ulid;
  queue_name : string;
  payload : Json;
  attempt : Z;
}.
End Job.

(** ** Jobs (job.rs) *)
Module QueueJobRepository.
Import QueueJobRow.

(** [TryFrom<JobReservationResult> for Job]. *)
Definition try_from (r : QueueJobRow.t) : result DatabaseInconsistencyError Job.t :=
  let id := queue_job_id r in
  try attempt <- (if attempt r <? 0 then Err (on "queue_jobs" (Some "attempt") (Some id))
                  else Ok (attempt r));
  Ok (Job.mk id (queue_name r) (payload r) attempt).

(** The rows the statements write. *)
Definition available_row (id : Ulid) (queue_name : string) (payload : Json)
    (created_at : DateTime) : QueueJobRow.t :=
  QueueJobRow.mk id Available created_at None None None queue_name payload None None 0 None
    None None.

Definition scheduled_row (id : Ulid) (queue_name : string) (payload : Json)
    (created_at : DateTime) (attempt : Z) (scheduled_at : DateTime)
    (schedule_name : option string) : QueueJobRow.t :=
  QueueJobRow.mk id Scheduled created_at None None None queue_name payload None None attempt None
    (Some scheduled_at) schedule_name.

Definition with_running (started_at : DateTime) (worker : Ulid) (r : QueueJobRow.t) :=
  QueueJobRow.mk (queue_job_id r) Running (created_at r) (Some started_at) (Some worker)
    (completed_at r) (queue_name r) (payload r) (failed_at r) (failed_reason r) (attempt r)
    (next_attempt_id r) (scheduled_at r) (schedule_name r).

Definition with_completed (at_ : DateTime) (r : QueueJobRow.t) :=
  QueueJobRow.mk (queue_job_id r) Completed (created_at r) (started_at r) (started_by r)
    (Some at_) (queue_name r) (payload r) (failed_at r) (failed_reason r) (attempt r)
    (next_attempt_id r) (scheduled_at r) (schedule_name r).

Definition with_failed (at_ : DateTime) (reason : string) (r : QueueJobRow.t) :=
  QueueJobRow.mk (queue_job_id r) Failed (created_at r) (started_at r) (started_by r)
    (completed_at r) (queue_name r) (payload r) (Some at_) (Some reason) (attempt r)
    (next_attempt_id r) (scheduled_at r) (schedule_name r).

Definition with_status (s : JobStatus) (r : QueueJobRow.t) :=
  QueueJobRow.mk (queue_job_id r) s (created_at r) (started_at r) (started_by r)
    (completed_at r) (queue_name r) (payload r) (failed_at r) (failed_reason r) (attempt r)
    (next_attempt_id r) (scheduled_at r) (schedule_name r).

Definition with_next_attempt (next : option Ulid) (r : QueueJobRow.t) :=
  QueueJobRow.mk (queue_job_id r) (status r) (created_at r) (started_at r) (started_by r)
    (completed_at r) (queue_name r) (payload r) (failed_at r) (failed_reason r) (attempt r)
    next (scheduled_at r) (schedule_name r).

(** A schedule after its job is [job], due at [at_]. *)
Definition with_last_job (at_ : DateTime) (job : Ulid) (s : QueueScheduleRow.t) :=
  QueueScheduleRow.mk (QueueScheduleRow.schedule_name s) (Some at_) (Some job).

Definition has_status (s : JobStatus) (r : QueueJobRow.t) : bool := bool_decide (status r = s).

(** The foreign key of [schedule_name]. *)
Definition schedule_exists (name : option string) (d : Db) : bool :=
  match name with Some n => bool_decide (is_Some (queue_schedules d !! n)) | None => true end.

(** [UPDATE queue_schedules SET last_scheduled_at, last_scheduled_job_id
    WHERE p]. *)
Definition update_schedules_stmt (p : QueueScheduleRow.t → bool) (at_ : DateTime) (job : Ulid)
    (d : Db) : option (nat * Db) :=
  Some (size (filter (λ kr, p kr.2 = true) (queue_schedules d)),
        set_queue_schedules ((λ s, if p s then with_last_job at_ job s else s)
                               <$> queue_schedules d) d).

(** [INSERT INTO queue_jobs SELECT ... WHERE queue_job_id = id AND status =
    'failed']; the column [attempt] is a 32-bit integer. *)
Definition insert_retry_stmt (new_id : Ulid) (now_ scheduled : DateTime) (id : Ulid) (d : Db) :
    option (nat * Db) :=
  match queue_jobs d !! id with
  | Some r =>
      if has_status Failed r then
        if attempt r + 1 <? 2 ^ 31 then
          insert_stmt new_id
            (scheduled_row new_id (queue_name r) (payload r) now_ (attempt r + 1) scheduled
               (schedule_name r)) (schedule_exists (schedule_name r)) d
        else None
      else Some (0%nat, d)
  | None => Some (0%nat, d)
  end.

(** The jobs a reservation takes: the first available ones of the queues.
    The order in which an [UPDATE] returns its rows is not specified; here it
    is that of the identifiers. *)
Definition reservable (queues : list string) (r : QueueJobRow.t) : bool :=
  has_status Available r && bool_decide (queue_name r ∈ queues).

Definition locked_jobs (queues : list string) (count : Z) (d : Db) : list QueueJobRow.t :=
  take (Z.to_nat (Z.min count (2 ^ 63 - 1)))
    (order_asc queue_job_id
       (filter (λ r, reservable queues r = true) (map_to_list (queue_jobs d)).*2)).

Definition start_jobs (now_ : DateTime) (worker : Ulid) (ids : list Ulid)
    (jobs : gmap Z QueueJobRow.t) : gmap Z QueueJobRow.t :=
  map_imap (λ k r, Some (if decide (k ∈ ids) then with_running now_ worker r else r)) jobs.

Definition reserve_stmt (now_ : DateTime) (worker : Ulid) (queues : list string) (count : Z)
    (d : Db) : option (nat * Db) :=
  let ids := queue_job_id <$> locked_jobs queues count d in
  if exists_row (Row := QueueWorkerRow.t) worker d
  then Some (length ids, set_rows (start_jobs now_ worker ids (queue_jobs d)) d)
  else if decide (ids = []) then Some (0%nat, d) else None.

(** The clean-up: the identifiers to delete, and the deletion with its
    [ON DELETE SET NULL] actions. *)
Definition to_delete (since : option Ulid) (until : Ulid) (limit : Z) (d : Db) : list Ulid :=
  take (Z.to_nat (Z.min limit (2 ^ 63 - 1)))
    (queue_job_id <$> order_asc queue_job_id
       (filter (λ r, (has_status Completed r || has_status Failed r)
                     && match since with Some s => s <? queue_job_id r | None => true end
                     && (queue_job_id r <=? until) = true)
          (map_to_list (queue_jobs d)).*2)).

Definition unless_deleted (ids : list Ulid) (o : option Ulid) : option Ulid :=
  match o with Some i => if decide (i ∈ ids) then None else Some i | None => None end.

Definition delete_stmt (ids : list Ulid) (d : Db) : option (nat * Db) :=
  let jobs := map_imap (λ k r, if decide (k ∈ ids) then None
                else Some (with_next_attempt (unless_deleted ids (next_attempt_id r)) r))
                (queue_jobs d) in
  let schedules := (λ s, QueueScheduleRow.mk (QueueScheduleRow.schedule_name s)
                     (QueueScheduleRow.last_scheduled_at s)
                     (unless_deleted ids (QueueScheduleRow.last_scheduled_job_id s)))
                     <$> queue_schedules d in
  Some (length ids, set_queue_schedules schedules (set_rows jobs d)).

Definition max_id (ids : list Ulid) : option Ulid :=
  match ids with [] => None | i :: l => Some (foldr Z.max i l) end.

Section Ops.
Context {R : Type} `{!RngCore R}.
Abbreviation Repo := (M (World R) DatabaseError) (only parsing).

Definition schedule (queue_name : string) (payload : Json) : Repo unit :=
  do created <- now;
  do id <- with_rng (from_datetime_with_rng created);
  do! execute (insert_stmt id (available_row id queue_name payload created) (λ _, true));
  ret tt.

Definition schedule_later (queue_name : string) (payload : Json) (scheduled_at : DateTime)
    (schedule_name : option string) : Repo unit :=
  do created <- now;
  do id <- with_rng (from_datetime_with_rng created);
  do! execute (insert_stmt id
    (scheduled_row id queue_name payload created 0 scheduled_at schedule_name)
    (schedule_exists schedule_name));
  match schedule_name with
  | Some name =>
      do res <- execute (update_schedules_stmt
        (λ s, bool_decide (QueueScheduleRow.schedule_name s = name)) scheduled_at id);
      lift (ensure_affected_rows res 1)
  | None => ret tt
  end.

Definition reserve (worker : Ulid) (queues : list string) (count : Z) : Repo (list Job.t) :=
  do now_ <- now;
  do results <- gets (λ w, locked_jobs queues count (w_txn w));
  do! execute (reserve_stmt now_ worker queues count);
  lift (map_err Inconsistency (collect try_from results)).

Definition mark_as_completed (id : Ulid) : Repo unit :=
  do now_ <- now;
  do res <- execute (update_row_where_stmt id (has_status Running) (with_completed now_));
  lift (ensure_affected_rows res 1).

Definition mark_as_failed (id : Ulid) (reason : string) : Repo unit :=
  do now_ <- now;
  do res <- execute (update_row_where_stmt id (has_status Running) (with_failed now_ reason));
  lift (ensure_affected_rows res 1).

Definition retry (id : Ulid) (delay : Duration) : Repo unit :=
  do now_ <- now;
  let scheduled := now_ + delay in
  do new_id <- with_rng (from_datetime_with_rng now_);
  do res <- execute (insert_retry_stmt new_id now_ scheduled id);
  do! lift (ensure_affected_rows res 1);
  do! execute (update_schedules_stmt
    (λ s, bool_decide (QueueScheduleRow.last_scheduled_job_id s = Some id)) scheduled new_id);
  do res <- execute (update_stmt id (with_next_attempt (Some new_id)) (λ _, true));
  lift (ensure_affected_rows res 1).

Definition schedule_available_jobs : Repo nat :=
  do now_ <- now;
  execute (update_where_stmt
    (λ r, has_status Scheduled r
          && match scheduled_at r with Some t => t <=? now_ | None => false end)
    (with_status Available)).

Definition cleanup (since : option Ulid) (until : Ulid) (limit : Z) :
    Repo (nat * option Ulid) :=
  do ids <- gets (λ w, to_delete since until limit (w_txn w));
  do! execute (delete_stmt ids);
  ret (length ids, max_id ids).

(** [schedule_job] of a [SyncDevicesJob] for a user. *)
Definition SYNC_DEVICES : string := "sync-devices".

Definition sync_devices_payload `{!UlidText} (user_id : Ulid) : Json :=
  JObject [("user_id", JString (ulid_to_string user_id))].

Definition sync_devices_row `{!UlidText} (id user_id : Ulid) (created_at : DateTime) :
    QueueJobRow.t :=
  available_row id SYNC_DEVICES (sync_devices_payload user_id) created_at.

Definition schedule_sync_devices `{!UlidText} (user : User.t) : Repo unit :=
  schedule SYNC_DEVICES (sync_devices_payload (User.id user)).
End Ops.
End QueueJobRepository.

(** ** Workers (worker.rs) *)
Module QueueWorkerRepository.
Import QueueWorkerRow.

Definition with_last_seen_at (at_ : DateTime) (r : QueueWorkerRow.t) :=
  QueueWorkerRow.mk (queue_worker_id r) (registered_at r) at_ (shutdown_at r).
Definition with_shutdown_at (at_ : DateTime) (r : QueueWorkerRow.t) :=
  QueueWorkerRow.mk (queue_worker_id r) (registered_at r) (last_seen_at r) (Some at_).

Definition is_running (r : QueueWorkerRow.t) : bool := bool_decide (shutdown_at r = None).

(** [DELETE FROM queue_leader WHERE p]. *)
Definition delete_leader_stmt (p : QueueLeaderRow.t → bool) (d : Db) : option (nat * Db) :=
  match queue_leader d with
  | Some l => if p l then Some (1%nat, set_queue_leader None d) else Some (0%nat, d)
  | None => Some (0%nat, d)
  end.

(** The upsert of the lease: the row is inserted, or its expiry moved when
    it is the worker's own. *)
Definition LEASE : Duration := 5000000.

Definition lease_stmt (now_ db_now : DateTime) (worker : Ulid) (d : Db) : option (nat * Db) :=
  match queue_leader d with
  | None =>
      if exists_row (Row := QueueWorkerRow.t) worker d
      then Some (1%nat, set_queue_leader (Some (QueueLeaderRow.mk now_ (db_now + LEASE) worker)) d)
      else None
  | Some l =>
      if decide (QueueLeaderRow.queue_worker_id l = worker)
      then Some (1%nat, set_queue_leader
        (Some (QueueLeaderRow.mk (QueueLeaderRow.elected_at l) (db_now + LEASE) worker)) d)
      else Some (0%nat, d)
  end.

Section Ops.
Context {R : Type} `{!RngCore R}.
Abbreviation Repo := (M (World R) DatabaseError) (only parsing).

Definition register : Repo Ulid :=
  do now_ <- now;
  do id <- with_rng (from_datetime_with_rng now_);
  do! execute (insert_stmt id (QueueWorkerRow.mk id now_ now_ None) (λ _, true));
  ret id.

Definition heartbeat (worker : Ulid) : Repo unit :=
  do now_ <- now;
  do res <- execute (update_row_where_stmt worker is_running (with_last_seen_at now_));
  lift (ensure_affected_rows res 1).

Definition shutdown (worker : Ulid) : Repo unit :=
  do now_ <- now;
  do res <- execute (update_stmt worker (with_shutdown_at now_) (λ _, true));
  do! lift (ensure_affected_rows res 1);
  do res <- execute (delete_leader_stmt
    (λ l, bool_decide (QueueLeaderRow.queue_worker_id l = worker)));
  if (0 <? res)%nat then query else ret tt.

Definition shutdown_dead_workers (threshold : Duration) : Repo unit :=
  do now_ <- now;
  do! execute (update_where_stmt
    (λ r, is_running r && (last_seen_at r <? now_ - threshold)) (with_shutdown_at now_));
  ret tt.

Definition remove_leader_lease_if_expired : Repo unit :=
  do db_now <- gets w_db_now;
  do! execute (delete_leader_stmt (λ l, QueueLeaderRow.expires_at l <? db_now));
  ret tt.

Definition try_get_leader_lease (worker : Ulid) : Repo bool :=
  do now_ <- now;
  do db_now <- gets w_db_now;
  do res <- execute (lease_stmt now_ db_now worker);
  ret (res =? 1)%nat.
End Ops.
End QueueWorkerRepository.

(** ** Recurring schedules (schedule.rs) *)
Module QueueScheduleRepository.

(** [ScheduleStatus]. *)
Record ScheduleStatus := mkScheduleStatus {
  status_schedule_name : string;
  status_last_scheduled_at : option DateTime;
  status_last_scheduled_job_completed : option bool;
}.

Definition setup_stmt (names : list string) (d : Db) : option (nat * Db) :=
  let fresh := filter (λ n, queue_schedules d !! n = None) (remove_dups names) in
  Some (length fresh,
        set_queue_schedules
          (foldr (λ n m, <[n := QueueScheduleRow.mk n None None]> m) (queue_schedules d) fresh) d).

Definition job_done (r : QueueJobRow.t) : bool :=
  QueueJobRepository.has_status Completed r || QueueJobRepository.has_status Failed r.

(** The [LEFT JOIN] with the last job. *)
Definition status_of (d : Db) (s : QueueScheduleRow.t) : ScheduleStatus :=
  mkScheduleStatus (QueueScheduleRow.schedule_name s) (QueueScheduleRow.last_scheduled_at s)
    (job ← QueueScheduleRow.last_scheduled_job_id s; job_done <$> queue_jobs d !! job).

Section Ops.
Context {R : Type}.
Abbreviation Repo := (M (World R) DatabaseError) (only parsing).

Definition setup (schedules : list string) : Repo unit :=
  do! execute (setup_stmt schedules);
  ret tt.

Definition list : Repo (list ScheduleStatus) :=
  select (λ d, status_of d <$> (map_to_list (queue_schedules d)).*2).
End Ops.
End QueueScheduleRepository.
