(* ===== verification/QueueWorker.v ===== *)
(** * The worker of the job queue

    crates/tasks/src/new_queue.rs: the tracker of the running jobs, and the
    transactions of a worker (registration, set-up of the schedules, the tick
    that reserves jobs and records the finished ones, the duties of the
    leader, shutdown).  A job runs in a task of its own; what the task ends
    with is up to the job, and an error of a transaction stops the worker. *)

From stdpp Require Import base tactics list strings gmap.
From Stdlib Require Import ZArith Lia.
From S2P Require Import Prelude Text Externals Formats TokenFormat DataModel Storage QueueRepo.
#[local] Open Scope Z_scope.

Inductive JobErrorDecision : Type := Retry | FailJob.

Record JobError := mkJobError { decision : JobErrorDecision; error : string }.

(** What joining a task gives: the result of the job, or a panic. *)
Inductive JoinResult : Type :=
| Joined (r : result JobError unit)
| Crashed (reason : string).

Inductive QueueRunnerError : Type :=
| StartTransaction
| CommitTransaction
| LeaderLock
| Database (e : DatabaseError)
| NotLeader
| WorkerPanicked.

Definition MAX_CONCURRENT_JOBS : Z := 10.
Definition MAX_JOBS_TO_FETCH : Z := 5.
Definition MAX_ATTEMPTS : Z := 10.

(** [i64] arithmetic without overflow checks. *)
Definition wrap_i64 (n : Z) : Z := (n + 2 ^ 63) mod 2 ^ 64 - 2 ^ 63.

(** Milliseconds, as a [Duration]. *)
Definition retry_delay (attempt : Z) : Duration :=
  let attempt := Z.min attempt (2 ^ 32 - 1) in
  wrap_i64 (Z.min (2 ^ attempt) (2 ^ 63 - 1) * 5000) * 1000.

(** ** The tracker of the running jobs *)

Module JobContext.
Record t := mk {
  id : Ulid;
  queue_name : string;
  attempt : Z;
}.
End JobContext.

(** The [JoinSet]: the tasks that still run and, in the order they ended,
    those that can be joined; [next_task] is a task identifier not used yet. *)
Module JobTracker.
Record t := mk {
  factories : list string;
  pending : list nat;
  finished : list (nat * JoinResult);
  next_task : nat;
  job_contexts : gmap nat JobContext.t;
  last_join_result : option (nat * JoinResult);
}.

Definition new : t := mk [] [] [] 0 ∅ None.

Definition queues (tr : t) : list string := factories tr.

Definition has_jobs (tr : t) : bool :=
  match pending tr, finished tr with [], [] => false | _, _ => true end.

(** The number of running jobs, the stored result included. *)
Definition running_jobs (tr : t) : Z :=
  Z.of_nat (length (pending tr) + length (finished tr))
  + match last_join_result tr with Some _ => 1 | None => 0 end.

Definition spawn_job (c : JobContext.t) (tr : t) : t :=
  mk (factories tr) (pending tr ++ [next_task tr]) (finished tr) (S (next_task tr))
    (<[next_task tr := c]> (job_contexts tr)) (last_join_result tr).

(** A task ends: the step of the runtime. *)
Definition task_ends (task : nat) (r : JoinResult) (tr : t) : t :=
  if decide (task ∈ pending tr)
  then mk (factories tr) (filter (λ t', t' ≠ task) (pending tr)) (finished tr ++ [(task, r)])
         (next_task tr) (job_contexts tr) (last_join_result tr)
  else tr.

(** [collect_next_job]: stores the result of the next task to end. *)
Definition collect_next_job (tr : t) : t :=
  match last_join_result tr, finished tr with
  | None, r :: fs => mk (factories tr) (pending tr) fs (next_task tr) (job_contexts tr) (Some r)
  | _, _ => tr
  end.

(** The results [process_jobs] goes through: the stored one, then those of
    the [JoinSet]; when it blocks, the remaining tasks too, which end with
    [outcome]. *)
Definition results (blocking : option (nat → JoinResult)) (tr : t) : list (nat * JoinResult) :=
  option_list (last_join_result tr) ++ finished tr
  ++ match blocking with Some outcome => (λ t', (t', outcome t')) <$> pending tr | None => [] end.

Definition drained (blocking : option (nat → JoinResult)) (contexts : gmap nat JobContext.t)
    (tr : t) : t :=
  mk (factories tr) (match blocking with Some _ => [] | None => pending tr end) []
    (next_task tr) contexts None.
End JobTracker.

Section Worker.
Context {R : Type} `{!RngCore R}.
Abbreviation Run := (M (World R) QueueRunnerError) (only parsing).
Implicit Type tr : JobTracker.t.

Definition database {A} (m : M (World R) DatabaseError A) : Run A := mmap_err Database m.
Definition begin : Run unit := mmap_err (λ _, StartTransaction) from_pool.
Definition commit : Run unit := mmap_err (λ _, CommitTransaction) save.

(** One turn of the loop of [process_jobs]. *)
Definition process_result (r : JoinResult) (c : JobContext.t) : M (World R) DatabaseError unit :=
  let id := JobContext.id c in
  let retry_if_allowed :=
    if JobContext.attempt c <? MAX_ATTEMPTS
    then QueueJobRepository.retry id (retry_delay (JobContext.attempt c))
    else ret tt in
  match r with
  | Joined (Ok _) => QueueJobRepository.mark_as_completed id
  | Joined (Err e) =>
      do! QueueJobRepository.mark_as_failed id (error e);
      match decision e with FailJob => ret tt | Retry => retry_if_allowed end
  | Crashed reason =>
      do! QueueJobRepository.mark_as_failed id reason;
      retry_if_allowed
  end.

Fixpoint process_results (rs : list (nat * JoinResult)) (contexts : gmap nat JobContext.t) :
    Run (gmap nat JobContext.t) :=
  match rs with
  | [] => ret contexts
  | (task, r) :: rs =>
      match contexts !! task with
      | None => fail WorkerPanicked
      | Some c =>
          do! database (process_result r c);
          process_results rs (delete task contexts)
      end
  end.

Definition process_jobs tr (blocking : option (nat → JoinResult)) : Run JobTracker.t :=
  do contexts <- process_results (JobTracker.results blocking tr) (JobTracker.job_contexts tr);
  ret (JobTracker.drained blocking contexts tr).

(** ** The worker *)

(** [cron::Schedule]: the first date after a date. *)
Class Cron := {
  Schedule : Type;
  next_after : Schedule → DateTime → option DateTime;
}.

Context `{!Cron}.

Record ScheduleDefinition := mkScheduleDefinition {
  def_schedule_name : string;
  expression : Schedule;
  def_queue_name : string;
  def_payload : Json;
}.

Record QueueWorker := mkQueueWorker {
  registration : Ulid;
  am_i_leader : bool;
  last_heartbeat : DateTime;
  schedules : list ScheduleDefinition;
  tracker : JobTracker.t;
}.

Definition with_tracker (q : QueueWorker) tr : QueueWorker :=
  mkQueueWorker (registration q) (am_i_leader q) (last_heartbeat q) (schedules q) tr.

(** [QueueWorker::new]. *)
Definition new : Run QueueWorker :=
  do! begin;
  do registration <- database QueueWorkerRepository.register;
  do! commit;
  do now_ <- now;
  ret (mkQueueWorker registration false now_ [] JobTracker.new).

(** [register_handler] and [register_deprecated_queue]: the factory of a
    queue, one per name. *)
Definition register_handler (queue_name : string) (q : QueueWorker) : QueueWorker :=
  let tr := tracker q in
  let factories := if decide (queue_name ∈ JobTracker.factories tr) then JobTracker.factories tr
                   else JobTracker.factories tr ++ [queue_name] in
  with_tracker q (JobTracker.mk factories (JobTracker.pending tr) (JobTracker.finished tr)
    (JobTracker.next_task tr) (JobTracker.job_contexts tr) (JobTracker.last_join_result tr)).

Definition add_schedule (s : ScheduleDefinition) (q : QueueWorker) : QueueWorker :=
  mkQueueWorker (registration q) (am_i_leader q) (last_heartbeat q) (schedules q ++ [s])
    (tracker q).

Definition setup_schedules (q : QueueWorker) : Run unit :=
  do! begin;
  do! database (QueueScheduleRepository.setup (def_schedule_name <$> schedules q));
  commit.

Definition HEARTBEAT : Duration := 60000000.

Definition max_jobs_to_fetch tr : Z :=
  Z.max (Z.max 0 (MAX_CONCURRENT_JOBS - JobTracker.running_jobs tr)) MAX_JOBS_TO_FETCH.

Definition spawn (j : Job.t) tr : JobTracker.t :=
  JobTracker.spawn_job (JobContext.mk (Job.id j) (Job.queue_name j) (Job.attempt j)) tr.

Definition spawn_all (jobs : list Job.t) tr : JobTracker.t :=
  foldl (λ tr j, spawn j tr) tr jobs.

Definition tick (q : QueueWorker) : Run QueueWorker :=
  do now_ <- now;
  do! begin;
  do heartbeat <-
    (if HEARTBEAT <=? now_ - last_heartbeat q
     then do! database (QueueWorkerRepository.heartbeat (registration q)); ret now_
     else ret (last_heartbeat q));
  do! database QueueWorkerRepository.remove_leader_lease_if_expired;
  do leader <- database (QueueWorkerRepository.try_get_leader_lease (registration q));
  do tr <- process_jobs (tracker q) None;
  do tr <-
    (if max_jobs_to_fetch tr =? 0 then ret tr
     else do jobs <- database (QueueJobRepository.reserve (registration q)
                       (JobTracker.queues tr) (max_jobs_to_fetch tr));
          ret (spawn_all jobs tr));
  do! commit;
  ret (mkQueueWorker (registration q) leader heartbeat (schedules q) tr).

(** Whether a recurring job is to be scheduled now. *)
Definition due (status : QueueScheduleRepository.ScheduleStatus) (now_ : DateTime) : bool :=
  match QueueScheduleRepository.status_last_scheduled_at status with
  | Some next_time =>
      if now_ <? next_time then false
      else negb (bool_decide (QueueScheduleRepository.status_last_scheduled_job_completed status
                              = Some false))
  | None => true
  end.

Definition schedule_recurring (statuses : list QueueScheduleRepository.ScheduleStatus)
    (now_ : DateTime) (s : ScheduleDefinition) : Run unit :=
  match head (filter (λ st, QueueScheduleRepository.status_schedule_name st
                            = def_schedule_name s) statuses) with
  | None => ret tt
  | Some status =>
      if due status now_ then
        match next_after (expression s) now_ with
        | None => fail WorkerPanicked
        | Some next_tick =>
            database (QueueJobRepository.schedule_later (def_queue_name s) (def_payload s)
              next_tick (Some (def_schedule_name s)))
        end
      else ret tt
  end.

Fixpoint for_each {A} (f : A → Run unit) (l : list A) : Run unit :=
  match l with [] => ret tt | a :: l => do! f a; for_each f l end.

Definition DEAD_AFTER : Duration := 120000000.

(** [lock_free]: whether the advisory lock could be taken. *)
Definition perform_leader_duties (lock_free : bool) (q : QueueWorker) : Run unit :=
  if negb (am_i_leader q) then fail NotLeader else
  do! begin;
  do! mmap_err (λ _, LeaderLock) query;
  if negb lock_free then mmap_err (λ _, CommitTransaction) cancel else
  do statuses <- database QueueScheduleRepository.list;
  do now_ <- now;
  do! for_each (schedule_recurring statuses now_) (schedules q);
  do! database (QueueWorkerRepository.shutdown_dead_workers DEAD_AFTER);
  do! database QueueJobRepository.schedule_available_jobs;
  do! mmap_err (λ _, LeaderLock) query;
  commit.

(** [run_loop], once woken up. *)
Definition run_loop (lock_free : bool) (q : QueueWorker) : Run QueueWorker :=
  do q <- tick q;
  do! (if am_i_leader q then perform_leader_duties lock_free q else ret tt);
  ret q.

(** [shutdown]: waits for the tasks, which end with [outcome]. *)
Definition shutdown (outcome : nat → JoinResult) (q : QueueWorker) : Run unit :=
  do! begin;
  do! process_jobs (tracker q) (Some outcome);
  do! database (QueueWorkerRepository.shutdown (registration q));
  commit.
End Worker.
