(* ===== verification/Triples.v ===== *)
(** * Triples of the operations on a transaction

    What a computation does to the database of its transaction and how it
    ends: from a transaction in [P], with the database [c] committed and the
    date [n] in the database, it either returns a value in [Q], or fails with
    an error in [F]; until the commit, [c] stays committed. *)

From stdpp Require Import base tactics list strings gmap.
From Stdlib Require Import ZArith Lia.
From S2P Require Import Prelude Text Externals Formats TokenFormat DataModel Storage.

Section Triples.
Context {R : Type} (c : Db) (n : DateTime).
Implicit Types w : World R.

Definition triple {E A} (P : Db → Prop) (m : M (World R) E A) (Q : A → Db → Prop)
    (F : E → Prop) : Prop :=
  ∀ w, w_committed w = c → w_db_now w = n → P (w_txn w) →
    match m w with
    | (Ok a, w') => w_committed w' = c ∧ w_db_now w' = n ∧ Q a (w_txn w')
    | (Err e, w') => w_committed w' = c ∧ w_db_now w' = n ∧ F e
    end.

Lemma triple_conseq {E A} (P P' : Db → Prop) (m : M (World R) E A) (Q Q' : A → Db → Prop)
    (F F' : E → Prop) :
  triple P' m Q' F' → (∀ d, P d → P' d) → (∀ a d, Q' a d → Q a d) → (∀ e, F' e → F e) →
  triple P m Q F.
Proof.
  intros Hm HP HQ HF w Hc Hn Hw. specialize (Hm w Hc Hn (HP _ Hw)).
  destruct (m w) as [[a|e] w']; naive_solver.
Qed.

Lemma triple_ret {E A} (P : Db → Prop) (a : A) (Q : A → Db → Prop) (F : E → Prop) :
  (∀ d, P d → Q a d) → triple P (ret a) Q F.
Proof. intros H w Hc Hn Hw. simpl. auto. Qed.

Lemma triple_fail {E A} (P : Db → Prop) (e : E) (Q : A → Db → Prop) (F : E → Prop) :
  (∀ d, P d → F e) → triple P (fail e) Q F.
Proof. intros H w Hc Hn Hw. simpl. eauto. Qed.

Lemma triple_bind {E A B} (P : Db → Prop) (m : M (World R) E A) (f : A → M (World R) E B)
    (Q : A → Db → Prop) (Q' : B → Db → Prop) (F : E → Prop) :
  triple P m Q F → (∀ a, triple (Q a) (f a) Q' F) → triple P (bind m f) Q' F.
Proof.
  intros Hm Hf w Hc Hn Hw. specialize (Hm w Hc Hn Hw). unfold bind.
  destruct (m w) as [[a|e] w']; [|done]. destruct Hm as (Hc' & Hn' & Hq). by apply Hf.
Qed.

Lemma triple_mmap_err {E E' A} (P : Db → Prop) (g : E → E') (m : M (World R) E A)
    (Q : A → Db → Prop) (F : E' → Prop) :
  triple P m Q (λ e, F (g e)) → triple P (mmap_err g m) Q F.
Proof.
  intros Hm w Hc Hn Hw. specialize (Hm w Hc Hn Hw). unfold mmap_err.
  by destruct (m w) as [[a|e] w'].
Qed.

Lemma triple_lift {E A} (P : Db → Prop) (r : result E A) (Q : A → Db → Prop) (F : E → Prop) :
  (∀ d, P d → match r with Ok a => Q a d | Err e => F e end) → triple P (lift r) Q F.
Proof. intros H w Hc Hn Hw. unfold lift. specialize (H _ Hw). by destruct r. Qed.

Lemma triple_gets_txn {E A} (P : Db → Prop) (f : Db → A) (Q : A → Db → Prop) (F : E → Prop) :
  (∀ d, P d → Q (f d) d) → triple P (gets (λ w, f (w_txn w))) Q F.
Proof. intros H w Hc Hn Hw. simpl. auto. Qed.

Lemma triple_gets_db_now {E} (P : Db → Prop) (Q : DateTime → Db → Prop) (F : E → Prop) :
  (∀ d, P d → Q n d) → triple P (gets w_db_now) Q F.
Proof. intros H w Hc Hn Hw. simpl. rewrite Hn. auto. Qed.

Lemma triple_now {E} (P : Db → Prop) (Q : DateTime → Db → Prop) (F : E → Prop) :
  (∀ t d, P d → Q t d) → triple P now Q F.
Proof. intros H w Hc Hn Hw. simpl. auto. Qed.

Lemma triple_with_rng {E A} (P : Db → Prop) (f : R → A * R) (Q : A → Db → Prop) (F : E → Prop) :
  (∀ a d, P d → Q a d) → triple P (with_rng f) Q F.
Proof. intros H w Hc Hn Hw. unfold with_rng. destruct (f (w_rng w)). simpl. auto. Qed.

Lemma triple_query (P : Db → Prop) (F : DatabaseError → Prop) :
  F Driver → triple P query (λ _, P) F.
Proof. intros H w Hc Hn Hw. unfold query. by destruct (w_driver_faults w) as [|[] ?]. Qed.

Lemma triple_select {A} (P : Db → Prop) (f : Db → A) (Q : A → Db → Prop)
    (F : DatabaseError → Prop) :
  F Driver → (∀ d, P d → Q (f d) d) → triple P (select f) Q F.
Proof.
  intros HF H. eapply triple_bind; [by apply triple_query|]. intros []. by apply triple_gets_txn.
Qed.

Lemma triple_execute (P : Db → Prop) stmt (Q : nat → Db → Prop) (F : DatabaseError → Prop) :
  F Driver → (∀ d k d', P d → stmt d = Some (k, d') → Q k d') → triple P (execute stmt) Q F.
Proof.
  intros HF H. eapply triple_bind; [by apply triple_query|].
  intros [] w Hc Hn Hw. simpl. destruct (stmt (w_txn w)) as [[k d']|] eqn:Hs; simpl; eauto.
Qed.

(** Steps that leave the transaction alone. *)
Lemma triple_bind_now {E A} (P : Db → Prop) (f : DateTime → M (World R) E A)
    (Q : A → Db → Prop) (F : E → Prop) :
  (∀ t, triple P (f t) Q F) → triple P (bind now f) Q F.
Proof. intros H. eapply (triple_bind P now f (λ _, P)); [by apply triple_now|done]. Qed.

Lemma triple_bind_rng {E A B} (P : Db → Prop) (g : R → A * R) (f : A → M (World R) E B)
    (Q : B → Db → Prop) (F : E → Prop) :
  (∀ a, triple P (f a) Q F) → triple P (bind (with_rng g) f) Q F.
Proof. intros H. eapply (triple_bind P _ f (λ _, P)); [by apply triple_with_rng|done]. Qed.

Lemma triple_bind_db_now {E A} (P : Db → Prop) (f : DateTime → M (World R) E A)
    (Q : A → Db → Prop) (F : E → Prop) :
  triple P (f n) Q F → triple P (bind (gets w_db_now) f) Q F.
Proof.
  intros H. eapply (triple_bind P _ f (λ t d, t = n ∧ P d)); [by apply triple_gets_db_now|].
  intros t w Hc Hn [-> Hw]. by apply H.
Qed.

Lemma triple_bind_gets {E A B} (P : Db → Prop) (g : Db → A) (f : A → M (World R) E B)
    (Q : B → Db → Prop) (F : E → Prop) :
  (∀ d, P d → triple (λ d', d' = d) (f (g d)) Q F) →
  triple P (bind (gets (λ w, g (w_txn w))) f) Q F.
Proof.
  intros H. eapply (triple_bind P _ f (λ a d, a = g d ∧ P d)); [by apply triple_gets_txn|].
  intros a w Hc Hn [-> Hw]. by apply (H (w_txn w)).
Qed.

Lemma triple_pre {E A} (P : Db → Prop) (m : M (World R) E A) (Q : A → Db → Prop)
    (F : E → Prop) :
  (∀ d, P d → triple (λ d', d' = d) m Q F) → triple P m Q F.
Proof. intros H w Hc Hn Hw. by apply (H (w_txn w)). Qed.

(** A statement, then the rest. *)
Lemma triple_bind_execute {A} (P : Db → Prop) stmt (f : nat → M (World R) DatabaseError A)
    (Q' : nat → Db → Prop) (Q : A → Db → Prop) (F : DatabaseError → Prop) :
  F Driver → (∀ d k d', P d → stmt d = Some (k, d') → Q' k d') →
  (∀ k, triple (Q' k) (f k) Q F) → triple P (bind (execute stmt) f) Q F.
Proof. intros HF H Hf. eapply triple_bind; [by apply (triple_execute P stmt Q')|done]. Qed.

(** A statement that affects one row, checked. *)
Lemma triple_execute_one (P : Db → Prop) stmt (Q : Db → Prop) (F : DatabaseError → Prop) :
  F Driver → (∀ d k d', P d → stmt d = Some (k, d') → k = 1%nat ∧ Q d') →
  triple P (do res <- execute stmt; lift (ensure_affected_rows res 1)) (λ _, Q) F.
Proof.
  intros HF H. eapply (triple_bind_execute _ _ _ (λ k d', k = 1%nat ∧ Q d')); [done|done|].
  intros k. apply triple_lift. intros d [-> Hd]. done.
Qed.

(** An [UPDATE] that must affect one row. *)
Lemma triple_affected (P : Db → Prop) (k e : nat) (Q : Db → Prop) (F : DatabaseError → Prop) :
  (∀ d, P d → k = e → Q d) → (∀ d, P d → k ≠ e → F (RowsAffected e k)) →
  triple P (lift (ensure_affected_rows k e)) (λ _, Q) F.
Proof.
  intros H HF. apply triple_lift. intros d Hd. unfold ensure_affected_rows.
  case_decide; eauto.
Qed.
End Triples.

(** Opening a transaction: it starts from what is committed. *)
Lemma triple_from_pool {R} c n (P : Db → Prop) :
  triple (R := R) c n P from_pool (λ _ d, d = c) (λ e, e = Driver).
Proof.
  intros w Hc Hn _. unfold from_pool, bind, query, modify.
  destruct (w_driver_faults w) as [|[] ?]; simpl; auto.
Qed.

(** A commit succeeds, or fails and commits nothing. *)
Lemma save_cases {R} (w : World R) :
  (∃ w', save w = (Ok tt, w') ∧ w_committed w' = w_txn w) ∨
  (∃ w', save w = (Err Driver, w') ∧ w_committed w' = w_committed w).
Proof.
  unfold save, bind, query, modify.
  destruct (w_driver_faults w) as [|[] ?]; simpl; naive_solver.
Qed.

(** A transaction that ends with a commit: it commits a database in [Q], or
    fails with an error in [F] and commits nothing. *)
Section Commits.
Context {R : Type} (c : Db) (n : DateTime).

Definition commits {E A} (P : Db → Prop) (m : M (World R) E A) (Q : A → Db → Prop)
    (F : E → Prop) : Prop :=
  ∀ w, w_committed w = c → w_db_now w = n → P (w_txn w) →
    match m w with
    | (Ok a, w') => Q a (w_committed w')
    | (Err e, w') => w_committed w' = c ∧ F e
    end.

Lemma commits_bind {E A B} (P : Db → Prop) (m : M (World R) E A) (f : A → M (World R) E B)
    (Q : A → Db → Prop) (Q' : B → Db → Prop) (F : E → Prop) :
  triple c n P m Q F → (∀ a, commits (Q a) (f a) Q' F) → commits P (bind m f) Q' F.
Proof.
  intros Hm Hf w Hc Hn Hw. specialize (Hm w Hc Hn Hw). unfold bind.
  destruct (m w) as [[a|e] w']; [|naive_solver]. destruct Hm as (Hc' & Hn' & Hq).
  by apply Hf.
Qed.

Lemma commits_step {E A B} (P P' : Db → Prop) (m : M (World R) E A)
    (f : A → M (World R) E B) (Q : A → Db → Prop) (Q' : B → Db → Prop) (F F' : E → Prop) :
  triple c n P' m Q F' → (∀ d, P d → P' d) → (∀ e, F' e → F e) →
  (∀ a, commits (Q a) (f a) Q' F) → commits P (bind m f) Q' F.
Proof.
  intros Hm HP HF Hf. eapply commits_bind; [|exact Hf]. by eapply triple_conseq.
Qed.

Lemma commits_step_err {E E' A B} (P P' : Db → Prop) (g : E → E') (m : M (World R) E A)
    (f : A → M (World R) E' B) (Q : A → Db → Prop) (Q' : B → Db → Prop)
    (F : E' → Prop) (F' : E → Prop) :
  triple c n P' m Q F' → (∀ d, P d → P' d) → (∀ e, F' e → F (g e)) →
  (∀ a, commits (Q a) (f a) Q' F) → commits P (bind (mmap_err g m) f) Q' F.
Proof.
  intros Hm HP HF Hf. eapply commits_bind; [|exact Hf]. apply triple_mmap_err.
  by eapply triple_conseq.
Qed.

Lemma commits_bind_now {E A} (P : Db → Prop) (f : DateTime → M (World R) E A)
    (Q : A → Db → Prop) (F : E → Prop) :
  (∀ t, commits P (f t) Q F) → commits P (bind now f) Q F.
Proof. intros H. eapply (commits_bind P now f (λ _, P)); [by apply triple_now|done]. Qed.

(** Opening the transaction. *)
Lemma commits_begin {E A} (P : Db → Prop) (g : DatabaseError → E) (f : unit → M (World R) E A)
    (Q : A → Db → Prop) (F : E → Prop) :
  F (g Driver) → commits (λ d, d = c) (f tt) Q F → commits P (bind (mmap_err g from_pool) f) Q F.
Proof.
  intros HF H. eapply (commits_bind P _ f (λ _ d, d = c)); [|by intros []].
  apply triple_mmap_err. eapply triple_conseq; [apply (triple_from_pool c n P)|done|done|].
  by intros e ->.
Qed.

Lemma commits_pre {E A} (P : Db → Prop) (m : M (World R) E A) (Q : A → Db → Prop)
    (F : E → Prop) :
  (∀ d, P d → commits (λ d', d' = d) m Q F) → commits P m Q F.
Proof. intros H w Hc Hn Hw. by apply (H (w_txn w)). Qed.

Lemma commits_save {E} (P : Db → Prop) (g : DatabaseError → E) (Q : unit → Db → Prop)
    (F : E → Prop) :
  (∀ d, P d → Q tt d) → F (g Driver) → commits P (mmap_err g save) Q F.
Proof.
  intros HQ HF w Hc Hn Hw. unfold mmap_err.
  destruct (save_cases w) as [(w' & -> & Hc')|(w' & -> & Hc')]; simpl; rewrite Hc'; auto.
Qed.

Lemma commits_save_ret {E A} (P : Db → Prop) (g : DatabaseError → E) (a : A)
    (Q : A → Db → Prop) (F : E → Prop) :
  (∀ d, P d → Q a d) → F (g Driver) → commits P (do! mmap_err g save; ret a) Q F.
Proof.
  intros HQ HF w Hc Hn Hw. unfold bind, mmap_err.
  destruct (save_cases w) as [(w' & -> & Hc')|(w' & -> & Hc')]; simpl; rewrite Hc'; auto.
Qed.
End Commits.
