(* ===== verification/QueueFacts.v ===== *)
(** * What the operations of the job queue do

    The triples of the repositories' operations and of the turns of a
    worker, on the tables of the queue. *)

From stdpp Require Import base tactics list strings gmap sorting.
From Stdlib Require Import ZArith Lia.
From S2P Require Import Prelude Text Externals Formats Pagination TokenFormat DataModel Storage QueueRepo QueueWorker Triples.
#[local] Open Scope Z_scope.
Import QueueJobRow.

(** The only errors a queue operation on its own job can meet. *)
Definition driver (e : DatabaseError) : Prop := e = Driver.

(** ** Statements *)

Lemma update_row_where_inv {Row} `{!Table Row} id (p : Row → bool) f d k d' :
  update_row_where_stmt id p f d = Some (k, d') →
  (∃ r, rows d !! id = Some r ∧ p r = true ∧ k = 1%nat ∧
     d' = set_rows (<[id := f r]> (rows d)) d) ∨
  (k = 0%nat ∧ d' = d ∧ ∀ r, rows d !! id = Some r → p r = false).
Proof.
  unfold update_row_where_stmt. destruct (rows d !! id) as [r|] eqn:Hr; [|naive_solver].
  destruct (p r) eqn:Hp; naive_solver.
Qed.

Section Ops.
Context {R : Type} `{!RngCore R} (c : Db) (n : DateTime).
Local Abbreviation triple := (triple (R := R) c n).

Lemma has_status_true s r : QueueJobRepository.has_status s r = true ↔ status r = s.
Proof. apply bool_decide_eq_true. Qed.

(** The update of a job that runs. *)
Lemma update_running_triple d id r (f : DateTime → QueueJobRow.t → QueueJobRow.t) :
  queue_jobs d !! id = Some r → status r = Running →
  triple (λ d1, d1 = d)
    (do now_ <- now;
     do res <- execute (update_row_where_stmt id (QueueJobRepository.has_status Running) (f now_));
     lift (ensure_affected_rows res 1))
    (λ _ d', ∃ t, d' = set_rows (<[id := f t r]> (queue_jobs d)) d) driver.
Proof.
  intros Hr Hs. apply triple_bind_now. intros t. apply triple_execute_one; [done|].
  intros ? k d' -> [(r' & Hr' & _ & -> & ->)|(_ & _ & Hn)]%update_row_where_inv.
  - simpl in Hr'. simplify_eq. eauto.
  - specialize (Hn r Hr). by apply bool_decide_eq_false in Hn.
Qed.

(** A job that runs is marked as completed, or as failed; no error but one of
    the driver is possible. *)
Lemma mark_as_completed_triple d id r :
  queue_jobs d !! id = Some r → status r = Running →
  triple (λ d1, d1 = d) (QueueJobRepository.mark_as_completed id)
    (λ _ d', ∃ t, d' = set_rows (<[id := QueueJobRepository.with_completed t r]> (queue_jobs d)) d)
    driver.
Proof. apply update_running_triple. Qed.

Lemma mark_as_failed_triple d id r reason :
  queue_jobs d !! id = Some r → status r = Running →
  triple (λ d1, d1 = d) (QueueJobRepository.mark_as_failed id reason)
    (λ _ d', ∃ t, d' = set_rows (<[id := QueueJobRepository.with_failed t reason r]>
                                   (queue_jobs d)) d)
    driver.
Proof. apply (update_running_triple d id r (λ t, QueueJobRepository.with_failed t reason)). Qed.

(** The schedules that pointed to the job [id] point to its retry. *)
Definition retried_schedules (id new_id : Ulid) (at_ : DateTime)
    (m : gmap string QueueScheduleRow.t) : gmap string QueueScheduleRow.t :=
  (λ s, if bool_decide (QueueScheduleRow.last_scheduled_job_id s = Some id)
        then QueueJobRepository.with_last_job at_ new_id s else s) <$> m.

(** The retry of a failed job. *)
Definition retried (id : Ulid) (r : QueueJobRow.t) (delay : Duration) (d d' : Db) : Prop :=
  ∃ t new_id, queue_jobs d !! new_id = None ∧
    d' = set_queue_schedules (retried_schedules id new_id (t + delay) (queue_schedules d))
      (set_rows
        (<[new_id := QueueJobRepository.scheduled_row new_id (queue_name r) (payload r) t
                       (attempt r + 1) (t + delay) (schedule_name r)]>
         (<[id := QueueJobRepository.with_next_attempt (Some new_id) r]> (queue_jobs d))) d).

Lemma retry_triple d id r delay :
  queue_jobs d !! id = Some r → status r = Failed →
  triple (λ d1, d1 = d) (QueueJobRepository.retry id delay)
    (λ _ d', retried id r delay d d') driver.
Proof.
  intros Hr Hs. apply triple_bind_now. intros t. apply triple_bind_rng. intros new_id.
  set (row := QueueJobRepository.scheduled_row new_id (queue_name r) (payload r) t
                (attempt r + 1) (t + delay) (schedule_name r)).
  set (d1 := set_rows (<[new_id := row]> (queue_jobs d)) d).
  set (d2 := set_queue_schedules (retried_schedules id new_id (t + delay) (queue_schedules d)) d1).
  eapply (triple_bind_execute _ _ _ _ _ (λ k d', k = 1%nat ∧ queue_jobs d !! new_id = None ∧ d' = d1));
    [done| |].
  { intros ? k d' -> H. unfold QueueJobRepository.insert_retry_stmt, insert_stmt in H.
    rewrite Hr in H. rewrite (proj2 (has_status_true Failed r) Hs) in H. simpl in H.
    repeat (case_match; simplify_eq); done. }
  intros k. eapply (triple_bind _ _ _ _ _ (λ _ d', queue_jobs d !! new_id = None ∧ d' = d1));
    [apply triple_lift; intros ? (-> & Hn & ->); done|].
  intros _. eapply (triple_bind_execute _ _ _ _ _ (λ _ d', queue_jobs d !! new_id = None ∧ d' = d2));
    [done|by intros ? k' d' [Hn ->] [= _ <-]|].
  intros _. apply triple_execute_one; [done|].
  intros ? k' d' [Hn ->] H. unfold update_stmt in H. simpl in H.
  assert (new_id ≠ id) as Hne by congruence.
  rewrite lookup_insert_ne, Hr in H by done. injection H as <- <-. split; [done|].
  exists t, new_id. split; [done|]. fold row. rewrite (insert_insert_ne _ id) by done.
  by destruct d.
Qed.
End Ops.

(** ** The life of a job *)

(** The columns of a job agree with its status. *)
Definition not_ended (r : QueueJobRow.t) : Prop :=
  completed_at r = None ∧ failed_at r = None ∧ failed_reason r = None ∧ next_attempt_id r = None.

Definition started (r : QueueJobRow.t) : Prop := is_Some (started_at r) ∧ is_Some (started_by r).

Definition job_wf (r : QueueJobRow.t) : Prop :=
  0 <= attempt r <= MAX_ATTEMPTS ∧
  match status r with
  | Available => started_at r = None ∧ started_by r = None ∧ not_ended r
  | Scheduled => started_at r = None ∧ started_by r = None ∧ not_ended r ∧ is_Some (scheduled_at r)
  | Running => started r ∧ not_ended r
  | Completed => started r ∧ is_Some (completed_at r) ∧ failed_at r = None ∧
      failed_reason r = None ∧ next_attempt_id r = None
  | Failed => started r ∧ completed_at r = None ∧ is_Some (failed_at r) ∧ is_Some (failed_reason r)
  | Lost => False
  end.

Definition jobs_ok (d : Db) : Prop :=
  ∀ k r, queue_jobs d !! k = Some r → queue_job_id r = k ∧ job_wf r.

(** A status only moves forward: scheduled, available, running, ended. *)
Definition status_rank (s : JobStatus) : nat :=
  match s with Scheduled => 0 | Available => 1 | Running => 2 | _ => 3 end.

Record job_moves (r r' : QueueJobRow.t) : Prop := {
  moves_same : (queue_job_id r', queue_name r', payload r', created_at r', attempt r', schedule_name r')
    = (queue_job_id r, queue_name r, payload r, created_at r, attempt r, schedule_name r);
  moves_rank : (status_rank (status r) ≤ status_rank (status r'))%nat;
  moves_started : (2 ≤ status_rank (status r))%nat →
    started_at r' = started_at r ∧ started_by r' = started_by r;
  moves_ended : (3 ≤ status_rank (status r))%nat →
    (status r', completed_at r', failed_at r', failed_reason r')
    = (status r, completed_at r, failed_at r, failed_reason r);
}.

#[export] Instance job_moves_preorder : PreOrder job_moves.
Proof.
  split; [intros r; by split|]. intros r1 r2 r3 [Hs1 Hr1 Hb1 He1] [Hs2 Hr2 Hb2 He2].
  split; [congruence|lia|..].
  - intros H. destruct (Hb1 H). destruct Hb2; [lia|]. split; congruence.
  - intros H. specialize (He1 H). rewrite He2 by lia. exact He1.
Qed.

(** The jobs that may be written: those that wait and, by the worker [q], its
    own. *)
Definition may_write (q : option Ulid) (r : QueueJobRow.t) : Prop :=
  status r = Available ∨ status r = Scheduled ∨
  (status r = Running ∧ is_Some q ∧ started_by r = q).

Record progress (q : option Ulid) (d d' : Db) : Prop := {
  progress_jobs : ∀ k r, queue_jobs d !! k = Some r →
    ∃ r', queue_jobs d' !! k = Some r' ∧ job_moves r r' ∧ (r' = r ∨ may_write q r);
  progress_workers : ∀ k, is_Some (queue_workers d !! k) → is_Some (queue_workers d' !! k);
}.

#[export] Instance progress_preorder q : PreOrder (progress q).
Proof.
  split.
  - intros d. split; [|done]. intros k r Hr. exists r. split_and!; [done|reflexivity|by left].
  - intros d1 d2 d3 [H1 Hw1] [H2 Hw2]. split; [|naive_solver]. intros k r1 Hr1.
    destruct (H1 k r1 Hr1) as (r2 & Hr2 & Hm1 & Hd1). destruct (H2 k r2 Hr2) as (r3 & Hr3 & Hm2 & Hd2).
    exists r3. split_and!; [done|by transitivity r2|]. destruct Hd1 as [->|]; [done|by right].
Qed.

(** The rows the operations write. *)
Lemma available_row_wf id q p t : job_wf (QueueJobRepository.available_row id q p t).
Proof. split; [simpl; unfold MAX_ATTEMPTS; lia|done]. Qed.

Lemma scheduled_row_wf id q p t a s nm :
  0 <= a <= MAX_ATTEMPTS → job_wf (QueueJobRepository.scheduled_row id q p t a s nm).
Proof. intros Ha. split; [done|]. simpl. split_and!; done. Qed.

Lemma with_completed_wf t r :
  job_wf r → status r = Running → job_wf (QueueJobRepository.with_completed t r).
Proof.
  intros [Ha Hw] Hs. rewrite Hs in Hw. destruct Hw as (Hst & _ & Hf & Hr & Hn).
  split; [done|]. simpl. split_and!; done.
Qed.

Lemma with_failed_wf t reason r :
  job_wf r → status r = Running → job_wf (QueueJobRepository.with_failed t reason r).
Proof.
  intros [Ha Hw] Hs. rewrite Hs in Hw. destruct Hw as (Hst & Hc & _). split; [done|].
  simpl. split_and!; done.
Qed.

Lemma with_next_attempt_wf o r :
  job_wf r → status r = Failed → job_wf (QueueJobRepository.with_next_attempt o r).
Proof. intros [Ha Hw] Hs. rewrite Hs in Hw. split; [done|]. simpl. by rewrite Hs. Qed.

Lemma with_running_wf t q r :
  job_wf r → status r = Available → job_wf (QueueJobRepository.with_running t q r).
Proof.
  intros [Ha Hw] Hs. rewrite Hs in Hw. destruct Hw as (_ & _ & Hn). split; [done|]. simpl.
  split; [by split|done].
Qed.

Lemma with_available_wf r :
  job_wf r → status r = Scheduled → job_wf (QueueJobRepository.with_status Available r).
Proof.
  intros [Ha Hw] Hs. rewrite Hs in Hw. destruct Hw as (H1 & H2 & Hn & _). by split.
Qed.

(** ** Recording the result of a job *)

Definition failure (res : JoinResult) : option string :=
  match res with
  | Joined (Ok _) => None
  | Joined (Err e) => Some (error e)
  | Crashed reason => Some reason
  end.

Definition wants_retry (res : JoinResult) : bool :=
  match res with
  | Joined (Ok _) => false
  | Joined (Err e) => match decision e with Retry => true | FailJob => false end
  | Crashed _ => true
  end.

(** The tables after the result of a running job is recorded. *)
Definition recorded (res : JoinResult) (ctx : JobContext.t) (r : QueueJobRow.t) (d d' : Db) : Prop :=
  let id := JobContext.id ctx in
  match failure res with
  | None => ∃ t, d' = set_rows (<[id := QueueJobRepository.with_completed t r]> (queue_jobs d)) d
  | Some reason => ∃ t,
      let failed := QueueJobRepository.with_failed t reason r in
      let d1 := set_rows (<[id := failed]> (queue_jobs d)) d in
      if wants_retry res && (JobContext.attempt ctx <? MAX_ATTEMPTS)
      then retried id failed (retry_delay (JobContext.attempt ctx)) d1 d'
      else d' = d1
  end.

Section Processing.
Context {R : Type} `{!RngCore R} (c : Db) (n : DateTime).
Local Abbreviation triple := (triple (R := R) c n).

Lemma process_result_triple d res ctx r :
  queue_jobs d !! JobContext.id ctx = Some r → status r = Running →
  triple (λ d1, d1 = d) (process_result res ctx) (λ _ d', recorded res ctx r d d') driver.
Proof.
  intros Hr Hs. unfold process_result.
  assert (∀ reason, failure res = Some reason →
    triple (λ d1, d1 = d)
      (do! QueueJobRepository.mark_as_failed (JobContext.id ctx) reason;
       if wants_retry res && (JobContext.attempt ctx <? MAX_ATTEMPTS)
       then QueueJobRepository.retry (JobContext.id ctx) (retry_delay (JobContext.attempt ctx))
       else ret tt)
      (λ _ d', recorded res ctx r d d') driver) as Hfail.
  { intros reason Hf. eapply triple_bind; [by apply mark_as_failed_triple|]. intros []. cbv beta.
    apply triple_pre. intros d1 [t ->]. unfold recorded. rewrite Hf.
    destruct (wants_retry res && _).
    - eapply triple_conseq;
        [apply (retry_triple c n (set_rows (<[JobContext.id ctx :=
            QueueJobRepository.with_failed t reason r]> (queue_jobs d)) d) (JobContext.id ctx)
            (QueueJobRepository.with_failed t reason r)); [|done]|done| |done].
      + simpl. by rewrite lookup_insert_eq.
      + intros [] d' Hd'. by exists t.
    - apply triple_ret. intros d' ->. by exists t. }
  destruct res as [[[]|e]|reason].
  - eapply triple_conseq; [by apply mark_as_completed_triple|done..].
  - specialize (Hfail (error e) eq_refl). simpl in Hfail. by destruct (decision e).
  - exact (Hfail reason eq_refl).
Qed.
End Processing.

(** No job becomes available. *)
Definition none_available (d d' : Db) : Prop :=
  ∀ k r, queue_jobs d' !! k = Some r → status r = Available → queue_jobs d !! k = Some r.

Definition same_workers (d d' : Db) : Prop :=
  queue_workers d' = queue_workers d ∧ queue_leader d' = queue_leader d.

(** The worker [q] writes a job of its own. *)
Definition own_write (q id : Ulid) (d d' : Db) : Prop :=
  jobs_ok d' ∧ progress (Some q) d d' ∧ same_workers d d' ∧ none_available d d' ∧
  ∀ k rk, k ≠ id → queue_jobs d !! k = Some rk → queue_jobs d' !! k = Some rk.

Lemma own_write_one q id r r' d :
  jobs_ok d → queue_jobs d !! id = Some r → status r = Running → started_by r = Some q →
  queue_job_id r' = id → job_wf r' → job_moves r r' → status r' ≠ Available →
  own_write q id d (set_rows (<[id := r']> (queue_jobs d)) d).
Proof.
  intros Hok Hr Hs Hq Hid' Hwf' Hm Hna. split_and!; [|split; [|done]|done| |].
  - intros k rk. simpl. intros [[<- <-]|[_ Hk]]%lookup_insert_Some; [done|by apply Hok].
  - intros k rk Hk. simpl. destruct (decide (k = id)) as [->|Hne].
    + rewrite lookup_insert_eq. simplify_eq. exists r'. split_and!; [done..|]. by right; right; right.
    + rewrite lookup_insert_ne by done. exists rk. split_and!; [done|reflexivity|by left].
  - intros k rk. simpl. by intros [[<- <-]|[_ Hk]]%lookup_insert_Some.
  - intros k rk Hne Hk. simpl. by rewrite lookup_insert_ne.
Qed.

(** A new job is added next to it. *)
Lemma own_write_insert q id d d' new_id r' ss :
  own_write q id d d' → queue_jobs d !! new_id = None → queue_jobs d' !! new_id = None →
  queue_job_id r' = new_id → job_wf r' → status r' ≠ Available →
  own_write q id d (set_queue_schedules ss (set_rows (<[new_id := r']> (queue_jobs d')) d')).
Proof.
  intros (Hok & [Hp Hpw] & Hw & Hav & Hk) Hn Hn' Hid Hwf Hna.
  split_and!; [|split; [|done]|done| |].
  - intros k rk. simpl. intros [[<- <-]|[_ Hk']]%lookup_insert_Some; [done|by apply Hok].
  - intros k rk Hrk. destruct (Hp k rk Hrk) as (r1 & Hr1 & Hm). exists r1. simpl.
    rewrite lookup_insert_ne by congruence. done.
  - intros k rk. simpl. intros [[<- <-]|[_ Hk']]%lookup_insert_Some Ha; [done|by apply Hav].
  - intros k rk Hne Hrk. simpl. rewrite lookup_insert_ne by congruence. by apply Hk.
Qed.

(** What recording a result means for the tables of the queue. *)
Lemma recorded_ok q res ctx r d d' :
  jobs_ok d → queue_jobs d !! JobContext.id ctx = Some r → status r = Running →
  started_by r = Some q → attempt r = JobContext.attempt ctx → recorded res ctx r d d' →
  own_write q (JobContext.id ctx) d d'.
Proof.
  intros Hok Hr Hs Hq Ha Hrec. destruct (Hok _ _ Hr) as [Hid Hwf].
  set (id := JobContext.id ctx) in *. unfold recorded in Hrec. fold id in Hrec.
  destruct (failure res) as [reason|].
  - destruct Hrec as [t Hrec]. set (failed := QueueJobRepository.with_failed t reason r) in *.
    pose proof (with_failed_wf t reason r Hwf Hs) as Hfw. fold failed in Hfw.
    destruct (wants_retry res && _) eqn:Hret.
    + apply andb_true_iff in Hret as [_ Hlt%Z.ltb_lt].
      destruct Hrec as (t' & new_id & Hnew & ->). simpl in Hnew.
      assert (new_id ≠ id) as Hne by (intros ->; by rewrite lookup_insert_eq in Hnew).
      rewrite lookup_insert_ne in Hnew by done.
      set (d1 := set_rows (<[id := QueueJobRepository.with_next_attempt (Some new_id) failed]>
                             (queue_jobs d)) d).
      assert (own_write q id d d1) as Hw1.
      { apply (own_write_one q id r); [done..|by apply with_next_attempt_wf| |done].
        split; simpl; rewrite ?Hs; simpl; try done; lia. }
      refine (eq_rect _ (own_write q id d) (own_write_insert q id d d1 new_id _ _ Hw1 Hnew _ _ _ _) _ _).
      5: { unfold d1, set_queue_schedules. simpl. rewrite !insert_insert_eq. reflexivity. }
      * simpl. by rewrite lookup_insert_ne.
      * done.
      * apply scheduled_row_wf. destruct Hwf as [Hwf _]. simpl. lia.
      * done.
    + subst. apply (own_write_one q id r); [done..| |done].
      split; simpl; rewrite ?Hs; simpl; try done; lia.
  - destruct Hrec as [t ->]. apply (own_write_one q id r); [done..|by apply with_completed_wf| |done].
    split; simpl; rewrite ?Hs; simpl; try done; lia.
Qed.

(** ** Reserving jobs *)

Definition job_of (r : QueueJobRow.t) : Job.t :=
  Job.mk (queue_job_id r) (queue_name r) (payload r) (attempt r).

Lemma start_jobs_lookup t q ids m k :
  QueueJobRepository.start_jobs t q ids m !! k
  = (λ r, if decide (k ∈ ids) then QueueJobRepository.with_running t q r else r) <$> m !! k.
Proof.
  unfold QueueJobRepository.start_jobs. rewrite map_lookup_imap. by destruct (m !! k).
Qed.

Lemma locked_jobs_elem queues count d r :
  jobs_ok d → r ∈ QueueJobRepository.locked_jobs queues count d →
  queue_jobs d !! queue_job_id r = Some r ∧ status r = Available ∧ queue_name r ∈ queues.
Proof.
  intros Hok Hr. unfold QueueJobRepository.locked_jobs in Hr.
  apply elem_of_take in Hr as (i & Hr & _). apply list_elem_of_lookup_2 in Hr.
  rewrite order_asc_perm in Hr. apply list_elem_of_filter in Hr as [Hp Hr].
  apply list_elem_of_fmap in Hr as ([k r'] & -> & Hk). apply elem_of_map_to_list in Hk. simpl in *.
  destruct (Hok _ _ Hk) as [-> _]. apply andb_true_iff in Hp as [Hs Hq].
  apply bool_decide_eq_true in Hs, Hq. done.
Qed.

Lemma jobs_unique d : jobs_ok d → unique_column queue_job_id (map_to_list (queue_jobs d)).*2.
Proof.
  intros Hok. apply table_column_nodup. intros k r Hk. by apply Hok.
Qed.

Lemma locked_jobs_nodup queues count d :
  jobs_ok d → NoDup (queue_job_id <$> QueueJobRepository.locked_jobs queues count d).
Proof.
  intros Hok. unfold QueueJobRepository.locked_jobs. rewrite fmap_take.
  eapply sublist_NoDup; [|apply sublist_take]. rewrite order_asc_perm.
  by apply unique_column_filter, jobs_unique.
Qed.

(** The jobs taken are the first of those that can be. *)
Lemma locked_jobs_spec queues count d :
  jobs_ok d → 0 <= count < 2 ^ 63 →
  let locked := QueueJobRepository.locked_jobs queues count d in
  StronglySorted (before_row queue_job_id) locked ∧ Z.of_nat (length locked) <= count ∧
  ∀ id r, queue_jobs d !! id = Some r → status r = Available → queue_name r ∈ queues →
    id ∉ queue_job_id <$> locked →
    Z.of_nat (length locked) = count ∧ ∀ r', r' ∈ locked → queue_job_id r' < id.
Proof.
  intros Hok Hcount.
  set (all := filter (λ r, QueueJobRepository.reservable queues r = true)
                (map_to_list (queue_jobs d)).*2).
  assert (QueueJobRepository.locked_jobs queues count d
    = take (Z.to_nat count) (order_asc queue_job_id all)) as ->
    by (unfold QueueJobRepository.locked_jobs; rewrite Z.min_l by lia; done).
  intros locked.
  assert (unique_column queue_job_id all) as Hu by by apply unique_column_filter, jobs_unique.
  pose proof (strictly_sorted queue_job_id all Hu) as Hs.
  rewrite <-(take_drop (Z.to_nat count) (order_asc queue_job_id all)) in Hs.
  apply StronglySorted_app in Hs as (Hlt & Hs & _). fold locked in Hlt, Hs.
  split_and!; [done|unfold locked; rewrite length_take; lia|].
  intros id r Hr Ha Hn Hid. destruct (Hok _ _ Hr) as [Hid' _].
  assert (r ∈ order_asc queue_job_id all) as Hin.
  { rewrite order_asc_perm. apply list_elem_of_filter. split.
    - apply andb_true_iff. split; by apply bool_decide_eq_true.
    - apply list_elem_of_fmap. exists (id, r). by rewrite elem_of_map_to_list. }
  rewrite <-(take_drop (Z.to_nat count)) in Hin. fold locked in Hin.
  apply elem_of_app in Hin as [Hin|Hin].
  { destruct Hid. rewrite <-Hid'. by apply list_elem_of_fmap_2. }
  split.
  - unfold locked. rewrite length_take. apply list_elem_of_lookup_1 in Hin as [i Hi].
    apply lookup_lt_Some in Hi. rewrite length_drop in Hi. lia.
  - intros r' Hr'. rewrite <-Hid'. by apply Hlt.
Qed.

Lemma job_of_decodes r : job_wf r → QueueJobRepository.try_from r = Ok (job_of r).
Proof.
  intros [Ha _]. unfold QueueJobRepository.try_from.
  destruct (attempt r <? 0) eqn:Hlt; [apply Z.ltb_lt in Hlt; lia|done].
Qed.

(** A reservation by a registered worker. *)
Definition reserved (q : Ulid) (queues : list string) (count : Z) (d : Db) (jobs : list Job.t)
    (d' : Db) : Prop :=
  let locked := QueueJobRepository.locked_jobs queues count d in
  jobs = job_of <$> locked ∧
  ∃ t, d' = set_rows (QueueJobRepository.start_jobs t q (queue_job_id <$> locked)
                        (queue_jobs d)) d.

Lemma reserve_triple {R} `{!RngCore R} c n q queues count d :
  jobs_ok d → is_Some (queue_workers d !! q) →
  triple (R := R) c n (λ d1, d1 = d) (QueueJobRepository.reserve q queues count)
    (λ jobs d', reserved q queues count d jobs d') driver.
Proof.
  intros Hok [wr Hq]. apply triple_bind_now. intros t. apply triple_bind_gets. intros ? ->.
  set (locked := QueueJobRepository.locked_jobs queues count d).
  eapply (triple_bind_execute _ _ _ _ _ (λ _ d', d' = set_rows
    (QueueJobRepository.start_jobs t q (queue_job_id <$> locked) (queue_jobs d)) d)); [done| |].
  - intros ? k d' -> H. unfold QueueJobRepository.reserve_stmt, exists_row in H. simpl in H.
    rewrite Hq in H. by injection H as _ <-.
  - intros k. apply triple_lift. intros d' ->.
    assert (collect QueueJobRepository.try_from locked = Ok (job_of <$> locked)) as ->.
    { apply collect_Ok_Forall2. apply Forall2_fmap_r, Forall_Forall2_diag, Forall_forall.
      intros r Hr. apply locked_jobs_elem in Hr as (Hr & _); [|done].
      apply job_of_decodes. by apply (Hok _ _ Hr). }
    simpl. split; [done|]. by exists t.
Qed.

Lemma reserved_ok q queues count d jobs d' :
  jobs_ok d → reserved q queues count d jobs d' →
  jobs_ok d' ∧ progress (Some q) d d' ∧ same_workers d d' ∧ none_available d d' ∧
  (∀ k r, queue_jobs d !! k = Some r → status r ≠ Available → queue_jobs d' !! k = Some r) ∧
  NoDup (Job.id <$> jobs) ∧
  (∀ j, j ∈ jobs → ∃ r t, queue_jobs d !! Job.id j = Some r ∧ status r = Available ∧
     attempt r = Job.attempt j ∧
     queue_jobs d' !! Job.id j = Some (QueueJobRepository.with_running t q r)).
Proof.
  intros Hok [-> [t ->]]. set (locked := QueueJobRepository.locked_jobs queues count d).
  assert (∀ k r, queue_jobs d !! k = Some r → k ∈ queue_job_id <$> locked → status r = Available)
    as Hav.
  { intros k r Hk (r' & -> & Hr)%list_elem_of_fmap.
    apply locked_jobs_elem in Hr as (Hr & Hs & _); [|done]. congruence. }
  split_and!; [|split; [|done]|done| | | |].
  - intros k r. simpl. rewrite start_jobs_lookup.
    intros (r0 & Hk & ->)%fmap_Some. destruct (Hok _ _ Hk) as [Hid Hwf].
    case_decide as Hin; [|done]. split; [done|]. apply with_running_wf; [done|by eapply Hav].
  - intros k r Hk. simpl. rewrite start_jobs_lookup, Hk. simpl. eexists. split; [done|].
    case_decide as Hin; [|by split; [|left]]. specialize (Hav k r Hk Hin).
    split; [|by right; left]. split; simpl; rewrite ?Hav; simpl; try done; lia.
  - intros k r. simpl. rewrite start_jobs_lookup. intros (r0 & Hk & ->)%fmap_Some.
    by case_decide.
  - intros k r Hk Hs. simpl. rewrite start_jobs_lookup, Hk. simpl. rewrite decide_False; [done|].
    intros Hin. apply Hs. by eapply Hav.
  - rewrite <-list_fmap_compose. exact (locked_jobs_nodup queues count d Hok).
  - intros j (r & -> & Hr)%list_elem_of_fmap. pose proof Hr as Hr'.
    apply locked_jobs_elem in Hr' as (Hk & Hs & _); [|done]. exists r, t. simpl.
    change (Job.id (job_of r)) with (queue_job_id r). rewrite start_jobs_lookup, Hk. simpl. rewrite decide_True by by apply list_elem_of_fmap_2.
    done.
Qed.
