(* ===== verification/QueueSystem.v ===== *)
(** * The workers and the queue together

    The states a deployment of workers goes through: the committed database
    and the workers that are alive, with the jobs each of them tracks.  A
    worker tracks exactly the jobs that the database says it runs. *)

From stdpp Require Import base tactics list strings gmap sorting.
From Stdlib Require Import ZArith Lia.
From S2P Require Import Prelude Text Externals Formats Pagination TokenFormat DataModel Storage QueueRepo QueueWorker Triples QueueFacts.
#[local] Open Scope Z_scope.

(** ** What a worker tracks *)

(** The jobs of the tracked contexts run, started by the worker [q], and no
    job is tracked twice. *)
Record tracked (q : Ulid) (d : Db) (ctxs : gmap nat JobContext.t) : Prop := {
  tracked_running : ∀ t c, ctxs !! t = Some c →
    ∃ r, queue_jobs d !! JobContext.id c = Some r ∧ QueueJobRow.status r = Running ∧
      QueueJobRow.started_by r = Some q ∧ QueueJobRow.attempt r = JobContext.attempt c;
  tracked_once : ∀ t t' c c', ctxs !! t = Some c → ctxs !! t' = Some c' →
    JobContext.id c = JobContext.id c' → t = t';
}.

Definition tasks (tr : JobTracker.t) : list nat :=
  JobTracker.pending tr ++ (JobTracker.finished tr).*1
  ++ option_list (fst <$> JobTracker.last_join_result tr).

Record tracker_ok (tr : JobTracker.t) : Prop := {
  tasks_nodup : NoDup (tasks tr);
  tasks_contexts : ∀ t, t ∈ tasks tr ↔ is_Some (JobTracker.job_contexts tr !! t);
  tasks_used : ∀ t, t ∈ tasks tr → (t < JobTracker.next_task tr)%nat;
}.

(** A job that runs, not tracked yet. *)
Definition runs_for (q : Ulid) (d : Db) (j : Job.t) : Prop :=
  ∃ r, queue_jobs d !! Job.id j = Some r ∧ QueueJobRow.status r = Running ∧
    QueueJobRow.started_by r = Some q ∧ QueueJobRow.attempt r = Job.attempt j.

Lemma spawn_ok tr j : tracker_ok tr → tracker_ok (spawn j tr).
Proof.
  intros [Hn Hc Hu]. assert (tasks (spawn j tr) ≡ₚ JobTracker.next_task tr :: tasks tr) as Hp.
  { unfold tasks, spawn, JobTracker.spawn_job. simpl. rewrite <-(assoc_L (++)).
    by rewrite Permutation_middle. }
  split.
  - rewrite Hp. constructor; [|done]. intros Hin%Hu. lia.
  - intros t. rewrite Hp, elem_of_cons, Hc. simpl. destruct (decide (t = JobTracker.next_task tr)) as [->|Hne].
    + rewrite lookup_insert_eq. naive_solver.
    + rewrite lookup_insert_ne by done. naive_solver.
  - intros t. rewrite Hp, elem_of_cons. simpl. intros [->|Hin%Hu]; lia.
Qed.

Lemma spawn_tracked q d tr j :
  tracker_ok tr → tracked q d (JobTracker.job_contexts tr) → runs_for q d j →
  (∀ t c, JobTracker.job_contexts tr !! t = Some c → JobContext.id c ≠ Job.id j) →
  tracked q d (JobTracker.job_contexts (spawn j tr)).
Proof.
  intros [Hn Hc Hu] [Hrun Honce] Hj Hne. split; simpl.
  - intros t ctx [[<- <-]|[_ Ht]]%lookup_insert_Some; [exact Hj|by eapply Hrun].
  - intros t t' c c' [[<- <-]|[_ Ht]]%lookup_insert_Some [[<- <-]|[_ Ht']]%lookup_insert_Some Heq;
      [done|by destruct (Hne _ _ Ht')|by destruct (Hne _ _ Ht)|by eapply Honce].
Qed.

Lemma spawn_all_ok q d jobs tr :
  tracker_ok tr → tracked q d (JobTracker.job_contexts tr) →
  Forall (runs_for q d) jobs → NoDup (Job.id <$> jobs) →
  (∀ j t c, j ∈ jobs → JobTracker.job_contexts tr !! t = Some c → JobContext.id c ≠ Job.id j) →
  tracker_ok (spawn_all jobs tr) ∧ tracked q d (JobTracker.job_contexts (spawn_all jobs tr)).
Proof.
  revert tr. induction jobs as [|j jobs IH]; intros tr Hok Htr Hall Hnd Hne; [done|].
  apply Forall_cons in Hall as [Hj Hall]. rewrite fmap_cons in Hnd.
  apply NoDup_cons in Hnd as [Hnj Hnd]. unfold spawn_all. simpl. apply IH; [by apply spawn_ok| |done|done|].
  - apply spawn_tracked; [done..|]. intros t c0 Hc. apply (Hne j t); [left|done].
  - simpl. intros j' t ctx Hj' [[<- <-]|[_ Ht]]%lookup_insert_Some; simpl.
    + intros Heq. apply Hnj. rewrite Heq. by apply list_elem_of_fmap_2.
    + apply (Hne j' t); [by right|done].
Qed.

(** Draining the results. *)
Lemma results_tasks b tr :
  (JobTracker.results b tr).*1 ++ match b with Some _ => [] | None => JobTracker.pending tr end
  ≡ₚ tasks tr.
Proof.
  unfold JobTracker.results, tasks. rewrite !fmap_app.
  assert ((option_list (JobTracker.last_join_result tr)).*1
    = option_list (fst <$> JobTracker.last_join_result tr)) as ->
    by by destruct (JobTracker.last_join_result tr).
  destruct b as [outcome|]; simpl.
  - rewrite <-list_fmap_compose. assert (fst ∘ (λ t', (t', outcome t')) <$> JobTracker.pending tr
      = JobTracker.pending tr) as -> by apply list_fmap_id. rewrite app_nil_r. solve_Permutation.
  - rewrite app_nil_r. solve_Permutation.
Qed.

(** ** Recording results *)

Lemma tracked_delete q d d' ctxs t c :
  tracked q d ctxs → ctxs !! t = Some c → own_write q (JobContext.id c) d d' →
  tracked q d' (delete t ctxs).
Proof.
  intros [Hrun Honce] Ht (_ & _ & _ & _ & Hk). split.
  - intros t' c' [Hne Ht']%lookup_delete_Some. destruct (Hrun t' c' Ht') as (r & Hr & Hrest).
    exists r. split; [|done]. apply Hk; [|done]. intros Heq. apply Hne. by eapply Honce.
  - intros t1 t2 c1 c2 [_ H1]%lookup_delete_Some [_ H2]%lookup_delete_Some. by eapply Honce.
Qed.

Section Runs.
Context {R : Type} `{!RngCore R} (c : Db) (n : DateTime).
Local Abbreviation triple := (triple (R := R) c n).

Definition driver_error (e : QueueRunnerError) : Prop := e = Database Driver.

(** The state of the queue while the worker [q], which started its
    transaction on [d0], tracks [ctxs] and left the lease [l]. *)
Record on_track (q : Ulid) (d0 : Db) (l : option QueueLeaderRow.t) (ctxs : gmap nat JobContext.t)
    (d : Db) : Prop := {
  track_ok : jobs_ok d;
  track_progress : progress (Some q) d0 d;
  track_tracked : tracked q d ctxs;
  track_leader : queue_leader d = l;
  track_available : none_available d0 d;
  track_worker : is_Some (queue_workers d !! q);
}.

Lemma on_track_writes q d0 l ctxs ctxs' d d' :
  on_track q d0 l ctxs d → jobs_ok d' → progress (Some q) d d' → same_workers d d' →
  none_available d d' → tracked q d' ctxs' → on_track q d0 l ctxs' d'.
Proof.
  intros [Hok Hpr Htr Hl Hav Hw] Hok' Hpr' [Hw' Hl'] Hav' Htr'.
  split; [done|by transitivity d|done|congruence| |by rewrite Hw'].
  intros k r Hr Hs. apply Hav; [by apply Hav'|done].
Qed.

Lemma process_results_triple q d0 l rs ctxs :
  NoDup rs.*1 → (∀ t, t ∈ rs.*1 → is_Some (ctxs !! t)) →
  triple (on_track q d0 l ctxs) (process_results rs ctxs)
    (λ ctxs' d, on_track q d0 l ctxs' d ∧
       ∀ t, ctxs' !! t = if decide (t ∈ rs.*1) then None else ctxs !! t)
    driver_error.
Proof.
  revert ctxs. induction rs as [|[t res] rs IH]; intros ctxs Hnd Hdom.
  - apply triple_ret. intros d Hd. split; [done|]. intros t. rewrite decide_False; [done|].
    apply not_elem_of_nil.
  - simpl in *. apply NoDup_cons in Hnd as [Ht Hnd].
    destruct (Hdom t ltac:(left)) as [ctx Hctx]. rewrite Hctx.
    apply triple_pre. intros d Hon. pose proof (track_tracked _ _ _ _ _ Hon) as Htr.
    pose proof (track_ok _ _ _ _ _ Hon) as Hok.
    destruct (tracked_running _ _ _ Htr t ctx Hctx) as (r & Hr & Hs & Hq & Ha).
    eapply (triple_bind _ _ _ _ _ (λ _, on_track q d0 l (delete t ctxs))).
    + apply triple_mmap_err. eapply triple_conseq;
        [by apply process_result_triple|done| |intros e ->; done].
      intros [] d' Hrec. pose proof (recorded_ok q res ctx r d d' Hok Hr Hs Hq Ha Hrec) as Hw.
      pose proof Hw as (Hok' & Hpr' & Hsame & Hav & _). apply (on_track_writes q d0 l ctxs _ d); try done.
      by apply (tracked_delete q d d' ctxs t ctx).
    + intros []. eapply triple_conseq; [apply IH; [done|]|done| |done].
      * intros t' Ht'. rewrite lookup_delete_ne by (intros ->; done). apply Hdom. by right.
      * intros ctxs' d' [Hd' Hl]. split; [done|]. intros t'. rewrite Hl.
        destruct (decide (t' ∈ rs.*1)) as [Hin|Hin].
        -- by rewrite decide_True by by right.
        -- destruct (decide (t' = t)) as [->|Hne].
           ++ rewrite lookup_delete_eq, decide_True by left. done.
           ++ rewrite lookup_delete_ne, decide_False by (try done; by intros [->|?]%elem_of_cons).
              done.
Qed.

(** [process_jobs] leaves the tracker with the tasks that still run. *)
Lemma process_jobs_triple q d0 l tr b :
  tracker_ok tr →
  triple (on_track q d0 l (JobTracker.job_contexts tr)) (process_jobs tr b)
    (λ tr' d, tracker_ok tr' ∧ on_track q d0 l (JobTracker.job_contexts tr') d ∧
       JobTracker.factories tr' = JobTracker.factories tr ∧
       tasks tr' = match b with Some _ => [] | None => JobTracker.pending tr end)
    driver_error.
Proof.
  intros [Hnd Hctx Hu]. pose proof (results_tasks b tr) as Hp. rewrite <-Hp in Hnd.
  pose proof Hnd as (Hnd1 & Hdis & Hnd2)%NoDup_app.
  eapply triple_bind; [apply process_results_triple; [done|]|].
  { intros t Ht. apply Hctx. rewrite <-Hp. by apply elem_of_app; left. }
  intros ctxs'. apply triple_ret. intros d [Hon Hl].
  assert (tasks (JobTracker.drained b ctxs' tr)
    = match b with Some _ => [] | None => JobTracker.pending tr end) as Hts
    by (unfold tasks; simpl; apply app_nil_r).
  split_and!; [|done|done|done]. split; rewrite Hts; [done| |].
  - intros t. simpl. rewrite Hl. case_decide as Hin.
    + split; [|by intros [? ?]]. intros Ht. by destruct (Hdis t Hin).
    + rewrite <-Hctx, <-Hp, elem_of_app. naive_solver.
  - intros t Ht. simpl. apply Hu. rewrite <-Hp. by apply elem_of_app; right.
Qed.
End Runs.

(** ** The lease of the leader *)

(** The lease after the turn of the worker [q] at the date [n] of the
    database, and whether [q] leads. *)
Definition lease_left (n : DateTime) (l : option QueueLeaderRow.t) : option QueueLeaderRow.t :=
  match l with
  | Some x => if QueueLeaderRow.expires_at x <? n then None else Some x
  | None => None
  end.

Definition lease_after (q : Ulid) (n t : DateTime) (l : option QueueLeaderRow.t) :
    bool * option QueueLeaderRow.t :=
  match l with
  | None => (true, Some (QueueLeaderRow.mk t (n + QueueWorkerRepository.LEASE) q))
  | Some x =>
      if decide (QueueLeaderRow.queue_worker_id x = q)
      then (true, Some (QueueLeaderRow.mk (QueueLeaderRow.elected_at x)
                          (n + QueueWorkerRepository.LEASE) q))
      else (false, Some x)
  end.

Section Tick.
Context {R : Type} `{!RngCore R} {cron : Cron} (c : Db) (n : DateTime).
Local Abbreviation triple := (triple (R := R) c n).

Record worker_ok (q : QueueWorker) (d : Db) : Prop := {
  worker_tracker : tracker_ok (tracker q);
  worker_tracked : tracked (registration q) d (JobTracker.job_contexts (tracker q));
  worker_registered : is_Some (queue_workers d !! registration q);
}.

Lemma on_track_leader q d0 l l' ctxs d :
  on_track q d0 l ctxs d → on_track q d0 l' ctxs (set_queue_leader l' d).
Proof. intros [Hok [Hp Hpw] [Ht Ho] Hl Hav Hw]. split; [done|by split|by split|done..]. Qed.

Lemma on_track_worker q d0 l ctxs d m :
  on_track q d0 l ctxs d → (∀ k, is_Some (queue_workers d !! k) → is_Some (m !! k)) →
  on_track q d0 l ctxs (set_rows (Row := QueueWorkerRow.t) m d).
Proof.
  intros [Hok [Hp Hpw] [Ht Ho] Hl Hav Hw] Hm.
  split; [done|split; simpl; eauto|by split|done..|by apply Hm].
Qed.

(** The error of a worker declared dead. *)
Definition declared_dead (q : Ulid) (e : DatabaseError) : Prop :=
  e = RowsAffected 1 0 ∧
  ∃ wr, queue_workers c !! q = Some wr ∧ QueueWorkerRow.shutdown_at wr ≠ None.

Lemma heartbeat_triple q d0 l ctxs :
  on_track q d0 l ctxs c →
  triple (λ d, d = c) (QueueWorkerRepository.heartbeat q) (λ _, on_track q d0 l ctxs)
    (λ e, e = Driver ∨ declared_dead q e).
Proof.
  intros Hon. apply triple_bind_now. intros t.
  eapply (triple_bind_execute _ _ _ _ _ (λ k d', (k = 1%nat ∧ on_track q d0 l ctxs d') ∨
    (k = 0%nat ∧ declared_dead q (RowsAffected 1 0)))); [by left| |].
  - intros ? k d' -> [(r & Hr & _ & -> & ->)|(-> & -> & Hn)]%update_row_where_inv.
    + left. split; [done|]. apply on_track_worker; [done|]. simpl in *. intros k' Hk'.
      destruct (decide (k' = q)) as [->|]; [by rewrite lookup_insert_eq|by rewrite lookup_insert_ne].
    + right. split; [done|]. split; [done|]. destruct (track_worker _ _ _ _ _ Hon) as [wr Hwr].
      exists wr. split; [done|]. specialize (Hn wr Hwr). by apply bool_decide_eq_false in Hn.
  - intros k. apply triple_lift. intros d [[-> Hd]|[-> Hdead]]; [done|]. simpl. by right.
Qed.

Lemma remove_lease_triple q d0 l ctxs :
  triple (on_track q d0 l ctxs) (database QueueWorkerRepository.remove_leader_lease_if_expired)
    (λ _, on_track q d0 (lease_left n l) ctxs) driver_error.
Proof.
  apply triple_mmap_err, triple_bind_db_now.
  eapply (triple_bind_execute _ _ _ _ _ (λ _, on_track q d0 (lease_left n l) ctxs)); [done| |].
  - intros d k d' Hd H. pose proof (track_leader _ _ _ _ _ Hd) as Hl.
    unfold QueueWorkerRepository.delete_leader_stmt in H. rewrite Hl in H. unfold lease_left.
    destruct l as [x|]; [destruct (QueueLeaderRow.expires_at x <? n)|]; injection H as _ <-;
      [by eapply on_track_leader|done|done].
  - intros k. by apply triple_ret.
Qed.

Lemma try_lease_triple q d0 l ctxs :
  triple (on_track q d0 l ctxs) (database (QueueWorkerRepository.try_get_leader_lease q))
    (λ lead d, ∃ t l', on_track q d0 l' ctxs d ∧ lease_after q n t l = (lead, l')) driver_error.
Proof.
  apply triple_mmap_err, triple_bind_now. intros t. apply triple_bind_db_now.
  eapply (triple_bind_execute _ _ _ _ _ (λ k d, ∃ lead l', on_track q d0 l' ctxs d ∧
    lease_after q n t l = (lead, l') ∧ lead = (k =? 1)%nat)); [done| |].
  - intros d k d' Hd H. pose proof (track_leader _ _ _ _ _ Hd) as Hl.
    destruct (track_worker _ _ _ _ _ Hd) as [wr Hwr].
    unfold QueueWorkerRepository.lease_stmt, exists_row in H. rewrite Hl in H. simpl in H.
    unfold lease_after. destruct l as [x|].
    + case_decide; injection H as <- <-; do 2 eexists; (split_and!; [|done|done]);
        [by eapply on_track_leader|done].
    + rewrite Hwr in H. injection H as <- <-. do 2 eexists. split_and!; [|done|done].
      by eapply on_track_leader.
  - intros k. apply triple_ret. intros d (lead & l' & Hd & Hl & ->). eauto.
Qed.

(** A turn never fetches fewer than [MAX_JOBS_TO_FETCH] jobs, however many
    run already. *)
Lemma max_jobs_to_fetch_bounds tr :
  MAX_JOBS_TO_FETCH <= max_jobs_to_fetch tr <= MAX_CONCURRENT_JOBS.
Proof.
  unfold max_jobs_to_fetch, JobTracker.running_jobs, MAX_JOBS_TO_FETCH, MAX_CONCURRENT_JOBS.
  destruct (JobTracker.last_join_result tr); lia.
Qed.

(** The jobs taken by a turn that started on [d0], after the results of the
    ended ones were recorded. *)
Definition takes (q : Ulid) (queues : list string) (d0 d : Db) : Prop :=
  ∃ d1 jobs count, MAX_JOBS_TO_FETCH <= count <= MAX_CONCURRENT_JOBS ∧ jobs_ok d1 ∧
    progress (Some q) d0 d1 ∧ none_available d0 d1 ∧ reserved q queues count d1 jobs d.

Lemma reserve_spawn_triple q d0 l tr :
  tracker_ok tr →
  triple (on_track q d0 l (JobTracker.job_contexts tr))
    (if max_jobs_to_fetch tr =? 0 then ret tr
     else do jobs <- database (QueueJobRepository.reserve q (JobTracker.queues tr)
                       (max_jobs_to_fetch tr));
          ret (spawn_all jobs tr))
    (λ tr' d, tracker_ok tr' ∧ on_track q d0 l (JobTracker.job_contexts tr') d ∧
       takes q (JobTracker.queues tr) d0 d) driver_error.
Proof.
  intros Htr. pose proof (max_jobs_to_fetch_bounds tr) as Hmax.
  destruct (max_jobs_to_fetch tr =? 0) eqn:H0;
    [apply Z.eqb_eq in H0; rewrite H0 in Hmax; unfold MAX_JOBS_TO_FETCH in Hmax; lia|].
  apply triple_pre. intros d Hon. pose proof (track_ok _ _ _ _ _ Hon) as Hok.
  eapply triple_bind; [apply triple_mmap_err; eapply triple_conseq;
    [apply (reserve_triple c n q (JobTracker.queues tr) (max_jobs_to_fetch tr) d);
      [done|exact (track_worker _ _ _ _ _ Hon)]|done|done|intros e ->; done]|].
  intros jobs. apply triple_ret. intros d' Hres.
  destruct (reserved_ok _ _ _ _ _ _ Hok Hres) as (Hok' & Hpr & Hsame & Hav & Hkeep & Hnd & Hj).
  pose proof (track_tracked _ _ _ _ _ Hon) as [Hrun Honce].
  assert (tracked q d' (JobTracker.job_contexts tr)) as Htr'.
  { split; [|done]. intros t ctx Ht. destruct (Hrun t ctx Ht) as (r & Hr & Hs & Hrest).
    exists r. split; [|done]. apply Hkeep; [done|congruence]. }
  destruct (spawn_all_ok q d' jobs tr) as [H1 H2]; [done|done| |done| |].
  - apply Forall_forall. intros j Hin. destruct (Hj j Hin) as (r & t & Hr & _ & Ha & Hr').
    by exists (QueueJobRepository.with_running t q r).
  - intros j t ctx Hin Ht Heq. destruct (Hj j Hin) as (r & t' & Hr & Hs & _).
    destruct (Hrun t ctx Ht) as (r0 & Hr0 & Hs0 & _). congruence.
  - split; [done|]. split; [by apply (on_track_writes q d0 l (JobTracker.job_contexts tr) _ d)|].
    destruct Hon as [_ Hp _ _ Ha _]. by exists d, jobs, (max_jobs_to_fetch tr).
Qed.

(** How a turn of a worker can fail: the database does, or the worker was
    declared dead. *)
Definition tick_error (q : Ulid) (e : QueueRunnerError) : Prop :=
  e = StartTransaction ∨ e = CommitTransaction ∨ e = Database Driver ∨
  ∃ e', e = Database e' ∧ declared_dead q e'.

(** What a turn commits. *)
Definition ticked (q : QueueWorker) (q' : QueueWorker) (d' : Db) : Prop :=
  registration q' = registration q ∧ worker_ok q' d' ∧ jobs_ok d' ∧
  progress (Some (registration q)) c d' ∧
  takes (registration q) (JobTracker.queues (tracker q)) c d' ∧
  ∃ t, lease_after (registration q) n t (lease_left n (queue_leader c))
       = (am_i_leader q', queue_leader d').

Lemma tick_commits q :
  jobs_ok c → worker_ok q c →
  commits (R := R) c n (λ _, True) (tick q) (ticked q) (tick_error (registration q)).
Proof.
  intros Hok [Htr Htk Hreg]. set (id := registration q) in *.
  set (ctxs := JobTracker.job_contexts (tracker q)) in *.
  assert (on_track id c (queue_leader c) ctxs c) as Hon0 by (split; [done|reflexivity|done|done|by intros k r|done]).
  assert (∀ e, driver_error e → tick_error id e) as Hde by (intros e ->; right; right; by left).
  unfold tick. fold id. apply commits_bind_now. intros now_. apply commits_begin; [by left|].
  eapply (commits_bind _ _ _ _ _ (λ _, on_track id c (queue_leader c) ctxs)).
  { destruct (HEARTBEAT <=? now_ - last_heartbeat q); [|apply triple_ret; by intros d ->].
    eapply triple_bind; [apply triple_mmap_err; eapply triple_conseq;
      [by apply heartbeat_triple|done|done|]|by intros []; apply triple_ret].
    intros e [->|Hd]; right; right; [by left|right; eauto]. }
  intros hb. eapply commits_step; [apply (remove_lease_triple id c)|done|done|].
  intros []. eapply commits_step; [apply (try_lease_triple id c)|done|done|].
  intros lead. apply commits_pre. intros d1 (t & l' & Hon1 & Hl).
  eapply commits_step; [apply (process_jobs_triple c n id c l' (tracker q) None Htr)|
    by intros ? ->|done|].
  intros tr1. apply commits_pre. intros d2 (Htr1 & Hon2 & Hfac & _).
  eapply commits_step; [apply (reserve_spawn_triple id c l' tr1 Htr1)|by intros ? ->|done|].
  intros tr2. apply commits_save_ret; [|right; by left].
  intros d (Htr2 & [H1 H2 H3 H4 H5 H6] & Htk2). unfold JobTracker.queues in *. rewrite Hfac in Htk2.
  split_and!; [done|by split|done|done|done|]. exists t. simpl. rewrite H4. exact Hl.
Qed.
End Tick.
