(* ===== verification/QueueHistory.v ===== *)
(** * The duties of the leader, the lifetime of a worker, and histories of the
      job queue *)

From stdpp Require Import base tactics list strings gmap sorting relations.
From Stdlib Require Import ZArith Lia.
From S2P Require Import Prelude Text Externals Formats Pagination TokenFormat DataModel Storage QueueRepo QueueWorker Triples QueueFacts QueueSystem.

#[local] Open Scope Z_scope.
(** ** The duties of the leader, start-up and shutdown

    What the other transactions of a worker commit: the duties of the leader
    only add jobs and make waiting ones available, a registration adds a
    worker, a shutdown records the results of the jobs that ran and gives the
    lease up. *)

Import QueueJobRow.

(** Databases that only differ by jobs added or made available, the columns
    of the schedules and of the workers. *)
Record only_waiting (c d : Db) : Prop := {
  waiting_ok : jobs_ok d;
  waiting_progress : progress None c d;
  waiting_leader : queue_leader d = queue_leader c;
}.

Lemma progress_None q d d' : progress None d d' → progress q d d'.
Proof.
  intros [H Hw]. split; [|done]. intros k r Hr. destruct (H k r Hr) as (r' & Hr' & Hm & Hd).
  exists r'. split_and!; [done..|]. destruct Hd as [|[|[|(_ & [? ?] & _)]]]; [by left|..|done];
    right; [by left|by right; left].
Qed.

Lemma only_waiting_step c d d' :
  only_waiting c d → jobs_ok d' → progress None d d' → queue_leader d' = queue_leader d →
  only_waiting c d'.
Proof. intros [H1 H2 H3] H1' H2' H3'. split; [done|by transitivity d|congruence]. Qed.

(** A waiting job is added. *)
Lemma only_waiting_insert c d id r :
  only_waiting c d → queue_jobs d !! id = None → queue_job_id r = id → job_wf r →
  only_waiting c (set_rows (<[id := r]> (queue_jobs d)) d).
Proof.
  intros Hd Hn Hid Hwf. apply (only_waiting_step c d); [done| |split; [|done]|done].
  - intros k rk. simpl. intros [[<- <-]|[_ Hk]]%lookup_insert_Some; [done|].
    by apply (waiting_ok _ _ Hd).
  - intros k rk Hk. simpl. exists rk. rewrite lookup_insert_ne by congruence.
    split_and!; [done|reflexivity|by left].
Qed.

Lemma only_waiting_schedules c d m :
  only_waiting c d → only_waiting c (set_queue_schedules m d).
Proof. intros Hd. apply (only_waiting_step c d); [done|apply Hd|by split; [apply (progress_jobs None d d)|]|done]. Qed.

Section Duties.
Context {R : Type} `{!RngCore R} {cron : Cron} (c : Db) (n : DateTime).
Local Abbreviation triple := (triple (R := R) c n).

Lemma schedule_triple queue payload :
  triple (only_waiting c) (QueueJobRepository.schedule queue payload) (λ _, only_waiting c) driver.
Proof.
  apply triple_bind_now. intros t. apply triple_bind_rng. intros id.
  eapply (triple_bind_execute _ _ _ _ _ (λ _, only_waiting c)); [done| |].
  - intros d k d' Hd H. unfold insert_stmt in H. simpl in H.
    destruct (queue_jobs d !! id) eqn:Hn; [done|]. injection H as _ <-.
    by apply only_waiting_insert; [..|apply available_row_wf].
  - intros k. by apply triple_ret.
Qed.

Lemma schedule_later_triple queue payload at_ name :
  triple (only_waiting c) (QueueJobRepository.schedule_later queue payload at_ name)
    (λ _, only_waiting c) (λ _, True).
Proof.
  apply triple_bind_now. intros t. apply triple_bind_rng. intros id.
  eapply (triple_bind_execute _ _ _ _ _ (λ _, only_waiting c)); [done| |].
  - intros d k d' Hd H. unfold insert_stmt in H. simpl in H.
    destruct (queue_jobs d !! id) eqn:Hn; [done|].
    destruct (QueueJobRepository.schedule_exists name d); [|done]. injection H as _ <-.
    apply only_waiting_insert; [done..|]. apply scheduled_row_wf. unfold MAX_ATTEMPTS. lia.
  - intros k. destruct name as [name|]; [|by apply triple_ret].
    eapply (triple_bind_execute _ _ _ _ _ (λ _, only_waiting c)); [done| |].
    + intros d k' d' Hd [= _ <-]. by apply only_waiting_schedules.
    + intros k'. apply triple_lift. intros d Hd. by destruct (ensure_affected_rows k' 1).
Qed.

Lemma for_each_triple {A} (f : A → M (World R) QueueRunnerError unit) l (P : Db → Prop) F :
  (∀ a, triple P (f a) (λ _, P) F) → triple P (for_each f l) (λ _, P) F.
Proof.
  intros Hf. induction l as [|a l IH]; [by apply triple_ret|].
  eapply triple_bind; [apply Hf|]. by intros [].
Qed.

Lemma schedule_recurring_triple statuses now_ s :
  triple (only_waiting c) (schedule_recurring statuses now_ s) (λ _, only_waiting c) (λ _, True).
Proof.
  unfold schedule_recurring. destruct (head _) as [status|]; [|by apply triple_ret].
  destruct (due status now_); [|by apply triple_ret].
  destruct (next_after _ _) as [next_tick|]; [|by apply triple_fail].
  apply triple_mmap_err, schedule_later_triple.
Qed.

Lemma dead_workers_triple th :
  triple (only_waiting c) (QueueWorkerRepository.shutdown_dead_workers th)
    (λ _, only_waiting c) driver.
Proof.
  apply triple_bind_now. intros t.
  eapply (triple_bind_execute _ _ _ _ _ (λ _, only_waiting c)); [done| |intros; by apply triple_ret].
  intros d k d' Hd [= _ <-]. apply (only_waiting_step c d); [done|apply Hd|split|done].
  - apply (progress_jobs None d d). reflexivity.
  - intros k' [r Hr]. simpl. rewrite lookup_fmap, Hr. by eexists.
Qed.

Lemma schedule_available_triple :
  triple (only_waiting c) QueueJobRepository.schedule_available_jobs (λ _, only_waiting c) driver.
Proof.
  apply triple_bind_now. intros t. apply triple_execute; [done|].
  intros d k d' Hd [= _ <-].
  set (p := λ r, QueueJobRepository.has_status Scheduled r
         && match scheduled_at r with Some s => s <=? t | None => false end).
  set (m := _ <$> queue_jobs d).
  assert (∀ k, m !! k = (λ r, if p r then QueueJobRepository.with_status Available r else r)
    <$> queue_jobs d !! k) as Hm by (intros k'; apply lookup_fmap).
  assert (∀ r, p r = true → status r = Scheduled) as Hp.
  { intros r [Hs _]%andb_true_iff. by apply bool_decide_eq_true in Hs. }
  apply (only_waiting_step c d); [done| |split; [|done]|done].
  - intros k' r. simpl. rewrite Hm. intros (r0 & Hk & ->)%fmap_Some.
    destruct (waiting_ok _ _ Hd _ _ Hk) as [Hid Hwf]. destruct (p r0) eqn:Hpr; [|done].
    split; [done|]. apply with_available_wf; auto.
  - intros k' r Hk. simpl. rewrite Hm, Hk. simpl. eexists. split; [done|].
    destruct (p r) eqn:Hpr; [|by split; [|left]]. apply Hp in Hpr.
    split; [|by right; right; left]. split; simpl; rewrite ?Hpr; simpl; try done; lia.
Qed.

(** What the leader commits. *)
Lemma duties_commits lock_free q :
  jobs_ok c →
  commits (R := R) c n (λ _, True) (perform_leader_duties lock_free q)
    (λ _ d, only_waiting c d) (λ _, True).
Proof.
  intros Hok. assert (only_waiting c c) as H0 by (split; [done|reflexivity|done]).
  unfold perform_leader_duties. destruct (negb (am_i_leader q)).
  { intros w Hc _ _. simpl. by rewrite Hc. }
  apply commits_begin; [done|].
  eapply commits_step_err; [apply (triple_query c n (λ d, d = c) (λ _, True)); done|done|done|].
  intros []. destruct (negb lock_free).
  { intros w Hc _ Hw. unfold mmap_err, cancel, bind, query, modify.
    destruct (w_driver_faults w) as [|[] ?]; simpl; by rewrite ?Hc. }
  eapply commits_step_err; [apply (triple_select c n (only_waiting c) _ (λ _, only_waiting c)
    (λ _, True)); done|by intros ? ->|done|]. intros statuses.
  apply commits_bind_now. intros now_.
  eapply commits_step; [apply for_each_triple; intros s; apply schedule_recurring_triple|done|done|].
  intros []. eapply commits_step_err; [apply dead_workers_triple|done|done|]. intros [].
  eapply commits_step_err; [apply schedule_available_triple|done|done|]. intros ?.
  eapply commits_step_err; [apply (triple_query c n (only_waiting c) (λ _, True)); done|done|done|].
  intros []. by apply commits_save.
Qed.
End Duties.

(** ** Start-up and shutdown *)
Section Lifetime.
Context {R : Type} `{!RngCore R} {cron : Cron} (c : Db) (n : DateTime).

Lemma tracked_empty q d : tracked q d ∅.
Proof. split; intros *; by rewrite lookup_empty. Qed.

Lemma new_tracker_ok : tracker_ok JobTracker.new.
Proof.
  split; [constructor|intros t; simpl; rewrite lookup_empty|intros t Ht; by apply not_elem_of_nil in Ht].
  split; [intros Ht; by apply not_elem_of_nil in Ht|by intros [? ?]].
Qed.

(** A new worker is registered under an identifier of its own. *)
Definition registered (q : QueueWorker) (d : Db) : Prop :=
  queue_workers c !! registration q = None ∧ worker_ok q d ∧ only_waiting c d ∧
  tasks (tracker q) = [].

Lemma new_commits :
  jobs_ok c →
  commits (R := R) c n (λ _, True) new registered (λ _, True).
Proof.
  intros Hok. unfold new. apply commits_begin; [done|].
  eapply (commits_step_err c n _ _ _ _ _ (λ id d, queue_workers c !! id = None ∧
    only_waiting c d ∧ is_Some (queue_workers d !! id)) _ _ (λ _, True));
    [|exact (λ d H, H)|done|].
  - apply triple_bind_now. intros t. apply triple_bind_rng. intros id.
    eapply (triple_bind_execute _ _ _ _ _ (λ _ d, queue_workers c !! id = None ∧
      only_waiting c d ∧ is_Some (queue_workers d !! id))); [done| |].
    + intros d k d' -> H. unfold insert_stmt in H. simpl in H.
      destruct (queue_workers c !! id) eqn:Hn; [done|]. injection H as _ <-. split; [done|].
      split; [split; [done|split|done]|simpl; by rewrite lookup_insert_eq].
      * apply (progress_jobs None c c). reflexivity.
      * intros k' Hk'. simpl. destruct (decide (k' = id)) as [->|];
          [by rewrite lookup_insert_eq|by rewrite lookup_insert_ne].
    + intros k. by apply triple_ret.
  - intros id w Hc Hn Hw. unfold bind, commit, mmap_err.
    destruct (save_cases w) as [(w' & -> & Hc')|(w' & -> & Hc')]; simpl; rewrite Hc'; [|done].
    destruct Hw as (H1 & H2 & H3). split_and!; [done| |done|done].
    split; [apply new_tracker_ok|apply tracked_empty|done].
Qed.

Lemma setup_commits q :
  jobs_ok c → commits (R := R) c n (λ _, True) (setup_schedules q) (λ _ d, only_waiting c d)
    (λ _, True).
Proof.
  intros Hok. unfold setup_schedules. apply commits_begin; [done|].
  eapply (commits_step_err c n _ (λ d, d = c) _ _ _ (λ _ d, only_waiting c d) _ _ (λ _, True));
    [|done|done|intros []; by apply commits_save].
  eapply (triple_bind_execute _ _ _ _ _ (λ _, only_waiting c)); [done| |intros; by apply triple_ret].
  intros d k d' -> [= _ <-]. apply only_waiting_schedules. split; [done|reflexivity|done].
Qed.

(** The lease after a shutdown. *)
Definition lease_given_up (q : Ulid) (l : option QueueLeaderRow.t) : option QueueLeaderRow.t :=
  match l with
  | Some x => if decide (QueueLeaderRow.queue_worker_id x = q) then None else Some x
  | None => None
  end.

(** What a worker that shuts down commits. *)
Definition stopped (q : Ulid) (d : Db) : Prop :=
  jobs_ok d ∧ progress (Some q) c d ∧ queue_leader d = lease_given_up q (queue_leader c).

Lemma worker_shutdown_triple q d0 l ctxs :
  triple (R := R) c n (on_track q d0 l ctxs) (QueueWorkerRepository.shutdown q)
    (λ _, on_track q d0 (lease_given_up q l) ctxs) driver.
Proof.
  apply triple_bind_now. intros t.
  eapply (triple_bind_execute _ _ _ _ _ (λ k d, k = 1%nat ∧ on_track q d0 l ctxs d)); [done| |].
  - intros d k d' Hd H. unfold update_stmt in H. simpl in H.
    destruct (track_worker _ _ _ _ _ Hd) as [wr Hwr]. rewrite Hwr in H. injection H as <- <-.
    split; [done|]. apply on_track_worker; [done|]. intros k' Hk'.
    destruct (decide (k' = q)) as [->|]; [by rewrite lookup_insert_eq|by rewrite lookup_insert_ne].
  - intros k. eapply (triple_bind _ _ _ _ _ (λ _, on_track q d0 l ctxs));
      [apply triple_lift; by intros d [-> Hd]|]. intros [].
    eapply (triple_bind_execute _ _ _ _ _ (λ _, on_track q d0 (lease_given_up q l) ctxs)); [done| |].
    + intros d k' d' Hd H. pose proof (track_leader _ _ _ _ _ Hd) as Hl.
      unfold QueueWorkerRepository.delete_leader_stmt in H. rewrite Hl in H.
      destruct l as [x|]; simpl in *; [|by injection H as _ <-].
      case_bool_decide; case_decide; try done; injection H as _ <-; [by eapply on_track_leader|done].
    + intros k'. destruct (0 <? k')%nat; [|by apply triple_ret]. by apply triple_query.
Qed.

Lemma shutdown_commits outcome q :
  jobs_ok c → worker_ok q c →
  commits (R := R) c n (λ _, True) (shutdown outcome q) (λ _, stopped (registration q))
    (λ e, e = StartTransaction ∨ e = CommitTransaction ∨ e = Database Driver).
Proof.
  intros Hok [Htr Htk Hreg]. set (id := registration q) in *.
  assert (on_track id c (queue_leader c) (JobTracker.job_contexts (tracker q)) c) as Hon
    by (split; [done|reflexivity|done|done|by intros k r|done]).
  unfold shutdown. apply commits_begin; [by left|].
  eapply commits_step; [apply (process_jobs_triple c n id c (queue_leader c) (tracker q)
    (Some outcome) Htr)|by intros ? ->|intros e ->; by right; right|].
  intros tr. eapply commits_step_err; [apply (worker_shutdown_triple id c (queue_leader c))|
    by intros d (_ & H & _); exact H|intros e ->; by right; right|].
  intros []. apply commits_save; [|by right; left]. intros d [H1 H2 H3 H4 H5 H6]. done.
Qed.
End Lifetime.

(** ** The clean-up of ended jobs *)

Definition ended (r : QueueJobRow.t) : Prop := status r = Completed ∨ status r = Failed.

(** The identifiers to delete are those of jobs that ended. *)
Lemma to_delete_ended since until limit d id :
  jobs_ok d → id ∈ QueueJobRepository.to_delete since until limit d →
  ∃ r, queue_jobs d !! id = Some r ∧ ended r.
Proof.
  intros Hok Hid. unfold QueueJobRepository.to_delete in Hid.
  apply elem_of_take in Hid as (i & Hid & _). apply list_elem_of_lookup_2 in Hid.
  apply list_elem_of_fmap in Hid as (r & -> & Hr). rewrite order_asc_perm in Hr.
  apply list_elem_of_filter in Hr as [Hp Hr].
  apply list_elem_of_fmap in Hr as ([k r'] & -> & Hk). apply elem_of_map_to_list in Hk. simpl in *.
  destruct (Hok _ _ Hk) as [-> _]. exists r'. split; [done|].
  apply andb_true_iff in Hp as [[Hs _]%andb_true_iff _].
  apply orb_true_iff in Hs as [Hs|Hs]; apply bool_decide_eq_true in Hs; [by left|by right].
Qed.

(** The rows a deletion leaves. *)
Definition kept (ids : list Ulid) (r : QueueJobRow.t) : QueueJobRow.t :=
  QueueJobRepository.with_next_attempt
    (QueueJobRepository.unless_deleted ids (next_attempt_id r)) r.

Record deleted (ids : list Ulid) (d d' : Db) : Prop := {
  deleted_ended : ∀ i, i ∈ ids → ∃ r, queue_jobs d !! i = Some r ∧ ended r;
  deleted_jobs : ∀ k, queue_jobs d' !! k
    = if decide (k ∈ ids) then None else kept ids <$> queue_jobs d !! k;
  deleted_workers : same_workers d d';
}.

Lemma cleanup_triple {R} `{!RngCore R} c n since until limit d :
  jobs_ok d →
  triple (R := R) c n (λ d1, d1 = d) (QueueJobRepository.cleanup since until limit)
    (λ _ d', ∃ ids, deleted ids d d') driver.
Proof.
  intros Hok. apply triple_bind_gets. intros ? ->.
  set (ids := QueueJobRepository.to_delete since until limit d).
  eapply (triple_bind_execute _ _ _ _ _ (λ _ d', ∃ ids, deleted ids d d')); [done| |].
  - intros d1 k d' -> [= _ <-]. exists ids. split; [|intros k'; simpl|done].
    + intros i Hi. by eapply to_delete_ended.
    + rewrite map_lookup_imap. destruct (queue_jobs d !! k') as [r|]; simpl; by case_decide.
  - intros k. by apply triple_ret.
Qed.

Lemma kept_wf ids r : job_wf r → job_wf (kept ids r).
Proof.
  intros [Ha Hw]. split; [done|]. unfold kept. simpl.
  destruct (status r); simpl in *; try done; unfold not_ended in *; simpl in *; destruct_and!;
    split_and!; try done;
    match goal with H : next_attempt_id r = None |- _ => by rewrite H end.
Qed.

Lemma kept_not_ended ids r : job_wf r → ¬ ended r → kept ids r = r.
Proof.
  intros [_ Hw] Hn. assert (next_attempt_id r = None) as Hx.
  { unfold ended, not_ended in *. destruct (status r); naive_solver. }
  destruct r; unfold kept, QueueJobRepository.with_next_attempt; simpl in *. by rewrite Hx.
Qed.

Lemma deleted_ok ids d d' : jobs_ok d → deleted ids d d' → jobs_ok d'.
Proof.
  intros Hok [_ Hj _] k r Hr. rewrite Hj in Hr. case_decide; [done|].
  apply fmap_Some in Hr as (r0 & Hr0 & ->). destruct (Hok _ _ Hr0) as [Hid Hwf].
  split; [done|by apply kept_wf].
Qed.

Lemma deleted_keeps ids d d' k r :
  jobs_ok d → deleted ids d d' → queue_jobs d !! k = Some r → ¬ ended r →
  queue_jobs d' !! k = Some r.
Proof.
  intros Hok [He Hj _] Hr Hn. rewrite Hj, decide_False, Hr; simpl.
  - f_equal. apply kept_not_ended; [by apply (Hok _ _ Hr)|done].
  - intros (r' & Hr' & Hend)%He. congruence.
Qed.

(** ** Histories of the job queue

    A deployment of workers as a transition system: a state is the committed
    database with the workers alive; each transaction of a worker, each job
    that ends, each job scheduled by a request and each clean-up is a step.
    The invariant: every job is in a state of its life cycle and was attempted
    at most [MAX_ATTEMPTS] times before, and the jobs a worker tracks are
    those the database says it runs. *)

#[local] Open Scope Z_scope.

(** What a request does to the queue: it may add jobs, available at once or
    scheduled, and leaves the rest alone. *)
Definition requested (d d' : Db) : Prop :=
  same_workers d d' ∧ queue_schedules d' = queue_schedules d ∧
  ∀ k, queue_jobs d' !! k = queue_jobs d !! k ∨
    (queue_jobs d !! k = None ∧ ∃ q p t,
      queue_jobs d' !! k = Some (QueueJobRepository.available_row k q p t) ∨
      ∃ at_, queue_jobs d' !! k = Some (QueueJobRepository.scheduled_row k q p t 0 at_ None)).

(** What [schedule] inserts. *)
Lemma requested_schedule d k q p t :
  queue_jobs d !! k = None →
  requested d (set_rows (<[k := QueueJobRepository.available_row k q p t]> (queue_jobs d)) d).
Proof.
  intros Hk. split; [done|]. split; [done|]. intros k'. simpl. destruct (decide (k' = k)) as [->|].
  - right. split; [done|]. exists q, p, t. left. apply lookup_insert_eq.
  - left. by apply lookup_insert_ne.
Qed.

Record System `{!Cron} := mkSystem {
  sys_db : Db;
  sys_workers : gmap Z QueueWorker;
}.

Section History.
Context {R : Type} `{!RngCore R} {cron : Cron}.
Implicit Types w : World R.
Implicit Types sys : System.

(** A worker configured after its registration. *)
Definition configured (queues : list string) (ss : list ScheduleDefinition) (q : QueueWorker) :
    QueueWorker :=
  foldr register_handler (foldr add_schedule q ss) queues.

(** A worker after one of its transactions: an error stops it. *)
Definition after_run {E} (k : Z) (r : result E QueueWorker) (ws : gmap Z QueueWorker) :
    gmap Z QueueWorker :=
  match r with Ok q => <[k := q]> ws | Err _ => delete k ws end.

(** The events of a history: a successful turn of the worker [k] at the date
    [n] of the database, after which it leads or not, and which took jobs of
    [queues]; a shutdown; anything else. *)
Inductive event : Type :=
| Ticked (k : Z) (n : DateTime) (lead : bool) (queues : list string)
| Stopped (k : Z)
| Other.

Inductive sys_step sys : event → System → Prop :=
| step_start w q w' queues ss :
    w_committed w = sys_db sys → new w = (Ok q, w') →
    sys_step sys Other (mkSystem _ (w_committed w')
      (<[registration q := configured queues ss q]> (sys_workers sys)))
| step_start_fails w e w' :
    w_committed w = sys_db sys → new w = (Err e, w') →
    sys_step sys Other (mkSystem _ (w_committed w') (sys_workers sys))
| step_setup w k q r w' :
    w_committed w = sys_db sys → sys_workers sys !! k = Some q →
    setup_schedules q w = (r, w') →
    sys_step sys Other (mkSystem _ (w_committed w')
      (after_run k (try _ <- r; Ok q) (sys_workers sys)))
| step_tick w k q q' w' :
    w_committed w = sys_db sys → sys_workers sys !! k = Some q → tick q w = (Ok q', w') →
    sys_step sys (Ticked k (w_db_now w) (am_i_leader q') (JobTracker.queues (tracker q)))
      (mkSystem _ (w_committed w') (<[k := q']> (sys_workers sys)))
| step_tick_fails w k q e w' :
    w_committed w = sys_db sys → sys_workers sys !! k = Some q → tick q w = (Err e, w') →
    sys_step sys Other (mkSystem _ (w_committed w') (delete k (sys_workers sys)))
| step_duties w k q lock_free r w' :
    w_committed w = sys_db sys → sys_workers sys !! k = Some q → am_i_leader q = true →
    perform_leader_duties lock_free q w = (r, w') →
    sys_step sys Other (mkSystem _ (w_committed w')
      (after_run k (try _ <- r; Ok q) (sys_workers sys)))
| step_shutdown w k q outcome r w' :
    w_committed w = sys_db sys → sys_workers sys !! k = Some q →
    shutdown outcome q w = (r, w') →
    sys_step sys (Stopped k) (mkSystem _ (w_committed w') (delete k (sys_workers sys)))
| step_task_ends k q t r :
    sys_workers sys !! k = Some q →
    sys_step sys Other (mkSystem _ (sys_db sys)
      (<[k := with_tracker q (JobTracker.task_ends t r (tracker q))]> (sys_workers sys)))
| step_collect k q :
    sys_workers sys !! k = Some q →
    sys_step sys Other (mkSystem _ (sys_db sys)
      (<[k := with_tracker q (JobTracker.collect_next_job (tracker q))]> (sys_workers sys)))
| step_crash k :
    sys_step sys Other (mkSystem _ (sys_db sys) (delete k (sys_workers sys)))
| step_request d' :
    requested (sys_db sys) d' → sys_step sys Other (mkSystem _ d' (sys_workers sys)).

(** A clean-up of ended jobs, which a job of the queue runs in a transaction
    of its own. *)
Inductive cleanup_step sys : System → Prop :=
| step_cleanup since until limit w r w' :
    w_committed w = sys_db sys →
    (do! begin; do! database (QueueJobRepository.cleanup since until limit); commit) w = (r, w') →
    cleanup_step sys (mkSystem _ (w_committed w') (sys_workers sys)).

Definition any_step sys sys' : Prop := (∃ e, sys_step sys e sys') ∨ cleanup_step sys sys'.

(** A history without clean-up, with its events. *)
Inductive trace : System → list event → System → Prop :=
| trace_nil sys : trace sys [] sys
| trace_cons sys e sys1 es sys2 :
    sys_step sys e sys1 → trace sys1 es sys2 → trace sys (e :: es) sys2.

(** The states a deployment reaches from a database without workers. *)
Definition reachable sys : Prop :=
  ∃ d, jobs_ok d ∧ rtc any_step (mkSystem _ d ∅) sys.

Record system_ok sys : Prop := {
  sys_jobs : jobs_ok (sys_db sys);
  sys_tracked : ∀ k q, sys_workers sys !! k = Some q →
    registration q = k ∧ worker_ok q (sys_db sys);
}.

(** *** Each step keeps the invariant *)

(** The jobs another worker runs are not touched. *)
Lemma tracked_progress q q' d d' ctxs :
  tracked q d ctxs → progress q' d d' → q' ≠ Some q → tracked q d' ctxs.
Proof.
  intros [Hrun Honce] [Hp _] Hne. split; [|done]. intros t c Ht.
  destruct (Hrun t c Ht) as (r & Hr & Hs & Hq & Ha). destruct (Hp _ _ Hr) as (r' & Hr' & _ & Hd).
  exists r. split; [|done]. destruct Hd as [->|[?|[?|(_ & _ & Hq')]]]; [done|congruence..].
Qed.

Lemma worker_ok_progress q q' d d' :
  worker_ok q d → progress q' d d' → q' ≠ Some (registration q) → worker_ok q d'.
Proof.
  intros [H1 H2 H3] Hp Hne. split; [done|by eapply tracked_progress|by apply (progress_workers _ _ _ Hp)].
Qed.

(** A transaction of the worker [k], or of no worker. *)
Lemma step_ok k sys d' ws' :
  system_ok sys → jobs_ok d' → progress k (sys_db sys) d' →
  (∀ j q, ws' !! j = Some q → (sys_workers sys !! j = Some q ∧ k ≠ Some j) ∨
     (registration q = j ∧ worker_ok q d')) →
  system_ok (mkSystem _ d' ws').
Proof.
  intros [Hok Htr] Hok' Hp Hws. split; [done|]. intros j q Hj. simpl in *.
  destruct (Hws j q Hj) as [[Hj' Hk]|]; [|done]. destruct (Htr j q Hj') as [<- Hq].
  split; [done|]. by eapply worker_ok_progress.
Qed.

Lemma configured_ok queues ss q d : worker_ok q d → worker_ok (configured queues ss q) d.
Proof.
  intros Hq. unfold configured. induction queues as [|x queues IH]; simpl.
  - induction ss as [|s ss IH]; [done|]. by destruct IH.
  - destruct IH as [[H1 H2 H3] H4 H5]. split; [by split|done|done].
Qed.

Lemma configured_registration queues ss q :
  registration (configured queues ss q) = registration q.
Proof.
  unfold configured. induction queues as [|x queues IH]; simpl; [|done].
  by induction ss as [|s ss IH].
Qed.

Lemma task_ends_ok t r tr : tracker_ok tr → tracker_ok (JobTracker.task_ends t r tr).
Proof.
  intros [Hnd Hc Hu]. unfold JobTracker.task_ends. case_decide as Ht; [|done].
  set (tr' := JobTracker.mk _ _ _ _ _ _).
  assert (tasks tr' ≡ₚ tasks tr) as Hp.
  { unfold tasks, tr'. simpl. rewrite fmap_app. simpl.
    assert (NoDup (JobTracker.pending tr)) as Hn by (by apply NoDup_app in Hnd as [? _]).
    assert (JobTracker.pending tr ≡ₚ t :: filter (λ t', t' ≠ t) (JobTracker.pending tr)) as Hf.
    { apply NoDup_Permutation; [done| |].
      - constructor; [|by apply NoDup_filter]. intros [? _]%list_elem_of_filter. done.
      - intros x. rewrite elem_of_cons, list_elem_of_filter. destruct (decide (x = t)) as [->|]; naive_solver. }
    rewrite Hf at 2. solve_Permutation. }
  split; [by rewrite Hp|intros x; rewrite Hp; apply Hc|intros x; rewrite Hp; apply Hu].
Qed.

Lemma collect_ok tr : tracker_ok tr → tracker_ok (JobTracker.collect_next_job tr).
Proof.
  intros [Hnd Hc Hu]. unfold JobTracker.collect_next_job.
  destruct (JobTracker.last_join_result tr) as [|] eqn:Hl; [done|].
  destruct (JobTracker.finished tr) as [|x fs] eqn:Hf; [done|].
  set (tr' := JobTracker.mk _ _ _ _ _ _).
  assert (tasks tr' ≡ₚ tasks tr) as Hp.
  { unfold tasks, tr'. simpl. rewrite Hl, Hf. simpl. solve_Permutation. }
  split; [by rewrite Hp|intros t; rewrite Hp; apply Hc|intros t; rewrite Hp; apply Hu].
Qed.

Lemma requested_ok d d' : jobs_ok d → requested d d' → only_waiting d d'.
Proof.
  intros Hok ([Hw Hl] & _ & Hk). split; [|split|done].
  - intros k r Hr. destruct (Hk k) as [Heq|(_ & q & p & t & [Heq|[at_ Heq]])]; rewrite Heq in Hr.
    + by apply Hok.
    + injection Hr as <-. split; [done|apply available_row_wf].
    + injection Hr as <-. split; [done|]. apply scheduled_row_wf. unfold MAX_ATTEMPTS. lia.
  - intros k r Hr. exists r. destruct (Hk k) as [Heq|(Hn & _)]; [|congruence].
    split_and!; [congruence|reflexivity|by left].
  - intros k. by rewrite Hw.
Qed.
(** The effect of a step on the lease. *)
Definition lease_step (e : event) (d d' : Db) : Prop :=
  match e with
  | Ticked k n lead _ => ∃ t, lease_after k n t (lease_left n (queue_leader d))
                              = (lead, queue_leader d')
  | Stopped k => queue_leader d' = queue_leader d ∨
                 queue_leader d' = lease_given_up k (queue_leader d)
  | Other => queue_leader d' = queue_leader d
  end.

(** What a step that is not a clean-up does: the invariant holds, the jobs
    move forward, and only those of the worker that made the step, or that
    wait, are written. *)
Definition step_effect sys (e : event) sys' : Prop :=
  system_ok sys' ∧ lease_step e (sys_db sys) (sys_db sys') ∧
  ∃ k, progress k (sys_db sys) (sys_db sys') ∧
    ∀ j, k = Some j → is_Some (sys_workers sys !! j).

(** A run that commits nothing, or only adds waiting jobs. *)
Lemma waiting_effect k sys d' ws' :
  system_ok sys → only_waiting (sys_db sys) d' ∨ d' = sys_db sys →
  (ws' = sys_workers sys ∨ ws' = delete k (sys_workers sys)) →
  step_effect sys Other (mkSystem _ d' ws').
Proof.
  intros Hsys Hd Hws. pose proof (sys_jobs _ Hsys) as Hok.
  assert (jobs_ok d' ∧ progress None (sys_db sys) d' ∧ queue_leader d' = queue_leader (sys_db sys))
    as (Hok' & Hp & Hl) by (destruct Hd as [[? ? ?]| ->]; split_and!; done || reflexivity).
  split; [|split; [done|by exists None]]. eapply (step_ok None sys); [done..|].
  intros j q Hj. left. split; [|done].
  destruct Hws as [-> | ->]; [done|]. by apply lookup_delete_Some in Hj as [_ Hj].
Qed.

(** A worker alone moves, by a task that ends. *)
Lemma tracker_effect k q tr sys :
  system_ok sys → sys_workers sys !! k = Some q → tracker_ok tr →
  JobTracker.job_contexts tr = JobTracker.job_contexts (tracker q) →
  step_effect sys Other (mkSystem _ (sys_db sys) (<[k := with_tracker q tr]> (sys_workers sys))).
Proof.
  intros Hsys Hk Htr Hc. split; [|split; [done|by exists None; split; [reflexivity|]]].
  apply (step_ok None sys); [done|apply Hsys|reflexivity|].
  intros j q' [[<- <-]|[Hne Hj]]%lookup_insert_Some; [right|by left].
  destruct (sys_tracked _ Hsys k q Hk) as [Hreg [H1 H2 H3]]. split; [done|]. split; [done| |done].
  simpl. by rewrite Hc.
Qed.

(** A run of the worker [k]. *)
Lemma run_effect k e sys d' ws' :
  system_ok sys → is_Some (sys_workers sys !! k) → jobs_ok d' → progress (Some k) (sys_db sys) d' →
  lease_step e (sys_db sys) d' →
  (∀ j q, ws' !! j = Some q → (sys_workers sys !! j = Some q ∧ k ≠ j) ∨
     (registration q = j ∧ worker_ok q d')) →
  step_effect sys e (mkSystem _ d' ws').
Proof.
  intros Hsys Hk Hok' Hp Hl Hws. split; [|split; [done|]].
  - eapply (step_ok (Some k) sys); [done..|]. intros j q Hj.
    destruct (Hws j q Hj) as [[? ?]|]; [left; split; [done|congruence]|by right].
  - exists (Some k). split; [done|]. by intros j [= <-].
Qed.

Lemma sys_step_effect sys e sys' :
  system_ok sys → sys_step sys e sys' → step_effect sys e sys'.
Proof.
  intros Hsys Hstep. pose proof (sys_jobs _ Hsys) as Hok.
  destruct Hstep as [w q w' queues ss Hc Hrun|w e w' Hc Hrun|w k q r w' Hc Hk Hrun
    |w k q q' w' Hc Hk Hrun|w k q e w' Hc Hk Hrun|w k q lf r w' Hc Hk Hl Hrun
    |w k q out r w' Hc Hk Hrun|k q t r Hk|k q Hk|k|d' Hreq].
  - pose proof (new_commits (R := R) _ (w_db_now w) Hok w Hc eq_refl I) as H. rewrite Hrun in H.
    destruct H as (Hn & Hq & [Hok' Hp Hl] & _). split; [|split; [done|by exists None]].
    apply (step_ok None sys); [done..|]. intros j q' [[<- <-]|[Hne Hj]]%lookup_insert_Some; [|by left].
    right. rewrite configured_registration. split; [done|by apply configured_ok].
  - pose proof (new_commits (R := R) _ (w_db_now w) Hok w Hc eq_refl I) as H. rewrite Hrun in H.
    apply (waiting_effect 0); [done|right; by destruct H|by left].
  - pose proof (setup_commits (R := R) _ (w_db_now w) q Hok w Hc eq_refl I) as H. rewrite Hrun in H.
    apply (waiting_effect k); [done|destruct r as [[]|]; [by left|right; by destruct H]|].
    destruct r; simpl; [left; by apply insert_id|by right].
  - destruct (sys_tracked _ Hsys k q Hk) as [Hreg Hq].
    pose proof (tick_commits (R := R) _ (w_db_now w) q Hok Hq w Hc eq_refl I) as H. rewrite Hrun in H.
    destruct H as (Hreg' & Hq' & Hok' & Hp & _ & Hl). rewrite Hreg in *.
    apply (run_effect k); [done|by eexists|done..|].
    intros j q'' [[<- <-]|[Hne Hj]]%lookup_insert_Some; [by right|by left].
  - destruct (sys_tracked _ Hsys k q Hk) as [Hreg Hq].
    pose proof (tick_commits (R := R) _ (w_db_now w) q Hok Hq w Hc eq_refl I) as H. rewrite Hrun in H.
    apply (waiting_effect k); [done|right; by destruct H|by right].
  - pose proof (duties_commits (R := R) _ (w_db_now w) lf q Hok w Hc eq_refl I) as H. rewrite Hrun in H.
    apply (waiting_effect k); [done|destruct r as [[]|]; [by left|right; by destruct H]|].
    destruct r; simpl; [left; by apply insert_id|by right].
  - destruct (sys_tracked _ Hsys k q Hk) as [Hreg Hq].
    pose proof (shutdown_commits (R := R) _ (w_db_now w) out q Hok Hq w Hc eq_refl I) as H.
    rewrite Hrun, Hreg in H.
    assert (jobs_ok (w_committed w') ∧ progress (Some k) (sys_db sys) (w_committed w') ∧
      lease_step (Stopped k) (sys_db sys) (w_committed w')) as (Hok' & Hp & Hl).
    { destruct r as [[]|e]; [destruct H as (? & ? & ?); split_and!; [done..|by right]|].
      destruct H as [-> _]. split_and!; [done|reflexivity|by left]. }
    apply (run_effect k); [done|by eexists|done..|].
    intros j q'' [Hne Hj]%lookup_delete_Some. by left.
  - apply tracker_effect; [done..|by apply task_ends_ok, (sys_tracked _ Hsys k q Hk)|].
    unfold JobTracker.task_ends. by case_decide.
  - apply tracker_effect; [done..|by apply collect_ok, (sys_tracked _ Hsys k q Hk)|].
    unfold JobTracker.collect_next_job. by repeat case_match.
  - apply (waiting_effect k); [done|by right|by right].
  - apply (waiting_effect 0); [done|left; by apply requested_ok|by left].
Qed.

(** What a turn takes. *)
Lemma tick_takes sys k n lead qs sys' :
  system_ok sys → sys_step sys (Ticked k n lead qs) sys' →
  takes k qs (sys_db sys) (sys_db sys').
Proof.
  intros Hsys Hstep. inversion Hstep as [| | |w k0 q q' w' Hc Hk Hrun| | | | | | |]; subst.
  destruct (sys_tracked _ Hsys k q Hk) as [Hreg Hq].
  pose proof (tick_commits (R := R) _ (w_db_now w) q (sys_jobs _ Hsys) Hq w Hc eq_refl I) as H.
  rewrite Hrun in H. destruct H as (_ & _ & _ & _ & Htk & _). by rewrite Hreg in Htk.
Qed.

(** A worker that is gone does not come back. *)
Lemma dead_step sys e sys' k :
  system_ok sys → sys_step sys e sys' → sys_workers sys !! k = None →
  is_Some (queue_workers (sys_db sys) !! k) → sys_workers sys' !! k = None.
Proof.
  intros Hsys Hstep Hk [wr Hwr].
  destruct Hstep as [w q w' queues ss Hc Hrun|w e w' Hc Hrun|w k' q r w' Hc Hk' Hrun
    |w k' q q' w' Hc Hk' Hrun|w k' q e w' Hc Hk' Hrun|w k' q lf r w' Hc Hk' Hl Hrun
    |w k' q out r w' Hc Hk' Hrun|k' q t r Hk'|k' q Hk'|k'|d' Hreq]; simpl in *;
    try (destruct r as [[]|]; simpl);
    rewrite ?lookup_delete_None, ?lookup_insert_ne by congruence; auto.
  pose proof (new_commits (R := R) _ (w_db_now w) (sys_jobs _ Hsys) w Hc eq_refl I) as H.
  rewrite Hrun in H. destruct H as (Hn & _). rewrite lookup_insert_ne; congruence.
Qed.

(** A clean-up only deletes jobs that ended. *)
Lemma cleanup_step_db sys sys' :
  system_ok sys → cleanup_step sys sys' →
  system_ok sys' ∧ sys_workers sys' = sys_workers sys ∧
  queue_workers (sys_db sys') = queue_workers (sys_db sys) ∧
  (∀ k r, queue_jobs (sys_db sys) !! k = Some r → ¬ ended r →
     queue_jobs (sys_db sys') !! k = Some r).
Proof.
  intros [Hok Htr] [since until limit w r w' Hc Hrun]. simpl. set (d := sys_db sys) in *.
  assert (commits (R := R) d (w_db_now w) (λ _, True)
    (do! begin; do! database (QueueJobRepository.cleanup since until limit); commit)
    (λ _ d', ∃ ids, deleted ids d d') (λ _, True)) as H.
  { apply commits_begin; [done|]. eapply commits_step_err; [by apply cleanup_triple|done|done|].
    intros ?. by apply commits_save. }
  specialize (H w Hc eq_refl I). rewrite Hrun in H. destruct r as [[]|e].
  - destruct H as [ids Hdel].
    split_and!; [|done|exact (proj1 (deleted_workers _ _ _ Hdel))|intros k r; by eapply deleted_keeps].
    split; [by eapply deleted_ok|]. intros k q Hk. destruct (Htr k q Hk) as [Hreg [H1 H2 H3]].
    split; [done|]. split; [done| |simpl; by rewrite (proj1 (deleted_workers _ _ _ Hdel))].
    destruct H2 as [Hrun2 Honce]. split; [|done]. intros t ctx Ht.
    destruct (Hrun2 t ctx Ht) as (r & Hr & Hs & Hrest). exists r. split; [|done].
    apply (deleted_keeps ids d); [done..|]. unfold ended. rewrite Hs. naive_solver.
  - destruct H as [-> _]. done.
Qed.

Lemma reachable_ok sys : reachable sys → system_ok sys.
Proof.
  intros (d & Hd & Hrtc). assert (system_ok (mkSystem _ d ∅)) as H0
    by (split; [done|intros k q; simpl; by rewrite lookup_empty]).
  induction Hrtc as [|x y z [[e Hxy]|Hxy] _ IH]; [done| |]; apply IH;
    [by destruct (sys_step_effect _ _ _ H0 Hxy)|by destruct (cleanup_step_db _ _ H0 Hxy)].
Qed.

Lemma trace_ok sys es sys' : system_ok sys → trace sys es sys' → system_ok sys'.
Proof.
  intros Hsys Htr. induction Htr as [|sys e sys1 es sys2 Hs _ IH]; [done|].
  apply IH. by destruct (sys_step_effect _ _ _ Hsys Hs).
Qed.
End History.
