(* ===== verification/TokenRepo.v ===== *)
(** * Token and session repositories

    crates/storage-pg/src/oauth2/access_token.rs, refresh_token.rs and
    session.rs: the operations on the tables [oauth2_access_tokens],
    [oauth2_refresh_tokens] and [oauth2_sessions]. *)

From stdpp Require Import base tactics list strings gmap.
From Stdlib Require Import ZArith Lia Ascii.
From S2P Require Import Prelude Text Scope Externals Formats TokenFormat DataModel Storage.

(** ** Access tokens (access_token.rs) *)
Module AccessTokenRepository.
Import OAuth2AccessTokenLookup.

(** [From<OAuth2AccessTokenLookup> for AccessToken]. *)
Definition of_row (r : OAuth2AccessTokenLookup.t) : AccessToken.t :=
  AccessToken.mk (oauth2_access_token_id r)
    (match revoked_at r with
     | None => AccessTokenState.Valid
     | Some revoked_at => AccessTokenState.Revoked revoked_at
     end)
    (oauth2_session_id r) (access_token r) (created_at r) (expires_at r) (first_used_at r).

Definition with_revoked_at (v : DateTime) (r : OAuth2AccessTokenLookup.t) :=
  OAuth2AccessTokenLookup.mk (oauth2_access_token_id r) (oauth2_session_id r)
    (access_token r) (created_at r) (expires_at r) (Some v) (first_used_at r).

Definition with_first_used_at (v : DateTime) (r : OAuth2AccessTokenLookup.t) :=
  OAuth2AccessTokenLookup.mk (oauth2_access_token_id r) (oauth2_session_id r)
    (access_token r) (created_at r) (expires_at r) (revoked_at r) (Some v).

Section Ops.
Context {R : Type} `{!RngCore R}.
Abbreviation Repo := (M (World R) DatabaseError) (only parsing).

Definition lookup (id : Ulid) : Repo (option AccessToken.t) :=
  do res <- select (λ d, rows (Row := OAuth2AccessTokenLookup.t) d !! id);
  ret (of_row <$> res).

Definition find_by_token (access_token' : string) : Repo (option AccessToken.t) :=
  do res <- select (find_row (λ r, bool_decide (access_token r = access_token')));
  ret (of_row <$> res).

Definition add (session : Session.t) (access_token' : string)
    (expires_after : option Duration) : Repo AccessToken.t :=
  do created <- now;
  let expires := (λ d, created + d)%Z <$> expires_after in
  do id <- with_rng (from_datetime_with_rng created);
  do! execute (insert_stmt id
    (OAuth2AccessTokenLookup.mk id (Session.id session) access_token' created expires None None)
    (λ d, exists_row (Row := OAuthSessionLookup.t) (Session.id session) d
          && unique_value (λ r, Some (access_token r)) access_token' d));
  ret (AccessToken.mk id AccessTokenState.Valid (Session.id session) access_token'
         created expires None).

Definition revoke (a : AccessToken.t) : Repo AccessToken.t :=
  do revoked <- now;
  do res <- execute (update_stmt (AccessToken.id a) (with_revoked_at revoked) (λ _, true));
  do! lift (ensure_affected_rows res 1);
  lift (map_err to_invalid_operation (AccessToken.revoke a revoked)).

Definition mark_used (a : AccessToken.t) : Repo AccessToken.t :=
  do used <- now;
  do res <- execute (update_stmt (AccessToken.id a) (with_first_used_at used) (λ _, true));
  do! lift (ensure_affected_rows res 1);
  ret (AccessToken.with_first_used_at a (Some used)).
End Ops.
End AccessTokenRepository.

(** ** Refresh tokens (refresh_token.rs) *)
Module RefreshTokenRepository.
Import OAuth2RefreshTokenLookup.

(** [TryFrom<OAuth2RefreshTokenLookup> for RefreshToken]. *)
Definition try_from (r : OAuth2RefreshTokenLookup.t) :
    result DatabaseInconsistencyError RefreshToken.t :=
  let id := oauth2_refresh_token_id r in
  try state <-
    match revoked_at r, consumed_at r, next_oauth2_refresh_token_id r with
    | None, None, None => Ok RefreshTokenState.Valid
    | Some revoked_at, None, None => Ok (RefreshTokenState.Revoked revoked_at)
    | None, Some consumed_at, None => Ok (RefreshTokenState.Consumed consumed_at None)
    | None, Some consumed_at, Some next =>
        Ok (RefreshTokenState.Consumed consumed_at (Some next))
    | _, _, _ =>
        Err (on "oauth2_refresh_tokens" (Some "next_oauth2_refresh_token_id") (Some id))
    end;
  Ok (RefreshToken.mk id state (refresh_token r) (oauth2_session_id r) (created_at r)
        (oauth2_access_token_id r)).

Definition with_consumed (at_ : DateTime) (next : Ulid) (r : OAuth2RefreshTokenLookup.t) :=
  OAuth2RefreshTokenLookup.mk (oauth2_refresh_token_id r) (refresh_token r) (created_at r)
    (Some at_) (revoked_at r) (oauth2_access_token_id r) (oauth2_session_id r) (Some next).

Definition with_revoked_at (at_ : DateTime) (r : OAuth2RefreshTokenLookup.t) :=
  OAuth2RefreshTokenLookup.mk (oauth2_refresh_token_id r) (refresh_token r) (created_at r)
    (consumed_at r) (Some at_) (oauth2_access_token_id r) (oauth2_session_id r)
    (next_oauth2_refresh_token_id r).

Section Ops.
Context {R : Type} `{!RngCore R}.
Abbreviation Repo := (M (World R) DatabaseError) (only parsing).

Definition lookup (id : Ulid) : Repo (option RefreshToken.t) :=
  do res <- select (λ d, rows (Row := OAuth2RefreshTokenLookup.t) d !! id);
  decode_row try_from res.

Definition find_by_token (refresh_token' : string) : Repo (option RefreshToken.t) :=
  do res <- select (find_row (λ r, bool_decide (refresh_token r = refresh_token')));
  decode_row try_from res.

Definition add (session : Session.t) (a : AccessToken.t) (refresh_token' : string) :
    Repo RefreshToken.t :=
  do created <- now;
  do id <- with_rng (from_datetime_with_rng created);
  do! execute (insert_stmt id
    (OAuth2RefreshTokenLookup.mk id refresh_token' created None None
       (Some (AccessToken.id a)) (Session.id session) None)
    (λ d, exists_row (Row := OAuthSessionLookup.t) (Session.id session) d
          && exists_row (Row := OAuth2AccessTokenLookup.t) (AccessToken.id a) d
          && unique_value (λ r, Some (refresh_token r)) refresh_token' d));
  ret (RefreshToken.mk id RefreshTokenState.Valid refresh_token' (Session.id session)
         created (Some (AccessToken.id a))).

Definition consume (r : RefreshToken.t) (replaced_by : RefreshToken.t) :
    Repo RefreshToken.t :=
  do consumed <- now;
  do res <- execute (update_stmt (RefreshToken.id r)
    (with_consumed consumed (RefreshToken.id replaced_by))
    (exists_row (Row := OAuth2RefreshTokenLookup.t) (RefreshToken.id replaced_by)));
  do! lift (ensure_affected_rows res 1);
  lift (map_err to_invalid_operation (RefreshToken.consume r consumed replaced_by)).

Definition revoke (r : RefreshToken.t) : Repo RefreshToken.t :=
  do revoked <- now;
  do res <- execute (update_stmt (RefreshToken.id r) (with_revoked_at revoked) (λ _, true));
  do! lift (ensure_affected_rows res 1);
  lift (map_err to_invalid_operation (RefreshToken.revoke r revoked)).
End Ops.
End RefreshTokenRepository.

(** ** OAuth 2.0 sessions (session.rs) *)

Inductive OAuth2SessionState : Type := Active | FinishedSession.
Inductive ClientKind : Type := Static | Dynamic.

(** [BrowserSessionFilter] (storage/src/user/session.rs); the subquery on the
    upstream sessions is the set of browser sessions it selects. *)
Module BrowserSessionFilter.
Record t := mk {
  user : option User.t;
  state : option OAuth2SessionState;
  last_active_after : option DateTime;
  last_active_before : option DateTime;
  created_after : option DateTime;
  created_before : option DateTime;
  linked_to_upstream_sessions : option (gset Z);
}.

Definition new : t := mk None None None None None None None.
Definition for_user (u : User.t) (f : t) : t :=
  mk (Some u) (state f) (last_active_after f) (last_active_before f) (created_after f)
    (created_before f) (linked_to_upstream_sessions f).
Definition with_last_active_before (x : DateTime) (f : t) : t :=
  mk (user f) (state f) (last_active_after f) (Some x) (created_after f) (created_before f)
    (linked_to_upstream_sessions f).
Definition active_only (f : t) : t :=
  mk (user f) (Some Active) (last_active_after f) (last_active_before f) (created_after f)
    (created_before f) (linked_to_upstream_sessions f).

(** [add_option]: an absent filter holds of every row; a comparison with
    [NULL] holds of none. *)
Definition add_option {A} (o : option A) (p : A → bool) : bool :=
  match o with None => true | Some a => p a end.
Definition col_cond (col : option Z) (p : Z → bool) : bool :=
  match col with None => false | Some v => p v end.

Definition generate_condition (f : t) (r : UserSessionRow.t) : bool :=
  add_option (user f) (λ u, bool_decide (UserSessionRow.user_id r = User.id u))
  && add_option (state f) (λ s,
       match s, UserSessionRow.finished_at r with
       | Active, None | FinishedSession, Some _ => true
       | _, _ => false
       end)
  && add_option (last_active_after f) (λ t,
       col_cond (UserSessionRow.last_active_at r) (λ v, t <? v)%Z)
  && add_option (last_active_before f) (λ t,
       col_cond (UserSessionRow.last_active_at r) (λ v, v <? t)%Z)
  && add_option (created_after f) (λ t, max_ulid_at t <? UserSessionRow.user_session_id r)%Z
  && add_option (created_before f) (λ t, UserSessionRow.user_session_id r <? min_ulid_at t)%Z
  && add_option (linked_to_upstream_sessions f) (λ s,
       bool_decide (UserSessionRow.user_session_id r ∈ s)).
End BrowserSessionFilter.

Module OAuth2SessionFilter.
Import BrowserSessionFilter(add_option, col_cond).
Record t := mk {
  user : option User.t;
  any_user : option bool;
  browser_session : option BrowserSession.t;
  browser_session_filter : option BrowserSessionFilter.t;
  device : option Device.Device;
  client : option Client.t;
  clients : option (list Client.t);
  client_kind : option ClientKind;
  state : option OAuth2SessionState;
  scope : option Scope;
  scope_any : option (string * list string);
  last_active_before : option DateTime;
  last_active_after : option DateTime;
  created_before : option DateTime;
  created_after : option DateTime;
}.

Definition new : t :=
  mk None None None None None None None None None None None None None None None.

Definition for_browser_session (b : BrowserSession.t) (f : t) : t :=
  mk (user f) (any_user f) (Some b) (browser_session_filter f) (device f) (client f)
    (clients f) (client_kind f) (state f) (scope f) (scope_any f) (last_active_before f)
    (last_active_after f) (created_before f) (created_after f).

Definition active_only (f : t) : t :=
  mk (user f) (any_user f) (browser_session f) (browser_session_filter f) (device f)
    (client f) (clients f) (client_kind f) (Some Active) (scope f) (scope_any f)
    (last_active_before f) (last_active_after f) (created_before f) (created_after f).

Definition for_user (u : User.t) (f : t) : t :=
  mk (Some u) (any_user f) (browser_session f) (browser_session_filter f) (device f) (client f)
    (clients f) (client_kind f) (state f) (scope f) (scope_any f) (last_active_before f)
    (last_active_after f) (created_before f) (created_after f).

Definition for_any_user (f : t) : t :=
  mk (user f) (Some true) (browser_session f) (browser_session_filter f) (device f) (client f)
    (clients f) (client_kind f) (state f) (scope f) (scope_any f) (last_active_before f)
    (last_active_after f) (created_before f) (created_after f).

Definition only_dynamic_clients (f : t) : t :=
  mk (user f) (any_user f) (browser_session f) (browser_session_filter f) (device f) (client f)
    (clients f) (Some Dynamic) (state f) (scope f) (scope_any f) (last_active_before f)
    (last_active_after f) (created_before f) (created_after f).

(** The scopes are given as the first and the others: the query panics on none
    ("scope_any should have at least one scope"), and no caller gives none. *)
Definition with_scope_containing_any (x : string * list string) (f : t) : t :=
  mk (user f) (any_user f) (browser_session f) (browser_session_filter f) (device f) (client f)
    (clients f) (client_kind f) (state f) (scope f) (Some x) (last_active_before f)
    (last_active_after f) (created_before f) (created_after f).

Definition for_device (x : Device.Device) (f : t) : t :=
  mk (user f) (any_user f) (browser_session f) (browser_session_filter f) (Some x) (client f)
    (clients f) (client_kind f) (state f) (scope f) (scope_any f) (last_active_before f)
    (last_active_after f) (created_before f) (created_after f).

Definition finished_only (f : t) : t :=
  mk (user f) (any_user f) (browser_session f) (browser_session_filter f) (device f) (client f)
    (clients f) (client_kind f) (Some FinishedSession) (scope f) (scope_any f)
    (last_active_before f) (last_active_after f) (created_before f) (created_after f).

Definition with_last_active_before (x : DateTime) (f : t) : t :=
  mk (user f) (any_user f) (browser_session f) (browser_session_filter f) (device f) (client f)
    (clients f) (client_kind f) (state f) (scope f) (scope_any f) (Some x) (last_active_after f)
    (created_before f) (created_after f).

Definition with_last_active_after (x : DateTime) (f : t) : t :=
  mk (user f) (any_user f) (browser_session f) (browser_session_filter f) (device f) (client f)
    (clients f) (client_kind f) (state f) (scope f) (scope_any f) (last_active_before f)
    (Some x) (created_before f) (created_after f).

Definition with_created_before (x : DateTime) (f : t) : t :=
  mk (user f) (any_user f) (browser_session f) (browser_session_filter f) (device f) (client f)
    (clients f) (client_kind f) (state f) (scope f) (scope_any f) (last_active_before f)
    (last_active_after f) (Some x) (created_after f).

Definition with_created_after (x : DateTime) (f : t) : t :=
  mk (user f) (any_user f) (browser_session f) (browser_session_filter f) (device f) (client f)
    (clients f) (client_kind f) (state f) (scope f) (scope_any f) (last_active_before f)
    (last_active_after f) (created_before f) (Some x).

(** The [WHERE] clause on a row of [oauth2_sessions]; the subqueries read the
    clients and the browser sessions. *)
Definition generate_condition (f : t) (d : Db) (r : OAuthSessionLookup.t) : bool :=
  add_option (user f) (λ u, bool_decide (OAuthSessionLookup.user_id r = Some (User.id u)))
  && add_option (client f) (λ c,
       bool_decide (OAuthSessionLookup.oauth2_client_id r = Client.id c))
  && add_option (clients f) (λ cs,
       bool_decide (OAuthSessionLookup.oauth2_client_id r ∈ Client.id <$> cs))
  && add_option (client_kind f) (λ k,
       let is_static :=
         match oauth2_clients d !! OAuthSessionLookup.oauth2_client_id r with
         | Some c => OAuth2ClientLookup.is_static c
         | None => false
         end in
       match k with Static => is_static | Dynamic => negb is_static end)
  && add_option (device f) (λ dev,
       match Device.to_scope_token dev with
       | Ok (stable_scope_token, unstable_scope_token) =>
           bool_decide (stable_scope_token ∈ OAuthSessionLookup.scope_list r)
           || bool_decide (unstable_scope_token ∈ OAuthSessionLookup.scope_list r)
       | Err _ => false
       end)
  && add_option (browser_session f) (λ b,
       bool_decide (OAuthSessionLookup.user_session_id r = Some (BrowserSession.id b)))
  && add_option (browser_session_filter f) (λ bf,
       col_cond (OAuthSessionLookup.user_session_id r) (λ us,
         match user_sessions d !! us with
         | Some row => BrowserSessionFilter.generate_condition bf row
         | None => false
         end))
  && add_option (state f) (λ s,
       match s, OAuthSessionLookup.finished_at r with
       | Active, None | FinishedSession, Some _ => true
       | _, _ => false
       end)
  && add_option (scope f) (λ s,
       forallb (λ t, bool_decide (t ∈ OAuthSessionLookup.scope_list r)) s)
  && add_option (scope_any f) (λ ts,
       existsb (λ t, bool_decide (t ∈ OAuthSessionLookup.scope_list r)) (ts.1 :: ts.2))
  && add_option (any_user f) (λ any,
       match OAuthSessionLookup.user_id r with Some _ => any | None => negb any end)
  && add_option (last_active_after f) (λ t,
       col_cond (OAuthSessionLookup.last_active_at r) (λ v, t <? v)%Z)
  && add_option (last_active_before f) (λ t,
       col_cond (OAuthSessionLookup.last_active_at r) (λ v, v <? t)%Z)
  && add_option (created_after f) (λ t,
       max_ulid_at t <? OAuthSessionLookup.oauth2_session_id r)%Z
  && add_option (created_before f) (λ t,
       OAuthSessionLookup.oauth2_session_id r <? min_ulid_at t)%Z.
End OAuth2SessionFilter.

Module SessionRepository.
Import OAuthSessionLookup.

(** [TryFrom<OAuthSessionLookup> for Session]. *)
Definition try_from (r : OAuthSessionLookup.t) :
    result DatabaseInconsistencyError Session.t :=
  let id := oauth2_session_id r in
  try tokens <- map_err (λ _, on "oauth2_sessions" (Some "scope") (Some id))
                 (collect ScopeToken_from_str (scope_list r));
  let scope := Scope_from_iter tokens in
  let state := match finished_at r with
               | None => SessionState.Valid
               | Some finished_at => SessionState.Finished finished_at
               end in
  Ok (Session.mk id state (created_at r) (user_id r) (user_session_id r)
        (oauth2_client_id r) scope (user_agent r) (last_active_at r) (last_active_ip r)
        (human_name r)).

Definition with_finished_at (at_ : DateTime) (r : OAuthSessionLookup.t) :=
  OAuthSessionLookup.mk (oauth2_session_id r) (user_id r) (user_session_id r)
    (oauth2_client_id r) (scope_list r) (created_at r) (Some at_) (user_agent r)
    (last_active_at r) (last_active_ip r) (human_name r).

Definition with_user_agent (ua : string) (r : OAuthSessionLookup.t) :=
  OAuthSessionLookup.mk (oauth2_session_id r) (user_id r) (user_session_id r)
    (oauth2_client_id r) (scope_list r) (created_at r) (finished_at r) (Some ua)
    (last_active_at r) (last_active_ip r) (human_name r).

Definition with_human_name (n : option string) (r : OAuthSessionLookup.t) :=
  OAuthSessionLookup.mk (oauth2_session_id r) (user_id r) (user_session_id r)
    (oauth2_client_id r) (scope_list r) (created_at r) (finished_at r) (user_agent r)
    (last_active_at r) (last_active_ip r) n.

Section Ops.
Context {R : Type} `{!RngCore R}.
Abbreviation Repo := (M (World R) DatabaseError) (only parsing).

Definition lookup (id : Ulid) : Repo (option Session.t) :=
  do res <- select (λ d, rows (Row := OAuthSessionLookup.t) d !! id);
  decode_row try_from res.

Definition add (client : Client.t) (user : option User.t)
    (user_session : option BrowserSession.t) (scope : Scope) : Repo Session.t :=
  do created <- now;
  do id <- with_rng (from_datetime_with_rng created);
  let scope_list := scope in
  let user_id := User.id <$> user in
  let user_session_id := BrowserSession.id <$> user_session in
  do! execute (insert_stmt id
    (OAuthSessionLookup.mk id user_id user_session_id (Client.id client) scope_list created
       None None None None None)
    (λ d, exists_row_opt (Row := UserLookup.t) user_id d
          && exists_row_opt (Row := UserSessionRow.t) user_session_id d
          && exists_row (Row := OAuth2ClientLookup.t) (Client.id client) d));
  ret (Session.mk id SessionState.Valid created user_id user_session_id
         (Client.id client) scope None None None None).

Definition add_from_browser_session (client : Client.t) (user_session : BrowserSession.t)
    (scope : Scope) : Repo Session.t :=
  add client (Some (BrowserSession.user user_session)) (Some user_session) scope.

Definition add_from_client_credentials (client : Client.t) (scope : Scope) : Repo Session.t :=
  add client None None scope.

Definition finish_bulk (filter : OAuth2SessionFilter.t) : Repo nat :=
  do finished <- now;
  execute (λ d, update_where_stmt (OAuth2SessionFilter.generate_condition filter d)
                  (with_finished_at finished) d).

Definition finish (session : Session.t) : Repo Session.t :=
  do finished <- now;
  do res <- execute (update_stmt (Session.id session) (with_finished_at finished)
                       (λ _, true));
  do! lift (ensure_affected_rows res 1);
  lift (map_err to_invalid_operation (Session.finish session finished)).

Definition record_user_agent (session : Session.t) (user_agent' : string) :
    Repo Session.t :=
  do res <- execute (update_stmt (Session.id session) (with_user_agent user_agent')
                       (λ _, true));
  do! lift (ensure_affected_rows res 1);
  ret (Session.with_user_agent session (Some user_agent')).

Definition set_human_name (session : Session.t) (human_name' : option string) :
    Repo Session.t :=
  do res <- execute (update_stmt (Session.id session) (with_human_name human_name')
                       (λ _, true));
  do! lift (ensure_affected_rows res 1);
  ret (Session.with_human_name session human_name').
End Ops.
End SessionRepository.
