(* ===== verification/GrantRepo.v ===== *)
(** * Grant repositories

    crates/storage-pg/src/oauth2/authorization_grant.rs and
    device_code_grant.rs. *)

From stdpp Require Import base tactics list strings gmap.
From Stdlib Require Import ZArith Lia Ascii.
From S2P Require Import Prelude Text Scope Externals Formats TokenFormat DataModel Storage.

(** [Display] and [FromStr] of [ResponseMode]. *)
Definition ResponseMode_to_string (m : ResponseMode) : string :=
  match m with
  | Query => "query"
  | Fragment => "fragment"
  | FormPost => "form_post"
  | UnknownResponseMode s => s
  end.

Definition ResponseMode_from_str (s : string) : ResponseMode :=
  if decide (s = "query") then Query
  else if decide (s = "fragment") then Fragment
  else if decide (s = "form_post") then FormPost
  else UnknownResponseMode s.

(** [Display] of [PkceCodeChallengeMethod]. *)
Definition challenge_method_to_string (m : PkceCodeChallengeMethod) : string :=
  match m with
  | Plain => "plain"
  | S256 => "S256"
  | UnknownMethod value => value
  end.

(** ** Authorization grants *)
Module AuthorizationGrantRepository.
Import GrantLookup.

Section Ops.
Context {R : Type} `{!RngCore R, !UrlLib}.
Abbreviation Repo := (M (World R) DatabaseError) (only parsing).

Definition inconsistent {A} (col : string) (id : Ulid) :
    result DatabaseInconsistencyError A :=
  Err (on "oauth2_authorization_grants" (Some col) (Some id)).

(** The [stage] of [TryFrom<GrantLookup> for AuthorizationGrant]. *)
Definition stage_of (r : GrantLookup.t) :
    result DatabaseInconsistencyError AuthorizationGrantStage.t :=
  match fulfilled_at r, exchanged_at r, cancelled_at r, user_session_id r,
        oauth2_session_id r with
  | None, None, None, None, None => Ok AuthorizationGrantStage.Pending
  | Some fulfilled_at, None, None, Some browser_session_id, None =>
      Ok (AuthorizationGrantStage.Fulfilled browser_session_id fulfilled_at)
  | Some fulfilled_at, None, None, None, Some _ =>
      Ok (AuthorizationGrantStage.Cancelled fulfilled_at)
  | Some fulfilled_at, Some exchanged_at, None, _, Some session_id =>
      Ok (AuthorizationGrantStage.Exchanged session_id fulfilled_at exchanged_at)
  | None, None, Some cancelled_at, None, None =>
      Ok (AuthorizationGrantStage.Cancelled cancelled_at)
  | _, _, _, _, _ => inconsistent "stage" (oauth2_authorization_grant_id r)
  end.

Definition pkce_of (r : GrantLookup.t) : result DatabaseInconsistencyError (option Pkce) :=
  match code_challenge r, code_challenge_method r with
  | Some challenge, Some challenge_method =>
      if decide (challenge_method = "plain") then Ok (Some (mkPkce Plain challenge))
      else if decide (challenge_method = "S256") then Ok (Some (mkPkce S256 challenge))
      else inconsistent "code_challenge_method" (oauth2_authorization_grant_id r)
  | None, None => Ok None
  | _, _ => inconsistent "code_challenge_method" (oauth2_authorization_grant_id r)
  end.

Definition code_of (r : GrantLookup.t) (pkce : option Pkce) :
    result DatabaseInconsistencyError (option AuthorizationCode.t) :=
  match response_type_code r, authorization_code r, pkce with
  | false, None, None => Ok None
  | true, Some code, pkce => Ok (Some (AuthorizationCode.mk code pkce))
  | _, _, _ => inconsistent "authorization_code" (oauth2_authorization_grant_id r)
  end.

Definition try_from (r : GrantLookup.t) :
    result DatabaseInconsistencyError AuthorizationGrant.t :=
  let id := oauth2_authorization_grant_id r in
  try scope <- map_err (λ _, on "oauth2_authorization_grants" (Some "scope") (Some id))
                (Scope_from_str (scope r));
  try stage <- stage_of r;
  try pkce <- pkce_of r;
  try code <- code_of r pkce;
  try redirect_uri <- ok_or (url_parse (redirect_uri r))
    (on "oauth2_authorization_grants" (Some "redirect_uri") (Some id));
  let response_mode := ResponseMode_from_str (response_mode r) in
  Ok (AuthorizationGrant.mk id stage code (oauth2_client_id r) redirect_uri scope (state r)
        (nonce r) response_mode (response_type_id_token r) (created_at r) (login_hint r)
        (locale r) (default ∅ (raw_parameters r))).

Definition with_fulfilled (at_ : DateTime) (user_session : Ulid) (r : GrantLookup.t) :=
  GrantLookup.mk (oauth2_authorization_grant_id r) (created_at r) (cancelled_at r)
    (Some at_) (exchanged_at r) (scope r) (state r) (nonce r) (redirect_uri r)
    (response_mode r) (response_type_code r) (response_type_id_token r)
    (authorization_code r) (code_challenge r) (code_challenge_method r) (login_hint r)
    (locale r) (raw_parameters r) (oauth2_client_id r) (Some user_session)
    (oauth2_session_id r).

Definition with_exchanged (at_ : DateTime) (session : Ulid) (r : GrantLookup.t) :=
  GrantLookup.mk (oauth2_authorization_grant_id r) (created_at r) (cancelled_at r)
    (fulfilled_at r) (Some at_) (scope r) (state r) (nonce r) (redirect_uri r)
    (response_mode r) (response_type_code r) (response_type_id_token r)
    (authorization_code r) (code_challenge r) (code_challenge_method r) (login_hint r)
    (locale r) (raw_parameters r) (oauth2_client_id r) (user_session_id r) (Some session).

Definition add (client : Client.t) (redirect_uri' : Url) (scope' : Scope)
    (code : option AuthorizationCode.t) (state' nonce' : option string)
    (response_mode' : ResponseMode) (response_type_id_token' : bool)
    (login_hint' locale' : option string) (raw_parameters' : gmap string string) :
    Repo AuthorizationGrant.t :=
  let pkce := code ≫= AuthorizationCode.pkce in
  let code_challenge := challenge <$> pkce in
  let code_challenge_method := challenge_method_to_string ∘ challenge_method <$> pkce in
  let code_str := AuthorizationCode.code <$> code in
  do created <- now;
  do id <- with_rng (from_datetime_with_rng created);
  do! execute (insert_stmt id
    (GrantLookup.mk id created None None None (Scope_to_string scope') state' nonce'
       redirect_uri' (ResponseMode_to_string response_mode')
       (match code with Some _ => true | None => false end) response_type_id_token'
       code_str code_challenge code_challenge_method login_hint' locale'
       (Some raw_parameters') (Client.id client) None None)
    (λ d, exists_row (Row := OAuth2ClientLookup.t) (Client.id client) d
          && match code_str with
             | None => true
             | Some c => unique_value authorization_code c d
             end));
  ret (AuthorizationGrant.mk id AuthorizationGrantStage.Pending code (Client.id client)
         redirect_uri' scope' state' nonce' response_mode' response_type_id_token' created
         login_hint' locale' raw_parameters').

Definition lookup (id : Ulid) : Repo (option AuthorizationGrant.t) :=
  do res <- select (λ d, rows (Row := GrantLookup.t) d !! id);
  decode_row try_from res.

Definition find_by_code (code : string) : Repo (option AuthorizationGrant.t) :=
  do res <- select (find_row (λ r, bool_decide (authorization_code r = Some code)));
  decode_row try_from res.

Definition fulfill (browser_session : BrowserSession.t) (grant : AuthorizationGrant.t) :
    Repo AuthorizationGrant.t :=
  do fulfilled <- now;
  do res <- execute (update_stmt (AuthorizationGrant.id grant)
    (with_fulfilled fulfilled (BrowserSession.id browser_session))
    (exists_row (Row := UserSessionRow.t) (BrowserSession.id browser_session)));
  do! lift (ensure_affected_rows res 1);
  lift (map_err to_invalid_operation
          (AuthorizationGrant.fulfill grant fulfilled browser_session)).

Definition exchange (grant : AuthorizationGrant.t) (session : Session.t) :
    Repo AuthorizationGrant.t :=
  do exchanged <- now;
  do res <- execute (update_stmt (AuthorizationGrant.id grant)
    (with_exchanged exchanged (Session.id session))
    (exists_row (Row := OAuthSessionLookup.t) (Session.id session)));
  do! lift (ensure_affected_rows res 1);
  lift (map_err to_invalid_operation (AuthorizationGrant.exchange grant exchanged session)).
End Ops.
End AuthorizationGrantRepository.

(** ** Device code grants *)
Module DeviceCodeGrantRepository.
Import OAuth2DeviceGrantLookup.

(** [OAuth2DeviceCodeGrantParams]. *)
Record Params := mkParams {
  p_client : Client.t;
  p_scope : Scope;
  p_device_code : string;
  p_user_code : string;
  p_expires_in : Duration;
  p_ip_address : option IpAddr;
  p_user_agent : option string;
}.

Definition state_of (r : OAuth2DeviceGrantLookup.t) :
    result DatabaseInconsistencyError DeviceCodeGrantState.t :=
  match fulfilled_at r, rejected_at r, exchanged_at r, user_session_id r,
        oauth2_session_id r with
  | None, None, None, None, None => Ok DeviceCodeGrantState.Pending
  | Some fulfilled_at, None, None, Some user_session_id, None =>
      Ok (DeviceCodeGrantState.Fulfilled user_session_id fulfilled_at)
  | None, Some rejected_at, None, Some user_session_id, None =>
      Ok (DeviceCodeGrantState.Rejected user_session_id rejected_at)
  | Some fulfilled_at, None, Some exchanged_at, Some user_session_id,
    Some oauth2_session_id =>
      Ok (DeviceCodeGrantState.Exchanged user_session_id fulfilled_at exchanged_at
            oauth2_session_id)
  | _, _, _, _, _ =>
      Err (on "oauth2_device_code_grant" None (Some (oauth2_device_code_grant_id r)))
  end.

Definition try_from (r : OAuth2DeviceGrantLookup.t) :
    result DatabaseInconsistencyError DeviceCodeGrant.t :=
  let id := oauth2_device_code_grant_id r in
  try scope <- map_err (λ _, on "oauth2_authorization_grants" (Some "scope") (Some id))
                (Scope_from_str (scope r));
  try state <- state_of r;
  Ok (DeviceCodeGrant.mk id state (oauth2_client_id r) scope (user_code r) (device_code r)
        (created_at r) (expires_at r) (ip_address r) (user_agent r) (locale r)).

Definition with_fulfilled (at_ : DateTime) (us : Ulid) (loc : option string)
    (r : OAuth2DeviceGrantLookup.t) :=
  OAuth2DeviceGrantLookup.mk (oauth2_device_code_grant_id r) (oauth2_client_id r) (scope r)
    (device_code r) (user_code r) (created_at r) (expires_at r) (Some at_) (rejected_at r)
    (exchanged_at r) (Some us) (oauth2_session_id r) (ip_address r) (user_agent r) loc.

Definition with_rejected (at_ : DateTime) (us : Ulid) (r : OAuth2DeviceGrantLookup.t) :=
  OAuth2DeviceGrantLookup.mk (oauth2_device_code_grant_id r) (oauth2_client_id r) (scope r)
    (device_code r) (user_code r) (created_at r) (expires_at r) (fulfilled_at r) (Some at_)
    (exchanged_at r) (Some us) (oauth2_session_id r) (ip_address r) (user_agent r)
    (locale r).

Definition with_exchanged (at_ : DateTime) (s : Ulid) (r : OAuth2DeviceGrantLookup.t) :=
  OAuth2DeviceGrantLookup.mk (oauth2_device_code_grant_id r) (oauth2_client_id r) (scope r)
    (device_code r) (user_code r) (created_at r) (expires_at r) (fulfilled_at r)
    (rejected_at r) (Some at_) (user_session_id r) (Some s) (ip_address r) (user_agent r)
    (locale r).

Section Ops.
Context {R : Type} `{!RngCore R}.
Abbreviation Repo := (M (World R) DatabaseError) (only parsing).

Definition add (params : Params) : Repo DeviceCodeGrant.t :=
  do now_ <- now;
  do id <- with_rng (from_datetime_with_rng now_);
  let created := now_ in
  let expires := (now_ + p_expires_in params)%Z in
  let client_id := Client.id (p_client params) in
  do! execute (insert_stmt id
    (OAuth2DeviceGrantLookup.mk id client_id (Scope_to_string (p_scope params))
       (p_device_code params) (p_user_code params) created expires None None None None None
       (p_ip_address params) (p_user_agent params) None)
    (λ d, exists_row (Row := OAuth2ClientLookup.t) client_id d
          && unique_value (λ r, Some (user_code r)) (p_user_code params) d
          && unique_value (λ r, Some (device_code r)) (p_device_code params) d));
  ret (DeviceCodeGrant.mk id DeviceCodeGrantState.Pending client_id (p_scope params)
         (p_user_code params) (p_device_code params) created expires (p_ip_address params)
         (p_user_agent params) None).

Definition lookup (id : Ulid) : Repo (option DeviceCodeGrant.t) :=
  do res <- select (λ d, rows (Row := OAuth2DeviceGrantLookup.t) d !! id);
  decode_row try_from res.

Definition find_by_user_code (code : string) : Repo (option DeviceCodeGrant.t) :=
  do res <- select (find_row (λ r, bool_decide (user_code r = code)));
  decode_row try_from res.

Definition find_by_device_code (code : string) : Repo (option DeviceCodeGrant.t) :=
  do res <- select (find_row (λ r, bool_decide (device_code r = code)));
  decode_row try_from res.

Definition fulfill (grant : DeviceCodeGrant.t) (b : BrowserSession.t)
    (loc : option string) : Repo DeviceCodeGrant.t :=
  do fulfilled <- now;
  do grant <- lift (map_err to_invalid_operation
                      (DeviceCodeGrant.fulfill grant b loc fulfilled));
  do res <- execute (update_stmt (DeviceCodeGrant.id grant)
    (with_fulfilled fulfilled (BrowserSession.id b) (DeviceCodeGrant.locale grant))
    (exists_row (Row := UserSessionRow.t) (BrowserSession.id b)));
  do! lift (ensure_affected_rows res 1);
  ret grant.

Definition reject (grant : DeviceCodeGrant.t) (b : BrowserSession.t) :
    Repo DeviceCodeGrant.t :=
  do rejected <- now;
  do grant <- lift (map_err to_invalid_operation (DeviceCodeGrant.reject grant b rejected));
  do res <- execute (update_stmt (DeviceCodeGrant.id grant)
    (with_rejected rejected (BrowserSession.id b))
    (exists_row (Row := UserSessionRow.t) (BrowserSession.id b)));
  do! lift (ensure_affected_rows res 1);
  ret grant.

Definition exchange (grant : DeviceCodeGrant.t) (session : Session.t) :
    Repo DeviceCodeGrant.t :=
  do exchanged <- now;
  do grant <- lift (map_err to_invalid_operation
                      (DeviceCodeGrant.exchange grant session exchanged));
  do res <- execute (update_stmt (DeviceCodeGrant.id grant)
    (with_exchanged exchanged (Session.id session))
    (exists_row (Row := OAuthSessionLookup.t) (Session.id session)));
  do! lift (ensure_affected_rows res 1);
  ret grant.
End Ops.
End DeviceCodeGrantRepository.
