(* ===== verification/UserRepo.v ===== *)
(** * Client, user, password, browser session and email repositories

    crates/storage-pg/src/oauth2/client.rs, user/mod.rs, user/password.rs,
    user/session.rs and the addresses of user/email.rs, with the listings of the
    OAuth 2.0 and browser sessions. *)

From stdpp Require Import base tactics list strings gmap sorting.
From Stdlib Require Import ZArith Lia Ascii.
From S2P Require Import Prelude Text Scope Externals Formats TokenFormat DataModel Storage TokenRepo QueueRepo Pagination.

(** ** Clients (client.rs) *)

(** [FromStr] of [OAuthClientAuthenticationMethod] (iana/src/oauth.rs). *)
Definition OAuthClientAuthenticationMethod_from_str (s : string) :
    OAuthClientAuthenticationMethod :=
  if decide (s = "none") then NoAuthentication
  else if decide (s = "client_secret_post") then ClientSecretPost
  else if decide (s = "client_secret_basic") then ClientSecretBasic
  else if decide (s = "client_secret_jwt") then ClientSecretJwt
  else if decide (s = "private_key_jwt") then PrivateKeyJwt
  else if decide (s = "tls_client_auth") then TlsClientAuth
  else if decide (s = "self_signed_tls_client_auth") then SelfSignedTlsClientAuth
  else UnknownAuthenticationMethod s.

Module ClientRepository.
Import OAuth2ClientLookup.

Section Ops.
Context {R : Type} `{!RngCore R, !UrlLib, !UlidText, !JwksJson}.
Abbreviation Repo := (M (World R) DatabaseError) (only parsing).

Definition parse_url (col : string) (id : Ulid) (s : string) :
    result DatabaseInconsistencyError Url :=
  ok_or (url_parse s) (on "oauth2_clients" (Some col) (Some id)).

(** [.map(|s| s.parse()).transpose()]. *)
Definition parse_url_opt (col : string) (id : Ulid) (o : option string) :
    result DatabaseInconsistencyError (option Url) :=
  match o with
  | None => Ok None
  | Some s => try u <- parse_url col id s; Ok (Some u)
  end.

Definition jwks_of (r : OAuth2ClientLookup.t) :
    result DatabaseInconsistencyError (option JwksOrJwksUri) :=
  let id := oauth2_client_id r in
  match jwks r, jwks_uri r with
  | None, None => Ok None
  | Some jwks, None =>
      try j <- ok_or (jwks_from_value jwks) (on "oauth2_clients" (Some "jwks") (Some id));
      Ok (Some (Jwks j))
  | None, Some uri => try u <- parse_url "jwks_uri" id uri; Ok (Some (JwksUri u))
  | _, _ => Err (on "oauth2_clients" (Some "jwks(_uri)") (Some id))
  end.

Definition grant_types_of (r : OAuth2ClientLookup.t) : list GrantType :=
  (if grant_type_authorization_code r then [AuthorizationCode] else [])
  ++ (if grant_type_refresh_token r then [RefreshTokenGrantType] else [])
  ++ (if grant_type_client_credentials r then [ClientCredentials] else [])
  ++ (if grant_type_device_code r then [DeviceCode] else []).

(** [TryFrom<OAuth2ClientLookup> for Client].  The parsers of the application
    type, the algorithms and the authentication method accept every text. *)
Definition try_from (r : OAuth2ClientLookup.t) :
    result DatabaseInconsistencyError Client.t :=
  let id := oauth2_client_id r in
  try redirect_uris <- collect (parse_url "redirect_uris" id) (redirect_uris r);
  let grant_types := grant_types_of r in
  try logo_uri <- parse_url_opt "logo_uri" id (logo_uri r);
  try client_uri <- parse_url_opt "client_uri" id (client_uri r);
  try policy_uri <- parse_url_opt "policy_uri" id (policy_uri r);
  try tos_uri <- parse_url_opt "tos_uri" id (tos_uri r);
  try initiate_login_uri <- parse_url_opt "initiate_login_uri" id (initiate_login_uri r);
  try jwks <- jwks_of r;
  Ok (Client.mk id (ulid_to_string id) (metadata_digest r) (encrypted_client_secret r)
        (application_type r) redirect_uris grant_types (client_name r) logo_uri client_uri
        policy_uri tos_uri jwks (id_token_signed_response_alg r)
        (userinfo_signed_response_alg r)
        (OAuthClientAuthenticationMethod_from_str <$> token_endpoint_auth_method r)
        (token_endpoint_auth_signing_alg r) initiate_login_uri (is_static r)).

Definition lookup (id : Ulid) : Repo (option Client.t) :=
  do res <- select (λ d, rows (Row := OAuth2ClientLookup.t) d !! id);
  decode_row try_from res.

Definition find_by_client_id (client_id : string) : Repo (option Client.t) :=
  match ulid_from_string client_id with
  | None => ret None
  | Some id => lookup id
  end.
End Ops.
End ClientRepository.

(** ** Users (user/mod.rs) *)
Module UserRepository.

Definition with_locked_at (v : option DateTime) (r : UserLookup.t) :=
  UserLookup.mk (UserLookup.user_id r) (UserLookup.username r) (UserLookup.created_at r) v
    (UserLookup.deactivated_at r) (UserLookup.can_request_admin r) (UserLookup.is_guest r).
Definition with_deactivated_at (v : option DateTime) (r : UserLookup.t) :=
  UserLookup.mk (UserLookup.user_id r) (UserLookup.username r) (UserLookup.created_at r)
    (UserLookup.locked_at r) v (UserLookup.can_request_admin r) (UserLookup.is_guest r).
Definition with_can_request_admin (v : bool) (r : UserLookup.t) :=
  UserLookup.mk (UserLookup.user_id r) (UserLookup.username r) (UserLookup.created_at r)
    (UserLookup.locked_at r) (UserLookup.deactivated_at r) v (UserLookup.is_guest r).

Section Ops.
Context {R : Type} `{!RngCore R, !UlidText}.
Abbreviation Repo := (M (World R) DatabaseError) (only parsing).

(** [From<UserLookup> for User]. *)
Definition of_row (r : UserLookup.t) : User.t :=
  User.mk (UserLookup.user_id r) (UserLookup.username r)
    (ulid_to_string (UserLookup.user_id r)) (UserLookup.created_at r)
    (UserLookup.locked_at r) (UserLookup.deactivated_at r)
    (UserLookup.can_request_admin r) (UserLookup.is_guest r).

Definition lookup (id : Ulid) : Repo (option User.t) :=
  do res <- select (λ d, rows (Row := UserLookup.t) d !! id);
  ret (of_row <$> res).

(** The exact casing wins where several users have the name. *)
Definition pick_username (username : string) (rs : list UserLookup.t) : option UserLookup.t :=
  match rs with
  | [r] => Some r
  | _ => head (filter (λ r, UserLookup.username r = username) rs)
  end.

Definition find_by_username `{!PgText} (username : string) : Repo (option User.t) :=
  do res <- select (λ d,
    filter (λ r, pg_lower (UserLookup.username r) = pg_lower username) (map_to_list (users d)).*2);
  ret (of_row <$> pick_username username res).

Definition exists_username `{!PgText} (username : string) : Repo bool :=
  select (λ d, bool_decide (filter (λ r, pg_lower (UserLookup.username r) = pg_lower username)
                              (map_to_list (users d)).*2 ≠ [])).

(** [INSERT ... ON CONFLICT (username) DO NOTHING]. *)
Definition insert_user_stmt (r : UserLookup.t) (d : Db) : option (nat * Db) :=
  if bool_decide (map_Forall (λ _ r', UserLookup.username r' ≠ UserLookup.username r) (users d))
  then insert_stmt (UserLookup.user_id r) r (λ _, true) d
  else Some (0, d).

Definition add (username : string) : Repo User.t :=
  do created <- now;
  do id <- with_rng (from_datetime_with_rng created);
  do res <- execute (insert_user_stmt (UserLookup.mk id username created None None false false));
  do! lift (ensure_affected_rows res 1);
  ret (User.mk id username (ulid_to_string id) created None None false false).

Definition lock (user : User.t) : Repo User.t :=
  if bool_decide (is_Some (User.locked_at user)) then ret user else
  do locked <- now;
  do res <- execute (update_stmt (User.id user) (with_locked_at (Some locked)) (λ _, true));
  do! lift (ensure_affected_rows res 1);
  ret (User.with_locked_at user (Some locked)).

Definition unlock (user : User.t) : Repo User.t :=
  if bool_decide (User.locked_at user = None) then ret user else
  do res <- execute (update_stmt (User.id user) (with_locked_at None) (λ _, true));
  do! lift (ensure_affected_rows res 1);
  ret (User.with_locked_at user None).

Definition deactivate (user : User.t) : Repo User.t :=
  if bool_decide (is_Some (User.deactivated_at user)) then ret user else
  do deactivated <- now;
  do res <- execute (update_row_where_stmt (User.id user)
    (λ r, bool_decide (UserLookup.deactivated_at r = None))
    (with_deactivated_at (Some deactivated)));
  do! lift (ensure_affected_rows res 1);
  ret (User.with_deactivated_at user (Some deactivated)).

Definition reactivate (user : User.t) : Repo User.t :=
  if bool_decide (User.deactivated_at user = None) then ret user else
  do res <- execute (update_stmt (User.id user) (with_deactivated_at None) (λ _, true));
  do! lift (ensure_affected_rows res 1);
  ret (User.with_deactivated_at user None).

Definition set_can_request_admin (user : User.t) (can_request_admin : bool) : Repo User.t :=
  do res <- execute (update_stmt (User.id user) (with_can_request_admin can_request_admin)
                       (λ _, true));
  do! lift (ensure_affected_rows res 1);
  ret (User.with_can_request_admin user can_request_admin).

(** The advisory lock of the transaction: one statement. *)
Definition acquire_lock_for_sync (user : User.t) : Repo unit := query.
End Ops.
End UserRepository.

(** ** Passwords (user/password.rs) *)
Module UserPasswordRepository.
Import UserPasswordLookup.

(** [TryFrom<i32> for u16]. *)
Definition scheme_version (v : Z) : option Z :=
  if ((0 <=? v) && (v <? 2 ^ 16))%Z then Some v else None.

(** The decoding of a row by [active]. *)
Definition try_from (r : UserPasswordLookup.t) : result DatabaseInconsistencyError UserPassword.t :=
  let id := user_password_id r in
  try version <- ok_or (scheme_version (version r))
                   (on "user_passwords" (Some "version") (Some id));
  Ok (UserPassword.mk id (hashed_password r) version (upgraded_from_id r) (created_at r)).

(** [ORDER BY created_at DESC LIMIT 1]. *)
Definition latest (rs : list UserPasswordLookup.t) : option UserPasswordLookup.t :=
  foldr (λ r best,
    match best with
    | None => Some r
    | Some b => if (created_at b <? created_at r)%Z then Some r else Some b
    end) None rs.

Section Ops.
Context {R : Type} `{!RngCore R}.
Abbreviation Repo := (M (World R) DatabaseError) (only parsing).

Definition active (user : User.t) : Repo (option UserPassword.t) :=
  do res <- select (λ d,
    latest (filter (λ r, user_id r = User.id user) (map_to_list (user_passwords d)).*2));
  decode_row try_from res.

Definition add (user : User.t) (version : Z) (hashed_password : string)
    (upgraded_from : option UserPassword.t) : Repo UserPassword.t :=
  do created <- now;
  do id <- with_rng (from_datetime_with_rng created);
  let upgraded_from_id := UserPassword.id <$> upgraded_from in
  do! execute (insert_stmt id
    (UserPasswordLookup.mk id (User.id user) hashed_password version upgraded_from_id created)
    (λ d, exists_row (Row := UserLookup.t) (User.id user) d
          && exists_row_opt (Row := UserPasswordLookup.t) upgraded_from_id d));
  ret (UserPassword.mk id hashed_password version upgraded_from_id created).
End Ops.
End UserPasswordRepository.

(** ** Browser sessions (user/session.rs) *)
Module BrowserSessionRepository.

(** [SessionLookup]: a row of [user_sessions] joined with its user. *)
Definition SessionLookup : Type := UserSessionRow.t * UserLookup.t.

Section Ops.
Context {R : Type} `{!RngCore R, !UlidText}.
Abbreviation Repo := (M (World R) DatabaseError) (only parsing).

(** [TryFrom<SessionLookup> for BrowserSession], which never fails. *)
Definition try_from (r : SessionLookup) : BrowserSession.t :=
  let '(s, u) := r in
  BrowserSession.mk (UserSessionRow.user_session_id s) (UserRepository.of_row u)
    (UserSessionRow.created_at s) (UserSessionRow.finished_at s)
    (UserSessionRow.user_agent s) (UserSessionRow.last_active_at s)
    (UserSessionRow.last_active_ip s).

(** The [INNER JOIN] on the user. *)
Definition select_session (id : Ulid) (d : Db) : option SessionLookup :=
  s ← user_sessions d !! id;
  u ← users d !! UserSessionRow.user_id s;
  Some (s, u).

Definition lookup (id : Ulid) : Repo (option BrowserSession.t) :=
  do res <- select (select_session id);
  ret (try_from <$> res).

Definition add (user : User.t) (user_agent : option string) : Repo BrowserSession.t :=
  do created <- now;
  do id <- with_rng (from_datetime_with_rng created);
  do! execute (insert_stmt id
    (UserSessionRow.mk id (User.id user) created None user_agent None None)
    (exists_row (Row := UserLookup.t) (User.id user)));
  ret (BrowserSession.mk id user created None user_agent None None).

Definition with_finished_at (at_ : DateTime) (r : UserSessionRow.t) :=
  UserSessionRow.mk (UserSessionRow.user_session_id r) (UserSessionRow.user_id r)
    (UserSessionRow.created_at r) (Some at_) (UserSessionRow.user_agent r)
    (UserSessionRow.last_active_at r) (UserSessionRow.last_active_ip r).

Definition finish (s : BrowserSession.t) : Repo BrowserSession.t :=
  do finished <- now;
  do res <- execute (update_stmt (BrowserSession.id s) (with_finished_at finished)
                       (λ _, true));
  let s := BrowserSession.with_finished_at s (Some finished) in
  do! lift (ensure_affected_rows res 1);
  ret s.

Definition finish_bulk (filter : BrowserSessionFilter.t) : Repo nat :=
  do finished <- now;
  execute (update_where_stmt (BrowserSessionFilter.generate_condition filter)
             (with_finished_at finished)).

(** [TryFrom<AuthenticationLookup> for Authentication]. *)
Definition authentication_of (r : AuthenticationRow.t) :
    result DatabaseInconsistencyError Authentication.t :=
  let id := AuthenticationRow.user_session_authentication_id r in
  try method <-
    match AuthenticationRow.user_password_id r,
          AuthenticationRow.upstream_oauth_authorization_session_id r with
    | Some p, None => Ok (Password p)
    | None, Some u => Ok (UpstreamOAuth2 u)
    | None, None => Ok UnknownAuthentication
    | _, _ => Err (on "user_session_authentications" None (Some id))
    end;
  Ok (Authentication.mk id (AuthenticationRow.created_at r) method).

(** [ORDER BY created_at DESC LIMIT 1]. *)
Definition latest (rs : list AuthenticationRow.t) : option AuthenticationRow.t :=
  foldr (λ r best,
    match best with
    | None => Some r
    | Some b =>
        if (AuthenticationRow.created_at b <? AuthenticationRow.created_at r)%Z
        then Some r else Some b
    end) None rs.

Definition get_last_authentication (s : BrowserSession.t) :
    Repo (option Authentication.t) :=
  do res <- select (λ d,
    latest (filter (λ r, AuthenticationRow.user_session_id r = BrowserSession.id s)
              (map_to_list (user_session_authentications d)).*2));
  decode_row authentication_of res.
End Ops.
End BrowserSessionRepository.

(** ** Listings of sessions

    The [list] and [count] operations of the OAuth 2.0 and browser session
    repositories (crates/storage-pg/src/oauth2/session.rs and
    crates/storage-pg/src/user/session.rs), and reading a whole listing page
    after page. *)

#[local] Open Scope Z_scope.

(** [SELECT ... WHERE p]: all the rows that match. *)
Definition matching_rows {Row} `{!Table Row} (p : Row → bool) (d : Db) : list Row :=
  filter (λ r, p r = true) (map_to_list (rows d)).*2.

(** A page of the rows of a query, decoded. *)
Definition fetch_page {R Row A} `{!Node Row} (column : Row → Ulid)
    (decode : Row → result DatabaseInconsistencyError A) (rs : Db → list Row)
    (p : Pagination.t) : M (World R) DatabaseError (Page.t A) :=
  do edges <- select (λ d, generate_pagination column p (rs d));
  lift (map_err Inconsistency (Page.try_map decode (process p edges))).

(** *** OAuth 2.0 sessions (oauth2/session.rs) *)
Module SessionListing.

#[export] Instance OAuthSessionLookup_node : Node OAuthSessionLookup.t :=
  OAuthSessionLookup.oauth2_session_id.

Section Ops.
Context {R : Type}.
Abbreviation Repo := (M (World R) DatabaseError) (only parsing).

Definition list (filter : OAuth2SessionFilter.t) (p : Pagination.t) :
    Repo (Page.t Session.t) :=
  fetch_page OAuthSessionLookup.oauth2_session_id SessionRepository.try_from
    (λ d, matching_rows (OAuth2SessionFilter.generate_condition filter d) d) p.

Definition count (filter : OAuth2SessionFilter.t) : Repo Z :=
  select (λ d, Z.of_nat (length (matching_rows
    (OAuth2SessionFilter.generate_condition filter d) d))).
End Ops.
End SessionListing.

(** *** Browser sessions (user/session.rs) *)
Module BrowserSessionListing.
Import BrowserSessionRepository.

(** [Node for SessionLookup]: the identifier of the user. *)
#[export] Instance SessionLookup_node : Node SessionLookup :=
  λ r, UserLookup.user_id r.2.

Definition session_column (r : SessionLookup) : Ulid := UserSessionRow.user_session_id r.1.

(** The [INNER JOIN] of the matching sessions with their users. *)
Definition joined_rows (filter : BrowserSessionFilter.t) (d : Db) : list SessionLookup :=
  omap (λ s, u ← users d !! UserSessionRow.user_id s; Some (s, u))
    (matching_rows (BrowserSessionFilter.generate_condition filter) d).

Section Ops.
Context {R : Type} `{!UlidText}.
Abbreviation Repo := (M (World R) DatabaseError) (only parsing).

Definition list (filter : BrowserSessionFilter.t) (p : Pagination.t) :
    Repo (Page.t BrowserSession.t) :=
  fetch_page session_column (λ r, Ok (BrowserSessionRepository.try_from r))
    (joined_rows filter) p.

Definition count (filter : BrowserSessionFilter.t) : Repo Z :=
  select (λ d, Z.of_nat (length (matching_rows
    (BrowserSessionFilter.generate_condition filter) d))).
End Ops.
End BrowserSessionListing.

(** *** Reading a listing page after page *)

Section ReadAll.
Context {R A : Type} (list_op : Pagination.t → M (World R) DatabaseError (Page.t A)).

(** The rows from a page on, following at most [fuel] links; [None] when
    they are used up or a link panics. *)
Fixpoint read_all (fuel : nat) (p : Pagination.t) : M (World R) DatabaseError (option (list A)) :=
  match fuel with
  | O => ret None
  | S fuel =>
      do page <- list_op p;
      match page_links page p with
      | Err _ => ret None
      | Ok links =>
          match PaginationLinks.next links with
          | None => ret (Some (Page.nodes page))
          | Some p' => do rest <- read_all fuel p'; ret (app (Page.nodes page) <$> rest)
          end
      end
  end.
End ReadAll.

(** *** Email addresses and third-party identifiers of users

    The email addresses of crates/storage-pg/src/user/email.rs with their
    filter (crates/storage/src/user/email.rs), and the deletion of the
    unsupported third-party identifiers of crates/storage-pg/src/user/mod.rs. *)

#[local] Open Scope Z_scope.

(** [UserEmail] of data-model/src/users.rs. *)
Module UserEmail.
Record t := mk {
  id : Ulid;
  user_id : Ulid;
  email : string;
  created_at : DateTime;
}.
End UserEmail.

Module UserEmailFilter.
Record t := mk { user : option User.t; email : option string }.

Definition new : t := mk None None.
Definition for_user (u : User.t) (f : t) : t := mk (Some u) (email f).
Definition for_email (e : string) (f : t) : t := mk (user f) (Some e).

Import BrowserSessionFilter(add_option).

Definition generate_condition `{!PgText} (f : t) (r : UserEmailLookup.t) : bool :=
  add_option (user f) (λ u, bool_decide (UserEmailLookup.user_id r = User.id u))
  && add_option (email f) (λ e, bool_decide (pg_lower (UserEmailLookup.email r) = pg_lower e)).
End UserEmailFilter.

Module UserEmailRepository.
Import UserEmailLookup.

#[export] Instance UserEmailLookup_node : Node UserEmailLookup.t := user_email_id.

(** [From<UserEmailLookup> for UserEmail]. *)
Definition of_row (r : UserEmailLookup.t) : UserEmail.t :=
  UserEmail.mk (user_email_id r) (user_id r) (email r) (created_at r).

(** [ORDER BY email ASC]. *)
Definition by_email `{!PgCollation} (a b : UserEmailLookup.t) : Prop := pg_le (email a) (email b).
#[export] Instance by_email_dec `{!PgCollation} : RelDecision by_email.
Proof. intros a b. unfold by_email. apply _. Defined.

(** [DELETE] of addresses: the recovery tickets sent to them go with them. *)
Definition delete_emails_stmt (p : UserEmailLookup.t → bool) (d : Db) : option (nat * Db) :=
  let ids := user_email_id <$> matching_rows p d in
  let tickets := base.filter (λ kr, UserRecoveryTicketRow.user_email_id kr.2 ∉ ids)
                   (rows (Row := UserRecoveryTicketRow.t) d) in
  delete_where_stmt p (set_rows tickets d).

Section Ops.
Context {R : Type} `{!RngCore R, !PgText}.
Abbreviation Repo := (M (World R) DatabaseError) (only parsing).

Definition lookup (id : Ulid) : Repo (option UserEmail.t) :=
  do res <- select (λ d, rows (Row := UserEmailLookup.t) d !! id);
  ret (of_row <$> res).

Definition find (user : User.t) (e : string) : Repo (option UserEmail.t) :=
  do res <- select (find_row (λ r, bool_decide (user_id r = User.id user)
                                   && bool_decide (pg_lower (email r) = pg_lower e)));
  ret (of_row <$> res).

(** Only an address that one user has. *)
Definition find_by_email (e : string) : Repo (option UserEmail.t) :=
  do res <- select (matching_rows (λ r, bool_decide (pg_lower (email r) = pg_lower e)));
  ret (match res with [r] => Some (of_row r) | _ => None end).

Definition all `{!PgCollation} (user : User.t) : Repo (list UserEmail.t) :=
  do res <- select (λ d,
    merge_sort by_email (matching_rows (λ r, bool_decide (user_id r = User.id user)) d));
  ret (of_row <$> res).

Definition list (filter : UserEmailFilter.t) (p : Pagination.t) : Repo (Page.t UserEmail.t) :=
  fetch_page user_email_id (λ r, Ok (of_row r))
    (matching_rows (UserEmailFilter.generate_condition filter)) p.

Definition count (filter : UserEmailFilter.t) : Repo Z :=
  select (λ d, Z.of_nat (length (matching_rows (UserEmailFilter.generate_condition filter) d))).

Definition add (user : User.t) (email : string) : Repo UserEmail.t :=
  do created <- now;
  do id <- with_rng (from_datetime_with_rng created);
  do! execute (insert_stmt id (UserEmailLookup.mk id (User.id user) email created)
                 (exists_row (Row := UserLookup.t) (User.id user)));
  ret (UserEmail.mk id (User.id user) email created).

Definition remove (e : UserEmail.t) : Repo unit :=
  do res <- execute (delete_emails_stmt (λ r, bool_decide (user_email_id r = UserEmail.id e)));
  lift (ensure_affected_rows res 1).

Definition remove_bulk (filter : UserEmailFilter.t) : Repo nat :=
  execute (delete_emails_stmt (UserEmailFilter.generate_condition filter)).
End Ops.
End UserEmailRepository.

(** [delete_unsupported_threepids] of user/mod.rs. *)
Definition delete_threepids_stmt (user : Ulid) (d : Db) : option (nat * Db) :=
  let ids := user_unsupported_third_party_ids d in
  Some (size (filter (λ kr, kr.1.1.1 = user) ids),
        set_third_party_ids (filter (λ kr, kr.1.1.1 ≠ user) ids) d).

Definition delete_unsupported_threepids {R} (user : User.t) : M (World R) DatabaseError nat :=
  execute (delete_threepids_stmt (User.id user)).
