(* ===== verification/UpstreamRepo.v ===== *)
(** * Repositories of the upstream providers

    crates/storage-pg/src/upstream_oauth2: provider.rs, link.rs and session.rs,
    with their filters in crates/storage/src/upstream_oauth2. *)

From stdpp Require Import base tactics list strings gmap.
From Stdlib Require Import ZArith Lia.
From S2P Require Import Prelude Text Scope Externals Formats Pagination TokenFormat DataModel UpstreamModel Storage TokenRepo QueueRepo UserRepo.
#[local] Open Scope Z_scope.

Import BrowserSessionFilter(add_option).

(** [WHERE id > since AND id <= until ORDER BY id LIMIT limit], the rows of a
    clean-up. *)
Definition cleanup_rows {Row} `{!Table Row} (id : Row → Ulid) (p : Row → bool)
    (since : option Ulid) (until : Ulid) (limit : Z) (d : Db) : list Row :=
  take (Z.to_nat (Z.min limit (2 ^ 63 - 1)))
    (order_asc id
       (filter (λ r, p r && match since with Some s => s <? id r | None => true end
                     && (id r <=? until) = true) (map_to_list (rows d)).*2)).

(** ** Providers (provider.rs) *)

Module UpstreamOAuthProviderFilter.
Record t := mk { enabled : option bool }.
Definition new : t := mk None.
Definition enabled_only (f : t) : t := mk (Some true).
Definition disabled_only (f : t) : t := mk (Some false).
Definition generate_condition (f : t) (r : ProviderLookup.t) : bool :=
  add_option (enabled f) (λ e, eqb (bool_decide (ProviderLookup.disabled_at r = None)) e).
End UpstreamOAuthProviderFilter.

Module UpstreamOAuthProviderParams.
Record t := mk {
  issuer : option string;
  human_name : option string;
  brand_name : option string;
  scope : Scope;
  token_endpoint_auth_method : TokenAuthMethod.t;
  token_endpoint_signing_alg : option string;
  id_token_signed_response_alg : string;
  fetch_userinfo : bool;
  userinfo_signed_response_alg : option string;
  client_id : string;
  encrypted_client_secret : option string;
  claims_imports : ClaimsImports.t;
  authorization_endpoint_override : option Url;
  token_endpoint_override : option Url;
  userinfo_endpoint_override : option Url;
  jwks_uri_override : option Url;
  discovery_mode : DiscoveryMode.t;
  pkce_mode : PkceMode.t;
  response_mode : option UpstreamResponseMode.t;
  additional_authorization_parameters : list (string * string);
  forward_login_hint : bool;
  pg_app_scheme : option string;
  ui_order : Z;
  on_backchannel_logout : OnBackchannelLogout.t;
  registration_token_required : bool;
}.
End UpstreamOAuthProviderParams.

(** The deletion of authorization sessions: what refers to them is set to
    [NULL]. *)
Definition delete_upstream_sessions (ids : list Ulid) (d : Db) : Db :=
  let gone (o : option Ulid) := match o with Some i => bool_decide (i ∈ ids) | None => false end in
  let authentications := (λ r,
    if gone (AuthenticationRow.upstream_oauth_authorization_session_id r)
    then AuthenticationRow.mk (AuthenticationRow.user_session_authentication_id r)
           (AuthenticationRow.user_session_id r) (AuthenticationRow.created_at r)
           (AuthenticationRow.user_password_id r) None
    else r) <$> rows (Row := AuthenticationRow.t) d in
  let registrations := (λ r,
    if gone (UserRegistrationLookup.upstream_oauth_authorization_session_id r)
    then UserRegistrationLookup.mk (UserRegistrationLookup.user_registration_id r)
           (UserRegistrationLookup.ip_address r) (UserRegistrationLookup.user_agent r)
           (UserRegistrationLookup.post_auth_action r) (UserRegistrationLookup.username r)
           (UserRegistrationLookup.display_name r) (UserRegistrationLookup.terms_url r)
           (UserRegistrationLookup.email_authentication_id r)
           (UserRegistrationLookup.user_registration_token_id r)
           (UserRegistrationLookup.hashed_password r)
           (UserRegistrationLookup.hashed_password_version r) None
           (UserRegistrationLookup.created_at r) (UserRegistrationLookup.completed_at r)
    else r) <$> rows (Row := UserRegistrationLookup.t) d in
  let sessions := base.filter (λ kr, kr.1 ∉ ids) (rows (Row := UpstreamSessionLookup.t) d) in
  set_rows sessions (set_rows registrations (set_rows authentications d)).

Definition delete_upstream_sessions_stmt (p : UpstreamSessionLookup.t → bool) (d : Db) :
    option (nat * Db) :=
  let ids := UpstreamSessionLookup.upstream_oauth_authorization_session_id <$> matching_rows p d in
  Some (length ids, delete_upstream_sessions ids d).

(** [DELETE] of links: refused while an authorization session refers to one. *)
Definition delete_links_stmt (p : LinkLookup.t → bool) (d : Db) : option (nat * Db) :=
  let ids := LinkLookup.upstream_oauth_link_id <$> matching_rows p d in
  if bool_decide (map_Forall
       (λ _ r, UpstreamSessionLookup.upstream_oauth_link_id r ∉ (Some <$> ids))
       (rows (Row := UpstreamSessionLookup.t) d))
  then delete_where_stmt p d
  else None.

(** [DELETE] of a provider: refused while a link or a session refers to it. *)
Definition delete_provider_stmt (id : Ulid) (d : Db) : option (nat * Db) :=
  if bool_decide (map_Forall (λ _ r, LinkLookup.upstream_oauth_provider_id r ≠ id)
                    (rows (Row := LinkLookup.t) d))
     && bool_decide (map_Forall (λ _ r, UpstreamSessionLookup.upstream_oauth_provider_id r ≠ id)
                       (rows (Row := UpstreamSessionLookup.t) d))
  then delete_where_stmt (λ r, bool_decide (ProviderLookup.upstream_oauth_provider_id r = id)) d
  else None.

Module UpstreamOAuthProviderRepository.
Import ProviderLookup.

#[export] Instance ProviderLookup_node : Node ProviderLookup.t := upstream_oauth_provider_id.

Section Ops.
Context {R : Type} `{!RngCore R, !UrlLib}.
Abbreviation Repo := (M (World R) DatabaseError) (only parsing).

Definition parsed {A} (col : string) (id : Ulid) (o : option A) :
    result DatabaseInconsistencyError A :=
  ok_or o (on "upstream_oauth_providers" (Some col) (Some id)).

Definition parsed_opt {A B} (col : string) (id : Ulid) (parse : A → option B) (o : option A) :
    result DatabaseInconsistencyError (option B) :=
  match o with
  | None => Ok None
  | Some s => try v <- parsed col id (parse s); Ok (Some v)
  end.

Definition scope_of (s : string) : option Scope :=
  match Scope_from_str s with Ok s => Some s | Err _ => None end.

(** [TryFrom<ProviderLookup> for UpstreamOAuthProvider].  The parser of the
    algorithms accepts every text. *)
Definition try_from (r : ProviderLookup.t) :
    result DatabaseInconsistencyError UpstreamOAuthProvider.t :=
  let id := upstream_oauth_provider_id r in
  try scope <- parsed "scope" id (scope_of (scope r));
  try token_endpoint_auth_method <-
    parsed "token_endpoint_auth_method" id
      (TokenAuthMethod.from_str (token_endpoint_auth_method r));
  try authorization_endpoint_override <-
    parsed_opt "authorization_endpoint_override" id url_parse (authorization_endpoint_override r);
  try token_endpoint_override <-
    parsed_opt "token_endpoint_override" id url_parse (token_endpoint_override r);
  try userinfo_endpoint_override <-
    parsed_opt "userinfo_endpoint_override" id url_parse (userinfo_endpoint_override r);
  try jwks_uri_override <- parsed_opt "jwks_uri_override" id url_parse (jwks_uri_override r);
  try discovery_mode <- parsed "discovery_mode" id (DiscoveryMode.from_str (discovery_mode r));
  try pkce_mode <- parsed "pkce_mode" id (PkceMode.from_str (pkce_mode r));
  try response_mode <- parsed_opt "response_mode" id UpstreamResponseMode.from_str (response_mode r);
  let additional_authorization_parameters := default [] (additional_parameters r) in
  try on_backchannel_logout <-
    parsed "on_backchannel_logout" id (OnBackchannelLogout.from_str (on_backchannel_logout r));
  Ok (UpstreamOAuthProvider.mk id (issuer r) (human_name r) (brand_name r) discovery_mode pkce_mode
        jwks_uri_override authorization_endpoint_override scope token_endpoint_override
        userinfo_endpoint_override (fetch_userinfo r) (userinfo_signed_response_alg r) (client_id r)
        (encrypted_client_secret r) (token_endpoint_signing_alg r) token_endpoint_auth_method
        (id_token_signed_response_alg r) response_mode (created_at r) (disabled_at r)
        (claims_imports r) additional_authorization_parameters (forward_login_hint r)
        (pg_app_scheme r) on_backchannel_logout (registration_token_required r)).

(** The row the statements write, and the value they return. *)
Definition row_of (id : Ulid) (p : UpstreamOAuthProviderParams.t)
    (additional : option (list (string * string))) (ui_order : Z) (created_at : DateTime) :
    ProviderLookup.t :=
  let P := UpstreamOAuthProviderParams.issuer p in
  ProviderLookup.mk id P (UpstreamOAuthProviderParams.human_name p)
    (UpstreamOAuthProviderParams.brand_name p)
    (Scope_to_string (UpstreamOAuthProviderParams.scope p))
    (UpstreamOAuthProviderParams.client_id p)
    (UpstreamOAuthProviderParams.encrypted_client_secret p)
    (UpstreamOAuthProviderParams.token_endpoint_signing_alg p)
    (TokenAuthMethod.as_str (UpstreamOAuthProviderParams.token_endpoint_auth_method p))
    (UpstreamOAuthProviderParams.id_token_signed_response_alg p)
    (UpstreamOAuthProviderParams.fetch_userinfo p)
    (UpstreamOAuthProviderParams.userinfo_signed_response_alg p) created_at None
    (UpstreamOAuthProviderParams.claims_imports p)
    (UpstreamOAuthProviderParams.jwks_uri_override p)
    (UpstreamOAuthProviderParams.authorization_endpoint_override p)
    (UpstreamOAuthProviderParams.token_endpoint_override p)
    (UpstreamOAuthProviderParams.userinfo_endpoint_override p)
    (DiscoveryMode.as_str (UpstreamOAuthProviderParams.discovery_mode p))
    (PkceMode.as_str (UpstreamOAuthProviderParams.pkce_mode p))
    (UpstreamResponseMode.as_str <$> UpstreamOAuthProviderParams.response_mode p)
    additional (UpstreamOAuthProviderParams.forward_login_hint p)
    (UpstreamOAuthProviderParams.pg_app_scheme p)
    (OnBackchannelLogout.as_str (UpstreamOAuthProviderParams.on_backchannel_logout p))
    (UpstreamOAuthProviderParams.registration_token_required p) ui_order.

Definition provider_of (id : Ulid) (p : UpstreamOAuthProviderParams.t) (created_at : DateTime) :
    UpstreamOAuthProvider.t :=
  UpstreamOAuthProvider.mk id (UpstreamOAuthProviderParams.issuer p)
    (UpstreamOAuthProviderParams.human_name p) (UpstreamOAuthProviderParams.brand_name p)
    (UpstreamOAuthProviderParams.discovery_mode p) (UpstreamOAuthProviderParams.pkce_mode p)
    (UpstreamOAuthProviderParams.jwks_uri_override p)
    (UpstreamOAuthProviderParams.authorization_endpoint_override p)
    (UpstreamOAuthProviderParams.scope p) (UpstreamOAuthProviderParams.token_endpoint_override p)
    (UpstreamOAuthProviderParams.userinfo_endpoint_override p)
    (UpstreamOAuthProviderParams.fetch_userinfo p)
    (UpstreamOAuthProviderParams.userinfo_signed_response_alg p)
    (UpstreamOAuthProviderParams.client_id p)
    (UpstreamOAuthProviderParams.encrypted_client_secret p)
    (UpstreamOAuthProviderParams.token_endpoint_signing_alg p)
    (UpstreamOAuthProviderParams.token_endpoint_auth_method p)
    (UpstreamOAuthProviderParams.id_token_signed_response_alg p)
    (UpstreamOAuthProviderParams.response_mode p) created_at None
    (UpstreamOAuthProviderParams.claims_imports p)
    (UpstreamOAuthProviderParams.additional_authorization_parameters p)
    (UpstreamOAuthProviderParams.forward_login_hint p)
    (UpstreamOAuthProviderParams.pg_app_scheme p)
    (UpstreamOAuthProviderParams.on_backchannel_logout p)
    (UpstreamOAuthProviderParams.registration_token_required p).

Definition lookup (id : Ulid) : Repo (option UpstreamOAuthProvider.t) :=
  do res <- select (λ d, rows (Row := ProviderLookup.t) d !! id);
  decode_row try_from res.

(** The columns [additional_parameters] and [ui_order] are not set: they take
    their defaults. *)
Definition add (params : UpstreamOAuthProviderParams.t) : Repo UpstreamOAuthProvider.t :=
  do created <- now;
  do id <- with_rng (from_datetime_with_rng created);
  do! execute (insert_stmt id (row_of id params None 0 created) (λ _, true));
  ret (provider_of id params created).

(** The three statements of [delete_by_id]. *)
Definition delete_by_id (id : Ulid) : Repo unit :=
  do! execute (delete_upstream_sessions_stmt
    (λ r, bool_decide (UpstreamSessionLookup.upstream_oauth_provider_id r = id)));
  do! execute (delete_links_stmt
    (λ r, bool_decide (LinkLookup.upstream_oauth_provider_id r = id)));
  do res <- execute (delete_provider_stmt id);
  lift (ensure_affected_rows res 1).

Definition with_created_at (v : DateTime) (r : ProviderLookup.t) : ProviderLookup.t :=
  ProviderLookup.mk (upstream_oauth_provider_id r) (issuer r) (human_name r) (brand_name r)
    (scope r) (client_id r) (encrypted_client_secret r) (token_endpoint_signing_alg r)
    (token_endpoint_auth_method r) (id_token_signed_response_alg r) (fetch_userinfo r)
    (userinfo_signed_response_alg r) v (disabled_at r) (claims_imports r) (jwks_uri_override r)
    (authorization_endpoint_override r) (token_endpoint_override r) (userinfo_endpoint_override r)
    (discovery_mode r) (pkce_mode r) (response_mode r) (additional_parameters r)
    (forward_login_hint r) (pg_app_scheme r) (on_backchannel_logout r)
    (registration_token_required r) (ui_order r).

(** [INSERT ... ON CONFLICT (upstream_oauth_provider_id) DO UPDATE]: every
    column but the date of creation is written. *)
Definition upsert_provider_stmt (id : Ulid) (row : ProviderLookup.t) (d : Db) :
    option (nat * Db) :=
  let row := match rows (Row := ProviderLookup.t) d !! id with
             | Some r => with_created_at (created_at r) row
             | None => row
             end in
  Some (1%nat, set_rows (<[id := row]> (rows d)) d).

Definition upsert (id : Ulid) (params : UpstreamOAuthProviderParams.t) :
    Repo UpstreamOAuthProvider.t :=
  do created <- now;
  do! execute (upsert_provider_stmt id
    (row_of id params (Some (UpstreamOAuthProviderParams.additional_authorization_parameters params))
       (UpstreamOAuthProviderParams.ui_order params) created));
  do created <- gets (λ w, from_option created_at created (upstream_oauth_providers
                                                             (accounts (w_txn w)) !! id));
  ret (provider_of id params created).

Definition with_disabled_at (v : option DateTime) (r : ProviderLookup.t) : ProviderLookup.t :=
  ProviderLookup.mk (upstream_oauth_provider_id r) (issuer r) (human_name r) (brand_name r)
    (scope r) (client_id r) (encrypted_client_secret r) (token_endpoint_signing_alg r)
    (token_endpoint_auth_method r) (id_token_signed_response_alg r) (fetch_userinfo r)
    (userinfo_signed_response_alg r) (created_at r) v (claims_imports r) (jwks_uri_override r)
    (authorization_endpoint_override r) (token_endpoint_override r) (userinfo_endpoint_override r)
    (discovery_mode r) (pkce_mode r) (response_mode r) (additional_parameters r)
    (forward_login_hint r) (pg_app_scheme r) (on_backchannel_logout r)
    (registration_token_required r) (ui_order r).

Definition provider_with_disabled_at (p : UpstreamOAuthProvider.t) (v : option DateTime) :
    UpstreamOAuthProvider.t :=
  let q := p in
  UpstreamOAuthProvider.mk (UpstreamOAuthProvider.id q) (UpstreamOAuthProvider.issuer q)
    (UpstreamOAuthProvider.human_name q) (UpstreamOAuthProvider.brand_name q)
    (UpstreamOAuthProvider.discovery_mode q) (UpstreamOAuthProvider.pkce_mode q)
    (UpstreamOAuthProvider.jwks_uri_override q)
    (UpstreamOAuthProvider.authorization_endpoint_override q) (UpstreamOAuthProvider.scope q)
    (UpstreamOAuthProvider.token_endpoint_override q)
    (UpstreamOAuthProvider.userinfo_endpoint_override q) (UpstreamOAuthProvider.fetch_userinfo q)
    (UpstreamOAuthProvider.userinfo_signed_response_alg q) (UpstreamOAuthProvider.client_id q)
    (UpstreamOAuthProvider.encrypted_client_secret q)
    (UpstreamOAuthProvider.token_endpoint_signing_alg q)
    (UpstreamOAuthProvider.token_endpoint_auth_method q)
    (UpstreamOAuthProvider.id_token_signed_response_alg q) (UpstreamOAuthProvider.response_mode q)
    (UpstreamOAuthProvider.created_at q) v (UpstreamOAuthProvider.claims_imports q)
    (UpstreamOAuthProvider.additional_authorization_parameters q)
    (UpstreamOAuthProvider.forward_login_hint q) (UpstreamOAuthProvider.pg_app_scheme q)
    (UpstreamOAuthProvider.on_backchannel_logout q)
    (UpstreamOAuthProvider.registration_token_required q).

Definition disable (p : UpstreamOAuthProvider.t) : Repo UpstreamOAuthProvider.t :=
  do disabled <- now;
  do res <- execute (update_stmt (UpstreamOAuthProvider.id p) (with_disabled_at (Some disabled))
                       (λ _, true));
  do! lift (ensure_affected_rows res 1);
  ret (provider_with_disabled_at p (Some disabled)).

(** [ORDER BY ui_order ASC, upstream_oauth_provider_id ASC]: a stable sort by
    one key after the other. *)
Definition all_enabled : Repo (list UpstreamOAuthProvider.t) :=
  do res <- select (λ d, order_asc ui_order
    (order_asc upstream_oauth_provider_id
       (matching_rows (λ r, bool_decide (disabled_at r = None)) d)));
  lift (map_err Inconsistency (collect try_from res)).

Definition list (filter : UpstreamOAuthProviderFilter.t) (p : Pagination.t) :
    Repo (Page.t UpstreamOAuthProvider.t) :=
  fetch_page upstream_oauth_provider_id try_from
    (matching_rows (UpstreamOAuthProviderFilter.generate_condition filter)) p.

Definition count (filter : UpstreamOAuthProviderFilter.t) : Repo Z :=
  select (λ d, Z.of_nat (length (matching_rows
    (UpstreamOAuthProviderFilter.generate_condition filter) d))).
End Ops.
End UpstreamOAuthProviderRepository.

(** ** Links (link.rs) *)

Module UpstreamOAuthLinkFilter.
Record t := mk {
  user : option User.t;
  provider : option UpstreamOAuthProvider.t;
  provider_enabled : option bool;
  subject : option string;
  human_account_name : option string;
}.
Definition new : t := mk None None None None None.
Definition for_user (u : User.t) (f : t) : t :=
  mk (Some u) (provider f) (provider_enabled f) (subject f) (human_account_name f).
Definition for_provider (p : UpstreamOAuthProvider.t) (f : t) : t :=
  mk (user f) (Some p) (provider_enabled f) (subject f) (human_account_name f).
Definition enabled_providers_only (f : t) : t :=
  mk (user f) (provider f) (Some true) (subject f) (human_account_name f).
Definition disabled_providers_only (f : t) : t :=
  mk (user f) (provider f) (Some false) (subject f) (human_account_name f).
Definition for_subject (s : string) (f : t) : t :=
  mk (user f) (provider f) (provider_enabled f) (Some s) (human_account_name f).
Definition matching_human_account_name (n : string) (f : t) : t :=
  mk (user f) (provider f) (provider_enabled f) (subject f) (Some n).

Definition generate_condition `{!PgPattern} (f : t) (d : Db) (r : LinkLookup.t) : bool :=
  add_option (user f) (λ u, bool_decide (LinkLookup.user_id r = Some (User.id u)))
  && add_option (provider f)
       (λ p, bool_decide (LinkLookup.upstream_oauth_provider_id r = UpstreamOAuthProvider.id p))
  && add_option (provider_enabled f)
       (λ e, bool_decide (LinkLookup.upstream_oauth_provider_id r
                          ∈ ProviderLookup.upstream_oauth_provider_id <$> matching_rows
                              (λ p, eqb (bool_decide (ProviderLookup.disabled_at p = None)) e) d))
  && add_option (subject f) (λ s, bool_decide (LinkLookup.subject r = s))
  && add_option (human_account_name f)
       (λ n, match LinkLookup.human_account_name r with
             | Some name => pg_ilike name ("%" +:+ n +:+ "%")
             | None => false
             end).
End UpstreamOAuthLinkFilter.

Module UpstreamOAuthLinkRepository.
Import LinkLookup.

#[export] Instance LinkLookup_node : Node LinkLookup.t := upstream_oauth_link_id.

(** [From<LinkLookup> for UpstreamOAuthLink]. *)
Definition of_row (r : LinkLookup.t) : UpstreamOAuthLink.t :=
  UpstreamOAuthLink.mk (upstream_oauth_link_id r) (upstream_oauth_provider_id r) (user_id r)
    (subject r) (human_account_name r) (created_at r).

Definition with_user_id (v : option Ulid) (r : LinkLookup.t) : LinkLookup.t :=
  LinkLookup.mk (upstream_oauth_link_id r) (upstream_oauth_provider_id r) v (subject r)
    (human_account_name r) (created_at r).

(** [UNIQUE (upstream_oauth_provider_id, subject)]. *)
Definition unique_subject (provider : Ulid) (s : string) (d : Db) : bool :=
  bool_decide (map_Forall (λ _ r, ¬ (upstream_oauth_provider_id r = provider ∧ subject r = s))
                 (rows (Row := LinkLookup.t) d)).

(** The authorization sessions of a link that is removed. *)
Definition with_unlinked (at_ : DateTime) (r : UpstreamSessionLookup.t) :
    UpstreamSessionLookup.t :=
  let s := r in
  UpstreamSessionLookup.mk (UpstreamSessionLookup.upstream_oauth_authorization_session_id s)
    (UpstreamSessionLookup.upstream_oauth_provider_id s) None (UpstreamSessionLookup.state s)
    (UpstreamSessionLookup.code_challenge_verifier s) (UpstreamSessionLookup.nonce s)
    (UpstreamSessionLookup.id_token s) (UpstreamSessionLookup.id_token_claims s)
    (UpstreamSessionLookup.userinfo s) (UpstreamSessionLookup.created_at s)
    (UpstreamSessionLookup.completed_at s) (UpstreamSessionLookup.consumed_at s)
    (UpstreamSessionLookup.extra_callback_parameters s) (Some at_)
    (UpstreamSessionLookup.user_session_id s).

(** The sessions of the links go with them. *)
Definition cleanup_links_stmt (ids : list Ulid) (d : Db) : option (nat * Db) :=
  let sessions := UpstreamSessionLookup.upstream_oauth_authorization_session_id
                    <$> matching_rows (λ r, match UpstreamSessionLookup.upstream_oauth_link_id r with
                                            | Some i => bool_decide (i ∈ ids)
                                            | None => false
                                            end) d in
  delete_where_stmt (λ r, bool_decide (upstream_oauth_link_id r ∈ ids))
    (delete_upstream_sessions sessions d).

Section Ops.
Context {R : Type} `{!RngCore R, !PgPattern}.
Abbreviation Repo := (M (World R) DatabaseError) (only parsing).

Definition lookup (id : Ulid) : Repo (option UpstreamOAuthLink.t) :=
  do res <- select (λ d, rows (Row := LinkLookup.t) d !! id);
  ret (of_row <$> res).

Definition find_by_subject (provider : UpstreamOAuthProvider.t) (s : string) :
    Repo (option UpstreamOAuthLink.t) :=
  do res <- select (find_row (λ r,
    bool_decide (upstream_oauth_provider_id r = UpstreamOAuthProvider.id provider)
    && bool_decide (subject r = s)));
  ret (of_row <$> res).

Definition add (provider : UpstreamOAuthProvider.t) (s : string) (human_account_name : option string) :
    Repo UpstreamOAuthLink.t :=
  do created <- now;
  do id <- with_rng (from_datetime_with_rng created);
  let provider_id := UpstreamOAuthProvider.id provider in
  do! execute (insert_stmt id (LinkLookup.mk id provider_id None s human_account_name created)
    (λ d, exists_row (Row := ProviderLookup.t) provider_id d && unique_subject provider_id s d));
  ret (UpstreamOAuthLink.mk id provider_id None s human_account_name created).

Definition associate_to_user (link : UpstreamOAuthLink.t) (user : User.t) : Repo unit :=
  do! execute (update_stmt (UpstreamOAuthLink.id link) (with_user_id (Some (User.id user)))
                 (exists_row (Row := UserLookup.t) (User.id user)));
  ret tt.

Definition list (filter : UpstreamOAuthLinkFilter.t) (p : Pagination.t) :
    Repo (Page.t UpstreamOAuthLink.t) :=
  fetch_page upstream_oauth_link_id (λ r, Ok (of_row r))
    (λ d, matching_rows (UpstreamOAuthLinkFilter.generate_condition filter d) d) p.

Definition count (filter : UpstreamOAuthLinkFilter.t) : Repo Z :=
  select (λ d, Z.of_nat (length (matching_rows
    (UpstreamOAuthLinkFilter.generate_condition filter d) d))).

Definition remove (link : UpstreamOAuthLink.t) : Repo unit :=
  do unlinked_at <- now;
  do! execute (update_where_stmt
    (λ r, bool_decide (UpstreamSessionLookup.upstream_oauth_link_id r
                       = Some (UpstreamOAuthLink.id link))) (with_unlinked unlinked_at));
  do res <- execute (delete_links_stmt
    (λ r, bool_decide (upstream_oauth_link_id r = UpstreamOAuthLink.id link)));
  lift (ensure_affected_rows res 1).

Definition cleanup_orphaned (since : option Ulid) (until : Ulid) (limit : Z) :
    Repo (nat * option Ulid) :=
  do to_delete <- gets (λ w, cleanup_rows upstream_oauth_link_id
    (λ r, bool_decide (user_id r = None)) since until limit (w_txn w));
  let ids := upstream_oauth_link_id <$> to_delete in
  do! execute (cleanup_links_stmt ids);
  ret (length ids, QueueJobRepository.max_id ids).
End Ops.
End UpstreamOAuthLinkRepository.

(** ** Authorization sessions (session.rs) *)

Module UpstreamOAuthSessionFilter.
Record t := mk {
  provider : option UpstreamOAuthProvider.t;
  sub_claim : option string;
  sid_claim : option string;
}.
Definition new : t := mk None None None.
Definition for_provider (p : UpstreamOAuthProvider.t) (f : t) : t :=
  mk (Some p) (sub_claim f) (sid_claim f).
Definition with_sub_claim (s : string) (f : t) : t := mk (provider f) (Some s) (sid_claim f).
Definition with_sid_claim (s : string) (f : t) : t := mk (provider f) (sub_claim f) (Some s).

Definition claim_is `{!PgJson} (name v : string) (r : UpstreamSessionLookup.t) : bool :=
  bool_decide ((UpstreamSessionLookup.id_token_claims r ≫= λ j, pg_json_field j name) = Some v).

Definition generate_condition `{!PgJson} (f : t) (r : UpstreamSessionLookup.t) : bool :=
  add_option (provider f) (λ p,
    bool_decide (UpstreamSessionLookup.upstream_oauth_provider_id r = UpstreamOAuthProvider.id p))
  && add_option (sub_claim f) (λ s, claim_is "sub" s r)
  && add_option (sid_claim f) (λ s, claim_is "sid" s r).
End UpstreamOAuthSessionFilter.

Module UpstreamOAuthSessionRepository.
Import UpstreamSessionLookup.

#[export] Instance UpstreamSessionLookup_node : Node UpstreamSessionLookup.t :=
  upstream_oauth_authorization_session_id.

(** [TryFrom<SessionLookup> for UpstreamOAuthAuthorizationSession]. *)
Definition state_of (r : UpstreamSessionLookup.t) :
    result DatabaseInconsistencyError UpstreamOAuthAuthorizationSessionState.t :=
  match upstream_oauth_link_id r, id_token r, id_token_claims r, extra_callback_parameters r,
        userinfo r, completed_at r, consumed_at r, unlinked_at r with
  | None, None, None, None, None, None, None, None =>
      Ok UpstreamOAuthAuthorizationSessionState.Pending
  | Some link_id, id_token, claims, extra, userinfo, Some completed_at, None, None =>
      Ok (UpstreamOAuthAuthorizationSessionState.Completed completed_at link_id id_token claims
            extra userinfo)
  | Some link_id, id_token, claims, extra, userinfo, Some completed_at, Some consumed_at, None =>
      Ok (UpstreamOAuthAuthorizationSessionState.Consumed completed_at consumed_at link_id id_token
            claims extra userinfo)
  | _, id_token, claims, _, _, Some completed_at, consumed_at, Some unlinked_at =>
      Ok (UpstreamOAuthAuthorizationSessionState.Unlinked completed_at consumed_at unlinked_at
            id_token claims)
  | _, _, _, _, _, _, _, _ =>
      Err (on "upstream_oauth_authorization_sessions" None
             (Some (upstream_oauth_authorization_session_id r)))
  end.

Definition try_from (r : UpstreamSessionLookup.t) :
    result DatabaseInconsistencyError UpstreamOAuthAuthorizationSession.t :=
  try st <- state_of r;
  Ok (UpstreamOAuthAuthorizationSession.mk (upstream_oauth_authorization_session_id r) st
        (upstream_oauth_provider_id r) (state r) (code_challenge_verifier r) (nonce r)
        (created_at r)).

Definition with_completion (link : Ulid) (at_ : DateTime) (id_token : option string)
    (claims extra userinfo : option Json) (r : UpstreamSessionLookup.t) : UpstreamSessionLookup.t :=
  UpstreamSessionLookup.mk (upstream_oauth_authorization_session_id r)
    (upstream_oauth_provider_id r) (Some link) (state r) (code_challenge_verifier r) (nonce r)
    id_token claims userinfo (created_at r) (Some at_) (consumed_at r) extra (unlinked_at r)
    (user_session_id r).

Definition with_user_session_id (v : option Ulid) (r : UpstreamSessionLookup.t) :
    UpstreamSessionLookup.t :=
  UpstreamSessionLookup.mk (upstream_oauth_authorization_session_id r)
    (upstream_oauth_provider_id r) (upstream_oauth_link_id r) (state r)
    (code_challenge_verifier r) (nonce r) (id_token r) (id_token_claims r) (userinfo r)
    (created_at r) (completed_at r) (consumed_at r) (extra_callback_parameters r) (unlinked_at r) v.

Definition with_consumed (at_ : DateTime) (us : Ulid) (r : UpstreamSessionLookup.t) :
    UpstreamSessionLookup.t :=
  UpstreamSessionLookup.mk (upstream_oauth_authorization_session_id r)
    (upstream_oauth_provider_id r) (upstream_oauth_link_id r) (state r)
    (code_challenge_verifier r) (nonce r) (id_token r) (id_token_claims r) (userinfo r)
    (created_at r) (completed_at r) (Some at_) (extra_callback_parameters r) (unlinked_at r)
    (Some us).

Section Ops.
Context {R : Type} `{!RngCore R, !PgJson}.
Abbreviation Repo := (M (World R) DatabaseError) (only parsing).

Definition lookup (id : Ulid) : Repo (option UpstreamOAuthAuthorizationSession.t) :=
  do res <- select (λ d, rows (Row := UpstreamSessionLookup.t) d !! id);
  decode_row try_from res.

Definition add (provider : UpstreamOAuthProvider.t) (state_str : string)
    (code_challenge_verifier nonce : option string) : Repo UpstreamOAuthAuthorizationSession.t :=
  do created <- now;
  do id <- with_rng (from_datetime_with_rng created);
  let provider_id := UpstreamOAuthProvider.id provider in
  do! execute (insert_stmt id
    (UpstreamSessionLookup.mk id provider_id None state_str code_challenge_verifier nonce None None
       None created None None None None None)
    (λ d, exists_row (Row := ProviderLookup.t) provider_id d
          && unique_value (λ r, Some (state r)) state_str d));
  ret (UpstreamOAuthAuthorizationSession.mk id UpstreamOAuthAuthorizationSessionState.Pending
         provider_id state_str code_challenge_verifier nonce created).

Definition complete_with_link (s : UpstreamOAuthAuthorizationSession.t)
    (link : UpstreamOAuthLink.t) (id_token : option string)
    (id_token_claims extra_callback_parameters userinfo : option Json) :
    Repo UpstreamOAuthAuthorizationSession.t :=
  do completed <- now;
  do! execute (update_stmt (UpstreamOAuthAuthorizationSession.id s)
    (with_completion (UpstreamOAuthLink.id link) completed id_token id_token_claims
       extra_callback_parameters userinfo)
    (exists_row (Row := LinkLookup.t) (UpstreamOAuthLink.id link)));
  lift (map_err to_invalid_operation
    (UpstreamOAuthAuthorizationSession.complete s completed link id_token id_token_claims
       extra_callback_parameters userinfo)).

Definition consume (s : UpstreamOAuthAuthorizationSession.t) (b : BrowserSession.t) :
    Repo UpstreamOAuthAuthorizationSession.t :=
  do consumed <- now;
  do! execute (update_stmt (UpstreamOAuthAuthorizationSession.id s)
    (with_consumed consumed (BrowserSession.id b))
    (exists_row (Row := UserSessionRow.t) (BrowserSession.id b)));
  lift (map_err to_invalid_operation (UpstreamOAuthAuthorizationSession.consume s consumed)).

Definition list (filter : UpstreamOAuthSessionFilter.t) (p : Pagination.t) :
    Repo (Page.t UpstreamOAuthAuthorizationSession.t) :=
  fetch_page upstream_oauth_authorization_session_id try_from
    (matching_rows (UpstreamOAuthSessionFilter.generate_condition filter)) p.

Definition count (filter : UpstreamOAuthSessionFilter.t) : Repo Z :=
  select (λ d, Z.of_nat (length (matching_rows
    (UpstreamOAuthSessionFilter.generate_condition filter) d))).

Definition cleanup_orphaned (since : option Ulid) (until : Ulid) (limit : Z) :
    Repo (nat * option Ulid) :=
  do to_delete <- gets (λ w, cleanup_rows upstream_oauth_authorization_session_id
    (λ r, bool_decide (user_session_id r = None)) since until limit (w_txn w));
  let ids := upstream_oauth_authorization_session_id <$> to_delete in
  do! execute (λ d, Some (length ids, delete_upstream_sessions ids d));
  ret (length ids, QueueJobRepository.max_id ids).
End Ops.
End UpstreamOAuthSessionRepository.
