(* ===== verification/AccountRepo.v ===== *)
(** * Repositories of the accounts

    crates/storage-pg/src/user: registration.rs, registration_token.rs, terms.rs,
    recovery.rs, the email authentications of email.rs and the authentications of
    browser sessions of session.rs, with the filter of
    crates/storage/src/user/registration_token.rs. *)

From stdpp Require Import base tactics list strings gmap.
From Stdlib Require Import ZArith Lia.
From S2P Require Import Prelude Text Scope Externals Formats Pagination TokenFormat DataModel UpstreamModel AccountModel Storage TokenRepo QueueRepo UserRepo UpstreamRepo.
#[local] Open Scope Z_scope.

(** [UPDATE ... WHERE id AND p], refused when the new row violates a
    constraint. *)
Definition update_checked_stmt {Row} `{!Table Row} (id : Ulid) (p : Row → bool) (f : Row → Row)
    (constraints : Db → bool) (d : Db) : option (nat * Db) :=
  match rows d !! id with
  | None => Some (0%nat, d)
  | Some r =>
      if p r then if constraints d then Some (1%nat, set_rows (<[id := f r]> (rows d)) d) else None
      else Some (0%nat, d)
  end.

(** [TryFrom<u32> for i32], [TryFrom<i32> for u32]. *)
Definition i32_of_u32 (v : Z) : option Z := if v <? 2 ^ 31 then Some v else None.
Definition u32_of_i32 (v : Z) : option Z := if 0 <=? v then Some v else None.

(** ** Authentications of browser sessions (user/session.rs) *)
Module SessionAuthentications.
Import AuthenticationRow.

(** The trigger on [user_session_authentications]: an authorization session that
    has no browser session gets that of the authentication. *)
Definition track_user_session (r : AuthenticationRow.t) (d : Db) : Db :=
  match upstream_oauth_authorization_session_id r with
  | None => d
  | Some upstream =>
      let fix_row s :=
        if bool_decide (UpstreamSessionLookup.user_session_id s = None)
        then UpstreamOAuthSessionRepository.with_user_session_id (Some (user_session_id r)) s
        else s in
      set_rows (alter fix_row upstream (rows (Row := UpstreamSessionLookup.t) d)) d
  end.

Definition insert_authentication_stmt (r : AuthenticationRow.t) (d : Db) : option (nat * Db) :=
  match insert_stmt (user_session_authentication_id r) r
          (λ d, exists_row (Row := UserSessionRow.t) (user_session_id r) d
                && exists_row_opt (Row := UserPasswordLookup.t) (user_password_id r) d
                && exists_row_opt (Row := UpstreamSessionLookup.t)
                     (upstream_oauth_authorization_session_id r) d) d with
  | Some (n, d) => Some (n, track_user_session r d)
  | None => None
  end.

Section Ops.
Context {R : Type} `{!RngCore R}.
Abbreviation Repo := (M (World R) DatabaseError) (only parsing).

Definition authenticate_with_password (s : BrowserSession.t) (p : UserPassword.t) :
    Repo Authentication.t :=
  do created <- now;
  do id <- with_rng (from_datetime_with_rng created);
  do! execute (insert_authentication_stmt
    (AuthenticationRow.mk id (BrowserSession.id s) created (Some (UserPassword.id p)) None));
  ret (Authentication.mk id created (Password (UserPassword.id p))).

Definition authenticate_with_upstream (s : BrowserSession.t)
    (u : UpstreamOAuthAuthorizationSession.t) : Repo Authentication.t :=
  do created <- now;
  do id <- with_rng (from_datetime_with_rng created);
  do! execute (insert_authentication_stmt
    (AuthenticationRow.mk id (BrowserSession.id s) created None
       (Some (UpstreamOAuthAuthorizationSession.id u))));
  ret (Authentication.mk id created (UpstreamOAuth2 (UpstreamOAuthAuthorizationSession.id u))).
End Ops.
End SessionAuthentications.

(** ** Registrations (registration.rs) *)
Module UserRegistrationRepository.
Import UserRegistrationLookup.

Section Decode.
Context `{!UrlLib}.

Definition password_of (r : UserRegistrationLookup.t) :
    result DatabaseInconsistencyError (option UserRegistrationPassword.t) :=
  let id := user_registration_id r in
  match hashed_password r, hashed_password_version r with
  | Some hashed_password, Some version =>
      try version <- ok_or (UserPasswordRepository.scheme_version version)
                       (on "user_registrations" (Some "hashed_password_version") (Some id));
      Ok (Some (UserRegistrationPassword.mk hashed_password version))
  | None, None => Ok None
  | _, _ => Err (on "user_registrations" (Some "hashed_password") (Some id))
  end.

(** [TryFrom<UserRegistrationLookup> for UserRegistration]. *)
Definition try_from (r : UserRegistrationLookup.t) :
    result DatabaseInconsistencyError UserRegistration.t :=
  let id := user_registration_id r in
  try password <- password_of r;
  try terms_url <-
    match terms_url r with
    | None => Ok None
    | Some u =>
        try u <- ok_or (url_parse u) (on "user_registrations" (Some "terms_url") (Some id));
        Ok (Some u)
    end;
  Ok (UserRegistration.mk id (username r) (display_name r) terms_url (email_authentication_id r)
        (user_registration_token_id r) password (upstream_oauth_authorization_session_id r)
        (post_auth_action r) (ip_address r) (user_agent r) (created_at r) (completed_at r)).
End Decode.

Definition with_display_name (v : string) (r : UserRegistrationLookup.t) :=
  UserRegistrationLookup.mk (user_registration_id r) (ip_address r) (user_agent r)
    (post_auth_action r) (username r) (Some v) (terms_url r) (email_authentication_id r)
    (user_registration_token_id r) (hashed_password r) (hashed_password_version r)
    (upstream_oauth_authorization_session_id r) (created_at r) (completed_at r).
Definition with_terms_url (v : string) (r : UserRegistrationLookup.t) :=
  UserRegistrationLookup.mk (user_registration_id r) (ip_address r) (user_agent r)
    (post_auth_action r) (username r) (display_name r) (Some v) (email_authentication_id r)
    (user_registration_token_id r) (hashed_password r) (hashed_password_version r)
    (upstream_oauth_authorization_session_id r) (created_at r) (completed_at r).
Definition with_email_authentication_id (v : option Ulid) (r : UserRegistrationLookup.t) :=
  UserRegistrationLookup.mk (user_registration_id r) (ip_address r) (user_agent r)
    (post_auth_action r) (username r) (display_name r) (terms_url r) v
    (user_registration_token_id r) (hashed_password r) (hashed_password_version r)
    (upstream_oauth_authorization_session_id r) (created_at r) (completed_at r).
Definition with_password (hashed : string) (version : Z) (r : UserRegistrationLookup.t) :=
  UserRegistrationLookup.mk (user_registration_id r) (ip_address r) (user_agent r)
    (post_auth_action r) (username r) (display_name r) (terms_url r) (email_authentication_id r)
    (user_registration_token_id r) (Some hashed) (Some version)
    (upstream_oauth_authorization_session_id r) (created_at r) (completed_at r).
Definition with_registration_token (v : Ulid) (r : UserRegistrationLookup.t) :=
  UserRegistrationLookup.mk (user_registration_id r) (ip_address r) (user_agent r)
    (post_auth_action r) (username r) (display_name r) (terms_url r) (email_authentication_id r)
    (Some v) (hashed_password r) (hashed_password_version r)
    (upstream_oauth_authorization_session_id r) (created_at r) (completed_at r).
Definition with_upstream_session (v : Ulid) (r : UserRegistrationLookup.t) :=
  UserRegistrationLookup.mk (user_registration_id r) (ip_address r) (user_agent r)
    (post_auth_action r) (username r) (display_name r) (terms_url r) (email_authentication_id r)
    (user_registration_token_id r) (hashed_password r) (hashed_password_version r)
    (Some v) (created_at r) (completed_at r).
Definition with_completed_at (v : DateTime) (r : UserRegistrationLookup.t) :=
  UserRegistrationLookup.mk (user_registration_id r) (ip_address r) (user_agent r)
    (post_auth_action r) (username r) (display_name r) (terms_url r) (email_authentication_id r)
    (user_registration_token_id r) (hashed_password r) (hashed_password_version r)
    (upstream_oauth_authorization_session_id r) (created_at r) (Some v).

(** [WHERE user_registration_id = $1 AND completed_at IS NULL]. *)
Definition update_pending_stmt (registration : UserRegistration.t)
    (f : UserRegistrationLookup.t → UserRegistrationLookup.t) (constraints : Db → bool) :
    Db → option (nat * Db) :=
  update_checked_stmt (UserRegistration.id registration)
    (λ r, bool_decide (completed_at r = None)) f constraints.

(** The deletion of email authentications, and what goes with it. *)
Definition delete_authentications (ids : list Ulid) (d : Db) : Db :=
  let auths := base.filter (λ kr, kr.1 ∉ ids) (rows (Row := UserEmailAuthenticationLookup.t) d) in
  let codes := base.filter
    (λ kr, UserEmailAuthenticationCodeLookup.user_email_authentication_id kr.2 ∉ ids)
    (rows (Row := UserEmailAuthenticationCodeLookup.t) d) in
  let registrations := (λ r, if bool_decide (email_authentication_id r ∈ Some <$> ids)
                             then with_email_authentication_id None r else r)
                       <$> rows (Row := UserRegistrationLookup.t) d in
  set_rows registrations (set_rows codes (set_rows auths d)).

(** [DELETE] of registrations: their email authentications go with them. *)
Definition delete_registrations_stmt (ids : list Ulid) (d : Db) : option (nat * Db) :=
  let auths := UserEmailAuthenticationLookup.user_email_authentication_id
    <$> matching_rows (λ r, bool_decide
          (UserEmailAuthenticationLookup.user_registration_id r ∈ Some <$> ids)) d in
  delete_where_stmt (λ r, bool_decide (user_registration_id r ∈ ids))
    (delete_authentications auths d).

Section Ops.
Context {R : Type} `{!RngCore R, !UrlLib}.
Abbreviation Repo := (M (World R) DatabaseError) (only parsing).

Definition lookup (id : Ulid) : Repo (option UserRegistration.t) :=
  do res <- select (λ d, rows (Row := UserRegistrationLookup.t) d !! id);
  decode_row try_from res.

Definition add (username : string) (ip_address : option IpAddr) (user_agent : option string)
    (post_auth_action : option Json) : Repo UserRegistration.t :=
  do created <- now;
  do id <- with_rng (from_datetime_with_rng created);
  do! execute (insert_stmt id
    (UserRegistrationLookup.mk id ip_address user_agent post_auth_action username None None None
       None None None None created None) (λ _, true));
  ret (UserRegistration.mk id username None None None None None None post_auth_action ip_address
         user_agent created None).

Definition set_display_name (r : UserRegistration.t) (name : string) : Repo UserRegistration.t :=
  do res <- execute (update_pending_stmt r (with_display_name name) (λ _, true));
  do! lift (ensure_affected_rows res 1);
  ret (UserRegistration.with_display_name r (Some name)).

Definition set_terms_url (r : UserRegistration.t) (url : Url) : Repo UserRegistration.t :=
  do res <- execute (update_pending_stmt r (with_terms_url url) (λ _, true));
  do! lift (ensure_affected_rows res 1);
  ret (UserRegistration.with_terms_url r (Some url)).

Definition set_email_authentication (r : UserRegistration.t) (a : UserEmailAuthentication.t) :
    Repo UserRegistration.t :=
  let id := UserEmailAuthentication.id a in
  do res <- execute (update_pending_stmt r (with_email_authentication_id (Some id))
                       (exists_row (Row := UserEmailAuthenticationLookup.t) id));
  do! lift (ensure_affected_rows res 1);
  ret (UserRegistration.with_email_authentication_id r (Some id)).

Definition set_password (r : UserRegistration.t) (hashed : string) (version : Z) :
    Repo UserRegistration.t :=
  do res <- execute (update_pending_stmt r (with_password hashed version) (λ _, true));
  do! lift (ensure_affected_rows res 1);
  ret (UserRegistration.with_password r (Some (UserRegistrationPassword.mk hashed version))).

Definition set_registration_token (r : UserRegistration.t) (x : UserRegistrationToken.t) :
    Repo UserRegistration.t :=
  let id := UserRegistrationToken.id x in
  do res <- execute (update_pending_stmt r (with_registration_token id)
                       (exists_row (Row := UserRegistrationTokenLookup.t) id));
  do! lift (ensure_affected_rows res 1);
  ret (UserRegistration.with_user_registration_token_id r (Some id)).

Definition set_upstream_oauth_authorization_session (r : UserRegistration.t)
    (u : UpstreamOAuthAuthorizationSession.t) : Repo UserRegistration.t :=
  let id := UpstreamOAuthAuthorizationSession.id u in
  do res <- execute (update_pending_stmt r (with_upstream_session id)
                       (exists_row (Row := UpstreamSessionLookup.t) id));
  do! lift (ensure_affected_rows res 1);
  ret (UserRegistration.with_upstream_session_id r (Some id)).

Definition complete (r : UserRegistration.t) : Repo UserRegistration.t :=
  do completed <- now;
  do res <- execute (update_pending_stmt r (with_completed_at completed) (λ _, true));
  do! lift (ensure_affected_rows res 1);
  ret (UserRegistration.with_completed_at r (Some completed)).

Definition cleanup (since : option Ulid) (until : Ulid) (limit : Z) : Repo (nat * option Ulid) :=
  do to_delete <- gets (λ w, cleanup_rows user_registration_id (λ _, true) since until limit
                               (w_txn w));
  let ids := user_registration_id <$> to_delete in
  do! execute (delete_registrations_stmt ids);
  ret (length ids, QueueJobRepository.max_id ids).
End Ops.
End UserRegistrationRepository.

(** ** Registration tokens (registration_token.rs) *)

Module UserRegistrationTokenFilter.
Record t := mk {
  now : DateTime;
  has_been_used : option bool;
  is_revoked : option bool;
  is_expired : option bool;
  is_valid : option bool;
}.
Definition new (now : DateTime) : t := mk now None None None None.
Definition with_been_used (b : bool) (f : t) : t :=
  mk (now f) (Some b) (is_revoked f) (is_expired f) (is_valid f).
Definition with_revoked (b : bool) (f : t) : t :=
  mk (now f) (has_been_used f) (Some b) (is_expired f) (is_valid f).
Definition with_expired (b : bool) (f : t) : t :=
  mk (now f) (has_been_used f) (is_revoked f) (Some b) (is_valid f).
Definition with_valid (b : bool) (f : t) : t :=
  mk (now f) (has_been_used f) (is_revoked f) (is_expired f) (Some b).

Import UserRegistrationTokenLookup.
Import BrowserSessionFilter(add_option).

Definition not_expired (now : DateTime) (r : UserRegistrationTokenLookup.t) : bool :=
  match expires_at r with None => true | Some e => now <=? e end.

Definition valid (now : DateTime) (r : UserRegistrationTokenLookup.t) : bool :=
  match usage_limit r with None => true | Some l => times_used r <? l end
  && bool_decide (revoked_at r = None)
  && not_expired now r.

Definition generate_condition (f : UserRegistrationTokenFilter.t)
    (r : UserRegistrationTokenLookup.t) : bool :=
  add_option (has_been_used f) (λ b, if b : bool then 0 <? times_used r else times_used r =? 0)
  && add_option (is_revoked f) (λ b, if b : bool then bool_decide (is_Some (revoked_at r))
                                     else bool_decide (revoked_at r = None))
  && add_option (is_expired f)
       (λ b, if b : bool then match expires_at r with Some e => e <? now f | None => false end
             else not_expired (now f) r)
  && add_option (is_valid f) (λ b, if b : bool then valid (now f) r else negb (valid (now f) r)).
End UserRegistrationTokenFilter.

Module UserRegistrationTokenRepository.
Import UserRegistrationTokenLookup.

#[export] Instance UserRegistrationTokenLookup_node : Node UserRegistrationTokenLookup.t :=
  user_registration_token_id.

(** [TryFrom<UserRegistrationTokenLookup> for UserRegistrationToken]. *)
Definition try_from (r : UserRegistrationTokenLookup.t) :
    result DatabaseInconsistencyError UserRegistrationToken.t :=
  let id := user_registration_token_id r in
  try usage_limit <-
    match usage_limit r with
    | None => Ok None
    | Some l =>
        try l <- ok_or (u32_of_i32 l) (on "user_registration_tokens" (Some "usage_limit") (Some id));
        Ok (Some l)
    end;
  try times_used <- ok_or (u32_of_i32 (times_used r))
                      (on "user_registration_tokens" (Some "times_used") (Some id));
  Ok (UserRegistrationToken.mk id (token r) usage_limit times_used (created_at r) (last_used_at r)
        (expires_at r) (revoked_at r)).

Definition with_use (now : DateTime) (r : UserRegistrationTokenLookup.t) :=
  UserRegistrationTokenLookup.mk (user_registration_token_id r) (token r) (usage_limit r)
    (times_used r + 1) (created_at r) (Some now) (expires_at r) (revoked_at r).
Definition with_revoked_at (v : option DateTime) (r : UserRegistrationTokenLookup.t) :=
  UserRegistrationTokenLookup.mk (user_registration_token_id r) (token r) (usage_limit r)
    (times_used r) (created_at r) (last_used_at r) (expires_at r) v.
Definition with_expires_at (v : option DateTime) (r : UserRegistrationTokenLookup.t) :=
  UserRegistrationTokenLookup.mk (user_registration_token_id r) (token r) (usage_limit r)
    (times_used r) (created_at r) (last_used_at r) v (revoked_at r).
Definition with_usage_limit (v : option Z) (r : UserRegistrationTokenLookup.t) :=
  UserRegistrationTokenLookup.mk (user_registration_token_id r) (token r) v
    (times_used r) (created_at r) (last_used_at r) (expires_at r) (revoked_at r).

(** [UPDATE ... SET times_used = times_used + 1 WHERE id AND revoked_at IS NULL
    RETURNING times_used]: an [INTEGER] that overflows is an error, and so is the
    row that is not found. *)
Definition use_token_stmt (id : Ulid) (now : DateTime) (d : Db) : option (nat * Db) :=
  match rows (Row := UserRegistrationTokenLookup.t) d !! id with
  | Some r =>
      if bool_decide (revoked_at r = None) && (times_used r + 1 <? 2 ^ 31)
      then Some (1%nat, set_rows (<[id := with_use now r]> (rows d)) d)
      else None
  | None => None
  end.

Definition usage_limit_i32 (usage_limit : option Z) : result DatabaseError (option Z) :=
  match usage_limit with
  | None => Ok None
  | Some l => try l <- ok_or (i32_of_u32 l) InvalidOperation; Ok (Some l)
  end.

Section Ops.
Context {R : Type} `{!RngCore R}.
Abbreviation Repo := (M (World R) DatabaseError) (only parsing).

Definition lookup (id : Ulid) : Repo (option UserRegistrationToken.t) :=
  do res <- select (λ d, rows (Row := UserRegistrationTokenLookup.t) d !! id);
  decode_row try_from res.

Definition find_by_token (x : string) : Repo (option UserRegistrationToken.t) :=
  do res <- select (find_row (λ r, bool_decide (token r = x)));
  decode_row try_from res.

Definition add (token_ : string) (usage_limit : option Z) (expires_at : option DateTime) :
    Repo UserRegistrationToken.t :=
  do created <- now;
  do id <- with_rng (from_datetime_with_rng created);
  do usage_limit_i32 <- lift (usage_limit_i32 usage_limit);
  do! execute (insert_stmt id
    (UserRegistrationTokenLookup.mk id token_ usage_limit_i32 0 created None expires_at None)
    (unique_value (λ r, Some (token r)) token_));
  ret (UserRegistrationToken.mk id token_ usage_limit 0 created None expires_at None).

Definition use_token (x : UserRegistrationToken.t) : Repo UserRegistrationToken.t :=
  do now_ <- now;
  let id := UserRegistrationToken.id x in
  do! execute (use_token_stmt id now_);
  do new_times_used <- gets (λ w, from_option times_used 0
                               (user_registration_tokens (accounts (w_txn w)) !! id));
  do new_times_used <- lift (ok_or (u32_of_i32 new_times_used) InvalidOperation);
  ret (UserRegistrationToken.with_use x new_times_used (Some now_)).

Definition revoke (x : UserRegistrationToken.t) : Repo UserRegistrationToken.t :=
  do revoked <- now;
  do res <- execute (update_stmt (UserRegistrationToken.id x) (with_revoked_at (Some revoked))
                       (λ _, true));
  do! lift (ensure_affected_rows res 1);
  ret (UserRegistrationToken.with_revoked_at x (Some revoked)).

Definition unrevoke (x : UserRegistrationToken.t) : Repo UserRegistrationToken.t :=
  do res <- execute (update_stmt (UserRegistrationToken.id x) (with_revoked_at None) (λ _, true));
  do! lift (ensure_affected_rows res 1);
  ret (UserRegistrationToken.with_revoked_at x None).

Definition set_expiry (x : UserRegistrationToken.t) (v : option DateTime) :
    Repo UserRegistrationToken.t :=
  do res <- execute (update_stmt (UserRegistrationToken.id x) (with_expires_at v) (λ _, true));
  do! lift (ensure_affected_rows res 1);
  ret (UserRegistrationToken.with_expires_at x v).

Definition set_usage_limit (x : UserRegistrationToken.t) (v : option Z) :
    Repo UserRegistrationToken.t :=
  do usage_limit_i32 <- lift (usage_limit_i32 v);
  do res <- execute (update_stmt (UserRegistrationToken.id x) (with_usage_limit usage_limit_i32)
                       (λ _, true));
  do! lift (ensure_affected_rows res 1);
  ret (UserRegistrationToken.with_usage_limit x v).

Definition list (filter : UserRegistrationTokenFilter.t) (p : Pagination.t) :
    Repo (Page.t UserRegistrationToken.t) :=
  fetch_page user_registration_token_id try_from
    (matching_rows (UserRegistrationTokenFilter.generate_condition filter)) p.

Definition count (filter : UserRegistrationTokenFilter.t) : Repo Z :=
  select (λ d, Z.of_nat (length (matching_rows
    (UserRegistrationTokenFilter.generate_condition filter) d))).
End Ops.
End UserRegistrationTokenRepository.

(** ** Terms (terms.rs) *)
Module UserTermsRepository.
Import UserTermsRow.

(** [INSERT ... ON CONFLICT (user_id, terms_url) DO NOTHING]. *)
Definition insert_terms_stmt (r : UserTermsRow.t) (d : Db) : option (nat * Db) :=
  if bool_decide (map_Forall (λ _ r', ¬ (user_id r' = user_id r ∧ terms_url r' = terms_url r))
                    (rows (Row := UserTermsRow.t) d))
  then insert_stmt (user_terms_id r) r (exists_row (Row := UserLookup.t) (user_id r)) d
  else Some (0%nat, d).

Definition accept_terms {R} `{!RngCore R} (user : User.t) (terms_url : Url) :
    M (World R) DatabaseError unit :=
  do created <- now;
  do id <- with_rng (from_datetime_with_rng created);
  do! execute (insert_terms_stmt (UserTermsRow.mk id (User.id user) terms_url created));
  ret tt.
End UserTermsRepository.

(** ** Email authentications (email.rs) *)
Module UserEmailAuthenticationRepository.
Import UserEmailAuthenticationLookup.

(** [From<UserEmailAuthenticationLookup> for UserEmailAuthentication]. *)
Definition of_row (r : UserEmailAuthenticationLookup.t) : UserEmailAuthentication.t :=
  UserEmailAuthentication.mk (user_email_authentication_id r) (user_session_id r)
    (user_registration_id r) (email r) (created_at r) (completed_at r).

(** [From<UserEmailAuthenticationCodeLookup> for UserEmailAuthenticationCode]. *)
Definition code_of_row (r : UserEmailAuthenticationCodeLookup.t) : UserEmailAuthenticationCode.t :=
  UserEmailAuthenticationCode.mk
    (UserEmailAuthenticationCodeLookup.user_email_authentication_code_id r)
    (UserEmailAuthenticationCodeLookup.user_email_authentication_id r)
    (UserEmailAuthenticationCodeLookup.code r) (UserEmailAuthenticationCodeLookup.created_at r)
    (UserEmailAuthenticationCodeLookup.expires_at r).

Definition with_completed_at (v : DateTime) (r : UserEmailAuthenticationLookup.t) :=
  UserEmailAuthenticationLookup.mk (user_email_authentication_id r) (user_session_id r)
    (user_registration_id r) (email r) (created_at r) (Some v).

(** [UNIQUE (user_email_authentication_id, code)]. *)
Definition unique_code (auth : Ulid) (code : string) (d : Db) : bool :=
  bool_decide (map_Forall
    (λ _ r, ¬ (UserEmailAuthenticationCodeLookup.user_email_authentication_id r = auth
               ∧ UserEmailAuthenticationCodeLookup.code r = code))
    (rows (Row := UserEmailAuthenticationCodeLookup.t) d)).

(** [DELETE] of authentications. *)
Definition delete_authentications_stmt (ids : list Ulid) (d : Db) : option (nat * Db) :=
  Some (length ids, UserRegistrationRepository.delete_authentications ids d).

Section Ops.
Context {R : Type} `{!RngCore R}.
Abbreviation Repo := (M (World R) DatabaseError) (only parsing).

Definition add_authentication_for_session (e : string) (s : BrowserSession.t) :
    Repo UserEmailAuthentication.t :=
  do created <- now;
  do id <- with_rng (from_datetime_with_rng created);
  do! execute (insert_stmt id
    (UserEmailAuthenticationLookup.mk id (Some (BrowserSession.id s)) None e created None)
    (exists_row (Row := UserSessionRow.t) (BrowserSession.id s)));
  ret (UserEmailAuthentication.mk id (Some (BrowserSession.id s)) None e created None).

Definition add_authentication_for_registration (e : string) (r : UserRegistration.t) :
    Repo UserEmailAuthentication.t :=
  do created <- now;
  do id <- with_rng (from_datetime_with_rng created);
  do! execute (insert_stmt id
    (UserEmailAuthenticationLookup.mk id None (Some (UserRegistration.id r)) e created None)
    (exists_row (Row := UserRegistrationLookup.t) (UserRegistration.id r)));
  ret (UserEmailAuthentication.mk id None (Some (UserRegistration.id r)) e created None).

Definition add_authentication_code (duration : Duration) (a : UserEmailAuthentication.t)
    (code : string) : Repo UserEmailAuthenticationCode.t :=
  do created <- now;
  let expires_at := created + duration in
  do id <- with_rng (from_datetime_with_rng created);
  let auth := UserEmailAuthentication.id a in
  do! execute (insert_stmt id (UserEmailAuthenticationCodeLookup.mk id auth code created expires_at)
    (λ d, exists_row (Row := UserEmailAuthenticationLookup.t) auth d && unique_code auth code d));
  ret (UserEmailAuthenticationCode.mk id auth code created expires_at).

Definition lookup_authentication (id : Ulid) : Repo (option UserEmailAuthentication.t) :=
  do res <- select (λ d, rows (Row := UserEmailAuthenticationLookup.t) d !! id);
  ret (of_row <$> res).

Definition find_authentication_code (a : UserEmailAuthentication.t) (code : string) :
    Repo (option UserEmailAuthenticationCode.t) :=
  do res <- select (find_row (λ r,
    bool_decide (UserEmailAuthenticationCodeLookup.user_email_authentication_id r
                 = UserEmailAuthentication.id a)
    && bool_decide (UserEmailAuthenticationCodeLookup.code r = code)));
  ret (code_of_row <$> res).

Definition complete_authentication (a : UserEmailAuthentication.t) :
    Repo UserEmailAuthentication.t :=
  do completed <- now;
  do res <- execute (update_row_where_stmt (UserEmailAuthentication.id a)
    (λ r, bool_decide (completed_at r = None)) (with_completed_at completed));
  do! lift (ensure_affected_rows res 1);
  ret (UserEmailAuthentication.with_completed_at a (Some completed)).

(** Neither reads the proof it is given. *)
Definition complete_authentication_with_code (a : UserEmailAuthentication.t)
    (_ : UserEmailAuthenticationCode.t) : Repo UserEmailAuthentication.t :=
  complete_authentication a.
Definition complete_authentication_with_upstream (a : UserEmailAuthentication.t)
    (_ : UpstreamOAuthAuthorizationSession.t) : Repo UserEmailAuthentication.t :=
  complete_authentication a.

Definition cleanup_authentications (since : option Ulid) (until : Ulid) (limit : Z) :
    Repo (nat * option Ulid) :=
  do to_delete <- gets (λ w, cleanup_rows user_email_authentication_id (λ _, true) since until limit
                               (w_txn w));
  let ids := user_email_authentication_id <$> to_delete in
  do! execute (delete_authentications_stmt ids);
  ret (length ids, QueueJobRepository.max_id ids).
End Ops.
End UserEmailAuthenticationRepository.

(** ** Recovery (recovery.rs) *)
Module UserRecoveryRepository.
Import UserRecoverySessionRow.

(** [From<UserRecoverySessionRow> for UserRecoverySession]. *)
Definition of_row (r : UserRecoverySessionRow.t) : UserRecoverySession.t :=
  UserRecoverySession.mk (user_recovery_session_id r) (email r) (user_agent r) (ip_address r)
    (locale r) (created_at r) (consumed_at r).

(** [From<UserRecoveryTicketRow> for UserRecoveryTicket]. *)
Definition ticket_of_row (r : UserRecoveryTicketRow.t) : UserRecoveryTicket.t :=
  UserRecoveryTicket.mk (UserRecoveryTicketRow.user_recovery_ticket_id r)
    (UserRecoveryTicketRow.user_recovery_session_id r) (UserRecoveryTicketRow.user_email_id r)
    (UserRecoveryTicketRow.ticket r) (UserRecoveryTicketRow.created_at r)
    (UserRecoveryTicketRow.expires_at r).

Definition with_consumed_at (v : DateTime) (r : UserRecoverySessionRow.t) :=
  UserRecoverySessionRow.mk (user_recovery_session_id r) (email r) (user_agent r) (ip_address r)
    (locale r) (created_at r) (Some v).

Definition TEN_MINUTES : Duration := 600 * 1000000.

(** [DELETE] of sessions: their tickets go with them. *)
Definition delete_sessions_stmt (ids : list Ulid) (d : Db) : option (nat * Db) :=
  let tickets := base.filter (λ kr, UserRecoveryTicketRow.user_recovery_session_id kr.2 ∉ ids)
                   (rows (Row := UserRecoveryTicketRow.t) d) in
  delete_where_stmt (λ r, bool_decide (user_recovery_session_id r ∈ ids)) (set_rows tickets d).

Section Ops.
Context {R : Type} `{!RngCore R}.
Abbreviation Repo := (M (World R) DatabaseError) (only parsing).

Definition lookup_session (id : Ulid) : Repo (option UserRecoverySession.t) :=
  do res <- select (λ d, rows (Row := UserRecoverySessionRow.t) d !! id);
  ret (of_row <$> res).

Definition add_session (e user_agent : string) (ip_address : option IpAddr) (locale : string) :
    Repo UserRecoverySession.t :=
  do created <- now;
  do id <- with_rng (from_datetime_with_rng created);
  do! execute (insert_stmt id
    (UserRecoverySessionRow.mk id e user_agent ip_address locale created None) (λ _, true));
  ret (UserRecoverySession.mk id e user_agent ip_address locale created None).

Definition find_ticket (ticket : string) : Repo (option UserRecoveryTicket.t) :=
  do res <- select (find_row (λ r, bool_decide (UserRecoveryTicketRow.ticket r = ticket)));
  ret (ticket_of_row <$> res).

Definition add_ticket (s : UserRecoverySession.t) (e : UserEmail.t) (ticket : string) :
    Repo UserRecoveryTicket.t :=
  do created <- now;
  do id <- with_rng (from_datetime_with_rng created);
  let expires_at := created + TEN_MINUTES in
  let session := UserRecoverySession.id s in
  let email := UserEmail.id e in
  do! execute (insert_stmt id
    (UserRecoveryTicketRow.mk id session email ticket created expires_at)
    (λ d, exists_row (Row := UserRecoverySessionRow.t) session d
          && exists_row (Row := UserEmailLookup.t) email d));
  ret (UserRecoveryTicket.mk id session email ticket created expires_at).

Definition consume_ticket (x : UserRecoveryTicket.t) (s : UserRecoverySession.t) :
    Repo UserRecoverySession.t :=
  if bool_decide (is_Some (UserRecoverySession.consumed_at s)) then fail InvalidOperation else
  do consumed <- now;
  do res <- execute (update_stmt (UserRecoverySession.id s) (with_consumed_at consumed) (λ _, true));
  do! lift (ensure_affected_rows res 1);
  ret (UserRecoverySession.with_consumed_at s (Some consumed)).

Definition cleanup (since : option Ulid) (until : Ulid) (limit : Z) : Repo (nat * option Ulid) :=
  do to_delete <- gets (λ w, cleanup_rows user_recovery_session_id (λ _, true) since until limit
                               (w_txn w));
  let ids := user_recovery_session_id <$> to_delete in
  do! execute (delete_sessions_stmt ids);
  ret (length ids, QueueJobRepository.max_id ids).
End Ops.
End UserRecoveryRepository.
