(* ===== verification/CompatRepo.v ===== *)
(** * Compatibility repositories

    crates/storage-pg/src/compat/access_token.rs, refresh_token.rs,
    session.rs and sso_login.rs, with the filters of
    crates/storage/src/compat/session.rs and sso_login.rs. *)

From stdpp Require Import base tactics list strings gmap.
From Stdlib Require Import ZArith Lia.
From S2P Require Import Prelude Text Scope Externals Formats Pagination TokenFormat DataModel CompatModel Storage TokenRepo QueueRepo UserRepo.
#[local] Open Scope Z_scope.

(** ** Statements the session repositories share *)

(** [GREATEST] and [COALESCE]. *)
Definition greatest (t : DateTime) (o : option DateTime) : DateTime :=
  match o with Some v => Z.max t v | None => t end.
Definition coalesce {A} (a b : option A) : option A :=
  match a with Some _ => a | None => b end.

(** What a batch says of a session.  A batch has one entry per session; were
    there two, PostgreSQL would use either. *)
Definition activity_of (acts : list (Ulid * DateTime * option IpAddr)) (id : Ulid) :
    option (DateTime * option IpAddr) :=
  (λ a, (a.1.2, a.2)) <$> head (filter (λ a, a.1.1 = id) acts).

(** [UPDATE ... FROM UNNEST(...) AS t WHERE id = t.id]. *)
Definition batch_stmt {Row} `{!Table Row} (f : DateTime → option IpAddr → Row → Row)
    (acts : list (Ulid * DateTime * option IpAddr)) (d : Db) : option (nat * Db) :=
  Some (size (filter (λ kr, is_Some (activity_of acts kr.1)) (rows d)),
        set_rows (map_imap (λ k r, Some (match activity_of acts k with
                                         | Some (t, ip) => f t ip r
                                         | None => r
                                         end)) (rows d)) d).

(** The dates of a clean-up: rows whose date is known and in the window,
    oldest first. *)
Definition in_dates (since : option DateTime) (until : DateTime) (col : option DateTime) : bool :=
  match col with
  | Some t => match since with Some s => s <=? t | None => true end && (t <? until)
  | None => false
  end.

Definition oldest_rows {Row} `{!Table Row} (col : Row → option DateTime) (p : Row → bool)
    (since : option DateTime) (until : DateTime) (limit : Z) (d : Db) : list Row :=
  take (Z.to_nat (Z.min limit (2 ^ 63 - 1)))
    (order_asc (λ r, default 0 (col r))
       (filter (λ r, p r && in_dates since until (col r) = true) (map_to_list (rows d)).*2)).

(** [MAX(col)]. *)
Definition max_date {Row} (col : Row → option DateTime) (rs : list Row) : option DateTime :=
  foldr (λ r m, match col r, m with
                | Some t, Some m => Some (Z.max t m)
                | Some t, None => Some t
                | None, _ => m
                end) None rs.

(** ** Access tokens (access_token.rs) *)
Module CompatAccessTokenRepository.
Import CompatAccessTokenLookup.

(** [From<CompatAccessTokenLookup> for CompatAccessToken]. *)
Definition of_row (r : CompatAccessTokenLookup.t) : CompatAccessToken.t :=
  CompatAccessToken.mk (compat_access_token_id r) (compat_session_id r) (access_token r)
    (created_at r) (expires_at r).

Definition with_expires_at (v : DateTime) (r : CompatAccessTokenLookup.t) :=
  CompatAccessTokenLookup.mk (compat_access_token_id r) (access_token r) (created_at r) (Some v)
    (compat_session_id r).

Section Ops.
Context {R : Type} `{!RngCore R}.
Abbreviation Repo := (M (World R) DatabaseError) (only parsing).

Definition lookup (id : Ulid) : Repo (option CompatAccessToken.t) :=
  do res <- select (λ d, rows (Row := CompatAccessTokenLookup.t) d !! id);
  ret (of_row <$> res).

Definition find_by_token (access_token' : string) : Repo (option CompatAccessToken.t) :=
  do res <- select (find_row (λ r, bool_decide (access_token r = access_token')));
  ret (of_row <$> res).

Definition add (compat_session : CompatSession.t) (token : string)
    (expires_after : option Duration) : Repo CompatAccessToken.t :=
  do created <- now;
  do id <- with_rng (from_datetime_with_rng created);
  let expires := (λ d, created + d) <$> expires_after in
  do! execute (insert_stmt id
    (CompatAccessTokenLookup.mk id token created expires (CompatSession.id compat_session))
    (λ d, exists_row (Row := CompatSessionLookup.t) (CompatSession.id compat_session) d
          && unique_value (λ r, Some (access_token r)) token d));
  ret (CompatAccessToken.mk id (CompatSession.id compat_session) token created expires).

Definition expire (a : CompatAccessToken.t) : Repo CompatAccessToken.t :=
  do expires <- now;
  do res <- execute (update_stmt (CompatAccessToken.id a) (with_expires_at expires) (λ _, true));
  do! lift (ensure_affected_rows res 1);
  ret (CompatAccessToken.with_expires_at a (Some expires)).
End Ops.
End CompatAccessTokenRepository.

(** ** Refresh tokens (refresh_token.rs) *)
Module CompatRefreshTokenRepository.
Import CompatRefreshTokenLookup.

(** [From<CompatRefreshTokenLookup> for CompatRefreshToken]. *)
Definition of_row (r : CompatRefreshTokenLookup.t) : CompatRefreshToken.t :=
  let state := match consumed_at r with
               | Some consumed_at => CompatRefreshTokenState.Consumed consumed_at
               | None => CompatRefreshTokenState.Valid
               end in
  CompatRefreshToken.mk (compat_refresh_token_id r) state (compat_session_id r)
    (compat_access_token_id r) (refresh_token r) (created_at r).

Definition with_consumed_at (v : DateTime) (r : CompatRefreshTokenLookup.t) :=
  CompatRefreshTokenLookup.mk (compat_refresh_token_id r) (refresh_token r) (created_at r)
    (Some v) (compat_access_token_id r) (compat_session_id r).

Section Ops.
Context {R : Type} `{!RngCore R}.
Abbreviation Repo := (M (World R) DatabaseError) (only parsing).

Definition lookup (id : Ulid) : Repo (option CompatRefreshToken.t) :=
  do res <- select (λ d, rows (Row := CompatRefreshTokenLookup.t) d !! id);
  ret (of_row <$> res).

Definition find_by_token (refresh_token' : string) : Repo (option CompatRefreshToken.t) :=
  do res <- select (find_row (λ r, bool_decide (refresh_token r = refresh_token')));
  ret (of_row <$> res).

Definition add (compat_session : CompatSession.t) (a : CompatAccessToken.t) (token : string) :
    Repo CompatRefreshToken.t :=
  do created <- now;
  do id <- with_rng (from_datetime_with_rng created);
  do! execute (insert_stmt id
    (CompatRefreshTokenLookup.mk id token created None (CompatAccessToken.id a)
       (CompatSession.id compat_session))
    (λ d, exists_row (Row := CompatSessionLookup.t) (CompatSession.id compat_session) d
          && exists_row (Row := CompatAccessTokenLookup.t) (CompatAccessToken.id a) d
          && unique_value (λ r, Some (refresh_token r)) token d));
  ret (CompatRefreshToken.mk id CompatRefreshTokenState.Valid (CompatSession.id compat_session)
         (CompatAccessToken.id a) token created).

(** The tokens of the session consumed with this one: all those still valid
    but the successor. *)
Definition to_consume (session successor : Ulid) (r : CompatRefreshTokenLookup.t) : bool :=
  bool_decide (compat_session_id r = session)
  && bool_decide (consumed_at r = None)
  && negb (bool_decide (compat_refresh_token_id r = successor)).

Definition consume_and_replace (r : CompatRefreshToken.t) (successor : CompatRefreshToken.t) :
    Repo CompatRefreshToken.t :=
  if decide (CompatRefreshToken.session_id r ≠ CompatRefreshToken.session_id successor)
  then fail InvalidOperation else
  do consumed <- now;
  do res <- execute (update_where_stmt
    (to_consume (CompatRefreshToken.session_id r) (CompatRefreshToken.id successor))
    (with_consumed_at consumed));
  if (res =? 0)%nat then fail (RowsAffected 1 0) else
  lift (map_err to_invalid_operation (CompatRefreshToken.consume r consumed)).
End Ops.
End CompatRefreshTokenRepository.

(** ** SSO logins (sso_login.rs) *)
Module CompatSsoLoginFilter.
Inductive State : Type := Pending | Fulfilled | Exchanged.

Record t := mk {
  user : option User.t;
  state : option State;
}.

Definition new : t := mk None None.
Definition for_user (u : User.t) (f : t) : t := mk (Some u) (state f).
Definition pending_only (f : t) : t := mk (user f) (Some Pending).
Definition fulfilled_only (f : t) : t := mk (user f) (Some Fulfilled).
Definition exchanged_only (f : t) : t := mk (user f) (Some Exchanged).

Definition generate_condition (f : t) (d : Db) (r : CompatSsoLoginLookup.t) : bool :=
  BrowserSessionFilter.add_option (user f) (λ u,
    match CompatSsoLoginLookup.user_session_id r with
    | Some us =>
        match user_sessions d !! us with
        | Some s => bool_decide (UserSessionRow.user_id s = User.id u)
        | None => false
        end
    | None => false
    end)
  && BrowserSessionFilter.add_option (state f) (λ s,
       match s with
       | Exchanged => bool_decide (is_Some (CompatSsoLoginLookup.exchanged_at r))
       | Fulfilled => bool_decide (is_Some (CompatSsoLoginLookup.fulfilled_at r))
                      && bool_decide (CompatSsoLoginLookup.exchanged_at r = None)
       | Pending => bool_decide (CompatSsoLoginLookup.fulfilled_at r = None)
       end).
End CompatSsoLoginFilter.

Module CompatSsoLoginRepository.
Import CompatSsoLoginLookup.

#[export] Instance CompatSsoLoginLookup_node : Node CompatSsoLoginLookup.t :=
  compat_sso_login_id.

Definition with_fulfilled (at_ : DateTime) (browser_session : Ulid) (r : CompatSsoLoginLookup.t) :=
  CompatSsoLoginLookup.mk (compat_sso_login_id r) (login_token r) (redirect_uri r)
    (created_at r) (Some at_) (exchanged_at r) (compat_session_id r) (Some browser_session).

Definition with_exchanged (at_ : DateTime) (session : Ulid) (r : CompatSsoLoginLookup.t) :=
  CompatSsoLoginLookup.mk (compat_sso_login_id r) (login_token r) (redirect_uri r)
    (created_at r) (fulfilled_at r) (Some at_) (Some session) (user_session_id r).

Section Ops.
Context {R : Type} `{!RngCore R, !UrlLib}.
Abbreviation Repo := (M (World R) DatabaseError) (only parsing).

(** [TryFrom<CompatSsoLoginLookup> for CompatSsoLogin]. *)
Definition try_from (r : CompatSsoLoginLookup.t) :
    result DatabaseInconsistencyError CompatSsoLogin.t :=
  let id := compat_sso_login_id r in
  try redirect_uri <- ok_or (url_parse (redirect_uri r))
                        (on "compat_sso_logins" (Some "redirect_uri") (Some id));
  try state <-
    match fulfilled_at r, exchanged_at r, user_session_id r, compat_session_id r with
    | None, None, None, None => Ok CompatSsoLoginState.Pending
    | Some fulfilled_at, None, Some browser_session_id, None =>
        Ok (CompatSsoLoginState.Fulfilled fulfilled_at browser_session_id)
    | Some fulfilled_at, Some exchanged_at, _, Some compat_session_id =>
        Ok (CompatSsoLoginState.Exchanged fulfilled_at exchanged_at compat_session_id)
    | _, _, _, _ => Err (on "compat_sso_logins" None (Some id))
    end;
  Ok (CompatSsoLogin.mk id redirect_uri (login_token r) (created_at r) state).

Definition lookup (id : Ulid) : Repo (option CompatSsoLogin.t) :=
  do res <- select (λ d, rows (Row := CompatSsoLoginLookup.t) d !! id);
  decode_row try_from res.

Definition find_for_session (s : CompatSession.t) : Repo (option CompatSsoLogin.t) :=
  do res <- select (find_row (λ r, bool_decide (compat_session_id r = Some (CompatSession.id s))));
  decode_row try_from res.

Definition find_by_token (token : string) : Repo (option CompatSsoLogin.t) :=
  do res <- select (find_row (λ r, bool_decide (login_token r = token)));
  decode_row try_from res.

Definition add (token : string) (redirect_uri : Url) : Repo CompatSsoLogin.t :=
  do created <- now;
  do id <- with_rng (from_datetime_with_rng created);
  do! execute (insert_stmt id
    (CompatSsoLoginLookup.mk id token redirect_uri created None None None None)
    (unique_value (λ r, Some (login_token r)) token));
  ret (CompatSsoLogin.mk id redirect_uri token created CompatSsoLoginState.Pending).

Definition fulfill (l : CompatSsoLogin.t) (b : BrowserSession.t) : Repo CompatSsoLogin.t :=
  do fulfilled <- now;
  do l <- lift (map_err to_invalid_operation (CompatSsoLogin.fulfill l fulfilled b));
  do res <- execute (update_stmt (CompatSsoLogin.id l)
    (with_fulfilled fulfilled (BrowserSession.id b))
    (exists_row (Row := UserSessionRow.t) (BrowserSession.id b)));
  do! lift (ensure_affected_rows res 1);
  ret l.

Definition exchange (l : CompatSsoLogin.t) (s : CompatSession.t) : Repo CompatSsoLogin.t :=
  do exchanged <- now;
  do l <- lift (map_err to_invalid_operation (CompatSsoLogin.exchange l exchanged s));
  do res <- execute (update_stmt (CompatSsoLogin.id l)
    (with_exchanged exchanged (CompatSession.id s))
    (exists_row (Row := CompatSessionLookup.t) (CompatSession.id s)));
  do! lift (ensure_affected_rows res 1);
  ret l.

Definition list (filter : CompatSsoLoginFilter.t) (p : Pagination.t) :
    Repo (Page.t CompatSsoLogin.t) :=
  fetch_page compat_sso_login_id try_from
    (λ d, matching_rows (CompatSsoLoginFilter.generate_condition filter d) d) p.

Definition count (filter : CompatSsoLoginFilter.t) : Repo Z :=
  select (λ d, Z.of_nat (length (matching_rows
    (CompatSsoLoginFilter.generate_condition filter d) d))).
End Ops.
End CompatSsoLoginRepository.

(** ** Sessions (session.rs) *)
Module CompatSessionFilter.
Inductive State : Type := Active | Finished.
Inductive CompatSessionType : Type := SsoLogin | Unknown.

Record t := mk {
  user : option User.t;
  browser_session : option BrowserSession.t;
  browser_session_filter : option BrowserSessionFilter.t;
  state : option State;
  auth_type : option CompatSessionType;
  device : option Device.Device;
  last_active_before : option DateTime;
  last_active_after : option DateTime;
  created_before : option DateTime;
  created_after : option DateTime;
}.

Definition new : t := mk None None None None None None None None None None.

Definition for_user (u : User.t) (f : t) : t :=
  mk (Some u) (browser_session f) (browser_session_filter f) (state f) (auth_type f) (device f)
    (last_active_before f) (last_active_after f) (created_before f) (created_after f).
Definition for_device (x : Device.Device) (f : t) : t :=
  mk (user f) (browser_session f) (browser_session_filter f) (state f) (auth_type f) (Some x)
    (last_active_before f) (last_active_after f) (created_before f) (created_after f).
Definition for_browser_session (b : BrowserSession.t) (f : t) : t :=
  mk (user f) (Some b) (browser_session_filter f) (state f) (auth_type f) (device f)
    (last_active_before f) (last_active_after f) (created_before f) (created_after f).
Definition for_browser_sessions (b : BrowserSessionFilter.t) (f : t) : t :=
  mk (user f) (browser_session f) (Some b) (state f) (auth_type f) (device f)
    (last_active_before f) (last_active_after f) (created_before f) (created_after f).
Definition with_last_active_before (x : DateTime) (f : t) : t :=
  mk (user f) (browser_session f) (browser_session_filter f) (state f) (auth_type f) (device f)
    (Some x) (last_active_after f) (created_before f) (created_after f).
Definition with_last_active_after (x : DateTime) (f : t) : t :=
  mk (user f) (browser_session f) (browser_session_filter f) (state f) (auth_type f) (device f)
    (last_active_before f) (Some x) (created_before f) (created_after f).
Definition with_created_before (x : DateTime) (f : t) : t :=
  mk (user f) (browser_session f) (browser_session_filter f) (state f) (auth_type f) (device f)
    (last_active_before f) (last_active_after f) (Some x) (created_after f).
Definition with_created_after (x : DateTime) (f : t) : t :=
  mk (user f) (browser_session f) (browser_session_filter f) (state f) (auth_type f) (device f)
    (last_active_before f) (last_active_after f) (created_before f) (Some x).
Definition with_state (s : State) (f : t) : t :=
  mk (user f) (browser_session f) (browser_session_filter f) (Some s) (auth_type f) (device f)
    (last_active_before f) (last_active_after f) (created_before f) (created_after f).
Definition active_only : t → t := with_state Active.
Definition finished_only : t → t := with_state Finished.
Definition with_auth_type (a : CompatSessionType) (f : t) : t :=
  mk (user f) (browser_session f) (browser_session_filter f) (state f) (Some a) (device f)
    (last_active_before f) (last_active_after f) (created_before f) (created_after f).
Definition sso_login_only : t → t := with_auth_type SsoLogin.
Definition unknown_only : t → t := with_auth_type Unknown.

Import BrowserSessionFilter(add_option, col_cond).

(** The [WHERE] clause on a row of [compat_sessions]; [joined] is the SSO
    login the row is joined with, in the query that has the join.  Without
    it the condition on the kind of session is [= ANY] or [<> ALL] of the
    column of [compat_sso_logins]: a comparison with [NULL] is not true. *)
Definition generate_condition (f : t) (joined : option (option CompatSsoLoginLookup.t)) (d : Db)
    (r : CompatSessionLookup.t) : bool :=
  add_option (user f) (λ u, bool_decide (CompatSessionLookup.user_id r = User.id u))
  && add_option (browser_session f) (λ b,
       bool_decide (CompatSessionLookup.user_session_id r = Some (BrowserSession.id b)))
  && add_option (browser_session_filter f) (λ bf,
       col_cond (CompatSessionLookup.user_session_id r) (λ us,
         match user_sessions d !! us with
         | Some row => BrowserSessionFilter.generate_condition bf row
         | None => false
         end))
  && add_option (state f) (λ s,
       match s, CompatSessionLookup.finished_at r with
       | Active, None | Finished, Some _ => true
       | _, _ => false
       end)
  && add_option (auth_type f) (λ a,
       match joined with
       | Some login =>
           match a, login with SsoLogin, Some _ | Unknown, None => true | _, _ => false end
       | None =>
           let column := CompatSsoLoginLookup.compat_session_id
                           <$> (map_to_list (compat_sso_logins d)).*2 in
           match a with
           | SsoLogin =>
               existsb (λ i, bool_decide (i = Some (CompatSessionLookup.compat_session_id r)))
                 column
           | Unknown =>
               forallb (λ i, col_cond i (λ i,
                 negb (bool_decide (i = CompatSessionLookup.compat_session_id r)))) column
           end
       end)
  && add_option (last_active_after f) (λ t,
       col_cond (CompatSessionLookup.last_active_at r) (λ v, t <? v))
  && add_option (last_active_before f) (λ t,
       col_cond (CompatSessionLookup.last_active_at r) (λ v, v <? t))
  && add_option (created_after f) (λ t, max_ulid_at t <? CompatSessionLookup.compat_session_id r)
  && add_option (created_before f) (λ t, CompatSessionLookup.compat_session_id r <? min_ulid_at t)
  && add_option (device f) (λ x,
       bool_decide (CompatSessionLookup.device_id r = Some (Device.id x))).
End CompatSessionFilter.

Module CompatSessionRepository.
Import CompatSessionLookup.

(** [From<CompatSessionLookup> for CompatSession]. *)
Definition of_row (r : CompatSessionLookup.t) : CompatSession.t :=
  let state := match finished_at r with
               | None => CompatSessionState.Valid
               | Some finished_at => CompatSessionState.Finished finished_at
               end in
  CompatSession.mk (compat_session_id r) state (user_id r) (Device.mkDevice <$> device_id r)
    (human_name r) (user_session_id r) (created_at r) (is_synapse_admin r) (user_agent r)
    (last_active_at r) (last_active_ip r).

Definition with_finished_at (v : DateTime) (r : CompatSessionLookup.t) :=
  CompatSessionLookup.mk (compat_session_id r) (device_id r) (human_name r) (user_id r)
    (user_session_id r) (created_at r) (Some v) (is_synapse_admin r) (user_agent r)
    (last_active_at r) (last_active_ip r).

Definition with_user_agent (v : string) (r : CompatSessionLookup.t) :=
  CompatSessionLookup.mk (compat_session_id r) (device_id r) (human_name r) (user_id r)
    (user_session_id r) (created_at r) (finished_at r) (is_synapse_admin r) (Some v)
    (last_active_at r) (last_active_ip r).

Definition with_human_name (v : option string) (r : CompatSessionLookup.t) :=
  CompatSessionLookup.mk (compat_session_id r) (device_id r) v (user_id r)
    (user_session_id r) (created_at r) (finished_at r) (is_synapse_admin r) (user_agent r)
    (last_active_at r) (last_active_ip r).

Definition with_activity (t : DateTime) (ip : option IpAddr) (r : CompatSessionLookup.t) :=
  CompatSessionLookup.mk (compat_session_id r) (device_id r) (human_name r) (user_id r)
    (user_session_id r) (created_at r) (finished_at r) (is_synapse_admin r) (user_agent r)
    (Some (greatest t (last_active_at r))) (coalesce ip (last_active_ip r)).

Definition without_ip (r : CompatSessionLookup.t) :=
  CompatSessionLookup.mk (compat_session_id r) (device_id r) (human_name r) (user_id r)
    (user_session_id r) (created_at r) (finished_at r) (is_synapse_admin r) (user_agent r)
    (last_active_at r) None.

(** A session with the SSO login it is joined with. *)
Definition CompatSessionAndSsoLoginLookup : Type :=
  CompatSessionLookup.t * option CompatSsoLoginLookup.t.

#[export] Instance CompatSessionAndSsoLoginLookup_node : Node CompatSessionAndSsoLoginLookup :=
  λ r, compat_session_id r.1.

(** The [LEFT JOIN]: one row per login of the session, or one without. *)
Definition left_join (d : Db) (s : CompatSessionLookup.t) : list CompatSessionAndSsoLoginLookup :=
  match filter (λ l, CompatSsoLoginLookup.compat_session_id l = Some (compat_session_id s))
          (map_to_list (compat_sso_logins d)).*2 with
  | [] => [(s, None)]
  | logins => (λ l, (s, Some l)) <$> logins
  end.

Definition joined_rows (filter : CompatSessionFilter.t) (d : Db) :
    list CompatSessionAndSsoLoginLookup :=
  base.filter (λ r, CompatSessionFilter.generate_condition filter (Some r.2) d r.1 = true)
    (mjoin (left_join d <$> (map_to_list (compat_sessions d)).*2)).

Section Ops.
Context {R : Type} `{!RngCore R, !UrlLib}.
Abbreviation Repo := (M (World R) DatabaseError) (only parsing).

(** [TryFrom<CompatSessionAndSsoLoginLookup>]. *)
Definition try_from (r : CompatSessionAndSsoLoginLookup) :
    result DatabaseInconsistencyError (CompatSession.t * option CompatSsoLogin.t) :=
  let session := of_row r.1 in
  match r.2 with
  | None => Ok (session, None)
  | Some l =>
      let id := CompatSsoLoginLookup.compat_sso_login_id l in
      try redirect_uri <- ok_or (url_parse (CompatSsoLoginLookup.redirect_uri l))
                            (on "compat_sso_logins" (Some "redirect_uri") (Some id));
      match CompatSsoLoginLookup.fulfilled_at l, CompatSsoLoginLookup.exchanged_at l with
      | Some fulfilled_at, Some exchanged_at =>
          Ok (session, Some (CompatSsoLogin.mk id redirect_uri
                (CompatSsoLoginLookup.login_token l) (CompatSsoLoginLookup.created_at l)
                (CompatSsoLoginState.Exchanged fulfilled_at exchanged_at
                   (CompatSession.id session))))
      | _, _ => Err (on "compat_sso_logins" None (Some id))
      end
  end.

Definition lookup (id : Ulid) : Repo (option CompatSession.t) :=
  do res <- select (λ d, rows (Row := CompatSessionLookup.t) d !! id);
  ret (of_row <$> res).

Definition add (user : User.t) (device : Device.Device) (browser_session : option BrowserSession.t)
    (is_synapse_admin : bool) (human_name : option string) : Repo CompatSession.t :=
  do created <- now;
  do id <- with_rng (from_datetime_with_rng created);
  let user_session := BrowserSession.id <$> browser_session in
  do! execute (insert_stmt id
    (CompatSessionLookup.mk id (Some (Device.id device)) human_name (User.id user) user_session
       created None is_synapse_admin None None None)
    (λ d, exists_row (Row := UserLookup.t) (User.id user) d
          && exists_row_opt (Row := UserSessionRow.t) user_session d));
  ret (CompatSession.mk id CompatSessionState.Valid (User.id user) (Some device) human_name
         user_session created is_synapse_admin None None None).

Definition finish (s : CompatSession.t) : Repo CompatSession.t :=
  do finished <- now;
  do res <- execute (update_stmt (CompatSession.id s) (with_finished_at finished) (λ _, true));
  do! lift (ensure_affected_rows res 1);
  lift (map_err to_invalid_operation (CompatSession.finish s finished)).

Definition finish_bulk (filter : CompatSessionFilter.t) : Repo nat :=
  do finished <- now;
  execute (λ d, update_where_stmt (CompatSessionFilter.generate_condition filter None d)
                  (with_finished_at finished) d).

Definition list (filter : CompatSessionFilter.t) (p : Pagination.t) :
    Repo (Page.t (CompatSession.t * option CompatSsoLogin.t)) :=
  fetch_page (λ r : CompatSessionAndSsoLoginLookup, compat_session_id r.1) try_from
    (joined_rows filter) p.

Definition count (filter : CompatSessionFilter.t) : Repo Z :=
  select (λ d, Z.of_nat (length (matching_rows
    (CompatSessionFilter.generate_condition filter None d) d))).

Definition record_batch_activity (activities : Datatypes.list (Ulid * DateTime * option IpAddr)) :
    Repo unit :=
  do res <- execute (batch_stmt with_activity activities);
  lift (ensure_affected_rows res (length activities)).

Definition record_user_agent (s : CompatSession.t) (user_agent' : string) :
    Repo CompatSession.t :=
  do res <- execute (update_stmt (CompatSession.id s) (with_user_agent user_agent') (λ _, true));
  do! lift (ensure_affected_rows res 1);
  ret (CompatSession.with_user_agent s (Some user_agent')).

Definition set_human_name (s : CompatSession.t) (human_name' : option string) :
    Repo CompatSession.t :=
  do res <- execute (update_stmt (CompatSession.id s) (with_human_name human_name') (λ _, true));
  do! lift (ensure_affected_rows res 1);
  ret (CompatSession.with_human_name s human_name').

(** The deletion of finished sessions with their tokens and logins; a
    refresh token that stays keeps its access token. *)
Definition delete_sessions_stmt (ids : Datatypes.list Ulid) (d : Db) : option (nat * Db) :=
  let kept (session : option Ulid) : bool :=
    match session with Some s => bool_decide (s ∉ ids) | None => true end in
  let refresh := base.filter (λ kr, kept (Some (CompatRefreshTokenLookup.compat_session_id kr.2))
                   = true) (compat_refresh_tokens d) in
  let access := base.filter (λ kr, kept (Some (CompatAccessTokenLookup.compat_session_id kr.2))
                  = true) (compat_access_tokens d) in
  let logins := base.filter (λ kr, kept (CompatSsoLoginLookup.compat_session_id kr.2) = true)
                  (compat_sso_logins d) in
  let sessions := base.filter (λ kr, kept (Some kr.1) = true) (compat_sessions d) in
  if bool_decide (map_Forall (λ _ r,
       is_Some (access !! CompatRefreshTokenLookup.compat_access_token_id r)) refresh)
  then Some (length ids,
         set_rows sessions (set_rows logins (set_rows access (set_rows refresh d))))
  else None.

Definition cleanup_finished (since : option DateTime) (until : DateTime) (limit : Z) :
    Repo (nat * option DateTime) :=
  do to_delete <- gets (λ w, oldest_rows finished_at (λ _, true) since until limit (w_txn w));
  do count <- execute (delete_sessions_stmt (compat_session_id <$> to_delete));
  ret (count, max_date finished_at to_delete).

Definition cleanup_inactive_ips (since : option DateTime) (threshold : DateTime) (limit : Z) :
    Repo (nat * option DateTime) :=
  do to_update <- gets (λ w, oldest_rows last_active_at
    (λ r, bool_decide (is_Some (last_active_ip r))) since threshold limit (w_txn w));
  do count <- execute (update_where_stmt
    (λ r, bool_decide (compat_session_id r ∈ compat_session_id <$> to_update)) without_ip);
  ret (count, max_date last_active_at to_update).
End Ops.
End CompatSessionRepository.
