(* ===== verification/PersonalRepo.v ===== *)
(** * Personal sessions and their access tokens

    crates/storage-pg/src/personal/access_token.rs and session.rs, with the
    filter of crates/storage/src/personal/session.rs. *)

From stdpp Require Import base tactics list strings gmap.
From Stdlib Require Import ZArith Lia.
From S2P Require Import Prelude Text Scope Externals Formats Pagination TokenFormat DataModel CompatModel Storage TokenRepo QueueRepo UserRepo CompatRepo.
#[local] Open Scope Z_scope.

(** ** Access tokens (access_token.rs) *)
Module PersonalAccessTokenRepository.
Import PersonalAccessTokenLookup.

(** [From<PersonalAccessTokenLookup> for PersonalAccessToken]. *)
Definition of_row (r : PersonalAccessTokenLookup.t) : PersonalAccessToken.t :=
  PersonalAccessToken.mk (personal_access_token_id r) (personal_session_id r) (created_at r)
    (expires_at r) (revoked_at r).

Definition with_revoked_at (v : DateTime) (r : PersonalAccessTokenLookup.t) :=
  PersonalAccessTokenLookup.mk (personal_access_token_id r) (personal_session_id r)
    (access_token_sha256 r) (created_at r) (expires_at r) (Some v).

(** The token of a session that is not revoked. *)
Definition is_active_of (session : Ulid) (r : PersonalAccessTokenLookup.t) : bool :=
  bool_decide (personal_session_id r = session) && bool_decide (revoked_at r = None).

(** The unique index on the sessions of the tokens that are not revoked. *)
Definition no_active_token (session : Ulid) (d : Db) : bool :=
  bool_decide (map_Forall (λ _ r, is_active_of session r = false) (personal_access_tokens d)).

Section Ops.
Context {R : Type} `{!RngCore R, !Sha2}.
Abbreviation Repo := (M (World R) DatabaseError) (only parsing).

Definition lookup (id : Ulid) : Repo (option PersonalAccessToken.t) :=
  do res <- select (λ d, rows (Row := PersonalAccessTokenLookup.t) d !! id);
  ret (of_row <$> res).

Definition find_by_token (access_token : string) : Repo (option PersonalAccessToken.t) :=
  let token_sha256 := sha256 access_token in
  do res <- select (find_row (λ r, bool_decide (access_token_sha256 r = token_sha256)));
  ret (of_row <$> res).

Definition find_active_for_session (session : PersonalSession.t) :
    Repo (option PersonalAccessToken.t) :=
  do res <- select (find_row (is_active_of (PersonalSession.id session)));
  ret (of_row <$> res).

Definition add (session : PersonalSession.t) (access_token : string)
    (expires_after : option Duration) : Repo PersonalAccessToken.t :=
  do created <- now;
  do id <- with_rng (from_datetime_with_rng created);
  let token_sha256 := sha256 access_token in
  let expires := (λ d, created + d) <$> expires_after in
  do! execute (insert_stmt id
    (PersonalAccessTokenLookup.mk id (PersonalSession.id session) token_sha256 created expires
       None)
    (λ d, exists_row (Row := PersonalSessionLookup.t) (PersonalSession.id session) d
          && unique_value (λ r, Some (access_token_sha256 r)) token_sha256 d
          && no_active_token (PersonalSession.id session) d));
  ret (PersonalAccessToken.mk id (PersonalSession.id session) created expires None).

Definition revoke (a : PersonalAccessToken.t) : Repo PersonalAccessToken.t :=
  do revoked <- now;
  do res <- execute (update_stmt (PersonalAccessToken.id a) (with_revoked_at revoked) (λ _, true));
  do! lift (ensure_affected_rows res 1);
  ret (PersonalAccessToken.with_revoked_at a (Some revoked)).
End Ops.
End PersonalAccessTokenRepository.

(** ** Sessions (session.rs) *)
Module PersonalSessionFilter.
Inductive State : Type := Active | Revoked.

Record t := mk {
  owner_user : option User.t;
  owner_oauth2_client : option Client.t;
  actor_user : option User.t;
  device : option Device.Device;
  state : option State;
  scope : option Scope;
  last_active_before : option DateTime;
  last_active_after : option DateTime;
  expires_before : option DateTime;
  expires_after : option DateTime;
  expires : option bool;
}.

Definition new : t := mk None None None None None None None None None None None.

Definition for_owner_user (u : User.t) (f : t) : t :=
  mk (Some u) (owner_oauth2_client f) (actor_user f) (device f) (state f) (scope f)
    (last_active_before f) (last_active_after f) (expires_before f) (expires_after f) (expires f).
Definition for_actor_user (u : User.t) (f : t) : t :=
  mk (owner_user f) (owner_oauth2_client f) (Some u) (device f) (state f) (scope f)
    (last_active_before f) (last_active_after f) (expires_before f) (expires_after f) (expires f).
Definition active_only (f : t) : t :=
  mk (owner_user f) (owner_oauth2_client f) (actor_user f) (device f) (Some Active) (scope f)
    (last_active_before f) (last_active_after f) (expires_before f) (expires_after f) (expires f).

Import BrowserSessionFilter(add_option, col_cond).

(** The [WHERE] clause on a session joined with its active token. *)
Definition generate_condition (f : t)
    (r : PersonalSessionLookup.t * option PersonalAccessTokenLookup.t) : bool :=
  let '(s, token) := r in
  let token_expires := t ← token; PersonalAccessTokenLookup.expires_at t in
  add_option (owner_user f) (λ u,
    bool_decide (PersonalSessionLookup.owner_user_id s = Some (User.id u)))
  && add_option (owner_oauth2_client f) (λ c,
       bool_decide (PersonalSessionLookup.owner_oauth2_client_id s = Some (Client.id c)))
  && add_option (actor_user f) (λ u,
       bool_decide (PersonalSessionLookup.actor_user_id s = User.id u))
  && add_option (device f) (λ x,
       match Device.to_scope_token x with
       | Ok (stable_scope_token, unstable_scope_token) =>
           bool_decide (stable_scope_token ∈ PersonalSessionLookup.scope_list s)
           || bool_decide (unstable_scope_token ∈ PersonalSessionLookup.scope_list s)
       | Err _ => false
       end)
  && add_option (state f) (λ st,
       match st, PersonalSessionLookup.revoked_at s with
       | Active, None | Revoked, Some _ => true
       | _, _ => false
       end)
  && add_option (scope f) (λ sc,
       forallb (λ t, bool_decide (t ∈ PersonalSessionLookup.scope_list s)) sc)
  && add_option (last_active_before f) (λ t,
       col_cond (PersonalSessionLookup.last_active_at s) (λ v, v <? t))
  && add_option (last_active_after f) (λ t,
       col_cond (PersonalSessionLookup.last_active_at s) (λ v, t <? v))
  && add_option (expires_before f) (λ t, col_cond token_expires (λ v, v <? t))
  && add_option (expires_after f) (λ t, col_cond token_expires (λ v, t <? v))
  && add_option (expires f) (λ e,
       match token_expires with Some _ => e | None => negb e end).
End PersonalSessionFilter.

Module PersonalSessionRepository.
Import PersonalSessionLookup.

(** [TryFrom<PersonalSessionLookup> for PersonalSession]. *)
Definition try_from (r : PersonalSessionLookup.t) :
    result DatabaseInconsistencyError PersonalSession.t :=
  let id := personal_session_id r in
  try tokens <- map_err (λ _, on "personal_sessions" (Some "scope") (Some id))
                 (collect ScopeToken_from_str (scope_list r));
  let scope := Scope_from_iter tokens in
  let state := match revoked_at r with
               | None => PersonalSessionState.Valid
               | Some revoked_at => PersonalSessionState.Revoked revoked_at
               end in
  try owner <-
    match owner_user_id r, owner_oauth2_client_id r with
    | Some owner_user_id, None => Ok (OwnerUser owner_user_id)
    | None, Some owner_oauth2_client_id => Ok (OwnerOAuth2Client owner_oauth2_client_id)
    | _, _ => Err (on "personal_sessions" (Some "owner_user_id, owner_oauth2_client_id") (Some id))
    end;
  Ok (PersonalSession.mk id state owner (actor_user_id r) (human_name r) scope (created_at r)
        (last_active_at r) (last_active_ip r)).

Definition with_revoked_at (v : DateTime) (r : PersonalSessionLookup.t) :=
  PersonalSessionLookup.mk (personal_session_id r) (owner_user_id r) (owner_oauth2_client_id r)
    (actor_user_id r) (human_name r) (scope_list r) (created_at r) (Some v) (last_active_at r)
    (last_active_ip r).

Definition with_activity (t : DateTime) (ip : option IpAddr) (r : PersonalSessionLookup.t) :=
  PersonalSessionLookup.mk (personal_session_id r) (owner_user_id r) (owner_oauth2_client_id r)
    (actor_user_id r) (human_name r) (scope_list r) (created_at r) (revoked_at r)
    (Some (greatest t (last_active_at r))) (coalesce ip (last_active_ip r)).

(** A session with its token that is not revoked. *)
Definition PersonalSessionAndAccessTokenLookup : Type :=
  PersonalSessionLookup.t * option PersonalAccessTokenLookup.t.

#[export] Instance PersonalSessionAndAccessTokenLookup_node :
    Node PersonalSessionAndAccessTokenLookup :=
  λ r, personal_session_id r.1.

Definition left_join (d : Db) (s : PersonalSessionLookup.t) :
    list PersonalSessionAndAccessTokenLookup :=
  match filter (λ t, PersonalAccessTokenRepository.is_active_of (personal_session_id s) t = true)
          (map_to_list (personal_access_tokens d)).*2 with
  | [] => [(s, None)]
  | tokens => (λ t, (s, Some t)) <$> tokens
  end.

Definition joined_rows (filter : PersonalSessionFilter.t) (d : Db) :
    list PersonalSessionAndAccessTokenLookup :=
  base.filter (λ r, PersonalSessionFilter.generate_condition filter r = true)
    (mjoin (left_join d <$> (map_to_list (personal_sessions d)).*2)).

(** [TryFrom<PersonalSessionAndAccessTokenLookup>]. *)
Definition try_from_joined (r : PersonalSessionAndAccessTokenLookup) :
    result DatabaseInconsistencyError (PersonalSession.t * option PersonalAccessToken.t) :=
  try session <- try_from r.1;
  Ok (session, (λ t, PersonalAccessToken.mk (PersonalAccessTokenLookup.personal_access_token_id t)
                  (PersonalSession.id session) (PersonalAccessTokenLookup.created_at t)
                  (PersonalAccessTokenLookup.expires_at t) None) <$> r.2).

Section Ops.
Context {R : Type} `{!RngCore R}.
Abbreviation Repo := (M (World R) DatabaseError) (only parsing).

Definition lookup (id : Ulid) : Repo (option PersonalSession.t) :=
  do res <- select (λ d, rows (Row := PersonalSessionLookup.t) d !! id);
  decode_row try_from res.

Definition add (owner : PersonalSessionOwner) (actor_user : User.t) (human_name : string)
    (scope : Scope) : Repo PersonalSession.t :=
  do created <- now;
  do id <- with_rng (from_datetime_with_rng created);
  let '(owner_user, owner_client) :=
    match owner with
    | OwnerUser u => (Some u, None)
    | OwnerOAuth2Client c => (None, Some c)
    end in
  do! execute (insert_stmt id
    (PersonalSessionLookup.mk id owner_user owner_client (User.id actor_user) human_name scope
       created None None None)
    (λ d, exists_row_opt (Row := UserLookup.t) owner_user d
          && exists_row_opt (Row := OAuth2ClientLookup.t) owner_client d
          && exists_row (Row := UserLookup.t) (User.id actor_user) d));
  ret (PersonalSession.mk id PersonalSessionState.Valid owner (User.id actor_user) human_name scope
         created None None).

Definition revoke (session : PersonalSession.t) : Repo PersonalSession.t :=
  do revoked <- now;
  do! execute (update_where_stmt
    (PersonalAccessTokenRepository.is_active_of (PersonalSession.id session))
    (PersonalAccessTokenRepository.with_revoked_at revoked));
  do res <- execute (update_stmt (PersonalSession.id session) (with_revoked_at revoked)
                       (λ _, true));
  do! lift (ensure_affected_rows res 1);
  lift (map_err to_invalid_operation (PersonalSession.finish session revoked)).

Definition revoke_bulk (filter : PersonalSessionFilter.t) : Repo nat :=
  do revoked <- now;
  execute (λ d,
    let ids := (λ r : PersonalSessionAndAccessTokenLookup, personal_session_id r.1)
                 <$> joined_rows filter d in
    update_where_stmt (λ r, bool_decide (personal_session_id r ∈ ids)) (with_revoked_at revoked) d).

Definition list (filter : PersonalSessionFilter.t) (p : Pagination.t) :
    Repo (Page.t (PersonalSession.t * option PersonalAccessToken.t)) :=
  fetch_page (λ r : PersonalSessionAndAccessTokenLookup, personal_session_id r.1)
    try_from_joined (joined_rows filter) p.

Definition count (filter : PersonalSessionFilter.t) : Repo Z :=
  select (λ d, Z.of_nat (length (joined_rows filter d))).

Definition record_batch_activity (activities : Datatypes.list (Ulid * DateTime * option IpAddr)) :
    Repo unit :=
  do res <- execute (batch_stmt with_activity activities);
  lift (ensure_affected_rows res (length activities)).
End Ops.
End PersonalSessionRepository.
