(* ===== verification/Jobs.v ===== *)
(** * The jobs of the queue

    crates/storage/src/queue/tasks.rs: the jobs on users, devices and sessions
    with their queues and payloads, the batches of the expiry jobs, and
    [schedule_job] and [schedule_job_later] of crates/storage/src/queue/job.rs. *)

From stdpp Require Import base tactics list strings gmap.
From Stdlib Require Import ZArith Lia.
From S2P Require Import Prelude Text Externals Formats Pagination TokenFormat DataModel AccountModel Storage QueueRepo.
#[local] Open Scope Z_scope.

(** [InsertableJob]: the queue of a job and its payload. *)
Class InsertableJob (J : Type) := {
  QUEUE_NAME : string;
  to_value : J → Json;
}.

Definition ulid_value `{!UlidText} (id : Ulid) : Json := JString (ulid_to_string id).
Definition date_value `{!ChronoText} (d : DateTime) : Json := JString (datetime_to_string d).
Definition option_value {A} (f : A → Json) (o : option A) : Json :=
  match o with Some a => f a | None => JNull end.

Section Schedule.
Context {R : Type} `{!RngCore R}.

Definition schedule_job {J} `{!InsertableJob J} (job : J) : M (World R) DatabaseError unit :=
  QueueJobRepository.schedule QUEUE_NAME (to_value job).

Definition schedule_job_later {J} `{!InsertableJob J} (job : J) (scheduled_at : DateTime) :
    M (World R) DatabaseError unit :=
  QueueJobRepository.schedule_later QUEUE_NAME (to_value job) scheduled_at None.
End Schedule.

(** ** Users and devices *)

Module ProvisionUserJob.
Record t := mk { user_id : Ulid; display_name_to_set : option string }.
Definition new (u : User.t) : t := mk (User.id u) None.
Definition set_display_name (n : string) (j : t) : t := mk (user_id j) (Some n).
End ProvisionUserJob.

Module ProvisionDeviceJob.
Record t := mk { user_id : Ulid; device_id : string }.
End ProvisionDeviceJob.

Module DeleteDeviceJob.
Record t := mk { user_id : Ulid; device_id : string }.
End DeleteDeviceJob.

Module SyncDevicesJob.
Record t := mk { user_id : Ulid }.
Definition new (u : User.t) : t := mk (User.id u).
Definition new_for_id (id : Ulid) : t := mk id.
End SyncDevicesJob.

Module DeactivateUserJob.
Record t := mk { user_id : Ulid; hs_erase : bool }.
Definition new (u : User.t) (hs_erase : bool) : t := mk (User.id u) hs_erase.
End DeactivateUserJob.

Module ReactivateUserJob.
Record t := mk { user_id : Ulid }.
Definition new (u : User.t) : t := mk (User.id u).
End ReactivateUserJob.

(** Emails.  [VerifyEmailJob] is only consumed. *)
Module VerifyEmailJob.
Record t := mk { user_email_id : Ulid; language : option string }.
End VerifyEmailJob.

Module SendEmailAuthenticationCodeJob.
Record t := mk { user_email_authentication_id : Ulid; language : string }.
Definition new (a : UserEmailAuthentication.t) (language : string) : t :=
  mk (UserEmailAuthentication.id a) language.
End SendEmailAuthenticationCodeJob.

Module SendAccountRecoveryEmailsJob.
Record t := mk { user_recovery_session_id : Ulid }.
Definition new (s : UserRecoverySession.t) : t := mk (UserRecoverySession.id s).
End SendAccountRecoveryEmailsJob.

Section UserJobs.
Context `{!UlidText}.

#[export] Instance VerifyEmailJob_insertable : InsertableJob VerifyEmailJob.t := {
  QUEUE_NAME := "verify-email";
  to_value j := JObject
    [("user_email_id", ulid_value (VerifyEmailJob.user_email_id j));
     ("language", option_value JString (VerifyEmailJob.language j))];
}.
#[export] Instance SendEmailAuthenticationCodeJob_insertable :
    InsertableJob SendEmailAuthenticationCodeJob.t := {
  QUEUE_NAME := "send-email-authentication-code";
  to_value j := JObject
    [("user_email_authentication_id",
      ulid_value (SendEmailAuthenticationCodeJob.user_email_authentication_id j));
     ("language", JString (SendEmailAuthenticationCodeJob.language j))];
}.
#[export] Instance SendAccountRecoveryEmailsJob_insertable :
    InsertableJob SendAccountRecoveryEmailsJob.t := {
  QUEUE_NAME := "send-account-recovery-email";
  to_value j := JObject
    [("user_recovery_session_id",
      ulid_value (SendAccountRecoveryEmailsJob.user_recovery_session_id j))];
}.

#[export] Instance ProvisionUserJob_insertable : InsertableJob ProvisionUserJob.t := {
  QUEUE_NAME := "provision-user";
  to_value j := JObject
    [("user_id", ulid_value (ProvisionUserJob.user_id j));
     ("set_display_name", option_value JString (ProvisionUserJob.display_name_to_set j))];
}.
#[export] Instance ProvisionDeviceJob_insertable : InsertableJob ProvisionDeviceJob.t := {
  QUEUE_NAME := "provision-device";
  to_value j := JObject
    [("user_id", ulid_value (ProvisionDeviceJob.user_id j));
     ("device_id", JString (ProvisionDeviceJob.device_id j))];
}.
#[export] Instance DeleteDeviceJob_insertable : InsertableJob DeleteDeviceJob.t := {
  QUEUE_NAME := "delete-device";
  to_value j := JObject
    [("user_id", ulid_value (DeleteDeviceJob.user_id j));
     ("device_id", JString (DeleteDeviceJob.device_id j))];
}.
#[export] Instance SyncDevicesJob_insertable : InsertableJob SyncDevicesJob.t := {
  QUEUE_NAME := QueueJobRepository.SYNC_DEVICES;
  to_value j := QueueJobRepository.sync_devices_payload (SyncDevicesJob.user_id j);
}.
#[export] Instance DeactivateUserJob_insertable : InsertableJob DeactivateUserJob.t := {
  QUEUE_NAME := "deactivate-user";
  to_value j := JObject
    [("user_id", ulid_value (DeactivateUserJob.user_id j));
     ("hs_erase", JBool (DeactivateUserJob.hs_erase j))];
}.
#[export] Instance ReactivateUserJob_insertable : InsertableJob ReactivateUserJob.t := {
  QUEUE_NAME := "reactivate-user";
  to_value j := JObject [("user_id", ulid_value (ReactivateUserJob.user_id j))];
}.
End UserJobs.

(** ** Expiry of sessions *)

(** [pagination]: the batch after the cursor of the job. *)
Definition batch_after (after : option Ulid) (batch_size : Z) : Pagination.t :=
  let pagination := first_page batch_size in
  match after with
  | Some after => with_after after pagination
  | None => pagination
  end.

(** The cursor of the next batch: that of the last edge of a page that has a
    successor. *)
Definition next_cursor {T} (page : Page.t T) : option Ulid :=
  if Page.has_next_page page then Edge.cursor <$> last (Page.edges page) else None.

Module ExpireInactiveOAuthSessionsJob.
Record t := mk { threshold : DateTime; after : option Ulid }.
Definition new (threshold : DateTime) : t := mk threshold None.
Definition pagination (j : t) (batch_size : Z) : Pagination.t := batch_after (after j) batch_size.
Definition next (j : t) (page : Page.t Session.t) : option t :=
  c ← next_cursor page; Some (mk (threshold j) (Some c)).
End ExpireInactiveOAuthSessionsJob.

Module ExpireInactiveCompatSessionsJob.
Record t := mk { threshold : DateTime; after : option Ulid }.
Definition new (threshold : DateTime) : t := mk threshold None.
Definition pagination (j : t) (batch_size : Z) : Pagination.t := batch_after (after j) batch_size.
Definition next {T} (j : t) (page : Page.t T) : option t :=
  c ← next_cursor page; Some (mk (threshold j) (Some c)).
End ExpireInactiveCompatSessionsJob.

Module ExpireInactiveUserSessionsJob.
Record t := mk { threshold : DateTime; after : option Ulid }.
Definition new (threshold : DateTime) : t := mk threshold None.
Definition pagination (j : t) (batch_size : Z) : Pagination.t := batch_after (after j) batch_size.
Definition next (j : t) (page : Page.t BrowserSession.t) : option t :=
  c ← next_cursor page; Some (mk (threshold j) (Some c)).
End ExpireInactiveUserSessionsJob.

Module ExpirePgOAuthSessionsJob.
Record t := mk {
  short_lived_created_before : DateTime;
  long_lived_created_before : DateTime;
  inactive_before : DateTime;
  after : option Ulid;
}.
Definition new (short_lived long_lived inactive : DateTime) : t :=
  mk short_lived long_lived inactive None.
Definition pagination (j : t) (batch_size : Z) : Pagination.t := batch_after (after j) batch_size.
Definition next (j : t) (page : Page.t Session.t) : option t :=
  c ← next_cursor page;
  Some (mk (short_lived_created_before j) (long_lived_created_before j) (inactive_before j)
          (Some c)).
End ExpirePgOAuthSessionsJob.

Section ExpiryJobs.
Context `{!UlidText, !ChronoText}.

#[export] Instance ExpireInactiveOAuthSessionsJob_insertable :
    InsertableJob ExpireInactiveOAuthSessionsJob.t := {
  QUEUE_NAME := "expire-inactive-oauth-sessions";
  to_value j := JObject
    [("threshold", date_value (ExpireInactiveOAuthSessionsJob.threshold j));
     ("after", option_value ulid_value (ExpireInactiveOAuthSessionsJob.after j))];
}.
#[export] Instance ExpireInactiveCompatSessionsJob_insertable :
    InsertableJob ExpireInactiveCompatSessionsJob.t := {
  QUEUE_NAME := "expire-inactive-compat-sessions";
  to_value j := JObject
    [("threshold", date_value (ExpireInactiveCompatSessionsJob.threshold j));
     ("after", option_value ulid_value (ExpireInactiveCompatSessionsJob.after j))];
}.
#[export] Instance ExpireInactiveUserSessionsJob_insertable :
    InsertableJob ExpireInactiveUserSessionsJob.t := {
  QUEUE_NAME := "expire-inactive-user-sessions";
  to_value j := JObject
    [("threshold", date_value (ExpireInactiveUserSessionsJob.threshold j));
     ("after", option_value ulid_value (ExpireInactiveUserSessionsJob.after j))];
}.
#[export] Instance ExpirePgOAuthSessionsJob_insertable :
    InsertableJob ExpirePgOAuthSessionsJob.t := {
  QUEUE_NAME := "expire-pg-oauth-sessions";
  to_value j := JObject
    [("short_lived_created_before",
      date_value (ExpirePgOAuthSessionsJob.short_lived_created_before j));
     ("long_lived_created_before",
      date_value (ExpirePgOAuthSessionsJob.long_lived_created_before j));
     ("inactive_before", date_value (ExpirePgOAuthSessionsJob.inactive_before j));
     ("after", option_value ulid_value (ExpirePgOAuthSessionsJob.after j))];
}.
End ExpiryJobs.
