(* ===== verification/AppSessionRepo.v ===== *)
(** * Application sessions

    crates/storage-pg/src/app_session.rs with the filter of
    crates/storage/src/app_session.rs: OAuth 2.0 and compatibility sessions
    listed together, and the end of the sessions a device had. *)

From stdpp Require Import base tactics list strings gmap.
From Stdlib Require Import ZArith Lia.
From S2P Require Import Prelude Text Scope Externals Formats Pagination TokenFormat DataModel CompatModel Storage TokenRepo QueueRepo UserRepo CompatRepo GrantRepo.

#[local] Open Scope Z_scope.

Inductive AppSession : Type :=
| AppCompat (s : CompatSession.t)
| AppOAuth2 (s : Session.t).

Module AppSessionFilter.
Inductive State : Type := Active | Finished.

Record t := mk {
  user : option User.t;
  browser_session : option BrowserSession.t;
  state : option State;
  device_id : option Device.Device;
  last_active_before : option DateTime;
  last_active_after : option DateTime;
  created_before : option DateTime;
  created_after : option DateTime;
}.

Definition new : t := mk None None None None None None None None.
Definition for_user (u : User.t) (f : t) : t :=
  mk (Some u) (browser_session f) (state f) (device_id f) (last_active_before f)
    (last_active_after f) (created_before f) (created_after f).
Definition active_only (f : t) : t :=
  mk (user f) (browser_session f) (Some Active) (device_id f) (last_active_before f)
    (last_active_after f) (created_before f) (created_after f).
End AppSessionFilter.

Module AppSessionRepository.

(** [if let Some(x) = o { f = set(f, x) }]. *)
Definition set_opt {A F} (o : option A) (set : A → F → F) (f : F) : F :=
  match o with Some a => set a f | None => f end.

Definition split_filter (f : AppSessionFilter.t) : CompatSessionFilter.t * OAuth2SessionFilter.t :=
  let c := CompatSessionFilter.new in
  let o := OAuth2SessionFilter.new in
  let c := set_opt (AppSessionFilter.user f) CompatSessionFilter.for_user c in
  let o := set_opt (AppSessionFilter.user f) OAuth2SessionFilter.for_user o in
  let '(c, o) :=
    match AppSessionFilter.state f with
    | Some AppSessionFilter.Active =>
        (CompatSessionFilter.active_only c, OAuth2SessionFilter.active_only o)
    | Some AppSessionFilter.Finished =>
        (CompatSessionFilter.finished_only c, OAuth2SessionFilter.finished_only o)
    | None => (c, o)
    end in
  let c := set_opt (AppSessionFilter.device_id f) CompatSessionFilter.for_device c in
  let o := set_opt (AppSessionFilter.device_id f) OAuth2SessionFilter.for_device o in
  let c := set_opt (AppSessionFilter.browser_session f) CompatSessionFilter.for_browser_session c in
  let o := set_opt (AppSessionFilter.browser_session f) OAuth2SessionFilter.for_browser_session o in
  let c := set_opt (AppSessionFilter.last_active_before f)
             CompatSessionFilter.with_last_active_before c in
  let o := set_opt (AppSessionFilter.last_active_before f)
             OAuth2SessionFilter.with_last_active_before o in
  let c := set_opt (AppSessionFilter.last_active_after f)
             CompatSessionFilter.with_last_active_after c in
  let o := set_opt (AppSessionFilter.last_active_after f)
             OAuth2SessionFilter.with_last_active_after o in
  let c := set_opt (AppSessionFilter.created_before f) CompatSessionFilter.with_created_before c in
  let o := set_opt (AppSessionFilter.created_before f) OAuth2SessionFilter.with_created_before o in
  let c := set_opt (AppSessionFilter.created_after f) CompatSessionFilter.with_created_after c in
  let o := set_opt (AppSessionFilter.created_after f) OAuth2SessionFilter.with_created_after o in
  (c, o).

(** A row of the union of the two queries. *)
Record AppSessionLookup := mkAppSessionLookup {
  cursor : Ulid;
  compat_session_id : option Ulid;
  oauth2_session_id : option Ulid;
  oauth2_client_id : option Ulid;
  user_session_id : option Ulid;
  user_id : option Ulid;
  scope_list : option (list string);
  device_id : option string;
  human_name : option string;
  created_at : DateTime;
  finished_at : option DateTime;
  is_synapse_admin : option bool;
  user_agent : option string;
  last_active_at : option DateTime;
  last_active_ip : option IpAddr;
}.

#[export] Instance AppSessionLookup_node : Node AppSessionLookup := cursor.

(** [TryFrom<AppSessionLookup> for AppSession]. *)
Definition try_from (r : AppSessionLookup) : result DatabaseInconsistencyError AppSession :=
  match compat_session_id r, oauth2_session_id r, oauth2_client_id r, user_id r, scope_list r,
        device_id r, is_synapse_admin r with
  | Some id, None, None, Some user_id, None, device_id_opt, Some is_synapse_admin =>
      let state := match finished_at r with
                   | None => CompatSessionState.Valid
                   | Some finished_at => CompatSessionState.Finished finished_at
                   end in
      Ok (AppCompat (CompatSession.mk id state user_id (Device.mkDevice <$> device_id_opt)
            (human_name r) (user_session_id r) (created_at r) is_synapse_admin (user_agent r)
            (last_active_at r) (last_active_ip r)))
  | None, Some id, Some client_id, user_id, Some scope_list, None, None =>
      try tokens <- map_err (λ _, on "oauth2_sessions" (Some "scope") (Some id))
                     (collect ScopeToken_from_str scope_list);
      let scope := Scope_from_iter tokens in
      let state := match finished_at r with
                   | None => SessionState.Valid
                   | Some finished_at => SessionState.Finished finished_at
                   end in
      Ok (AppOAuth2 (Session.mk id state (created_at r) user_id (user_session_id r) client_id
            scope (user_agent r) (last_active_at r) (last_active_ip r) (human_name r)))
  | _, _, _, _, _, _, _ => Err (on "sessions" None (Some (cursor r)))
  end.

(** The columns of the two queries. *)
Definition oauth2_select (r : OAuthSessionLookup.t) : AppSessionLookup :=
  let id := OAuthSessionLookup.oauth2_session_id r in
  mkAppSessionLookup id None (Some id) (Some (OAuthSessionLookup.oauth2_client_id r))
    (OAuthSessionLookup.user_session_id r) (OAuthSessionLookup.user_id r)
    (Some (OAuthSessionLookup.scope_list r)) None (OAuthSessionLookup.human_name r)
    (OAuthSessionLookup.created_at r) (OAuthSessionLookup.finished_at r) None
    (OAuthSessionLookup.user_agent r) (OAuthSessionLookup.last_active_at r)
    (OAuthSessionLookup.last_active_ip r).

Definition compat_select (r : CompatSessionLookup.t) : AppSessionLookup :=
  let id := CompatSessionLookup.compat_session_id r in
  mkAppSessionLookup id (Some id) None None (CompatSessionLookup.user_session_id r)
    (Some (CompatSessionLookup.user_id r)) None (CompatSessionLookup.device_id r)
    (CompatSessionLookup.human_name r) (CompatSessionLookup.created_at r)
    (CompatSessionLookup.finished_at r) (Some (CompatSessionLookup.is_synapse_admin r))
    (CompatSessionLookup.user_agent r) (CompatSessionLookup.last_active_at r)
    (CompatSessionLookup.last_active_ip r).

(** The [UNION ALL] of the common table expression. *)
Definition sessions (f : AppSessionFilter.t) (d : Db) : list AppSessionLookup :=
  let '(c, o) := split_filter f in
  (oauth2_select <$> matching_rows (OAuth2SessionFilter.generate_condition o d) d)
  ++ (compat_select <$> matching_rows (CompatSessionFilter.generate_condition c None d) d).

(** A session of the device, under its stable or unstable scope token. *)
Definition uses_device (user : Ulid) (stable unstable : string) (r : OAuthSessionLookup.t) : bool :=
  bool_decide (OAuthSessionLookup.user_id r = Some user)
  && (bool_decide (stable ∈ OAuthSessionLookup.scope_list r)
      || bool_decide (unstable ∈ OAuthSessionLookup.scope_list r))
  && bool_decide (OAuthSessionLookup.finished_at r = None).

Section Ops.
Context {R : Type} `{!RngCore R}.
Abbreviation Repo := (M (World R) DatabaseError) (only parsing).

Definition list (f : AppSessionFilter.t) (p : Pagination.t) : Repo (Page.t AppSession) :=
  fetch_page cursor try_from (sessions f) p.

Definition count (f : AppSessionFilter.t) : Repo Z :=
  select (λ d, Z.of_nat (length (sessions f d))).

Definition finish_sessions_to_replace_device (user : User.t) (device : Device.Device) :
    Repo bool :=
  do finished <- now;
  do compat_affected <- execute (update_where_stmt
    (λ r, bool_decide (CompatSessionLookup.user_id r = User.id user)
          && bool_decide (CompatSessionLookup.device_id r = Some (Device.id device))
          && bool_decide (CompatSessionLookup.finished_at r = None))
    (CompatSessionRepository.with_finished_at finished));
  match Device.to_scope_token device with
  | Ok (stable, unstable) =>
      do oauth2_affected <- execute (update_where_stmt (uses_device (User.id user) stable unstable)
        (SessionRepository.with_finished_at finished));
      ret ((0 <? compat_affected)%nat || (0 <? oauth2_affected)%nat)
  | Err _ => ret (0 <? compat_affected)%nat
  end.
End Ops.
End AppSessionRepository.

(** ** The sessions of applications

    The union of the OAuth 2.0 and compatibility sessions
    (crates/storage-pg/src/app_session.rs) is what the two repositories read
    on their own; and where listing and counting compatibility sessions
    differ. *)

#[local] Open Scope Z_scope.

Lemma app_compat_row r :
  AppSessionRepository.try_from (AppSessionRepository.compat_select r) =
  Ok (AppCompat (CompatSessionRepository.of_row r)).
Proof. by destruct r. Qed.

Lemma app_oauth2_row r :
  AppSessionRepository.try_from (AppSessionRepository.oauth2_select r) =
  match SessionRepository.try_from r with Ok s => Ok (AppOAuth2 s) | Err e => Err e end.
Proof.
  unfold AppSessionRepository.try_from, SessionRepository.try_from. simpl.
  by destruct (collect ScopeToken_from_str (OAuthSessionLookup.scope_list r)).
Qed.

(** C33: the sessions of applications a filter selects are the compatibility
    sessions and the OAuth 2.0 sessions their own repositories select with the
    two halves of the filter, read as these repositories read them: the union
    loses none, adds none and mixes up no column. *)
Theorem app_sessions_equiv f d s :
  (∃ row, row ∈ AppSessionRepository.sessions f d ∧ AppSessionRepository.try_from row = Ok s) ↔
  (∃ r, r ∈ matching_rows (CompatSessionFilter.generate_condition
                (AppSessionRepository.split_filter f).1 None d) d ∧
     s = AppCompat (CompatSessionRepository.of_row r)) ∨
  (∃ r x, r ∈ matching_rows (OAuth2SessionFilter.generate_condition
                (AppSessionRepository.split_filter f).2 d) d ∧
     SessionRepository.try_from r = Ok x ∧ s = AppOAuth2 x).
Proof.
  unfold AppSessionRepository.sessions. destruct (AppSessionRepository.split_filter f) as [c o].
  simpl. setoid_rewrite elem_of_app. setoid_rewrite list_elem_of_fmap. split.
  - intros (row & [(r & -> & Hr)|(r & -> & Hr)] & H).
    + right. rewrite app_oauth2_row in H.
      destruct (SessionRepository.try_from r) as [x|] eqn:E; [|done]. injection H as <-. eauto.
    + left. rewrite app_compat_row in H. injection H as <-. eauto.
  - intros [(r & Hr & ->)|(r & x & Hr & Hx & ->)].
    + exists (AppSessionRepository.compat_select r). split; [eauto|]. apply app_compat_row.
    + exists (AppSessionRepository.oauth2_select r). split; [eauto|].
      by rewrite app_oauth2_row, Hx.
Qed.

(** *** Listing and counting *)

(** A compatibility session that does not come from an SSO login is listed
    as such, but not counted as soon as some SSO login is not exchanged yet:
    its [compat_session_id] is [NULL], and [<> ALL] of a column with a [NULL]
    is never true. *)
Definition unknown_session : CompatSessionLookup.t :=
  CompatSessionLookup.mk 7 None None 2 None 0 None false None None None.
Definition pending_login : CompatSsoLoginLookup.t :=
  CompatSsoLoginLookup.mk 8 "token" "https://app.example.com/" 0 None None None None.
Definition unknown_db : Db :=
  mkDb ∅ ∅ ∅ ∅ ∅ ∅ ∅ ∅ ∅ ∅ ∅ ∅ None {[7 := unknown_session]} ∅ ∅ {[8 := pending_login]} ∅ ∅ ∅ ∅ ∅ no_accounts.

Lemma unknown_sessions_not_counted :
  CompatSessionRepository.joined_rows
    (CompatSessionFilter.unknown_only CompatSessionFilter.new) unknown_db
    = [(unknown_session, None)] ∧
  matching_rows (CompatSessionFilter.generate_condition
    (CompatSessionFilter.unknown_only CompatSessionFilter.new) None unknown_db) unknown_db = [].
Proof. split; vm_compute; reflexivity. Qed.
