(* ===== verification/Passwords.v ===== *)
(** * Password hashing and encryption of secrets

    crates/handlers/src/passwords.rs: the hashing schemes, the verification
    of a password under the scheme it was hashed with, and the upgrade of the
    hash to the current scheme; crates/keystore/src/encrypter.rs: the encryption of
    the secrets of clients at rest. *)

From stdpp Require Import base tactics list strings gmap.
From Stdlib Require Import ZArith Lia.
From S2P Require Import Prelude Text Externals.

#[local] Open Scope Z_scope.

(** The crates [bcrypt], [argon2], [pbkdf2], [icu_normalizer], [zxcvbn] and
    [rand_chacha].  A hash draws its salt from the generator it is given; it
    may fail, and so may the reading of a stored hash. *)
Class PasswordCrates (R C : Type) := {
  chacha_from_rng : R → option C * R;
  bcrypt_hash : Z → string → C → option string;
  bcrypt_verify : string → string → option bool;
  argon2_hash : option string → string → C → option string;
  argon2_verify : option string → string → string → option bool;
  pbkdf2_hash : string → C → option string;
  pbkdf2_verify : string → string → option bool;
  nfkc : string → string;
  zxcvbn_score : string → Z;
}.

(** A hash verifies against the password it is of. *)
Class PasswordLaws (R C : Type) `{!PasswordCrates R C} : Prop := {
  bcrypt_hash_verify cost p c h : bcrypt_hash cost p c = Some h → bcrypt_verify p h = Some true;
  argon2_hash_verify k p c h : argon2_hash k p c = Some h → argon2_verify k p h = Some true;
  pbkdf2_hash_verify p c h : pbkdf2_hash p c = Some h → pbkdf2_verify p h = Some true;
}.

Inductive PasswordVerificationResult (T : Type) : Type :=
| Success (data : T)
| Failure.
Arguments Success {T} _.
Arguments Failure {T}.

Definition with_data {T N} (r : PasswordVerificationResult T) (data : N) :
    PasswordVerificationResult N :=
  match r with Success _ => Success data | Failure => Failure end.

Definition is_success {T} (r : PasswordVerificationResult T) : bool :=
  match r with Success _ => true | Failure => false end.

(** [From<bool>]. *)
Definition verification_of_bool (b : bool) : PasswordVerificationResult unit :=
  if b then Success tt else Failure.

(** What [anyhow::Error] carries here. *)
Inductive PasswordError : Type :=
| PasswordManagerDisabled
| HashingSchemeNotFound
| NoHasher
| HashingFailed
| RngFailed.

Inductive Algorithm : Type :=
| Bcrypt (cost : option Z)
| Argon2id
| Pbkdf2.

Module Hasher.
Record t := mk {
  algorithm : Algorithm;
  unicode_normalization : bool;
  pepper : option string;
}.
End Hasher.

Record InnerPasswordManager := mkInnerPasswordManager {
  minimum_complexity : Z;
  current_hasher : Hasher.t;
  current_version : Z;
  other_hashers : gmap Z Hasher.t;
}.

Abbreviation PasswordManager := (option InnerPasswordManager) (only parsing).

(** [PasswordManager::new], [disabled], [is_enabled] and [get_inner]. *)
Definition PasswordManager_new (minimum_complexity : Z) (hashers : list (Z * Hasher.t)) :
    result PasswordError PasswordManager :=
  match hashers with
  | [] => Err NoHasher
  | (current_version, current_hasher) :: rest =>
      Ok (Some (mkInnerPasswordManager minimum_complexity current_hasher current_version
                  (foldl (λ m kh, <[kh.1 := kh.2]> m) ∅ rest)))
  end.

Definition disabled : PasswordManager := None.
Definition is_enabled (m : PasswordManager) : bool :=
  match m with Some _ => true | None => false end.
Definition get_inner (m : PasswordManager) : result PasswordError InnerPasswordManager :=
  ok_or m PasswordManagerDisabled.

Section Hashing.
Context {R C : Type} `{!PasswordCrates R C}.

(** [password.extend_from_slice(pepper)]. *)
Definition peppered (password : string) (pepper : option string) : string :=
  match pepper with Some p => password +:+ p | None => password end.

Definition algorithm_hash (a : Algorithm) (rng : C) (password : string) (pepper : option string) :
    option string :=
  match a with
  | Bcrypt cost => bcrypt_hash (default 12 cost) (peppered password pepper) rng
  | Argon2id => argon2_hash pepper password rng
  | Pbkdf2 => pbkdf2_hash (peppered password pepper) rng
  end.

Definition algorithm_verify (a : Algorithm) (hashed_password password : string)
    (pepper : option string) : option (PasswordVerificationResult unit) :=
  verification_of_bool <$>
    match a with
    | Bcrypt _ => bcrypt_verify (peppered password pepper) hashed_password
    | Argon2id => argon2_verify pepper password hashed_password
    | Pbkdf2 => pbkdf2_verify (peppered password pepper) hashed_password
    end.

Definition normalize_password (h : Hasher.t) (password : string) : string :=
  if Hasher.unicode_normalization h then nfkc password else password.

Definition hash_blocking (h : Hasher.t) (rng : C) (password : string) : option string :=
  algorithm_hash (Hasher.algorithm h) rng (normalize_password h password) (Hasher.pepper h).

Definition verify_blocking (h : Hasher.t) (hashed_password password : string) :
    option (PasswordVerificationResult unit) :=
  algorithm_verify (Hasher.algorithm h) hashed_password (normalize_password h password)
    (Hasher.pepper h).

Definition is_password_complex_enough (m : PasswordManager) (password : string) :
    result PasswordError bool :=
  try inner <- get_inner m;
  Ok (minimum_complexity inner <=? zxcvbn_score password).

(** [PasswordManager::hash], on a generator of its own seeded from the one
    of the request. *)
Definition hash (m : PasswordManager) (password : string) : M R PasswordError (Z * string) :=
  do inner <- lift (get_inner m);
  do rng <- (λ r, let '(c, r) := chacha_from_rng r in (ok_or c RngFailed, r));
  do hashed <- lift (ok_or (hash_blocking (current_hasher inner) rng password) HashingFailed);
  ret (current_version inner, hashed).

Definition verify_password (m : PasswordManager) (scheme : Z) (password hashed_password : string) :
    result PasswordError (PasswordVerificationResult unit) :=
  try inner <- get_inner m;
  try hasher <-
    (if decide (scheme = current_version inner) then Ok (current_hasher inner)
     else ok_or (other_hashers inner !! scheme) HashingSchemeNotFound);
  ok_or (verify_blocking hasher hashed_password password) HashingFailed.

(** The new hash is computed next to the verification; an error of the
    verification comes first. *)
Definition verify_and_upgrade (m : PasswordManager) (scheme : Z)
    (password hashed_password : string) :
    M R PasswordError (PasswordVerificationResult (option (Z * string))) :=
  do inner <- lift (get_inner m);
  λ r,
    let '(new_hash_res, r) :=
      if decide (scheme = current_version inner) then (None, r)
      else let '(res, r) := hash m password r in (Some res, r) in
    (try password_result <- verify_password m scheme password hashed_password;
     try new_hash <- match new_hash_res with
                     | None => Ok None
                     | Some res => try h <- res; Ok (Some h)
                     end;
     Ok (with_data password_result new_hash), r).
End Hashing.

(** ** What a hash is good for *)

Section Facts.
Context {R C : Type} `{!PasswordCrates R C, !PasswordLaws R C}.

Lemma algorithm_hash_verify a rng p k h :
  algorithm_hash a rng p k = Some h → algorithm_verify a h p k = Some (Success tt).
Proof.
  unfold algorithm_verify.
  destruct a as [cost| |]; simpl; intros H;
    [apply bcrypt_hash_verify in H | apply argon2_hash_verify in H | apply pbkdf2_hash_verify in H];
    by rewrite H.
Qed.

Lemma hash_Ok m password r v h r' :
  hash m password r = (Ok (v, h), r') →
  ∃ inner c, m = Some inner ∧ v = current_version inner ∧
    hash_blocking (current_hasher inner) c password = Some h.
Proof.
  intros (inner & r1 & H1 & (c & r2 & H2 & (x & r3 & H3 & [= <- <- <-])%bind_Ok_inv)
    %bind_Ok_inv)%bind_Ok_inv.
  apply lift_inv in H1 as [H1 ->]. apply lift_inv in H3 as [H3 ->].
  destruct m as [i|]; simplify_eq/=. eexists _, c. split_and!; try done.
  destruct (hash_blocking _ _ _); by simplify_eq/=.
Qed.

(** A hash made under the current scheme verifies, and is not upgraded. *)
Lemma hash_verifies m password r v h r' r1 :
  hash m password r = (Ok (v, h), r') →
  verify_and_upgrade m v password h r1 = (Ok (Success None), r1).
Proof.
  intros (inner & c & -> & -> & H)%hash_Ok. unfold verify_and_upgrade, bind, lift. simpl.
  rewrite decide_True by done. unfold verify_password. simpl. rewrite decide_True by done. simpl.
  unfold verify_blocking. by rewrite (algorithm_hash_verify _ _ _ _ _ H).
Qed.

(** An upgrade is a hash of the same password, which had an old scheme. *)
Lemma upgrade_hashes m v password h r v' h' r' :
  verify_and_upgrade m v password h r = (Ok (Success (Some (v', h'))), r') →
  v ≠ v' ∧ verify_password m v password h = Ok (Success tt) ∧
  ∃ r1 r2, hash m password r1 = (Ok (v', h'), r2).
Proof.
  intros H. unfold verify_and_upgrade, bind at 1, lift in H.
  destruct m as [inner|]; simpl in H; [|done].
  destruct (decide (v = current_version inner)) as [->|Hne];
    destruct (verify_password _ _ password h) as [[[]|]|] eqn:Hv; simpl in H; simplify_eq/=;
    try (destruct (hash (Some inner) password r) as [[[v1 h1]|] r1] eqn:Hh;
         simpl in H; simplify_eq/=).
  split_and!; [|done|eauto]. by apply hash_Ok in Hh as (i & c & [= <-] & -> & _).
Qed.

(** The hash of a password verifies that password and needs no upgrade;
    and when a password verifies under a scheme that is not the current one,
    the hash it is upgraded to is of the current scheme, verifies the same
    password, and is not upgraded again. *)
Theorem password_round_trip m password v h :
  (∀ r r' r1, hash m password r = (Ok (v, h), r') →
     verify_and_upgrade m v password h r1 = (Ok (Success None), r1)) ∧
  (∀ v0 h0 r r' r1, verify_and_upgrade m v0 password h0 r = (Ok (Success (Some (v, h))), r') →
     v0 ≠ v ∧ verify_and_upgrade m v password h r1 = (Ok (Success None), r1)).
Proof.
  split; [intros r r' r1; apply hash_verifies|].
  intros v0 h0 r r' r1 (Hne & _ & r2 & r3 & Hh)%upgrade_hashes. split; [done|].
  by eapply hash_verifies.
Qed.
End Facts.

(** ** Witness *)
Module PlainPasswords.
(** Hashes that are the password itself. *)
#[export] Instance plain_crates : PasswordCrates Z Z := {
  chacha_from_rng r := (Some r, r + 1)%Z;
  bcrypt_hash _ p _ := Some ("b" +:+ p);
  bcrypt_verify p h := Some (bool_decide (h = "b" +:+ p));
  argon2_hash _ p _ := Some ("a" +:+ p);
  argon2_verify _ p h := Some (bool_decide (h = "a" +:+ p));
  pbkdf2_hash p _ := Some ("p" +:+ p);
  pbkdf2_verify p h := Some (bool_decide (h = "p" +:+ p));
  nfkc p := p;
  zxcvbn_score p := Z.of_nat (String.length p);
}.
#[export] Instance plain_laws : PasswordLaws Z Z.
Proof. split; simpl; intros; simplify_eq/=; by rewrite bool_decide_eq_true_2. Qed.

Definition manager : PasswordManager :=
  Some (mkInnerPasswordManager 2 (Hasher.mk Argon2id false None) 2
          {[1 := Hasher.mk (Bcrypt None) true (Some "pepper")]}).

(** A password of the first scheme is upgraded to the second one. *)
Lemma password_round_trip_witness :
  verify_and_upgrade manager 1 "hunter2" "bhunter2pepper" 0
    = (Ok (Success (Some (2, "ahunter2"))), 1) ∧
  verify_and_upgrade manager 2 "hunter2" "ahunter2" 0 = (Ok (Success None), 0).
Proof.
  split; [vm_compute; reflexivity|].
  apply (proj2 (password_round_trip manager "hunter2" 2 "ahunter2") 1 "bhunter2pepper" 0 1 0).
  vm_compute. reflexivity.
Defined.
End PlainPasswords.

(** ** Encryption of secrets at rest

    crates/keystore/src/encrypter.rs.  The cipher and the Base64 alphabet are
    parameters; a nonce is an argument, for it comes from the generator of the
    thread. *)
#[local] Close Scope Z_scope.

(** [chacha20poly1305] with the key of the encrypter, and the padded Base64
    of [base64ct]. *)
Class Aead := {
  aead_encrypt : string → string → option string;
  aead_decrypt : string → string → option string;
}.
Class Base64Std := {
  base64_encode : string → string;
  base64_decode : string → option string;
}.

(** What was encrypted with a nonce of 12 bytes decrypts to itself with it,
    and what was encoded decodes to itself. *)
Class AeadLaws `{!Aead} : Prop :=
  aead_roundtrip nonce s c : String.length nonce = 12 → aead_encrypt nonce s = Some c →
    aead_decrypt nonce c = Some s.
Class Base64StdLaws `{!Base64Std} : Prop :=
  base64_roundtrip s : base64_decode (base64_encode s) = Some s.

Module Encrypter.
Inductive DecryptError : Type := AeadFailed | Base64Failed | Shape.

Definition NONCE : nat := 12.

(** [bytes.get(n..)]. *)
Fixpoint str_skip (n : nat) (s : string) : option string :=
  match n, s with
  | O, s => Some s
  | S n, String _ s => str_skip n s
  | S _, EmptyString => None
  end.
(** [bytes.get(0..n)]. *)
Fixpoint str_first (n : nat) (s : string) : option string :=
  match n, s with
  | O, _ => Some ""
  | S n, String c s => String c <$> str_first n s
  | S _, EmptyString => None
  end.

Section Encrypter.
Context {aead : Aead} {base64 : Base64Std}.

Definition encrypt_to_string (nonce decrypted : string) : option string :=
  encrypted ← aead_encrypt nonce decrypted;
  Some (base64_encode (nonce +:+ encrypted)).

Definition decrypt_string (encrypted : string) : result DecryptError string :=
  try encrypted <- ok_or (base64_decode encrypted) Base64Failed;
  try nonce <- ok_or (str_first NONCE encrypted) Shape;
  try payload <- ok_or (str_skip NONCE encrypted) Shape;
  ok_or (aead_decrypt nonce payload) AeadFailed.

Lemma str_first_app (a b : string) : str_first (String.length a) (a +:+ b) = Some a.
Proof. induction a as [|c a IH]; simpl; [done|]. change (str_first _ _) with
  (str_first (String.length a) (a +:+ b)). by rewrite IH. Qed.
Lemma str_skip_app (a b : string) : str_skip (String.length a) (a +:+ b) = Some b.
Proof. induction a as [|c a IH]; simpl; [by destruct b | exact IH]. Qed.

(** A secret that was encrypted is read back. *)
Theorem encrypted_read_back {aead_laws : AeadLaws} {base64_laws : Base64StdLaws} nonce s e :
  String.length nonce = NONCE → encrypt_to_string nonce s = Some e → decrypt_string e = Ok s.
Proof.
  intros Hn (c & Hc & [= <-])%bind_Some. unfold decrypt_string.
  rewrite base64_roundtrip, <-Hn. cbn [ok_or rbind]. rewrite str_first_app, str_skip_app.
  cbn [ok_or rbind]. by rewrite (aead_roundtrip nonce s c).
Qed.
End Encrypter.
End Encrypter.
