(* ===== verification/ClientAuth.v ===== *)
(** * Client authentication

    crates/axum-utils/src/client_authorization.rs: the credentials a client
    presents at the token, revocation and introspection endpoints. *)

From stdpp Require Import base tactics list strings gmap.
From Stdlib Require Import ZArith Lia Ascii.
From S2P Require Import Prelude Text Scope Externals Formats TokenFormat DataModel Storage TokenRepo QueueRepo UserRepo.

(** A JWT is kept as its compact serialization. *)
Inductive Credentials : Type :=
| NoneCredentials (client_id : string)
| SecretBasic (client_id client_secret : string)
| SecretPost (client_id client_secret : string)
| ClientAssertionJwtBearer (client_id jwt : string)
| BearerToken (token : string).

Definition credentials_client_id (c : Credentials) : option string :=
  match c with
  | NoneCredentials client_id | SecretBasic client_id _ | SecretPost client_id _
  | ClientAssertionJwtBearer client_id _ => Some client_id
  | BearerToken _ => None
  end.

Definition bearer_token (c : Credentials) : option string :=
  match c with BearerToken token => Some token | _ => None end.

Inductive CredentialsVerificationError : Type :=
| DecryptionError
| InvalidClientConfig
| ClientSecretMismatch
| AuthenticationMethodMismatch
| InvalidAssertionSignature
| JwksFetchFailed.

Definition is_internal (e : CredentialsVerificationError) : bool :=
  match e with
  | DecryptionError | InvalidClientConfig | JwksFetchFailed => true
  | _ => false
  end.

(** [ClientAuthorization<F>]. *)
Record ClientAuthorization (F : Type) := mkClientAuthorization {
  credentials : Credentials;
  form : option F;
}.
Arguments mkClientAuthorization {F} _ _.
Arguments credentials {F} _.
Arguments form {F} _.

(** The encrypter of crates/keystore, the signature checks of crates/jose
    and the HTTP request for a client's keys. *)
Class ClientCrypto := {
  decrypt_string : string → option string;
  verify_with_jwks : string → string → bool;
  verify_with_shared_secret : string → string → bool;
  http_get_jwks : string → option string;
}.

Section ClientAuth.
Context {R : Type} `{!RngCore R, !UrlLib, !UlidText, !JwksJson, !ClientCrypto}.

Definition fetch (c : Credentials) : M (World R) DatabaseError (option Client.t) :=
  match credentials_client_id c with
  | Some client_id => ClientRepository.find_by_client_id client_id
  | None => ret None
  end.

Definition fetch_jwks (j : JwksOrJwksUri) : option string :=
  match j with
  | Jwks j => Some j
  | JwksUri u => http_get_jwks u
  end.

(** The decrypted secret of the client. *)
Definition client_secret_of (client : Client.t) :
    result CredentialsVerificationError string :=
  try encrypted <- ok_or (Client.encrypted_client_secret client) InvalidClientConfig;
  ok_or (decrypt_string encrypted) DecryptionError.

Definition verify (c : Credentials) (method : OAuthClientAuthenticationMethod)
    (client : Client.t) : result CredentialsVerificationError unit :=
  match c, method with
  | NoneCredentials _, NoAuthentication => Ok tt
  | SecretPost _ client_secret, ClientSecretPost
  | SecretBasic _ client_secret, ClientSecretBasic =>
      try decrypted <- client_secret_of client;
      if decide (client_secret = decrypted) then Ok tt else Err ClientSecretMismatch
  | ClientAssertionJwtBearer _ jwt, PrivateKeyJwt =>
      try jwks <- ok_or (Client.jwks client) InvalidClientConfig;
      try jwks <- ok_or (fetch_jwks jwks) JwksFetchFailed;
      if verify_with_jwks jwt jwks then Ok tt else Err InvalidAssertionSignature
  | ClientAssertionJwtBearer _ jwt, ClientSecretJwt =>
      try decrypted <- client_secret_of client;
      if verify_with_shared_secret jwt decrypted then Ok tt
      else Err InvalidAssertionSignature
  | _, _ => Err AuthenticationMethodMismatch
  end.

(** What the client proves for each registered method. *)
Definition authenticates (c : Credentials) (method : OAuthClientAuthenticationMethod)
    (client : Client.t) : Prop :=
  match method with
  | NoAuthentication => ∃ id, c = NoneCredentials id
  | ClientSecretPost => ∃ id secret enc, c = SecretPost id secret ∧
      Client.encrypted_client_secret client = Some enc ∧ decrypt_string enc = Some secret
  | ClientSecretBasic => ∃ id secret enc, c = SecretBasic id secret ∧
      Client.encrypted_client_secret client = Some enc ∧ decrypt_string enc = Some secret
  | PrivateKeyJwt => ∃ id jwt j keys, c = ClientAssertionJwtBearer id jwt ∧
      Client.jwks client = Some j ∧ fetch_jwks j = Some keys ∧
      verify_with_jwks jwt keys = true
  | ClientSecretJwt => ∃ id jwt enc secret, c = ClientAssertionJwtBearer id jwt ∧
      Client.encrypted_client_secret client = Some enc ∧ decrypt_string enc = Some secret ∧
      verify_with_shared_secret jwt secret = true
  | _ => False
  end.

Lemma verify_Ok_iff c method client :
  verify c method client = Ok tt ↔ authenticates c method client.
Proof.
  unfold authenticates, verify, client_secret_of, rbind, ok_or.
  destruct method, c; simpl;
    repeat (case_match; simplify_eq/=); split; intros; destruct_and?; try done;
    repeat match goal with H : ∃ _, _ |- _ => destruct H end; destruct_and?; simplify_eq;
    try congruence; eauto 10.
Qed.

(** The credentials of a client are accepted exactly when they are of the
    kind the client registered and carry the registered secret, or a
    signature made with it or with one of the client's keys; no other kind
    is accepted, whatever it carries.  A refusal is an internal error only when
    the secret or the keys the client registered cannot be read. *)
Theorem verify_iff c method client :
  (verify c method client = Ok tt ↔ authenticates c method client) ∧
  (∀ e, verify c method client = Err e → is_internal e = true →
     Client.encrypted_client_secret client ≫= decrypt_string = None ∨
     Client.jwks client ≫= fetch_jwks = None).
Proof.
  split; [apply verify_Ok_iff|]. intros e.
  unfold verify, client_secret_of, rbind, ok_or.
  destruct method, c; simpl; repeat (case_match; simplify_eq/=); try done;
    intros; simplify_eq/=; try done; eauto.
Qed.
End ClientAuth.
