(* ===== verification/TokenEndpoint.v ===== *)
(** * The token endpoint

    crates/handlers/src/oauth2/token.rs and the token generation of
    crates/handlers/src/oauth2/mod.rs. *)

From stdpp Require Import base tactics list strings gmap.
From Stdlib Require Import ZArith Lia Ascii.
From S2P Require Import Prelude Text Scope Formats Externals TokenFormat DataModel Storage TokenRepo GrantRepo QueueRepo UserRepo ClientAuth.

(** ** Requests and responses (crates/oauth2-types/src/requests.rs) *)

Record AuthorizationCodeGrant := mkAuthorizationCodeGrant {
  ac_code : string;
  ac_redirect_uri : option Url;
  ac_code_verifier : option string;
}.
Record RefreshTokenGrant := mkRefreshTokenGrant {
  rt_refresh_token : string;
  rt_scope : option Scope;
}.
Record ClientCredentialsGrant := mkClientCredentialsGrant { cc_scope : option Scope }.
Record DeviceCodeGrantRequest := mkDeviceCodeGrantRequest { dc_device_code : string }.

Inductive AccessTokenRequest : Type :=
| AuthorizationCodeRequest (g : AuthorizationCodeGrant)
| RefreshTokenRequest (g : RefreshTokenGrant)
| ClientCredentialsRequest (g : ClientCredentialsGrant)
| DeviceCodeRequest (g : DeviceCodeGrantRequest)
| UnsupportedRequest.

(** [token_type] is always [Bearer]. *)
Record AccessTokenResponse := mkAccessTokenResponse {
  r_access_token : string;
  r_refresh_token : option string;
  r_id_token : option string;
  r_expires_in : option Duration;
  r_scope : option Scope;
}.

Definition response_new (access_token : string) : AccessTokenResponse :=
  mkAccessTokenResponse access_token None None None None.
Definition with_refresh_token (t : string) (r : AccessTokenResponse) :=
  mkAccessTokenResponse (r_access_token r) (Some t) (r_id_token r) (r_expires_in r)
    (r_scope r).
Definition with_id_token (t : string) (r : AccessTokenResponse) :=
  mkAccessTokenResponse (r_access_token r) (r_refresh_token r) (Some t) (r_expires_in r)
    (r_scope r).
Definition with_expires_in (d : Duration) (r : AccessTokenResponse) :=
  mkAccessTokenResponse (r_access_token r) (r_refresh_token r) (r_id_token r) (Some d)
    (r_scope r).
Definition with_scope (s : Scope) (r : AccessTokenResponse) :=
  mkAccessTokenResponse (r_access_token r) (r_refresh_token r) (r_id_token r)
    (r_expires_in r) (Some s).

(** ** Errors (token.rs) *)

Inductive IdTokenSignatureError : Type :=
| InvalidSigningKey
| JwtSignature
| WrongAlgorithm
| TokenHash.

(** The errors [impl_from_error_for_route!] boxes. *)
Inductive InternalError : Type :=
| I18n
| TemplateError
| RepositoryError (e : DatabaseError)
| EvaluationError
| IdTokenError (e : IdTokenSignatureError).

Inductive RouteError : Type :=
| Internal (e : InternalError)
| BadRequest
| PkceVerification (e : CodeChallengeError)
| ClientNotFound
| ClientNotAllowed (client_id : Ulid)
| InvalidClientCredentials (client_id : Ulid) (source : CredentialsVerificationError)
| ClientCredentialsVerification (client_id : Ulid) (source : CredentialsVerificationError)
| GrantNotFound
| InvalidGrant (id : Ulid)
| RefreshTokenNotFound
| RefreshTokenInvalid (id : Ulid)
| SessionInvalid (id : Ulid)
| ClientIDMismatch (expected actual : Ulid)
| DeniedByPolicy (violations : list string)
| UnsupportedGrantType
| UnauthorizedClient (id : Ulid)
| UnexptectedClient (was expected : Ulid)
| NoSuchBrowserSession (id : Ulid)
| NoSuchOAuthSession (id : Ulid)
| NoSuchNextRefreshToken (next previous : Ulid)
| NoSuchNextAccessToken (access_token refresh_token : Ulid)
| DeviceCodeExpired
| DeviceCodePending
| DeviceCodeRejected
| DeviceCodeExchanged
| ProvisionDeviceFailed.

(** [IntoResponse for RouteError]: the status and the error. *)
Definition into_response (e : RouteError) : Z * ClientError :=
  match e with
  | Internal _ | ClientCredentialsVerification _ _ | NoSuchBrowserSession _
  | NoSuchOAuthSession _ | ProvisionDeviceFailed | NoSuchNextRefreshToken _ _
  | NoSuchNextAccessToken _ _ => (500%Z, client_error ClientErrorCode.ServerError)
  | BadRequest => (400%Z, client_error ClientErrorCode.InvalidRequest)
  | PkceVerification err =>
      (400%Z, with_description ("PKCE verification failed: "
                                +:+ CodeChallengeError_to_string err)
                (client_error ClientErrorCode.InvalidGrant))
  | ClientNotFound | InvalidClientCredentials _ _ =>
      (401%Z, client_error ClientErrorCode.InvalidClient)
  | ClientNotAllowed _ | UnauthorizedClient _ | UnexptectedClient _ _ =>
      (401%Z, client_error ClientErrorCode.UnauthorizedClient)
  | DeniedByPolicy violations =>
      (403%Z, with_description (String.concat ", " violations)
                (client_error ClientErrorCode.InvalidScope))
  | DeviceCodeRejected => (403%Z, client_error ClientErrorCode.AccessDenied)
  | DeviceCodeExpired => (403%Z, client_error ClientErrorCode.ExpiredToken)
  | DeviceCodePending => (403%Z, client_error ClientErrorCode.AuthorizationPending)
  | InvalidGrant _ | DeviceCodeExchanged | RefreshTokenNotFound | RefreshTokenInvalid _
  | SessionInvalid _ | ClientIDMismatch _ _ | GrantNotFound =>
      (400%Z, client_error ClientErrorCode.InvalidGrant)
  | UnsupportedGrantType => (400%Z, client_error ClientErrorCode.UnsupportedGrantType)
  end.

(** ** What the handlers are given *)

(** [SiteConfig] and [SessionLimitConfig] (data-model/src/site_config.rs), the
    settings the endpoints read. *)
Record SessionLimitConfig := mkSessionLimitConfig {
  soft_limit : Z;
  hard_limit : Z;
  max_session_threshold : option Z;
  dangerous_hard_limit_eviction : bool;
}.

Record SiteConfig := mkSiteConfig {
  access_token_ttl : Duration;
  compat_token_ttl : Duration;
  session_limit : option SessionLimitConfig;
  device_code_grant_enabled : bool;
  device_code_user_code_auto_fill_enabled : bool;
}.

(** [SessionCounts] of crates/policy/src/model.rs. *)
Record SessionCounts := mkSessionCounts {
  total : Z;
  oauth2 : Z;
  compat : Z;
  personal : Z;
}.

(** The policy engine (OPA): the violations of a request for a grant. *)
Class Policy := evaluate_authorization_grant :
  option User.t → Client.t → option SessionCounts → Scope → GrantType → option IpAddr → option string →
  option (list string).

(** Locales and templates: a locale parses or not, and the device name is
    rendered for the client, the user agent and the locale. *)
Class Templates := {
  parse_locale : string → bool;
  render_device_name : Client.t → option string → string → option string;
}.

(** The key store and the signature of ID tokens (crates/keystore and
    crates/jose): keys are handles. *)
Inductive ClaimValue : Type := ClaimText (s : string) | ClaimTime (t : DateTime).

Class Keystore (R : Type) := {
  oidc_issuer : string;
  signing_key_for_algorithm : string → option Z;
  signing_key_for_alg : Z → string → bool;
  key_kid : Z → option string;
  hash_token : string → string → option string;
  sign_with_rng : string → string → gmap string ClaimValue → R → option string * R;
}.

(** [BoundActivityTracker]: the address bound to the request. *)
Abbreviation BoundActivityTracker := (option IpAddr) (only parsing).

Section Handlers.
Context {R : Type} `{!RngCore R, !Crc, !Base64, !Sha2, !UlidText, !UrlLib, !JwksJson,
  !ClientCrypto, !Policy, !Templates, !Keystore R}.

Abbreviation Handler := (M (World R) RouteError) (only parsing).

(** The [?] on a repository operation. *)
Definition repo {A} (m : M (World R) DatabaseError A) : Handler A :=
  mmap_err (λ e, Internal (RepositoryError e)) m.

(** [.ok_or(e)?]. *)
Definition require {A} (o : option A) (e : RouteError) : Handler A := lift (ok_or o e).

(** [if !c { return Err(e) }]. *)
Definition guard (c : bool) (e : RouteError) : Handler unit :=
  if c then ret tt else fail e.

(** [ActivityTracker::record_oauth2_session]. *)
Definition record_oauth2_session {E} (ip : BoundActivityTracker) (s : Session.t) :
    M (World R) E unit :=
  do t <- now;
  modify (λ w, log_activity w (mkActivity OAuth2Kind (Session.id s) t ip)).

(** [homeserver.upsert_device(..).map_err(RouteError::ProvisionDeviceFailed)]. *)
Definition upsert_device (username device : string) (name : option string) : Handler unit :=
  mmap_err (λ _, ProvisionDeviceFailed) (homeserver_call (UpsertDevice username device name)).

(** ** Token generation (mod.rs) *)

Definition generate_id_token (client : Client.t) (grant : option AuthorizationGrant.t)
    (browser_session : BrowserSession.t) (access_token : option AccessToken.t)
    (last_authentication : option Authentication.t) :
    M (World R) IdTokenSignatureError string :=
  do now_ <- now;
  let claims : gmap string ClaimValue :=
    <["exp" := ClaimTime (now_ + 3600 * 1000000)%Z]>
    (<["iat" := ClaimTime now_]>
    (<["aud" := ClaimText (Client.client_id client)]>
    (<["sub" := ClaimText (User.sub (BrowserSession.user browser_session))]>
    (<["iss" := ClaimText oidc_issuer]> ∅)))) in
  let claims :=
    match grant ≫= AuthorizationGrant.nonce with
    | Some nonce => <["nonce" := ClaimText nonce]> claims
    | None => claims
    end in
  let claims :=
    match last_authentication with
    | Some a => <["auth_time" := ClaimTime (Authentication.created_at a)]> claims
    | None => claims
    end in
  let alg := default "RS256" (Client.id_token_signed_response_alg client) in
  do key <- lift (ok_or (signing_key_for_algorithm alg) InvalidSigningKey);
  do claims <- lift
    match access_token with
    | Some a =>
        try h <- ok_or (hash_token alg (AccessToken.access_token a)) TokenHash;
        Ok (<["at_hash" := ClaimText h]> claims)
    | None => Ok claims
    end;
  do claims <- lift
    match grant ≫= AuthorizationGrant.code with
    | Some c =>
        try h <- ok_or (hash_token alg (AuthorizationCode.code c)) TokenHash;
        Ok (<["c_hash" := ClaimText h]> claims)
    | None => Ok claims
    end;
  do! lift (if signing_key_for_alg key alg then Ok tt else Err WrongAlgorithm);
  do kid <- lift (ok_or (key_kid key) InvalidSigningKey);
  do signed <- with_rng (sign_with_rng alg kid claims);
  lift (ok_or signed JwtSignature).

Definition generate_token_pair (session : Session.t) (ttl : Duration) :
    M (World R) DatabaseError (AccessToken.t * RefreshToken.t) :=
  do access_token_str <- with_rng (generate AccessTokenType);
  do refresh_token_str <- with_rng (generate RefreshTokenType);
  do access_token <- AccessTokenRepository.add session access_token_str (Some ttl);
  do refresh_token <- RefreshTokenRepository.add session access_token refresh_token_str;
  ret (access_token, refresh_token).

(** The loop over the scope that provisions the devices. *)
Fixpoint provision_devices (username device_name : string) (scope : list ScopeToken) :
    Handler unit :=
  match scope with
  | [] => ret tt
  | token :: scope =>
      match Device.from_scope_token token with
      | Some device =>
          do! upsert_device username (Device.id device) (Some device_name);
          provision_devices username device_name scope
      | None => provision_devices username device_name scope
      end
  end.

(** The device name in the language of the grant. *)
Definition device_name_for (locale : option string) (client : Client.t)
    (user_agent : option string) : Handler string :=
  let lang := default "en" locale in
  do! guard (parse_locale lang) (Internal I18n);
  require (render_device_name client user_agent lang) (Internal TemplateError).

(** ** Grants *)

(** [if let Some(user_agent) = user_agent { session = record_user_agent(..) }]. *)
Definition record_user_agent_opt (session : Session.t) (user_agent : option string) :
    Handler Session.t :=
  match user_agent with
  | Some ua => repo (SessionRepository.record_user_agent session ua)
  | None => ret session
  end.

(** The browser session of an exchangeable grant.  A code exchanged more
    than 20 seconds ago ends the session it was exchanged for. *)
Definition check_stage (grant : AuthorizationGrant.t) (now_ : DateTime) : Handler Ulid :=
  match AuthorizationGrant.stage grant with
  | AuthorizationGrantStage.Cancelled _ => fail (InvalidGrant (AuthorizationGrant.id grant))
  | AuthorizationGrantStage.Exchanged session_id _ exchanged_at =>
      do! (if (20 * 1000 * 1000 <? now_ - exchanged_at)%Z
           then
             do session <- repo (SessionRepository.lookup session_id);
             do session <- require session (NoSuchOAuthSession session_id);
             do! repo (SessionRepository.finish session);
             repo save
           else ret tt);
      fail (InvalidGrant (AuthorizationGrant.id grant))
  | AuthorizationGrantStage.Pending => fail (InvalidGrant (AuthorizationGrant.id grant))
  | AuthorizationGrantStage.Fulfilled browser_session_id fulfilled_at =>
      if (10 * 60 * 1000 * 1000 <? now_ - fulfilled_at)%Z
      then fail (InvalidGrant (AuthorizationGrant.id grant))
      else ret browser_session_id
  end.

(** PKCE is required. *)
Definition check_pkce (code : AuthorizationCode.t) (code_verifier : option string) :
    Handler unit :=
  match AuthorizationCode.pkce code, code_verifier with
  | None, _ => fail BadRequest
  | Some _, None => fail BadRequest
  | Some pkce, Some verifier => lift (map_err PkceVerification (Pkce_verify pkce verifier))
  end.

Definition authorization_code_grant (ip : BoundActivityTracker)
    (grant : AuthorizationCodeGrant) (client : Client.t) (site_config : SiteConfig)
    (user_agent : option string) : Handler AccessTokenResponse :=
  do! guard (Client.has_grant_type client AuthorizationCode)
        (UnauthorizedClient (Client.id client));
  do authz_grant <- repo (AuthorizationGrantRepository.find_by_code (ac_code grant));
  do authz_grant <- require authz_grant GrantNotFound;
  do now_ <- now;
  do browser_session_id <- check_stage authz_grant now_;
  do! guard (bool_decide (Client.id client = AuthorizationGrant.client_id authz_grant))
        (UnexptectedClient (Client.id client) (AuthorizationGrant.client_id authz_grant));
  do code <- require (AuthorizationGrant.code authz_grant)
               (InvalidGrant (AuthorizationGrant.id authz_grant));
  do! check_pkce code (ac_code_verifier grant);
  do browser_session <- repo (BrowserSessionRepository.lookup browser_session_id);
  do browser_session <- require browser_session (NoSuchBrowserSession browser_session_id);
  do! guard (BrowserSession.active browser_session)
        (InvalidGrant (AuthorizationGrant.id authz_grant));
  do device_name <- device_name_for (AuthorizationGrant.locale authz_grant) client user_agent;
  do session <- repo (SessionRepository.add_from_browser_session client browser_session
                        (AuthorizationGrant.scope authz_grant));
  do session <- record_user_agent_opt session user_agent;
  do last_authentication <-
    repo (BrowserSessionRepository.get_last_authentication browser_session);
  let ttl := access_token_ttl site_config in
  do (access_token, refresh_token) <- repo (generate_token_pair session ttl);
  do id_token <-
    (if Scope_contains (Session.scope session) OPENID
     then do t <- mmap_err (λ e, Internal (IdTokenError e))
                    (generate_id_token client (Some authz_grant) browser_session
                       (Some access_token) last_authentication);
          ret (Some t)
     else ret None);
  let params :=
    with_scope (Session.scope session)
      (with_refresh_token (RefreshToken.refresh_token refresh_token)
        (with_expires_in ttl (response_new (AccessToken.access_token access_token)))) in
  let params :=
    match id_token with Some t => with_id_token t params | None => params end in
  do! repo (UserRepository.acquire_lock_for_sync (BrowserSession.user browser_session));
  do! provision_devices (User.username (BrowserSession.user browser_session)) device_name
        (Session.scope session);
  do! repo (AuthorizationGrantRepository.exchange authz_grant session);
  do! record_oauth2_session ip session;
  ret params.

(** A refresh token that is no longer valid: accepted when the tokens it was
    exchanged for were never used; those are revoked. *)
Definition check_double_refresh (refresh_token : RefreshToken.t) : Handler unit :=
  do next_refresh_token_id <- require (RefreshToken.next_refresh_token_id refresh_token)
    (RefreshTokenInvalid (RefreshToken.id refresh_token));
  do next_refresh_token <- repo (RefreshTokenRepository.lookup next_refresh_token_id);
  do next_refresh_token <- require next_refresh_token
    (NoSuchNextRefreshToken next_refresh_token_id (RefreshToken.id refresh_token));
  do! guard (RefreshToken.is_valid next_refresh_token)
        (RefreshTokenInvalid (RefreshToken.id next_refresh_token));
  do! match RefreshToken.access_token_id next_refresh_token with
      | Some access_token_id =>
          do next_access_token <- repo (AccessTokenRepository.lookup access_token_id);
          do next_access_token <- require next_access_token
            (NoSuchNextAccessToken access_token_id next_refresh_token_id);
          do! guard (negb (AccessToken.is_used next_access_token))
                (RefreshTokenInvalid (RefreshToken.id next_refresh_token));
          do! repo (AccessTokenRepository.revoke next_access_token);
          ret tt
      | None => ret tt
      end;
  do! repo (RefreshTokenRepository.revoke next_refresh_token);
  ret tt.

(** The access token the consumed refresh token was issued with. *)
Definition revoke_previous_access_token (refresh_token : RefreshToken.t) : Handler unit :=
  match RefreshToken.access_token_id refresh_token with
  | Some access_token_id =>
      do access_token <- repo (AccessTokenRepository.lookup access_token_id);
      match access_token with
      | Some access_token =>
          if negb (AccessTokenState.is_revoked (AccessToken.state access_token))
          then do! repo (AccessTokenRepository.revoke access_token); ret tt
          else ret tt
      | None => ret tt
      end
  | None => ret tt
  end.

(** The refresh token presented and its session, which is valid and the
    client's. *)
Definition refreshed_session (client : Client.t) (token : string)
    (user_agent : option string) : Handler (RefreshToken.t * Session.t) :=
  do refresh_token <- repo (RefreshTokenRepository.find_by_token token);
  do refresh_token <- require refresh_token RefreshTokenNotFound;
  do session <- repo (SessionRepository.lookup (RefreshToken.session_id refresh_token));
  do session <- require session (NoSuchOAuthSession (RefreshToken.session_id refresh_token));
  do session <- record_user_agent_opt session user_agent;
  do! guard (Session.is_valid session) (SessionInvalid (Session.id session));
  do! guard (bool_decide (Client.id client = Session.client_id session))
        (ClientIDMismatch (Session.client_id session) (Client.id client));
  ret (refresh_token, session).

Definition refresh_token_grant (ip : BoundActivityTracker) (grant : RefreshTokenGrant)
    (client : Client.t) (site_config : SiteConfig) (user_agent : option string) :
    Handler AccessTokenResponse :=
  do! guard (Client.has_grant_type client RefreshTokenGrantType)
        (UnauthorizedClient (Client.id client));
  do (refresh_token, session) <-
    refreshed_session client (rt_refresh_token grant) user_agent;
  do! (if negb (RefreshToken.is_valid refresh_token)
       then check_double_refresh refresh_token else ret tt);
  do! record_oauth2_session ip session;
  let ttl := access_token_ttl site_config in
  do (new_access_token, new_refresh_token) <- repo (generate_token_pair session ttl);
  do refresh_token <- repo (RefreshTokenRepository.consume refresh_token new_refresh_token);
  do! revoke_previous_access_token refresh_token;
  ret (with_scope (Session.scope session)
         (with_refresh_token (RefreshToken.refresh_token new_refresh_token)
           (with_expires_in ttl (response_new (AccessToken.access_token new_access_token))))).

(** [if !session.scope.is_empty() { params = params.with_scope(..) }]. *)
Definition with_scope_if_any (s : Scope) (params : AccessTokenResponse) :
    AccessTokenResponse :=
  if negb (Scope_is_empty s) then with_scope s params else params.

Definition client_credentials_grant (ip : BoundActivityTracker)
    (grant : ClientCredentialsGrant) (client : Client.t) (site_config : SiteConfig)
    (user_agent : option string) : Handler AccessTokenResponse :=
  do! guard (Client.has_grant_type client ClientCredentials)
        (UnauthorizedClient (Client.id client));
  let scope := default (Scope_from_iter []) (cc_scope grant) in
  do res <- require
    (evaluate_authorization_grant None client None scope ClientCredentials ip user_agent)
    (Internal EvaluationError);
  do! guard (match res with [] => true | _ => false end) (DeniedByPolicy res);
  do session <- repo (SessionRepository.add_from_client_credentials client scope);
  do session <- record_user_agent_opt session user_agent;
  let ttl := access_token_ttl site_config in
  do access_token_str <- with_rng (generate AccessTokenType);
  do access_token <- repo (AccessTokenRepository.add session access_token_str (Some ttl));
  let params := with_expires_in ttl (response_new (AccessToken.access_token access_token)) in
  do! record_oauth2_session ip session;
  ret (with_scope_if_any (Session.scope session) params).

(** The grant of a device code, fulfilled and not expired, and the browser
    session that fulfilled it. *)
Definition fulfilled_device_grant (client : Client.t) (device_code : string) :
    Handler (DeviceCodeGrant.t * BrowserSession.t) :=
  do grant <- repo (DeviceCodeGrantRepository.find_by_device_code device_code);
  do grant <- require grant GrantNotFound;
  do! guard (bool_decide (Client.id client = DeviceCodeGrant.client_id grant))
        (ClientIDMismatch (DeviceCodeGrant.client_id grant) (Client.id client));
  do now_ <- now;
  do! guard (negb (DeviceCodeGrant.expires_at grant <? now_)%Z) DeviceCodeExpired;
  do browser_session_id <-
    match DeviceCodeGrant.state grant with
    | DeviceCodeGrantState.Pending => fail DeviceCodePending
    | DeviceCodeGrantState.Rejected _ _ => fail DeviceCodeRejected
    | DeviceCodeGrantState.Exchanged _ _ _ _ => fail DeviceCodeExchanged
    | DeviceCodeGrantState.Fulfilled browser_session_id _ => ret browser_session_id
    end;
  do browser_session <- repo (BrowserSessionRepository.lookup browser_session_id);
  do browser_session <- require browser_session (NoSuchBrowserSession browser_session_id);
  ret (grant, browser_session).

Definition device_code_grant (ip : BoundActivityTracker) (grant : DeviceCodeGrantRequest)
    (client : Client.t) (site_config : SiteConfig) (user_agent : option string) :
    Handler AccessTokenResponse :=
  do! guard (device_code_grant_enabled site_config) UnsupportedGrantType;
  do! guard (Client.has_grant_type client DeviceCode) (UnauthorizedClient (Client.id client));
  do (grant, browser_session) <- fulfilled_device_grant client (dc_device_code grant);
  do device_name <- device_name_for (DeviceCodeGrant.locale grant) client user_agent;
  do session <- repo (SessionRepository.add_from_browser_session client browser_session
                        (DeviceCodeGrant.scope grant));
  do! repo (DeviceCodeGrantRepository.exchange grant session);
  do session <- record_user_agent_opt session user_agent;
  let ttl := access_token_ttl site_config in
  do access_token_str <- with_rng (generate AccessTokenType);
  do access_token <- repo (AccessTokenRepository.add session access_token_str (Some ttl));
  let params := with_expires_in ttl (response_new (AccessToken.access_token access_token)) in
  do params <-
    (if Client.has_grant_type client RefreshTokenGrantType
     then do refresh_token_str <- with_rng (generate RefreshTokenType);
          do refresh_token <- repo (RefreshTokenRepository.add session access_token
                                      refresh_token_str);
          ret (with_refresh_token (RefreshToken.refresh_token refresh_token) params)
     else ret params);
  do params <-
    (if Scope_contains (Session.scope session) OPENID
     then do t <- mmap_err (λ e, Internal (IdTokenError e))
                    (generate_id_token client None browser_session (Some access_token) None);
          ret (with_id_token t params)
     else ret params);
  do! repo (UserRepository.acquire_lock_for_sync (BrowserSession.user browser_session));
  do! provision_devices (User.username (BrowserSession.user browser_session)) device_name
        (Session.scope session);
  do! record_oauth2_session ip session;
  ret (with_scope_if_any (Session.scope session) params).

(** ** The endpoint *)

(** The client of a request, authenticated. *)
Definition authenticate (c : Credentials) : Handler Client.t :=
  do client <- repo (fetch c);
  do client <- require client ClientNotFound;
  do method <- require (Client.token_endpoint_auth_method client)
                 (ClientNotAllowed (Client.id client));
  do! lift (map_err (λ err,
        if is_internal err then ClientCredentialsVerification (Client.id client) err
        else InvalidClientCredentials (Client.id client) err)
      (verify c method client));
  ret client.

Definition post (ip : BoundActivityTracker) (site_config : SiteConfig)
    (user_agent : option string)
    (client_authorization : ClientAuthorization AccessTokenRequest) :
    Handler AccessTokenResponse :=
  do client <- authenticate (credentials client_authorization);
  do form <- require (form client_authorization) BadRequest;
  do reply <-
    match form with
    | AuthorizationCodeRequest grant =>
        authorization_code_grant ip grant client site_config user_agent
    | RefreshTokenRequest grant =>
        refresh_token_grant ip grant client site_config user_agent
    | ClientCredentialsRequest grant =>
        client_credentials_grant ip grant client site_config user_agent
    | DeviceCodeRequest grant =>
        device_code_grant ip grant client site_config user_agent
    | UnsupportedRequest => fail UnsupportedGrantType
    end;
  do! repo save;
  ret reply.

(** A request: the transaction is opened before the handler runs, and rolled
    back if the handler returns without saving it. *)
Definition token_request (ip : BoundActivityTracker) (site_config : SiteConfig)
    (user_agent : option string)
    (client_authorization : ClientAuthorization AccessTokenRequest) :
    Handler AccessTokenResponse :=
  do! repo from_pool;
  post ip site_config user_agent client_authorization.
End Handlers.
