(* ===== verification/Revocation.v ===== *)
(** * The revocation endpoint

    crates/handlers/src/oauth2/revoke.rs. *)

From stdpp Require Import base tactics list strings gmap.
From Stdlib Require Import ZArith Lia Ascii.
From S2P Require Import Prelude Text Scope Formats Externals TokenFormat DataModel Storage TokenRepo GrantRepo QueueRepo UserRepo ClientAuth TokenEndpoint.

Module Revoke.

(** [RevocationRequest]. *)
Record RevocationRequest := mkRevocationRequest {
  token : string;
  token_type_hint : option OAuthTokenTypeHint;
}.

Inductive RouteError : Type :=
| Internal (e : DatabaseError)
| BadRequest
| ClientNotFound
| ClientNotAllowed
| InvalidClientCredentials (client_id : Ulid) (source : CredentialsVerificationError)
| ClientCredentialsVerification (client_id : Ulid) (source : CredentialsVerificationError)
| UnauthorizedClient
| UnsupportedTokenType
| UnknownToken.

(** [IntoResponse for RouteError]: an unknown token is a success. *)
Definition into_response (e : RouteError) : Z * option ClientError :=
  match e with
  | Internal _ | ClientCredentialsVerification _ _ =>
      (500%Z, Some (client_error ClientErrorCode.ServerError))
  | BadRequest => (400%Z, Some (client_error ClientErrorCode.InvalidRequest))
  | ClientNotFound | InvalidClientCredentials _ _ =>
      (401%Z, Some (client_error ClientErrorCode.InvalidClient))
  | ClientNotAllowed | UnauthorizedClient =>
      (401%Z, Some (client_error ClientErrorCode.UnauthorizedClient))
  | UnsupportedTokenType => (400%Z, Some (client_error ClientErrorCode.UnsupportedTokenType))
  | UnknownToken => (200%Z, None)
  end.

Section Handlers.
Context {R : Type} `{!RngCore R, !Crc, !Base64, !UlidText, !UrlLib, !JwksJson,
  !ClientCrypto}.

Abbreviation Handler := (M (World R) RouteError) (only parsing).

Definition repo {A} (m : M (World R) DatabaseError A) : Handler A := mmap_err Internal m.
Definition require {A} (o : option A) (e : RouteError) : Handler A := lift (ok_or o e).
Definition guard (c : bool) (e : RouteError) : Handler unit :=
  if c then ret tt else fail e.

Definition authenticate (c : Credentials) : Handler Client.t :=
  do client <- repo (fetch c);
  do client <- require client ClientNotFound;
  do method <- require (Client.token_endpoint_auth_method client) ClientNotAllowed;
  do! lift (map_err (λ err,
        if is_internal err then ClientCredentialsVerification (Client.id client) err
        else InvalidClientCredentials (Client.id client) err)
      (verify c method client));
  ret client.

(** The session of the token, when the token is one the endpoint ends. *)
Definition session_of_token (form : RevocationRequest) (token_type : TokenType) :
    Handler Ulid :=
  match token_type_hint form, token_type with
  | (Some HintAccessToken | None), AccessTokenType =>
      do access_token <- repo (AccessTokenRepository.find_by_token (token form));
      do access_token <- require access_token UnknownToken;
      do now_ <- now;
      do! guard (AccessToken.is_valid access_token now_) UnknownToken;
      ret (AccessToken.session_id access_token)
  | (Some HintRefreshToken | None), RefreshTokenType =>
      do refresh_token <- repo (RefreshTokenRepository.find_by_token (token form));
      do refresh_token <- require refresh_token UnknownToken;
      do! guard (RefreshToken.is_valid refresh_token) UnknownToken;
      ret (RefreshToken.session_id refresh_token)
  | (Some (HintAccessToken | HintRefreshToken) | None), _ => fail UnknownToken
  | Some _, _ => fail UnsupportedTokenType
  end.

(** A session with the scope [urn:pg:mas-logout] takes its browser session,
    and the other sessions of that browser session, with it. *)
Definition finish_browser_session (has_mas_logout_scope : bool)
    (user_session_id : option Ulid) : Handler unit :=
  match has_mas_logout_scope, user_session_id with
  | true, Some user_session_id =>
      do browser_session <- repo (BrowserSessionRepository.lookup user_session_id);
      match browser_session with
      | Some browser_session =>
          match BrowserSession.finished_at browser_session with
          | None =>
              do! repo (SessionRepository.finish_bulk
                (OAuth2SessionFilter.active_only
                  (OAuth2SessionFilter.for_browser_session browser_session
                     OAuth2SessionFilter.new)));
              do! repo (BrowserSessionRepository.finish browser_session);
              ret tt
          | Some _ => ret tt
          end
      | None => ret tt
      end
  | _, _ => ret tt
  end.

Definition post (ip : option IpAddr)
    (client_authorization : ClientAuthorization RevocationRequest) : Handler unit :=
  do client <- authenticate (credentials client_authorization);
  do form <- require (form client_authorization) BadRequest;
  do token_type <- lift (map_err (λ _, UnknownToken) (check (token form)));
  do session_id <- session_of_token form token_type;
  do session <- repo (SessionRepository.lookup session_id);
  do session <- require session UnknownToken;
  do! guard (Session.is_valid session) UnknownToken;
  do! guard (bool_decide (Client.id client = Session.client_id session)) UnauthorizedClient;
  do! record_oauth2_session ip session;
  do! match Session.user_id session with
      | Some user_id =>
          do user <- repo (UserRepository.lookup user_id);
          do user <- require user UnknownToken;
          repo (QueueJobRepository.schedule_sync_devices user)
      | None => ret tt
      end;
  let user_session_id := Session.user_session_id session in
  let has_mas_logout_scope := Scope_contains (Session.scope session) PG_MAS_LOGOUT in
  do! repo (SessionRepository.finish session);
  do! finish_browser_session has_mas_logout_scope user_session_id;
  repo save.

Definition revoke_request (ip : option IpAddr)
    (client_authorization : ClientAuthorization RevocationRequest) : Handler unit :=
  do! repo from_pool;
  post ip client_authorization.
End Handlers.
End Revoke.
