(* ===== verification/DeviceAuthorize.v ===== *)
(** * The device authorization endpoint

    crates/handlers/src/oauth2/device/authorize.rs, and the links of
    crates/router it answers with. *)

From stdpp Require Import base tactics list strings gmap.
From Stdlib Require Import ZArith Lia Ascii.
From S2P Require Import Prelude Text Scope Formats Externals TokenFormat DataModel Storage TokenRepo GrantRepo QueueRepo UserRepo ClientAuth TokenEndpoint.

(** [str::to_uppercase], on ASCII text. *)
Definition ascii_upper (c : ascii) : ascii :=
  let n := N_of_ascii c in
  if ((97 <=? n) && (n <=? 122))%N then ascii_of_N (n - 32) else c.
Fixpoint to_uppercase (s : string) : string :=
  match s with EmptyString => "" | String c s => String (ascii_upper c) (to_uppercase s) end.

(** [s.trim_start_matches(c)]. *)
Fixpoint trim_start_matches (c : ascii) (s : string) : string :=
  match s with
  | EmptyString => ""
  | String d s' => if decide (d = c) then trim_start_matches c s' else s
  end.

Module DeviceAuthorize.

(** ** Links *)

(** [UrlBuilder] keeps the base URL; [serde_urlencoded::to_string] prints the
    query of a link and [Url::join] resolves a relative path. *)
Class UrlBuilder := {
  http_base : Url;
  urlencoded_code : option string → string;
  url_join : Url → string → Url;
}.

Section Links.
Context `{!UrlBuilder}.

(** [Route::path_and_query] of [DeviceCodeLink]. *)
Definition link_path_and_query (code : option string) : string :=
  let path := "/link" in
  let query := urlencoded_code code in
  if decide (query = "") then path else path +:+ "?" +:+ query.

(** [Route::absolute_url] of [DeviceCodeLink]. *)
Definition link_absolute_url (code : option string) : Url :=
  url_join http_base (trim_start_matches "/" (link_path_and_query code)).

Definition device_code_link : Url := link_absolute_url None.
Definition device_code_link_full (code : string) : Url := link_absolute_url (Some code).
End Links.

(** ** Requests, responses and errors *)

Record DeviceAuthorizationRequest := mkDeviceAuthorizationRequest { scope : option Scope }.

Record DeviceAuthorizationResponse := mkDeviceAuthorizationResponse {
  device_code : string;
  user_code : string;
  verification_uri : Url;
  verification_uri_complete : option Url;
  expires_in : Duration;
  interval : option Duration;
}.

Inductive RouteError : Type :=
| Internal (e : DatabaseError)
| ClientNotFound
| ClientNotAllowed (client_id : Ulid)
| DeviceCodeGrantDisabled
| InvalidClientCredentials (client_id : Ulid) (source : CredentialsVerificationError)
| ClientCredentialsVerification (client_id : Ulid) (source : CredentialsVerificationError).

Definition into_response (e : RouteError) : Z * ClientError :=
  match e with
  | Internal _ | ClientCredentialsVerification _ _ =>
      (500%Z, client_error ClientErrorCode.ServerError)
  | ClientNotFound | InvalidClientCredentials _ _ =>
      (401%Z, client_error ClientErrorCode.InvalidClient)
  | ClientNotAllowed _ => (401%Z, client_error ClientErrorCode.UnauthorizedClient)
  | DeviceCodeGrantDisabled =>
      (400%Z, with_description "The Device Authorization Grant is disabled on this server"
                (client_error ClientErrorCode.InvalidRequest))
  end.

(** ** The handler *)

Section Handlers.
Context {R : Type} `{!RngCore R, !UlidText, !UrlLib, !JwksJson, !ClientCrypto, !UrlBuilder}.

Abbreviation Handler := (M (World R) RouteError) (only parsing).

Definition repo {A} (m : M (World R) DatabaseError A) : Handler A := mmap_err Internal m.
Definition require {A} (o : option A) (e : RouteError) : Handler A := lift (ok_or o e).
Definition guard (c : bool) (e : RouteError) : Handler unit :=
  if c then ret tt else fail e.

Definition authenticate (c : Credentials) : Handler Client.t :=
  do client <- repo (fetch c);
  do client <- require client ClientNotFound;
  do method <- require (Client.token_endpoint_auth_method client)
                 (ClientNotAllowed (Client.id client));
  do! lift (map_err (λ err,
        if is_internal err then ClientCredentialsVerification (Client.id client) err
        else InvalidClientCredentials (Client.id client) err)
      (verify c method client));
  ret client.

(** The codes live for twenty minutes; the device polls every five seconds. *)
Definition EXPIRES_IN : Duration := (20 * 60 * 1000 * 1000)%Z.
Definition INTERVAL : Duration := (5 * 1000 * 1000)%Z.

Definition post (ip : BoundActivityTracker) (site_config : SiteConfig)
    (user_agent : option string)
    (client_authorization : ClientAuthorization DeviceAuthorizationRequest) :
    Handler DeviceAuthorizationResponse :=
  do! guard (device_code_grant_enabled site_config) DeviceCodeGrantDisabled;
  do client <- authenticate (credentials client_authorization);
  do! guard (Client.has_grant_type client DeviceCode) (ClientNotAllowed (Client.id client));
  let scope := default (Scope_from_iter []) (form client_authorization ≫= scope) in
  do device_code' <- with_rng (sample_alphanumeric 32);
  do user_code' <- with_rng (sample_alphanumeric 6);
  let user_code' := to_uppercase user_code' in
  do grant <- repo (DeviceCodeGrantRepository.add
    (DeviceCodeGrantRepository.mkParams client scope device_code' user_code' EXPIRES_IN ip
       user_agent));
  do! repo save;
  let verification_uri_complete :=
    if device_code_user_code_auto_fill_enabled site_config
    then Some (device_code_link_full (DeviceCodeGrant.user_code grant)) else None in
  ret (mkDeviceAuthorizationResponse (DeviceCodeGrant.device_code grant)
         (DeviceCodeGrant.user_code grant) device_code_link verification_uri_complete
         EXPIRES_IN (Some INTERVAL)).

(** A request: the transaction is opened before the handler runs. *)
Definition device_authorization_request (ip : BoundActivityTracker)
    (site_config : SiteConfig) (user_agent : option string)
    (client_authorization : ClientAuthorization DeviceAuthorizationRequest) :
    Handler DeviceAuthorizationResponse :=
  do! repo from_pool;
  post ip site_config user_agent client_authorization.
End Handlers.
End DeviceAuthorize.
