(* ===== verification/GraphqlSession.v ===== *)
(** * OAuth 2.0 sessions in the GraphQL API

    Node identifiers (crates/handlers/src/graphql/model/node.rs), the
    authentication of the requester and its rights
    (crates/handlers/src/graphql/mod.rs, crates/axum-utils/src/session.rs) and
    the mutations on sessions
    (crates/handlers/src/graphql/mutations/oauth2_session.rs). *)

From stdpp Require Import base tactics list strings gmap.
From Stdlib Require Import ZArith Lia Ascii.
From S2P Require Import Prelude Text Scope Externals Formats TokenFormat DataModel Storage TokenRepo GrantRepo QueueRepo UserRepo ClientAuth TokenEndpoint.

Module Graphql.

(** ** Node identifiers *)

Inductive NodeType : Type :=
| AuthenticationNode
| BrowserSessionNode
| CompatSessionNode
| CompatSsoLoginNode
| OAuth2ClientNode
| OAuth2SessionNode
| UpstreamOAuth2ProviderNode
| UpstreamOAuth2LinkNode
| UserNode
| UserEmailNode
| UserEmailAuthenticationNode
| UserRecoveryTicketNode.

#[export] Instance NodeType_eq_dec : EqDecision NodeType.
Proof. solve_decision. Defined.

Inductive InvalidID : Type :=
| InvalidFormat
| InvalidUlid
| UnknownPrefix
| TypeMismatch (got expected : NodeType).

Definition to_prefix (t : NodeType) : string :=
  match t with
  | AuthenticationNode => "authentication"
  | BrowserSessionNode => "browser_session"
  | CompatSessionNode => "compat_session"
  | CompatSsoLoginNode => "compat_sso_login"
  | OAuth2ClientNode => "oauth2_client"
  | OAuth2SessionNode => "oauth2_session"
  | UpstreamOAuth2ProviderNode => "upstream_oauth2_provider"
  | UpstreamOAuth2LinkNode => "upstream_oauth2_link"
  | UserNode => "user"
  | UserEmailNode => "user_email"
  | UserEmailAuthenticationNode => "user_email_authentication"
  | UserRecoveryTicketNode => "user_recovery_ticket"
  end.

Definition from_prefix (prefix : string) : option NodeType :=
  if String.eqb prefix "authentication" then Some AuthenticationNode
  else if String.eqb prefix "browser_session" then Some BrowserSessionNode
  else if String.eqb prefix "compat_session" then Some CompatSessionNode
  else if String.eqb prefix "compat_sso_login" then Some CompatSsoLoginNode
  else if String.eqb prefix "oauth2_client" then Some OAuth2ClientNode
  else if String.eqb prefix "oauth2_session" then Some OAuth2SessionNode
  else if String.eqb prefix "upstream_oauth2_provider" then Some UpstreamOAuth2ProviderNode
  else if String.eqb prefix "upstream_oauth2_link" then Some UpstreamOAuth2LinkNode
  else if String.eqb prefix "user" then Some UserNode
  else if String.eqb prefix "user_email" then Some UserEmailNode
  else if String.eqb prefix "user_email_authentication" then Some UserEmailAuthenticationNode
  else if String.eqb prefix "user_recovery_ticket" then Some UserRecoveryTicketNode
  else None.

Section NodeIds.
Context {ulid_text : UlidText}.

Definition serialize (t : NodeType) (id : Ulid) : string :=
  to_prefix t +:+ ":" +:+ ulid_to_string id.

Definition deserialize (serialized : string) : result InvalidID (NodeType * Ulid) :=
  try (prefix, id) <- ok_or (split_once ":" serialized) InvalidFormat;
  try prefix <- ok_or (from_prefix prefix) UnknownPrefix;
  try id <- ok_or (ulid_from_string id) InvalidUlid;
  Ok (prefix, id).

Definition extract_ulid (self : NodeType) (id : string) : result InvalidID Ulid :=
  try (node_type, ulid) <- deserialize id;
  if decide (node_type = self) then Ok ulid else Err (TypeMismatch node_type self).
End NodeIds.

(** ** The requester *)

(** [SessionInfo], the content of the session cookie. *)
Record SessionInfo := mkSessionInfo {
  current : option Ulid;
  logged_out_at : option DateTime;
}.

Definition from_session (session : BrowserSession.t) : SessionInfo :=
  mkSessionInfo (Some (BrowserSession.id session)) None.

Definition mark_session_ended (i : SessionInfo) (now : DateTime) : SessionInfo :=
  mkSessionInfo None (Some now).

Inductive RequestingEntity : Type :=
| Anonymous
| BrowserSessionEntity (session : BrowserSession.t)
| OAuth2SessionEntity (session : Session.t) (user : option User.t).

(** [Requester]; the policy reads the address and the user agent. *)
Record Requester := mkRequester {
  entity : RequestingEntity;
  ip_address : option IpAddr;
  user_agent : option string;
}.

Definition entity_user (e : RequestingEntity) : option User.t :=
  match e with
  | BrowserSessionEntity session => Some (BrowserSession.user session)
  | OAuth2SessionEntity _ user => user
  | Anonymous => None
  end.

Definition entity_oauth2_session (e : RequestingEntity) : option Session.t :=
  match e with
  | OAuth2SessionEntity session _ => Some session
  | BrowserSessionEntity _ | Anonymous => None
  end.

Definition is_admin (e : RequestingEntity) : bool :=
  match e with
  | OAuth2SessionEntity session _ => Scope_contains (Session.scope session) "urn:mas:admin"
  | BrowserSessionEntity _ | Anonymous => false
  end.

(** [OwnerId]: the user a resource belongs to. *)
Class OwnerId (T : Type) := owner_id : T → option Ulid.
#[export] Instance User_owner : OwnerId User.t := λ u, Some (User.id u).
#[export] Instance BrowserSession_owner : OwnerId BrowserSession.t :=
  λ b, Some (User.id (BrowserSession.user b)).
#[export] Instance Session_owner : OwnerId Session.t := Session.user_id.

Definition is_owner_or_admin {T} `{!OwnerId T} (e : RequestingEntity) (resource : T) : bool :=
  if is_admin e then true
  else match owner_id resource with
       | None => false
       | Some owner =>
           match entity_user e with
           | None => false
           | Some user => bool_decide (User.id user = owner)
           end
       end.

(** [RouteError]; [get_requester] gives the first four. *)
Inductive RouteError : Type :=
| Internal (e : DatabaseError)
| LoadFailed
| InvalidToken
| MissingScope
| OperationNotAllowed
| ParseDocument (message : string)
| ParseRequest
| Csrf.

Section Requesters.
Context {R : Type} `{!RngCore R, !UlidText}.
Abbreviation Handler := (M (World R) RouteError) (only parsing).

Definition repo {A} (m : M (World R) DatabaseError A) : Handler A := mmap_err Internal m.
Definition require {A} (o : option A) (e : RouteError) : Handler A := lift (ok_or o e).

(** [SessionInfo::load_active_session]. *)
Definition load_active_session (i : SessionInfo) :
    M (World R) DatabaseError (option BrowserSession.t) :=
  match current i with
  | None => ret None
  | Some session_id =>
      do maybe_session <- BrowserSessionRepository.lookup session_id;
      ret (maybe_session ≫= λ s, if BrowserSession.active s then Some s else None)
  end.

(** [ActivityTracker::record_browser_session]. *)
Definition record_browser_session {E} (ip : BoundActivityTracker) (s : BrowserSession.t) :
    M (World R) E unit :=
  do t <- now;
  modify (λ w, log_activity w (mkActivity BrowserKind (BrowserSession.id s) t ip)).

(** The entity behind a bearer token. *)
Definition token_entity (ip : BoundActivityTracker) (undocumented_oauth2_access : bool)
    (token : string) : Handler RequestingEntity :=
  do! (if undocumented_oauth2_access then ret tt else fail InvalidToken);
  do token <- repo (AccessTokenRepository.find_by_token token);
  do token <- require token InvalidToken;
  do session <- repo (SessionRepository.lookup (AccessToken.session_id token));
  do session <- require session LoadFailed;
  do! record_oauth2_session ip session;
  do user <-
    match Session.user_id session with
    | Some user_id =>
        do user <- repo (UserRepository.lookup user_id);
        do user <- require user LoadFailed;
        ret (Some user)
    | None => ret None
    end;
  let user_valid := match user with Some user => User.is_valid user | None => true end in
  do now_ <- now;
  do! (if negb (AccessToken.is_valid token now_) || negb (Session.is_valid session)
          || negb user_valid
       then fail InvalidToken else ret tt);
  do! (if negb (Scope_contains (Session.scope session) "urn:mas:graphql:*")
       then fail MissingScope else ret tt);
  ret (OAuth2SessionEntity session user).

(** The entity behind the session cookie. *)
Definition cookie_entity (ip : BoundActivityTracker) (session_info : SessionInfo) :
    Handler RequestingEntity :=
  do maybe_session <- repo (load_active_session session_info);
  match maybe_session with
  | Some session =>
      do! record_browser_session ip session;
      ret (BrowserSessionEntity session)
  | None => ret Anonymous
  end.

Definition get_requester (undocumented_oauth2_access : bool) (ip : BoundActivityTracker)
    (session_info : SessionInfo) (user_agent : option string) (token : option string) :
    Handler Requester :=
  do entity <-
    match token with
    | Some token => token_entity ip undocumented_oauth2_access token
    | None => cookie_entity ip session_info
    end;
  do! repo cancel;
  ret (mkRequester entity ip user_agent).
End Requesters.

(** ** Mutations *)

(** [async_graphql::Error], by what caused it. *)
Inductive GraphqlError : Type :=
| Message (message : string)
| InvalidNodeId (e : InvalidID)
| RepositoryFailed (e : DatabaseError).

Record CreateOAuth2SessionInput := mkCreateOAuth2SessionInput {
  scope : string;
  user_id : string;
  permanent : option bool;
}.

Record CreateOAuth2SessionPayload := mkCreateOAuth2SessionPayload {
  access_token : string;
  refresh_token : option string;
  session : Session.t;
}.

Inductive EndOAuth2SessionPayload : Type := EndNotFound | Ended (session : Session.t).
Inductive SetOAuth2SessionNamePayload : Type := NameNotFound | Updated (session : Session.t).

Section Mutations.
Context {R : Type} `{!RngCore R, !Crc, !UlidText, !UrlLib, !JwksJson}.
Abbreviation Mutation := (M (World R) GraphqlError) (only parsing).

Definition repository {A} (m : M (World R) DatabaseError A) : Mutation A :=
  mmap_err RepositoryFailed m.

(** [.context(message)?]. *)
Definition context {A} (o : option A) (message : string) : Mutation A :=
  lift (ok_or o (Message message)).

Definition node_ulid (t : NodeType) (id : string) : Mutation Ulid :=
  lift (map_err InvalidNodeId (extract_ulid t id)).

(** The loops over the devices of a scope. *)
Fixpoint for_devices (f : string → HomeserverCall) (scope : list ScopeToken) : Mutation unit :=
  match scope with
  | [] => ret tt
  | token :: scope =>
      match Device.from_scope_token token with
      | Some device =>
          do! mmap_err (λ _, Message "Failed to provision device")
                (homeserver_call (f (Device.id device)));
          for_devices f scope
      | None => for_devices f scope
      end
  end.

Definition create_oauth2_session (requester : RequestingEntity)
    (input : CreateOAuth2SessionInput) : Mutation CreateOAuth2SessionPayload :=
  do user_id <- node_ulid UserNode (user_id input);
  do scope <- lift (map_err (λ _, Message "Invalid scope") (Scope_from_str (scope input)));
  let permanent := default false (permanent input) in
  do! (if negb (is_admin requester) then fail (Message "Unauthorized") else ret tt);
  do session <- context (entity_oauth2_session requester)
                  "Requester should be a OAuth 2.0 client";
  do! repository from_pool;
  do client <- repository (ClientRepository.lookup (Session.client_id session));
  do client <- context client "Client not found";
  do user <- repository (UserRepository.lookup user_id);
  do user <- context user "User not found";
  do access_token_str <- with_rng (generate AccessTokenType);
  do session <- repository (SessionRepository.add client (Some user) None scope);
  do! repository (UserRepository.acquire_lock_for_sync user);
  do! for_devices (λ device, UpsertDevice (User.username user) device None)
        (Session.scope session);
  let ttl := if permanent then None else Some (5 * 60 * 1000 * 1000)%Z in
  do access_token <- repository (AccessTokenRepository.add session access_token_str ttl);
  do refresh_token <-
    (if permanent then ret None
     else do refresh_token_str <- with_rng (generate RefreshTokenType);
          do refresh_token <- repository (RefreshTokenRepository.add session access_token
                                            refresh_token_str);
          ret (Some refresh_token));
  do! repository save;
  ret (mkCreateOAuth2SessionPayload (AccessToken.access_token access_token)
         (RefreshToken.refresh_token <$> refresh_token) session).

Definition end_oauth2_session (requester : RequestingEntity) (oauth2_session_id : string) :
    Mutation EndOAuth2SessionPayload :=
  do oauth2_session_id <- node_ulid OAuth2SessionNode oauth2_session_id;
  do! repository from_pool;
  do session <- repository (SessionRepository.lookup oauth2_session_id);
  match session with
  | None => ret EndNotFound
  | Some session =>
      if negb (is_owner_or_admin requester session) then ret EndNotFound
      else
        do! match Session.user_id session with
            | Some user_id =>
                do user <- repository (UserRepository.lookup user_id);
                do user <- context user "Could not load user";
                repository (QueueJobRepository.schedule_sync_devices user)
            | None => ret tt
            end;
        do session <- repository (SessionRepository.finish session);
        do! repository save;
        ret (Ended session)
  end.

Definition set_oauth2_session_name (requester : RequestingEntity)
    (oauth2_session_id human_name : string) : Mutation SetOAuth2SessionNamePayload :=
  do oauth2_session_id <- node_ulid OAuth2SessionNode oauth2_session_id;
  do! repository from_pool;
  do session <- repository (SessionRepository.lookup oauth2_session_id);
  match session with
  | None => ret NameNotFound
  | Some session =>
      if negb (is_owner_or_admin requester session) then ret NameNotFound
      else
        do user_id <- context (Session.user_id session) "Session has no user";
        do user <- repository (UserRepository.lookup user_id);
        do user <- context user "User not found";
        do session <- repository (SessionRepository.set_human_name session (Some human_name));
        do! for_devices (λ device, UpdateDeviceDisplayName (User.username user) device human_name)
              (Session.scope session);
        do! repository save;
        ret (Updated session)
  end.
End Mutations.
End Graphql.
