(* ===== verification/WebSession.v ===== *)
(** * Sessions and forms of the browser

    The protection of forms (crates/axum-utils/src/csrf.rs) and the session
    behind the cookie of a page (crates/handlers/src/session.rs).  A cookie jar
    is what its encrypted cookies decode to; a page is the value its template
    is given. *)

From stdpp Require Import base tactics list strings gmap.
From Stdlib Require Import ZArith Lia.
From S2P Require Import Prelude Text Scope Externals Formats TokenFormat DataModel Storage TokenRepo QueueRepo UserRepo ClientAuth TokenEndpoint GraphqlSession.
#[local] Open Scope Z_scope.

(** ** Protection of forms (csrf.rs) *)

Inductive CsrfError : Type :=
| Mismatch
| Missing
| MissingToken
| DecodeCookie
| Expired
| Decode.

Definition HOUR : Duration := 3600 * 1000000.

Module CsrfToken.
Record t := mk { expiration : DateTime; token : string }.

Definition new (token : string) (now ttl : Z) : t := mk (now + ttl) token.
Definition generate {R} `{!RngBytes R} (now ttl : Z) (r : R) : t * R :=
  let '(token, r) := sample_bytes 32 r in (new token now ttl, r).
Definition refresh (c : t) (now ttl : Z) : t := new (token c) now ttl.
Definition form_value `{!Base64} (c : t) : string := base64url_encode (token c).

Definition verify_form_value `{!Base64} (c : t) (form_value : string) : result CsrfError unit :=
  try form_value <- ok_or (base64url_decode form_value) Decode;
  if decide (token c = form_value) then Ok tt else Err Mismatch.

Definition verify_expiration (c : t) (now : DateTime) : result CsrfError t :=
  if now <? expiration c then Ok c else Err Expired.
End CsrfToken.

(** The cookies of a request: that of the forms, which may not decode, and
    that of the session. *)
Record CookieJar := mkCookieJar {
  csrf_cookie : result unit (option CsrfToken.t);
  session_info : Graphql.SessionInfo;
}.

Section Web.
Context {R : Type} `{!RngBytes R, !Base64, !UlidText}.

(** The token for the forms of the page that is answered. *)
Definition csrf_token {E} (jar : CookieJar) : M (World R) E CsrfToken.t :=
  do now_ <- now;
  let maybe_token :=
    match csrf_cookie jar with
    | Ok (Some token) =>
        match CsrfToken.verify_expiration token now_ with Ok t => Some t | Err _ => None end
    | _ => None
    end in
  match maybe_token with
  | None => with_rng (CsrfToken.generate now_ HOUR)
  | Some token => ret (CsrfToken.refresh token now_ HOUR)
  end.

Definition verify_form (jar : CookieJar) (csrf : string) : M (World R) CsrfError unit :=
  do token <- lift (map_err (λ _, DecodeCookie) (csrf_cookie jar));
  do token <- lift (ok_or token Missing);
  do now_ <- now;
  do token <- lift (CsrfToken.verify_expiration token now_);
  lift (CsrfToken.verify_form_value token csrf).

(** ** The session behind the cookie (session.rs) *)

(** The page shown for an account that may not act. *)
Inductive AccountInactive : Type :=
| AccountDeactivated (user : User.t)
| AccountLocked (user : User.t)
| AccountLoggedOut (user : User.t).

Inductive SessionOrFallback : Type :=
| MaybeSession (maybe_session : option BrowserSession.t)
| Fallback (response : AccountInactive).

Definition render_account_inactive (jar : CookieJar) (user : User.t) :
    M (World R) DatabaseError AccountInactive :=
  do! csrf_token jar;
  ret (if bool_decide (is_Some (User.deactivated_at user)) then AccountDeactivated user
       else if bool_decide (is_Some (User.locked_at user)) then AccountLocked user
       else AccountLoggedOut user).

Definition load_session_or_fallback (jar : CookieJar) :
    M (World R) DatabaseError SessionOrFallback :=
  match Graphql.current (session_info jar) with
  | None => ret (MaybeSession None)
  | Some session_id =>
      do session <- BrowserSessionRepository.lookup session_id;
      match session with
      | None =>
          do! now;
          ret (MaybeSession None)
      | Some session =>
          let user := BrowserSession.user session in
          if bool_decide (is_Some (User.deactivated_at user))
             || bool_decide (is_Some (User.locked_at user))
             || bool_decide (is_Some (BrowserSession.finished_at session))
          then
            do response <- render_account_inactive jar user;
            ret (Fallback response)
          else ret (MaybeSession (Some session))
      end
  end.
End Web.
