(* ===== verification/Introspection.v ===== *)
(** * The introspection endpoint

    crates/handlers/src/oauth2/introspection.rs: whether a token of any of
    the five types is active, and what it gives access to. *)

From stdpp Require Import base tactics list strings gmap.
From Stdlib Require Import ZArith Lia.
From S2P Require Import Prelude Text Scope Formats Externals TokenFormat DataModel CompatModel Storage TokenRepo QueueRepo UserRepo ClientAuth TokenEndpoint CompatRepo PersonalRepo.

(** [HomeserverConnection] of crates/matrix, as crates/matrix-synapse
    implements it: the secret the homeserver presents. *)
Class Homeserver := homeserver_access_token : string.

Definition verify_token `{!Homeserver} (token : string) : bool :=
  bool_decide (homeserver_access_token = token).

Module Introspection.

(** [IntrospectionRequest] and [IntrospectionResponse]. *)
Record IntrospectionRequest := mkIntrospectionRequest {
  token : string;
  token_type_hint : option OAuthTokenTypeHint;
}.

Record IntrospectionResponse := mkIntrospectionResponse {
  active : bool;
  scope : option Scope;
  client_id : option string;
  username : option string;
  token_type : option OAuthTokenTypeHint;
  exp : option DateTime;
  expires_in : option Duration;
  iat : option DateTime;
  nbf : option DateTime;
  sub : option string;
  aud : option string;
  iss : option string;
  jti : option string;
  device_id : option string;
}.

Inductive RouteError : Type :=
| Internal (e : DatabaseError)
| ClientNotFound
| NotAllowed (client_id : Ulid)
| UnexpectedTokenType
| InvalidTokenFormat (e : TokenFormatError)
| UnknownToken (t : TokenType)
| InvalidToken (t : TokenType)
| InvalidOAuthSession (id : Ulid)
| CantLoadOAuthSession (id : Ulid)
| InvalidCompatSession (id : Ulid)
| CantLoadCompatSession (id : Ulid)
| InvalidPersonalSession (id : Ulid)
| CantLoadPersonalSession (id : Ulid)
| CantEncodeDeviceID (e : Device.ToScopeTokenError)
| InvalidUser (id : Ulid)
| CantLoadUser (id : Ulid)
| CantLoadOAuth2Client (id : Ulid)
| BadRequest
| FailedToVerifyToken
| ClientCredentialsVerification (e : CredentialsVerificationError)
| InvalidBearerToken
(** The [expect] of [normalize_scope]. *)
| Panicked.

Definition INACTIVE : IntrospectionResponse :=
  mkIntrospectionResponse false None None None None None None None None None None None None None.

(** [Display] of the errors whose text is sent; [text] is that of an error
    of the database. *)
Definition credentials_error_text (e : CredentialsVerificationError) : string :=
  match e with
  | DecryptionError => "failed to decrypt client credentials"
  | InvalidClientConfig => "invalid client configuration"
  | ClientSecretMismatch => "client secret did not match"
  | AuthenticationMethodMismatch => "authentication method mismatch"
  | InvalidAssertionSignature => "invalid assertion signature"
  | JwksFetchFailed => "failed to fetch jwks"
  end.

Definition to_string `{!UlidText} (text : DatabaseError → string) (e : RouteError) : string :=
  match e with
  | Internal e => text e
  | CantLoadOAuthSession id => "unknown oauth session " +:+ ulid_to_string id
  | CantLoadCompatSession id => "unknown compat session " +:+ ulid_to_string id
  | CantLoadPersonalSession id =>
      "unknown personal access token session " +:+ ulid_to_string id
  | CantLoadUser id => "unknown user " +:+ ulid_to_string id
  | CantLoadOAuth2Client id => "unknown OAuth2 client " +:+ ulid_to_string id
  | FailedToVerifyToken => "failed to verify token"
  | ClientCredentialsVerification e => credentials_error_text e
  | InvalidBearerToken => "bearer token presented is invalid"
  | _ => ""
  end.

(** [IntoResponse for RouteError]: an error, or the answer for a token that
    is not active.  A panic has no response of its own. *)
Definition into_response `{!UlidText} (text : DatabaseError → string) (e : RouteError) :
    (Z * ClientError) + IntrospectionResponse :=
  match e with
  | Internal _ | CantLoadCompatSession _ | CantLoadOAuthSession _ | CantLoadPersonalSession _
  | CantLoadUser _ | CantLoadOAuth2Client _ | FailedToVerifyToken | Panicked =>
      inl (500%Z, with_description (to_string text e) (client_error ClientErrorCode.ServerError))
  | ClientNotFound => inl (401%Z, client_error ClientErrorCode.InvalidClient)
  | ClientCredentialsVerification _ =>
      inl (401%Z, with_description (to_string text e) (client_error ClientErrorCode.InvalidClient))
  | InvalidBearerToken =>
      inl (401%Z, with_description (to_string text e) (client_error ClientErrorCode.AccessDenied))
  | UnknownToken _ | UnexpectedTokenType | InvalidToken _ | InvalidUser _
  | InvalidCompatSession _ | InvalidOAuthSession _ | InvalidPersonalSession _
  | InvalidTokenFormat _ | CantEncodeDeviceID _ => inr INACTIVE
  | NotAllowed _ => inl (401%Z, client_error ClientErrorCode.AccessDenied)
  | BadRequest => inl (400%Z, client_error ClientErrorCode.InvalidRequest)
  end.

Section Handlers.
Context {R : Type} `{!RngCore R, !Crc, !Base64, !Sha2, !UlidText, !UrlLib, !JwksJson,
  !ClientCrypto, !Homeserver}.

Abbreviation Handler := (M (World R) RouteError) (only parsing).

Definition repo {A} (m : M (World R) DatabaseError A) : Handler A := mmap_err Internal m.
Definition require {A} (o : option A) (e : RouteError) : Handler A := lift (ok_or o e).
Definition guard (c : bool) (e : RouteError) : Handler unit :=
  if c then ret tt else fail e.

(** [ActivityTracker::record_compat_session], [record_personal_session]. *)
Definition record_compat_session {E} (ip : option IpAddr) (s : CompatSession.t) :
    M (World R) E unit :=
  do t <- now;
  modify (λ w, log_activity w (mkActivity CompatKind (CompatSession.id s) t ip)).

Definition record_personal_session {E} (ip : option IpAddr) (s : PersonalSession.t) :
    M (World R) E unit :=
  do t <- now;
  modify (λ w, log_activity w (mkActivity PersonalKind (PersonalSession.id s) t ip)).

(** The caller: the homeserver, or a confidential client. *)
Definition authenticate (c : Credentials) : Handler unit :=
  match bearer_token c with
  | Some token => guard (verify_token token) InvalidBearerToken
  | None =>
      do client <- repo (fetch c);
      do client <- require client ClientNotFound;
      do method <-
        match Client.token_endpoint_auth_method client with
        | None | Some NoAuthentication => fail (NotAllowed (Client.id client))
        | Some c => ret c
        end;
      lift (map_err ClientCredentialsVerification (verify c method client))
  end.

(** A user that must exist and be valid. *)
Definition valid_user (user_id : Ulid) : Handler User.t :=
  do user <- repo (UserRepository.lookup user_id);
  do user <- require user (CantLoadUser user_id);
  do! guard (User.is_valid user) (InvalidUser (User.id user));
  ret user.

(** The subject of an OAuth 2.0 session, which may have no user. *)
Definition subject_of (session : Session.t) : Handler (option string * option string) :=
  match Session.user_id session with
  | Some user_id =>
      do user <- valid_user user_id;
      ret (Some (User.sub user), Some (User.username user))
  | None => ret (None, None)
  end.

(** [expires_at.map(|e| e.signed_duration_since(clock.now()))]. *)
Definition expires_in_of (expires_at : option DateTime) : Handler (option Duration) :=
  match expires_at with
  | Some e => do now_ <- now; ret (Some (e - now_)%Z)
  | None => ret None
  end.

Definition normalized (s : Scope) : Handler Scope := require (normalize_scope s) Panicked.

Definition introspect_access_token (token : string) : Handler IntrospectionResponse :=
  do access_token <- repo (AccessTokenRepository.find_by_token token);
  do access_token <- require access_token (UnknownToken AccessTokenType);
  do now_ <- now;
  do! guard (AccessToken.is_valid access_token now_) (InvalidToken AccessTokenType);
  let session_id := AccessToken.session_id access_token in
  do session <- repo (SessionRepository.lookup session_id);
  do session <- require session (CantLoadOAuthSession session_id);
  do! guard (Session.is_valid session) (InvalidOAuthSession (Session.id session));
  do access_token <-
    (if AccessToken.is_used access_token then ret access_token
     else repo (AccessTokenRepository.mark_used access_token));
  do (sub, username) <- subject_of session;
  do! record_oauth2_session None session;
  do scope <- normalized (Session.scope session);
  do expires_in <- expires_in_of (AccessToken.expires_at access_token);
  ret (mkIntrospectionResponse true (Some scope) (Some (ulid_to_string (Session.client_id session)))
         username (Some HintAccessToken) (AccessToken.expires_at access_token) expires_in
         (Some (AccessToken.created_at access_token)) (Some (AccessToken.created_at access_token))
         sub None None (Some (ulid_to_string (AccessToken.id access_token))) None).

Definition introspect_refresh_token (token : string) : Handler IntrospectionResponse :=
  do refresh_token <- repo (RefreshTokenRepository.find_by_token token);
  do refresh_token <- require refresh_token (UnknownToken RefreshTokenType);
  do! guard (RefreshToken.is_valid refresh_token) (InvalidToken RefreshTokenType);
  let session_id := RefreshToken.session_id refresh_token in
  do session <- repo (SessionRepository.lookup session_id);
  do session <- require session (CantLoadOAuthSession session_id);
  do! guard (Session.is_valid session) (InvalidOAuthSession (Session.id session));
  do (sub, username) <- subject_of session;
  do! record_oauth2_session None session;
  do scope <- normalized (Session.scope session);
  ret (mkIntrospectionResponse true (Some scope) (Some (ulid_to_string (Session.client_id session)))
         username (Some HintRefreshToken) None None
         (Some (RefreshToken.created_at refresh_token))
         (Some (RefreshToken.created_at refresh_token))
         sub None None (Some (ulid_to_string (RefreshToken.id refresh_token))) None).

(** The scope of a compatibility session: the whole API, the device unless
    the caller reads it from its own field, and the administration API. *)
Definition compat_scope (supports_explicit_device_id : bool) (session : CompatSession.t) :
    Handler Scope :=
  do device_scope <-
    match supports_explicit_device_id, CompatSession.device session with
    | true, _ | _, None => ret []
    | false, Some device =>
        do (stable, unstable) <- lift (map_err CantEncodeDeviceID (Device.to_scope_token device));
        ret [stable; unstable]
    end;
  ret (Scope_from_iter ([STABLE_API_SCOPE; UNSTABLE_API_SCOPE] ++ device_scope
         ++ (if CompatSession.is_synapse_admin session then [SYNAPSE_ADMIN_SCOPE] else []))).

Definition introspect_compat_access_token (supports_explicit_device_id : bool) (token : string) :
    Handler IntrospectionResponse :=
  do access_token <- repo (CompatAccessTokenRepository.find_by_token token);
  do access_token <- require access_token (UnknownToken CompatAccessTokenType);
  do now_ <- now;
  do! guard (CompatAccessToken.is_valid access_token now_) (InvalidToken CompatAccessTokenType);
  let session_id := CompatAccessToken.session_id access_token in
  do session <- repo (CompatSessionRepository.lookup session_id);
  do session <- require session (CantLoadCompatSession session_id);
  do! guard (CompatSession.is_valid session) (InvalidCompatSession (CompatSession.id session));
  do user <- valid_user (CompatSession.user_id session);
  do scope <- compat_scope supports_explicit_device_id session;
  do! record_compat_session None session;
  do expires_in <- expires_in_of (CompatAccessToken.expires_at access_token);
  ret (mkIntrospectionResponse true (Some scope) (Some "legacy") (Some (User.username user))
         (Some HintAccessToken) (CompatAccessToken.expires_at access_token) expires_in
         (Some (CompatAccessToken.created_at access_token))
         (Some (CompatAccessToken.created_at access_token))
         (Some (User.sub user)) None None None (Device.id <$> CompatSession.device session)).

Definition introspect_compat_refresh_token (supports_explicit_device_id : bool) (token : string) :
    Handler IntrospectionResponse :=
  do refresh_token <- repo (CompatRefreshTokenRepository.find_by_token token);
  do refresh_token <- require refresh_token (UnknownToken CompatRefreshTokenType);
  do! guard (CompatRefreshToken.is_valid refresh_token) (InvalidToken CompatRefreshTokenType);
  let session_id := CompatRefreshToken.session_id refresh_token in
  do session <- repo (CompatSessionRepository.lookup session_id);
  do session <- require session (CantLoadCompatSession session_id);
  do! guard (CompatSession.is_valid session) (InvalidCompatSession (CompatSession.id session));
  do user <- valid_user (CompatSession.user_id session);
  do scope <- compat_scope supports_explicit_device_id session;
  do! record_compat_session None session;
  ret (mkIntrospectionResponse true (Some scope) (Some "legacy") (Some (User.username user))
         (Some HintRefreshToken) None None
         (Some (CompatRefreshToken.created_at refresh_token))
         (Some (CompatRefreshToken.created_at refresh_token))
         (Some (User.sub user)) None None None (Device.id <$> CompatSession.device session)).

(** The owner of a personal session, who must still be valid. *)
Definition check_owner (owner : PersonalSessionOwner) : Handler (option string) :=
  match owner with
  | OwnerUser owner_user_id => do! valid_user owner_user_id; ret None
  | OwnerOAuth2Client owner_client_id =>
      do client <- repo (ClientRepository.lookup owner_client_id);
      do client <- require client (CantLoadOAuth2Client owner_client_id);
      ret (Some (Client.client_id client))
  end.

Definition introspect_personal_access_token (token : string) : Handler IntrospectionResponse :=
  do access_token <- repo (PersonalAccessTokenRepository.find_by_token token);
  do access_token <- require access_token (UnknownToken AccessTokenType);
  do now_ <- now;
  do! guard (PersonalAccessToken.is_valid access_token now_) (InvalidToken AccessTokenType);
  let session_id := PersonalAccessToken.session_id access_token in
  do session <- repo (PersonalSessionRepository.lookup session_id);
  do session <- require session (CantLoadPersonalSession session_id);
  do! guard (PersonalSession.is_valid session) (InvalidPersonalSession (PersonalSession.id session));
  do actor_user <- valid_user (PersonalSession.actor_user_id session);
  do client_id <- check_owner (PersonalSession.owner session);
  do! record_personal_session None session;
  do scope <- normalized (PersonalSession.scope session);
  do expires_in <- expires_in_of (PersonalAccessToken.expires_at access_token);
  ret (mkIntrospectionResponse true (Some scope) client_id (Some (User.username actor_user))
         (Some HintAccessToken) (PersonalAccessToken.expires_at access_token) expires_in
         (Some (PersonalAccessToken.created_at access_token))
         (Some (PersonalAccessToken.created_at access_token))
         (Some (User.sub actor_user)) None None None None).

(** [device_id_header]: the value of the header [X-MAS-Supports-Device-Id]. *)
Definition post (device_id_header : option string)
    (client_authorization : ClientAuthorization IntrospectionRequest) :
    Handler IntrospectionResponse :=
  do! authenticate (credentials client_authorization);
  do form <- require (form client_authorization) BadRequest;
  do token_type <- lift (map_err InvalidTokenFormat (check (token form)));
  do! guard (match token_type_hint form with
             | Some hint => matches_hint token_type hint
             | None => true
             end) UnexpectedTokenType;
  let supports_explicit_device_id := bool_decide (device_id_header = Some "1") in
  do reply <-
    match token_type with
    | AccessTokenType => introspect_access_token (token form)
    | RefreshTokenType => introspect_refresh_token (token form)
    | CompatAccessTokenType =>
        introspect_compat_access_token supports_explicit_device_id (token form)
    | CompatRefreshTokenType =>
        introspect_compat_refresh_token supports_explicit_device_id (token form)
    | PersonalAccessTokenType => introspect_personal_access_token (token form)
    end;
  do! repo save;
  ret reply.

Definition introspection_request (device_id_header : option string)
    (client_authorization : ClientAuthorization IntrospectionRequest) :
    Handler IntrospectionResponse :=
  do! repo from_pool;
  post device_id_header client_authorization.
End Handlers.
End Introspection.
