(* ===== verification/CompatEndpoints.v ===== *)
(** * The endpoints of the compatibility API

    crates/handlers/src/compat: refresh.rs, logout.rs, logout_all.rs,
    login_sso_redirect.rs, login.rs and login_sso_complete.rs, with the errors of
    mod.rs. *)

From stdpp Require Import base tactics list strings gmap sorting.
From Stdlib Require Import ZArith Lia.
From S2P Require Import Prelude Text Scope Externals Formats TokenFormat DataModel CompatModel Storage TokenRepo QueueRepo UserRepo ClientAuth TokenEndpoint CompatRepo Introspection Pagination PersonalRepo AppSessionRepo Passwords.

#[local] Open Scope Z_scope.

(** [MatrixError] (mod.rs). *)
Record MatrixError := mkMatrixError {
  errcode : string;
  error : string;
  status : Z;
}.

Definition unknown_error (text : string) : MatrixError := mkMatrixError "M_UNKNOWN" text 500.

(** What the handlers of the API share. *)
Section Common.
Context {R E : Type} (Internal : DatabaseError → E).

Definition repo {A} (m : M (World R) DatabaseError A) : M (World R) E A := mmap_err Internal m.
Definition require {A} (o : option A) (e : E) : M (World R) E A := lift (ok_or o e).
Definition guard (c : bool) (e : E) : M (World R) E unit := if c then ret tt else fail e.
End Common.

(** [Option::filter]. *)
Definition opt_filter {A} (p : A → bool) (o : option A) : option A :=
  match o with Some a => if p a then Some a else None | None => None end.

(** ** Token refresh (refresh.rs) *)
Module CompatRefresh.

Inductive RouteError : Type :=
| Internal (e : DatabaseError)
| InvalidToken (e : TokenFormatError)
| UnknownToken
| InvalidTokenType (t : TokenType)
| RefreshTokenConsumed (id : Ulid)
| InvalidSession (id : Ulid)
| UnknownSession (id : Ulid).

Definition into_response (e : RouteError) : MatrixError :=
  match e with
  | Internal _ | UnknownSession _ => unknown_error "Internal error"
  | InvalidToken _ | UnknownToken | InvalidTokenType _ | InvalidSession _
  | RefreshTokenConsumed _ => mkMatrixError "M_UNKNOWN_TOKEN" "Invalid refresh token" 401
  end.

Record ResponseBody := mkResponseBody {
  access_token : string;
  refresh_token : string;
  expires_in_ms : Duration;
}.

Section Handler.
Context {R : Type} `{!RngCore R, !Crc, !Base64}.
Abbreviation Handler := (M (World R) RouteError) (only parsing).

(** [input] is the refresh token of the body. *)
Definition post (ip : option IpAddr) (site_config : SiteConfig) (input : string) :
    Handler ResponseBody :=
  do token_type <- lift (map_err InvalidToken (check input));
  do! guard (bool_decide (token_type = CompatRefreshTokenType)) (InvalidTokenType token_type);
  do refresh_token <- repo Internal (CompatRefreshTokenRepository.find_by_token input);
  do refresh_token <- require refresh_token UnknownToken;
  do! guard (CompatRefreshToken.is_valid refresh_token)
        (RefreshTokenConsumed (CompatRefreshToken.id refresh_token));
  let session_id := CompatRefreshToken.session_id refresh_token in
  do session <- repo Internal (CompatSessionRepository.lookup session_id);
  do session <- require session (UnknownSession session_id);
  do! guard (CompatSession.is_valid session) (InvalidSession session_id);
  do! Introspection.record_compat_session ip session;
  do access_token <- repo Internal (CompatAccessTokenRepository.lookup
    (CompatRefreshToken.access_token_id refresh_token));
  do access_token <-
    match access_token with
    | Some t => do now_ <- now; ret (if CompatAccessToken.is_valid t now_ then Some t else None)
    | None => ret None
    end;
  do new_refresh_token_str <- with_rng (generate CompatRefreshTokenType);
  do new_access_token_str <- with_rng (generate CompatAccessTokenType);
  let expires_in := compat_token_ttl site_config in
  do new_access_token <- repo Internal (CompatAccessTokenRepository.add session
    new_access_token_str (Some expires_in));
  do new_refresh_token <- repo Internal (CompatRefreshTokenRepository.add session
    new_access_token new_refresh_token_str);
  do! repo Internal (CompatRefreshTokenRepository.consume_and_replace refresh_token
    new_refresh_token);
  do! match access_token with
      | Some access_token =>
          do! repo Internal (CompatAccessTokenRepository.expire access_token); ret tt
      | None => ret tt
      end;
  do! repo Internal save;
  ret (mkResponseBody (CompatAccessToken.token new_access_token)
         (CompatRefreshToken.token new_refresh_token) expires_in).

Definition refresh_request (ip : option IpAddr) (site_config : SiteConfig) (input : string) :
    Handler ResponseBody :=
  do! repo Internal from_pool;
  post ip site_config input.
End Handler.
End CompatRefresh.

(** ** Logout (logout.rs) *)
Module CompatLogout.

Inductive RouteError : Type :=
| Internal (e : DatabaseError)
| MissingAuthorization
| TokenFormat (e : TokenFormatError)
| InvalidAuthorization.

Definition into_response (e : RouteError) : MatrixError :=
  match e with
  | Internal _ => unknown_error "Internal error"
  | MissingAuthorization => mkMatrixError "M_MISSING_TOKEN" "Missing access token" 401
  | InvalidAuthorization | TokenFormat _ =>
      mkMatrixError "M_UNKNOWN_TOKEN" "Invalid access token" 401
  end.

Section Handler.
Context {R : Type} `{!RngCore R, !Crc, !Base64, !UlidText}.
Abbreviation Handler := (M (World R) RouteError) (only parsing).

(** [maybe_authorization] is the bearer token of the request. *)
Definition post (ip : option IpAddr) (maybe_authorization : option string) : Handler unit :=
  do token <- require maybe_authorization MissingAuthorization;
  do token_type <- lift (map_err TokenFormat (check token));
  do! guard (bool_decide (token_type = CompatAccessTokenType)) InvalidAuthorization;
  do token <- repo Internal (CompatAccessTokenRepository.find_by_token token);
  do token <- require token InvalidAuthorization;
  do now_ <- now;
  do! guard (CompatAccessToken.is_valid token now_) InvalidAuthorization;
  do session <- repo Internal (CompatSessionRepository.lookup (CompatAccessToken.session_id token));
  do session <- require (opt_filter CompatSession.is_valid session) InvalidAuthorization;
  do! Introspection.record_compat_session ip session;
  do user <- repo Internal (UserRepository.lookup (CompatSession.user_id session));
  do user <- require user InvalidAuthorization;
  do! repo Internal (CompatSessionRepository.finish session);
  do! repo Internal (QueueJobRepository.schedule_sync_devices user);
  repo Internal save.

Definition logout_request (ip : option IpAddr) (maybe_authorization : option string) :
    Handler unit :=
  do! repo Internal from_pool;
  post ip maybe_authorization.
End Handler.
End CompatLogout.

(** ** Logout from all sessions (logout_all.rs) *)
Module CompatLogoutAll.

Inductive RouteError : Type :=
| Internal (e : DatabaseError)
| CantLoadSession (id : Ulid)
| CantLoadUser (id : Ulid)
| InvalidToken (id : Ulid)
| InvalidSession (id : Ulid)
| InvalidUser (id : Ulid)
| NotSupported
| MissingAuthorization
| TokenFormat (e : TokenFormatError)
| NotACompatToken.

Definition into_response (e : RouteError) : MatrixError :=
  match e with
  | Internal _ | CantLoadSession _ | CantLoadUser _ => unknown_error "Internal error"
  | MissingAuthorization => mkMatrixError "M_MISSING_TOKEN" "Missing access token" 401
  | InvalidUser _ | InvalidSession _ | InvalidToken _ | NotACompatToken | TokenFormat _ =>
      mkMatrixError "M_UNKNOWN_TOKEN" "Invalid access token" 401
  | NotSupported =>
      mkMatrixError "M_UNRECOGNIZED"
        "The /logout/all endpoint is not supported by this deployment" 404
  end.

Section Handler.
Context {R : Type} `{!RngCore R, !Crc, !Base64, !UlidText}.
Abbreviation Handler := (M (World R) RouteError) (only parsing).

(** [input] is [only_compat_is_fine] of the body, when there is a body. *)
Definition post (ip : option IpAddr) (maybe_authorization : option string)
    (input : option bool) : Handler unit :=
  let only_compat_is_fine := default false input in
  do token <- require maybe_authorization MissingAuthorization;
  do token_type <- lift (map_err TokenFormat (check token));
  do! guard (bool_decide (token_type = CompatAccessTokenType)) NotACompatToken;
  do token <- repo Internal (CompatAccessTokenRepository.find_by_token token);
  do token <- require token NotACompatToken;
  do now_ <- now;
  do! guard (CompatAccessToken.is_valid token now_) (InvalidToken (CompatAccessToken.id token));
  let session_id := CompatAccessToken.session_id token in
  do session <- repo Internal (CompatSessionRepository.lookup session_id);
  do session <- require session (CantLoadSession session_id);
  do! guard (CompatSession.is_valid session) (InvalidSession (CompatSession.id session));
  do! Introspection.record_compat_session ip session;
  do user <- repo Internal (UserRepository.lookup (CompatSession.user_id session));
  do user <- require user (CantLoadUser (CompatSession.user_id session));
  do! guard (User.is_valid user) (InvalidUser (CompatSession.user_id session));
  do! guard only_compat_is_fine NotSupported;
  do! repo Internal (CompatSessionRepository.finish_bulk
    (CompatSessionFilter.active_only (CompatSessionFilter.for_user user CompatSessionFilter.new)));
  do! repo Internal (QueueJobRepository.schedule_sync_devices user);
  repo Internal save.

Definition logout_all_request (ip : option IpAddr) (maybe_authorization : option string)
    (input : option bool) : Handler unit :=
  do! repo Internal from_pool;
  post ip maybe_authorization input.
End Handler.
End CompatLogoutAll.

(** ** The start of an SSO login (login_sso_redirect.rs) *)

(** The parts of a [Url] the handler looks at. *)
Record UrlParts := mkUrlParts {
  url_scheme : string;
  url_username : string;
  url_password : option string;
  url_has_host : bool;
}.
Class UrlSplit := url_parts : string → UrlParts.

Module SsoRedirect.

(** [CompatLoginSsoAction] (router/src/endpoints.rs). *)
Inductive CompatLoginSsoAction : Type := Login | Register | Unknown.

Definition is_known (a : CompatLoginSsoAction) : bool :=
  match a with Login | Register => true | Unknown => false end.

Inductive RouteError : Type :=
| Internal (e : DatabaseError)
| MissingRedirectUrl
| InvalidRedirectUrl.

Record Params := mkParams {
  redirect_url : option string;
  action : option CompatLoginSsoAction;
  unstable_action : option CompatLoginSsoAction;
}.

Definition Params_action (p : Params) : option CompatLoginSsoAction :=
  match opt_filter is_known (action p) with
  | Some a => Some a
  | None => opt_filter is_known (unstable_action p)
  end.

Section Handler.
Context {R : Type} `{!RngCore R, !UrlLib, !UrlSplit}.
Abbreviation Handler := (M (World R) RouteError) (only parsing).

(** The redirection is to the page of the login, with the action. *)
Definition get (params : Params) : Handler (Ulid * option CompatLoginSsoAction) :=
  let action := Params_action params in
  do redirect_url <- require (redirect_url params) MissingRedirectUrl;
  do redirect_url <- require (url_parse redirect_url) InvalidRedirectUrl;
  let parts := url_parts redirect_url in
  do! guard (bool_decide (url_username parts = "") && bool_decide (url_password parts = None))
        InvalidRedirectUrl;
  do! guard (negb (bool_decide (url_scheme parts = "http" ∨ url_scheme parts = "https")
                   && negb (url_has_host parts))) InvalidRedirectUrl;
  do token <- with_rng (sample_alphanumeric 32);
  do login <- repo Internal (CompatSsoLoginRepository.add token redirect_url);
  do! repo Internal save;
  ret (CompatSsoLogin.id login, action).

Definition sso_redirect_request (params : Params) : Handler (Ulid * option CompatLoginSsoAction) :=
  do! repo Internal from_pool;
  get params.
End Handler.
End SsoRedirect.

(** ** Login through the compatibility API

    crates/handlers/src/compat/login.rs, the part of login_sso_complete.rs that
    fulfills an SSO login, the count of sessions of crates/handlers/src/session.rs
    and the password checks of crates/handlers/src/rate_limit.rs. *)

#[local] Open Scope Z_scope.

(** *** What the handlers are given *)

(** The homeserver (crates/matrix/src/lib.rs) and the parser of Matrix
    identifiers of [ruma]: localpart and server name. *)
Class MatrixNames := {
  homeserver : string;
  parse_user_id : string → option (string * string);
}.

Definition mxid `{!MatrixNames} (localpart : string) : string :=
  "@" +:+ localpart +:+ ":" +:+ homeserver.

Definition localpart `{!MatrixNames} (mxid : string) : option string :=
  '(local, server) ← parse_user_id mxid;
  if decide (server = homeserver) then Some local else None.

(** The limiters of [governor]: whether the next check of a key passes. *)
Class Limits := {
  requester_allowed : option IpAddr → bool;
  user_allowed : Ulid → bool;
}.

Inductive PasswordCheckLimitedError : Type :=
| LimitedRequester (requester : option IpAddr)
| LimitedUser (id : Ulid).

(** [Limiter::check_password]. *)
Definition check_password `{!Limits} (key : option IpAddr) (user : User.t) :
    result PasswordCheckLimitedError unit :=
  if requester_allowed key then
    if user_allowed (User.id user) then Ok tt else Err (LimitedUser (User.id user))
  else Err (LimitedRequester key).

(** The policy (crates/policy/src/model.rs): the violations of a login.  Of
    the variants, one is told apart. *)
Inductive ViolationVariant : Type :=
| TooManySessions (need_to_remove : Z)
| OtherVariant (code : string).

Record Violation := mkViolation {
  msg : string;
  variant : option ViolationVariant;
}.

Inductive CompatLogin : Type :=
| LoginSso (redirect_uri : string)
| LoginToken
| LoginPassword.

Class LoginPolicy := evaluate_compat_login :
  User.t → CompatLogin → bool → SessionCounts → option IpAddr → option string →
  option (list Violation).

(** [count_user_sessions_for_limiting]. *)
Definition count_user_sessions_for_limiting {R} (user : User.t) :
    M (World R) DatabaseError SessionCounts :=
  do oauth2 <- SessionListing.count
    (OAuth2SessionFilter.for_user user (OAuth2SessionFilter.active_only OAuth2SessionFilter.new));
  do compat <- CompatSessionRepository.count
    (CompatSessionFilter.for_user user (CompatSessionFilter.active_only CompatSessionFilter.new));
  do personal <- PersonalSessionRepository.count
    (PersonalSessionFilter.for_owner_user user
       (PersonalSessionFilter.for_actor_user user
          (PersonalSessionFilter.active_only PersonalSessionFilter.new)));
  ret (mkSessionCounts (oauth2 + compat + personal) oauth2 compat personal).

Module Login.

Definition INACTIVE_SESSION_THRESHOLD : Duration := 90 * 24 * 3600 * 1000000.
Definition MINIMUM_SESSIONS_TO_FETCH : Z := 2160.
Definition THIRTY_SECONDS : Duration := 30 * 1000 * 1000.

Inductive Identifier : Type :=
| IdentifierUser (user : string)
| IdentifierUnsupported.

Inductive Credentials : Type :=
| CredentialsPassword (identifier : option Identifier) (user : option string) (password : string)
| CredentialsToken (token : string)
| CredentialsUnsupported.

Record RequestBody := mkRequestBody {
  credentials : Credentials;
  refresh_token : bool;
  device_id : option string;
  initial_device_display_name : option string;
}.

Record ResponseBody := mkResponseBody {
  r_access_token : string;
  r_device_id : option Device.Device;
  r_user_id : string;
  r_refresh_token : option string;
  r_expires_in_ms : option Duration;
}.

(** The errors [Internal] boxes. *)
Inductive InternalError : Type :=
| RepositoryError (e : DatabaseError)
| EvaluationError
| PasswordFailure (e : PasswordError)
| NeedToRemove.

Inductive RouteError : Type :=
| Internal (e : InternalError)
| Unsupported
| UnsupportedIdentifier
| MissingIdentifier
| UserNotFound
| NoPassword
| PasswordMismatch
| RateLimited (e : PasswordCheckLimitedError)
| LoginTookTooLong
| InvalidLoginToken
| UserLocked
| ProvisionDeviceFailed
| PolicyRejected
| PolicyHardSessionLimitReached
(** The [unreachable!()] of [post]. *)
| Unreachable.

(** [IntoResponse for RouteError]; a panic has no response of its own. *)
Definition into_response (e : RouteError) : MatrixError :=
  match e with
  | Internal _ | ProvisionDeviceFailed | Unreachable =>
      mkMatrixError "M_UNKNOWN" "Internal server error" 500
  | RateLimited _ => mkMatrixError "M_LIMIT_EXCEEDED" "Too many login attempts" 429
  | Unsupported => mkMatrixError "M_UNKNOWN" "Invalid login type" 400
  | UnsupportedIdentifier => mkMatrixError "M_UNKNOWN" "Unsupported login identifier" 400
  | MissingIdentifier => mkMatrixError "M_BAD_JSON" "Missing property 'identifier" 400
  | UserNotFound | NoPassword | PasswordMismatch =>
      mkMatrixError "M_FORBIDDEN" "Invalid username/password" 403
  | LoginTookTooLong => mkMatrixError "M_FORBIDDEN" "Login token expired" 403
  | InvalidLoginToken => mkMatrixError "M_FORBIDDEN" "Invalid login token" 403
  | UserLocked => mkMatrixError "M_USER_LOCKED" "User account has been locked" 401
  | PolicyRejected =>
      mkMatrixError "M_FORBIDDEN" "Login denied by the policy enforced by this service" 403
  | PolicyHardSessionLimitReached =>
      mkMatrixError "M_FORBIDDEN" "You have reached your hard device limit. Please visit your account page to sign some out." 403
  end.

(** *** The least recently used sessions *)

(** The order of [Option<DateTime<Utc>>]: [None] comes first. *)
Definition opt_compare (a b : option Z) : comparison :=
  match a, b with
  | None, None => Eq
  | None, Some _ => Lt
  | Some _, None => Gt
  | Some a, Some b => a ?= b
  end.

(** The key [(last_active_at, created_at, id)]. *)
Definition lru_le (a b : CompatSession.t) : Prop :=
  match opt_compare (CompatSession.last_active_at a) (CompatSession.last_active_at b) with
  | Lt => True
  | Gt => False
  | Eq =>
      match CompatSession.created_at a ?= CompatSession.created_at b with
      | Lt => True
      | Gt => False
      | Eq => CompatSession.id a <= CompatSession.id b
      end
  end.
#[export] Instance lru_le_dec : RelDecision lru_le.
Proof. intros a b. unfold lru_le. repeat case_match; apply _. Defined.

(** The [HashMap] by identifier: a later session replaces an earlier one. *)
Definition dedup (sessions : list CompatSession.t) : gmap Z CompatSession.t :=
  foldl (λ m s, <[CompatSession.id s := s]> m) ∅ sessions.

Definition sorted_sessions (sessions : list CompatSession.t) : list CompatSession.t :=
  merge_sort lru_le (map_to_list (dedup sessions)).*2.

Section Handlers.
Context {R C : Type} `{!RngCore R, !Crc, !Base64, !UlidText, !UrlLib, !PgText, !PasswordCrates R C,
  !MatrixNames, !Limits, !LoginPolicy}.

Abbreviation Handler := (M (World R) RouteError) (only parsing).

Definition repo {A} (m : M (World R) DatabaseError A) : Handler A :=
  mmap_err (λ e, Internal (RepositoryError e)) m.

(** A computation on the generator of the request. *)
Definition on_rng {E A} (m : M R E A) : M (World R) E A := λ w,
  let '(r, rng) := m (w_rng w) in (r, set_rng w rng).

(** [SyncDevicesJob::new_for_id]. *)
Definition schedule_sync (user_id : Ulid) : M (World R) DatabaseError unit :=
  QueueJobRepository.schedule QueueJobRepository.SYNC_DEVICES
    (QueueJobRepository.sync_devices_payload user_id).

Definition active_sessions_of (user : User.t) : CompatSessionFilter.t :=
  CompatSessionFilter.active_only (CompatSessionFilter.for_user user CompatSessionFilter.new).

Definition find_lru_compat_sessions_flawed (user : User.t) (num_requested : Z) :
    Handler (list CompatSession.t) :=
  do now_ <- now;
  let inactive_threshold_date := now_ - INACTIVE_SESSION_THRESHOLD in
  let page := first_page (Z.max num_requested MINIMUM_SESSIONS_TO_FETCH) in
  do inactive <- repo (CompatSessionRepository.list
    (CompatSessionFilter.with_last_active_before inactive_threshold_date
       (active_sessions_of user)) page);
  let edges := Page.nodes inactive in
  do edges <-
    (if Z.of_nat (length edges) <? num_requested then
       do active <- repo (CompatSessionRepository.list (active_sessions_of user) page);
       ret (edges ++ Page.nodes active)
     else ret edges);
  ret (sorted_sessions edges.*1).

Fixpoint finish_sessions (sessions : list CompatSession.t) : M (World R) DatabaseError unit :=
  match sessions with
  | [] => ret tt
  | s :: sessions =>
      do! CompatSessionRepository.finish s;
      finish_sessions sessions
  end.

(** [need_to_remove] is a [u32], which fits a [usize]. *)
Definition process_violations_for_compat_login (session_limit_config : option SessionLimitConfig)
    (user : User.t) (violations : list Violation) : Handler unit :=
  match violations with
  | [] => ret tt
  | [ {| variant := Some (TooManySessions need_to_remove) |} ] =>
      match session_limit_config with
      | Some session_limit_config =>
          if dangerous_hard_limit_eviction session_limit_config then
            do lru <- find_lru_compat_sessions_flawed user need_to_remove;
            if Z.of_nat (length lru) <? need_to_remove then fail PolicyHardSessionLimitReached else
            do! repo (finish_sessions (take (Z.to_nat need_to_remove) lru));
            repo (schedule_sync (User.id user))
          else fail PolicyHardSessionLimitReached
      | None => fail PolicyRejected
      end
  | _ => fail PolicyRejected
  end.

(** [Device::from] or [Device::generate]. *)
Definition device_of (requested_device_id : option string) : Handler Device.Device :=
  match requested_device_id with
  | Some id => ret (Device.mkDevice id)
  | None =>
      do id <- with_rng (sample_alphanumeric Device.GENERATED_DEVICE_ID_LENGTH);
      ret (Device.mkDevice id)
  end.

(** The end both kinds of login share: the device is taken over from the
    sessions that had it, and the policy is asked. *)
Definition admit_device (ip : option IpAddr) (user_agent : option string)
    (session_limit_config : option SessionLimitConfig) (user : User.t) (login : CompatLogin)
    (requested_device_id : option string) : Handler Device.Device :=
  do! repo (UserRepository.acquire_lock_for_sync user);
  do device <- device_of requested_device_id;
  do session_replaced <- repo (AppSessionRepository.finish_sessions_to_replace_device user device);
  do session_counts <- repo (count_user_sessions_for_limiting user);
  do violations <- lift (ok_or (evaluate_compat_login user login session_replaced session_counts
    ip user_agent) (Internal EvaluationError));
  do! process_violations_for_compat_login session_limit_config user violations;
  ret device.

(** The browser session an SSO login was fulfilled by, if the login can
    still be exchanged. *)
Definition check_login (login : CompatSsoLogin.t) : Handler Ulid :=
  do now_ <- now;
  match CompatSsoLogin.state login with
  | CompatSsoLoginState.Pending => fail InvalidLoginToken
  | CompatSsoLoginState.Fulfilled fulfilled_at browser_session_id =>
      if fulfilled_at + THIRTY_SECONDS <? now_ then fail LoginTookTooLong
      else ret browser_session_id
  | CompatSsoLoginState.Exchanged _ _ _ => fail InvalidLoginToken
  end.

Definition token_login (ip : option IpAddr) (user_agent : option string)
    (session_limit_config : option SessionLimitConfig) (token : string)
    (requested_device_id initial_device_display_name : option string) :
    Handler (CompatSession.t * User.t) :=
  do login <- repo (CompatSsoLoginRepository.find_by_token token);
  do login <- require login InvalidLoginToken;
  do browser_session_id <- check_login login;
  do browser_session <- repo (BrowserSessionRepository.lookup browser_session_id);
  do browser_session <- require browser_session InvalidLoginToken;
  let user := BrowserSession.user browser_session in
  do! (if BrowserSession.active browser_session && User.is_valid user then ret tt
       else fail (if bool_decide (is_Some (BrowserSession.finished_at browser_session))
                     || bool_decide (is_Some (User.deactivated_at user))
                  then InvalidLoginToken else UserLocked));
  do device <- admit_device ip user_agent session_limit_config user LoginToken requested_device_id;
  do compat_session <- repo (CompatSessionRepository.add user device (Some browser_session) false
    initial_device_display_name);
  do! repo (CompatSsoLoginRepository.exchange login compat_session);
  ret (compat_session, user).

Definition check_user_password (password_manager : PasswordManager) (ip : option IpAddr)
    (user : User.t) (password : string) : Handler unit :=
  do! lift (map_err RateLimited (check_password ip user));
  do user_password <- repo (UserPasswordRepository.active user);
  do user_password <- require user_password NoPassword;
  do res <- mmap_err (λ e, Internal (PasswordFailure e)) (on_rng
    (verify_and_upgrade password_manager (UserPassword.version user_password) password
       (UserPassword.hashed_password user_password)));
  match res with
  | Success (Some (version, hashed_password)) =>
      do! repo (UserPasswordRepository.add user version hashed_password (Some user_password));
      ret tt
  | Success None => ret tt
  | Failure => fail PasswordMismatch
  end.

Definition user_password_login (password_manager : PasswordManager) (ip : option IpAddr)
    (user_agent : option string) (session_limit_config : option SessionLimitConfig)
    (username password : string) (requested_device_id initial_device_display_name : option string) :
    Handler (CompatSession.t * User.t) :=
  do user <- repo (UserRepository.find_by_username username);
  do user <- require (opt_filter (λ u, bool_decide (User.deactivated_at u = None)) user)
               UserNotFound;
  do! guard (bool_decide (User.locked_at user = None)) UserLocked;
  do! check_user_password password_manager ip user password;
  do device <- admit_device ip user_agent session_limit_config user LoginPassword
    requested_device_id;
  do session <- repo (CompatSessionRepository.add user device None false
    initial_device_display_name);
  ret (session, user).

(** [(identifier, user)]: the deprecated property wins. *)
Definition login_name (identifier : option Identifier) (user : option string) : Handler string :=
  match identifier, user with
  | _, Some user => ret user
  | Some (IdentifierUser user), None => ret user
  | Some IdentifierUnsupported, None => fail UnsupportedIdentifier
  | None, None => fail MissingIdentifier
  end.

(** The session the credentials give. *)
Definition login_session (password_manager : PasswordManager) (ip : option IpAddr)
    (site_config : SiteConfig) (user_agent : option string) (input : RequestBody) :
    Handler (CompatSession.t * User.t) :=
  match is_enabled password_manager, credentials input with
  | true, CredentialsPassword identifier user password =>
      do user <- login_name identifier user;
      let username := default user (localpart user) in
      user_password_login password_manager ip user_agent (session_limit site_config) username
        password (device_id input) (initial_device_display_name input)
  | _, CredentialsToken token =>
      token_login ip user_agent (session_limit site_config) token (device_id input)
        (initial_device_display_name input)
  | _, _ => fail Unsupported
  end.

(** The tokens of the session; one that can be refreshed expires. *)
Definition issue_tokens (site_config : SiteConfig) (session : CompatSession.t)
    (refreshable : bool) : Handler (CompatAccessToken.t * option string) :=
  let expires_in := if refreshable then Some (compat_token_ttl site_config) else None in
  do access_token <- with_rng (generate CompatAccessTokenType);
  do access_token <- repo (CompatAccessTokenRepository.add session access_token expires_in);
  do refresh_token <-
    (if refreshable then
       do refresh_token <- with_rng (generate CompatRefreshTokenType);
       do refresh_token <- repo (CompatRefreshTokenRepository.add session access_token
         refresh_token);
       ret (Some (CompatRefreshToken.token refresh_token))
     else ret None);
  ret (access_token, refresh_token).

(** The first transaction of [post]: the session and its tokens, committed. *)
Definition open_session (password_manager : PasswordManager) (ip : option IpAddr)
    (site_config : SiteConfig) (user_agent : option string) (input : RequestBody) :
    Handler (CompatSession.t * User.t * CompatAccessToken.t * option string) :=
  do! repo from_pool;
  do (session, user) <- login_session password_manager ip site_config user_agent input;
  do session <-
    match user_agent with
    | Some user_agent => repo (CompatSessionRepository.record_user_agent session user_agent)
    | None => ret session
    end;
  do (access_token, refresh_token) <- issue_tokens site_config session (refresh_token input);
  do! repo save;
  ret (session, user, access_token, refresh_token).

(** The second transaction of [post], where the homeserver does not answer:
    the session is ended. *)
Definition undo_session (session : CompatSession.t) : Handler unit :=
  do! repo from_pool;
  do session <- repo (CompatSessionRepository.finish session);
  do! repo (schedule_sync (CompatSession.user_id session));
  do! repo save;
  fail ProvisionDeviceFailed.

(** The device is created on the homeserver once the session is committed. *)
Definition provision (session : CompatSession.t) (user : User.t) : Handler unit :=
  match CompatSession.device session with
  | None => fail Unreachable
  | Some device => λ w,
      match homeserver_call (UpsertDevice (User.username user) (Device.id device)
                               (CompatSession.human_name session)) w with
      | (Ok _, w) => (Ok tt, w)
      | (Err _, w) => undo_session session w
      end
  end.

Definition post (password_manager : PasswordManager) (ip : option IpAddr)
    (site_config : SiteConfig) (user_agent : option string) (input : RequestBody) :
    Handler ResponseBody :=
  do (session, user, access_token, refresh_token') <-
    open_session password_manager ip site_config user_agent input;
  let user_id := mxid (User.username user) in
  let expires_in := if refresh_token input then Some (compat_token_ttl site_config) else None in
  do! Introspection.record_compat_session ip session;
  do! provision session user;
  ret (mkResponseBody (CompatAccessToken.token access_token) (CompatSession.device session)
         user_id refresh_token' expires_in).
End Handlers.
End Login.

(** *** The end of an SSO login in the browser (login_sso_complete.rs) *)
Module SsoComplete.

Definition THIRTY_MINUTES : Duration := 30 * 60 * 1000 * 1000.

Inductive InternalError : Type :=
| RepositoryError (e : DatabaseError)
| LoginNotFound
| EvaluationError
| TemplateError.

(** The pages of the handler, and the redirection to the client with the
    login token. *)
Inductive Reply : Type :=
| Expired
| Violated (violations : list Violation)
| RedirectTo (redirect_uri : Url) (login_token : string).

Section Handler.
Context {R : Type} `{!RngCore R, !UrlLib, !LoginPolicy}.
Abbreviation Handler := (M (World R) InternalError) (only parsing).

Definition repo {A} (m : M (World R) DatabaseError A) : Handler A := mmap_err RepositoryError m.

(** An answer that is a page: its template may fail. *)
Definition page (r : Reply) : Handler Reply := do! render_answer TemplateError; ret r.

(** [post], for the browser session of the request. *)
Definition post (ip : option IpAddr) (user_agent : option string) (session : BrowserSession.t)
    (id : Ulid) : Handler Reply :=
  do login <- repo (CompatSsoLoginRepository.lookup id);
  do login <- require login LoginNotFound;
  do expired <-
    (if CompatSsoLoginState.is_pending (CompatSsoLogin.state login) then
       do now_ <- now; ret (CompatSsoLogin.created_at login + THIRTY_MINUTES <? now_)
     else ret true);
  if expired : bool then page Expired else
  do session_counts <- repo (count_user_sessions_for_limiting (BrowserSession.user session));
  do violations <- lift (ok_or (evaluate_compat_login (BrowserSession.user session)
    (LoginSso (CompatSsoLogin.redirect_uri login)) false session_counts ip user_agent)
    EvaluationError);
  match violations with
  | [] =>
      do! repo (CompatSsoLoginRepository.fulfill login session);
      do! repo save;
      ret (RedirectTo (CompatSsoLogin.redirect_uri login) (CompatSsoLogin.login_token login))
  | _ => page (Violated violations)
  end.

Definition sso_complete_request (ip : option IpAddr) (user_agent : option string)
    (session : BrowserSession.t) (id : Ulid) : Handler Reply :=
  do! repo from_pool;
  post ip user_agent session id.
End Handler.
End SsoComplete.
