(* ===== verification/Authorization.v ===== *)
(** * The authorization endpoint and the consent page

    crates/handlers/src/oauth2/authorization: mod.rs (the request of a client),
    callback.rs (the answer to the client, in the query, in the fragment or in a
    form) and consent.rs (the page where the user agrees), with
    [Client::resolve_redirect_uri] of crates/data-model/src/oauth2/client.rs and
    the response types of crates/oauth2-types/src/response_type.rs. *)

From stdpp Require Import base tactics list strings gmap.
From Stdlib Require Import ZArith Lia.
From S2P Require Import Prelude Text Scope Formats Externals Pagination TokenFormat DataModel CompatModel Storage TokenRepo GrantRepo QueueRepo UserRepo CompatRepo PersonalRepo Passwords ClientAuth TokenEndpoint GraphqlSession WebSession CompatEndpoints.
#[local] Open Scope Z_scope.

(** ** Redirect URIs (data-model/src/oauth2/client.rs) *)

Inductive InvalidRedirectUriError : Type := NotAllowed | MultipleRegistered | NoneRegistered.

Definition LOCAL_HOSTS : list string := ["localhost"; "127.0.0.1"; "[::1]"].

Section RedirectUris.
Context `{!UrlEdit}.

Definition uri_matches_one_of (uri : Url) (registered_uris : list Url) : bool :=
  (if bool_decide (default "" (url_host_str uri) ∈ LOCAL_HOSTS)
   then match url_without_port uri with
        | Some uri => bool_decide (uri ∈ registered_uris)
        | None => false
        end
   else false)
  || bool_decide (uri ∈ registered_uris).

Definition resolve_redirect_uri (client : Client.t) (redirect_uri : option Url) :
    result InvalidRedirectUriError Url :=
  match Client.redirect_uris client, redirect_uri with
  | [], _ => Err NoneRegistered
  | [one], None => Ok one
  | _, None => Err MultipleRegistered
  | uris, Some uri => if uri_matches_one_of uri uris then Ok uri else Err NotAllowed
  end.
End RedirectUris.

(** ** The answer to the client (callback.rs) *)

Module CallbackDestination.

Inductive Mode : Type :=
| QueryMode (existing_params : gmap string string)
| FragmentMode
| FormPostMode.

Record t := mk {
  mode : Mode;
  safe_redirect_uri : Url;
  state : option string;
}.

Inductive Error : Type :=
| RedirectUriFragmentNotAllowed
| RedirectUriInvalidQueryParams
| UnsupportedResponseMode.

(** [CallbackDestinationError]. *)
Inductive GoError : Type := FormPostRender | ParamsSerialization.

(** What the browser is sent: a redirection, or a form that posts itself. *)
Inductive Response : Type :=
| RedirectTo (location : Url)
| FormPostTo (redirect_uri : Url) (params : list (string * string)).

Section Callback.
Context `{!UrlEdit, !UrlEncoded}.

Definition try_new (mode : ResponseMode) (redirect_uri : Url) (state : option string) :
    result Error t :=
  if bool_decide (is_Some (url_fragment redirect_uri)) then Err RedirectUriFragmentNotAllowed else
  match mode with
  | Query =>
      try existing_params <-
        match url_query redirect_uri with
        | Some q => ok_or (urlencoded_from_str q) RedirectUriInvalidQueryParams
        | None => Ok ∅
        end;
      Ok (mk (QueryMode existing_params) (url_set_query None redirect_uri) state)
  | Fragment => Ok (mk FragmentMode redirect_uri state)
  | FormPost => Ok (mk FormPostMode redirect_uri state)
  | UnknownResponseMode _ => Err UnsupportedResponseMode
  end.

(** [TryFrom<&AuthorizationGrant>]. *)
Definition of_grant (g : AuthorizationGrant.t) : result Error t :=
  try_new (AuthorizationGrant.response_mode g) (AuthorizationGrant.redirect_uri g)
    (AuthorizationGrant.state g).

Definition param (name : string) (o : option string) : list (string * string) :=
  match o with Some v => [(name, v)] | None => [] end.

(** What the browser is sent with [params]. *)
Definition response (c : t) (params : list (string * string)) : Response :=
  match mode c with
  | QueryMode existing_params =>
      let new_qs := urlencoded_to_string
        (map_to_list existing_params ++ param "state" (state c) ++ params) in
      let redirect_uri := url_set_query (Some new_qs) (safe_redirect_uri c) in
      RedirectTo (match url_fragment redirect_uri with
                  | None => url_set_fragment (Some "") redirect_uri
                  | Some _ => redirect_uri
                  end)
  | FragmentMode =>
      let new_qs := urlencoded_to_string (param "state" (state c) ++ params) in
      RedirectTo (url_set_fragment (Some new_qs) (safe_redirect_uri c))
  | FormPostMode => FormPostTo (safe_redirect_uri c) (param "state" (state c) ++ params)
  end.

(** [go]: the parameters may not serialize, nor the form render. *)
Definition go {R} (c : t) (params : list (string * string)) : M (World R) GoError Response :=
  do! render_answer (match mode c with FormPostMode => FormPostRender | _ => ParamsSerialization end);
  ret (response c params).

(** The parameters of an error. *)
Definition error_params (e : ClientError) : list (string * string) :=
  ("error", ClientErrorCode.to_string (Formats.error e))
  :: param "error_description" (Formats.error_description e).

(** [AuthorizationResponse], with the fields the handlers set. *)
Definition response_params (code id_token : option string) : list (string * string) :=
  param "code" code ++ param "id_token" id_token.
End Callback.
End CallbackDestination.

(** ** Requests (mod.rs) *)
Module Authorization.

(** [ResponseType]: a set of tokens. *)
Inductive ResponseTypeToken : Type := Code | IdToken | Token | Unknown (s : string).
#[export] Instance ResponseTypeToken_eq_dec : EqDecision ResponseTypeToken.
Proof. solve_decision. Defined.

Definition ResponseType : Type := list ResponseTypeToken.
Definition has_code (t : ResponseType) : bool := bool_decide (Code ∈ t).
Definition has_id_token (t : ResponseType) : bool := bool_decide (IdToken ∈ t).
Definition has_token (t : ResponseType) : bool := bool_decide (Token ∈ t).

Inductive Prompt : Type := PromptNone | Login | Consent | SelectAccount | Create | UnknownPrompt (s : string).
#[export] Instance Prompt_eq_dec : EqDecision Prompt.
Proof. solve_decision. Defined.

(** [AuthorizationRequest], with the fields the handler reads, and [Params]. *)
Record AuthorizationRequest := mkAuthorizationRequest {
  response_type : ResponseType;
  client_id : string;
  redirect_uri : option Url;
  scope : Scope;
  state : option string;
  response_mode : option ResponseMode;
  nonce : option string;
  prompt : option (list Prompt);
  login_hint : option string;
  request : option string;
  request_uri : option Url;
  registration : option string;
}.

Record Params := mkParams {
  auth : AuthorizationRequest;
  pkce : option Pkce;
}.

Inductive RouteError : Type :=
| Internal (e : DatabaseError)
| ClientNotFound
| InvalidResponseMode
| IntoCallbackDestination (e : CallbackDestination.Error)
| UnknownRedirectUri (e : InvalidRedirectUriError)
| CallbackFailed (e : CallbackDestination.GoError).

Definition resolve_response_mode (response_type : ResponseType)
    (suggested_response_mode : option ResponseMode) : result RouteError ResponseMode :=
  if has_token response_type || has_id_token response_type then
    match suggested_response_mode with
    | None => Ok Fragment
    | Some Query => Err InvalidResponseMode
    | Some mode => Ok mode
    end
  else Ok (default Query suggested_response_mode).

(** Where the browser goes: back to the client, or to a page of the service. *)
Inductive Response : Type :=
| Callback (r : CallbackDestination.Response)
| ToRegister (grant : Ulid)
| ToLogin (grant : Ulid) (login_hint : option string)
| ToConsent (grant : Ulid).

Definition PKCE_REQUIRED : string :=
  "PKCE is required. Please provide code_challenge and code_challenge_method parameters.".

Section Handlers.
Context {R : Type} `{!RngCore R, !UlidText, !UrlLib, !JwksJson, !UrlEdit, !UrlEncoded}.
Abbreviation Handler := (M (World R) RouteError) (only parsing).

Definition repo {A} (m : M (World R) DatabaseError A) : Handler A := mmap_err Internal m.
Definition require {A} (o : option A) (e : RouteError) : Handler A := lift (ok_or o e).

(** The answer to the client: an error. *)
Definition callback_error (destination : CallbackDestination.t) (e : ClientError) :
    Handler Response :=
  do r <- mmap_err CallbackFailed
            (CallbackDestination.go destination (CallbackDestination.error_params e));
  ret (Callback r).

(** The checks on a request that is refused at the client: the error, if any. *)
Definition refusal (client : Client.t) (params : Params) : option ClientError :=
  let a := auth params in
  let prompt := default [] (prompt a) in
  let types := response_type a in
  if bool_decide (is_Some (request a))
  then Some (client_error ClientErrorCode.RequestNotSupported)
  else if bool_decide (is_Some (request_uri a))
  then Some (client_error ClientErrorCode.RequestUriNotSupported)
  else if has_token types
  then Some (client_error ClientErrorCode.UnsupportedResponseType)
  else if has_id_token types && negb (Client.has_grant_type client Implicit)
  then Some (client_error ClientErrorCode.UnauthorizedClient)
  else if bool_decide (is_Some (registration a))
  then Some (client_error ClientErrorCode.RegistrationNotSupported)
  else if bool_decide (PromptNone ∈ prompt)
  then Some (client_error ClientErrorCode.LoginRequired)
  else if has_code types then
    if negb (Client.has_grant_type client AuthorizationCode)
    then Some (client_error ClientErrorCode.UnauthorizedClient)
    else if bool_decide (pkce params = None)
    then Some (with_description PKCE_REQUIRED (client_error ClientErrorCode.InvalidRequest))
    else None
  else if bool_decide (is_Some (pkce params))
  then Some (client_error ClientErrorCode.InvalidRequest)
  else None.

(** The block whose errors are answered at the client. *)
Definition request_grant (ip : BoundActivityTracker) (locale : string)
    (session_info : Graphql.SessionInfo) (raw_parameters : gmap string string)
    (client : Client.t) (redirect_uri : Url) (mode : ResponseMode)
    (destination : CallbackDestination.t) (params : Params) : Handler Response :=
  let a := auth params in
  do maybe_session <- repo (Graphql.load_active_session session_info);
  match refusal client params with
  | Some e => callback_error destination e
  | None =>
      do code <-
        (if has_code (response_type a)
         then
           do code <- with_rng (sample_alphanumeric 32);
           ret (Some (AuthorizationCode.mk code (pkce params)))
         else ret None);
      do grant <- repo (AuthorizationGrantRepository.add client redirect_uri (scope a) code
        (state a) (nonce a) mode (has_id_token (response_type a)) (login_hint a) (Some locale)
        raw_parameters);
      match maybe_session with
      | None =>
          do! repo save;
          ret (if bool_decide (Create ∈ default [] (prompt a))
               then ToRegister (AuthorizationGrant.id grant)
               else ToLogin (AuthorizationGrant.id grant) (AuthorizationGrant.login_hint grant))
      | Some user_session =>
          do! repo save;
          do! Graphql.record_browser_session ip user_session;
          ret (ToConsent (AuthorizationGrant.id grant))
      end
  end.

(** [get]; the repository is opened before it. *)
Definition get (ip : BoundActivityTracker) (locale : string)
    (session_info : Graphql.SessionInfo) (raw_parameters : gmap string string)
    (params : Params) : Handler Response :=
  let a := auth params in
  do client <- repo (ClientRepository.find_by_client_id (client_id a));
  do client <- require client ClientNotFound;
  do redirect_uri <- lift (map_err UnknownRedirectUri
                             (resolve_redirect_uri client (redirect_uri a)));
  do mode <- lift (resolve_response_mode (response_type a) (response_mode a));
  do destination <- lift (map_err IntoCallbackDestination
                            (CallbackDestination.try_new mode redirect_uri (state a)));
  λ w,
    match request_grant ip locale session_info raw_parameters client redirect_uri mode
            destination params w with
    | (Ok r, w') => (Ok r, w')
    | (Err _, w') =>
        callback_error destination (client_error ClientErrorCode.ServerError) w'
    end.

Definition authorization_request (ip : BoundActivityTracker) (locale : string)
    (session_info : Graphql.SessionInfo) (raw_parameters : gmap string string)
    (params : Params) : Handler Response :=
  do! repo from_pool;
  get ip locale session_info raw_parameters params.
End Handlers.
End Authorization.

(** ** Consent (consent.rs) *)
Module ConsentPage.

Inductive RouteError : Type :=
| Internal (e : DatabaseError)
| EvaluationError
| IdTokenError (e : IdTokenSignatureError)
| IntoCallbackDestination (e : CallbackDestination.Error)
| CallbackFailed (e : CallbackDestination.GoError)
| TemplateError
| Csrf (e : CsrfError)
| GrantNotFound
| GrantNotPending (id : Ulid)
| NoSuchClient (id : Ulid).

Inductive Response : Type :=
| AccountInactivePage (p : AccountInactive)
| ToLogin (grant : Ulid)
| PolicyViolation (grant : AuthorizationGrant.t) (client : Client.t) (violations : list string)
| ConsentForm (grant : AuthorizationGrant.t) (client : Client.t) (session : BrowserSession.t)
    (email : option string)
| Callback (r : CallbackDestination.Response).

Section Handlers.
Context {R : Type} `{!RngCore R, !RngBytes R, !Base64, !UlidText, !UrlLib, !JwksJson, !UrlEdit,
  !UrlEncoded, !Policy, !Keystore R, !PgCollation}.
Abbreviation Handler := (M (World R) RouteError) (only parsing).

Definition repo {A} (m : M (World R) DatabaseError A) : Handler A := mmap_err Internal m.
Definition require {A} (o : option A) (e : RouteError) : Handler A := lift (ok_or o e).

(** An answer that is a page: its template may fail. *)
Definition page (r : Response) : Handler Response := do! render_answer TemplateError; ret r.

(** [fetch_user_email] of handlers/src/pg_user_info.rs; an error is no address. *)
Definition fetch_user_email {E} (user : User.t) : M (World R) E (option string) := λ w,
  match UserEmailRepository.all user w with
  | (Ok emails, w') => (Ok (UserEmail.email <$> head emails), w')
  | (Err _, w') => (Ok None, w')
  end.

(** The policy on the grant of a user. *)
Definition violations_of (client : Client.t) (session : BrowserSession.t)
    (counts : SessionCounts) (grant : AuthorizationGrant.t) (ip : BoundActivityTracker)
    (user_agent : option string) : Handler (list string) :=
  require (evaluate_authorization_grant (Some (BrowserSession.user session)) client (Some counts)
    (AuthorizationGrant.scope grant) AuthorizationCode ip user_agent) EvaluationError.

Definition get (ip : BoundActivityTracker) (user_agent : option string) (jar : CookieJar)
    (grant_id : Ulid) : Handler Response :=
  do loaded <- repo (load_session_or_fallback jar);
  match loaded with
  | Fallback p => page (AccountInactivePage p)
  | MaybeSession maybe_session =>
      do grant <- repo (AuthorizationGrantRepository.lookup grant_id);
      do grant <- require grant GrantNotFound;
      do client <- repo (ClientRepository.lookup (AuthorizationGrant.client_id grant));
      do client <- require client (NoSuchClient (AuthorizationGrant.client_id grant));
      if negb (AuthorizationGrantStage.is_pending (AuthorizationGrant.stage grant))
      then fail (GrantNotPending (AuthorizationGrant.id grant)) else
      match maybe_session with
      | None => ret (ToLogin grant_id)
      | Some session =>
          do! Graphql.record_browser_session ip session;
          do! csrf_token jar;
          do counts <- repo (count_user_sessions_for_limiting (BrowserSession.user session));
          do email <- fetch_user_email (BrowserSession.user session);
          do! repo save;
          do violations <- violations_of client session counts grant ip user_agent;
          page (if decide (violations = []) then ConsentForm grant client session email
                else PolicyViolation grant client violations)
      end
  end.

Definition post (ip : BoundActivityTracker) (user_agent : option string) (jar : CookieJar)
    (csrf : string) (grant_id : Ulid) : Handler Response :=
  do! mmap_err Csrf (verify_form jar csrf);
  do loaded <- repo (load_session_or_fallback jar);
  match loaded with
  | Fallback p => page (AccountInactivePage p)
  | MaybeSession maybe_session =>
      do! csrf_token jar;
      do grant <- repo (AuthorizationGrantRepository.lookup grant_id);
      do grant <- require grant GrantNotFound;
      do destination <- lift (map_err IntoCallbackDestination (CallbackDestination.of_grant grant));
      match maybe_session with
      | None => ret (ToLogin grant_id)
      | Some browser_session =>
          do! Graphql.record_browser_session ip browser_session;
          do client <- repo (ClientRepository.lookup (AuthorizationGrant.client_id grant));
          do client <- require client (NoSuchClient (AuthorizationGrant.client_id grant));
          if negb (AuthorizationGrantStage.is_pending (AuthorizationGrant.stage grant))
          then fail (GrantNotPending (AuthorizationGrant.id grant)) else
          do counts <- repo (count_user_sessions_for_limiting (BrowserSession.user browser_session));
          do violations <- violations_of client browser_session counts grant ip user_agent;
          if negb (bool_decide (violations = []))
          then page (PolicyViolation grant client violations) else
          do grant <- repo (AuthorizationGrantRepository.fulfill browser_session grant);
          do id_token <-
            (if AuthorizationGrant.response_type_id_token grant
             then
               do last_authentication <-
                 repo (BrowserSessionRepository.get_last_authentication browser_session);
               do t <- mmap_err IdTokenError
                 (generate_id_token client (Some grant) browser_session None last_authentication);
               ret (Some t)
             else ret None);
          let code := AuthorizationCode.code <$> AuthorizationGrant.code grant in
          do! repo save;
          do r <- mmap_err CallbackFailed (CallbackDestination.go destination
                    (CallbackDestination.response_params code id_token));
          ret (Callback r)
      end
  end.

(** A request, from the opening of its transaction on. *)
Definition consent_get_request (ip : BoundActivityTracker) (user_agent : option string)
    (jar : CookieJar) (grant_id : Ulid) : Handler Response :=
  do! repo from_pool;
  get ip user_agent jar grant_id.

Definition consent_post_request (ip : BoundActivityTracker) (user_agent : option string)
    (jar : CookieJar) (csrf : string) (grant_id : Ulid) : Handler Response :=
  do! repo from_pool;
  post ip user_agent jar csrf grant_id.
End Handlers.
End ConsentPage.
