(* ===== verification/DeviceConsent.v ===== *)
(** * The pages of the device grant

    crates/handlers/src/oauth2/device: link.rs (the page where the user types
    the code of the device) and consent.rs (the page where the user agrees or
    refuses). *)

From stdpp Require Import base tactics list strings gmap.
From Stdlib Require Import ZArith Lia.
From S2P Require Import Prelude Text Scope Formats Externals Pagination TokenFormat DataModel CompatModel Storage TokenRepo GrantRepo QueueRepo UserRepo CompatRepo PersonalRepo Passwords ClientAuth TokenEndpoint GraphqlSession WebSession CompatEndpoints Authorization.
#[local] Open Scope Z_scope.

Module DeviceConsent.

Inductive Action : Type := Consent | Reject.

Record ConsentForm := mkConsentForm {
  action : Action;
  confirm_device : option string;
}.

(** The causes of an [InternalError]. *)
Inductive InternalError : Type :=
| Disabled
| Repository (e : DatabaseError)
| CsrfFailed (e : CsrfError)
| EvaluationFailed
| GrantNotFound
| GrantExpired
| ClientNotFound
| NotConfirmed
| TemplateError.

Inductive Response : Type :=
| AccountInactivePage (p : AccountInactive)
| ToLogin (grant : Ulid)
| PolicyViolation (grant : DeviceCodeGrant.t) (client : Client.t) (violations : list string)
| DevicePage (grant : DeviceCodeGrant.t) (client : Client.t) (session : BrowserSession.t)
    (email : option string)
| Deeplink (url : string)
| ToConsent (grant : Ulid)
| LinkForm (code : option string) (invalid : bool).

Section Handlers.
Context {R : Type} `{!RngCore R, !RngBytes R, !Base64, !UlidText, !UrlLib, !JwksJson, !Policy,
  !PgCollation, !UnicodeCase}.
Abbreviation Handler := (M (World R) InternalError) (only parsing).

Definition repo {A} (m : M (World R) DatabaseError A) : Handler A := mmap_err Repository m.
Definition require {A} (o : option A) (e : InternalError) : Handler A := lift (ok_or o e).
(** An answer that is a page: its template may fail. *)
Definition page (r : Response) : Handler Response := do! render_answer TemplateError; ret r.
Definition enabled (site_config : SiteConfig) : Handler unit :=
  if device_code_grant_enabled site_config then ret tt else fail Disabled.

(** What both pages read: the grant, which has not expired, its client, and
    the sessions of the user. *)
Definition load_grant (ip : BoundActivityTracker) (session : BrowserSession.t) (grant_id : Ulid) :
    Handler (DeviceCodeGrant.t * Client.t * SessionCounts) :=
  do! Graphql.record_browser_session ip session;
  do grant <- repo (DeviceCodeGrantRepository.lookup grant_id);
  do grant <- require grant GrantNotFound;
  do now_ <- now;
  if DeviceCodeGrant.expires_at grant <? now_ then fail GrantExpired else
  do client <- repo (ClientRepository.lookup (DeviceCodeGrant.client_id grant));
  do client <- require client ClientNotFound;
  do counts <- repo (count_user_sessions_for_limiting (BrowserSession.user session));
  ret (grant, client, counts).

Definition violations_of (client : Client.t) (session : BrowserSession.t)
    (counts : SessionCounts) (grant : DeviceCodeGrant.t) (ip : BoundActivityTracker)
    (user_agent : option string) : Handler (list string) :=
  require (evaluate_authorization_grant (Some (BrowserSession.user session)) client (Some counts)
    (DeviceCodeGrant.scope grant) DeviceCode ip user_agent) EvaluationFailed.

Definition get (ip : BoundActivityTracker) (site_config : SiteConfig) (user_agent : option string)
    (jar : CookieJar) (grant_id : Ulid) : Handler Response :=
  do! enabled site_config;
  do loaded <- repo (load_session_or_fallback jar);
  match loaded with
  | Fallback p => page (AccountInactivePage p)
  | MaybeSession maybe_session =>
      do! csrf_token jar;
      match maybe_session with
      | None => ret (ToLogin grant_id)
      | Some session =>
          do x <- load_grant ip session grant_id;
          let '(grant, client, counts) := x in
          do email <- ConsentPage.fetch_user_email (BrowserSession.user session);
          do! repo save;
          do violations <- violations_of client session counts grant ip user_agent;
          if negb (bool_decide (violations = []))
          then
            do! csrf_token jar;
            page (PolicyViolation grant client violations)
          else page (DevicePage grant client session email)
      end
  end.

(** The grant after the choice of the user; one that is not pending is left
    as it is. *)
Definition decide_grant (locale : string) (form : ConsentForm) (session : BrowserSession.t)
    (grant : DeviceCodeGrant.t) : Handler DeviceCodeGrant.t :=
  if DeviceCodeGrantState.is_pending (DeviceCodeGrant.state grant) then
    match action form with
    | Consent =>
        match confirm_device form with
        | None => fail NotConfirmed
        | Some _ => repo (DeviceCodeGrantRepository.fulfill grant session (Some locale))
        end
    | Reject => repo (DeviceCodeGrantRepository.reject grant session)
    end
  else ret grant.

(** The link into the application, from the schemes of the enabled upstream
    providers; [providers] is what reading them gives. *)
Definition redirect_url (form : ConsentForm) (grant : DeviceCodeGrant.t)
    (providers : result DatabaseError (list (option string))) : Handler (option string) :=
  match action form with
  | Consent =>
      if DeviceCodeGrantState.is_fulfilled (DeviceCodeGrant.state grant) then
        do providers <- repo (do! query; lift providers);
        ret ((λ pg_app_scheme, pg_app_scheme +:+ ":/qr-login-consent") <$> head (omap id providers))
      else ret None
  | Reject => ret None
  end.

(** The name of the user that the page shows is asked of the homeserver; it may
    be missing, and changes nothing else. *)
Definition post (ip : BoundActivityTracker) (site_config : SiteConfig) (locale : string)
    (providers : result DatabaseError (list (option string))) (user_agent : option string)
    (jar : CookieJar) (csrf : string) (form : ConsentForm) (grant_id : Ulid) : Handler Response :=
  do! enabled site_config;
  do! mmap_err CsrfFailed (verify_form jar csrf);
  do loaded <- repo (load_session_or_fallback jar);
  match loaded with
  | Fallback p => page (AccountInactivePage p)
  | MaybeSession maybe_session =>
      do! csrf_token jar;
      match maybe_session with
      | None => ret (ToLogin grant_id)
      | Some session =>
          do x <- load_grant ip session grant_id;
          let '(grant, client, counts) := x in
          do violations <- violations_of client session counts grant ip user_agent;
          if negb (bool_decide (violations = []))
          then
            do! csrf_token jar;
            page (PolicyViolation grant client violations)
          else
            do grant <- decide_grant locale form session grant;
            do redirect_url <- redirect_url form grant providers;
            do email <- ConsentPage.fetch_user_email (BrowserSession.user session);
            do! repo save;
            match redirect_url with
            | Some deeplink => ret (Deeplink deeplink)
            | None => page (DevicePage grant client session email)
            end
      end
  end.

(** ** The code of the device (link.rs) *)

Definition handle_code (jar : CookieJar) (code : option string) : Handler Response :=
  do found <-
    match code with
    | None => ret (None, false)
    | Some code =>
        do grant <- repo (DeviceCodeGrantRepository.find_by_user_code (str_to_uppercase code));
        match grant with
        | Some grant =>
            if DeviceCodeGrantState.is_pending (DeviceCodeGrant.state grant) then
              do now_ <- now;
              ret (if now_ <? DeviceCodeGrant.expires_at grant then (Some grant, false)
                   else (None, true))
            else ret (None, true)
        | None => ret (None, true)
        end
    end;
  match found with
  | (Some grant, _) => ret (ToConsent (DeviceCodeGrant.id grant))
  | (None, invalid) =>
      do! csrf_token jar;
      page (LinkForm code invalid)
  end.

Definition link_get (site_config : SiteConfig) (jar : CookieJar) (code : option string) :
    Handler Response :=
  do! enabled site_config;
  handle_code jar (if device_code_user_code_auto_fill_enabled site_config then code else None).

Definition link_post (site_config : SiteConfig) (jar : CookieJar) (csrf : string)
    (code : option string) : Handler Response :=
  do! enabled site_config;
  do! mmap_err CsrfFailed (verify_form jar csrf);
  handle_code jar code.

(** A request, from the opening of its transaction on. *)
Definition device_consent_request (ip : BoundActivityTracker) (site_config : SiteConfig)
    (locale : string) (providers : result DatabaseError (list (option string)))
    (user_agent : option string) (jar : CookieJar) (csrf : string) (form : ConsentForm)
    (grant_id : Ulid) : Handler Response :=
  do! repo from_pool;
  post ip site_config locale providers user_agent jar csrf form grant_id.

Definition device_page_request (ip : BoundActivityTracker) (site_config : SiteConfig)
    (user_agent : option string) (jar : CookieJar) (grant_id : Ulid) : Handler Response :=
  do! repo from_pool;
  get ip site_config user_agent jar grant_id.
End Handlers.
End DeviceConsent.
