(* ===== verification/ClientMetadata.v ===== *)
(** * The metadata of clients

    crates/oauth2-types/src/registration/mod.rs: what a client registers, the
    defaults of its fields, its validation and the order its lists are sorted
    in.  Algorithms, application and subject types are their texts (their
    parsers accept every text). *)

From stdpp Require Import base tactics list strings gmap sorting.
From Stdlib Require Import ZArith Lia Ascii.
From S2P Require Import Prelude Text Scope Externals Formats TokenFormat DataModel Storage CompatEndpoints WebSession Authorization.
Import Authorization.
#[local] Open Scope Z_scope.

(** A text in several languages; an [IndexMap] keeps its order. *)
Module Localized.
Record t (T : Type) := mk {
  non_localized : T;
  localized : list (string * T);
}.
Arguments mk {_}.
Arguments non_localized {_}.
Arguments localized {_}.

Definition iter {T} (l : t T) : list (option string * T) :=
  (None, non_localized l) :: ((λ kv, (Some kv.1, kv.2)) <$> localized l).
Definition get {T} (language : option string) (l : t T) : option T :=
  match language with
  | Some lang => snd <$> list_find (λ kv, kv.1 = lang) (localized l) ≫= λ x, Some x.2
  | None => Some (non_localized l)
  end.
Definition of_text {T} (n : T) : t T := mk n [].
End Localized.

(** [Display for ResponseType]. *)
Definition token_to_string (t : ResponseTypeToken) : string :=
  match t with
  | Code => "code" | IdToken => "id_token" | Token => "token" | Unknown s => s
  end.
Definition response_type_to_string (t : ResponseType) : string :=
  match t with [] => "none" | _ => join_char " "%char (token_to_string <$> t) end.

(** ** The orders the lists are sorted in *)

(** A derived [Ord]: the constructors in order, then their arguments. *)
Definition derived_compare (n m : nat) (a b : string) : comparison :=
  match Nat.compare n m with Eq => String.compare a b | c => c end.

Definition grant_type_index (g : GrantType) : nat :=
  match g with
  | AuthorizationCode => 0
  | RefreshTokenGrantType => 1
  | Implicit => 2
  | ClientCredentials => 3
  | PasswordGrantType => 4
  | DeviceCode => 5
  | JwtBearer => 6
  | ClientInitiatedBackchannelAuthentication => 7
  | UnknownGrantType _ => 8
  end.
Definition grant_type_compare (a b : GrantType) : comparison :=
  let text g := match g with UnknownGrantType s => s | _ => "" end in
  derived_compare (grant_type_index a) (grant_type_index b) (text a) (text b).

Definition token_compare (a b : ResponseTypeToken) : comparison :=
  let index t := match t with Code => 0 | IdToken => 1 | Token => 2 | Unknown _ => 3 end%nat in
  let text t := match t with Unknown s => s | _ => "" end in
  derived_compare (index a) (index b) (text a) (text b).

(** Sets are compared as the lists of their elements, in order. *)
Fixpoint response_type_compare (a b : ResponseType) : comparison :=
  match a, b with
  | [], [] => Eq
  | [], _ => Lt
  | _, [] => Gt
  | x :: a, y :: b =>
      match token_compare x y with Eq => response_type_compare a b | c => c end
  end.

Section Sort.
Context {A : Type} (compare : A → A → comparison).
Definition not_after (a b : A) : Prop := compare a b ≠ Gt.
#[export] Instance not_after_dec : RelDecision not_after.
Proof. intros a b. unfold not_after. destruct (compare a b); [left|left|right]; congruence. Defined.
(** [sort]. *)
Definition sort (l : list A) : list A := merge_sort not_after l.
End Sort.

Module ClientMetadata.
Record t := mk {
  redirect_uris : option (list Url);
  response_types : option (list ResponseType);
  grant_types : option (list GrantType);
  application_type : option string;
  contacts : option (list string);
  client_name : option (Localized.t string);
  logo_uri : option (Localized.t Url);
  client_uri : option (Localized.t Url);
  policy_uri : option (Localized.t Url);
  tos_uri : option (Localized.t Url);
  jwks_uri : option Url;
  jwks : option string;
  software_id : option string;
  software_version : option string;
  sector_identifier_uri : option Url;
  subject_type : option string;
  token_endpoint_auth_method : option OAuthClientAuthenticationMethod;
  token_endpoint_auth_signing_alg : option string;
  id_token_signed_response_alg : option string;
  id_token_encrypted_response_alg : option string;
  id_token_encrypted_response_enc : option string;
  userinfo_signed_response_alg : option string;
  userinfo_encrypted_response_alg : option string;
  userinfo_encrypted_response_enc : option string;
  request_object_signing_alg : option string;
  request_object_encryption_alg : option string;
  request_object_encryption_enc : option string;
  default_max_age : option Duration;
  require_auth_time : option bool;
  default_acr_values : option (list string);
  initiate_login_uri : option Url;
  request_uris : option (list Url);
  require_signed_request_object : option bool;
  require_pushed_authorization_requests : option bool;
  introspection_signed_response_alg : option string;
  introspection_encrypted_response_alg : option string;
  introspection_encrypted_response_enc : option string;
  post_logout_redirect_uris : option (list Url);
}.

(** [..Default::default()]. *)
Definition empty : t :=
  mk None None None None None None None None None None None None None None None None None None
    None None None None None None None None None None None None None None None None None None
    None None.

(** [sorted]. *)
Definition sort_localized {T} (l : Localized.t T) : Localized.t T :=
  Localized.mk (Localized.non_localized l)
    (sort (λ a b, String.compare a.1 b.1) (Localized.localized l)).
Definition sorted (m : t) : t :=
  mk (sort String.compare <$> redirect_uris m) (sort response_type_compare <$> response_types m)
    (sort grant_type_compare <$> grant_types m) (application_type m)
    (sort String.compare <$> contacts m) (sort_localized <$> client_name m)
    (sort_localized <$> logo_uri m) (sort_localized <$> client_uri m)
    (sort_localized <$> policy_uri m) (sort_localized <$> tos_uri m) (jwks_uri m) (jwks m)
    (software_id m) (software_version m) (sector_identifier_uri m) (subject_type m)
    (token_endpoint_auth_method m) (token_endpoint_auth_signing_alg m)
    (id_token_signed_response_alg m) (id_token_encrypted_response_alg m)
    (id_token_encrypted_response_enc m) (userinfo_signed_response_alg m)
    (userinfo_encrypted_response_alg m) (userinfo_encrypted_response_enc m)
    (request_object_signing_alg m) (request_object_encryption_alg m)
    (request_object_encryption_enc m) (default_max_age m) (require_auth_time m)
    (sort String.compare <$> default_acr_values m) (initiate_login_uri m)
    (sort String.compare <$> request_uris m) (require_signed_request_object m)
    (require_pushed_authorization_requests m) (introspection_signed_response_alg m)
    (introspection_encrypted_response_alg m) (introspection_encrypted_response_enc m)
    (sort String.compare <$> post_logout_redirect_uris m).

Definition with_grant_types (g : option (list GrantType)) (m : t) : t :=
  mk (redirect_uris m) (response_types m) g (application_type m) (contacts m) (client_name m)
    (logo_uri m) (client_uri m) (policy_uri m) (tos_uri m) (jwks_uri m) (jwks m) (software_id m)
    (software_version m) (sector_identifier_uri m) (subject_type m)
    (token_endpoint_auth_method m) (token_endpoint_auth_signing_alg m)
    (id_token_signed_response_alg m) (id_token_encrypted_response_alg m)
    (id_token_encrypted_response_enc m) (userinfo_signed_response_alg m)
    (userinfo_encrypted_response_alg m) (userinfo_encrypted_response_enc m)
    (request_object_signing_alg m) (request_object_encryption_alg m)
    (request_object_encryption_enc m) (default_max_age m) (require_auth_time m)
    (default_acr_values m) (initiate_login_uri m) (request_uris m)
    (require_signed_request_object m) (require_pushed_authorization_requests m)
    (introspection_signed_response_alg m) (introspection_encrypted_response_alg m)
    (introspection_encrypted_response_enc m) (post_logout_redirect_uris m).

(** [Client::into_metadata] of crates/data-model/src/oauth2/client.rs. *)
Definition of_client (c : Client.t) : t :=
  let jwks := match Client.jwks c with Some (Jwks j) => Some j | _ => None end in
  let jwks_uri := match Client.jwks c with Some (JwksUri u) => Some u | _ => None end in
  mk (Some (Client.redirect_uris c)) None (Some (Client.grant_types c))
    (Client.application_type c) None (Localized.of_text <$> Client.client_name c)
    (Localized.of_text <$> Client.logo_uri c) (Localized.of_text <$> Client.client_uri c)
    (Localized.of_text <$> Client.policy_uri c) (Localized.of_text <$> Client.tos_uri c)
    jwks_uri jwks None None None None (Client.token_endpoint_auth_method c)
    (Client.token_endpoint_auth_signing_alg c) (Client.id_token_signed_response_alg c) None None
    (Client.userinfo_signed_response_alg c) None None None None None None None None
    (Client.initiate_login_uri c) None None None None None None None.

(** ** Defaults *)

Definition DEFAULT_RESPONSE_TYPES : list ResponseType := [[Code]].
Definition DEFAULT_GRANT_TYPES : list GrantType := [AuthorizationCode].
Definition DEFAULT_APPLICATION_TYPE : string := "web".
Definition DEFAULT_TOKEN_AUTH_METHOD : OAuthClientAuthenticationMethod := ClientSecretBasic.
Definition DEFAULT_SIGNING_ALGORITHM : string := "RS256".
Definition DEFAULT_ENCRYPTION_ENC_ALGORITHM : string := "A128CBC-HS256".

Definition get_response_types (m : t) : list ResponseType :=
  default DEFAULT_RESPONSE_TYPES (response_types m).
Definition get_grant_types (m : t) : list GrantType :=
  default DEFAULT_GRANT_TYPES (grant_types m).
Definition get_application_type (m : t) : string :=
  default DEFAULT_APPLICATION_TYPE (application_type m).
Definition get_token_endpoint_auth_method (m : t) : OAuthClientAuthenticationMethod :=
  default DEFAULT_TOKEN_AUTH_METHOD (token_endpoint_auth_method m).
Definition get_id_token_signed_response_alg (m : t) : string :=
  default DEFAULT_SIGNING_ALGORITHM (id_token_signed_response_alg m).

(** [VerifiedClientMetadata::redirect_uris]. *)
Definition get_redirect_uris (m : t) : list Url := default [] (redirect_uris m).

(** The algorithms of an encrypted answer. *)
Definition encrypted (alg enc : option string) : option (string * string) :=
  (λ alg, (alg, default DEFAULT_ENCRYPTION_ENC_ALGORITHM enc)) <$> alg.
Definition id_token_encrypted_response (m : t) : option (string * string) :=
  encrypted (id_token_encrypted_response_alg m) (id_token_encrypted_response_enc m).
Definition userinfo_encrypted_response (m : t) : option (string * string) :=
  encrypted (userinfo_encrypted_response_alg m) (userinfo_encrypted_response_enc m).
Definition request_object_encryption (m : t) : option (string * string) :=
  encrypted (request_object_encryption_alg m) (request_object_encryption_enc m).
Definition introspection_encrypted_response (m : t) : option (string * string) :=
  encrypted (introspection_encrypted_response_alg m) (introspection_encrypted_response_enc m).

(** ** Validation *)

Inductive VerificationError : Type :=
| MissingRedirectUris
| RedirectUriWithFragment (u : Url)
| IncoherentResponseType (t : ResponseType)
| JwksUriAndJwksMutuallyExclusive
| UrlNonHttpsScheme (field : string) (u : Url)
| MissingJwksForTokenMethod
| UnauthorizedSigningAlgNone (endpoint : string)
| MissingAuthSigningAlg (endpoint : string)
| IdTokenSigningAlgNone
| MissingEncryptionAlg (field : string).

Definition has (g : GrantType) (m : t) : bool := bool_decide (g ∈ get_grant_types m).

(** The response types [validate] looks at. *)
Definition response_types_or_code (m : t) : list ResponseType :=
  match response_types m with
  | Some types => types
  | None =>
      if has AuthorizationCode m || has Implicit m then [[Code]] else []
  end.

Definition coherent (has_implicit has_authorization_code : bool) (r : ResponseType) : bool :=
  has_code r && (has_implicit && has_authorization_code)
  || negb (has_code r) && has_implicit
  || has_authorization_code && negb (has_id_token r) && negb (has_token r)
  || negb (has_code r) && negb (has_id_token r) && negb (has_token r).

(** [Err] unless the condition holds. *)
Definition ensure {E} (b : bool) (e : E) : result E unit := if b then Ok tt else Err e.

(** An encryption method needs an algorithm. *)
Definition check_encryption (field : string) (alg enc : option string) :
    result VerificationError unit :=
  ensure (bool_decide (enc = None) || bool_decide (is_Some alg)) (MissingEncryptionAlg field).

Section Validate.
Context `{!UrlEdit, !UrlSplit}.

Definition check_https (field : string) (u : option Url) : result VerificationError unit :=
  match u with
  | Some u => ensure (bool_decide (url_scheme (url_parts u) = "https")) (UrlNonHttpsScheme field u)
  | None => Ok tt
  end.

Definition check_redirect_uris (m : t) : result VerificationError unit :=
  match redirect_uris m with
  | Some uris =>
      match list_find (λ u, is_Some (url_fragment u)) uris with
      | Some (_, u) => Err (RedirectUriWithFragment u)
      | None => Ok tt
      end
  | None => ensure (negb (has AuthorizationCode m || has Implicit m)) MissingRedirectUris
  end.

Definition check_response_types (m : t) : result VerificationError unit :=
  match list_find (λ r, coherent (has Implicit m) (has AuthorizationCode m) r = false)
          (response_types_or_code m) with
  | Some (_, r) => Err (IncoherentResponseType r)
  | None => Ok tt
  end.

Definition check_auth_signing_alg (m : t) : result VerificationError unit :=
  match token_endpoint_auth_signing_alg m with
  | Some alg =>
      ensure (negb (bool_decide (alg = "none"))) (UnauthorizedSigningAlgNone "token_endpoint")
  | None =>
      ensure (negb (bool_decide (get_token_endpoint_auth_method m ∈ [PrivateKeyJwt; ClientSecretJwt])))
        (MissingAuthSigningAlg "token_endpoint")
  end.

(** [ClientMetadata::validate]; the metadata are verified as they are. *)
Definition validate (m : t) : result VerificationError t :=
  try _ <- check_redirect_uris m;
  try _ <- check_response_types m;
  try _ <- ensure (negb (bool_decide (is_Some (jwks_uri m)) && bool_decide (is_Some (jwks m))))
    JwksUriAndJwksMutuallyExclusive;
  try _ <- check_https "sector_identifier_uri" (sector_identifier_uri m);
  try _ <- ensure (negb (bool_decide (get_token_endpoint_auth_method m = PrivateKeyJwt)
                     && bool_decide (jwks_uri m = None) && bool_decide (jwks m = None)))
    MissingJwksForTokenMethod;
  try _ <- check_auth_signing_alg m;
  try _ <- ensure (negb (bool_decide (get_id_token_signed_response_alg m = "none")
                     && existsb has_id_token (response_types_or_code m)))
    IdTokenSigningAlgNone;
  try _ <- check_encryption "id_token" (id_token_encrypted_response_alg m)
    (id_token_encrypted_response_enc m);
  try _ <- check_encryption "userinfo" (userinfo_encrypted_response_alg m)
    (userinfo_encrypted_response_enc m);
  try _ <- check_encryption "request_object" (request_object_encryption_alg m)
    (request_object_encryption_enc m);
  try _ <- check_https "initiate_login_uri" (initiate_login_uri m);
  try _ <- check_encryption "introspection" (introspection_encrypted_response_alg m)
    (introspection_encrypted_response_enc m);
  Ok m.
End Validate.
End ClientMetadata.
