(* ===== verification/Registration.v ===== *)
(** * The registration of clients

    crates/handlers/src/oauth2/registration.rs and the writes of
    crates/storage-pg/src/oauth2/client.rs. *)

From stdpp Require Import base tactics list strings gmap.
From Stdlib Require Import ZArith Lia.
From S2P Require Import Prelude Text Scope Formats Externals TokenFormat DataModel Storage UserRepo ClientAuth TokenEndpoint CompatEndpoints Authorization ClientMetadata Passwords.
#[local] Open Scope Z_scope.

Definition OAuthClientAuthenticationMethod_to_string (m : OAuthClientAuthenticationMethod) :
    string :=
  match m with
  | NoAuthentication => "none"
  | ClientSecretPost => "client_secret_post"
  | ClientSecretBasic => "client_secret_basic"
  | ClientSecretJwt => "client_secret_jwt"
  | PrivateKeyJwt => "private_key_jwt"
  | TlsClientAuth => "tls_client_auth"
  | SelfSignedTlsClientAuth => "self_signed_tls_client_auth"
  | UnknownAuthenticationMethod s => s
  end.

(** ** Writes of the repository *)
Module ClientWrites.
Section Ops.
Context {R : Type} `{!RngCore R, !UrlLib, !UlidText, !JwksJson}.
Abbreviation Repo := (M (World R) DatabaseError) (only parsing).

Definition find_by_metadata_digest (digest : string) : Repo (option Client.t) :=
  do res <- select (find_row (λ r, bool_decide (OAuth2ClientLookup.metadata_digest r = Some digest)));
  decode_row ClientRepository.try_from res.

(** The key set or its location, of the two columns. *)
Definition jwks_of (jwks jwks_uri : option string) : result DatabaseError (option JwksOrJwksUri) :=
  match jwks, jwks_uri with
  | None, None => Ok None
  | Some jwks, None => Ok (Some (Jwks jwks))
  | None, Some jwks_uri => Ok (Some (JwksUri jwks_uri))
  | _, _ => Err InvalidOperation
  end.

Definition contains (g : GrantType) (l : list GrantType) : bool := bool_decide (g ∈ l).

Definition add (redirect_uris : list Url) (metadata_digest encrypted_client_secret
    application_type : option string) (grant_types : list GrantType) (client_name : option string)
    (logo_uri client_uri policy_uri tos_uri jwks_uri : option Url) (jwks : option string)
    (id_token_signed_response_alg userinfo_signed_response_alg : option string)
    (token_endpoint_auth_method : option OAuthClientAuthenticationMethod)
    (token_endpoint_auth_signing_alg : option string) (initiate_login_uri : option Url) :
    Repo Client.t :=
  do now_ <- now;
  do id <- with_rng (from_datetime_with_rng now_);
  do! execute (insert_stmt id
    (OAuth2ClientLookup.mk id metadata_digest encrypted_client_secret application_type
       redirect_uris (contains AuthorizationCode grant_types)
       (contains RefreshTokenGrantType grant_types) (contains ClientCredentials grant_types)
       (contains DeviceCode grant_types) client_name logo_uri client_uri policy_uri tos_uri
       jwks_uri jwks id_token_signed_response_alg userinfo_signed_response_alg
       (OAuthClientAuthenticationMethod_to_string <$> token_endpoint_auth_method)
       token_endpoint_auth_signing_alg initiate_login_uri false)
    (λ d, match metadata_digest with
          | Some digest => unique_value OAuth2ClientLookup.metadata_digest digest d
          | None => true
          end));
  do jwks <- lift (jwks_of jwks jwks_uri);
  ret (Client.mk id (ulid_to_string id) None encrypted_client_secret application_type redirect_uris
         grant_types client_name logo_uri client_uri policy_uri tos_uri jwks
         id_token_signed_response_alg userinfo_signed_response_alg token_endpoint_auth_method
         token_endpoint_auth_signing_alg initiate_login_uri false).

(** [INSERT ... ON CONFLICT (oauth2_client_id) DO UPDATE]: the columns that
    are not given keep their value, or are [NULL] in a new row. *)
Definition upsert_row (client_id : Ulid) (client_name client_uri : option string)
    (method : string) (secret jwks jwks_uri : option string) (redirect_uris : list string)
    (old : option OAuth2ClientLookup.t) : OAuth2ClientLookup.t :=
  let keep {A} (f : OAuth2ClientLookup.t → option A) : option A := old ≫= f in
  OAuth2ClientLookup.mk client_id (keep OAuth2ClientLookup.metadata_digest) secret
    (keep OAuth2ClientLookup.application_type) redirect_uris true true true true client_name
    (keep OAuth2ClientLookup.logo_uri) client_uri (keep OAuth2ClientLookup.policy_uri)
    (keep OAuth2ClientLookup.tos_uri) jwks_uri jwks
    (keep OAuth2ClientLookup.id_token_signed_response_alg)
    (keep OAuth2ClientLookup.userinfo_signed_response_alg) (Some method)
    (keep OAuth2ClientLookup.token_endpoint_auth_signing_alg)
    (keep OAuth2ClientLookup.initiate_login_uri) true.

Definition upsert_stmt (client_id : Ulid) (f : option OAuth2ClientLookup.t → OAuth2ClientLookup.t)
    (d : Db) : option (nat * Db) :=
  Some (1%nat, set_rows (<[client_id := f (rows d !! client_id)]> (rows d)) d).

Definition upsert_static (client_id : Ulid) (client_name : option string) (client_uri : option Url)
    (client_auth_method : OAuthClientAuthenticationMethod) (encrypted_client_secret jwks : option string)
    (jwks_uri : option Url) (redirect_uris : list Url) : Repo Client.t :=
  do! execute (upsert_stmt client_id (upsert_row client_id client_name client_uri
    (OAuthClientAuthenticationMethod_to_string client_auth_method) encrypted_client_secret jwks
    jwks_uri redirect_uris));
  do jwks <- lift (jwks_of jwks jwks_uri);
  ret (Client.mk client_id (ulid_to_string client_id) None encrypted_client_secret None
         redirect_uris [AuthorizationCode; RefreshTokenGrantType; ClientCredentials] client_name
         None None None None jwks None None None None None true).

Definition all_static : Repo (list Client.t) :=
  do res <- select (λ d, filter (λ r, OAuth2ClientLookup.is_static r = true)
                           (map_to_list (rows (Row := OAuth2ClientLookup.t) d)).*2);
  lift (map_err Inconsistency (collect ClientRepository.try_from res)).
End Ops.
End ClientWrites.

(** ** The endpoint *)

(** [psl]: the suffix of a host and whether it is a known one; [hex] and the
    JSON text of metadata; the policy on registrations. *)
Class PublicSuffixes := psl_suffix : string → option (string * bool).
Class Hex := hex_encode : string → string.
Class MetadataJson := metadata_to_string : ClientMetadata.t → option string.
Class RegistrationPolicy := evaluate_client_registration :
  ClientMetadata.t → BoundActivityTracker → option string → option (list string).

Module Registration.

Inductive JsonRejection : Type := JsonDataError (text : string) | OtherRejection.

Inductive RouteError : Type :=
| Internal (e : DatabaseError)
| EvaluationError
| EncryptionError
| SerializationError
| JsonExtract (e : JsonRejection)
| InvalidClientMetadata (e : ClientMetadata.VerificationError)
| UrlIsPublicSuffix (field : string)
| PolicyDenied (violations : list string).

(** The texts of the errors of [validate]. *)
Definition verification_text (e : ClientMetadata.VerificationError) : string :=
  match e with
  | ClientMetadata.MissingRedirectUris => "redirect URIs are missing"
  | ClientMetadata.RedirectUriWithFragment u => "redirect URI with fragment: " +:+ u
  | ClientMetadata.IncoherentResponseType t =>
      "'" +:+ response_type_to_string t +:+ "' response type not compatible with grant types"
  | ClientMetadata.JwksUriAndJwksMutuallyExclusive => "jwks_uri and jwks are mutually exclusive"
  | ClientMetadata.UrlNonHttpsScheme f u =>
      f +:+ "'s URL doesn't use a https scheme: " +:+ u
  | ClientMetadata.MissingJwksForTokenMethod => "missing JWK Set for token auth method"
  | ClientMetadata.UnauthorizedSigningAlgNone e => "none signing alg unauthorized for " +:+ e
  | ClientMetadata.MissingAuthSigningAlg e => e +:+ " missing auth signing algorithm"
  | ClientMetadata.IdTokenSigningAlgNone => "ID Token signing alg is none"
  | ClientMetadata.MissingEncryptionAlg f => f +:+ " missing encryption alg value"
  end.

(** [s.contains(t)]. *)
Definition contains_text (t s : string) : bool :=
  match String.index 0 t s with Some _ => true | None => false end.
(** [texts.join("; ")]. *)
Fixpoint join_texts (l : list string) : string :=
  match l with [] => "" | [s] => s | s :: l => s +:+ "; " +:+ join_texts l end.

Definition into_response (e : RouteError) : Z * ClientError :=
  let invalid code text := (400, with_description text (client_error code)) in
  match e with
  | Internal _ | EvaluationError | EncryptionError | SerializationError =>
      (500, client_error ClientErrorCode.ServerError)
  | JsonExtract (JsonDataError text) => invalid ClientErrorCode.InvalidClientMetadata text
  | JsonExtract OtherRejection => (400, client_error ClientErrorCode.InvalidRequest)
  | InvalidClientMetadata
      (ClientMetadata.MissingRedirectUris | ClientMetadata.RedirectUriWithFragment _) =>
      (400, client_error ClientErrorCode.InvalidRedirectUri)
  | InvalidClientMetadata e =>
      invalid ClientErrorCode.InvalidClientMetadata (verification_text e)
  | UrlIsPublicSuffix field =>
      if decide (field = "redirect_uri")
      then invalid ClientErrorCode.InvalidRedirectUri "redirect_uri is not using a valid domain"
      else invalid ClientErrorCode.InvalidClientMetadata (field +:+ " is not using a valid domain")
  | PolicyDenied violations =>
      invalid (if existsb (contains_text "redirect_uri") violations
               then ClientErrorCode.InvalidRedirectUri else ClientErrorCode.InvalidClientMetadata)
        (join_texts violations)
  end.

(** [ClientRegistrationResponse], with the metadata of the client. *)
Record Response := mkResponse {
  client_id : string;
  client_secret : option string;
  client_id_issued_at : option DateTime;
  client_secret_expires_at : option DateTime;
  metadata : ClientMetadata.t;
}.

Section Handlers.
Context {R : Type} `{!RngCore R, !UrlLib, !UlidText, !JwksJson, !UrlEdit, !UrlSplit, !Sha2, !Aead,
  !Base64Std, !PublicSuffixes, !Hex, !MetadataJson, !RegistrationPolicy}.
Abbreviation Handler := (M (World R) RouteError) (only parsing).

Definition repo {A} (m : M (World R) DatabaseError A) : Handler A := mmap_err Internal m.
Definition require {A} (o : option A) (e : RouteError) : Handler A := lift (ok_or o e).

Definition host_is_public_suffix (url : Url) : bool :=
  let host := default "" (url_host_str url) in
  match psl_suffix host with
  | None => false
  | Some (suffix, is_known) =>
      is_known && (String.length host <=? String.length suffix + 1)%nat
  end.

Definition localised_url_has_public_suffix (url : Localized.t Url) : bool :=
  existsb (λ x, host_is_public_suffix x.2) (Localized.iter url).

(** [UrlIsPublicSuffix], in the order the fields are checked. *)
Definition public_suffix_field (m : ClientMetadata.t) : option string :=
  let bad (o : option (Localized.t Url)) : bool :=
    match o with Some u => localised_url_has_public_suffix u | None => false end in
  if bad (ClientMetadata.client_uri m) then Some "client_uri"
  else if bad (ClientMetadata.logo_uri m) then Some "logo_uri"
  else if bad (ClientMetadata.policy_uri m) then Some "policy_uri"
  else if bad (ClientMetadata.tos_uri m) then Some "tos_uri"
  else if match ClientMetadata.initiate_login_uri m with
          | Some u => host_is_public_suffix u | None => false end then Some "initiate_login_uri"
  else if existsb host_is_public_suffix (ClientMetadata.get_redirect_uris m)
  then Some "redirect_uri" else None.

(** The device grant is dropped where it is disabled. *)
Definition drop_device_code (site_config : SiteConfig) (m : ClientMetadata.t) : ClientMetadata.t :=
  if device_code_grant_enabled site_config then m
  else ClientMetadata.with_grant_types
         (filter (λ g, g ≠ DeviceCode) <$> ClientMetadata.grant_types m) m.

(** The secret of the client and its encryption. *)
Definition client_secret_of (nonce : string) (m : ClientMetadata.t) :
    Handler (option (string * string)) :=
  match ClientMetadata.token_endpoint_auth_method m with
  | Some (ClientSecretJwt | ClientSecretPost | ClientSecretBasic) =>
      do client_secret <- with_rng (sample_alphanumeric 20);
      do encrypted <- require (Encrypter.encrypt_to_string nonce client_secret) EncryptionError;
      ret (Some (client_secret, encrypted))
  | _ => ret None
  end.

(** The client of verified metadata: the one that was registered with the
    same metadata, if it has no secret, or a new one. *)
Definition client_of (metadata : ClientMetadata.t) (body_json : string)
    (secret : option (string * string)) : Handler Client.t :=
  let text {T} (o : option (Localized.t T)) : option T := Localized.non_localized <$> o in
  do found <-
    match secret with
    | None =>
        let hash := hex_encode (sha256 body_json) in
        do client <- repo (ClientWrites.find_by_metadata_digest hash);
        ret (Some hash, client)
    | Some _ => ret (None, None)
    end;
  match found with
  | (_, Some client) => ret client
  | (digest_hash, None) =>
      repo (ClientWrites.add (ClientMetadata.get_redirect_uris metadata) digest_hash
        (snd <$> secret) (ClientMetadata.application_type metadata)
        (ClientMetadata.get_grant_types metadata) (text (ClientMetadata.client_name metadata))
        (text (ClientMetadata.logo_uri metadata)) (text (ClientMetadata.client_uri metadata))
        (text (ClientMetadata.policy_uri metadata)) (text (ClientMetadata.tos_uri metadata))
        (ClientMetadata.jwks_uri metadata) (ClientMetadata.jwks metadata)
        (ClientMetadata.id_token_signed_response_alg metadata)
        (ClientMetadata.userinfo_signed_response_alg metadata)
        (ClientMetadata.token_endpoint_auth_method metadata)
        (ClientMetadata.token_endpoint_auth_signing_alg metadata)
        (ClientMetadata.initiate_login_uri metadata))
  end.

Definition post (ip : BoundActivityTracker) (site_config : SiteConfig)
    (user_agent : option string) (nonce : string)
    (body : result JsonRejection ClientMetadata.t) : Handler Response :=
  do body <- lift (map_err JsonExtract body);
  let body := ClientMetadata.sorted body in
  do body_json <- require (metadata_to_string body) SerializationError;
  let body := drop_device_code site_config body in
  do metadata <- lift (map_err InvalidClientMetadata (ClientMetadata.validate body));
  do! match public_suffix_field metadata with
      | Some field => fail (UrlIsPublicSuffix field)
      | None => ret tt
      end;
  do violations <- require (evaluate_client_registration metadata ip user_agent) EvaluationError;
  if negb (bool_decide (violations = [])) then fail (PolicyDenied violations) else
  do secret <- client_secret_of nonce metadata;
  do client <- client_of metadata body_json secret;
  do metadata <- lift (map_err InvalidClientMetadata
                         (ClientMetadata.validate (ClientMetadata.of_client client)));
  do! repo save;
  ret (mkResponse (Client.client_id client) (fst <$> secret)
         (Some (datetime_utc (Client.id client))) None metadata).

(** A request, from the opening of its transaction on. *)
Definition registration_request (ip : BoundActivityTracker) (site_config : SiteConfig)
    (user_agent : option string) (nonce : string)
    (body : result JsonRejection ClientMetadata.t) : Handler Response :=
  do! repo from_pool;
  post ip site_config user_agent nonce body.
End Handlers.
End Registration.
