(* ===== verification/RegisterForms.v ===== *)
(** * What the pages of accounts are checked with

    The state of a form (crates/templates/src/forms.rs), the CAPTCHA
    (crates/handlers/src/captcha.rs), the rate limits of registration, email
    authentication and recovery (crates/handlers/src/rate_limit.rs) and the cookie
    of the registrations a browser has started
    (crates/handlers/src/views/register/cookie.rs). *)

From stdpp Require Import base tactics list strings gmap.
From Stdlib Require Import ZArith Lia Ascii String.
From S2P Require Import Prelude Text Externals Formats DataModel AccountModel WebSession.
#[local] Open Scope Z_scope.

(** The parser of addresses of [lettre], and [DataLocale] of [icu]. *)
Class AddressParser := is_address : string → bool.
Class LocaleParser := is_locale : string → bool.

(** ** Forms (forms.rs) *)

Inductive FieldError : Type :=
| Required
| Unspecified
| Invalid
| FieldPasswordMismatch
| Exists
| FieldPolicy (code : option string) (message : string).

Inductive FormError : Type :=
| InvalidCredentials
| FormPasswordMismatch
| InternalFormError
| RateLimitExceeded
| FormPolicy (code : option string) (message : string)
| Captcha.

(** [FormField]: the fields whose values are shown again. *)
Class FormField (K : Type) := keep : K → bool.

Module FormState.
Record t (K : Type) := mk {
  values : list (K * option string);
  field_errors : list (K * FieldError);
  errors : list FormError;
  has_errors : bool;
}.
Arguments mk {K} _ _ _ _.
Arguments values {K} _.
Arguments field_errors {K} _.
Arguments errors {K} _.
Arguments has_errors {K} _.

Section FormState.
Context {K : Type} `{!FormField K}.

Definition empty : t K := mk [] [] [] false.
Definition from_form (form : list (K * string)) : t K :=
  mk ((λ kv, (kv.1, if keep kv.1 then Some kv.2 else None)) <$> form) [] [] false.
Definition add_error_on_field (field : K) (e : FieldError) (s : t K) : t K :=
  mk (values s) (field_errors s ++ [(field, e)]) (errors s) true.
Definition add_error_on_form (e : FormError) (s : t K) : t K :=
  mk (values s) (field_errors s) (errors s ++ [e]) true.
Definition set_value `{!EqDecision K} (field : K) (value : option string) (s : t K) : t K :=
  mk ((field, value) :: filter (λ kv, kv.1 ≠ field) (values s)) (field_errors s) (errors s)
    (has_errors s).
Definition has_value `{!EqDecision K} (field : K) (s : t K) : bool :=
  existsb (λ kv, bool_decide (kv.1 = field) && bool_decide (is_Some kv.2)) (values s).
Definition is_valid (s : t K) : bool := negb (has_errors s).
End FormState.
End FormState.

(** [str::trim]: the code points with the property [White_Space], in UTF-8. *)
Definition utf8 (bytes : list Z) : string :=
  string_of_list_ascii ((λ b, ascii_of_nat (Z.to_nat b)) <$> bytes).
Definition WHITE_SPACE : list string := utf8 <$>
  ([[9]; [10]; [11]; [12]; [13]; [32]; [194; 133]; [194; 160]; [225; 154; 128];
    [226; 128; 168]; [226; 128; 169]; [226; 128; 175]; [226; 129; 159]; [227; 128; 128]]
   ++ ((λ k, [226; 128; k]) <$> [128; 129; 130; 131; 132; 133; 134; 135; 136; 137; 138])).

Definition strip_one (codes : list string) (s : string) : option string :=
  head (omap (λ c, if prefix c s then Some (String.substring (String.length c) (String.length s) s)
                   else None) codes).
Fixpoint strip_all (codes : list string) (fuel : nat) (s : string) : string :=
  match fuel with
  | O => s
  | S fuel => match strip_one codes s with
              | Some s' => strip_all codes fuel s'
              | None => s
              end
  end.
Definition str_rev (s : string) : string := string_of_list_ascii (reverse (list_ascii_of_string s)).
Definition str_trim (s : string) : string :=
  let s := strip_all WHITE_SPACE (String.length s) s in
  str_rev (strip_all (str_rev <$> WHITE_SPACE) (String.length s) (str_rev s)).

Example trims : str_trim (utf8 [32; 97; 32; 98; 226; 128; 175; 10]) = "a b"%string.
Proof. vm_compute. reflexivity. Qed.

(** ** CAPTCHA (captcha.rs) *)

Inductive CaptchaService : Type := RecaptchaV2 | CloudflareTurnstile | HCaptcha.
#[export] Instance CaptchaService_eq_dec : EqDecision CaptchaService.
Proof. solve_decision. Defined.

Record CaptchaConfig := mkCaptchaConfig {
  service : CaptchaService;
  site_key : string;
  secret_key : string;
}.

Record VerificationResponse := mkVerificationResponse {
  success : bool;
  error_codes : option (list string);
  challenge_ts : option string;
  hostname : option string;
}.

(** The request to the service, with the secret and the response; [None] when it
    cannot be reached or does not answer in JSON. *)
Class CaptchaApi := siteverify :
  CaptchaService → string → string → option IpAddr → option VerificationResponse.

Inductive CaptchaError : Type :=
| MissingCaptchaResponse
| NoCaptchaConfigured
| CaptchaResponseMismatch
| InvalidCaptcha (codes : list string)
| InvalidResponse
| HostnameMismatch (expected got : string)
| RequestFailed.

Module CaptchaForm.
Record t := mk {
  g_recaptcha_response : option string;
  h_captcha_response : option string;
  cf_turnstile_response : option string;
}.

(** The response for the configured service. *)
Definition response_for (f : t) (s : CaptchaService) : result CaptchaError string :=
  match s, g_recaptcha_response f, h_captcha_response f, cf_turnstile_response f with
  | _, None, None, None => Err MissingCaptchaResponse
  | RecaptchaV2, Some response, None, None => Ok response
  | HCaptcha, None, Some response, None => Ok response
  | CloudflareTurnstile, None, None, Some response => Ok response
  | _, _, _, _ => Err CaptchaResponseMismatch
  end.

Definition verify `{!CaptchaApi} (f : t) (remoteip : option IpAddr) (site_hostname : string)
    (config : option CaptchaConfig) : result CaptchaError unit :=
  match config with
  | None =>
      if bool_decide (is_Some (g_recaptcha_response f))
         || bool_decide (is_Some (h_captcha_response f))
         || bool_decide (is_Some (cf_turnstile_response f))
      then Err NoCaptchaConfigured
      else Ok tt
  | Some config =>
      try response <- response_for f (service config);
      try response <-
        ok_or (siteverify (service config) (secret_key config) response remoteip) RequestFailed;
      if negb (success response) then Err (InvalidCaptcha (default [] (error_codes response))) else
      try got <- ok_or (hostname response) InvalidResponse;
      try _ <- ok_or (challenge_ts response) InvalidResponse;
      if decide (got = site_hostname) then Ok tt else Err (HostnameMismatch site_hostname got)
  end.
End CaptchaForm.

(** ** Rate limits (rate_limit.rs) *)

(** [str::to_lowercase]: the Unicode mapping. *)
Class UnicodeLower := str_to_lowercase : string → string.

(** The keyed limiters of [governor]: whether the next check of a key passes. *)
Class AccountLimits := {
  account_recovery_per_requester : option IpAddr → bool;
  account_recovery_per_email : string → bool;
  registration_per_requester : option IpAddr → bool;
  email_authentication_per_requester : option IpAddr → bool;
  email_authentication_per_email : string → bool;
  email_authentication_emails_per_session : Ulid → bool;
  email_authentication_attempt_per_session : Ulid → bool;
}.

Inductive AccountRecoveryLimitedError : Type :=
| RecoveryRequester (requester : option IpAddr)
| RecoveryEmail (email : string).

Inductive RegistrationLimitedError : Type := RegistrationRequester (requester : option IpAddr).

Inductive EmailAuthenticationLimitedError : Type :=
| EmailRequester (requester : option IpAddr)
| EmailAuthenticationLimited (id : Ulid)
| EmailAddress (email : string).

Section Limits.
Context `{!AccountLimits, !UnicodeLower}.

Definition check_account_recovery (requester : option IpAddr) (email_address : string) :
    result AccountRecoveryLimitedError unit :=
  if account_recovery_per_requester requester then
    let canonical_email := str_to_lowercase email_address in
    if account_recovery_per_email canonical_email then Ok tt
    else Err (RecoveryEmail canonical_email)
  else Err (RecoveryRequester requester).

Definition check_registration (requester : option IpAddr) : result RegistrationLimitedError unit :=
  if registration_per_requester requester then Ok tt else Err (RegistrationRequester requester).

Definition check_email_authentication_email (requester : option IpAddr) (email : string) :
    result EmailAuthenticationLimitedError unit :=
  if email_authentication_per_requester requester then
    let canonical_email := str_to_lowercase email in
    if email_authentication_per_email canonical_email then Ok tt else Err (EmailAddress email)
  else Err (EmailRequester requester).

Definition check_email_authentication_attempt (a : UserEmailAuthentication.t) :
    result EmailAuthenticationLimitedError unit :=
  if email_authentication_attempt_per_session (UserEmailAuthentication.id a) then Ok tt
  else Err (EmailAuthenticationLimited (UserEmailAuthentication.id a)).

Definition check_email_authentication_send_code (requester : option IpAddr)
    (a : UserEmailAuthentication.t) : result EmailAuthenticationLimitedError unit :=
  try _ <- check_email_authentication_email requester (UserEmailAuthentication.email a);
  if email_authentication_emails_per_session (UserEmailAuthentication.id a) then Ok tt
  else Err (EmailAuthenticationLimited (UserEmailAuthentication.id a)).
End Limits.

(** ** The registrations of a browser (cookie.rs) *)
Module UserRegistrationSessions.

Definition t : Type := gset Z.
Inductive NotFound : Type := UserRegistrationSessionNotFound.

Definition SESSION_MAX_TIME : Duration := 3600 * 1000000.

(** A cookie that does not decode is none. *)
Definition load (cookie : result unit (option t)) : t :=
  match cookie with
  | Ok (Some sessions) => sessions
  | Ok None | Err _ => ∅
  end.

(** The milliseconds of an identifier have 48 bits: they are a date. *)
Definition expire (sessions : t) (now : DateTime) : t :=
  filter (λ id, now - datetime_utc id < SESSION_MAX_TIME) sessions.

(** What the cookie is set to; an empty one is removed. *)
Definition save (sessions : t) (now : DateTime) : result unit (option t) :=
  let this := expire sessions now in
  Ok (if decide (this = ∅) then None else Some this).

Definition add (r : UserRegistration.t) (sessions : t) : t :=
  {[UserRegistration.id r]} ∪ sessions.
Definition contains (r : UserRegistration.t) (sessions : t) : bool :=
  bool_decide (UserRegistration.id r ∈ sessions).
Definition consume_session (r : UserRegistration.t) (sessions : t) : result NotFound t :=
  if contains r sessions then Ok (sessions ∖ {[UserRegistration.id r]})
  else Err UserRegistrationSessionNotFound.
End UserRegistrationSessions.

(** The cookies of a browser that may be registering. *)
Record RegisterJar := mkRegisterJar {
  jar : CookieJar;
  registrations : result unit (option UserRegistrationSessions.t);
}.
