(* ===== verification/Register.v ===== *)
(** * Registration of a user

    crates/handlers/src/views/register: the start of a registration (mod.rs and
    password.rs) and its steps (steps/finish.rs, verify_email.rs,
    registration_token.rs and display_name.rs), with the action that is resumed
    afterwards (crates/handlers/src/views/shared.rs).  A page is the value its
    template is given. *)

From stdpp Require Import base tactics list strings gmap.
From Stdlib Require Import ZArith Lia.
From S2P Require Import Prelude Text Scope Externals Formats Pagination TokenFormat DataModel CompatModel UpstreamModel AccountModel Storage TokenRepo GrantRepo QueueRepo UserRepo UpstreamRepo AccountRepo CompatRepo Jobs Passwords ClientAuth TokenEndpoint GraphqlSession WebSession CompatEndpoints RegisterForms.
#[local] Open Scope Z_scope.

(** The settings of the site these handlers read (data-model/src/site_config.rs),
    with the host of the public URL. *)
Record AccountConfig := mkAccountConfig {
  password_registration_enabled : bool;
  password_registration_email_required : bool;
  password_registration_token_required : bool;
  registration_token_required : bool;
  account_recovery_allowed : bool;
  password_login_enabled : bool;
  login_with_email_allowed : bool;
  password_change_allowed : bool;
  email_change_allowed : bool;
  account_deactivation_allowed : bool;
  tos_uri : option Url;
  captcha : option CaptchaConfig;
  public_hostname : string;
}.

(** Whether the homeserver says that a localpart may be taken. *)
Class FreeLocalparts := free_localpart : string → bool.

(** A violation of the policy on registrations, and its evaluation on the
    username, the address and the requester; [None] when it fails. *)
Record RegisterViolation := mkRegisterViolation {
  msg : string;
  field : option string;
  code : option string;
}.
Class RegisterPolicy := evaluate_register :
  string → option string → option IpAddr → option string → option (list RegisterViolation).

(** The causes of an [InternalError]. *)
Inductive InternalError : Type :=
| Repository (e : DatabaseError)
| Anyhow (message : string)
| SerdeJson
| CsrfFailed (e : CsrfError)
| HomeserverFailure (e : HomeserverError)
| PasswordFailure (e : PasswordError)
| EvaluationFailed
| TemplateError
| RegistrationNotInCookie (e : UserRegistrationSessions.NotFound).

(** What the page says of the action to resume. *)
Inductive PostAuthContext : Type :=
| GrantContext (grant : AuthorizationGrant.t)
| DeviceGrantContext (grant : DeviceCodeGrant.t)
| SsoLoginContext (login : CompatSsoLogin.t)
| ChangePasswordContext
| LinkContext (provider : UpstreamOAuthProvider.t) (link : UpstreamOAuthLink.t)
| ManageAccountContext.

Inductive RegisterFormField : Type :=
| FieldUsername
| FieldEmail
| FieldPassword
| FieldPasswordConfirm
| FieldAcceptTerms.
#[export] Instance RegisterFormField_eq_dec : EqDecision RegisterFormField.
Proof. solve_decision. Defined.
#[export] Instance RegisterFormField_form : FormField RegisterFormField := λ f,
  match f with
  | FieldUsername | FieldEmail | FieldAcceptTerms => true
  | FieldPassword | FieldPasswordConfirm => false
  end.

(** The forms of one field. *)
Inductive CodeFormField : Type := FieldCode.
#[export] Instance CodeFormField_form : FormField CodeFormField := λ _, true.
Inductive TokenFormField : Type := FieldToken.
#[export] Instance TokenFormField_form : FormField TokenFormField := λ _, true.
Inductive DisplayNameFormField : Type := FieldDisplayName.
#[export] Instance DisplayNameFormField_form : FormField DisplayNameFormField := λ _, true.

Inductive RecoveryStartFormField : Type := FieldRecoveryEmail.
#[export] Instance RecoveryStartFormField_form : FormField RecoveryStartFormField := λ _, true.
Inductive LoginFormField : Type := LoginUsername | LoginPassword.
#[export] Instance LoginFormField_eq_dec : EqDecision LoginFormField.
Proof. solve_decision. Defined.
#[export] Instance LoginFormField_form : FormField LoginFormField := λ f,
  match f with LoginUsername => true | LoginPassword => false end.

Inductive Response : Type :=
| MethodNotAllowed
| Redirect (to : Route)
| RegisterPage (providers : list UpstreamOAuthProvider.t) (next : option PostAuthContext)
| PasswordRegisterPage (form : FormState.t RegisterFormField) (next : option PostAuthContext)
    (captcha : option CaptchaConfig)
| VerifyEmailPage (a : UserEmailAuthentication.t) (form : FormState.t CodeFormField)
| TokenPage (form : FormState.t TokenFormField)
| DisplayNamePage (form : FormState.t DisplayNameFormField)
| EmailInUsePage (email : string) (action : option PostAuthAction)
| LoginForm (form : FormState.t LoginFormField) (providers : list UpstreamOAuthProvider.t)
    (next : option PostAuthContext)
| AccountInactivePage (p : AccountInactive)
| RecoveryDisabled
| RecoveryStartPage (form : FormState.t RecoveryStartFormField)
| RecoveryProgressPage (session : UserRecoverySession.t) (resend_failed_due_to_rate_limit : bool)
| RecoveryConsumed.

(** A check of a handler: it goes on, or it answers. *)
Inductive Checked (A : Type) : Type :=
| Proceed (a : A)
| Answer (r : Response).
Arguments Proceed {A} _.
Arguments Answer {A} _.

Section Handlers.
Context {R : Type} `{!RngCore R, !RngBytes R, !Base64, !UlidText, !UrlLib, !PgText}.
Abbreviation Handler := (M (World R) InternalError) (only parsing).

Definition repo {A} (m : M (World R) DatabaseError A) : Handler A := mmap_err Repository m.
Definition context {A} (o : option A) (message : string) : Handler A :=
  lift (ok_or o (Anyhow message)).
(** An answer that is a page: its template may fail. *)
Definition page {A} (r : A) : Handler A := do! render_answer TemplateError; ret r.

(** [HomeserverConnection::is_localpart_available]. *)
Definition is_localpart_available `{!FreeLocalparts} (localpart : string) :
    M (World R) HomeserverError bool := λ w,
  match w_homeserver_faults w with
  | true :: _ => (Err HomeserverFailed, pop_homeserver_fault w)
  | _ => (Ok (free_localpart localpart), pop_homeserver_fault w)
  end.

(** [OptionalPostAuthAction::load_context]. *)
Definition load_context (action : option PostAuthAction) : Handler (option PostAuthContext) :=
  match action with
  | None => ret None
  | Some (ContinueAuthorizationGrant id) =>
      do grant <- repo (AuthorizationGrantRepository.lookup id);
      ret (GrantContext <$> grant)
  | Some (ContinueDeviceCodeGrant id) =>
      do grant <- repo (DeviceCodeGrantRepository.lookup id);
      ret (DeviceGrantContext <$> grant)
  | Some (ContinueCompatSsoLogin id) =>
      do login <- repo (CompatSsoLoginRepository.lookup id);
      ret (SsoLoginContext <$> login)
  | Some ChangePassword => ret (Some ChangePasswordContext)
  | Some (LinkUpstream id) =>
      do link <- repo (UpstreamOAuthLinkRepository.lookup id);
      match link with
      | None => ret None
      | Some link =>
          do provider <- repo (UpstreamOAuthProviderRepository.lookup
                                 (UpstreamOAuthLink.provider_id link));
          do provider <- context provider "Failed to load upstream OAuth 2.0 provider";
          ret (Some (LinkContext provider link))
      end
  | Some (ManageAccount _) => ret (Some ManageAccountContext)
  end.

(** The action stored with a registration. *)
Definition stored_action (r : UserRegistration.t) : Handler (option PostAuthAction) :=
  match UserRegistration.post_auth_action r with
  | None => ret None
  | Some j => do a <- lift (ok_or (post_auth_action_from_value j) SerdeJson); ret (Some a)
  end.

(** The answer to a step of a registration that is completed. *)
Definition resume (r : UserRegistration.t) : Handler Response :=
  do action <- stored_action r;
  ret (Redirect (optional_go_next action)).

(** The registration of a step. *)
Definition load_registration (id : Ulid) (message : string) : Handler UserRegistration.t :=
  do r <- repo (UserRegistrationRepository.lookup id);
  context r message.

Definition is_completed (r : UserRegistration.t) : bool :=
  bool_decide (is_Some (UserRegistration.completed_at r)).
End Handlers.

(** ** The start (mod.rs) *)
Module RegisterStart.
Section Handler.
Context {R : Type} `{!RngCore R, !RngBytes R, !Base64, !UlidText, !UrlLib, !PgText}.
Abbreviation Handler := (M (World R) InternalError) (only parsing).

Definition get (ip : BoundActivityTracker) (cfg : AccountConfig) (query : option PostAuthAction)
    (jar : CookieJar) : Handler Response :=
  do! csrf_token jar;
  do maybe_session <- repo (Graphql.load_active_session (session_info jar));
  match maybe_session with
  | Some session =>
      do! Graphql.record_browser_session ip session;
      ret (Redirect (optional_go_next query))
  | None =>
      do providers <- repo UpstreamOAuthProviderRepository.all_enabled;
      match password_registration_enabled cfg, providers with
      | false, [provider] =>
          ret (Redirect (UpstreamOAuth2Authorize (UpstreamOAuthProvider.id provider) query))
      | true, [] => ret (Redirect (PasswordRegister None query))
      | _, _ =>
          do next <- load_context query;
          page (RegisterPage providers next)
      end
  end.
End Handler.
End RegisterStart.

(** ** Registration with a password (password.rs) *)
Module RegisterPassword.

Record RegisterForm := mkRegisterForm {
  username : string;
  email : string;
  password : string;
  password_confirm : string;
  accept_terms : string;
  captcha_form : CaptchaForm.t;
}.

Definition to_form_state (f : RegisterForm) : FormState.t RegisterFormField :=
  FormState.from_form
    [(FieldUsername, username f); (FieldEmail, email f); (FieldPassword, password f);
     (FieldPasswordConfirm, password_confirm f); (FieldAcceptTerms, accept_terms f)].

Section Handler.
Context {R C : Type} `{!RngCore R, !RngBytes R, !Base64, !UlidText, !UrlLib, !PgText,
  !PasswordCrates R C, !FreeLocalparts, !AddressParser, !RegisterPolicy, !CaptchaApi,
  !AccountLimits, !UnicodeLower}.
Abbreviation Handler := (M (World R) InternalError) (only parsing).
Abbreviation State := (FormState.t RegisterFormField) (only parsing).

Definition render (state : State) (action : option PostAuthAction)
    (captcha : option CaptchaConfig) : Handler Response :=
  do next <- load_context action;
  page (PasswordRegisterPage state next captcha).

Definition get (cfg : AccountConfig) (query_username : option string)
    (action : option PostAuthAction) (jar : CookieJar) : Handler Response :=
  do! csrf_token jar;
  do maybe_session <- repo (Graphql.load_active_session (session_info jar));
  if bool_decide (is_Some maybe_session) then ret (Redirect (optional_go_next action)) else
  if negb (password_registration_enabled cfg) then ret (Redirect (LoginRoute action)) else
  let state := match query_username with
               | Some username => FormState.set_value FieldUsername (Some username) FormState.empty
               | None => FormState.empty
               end in
  render state action (captcha cfg).

(** The username: the state, and whether the homeserver refuses it. *)
Definition check_username (form : RegisterForm) (state : State) : Handler (State * bool) :=
  if bool_decide (username form = ""%string)
  then ret (FormState.add_error_on_field FieldUsername Required state, false) else
  do taken <- repo (UserRepository.exists_username (username form));
  if taken : bool then ret (FormState.add_error_on_field FieldUsername Exists state, false) else
  do available <- mmap_err HomeserverFailure (is_localpart_available (username form));
  ret (state, negb available).

(** [state] with an error where the condition holds. *)
Definition error_if (b : bool) (k : RegisterFormField) (e : FieldError) (state : State) : State :=
  if b then FormState.add_error_on_field k e state else state.

Definition check_email (email : option string) (state : State) : State :=
  match email with
  | None => state
  | Some email =>
      if bool_decide (email = ""%string) then FormState.add_error_on_field FieldEmail Required state
      else error_if (negb (is_address email)) FieldEmail Invalid state
  end.

Definition check_passwords (form : RegisterForm) (state : State) : State :=
  let p := password form in
  let q := password_confirm form in
  let state := error_if (bool_decide (p = ""%string)) FieldPassword Required state in
  let state := error_if (bool_decide (q = ""%string)) FieldPasswordConfirm Required state in
  let mismatch := bool_decide (p ≠ q) in
  error_if mismatch FieldPasswordConfirm FieldPasswordMismatch
    (error_if mismatch FieldPassword Unspecified state).

(** One violation: it replaces the refusal of the homeserver. *)
Definition add_violation (s : State * bool) (v : RegisterViolation) : State * bool :=
  let '(state, denied) := s in
  let e := FieldPolicy (code v) (msg v) in
  match field v with
  | Some "email"%string => (FormState.add_error_on_field FieldEmail e state, denied)
  | Some "username"%string => (FormState.add_error_on_field FieldUsername e state, false)
  | Some "password"%string => (FormState.add_error_on_field FieldPassword e state, denied)
  | _ => (FormState.add_error_on_form (FormPolicy (code v) (msg v)) state, denied)
  end.

(** The rate limits of a form without errors. *)
Definition check_limits (ip : option IpAddr) (email : option string) (state : State) : State :=
  if FormState.is_valid state then
    let state := match check_registration ip with
                 | Err _ => FormState.add_error_on_form RateLimitExceeded state
                 | Ok _ => state
                 end in
    match email with
    | Some email =>
        match check_email_authentication_email ip email with
        | Err _ => FormState.add_error_on_form RateLimitExceeded state
        | Ok _ => state
        end
    | None => state
    end
  else state.

(** The address of the form, when the site asks for one. *)
Definition form_email (cfg : AccountConfig) (form : RegisterForm) : option string :=
  if password_registration_email_required cfg then Some (email form) else None.

Definition validate (pm : PasswordManager) (ip : option IpAddr) (cfg : AccountConfig)
    (user_agent : option string) (form : RegisterForm) : Handler State :=
  let passed_captcha :=
    match CaptchaForm.verify (captcha_form form) ip (public_hostname cfg) (captcha cfg) with
    | Ok _ => true
    | Err _ => false
    end in
  let email := form_email cfg form in
  let state := to_form_state form in
  let state := if passed_captcha then state else FormState.add_error_on_form Captcha state in
  do checked <- check_username form state;
  let '(state, denied) := checked in
  let state := check_passwords form (check_email email state) in
  do complex <- lift (map_err PasswordFailure (is_password_complex_enough pm (password form)));
  let state := error_if (negb complex) FieldPassword (FieldPolicy None "Password is too weak") state in
  let state := error_if (bool_decide (is_Some (tos_uri cfg))
                         && bool_decide (accept_terms form ≠ "on"%string))
                 FieldAcceptTerms Required state in
  do violations <- lift (ok_or (evaluate_register (username form) email ip user_agent)
                           EvaluationFailed);
  let '(state, denied) := foldl add_violation (state, denied) violations in
  let state := error_if denied FieldUsername Exists state in
  ret (check_limits ip email state).

(** The registration that is stored. *)
Definition create (pm : PasswordManager) (ip : option IpAddr) (cfg : AccountConfig)
    (locale : string) (user_agent : option string) (query : option PostAuthAction)
    (form : RegisterForm) : Handler UserRegistration.t :=
  do r <- repo (UserRegistrationRepository.add (username form) ip user_agent
                  (post_auth_action_to_value <$> query));
  do r <-
    match tos_uri cfg with
    | Some tos_uri => repo (UserRegistrationRepository.set_terms_url r tos_uri)
    | None => ret r
    end;
  do r <-
    match form_email cfg form with
    | Some email =>
        do a <- repo (UserEmailAuthenticationRepository.add_authentication_for_registration email r);
        do! repo (schedule_job (SendEmailAuthenticationCodeJob.new a locale));
        repo (UserRegistrationRepository.set_email_authentication r a)
    | None => ret r
    end;
  do hashed <- mmap_err PasswordFailure (Login.on_rng (hash pm (password form)));
  let '(version, hashed_password) := hashed in
  repo (UserRegistrationRepository.set_password r hashed_password version).

Definition post (pm : PasswordManager) (ip : BoundActivityTracker) (cfg : AccountConfig)
    (locale : string) (user_agent : option string) (query : option PostAuthAction)
    (cookies : RegisterJar) (csrf : string) (form : RegisterForm) :
    Handler (Response * RegisterJar) :=
  if negb (password_registration_enabled cfg) then ret (MethodNotAllowed, cookies) else
  do! mmap_err CsrfFailed (verify_form (jar cookies) csrf);
  do! csrf_token (jar cookies);
  do state <- validate pm ip cfg user_agent form;
  if negb (FormState.is_valid state) then
    do answer <- render state query (captcha cfg);
    ret (answer, cookies)
  else
    do r <- create pm ip cfg locale user_agent query form;
    do! repo save;
    do now_ <- now;
    let sessions := UserRegistrationSessions.add r
                      (UserRegistrationSessions.load (registrations cookies)) in
    ret (Redirect (RegisterFinish (UserRegistration.id r)),
         mkRegisterJar (jar cookies) (UserRegistrationSessions.save sessions now_)).
End Handler.
End RegisterPassword.

(** ** The code of an address (steps/verify_email.rs) *)
Module RegisterVerify.
Section Handler.
Context {R : Type} `{!RngCore R, !RngBytes R, !Base64, !UlidText, !UrlLib, !AccountLimits}.
Abbreviation Handler := (M (World R) InternalError) (only parsing).

(** The authentication of the address of a registration, not completed yet. *)
Definition load_authentication (r : UserRegistration.t) : Handler UserEmailAuthentication.t :=
  do id <- context (UserRegistration.email_authentication_id r)
             "No email authentication started for this registration";
  do a <- repo (UserEmailAuthenticationRepository.lookup_authentication id);
  do a <- context a "Could not find email authentication";
  if bool_decide (is_Some (UserEmailAuthentication.completed_at a))
  then fail (Anyhow "Email authentication already completed")
  else ret a.

Definition get (jar : CookieJar) (id : Ulid) : Handler Response :=
  do! csrf_token jar;
  do r <- load_registration id "Could not find user registration";
  if is_completed r then resume r else
  do a <- load_authentication r;
  page (VerifyEmailPage a FormState.empty).

Definition to_form_state (code : string) : FormState.t CodeFormField :=
  FormState.from_form [(FieldCode, code)].

Definition post (jar : CookieJar) (id : Ulid) (csrf code : string) :
    Handler Response :=
  do! mmap_err CsrfFailed (verify_form jar csrf);
  do r <- load_registration id "Could not find user registration";
  if is_completed r then resume r else
  do a <- load_authentication r;
  match check_email_authentication_attempt a with
  | Err _ =>
      do! csrf_token jar;
      page (VerifyEmailPage a (FormState.add_error_on_form RateLimitExceeded (to_form_state code)))
  | Ok _ =>
      do found <- repo (UserEmailAuthenticationRepository.find_authentication_code a code);
      match found with
      | None =>
          do! csrf_token jar;
          page (VerifyEmailPage a
                 (FormState.add_error_on_field FieldCode Invalid (to_form_state code)))
      | Some code =>
          do! repo (UserEmailAuthenticationRepository.complete_authentication_with_code a code);
          do! repo save;
          ret (Redirect (RegisterFinish (UserRegistration.id r)))
      end
  end.
End Handler.
End RegisterVerify.

(** ** The registration token (steps/registration_token.rs) *)
Module RegisterTokenStep.
Section Handler.
Context {R : Type} `{!RngCore R, !RngBytes R, !Base64, !UlidText, !UrlLib}.
Abbreviation Handler := (M (World R) InternalError) (only parsing).

Definition get (jar : CookieJar) (id : Ulid) : Handler Response :=
  do! csrf_token jar;
  do r <- load_registration id "Could not find user registration";
  if is_completed r then resume r else
  if bool_decide (is_Some (UserRegistration.user_registration_token_id r))
  then ret (Redirect (RegisterDisplayName (UserRegistration.id r)))
  else page (TokenPage FormState.empty).

(** The token of the form, if it may be used. *)
Definition usable_token (token : string) : Handler (result FieldError UserRegistrationToken.t) :=
  let token := str_trim token in
  if bool_decide (token = ""%string) then ret (Err Required) else
  do found <- repo (UserRegistrationTokenRepository.find_by_token token);
  match found with
  | None => ret (Err Invalid)
  | Some x =>
      do now_ <- now;
      ret (if UserRegistrationToken.is_valid x now_ then Ok x else Err Invalid)
  end.

Definition post (jar : CookieJar) (id : Ulid) (csrf token : string) : Handler Response :=
  do r <- load_registration id "Could not find user registration";
  if is_completed r then resume r else
  do! mmap_err CsrfFailed (verify_form jar csrf);
  do! csrf_token jar;
  do x <- usable_token token;
  match x with
  | Err e =>
      page (TokenPage (FormState.add_error_on_field FieldToken e
                        (FormState.from_form [(FieldToken, token)])))
  | Ok x =>
      do r <- repo (UserRegistrationRepository.set_registration_token r x);
      do! repo save;
      ret (Redirect (RegisterFinish (UserRegistration.id r)))
  end.
End Handler.
End RegisterTokenStep.

(** ** The display name (steps/display_name.rs) *)
Module RegisterNameStep.

Inductive FormAction : Type := Set_ | Skip.

Section Handler.
Context {R : Type} `{!RngCore R, !RngBytes R, !Base64, !UlidText, !UrlLib}.
Abbreviation Handler := (M (World R) InternalError) (only parsing).

Definition get (jar : CookieJar) (id : Ulid) : Handler Response :=
  do! csrf_token jar;
  do r <- load_registration id "Could not find user registration";
  if is_completed r then resume r else page (DisplayNamePage FormState.empty).

(** The name that is set; [len] counts bytes. *)
Definition chosen_name (r : UserRegistration.t) (action : FormAction) (display_name : string) :
    option string :=
  match action with
  | Set_ =>
      let display_name := str_trim display_name in
      if bool_decide (display_name = ""%string) || (255 <? String.length display_name)%nat
      then None
      else Some display_name
  | Skip => Some (UserRegistration.username r)
  end.

Definition post (jar : CookieJar) (id : Ulid) (csrf : string) (action : FormAction)
    (display_name : string) : Handler Response :=
  do r <- load_registration id "Could not find user registration";
  if is_completed r then resume r else
  do! mmap_err CsrfFailed (verify_form jar csrf);
  do! csrf_token jar;
  match chosen_name r action display_name with
  | None =>
      page (DisplayNamePage (FormState.add_error_on_field FieldDisplayName Invalid
                              (FormState.from_form [(FieldDisplayName, display_name)])))
  | Some name =>
      do r <- repo (UserRegistrationRepository.set_display_name r name);
      do! repo save;
      ret (Redirect (RegisterFinish (UserRegistration.id r)))
  end.
End Handler.
End RegisterNameStep.

(** ** The end (steps/finish.rs) *)
Module RegisterEnd.

Section Handler.
Context {R : Type} `{!RngCore R, !RngBytes R, !Base64, !UlidText, !UrlLib, !PgText, !FreeLocalparts}.
Abbreviation Handler := (M (World R) InternalError) (only parsing).

Definition HOUR : Duration := 3600 * 1000000.

(** The username is still free, here and on the homeserver. *)
Definition check_username (r : UserRegistration.t) : Handler unit :=
  do taken <- repo (UserRepository.exists_username (UserRegistration.username r));
  if taken : bool then fail (Anyhow "Username is already taken") else
  do available <- mmap_err HomeserverFailure (is_localpart_available (UserRegistration.username r));
  if available : bool then ret tt else fail (Anyhow "Username is not available").

Definition load_upstream_session (id : Ulid) : Handler UpstreamOAuthAuthorizationSession.t :=
  do session <- repo (UpstreamOAuthSessionRepository.lookup id);
  context session "Could not load the upstream OAuth authorization session".

Definition token_required (cfg : AccountConfig) (r : UserRegistration.t) : Handler bool :=
  match UserRegistration.upstream_oauth_authorization_session_id r with
  | Some session_id =>
      do session <- load_upstream_session session_id;
      do provider <- repo (UpstreamOAuthProviderRepository.lookup
                             (UpstreamOAuthAuthorizationSession.provider_id session));
      do provider <- context provider "Could not load the upstream OAuth provider";
      ret (UpstreamOAuthProvider.registration_token_required provider
           || registration_token_required cfg)
  | None => ret (password_registration_token_required cfg || registration_token_required cfg)
  end.

(** The token to use, when one is required. *)
Definition check_token (cfg : AccountConfig) (r : UserRegistration.t) :
    Handler (Checked (option UserRegistrationToken.t)) :=
  do required <- token_required cfg r;
  if negb required then ret (Proceed None) else
  match UserRegistration.user_registration_token_id r with
  | None => ret (Answer (Redirect (RegisterToken (UserRegistration.id r))))
  | Some id =>
      do x <- repo (UserRegistrationTokenRepository.lookup id);
      do x <- context x "Could not load the registration token";
      do now_ <- now;
      if UserRegistrationToken.is_valid x now_ then ret (Proceed (Some x))
      else fail (Anyhow "Registration token used is no longer valid")
  end.

(** The address, which was verified and is not used. *)
Definition check_email (r : UserRegistration.t) :
    Handler (Checked (option UserEmailAuthentication.t)) :=
  match UserRegistration.email_authentication_id r with
  | None => ret (Proceed None)
  | Some id =>
      do a <- repo (UserEmailAuthenticationRepository.lookup_authentication id);
      do a <- context a "Could not load the email authentication";
      if bool_decide (UserEmailAuthentication.completed_at a = None)
      then ret (Answer (Redirect (RegisterVerifyEmail (UserRegistration.id r)))) else
      do count <- repo (UserEmailRepository.count
        (UserEmailFilter.for_email (UserEmailAuthentication.email a) UserEmailFilter.new));
      if 0 <? count then
        do action <- stored_action r;
        page (Answer (EmailInUsePage (UserEmailAuthentication.email a) action))
      else ret (Proceed (Some a))
  end.

(** The identity at a provider, which was not used and is not linked. *)
Definition check_upstream (r : UserRegistration.t) :
    Handler (option (UpstreamOAuthAuthorizationSession.t * UpstreamOAuthLink.t)) :=
  match UserRegistration.upstream_oauth_authorization_session_id r with
  | None => ret None
  | Some session_id =>
      do session <- load_upstream_session session_id;
      do link_id <- context (UpstreamOAuthAuthorizationSession.link_id session)
        "Authorization session has no upstream link associated with it";
      if UpstreamOAuthAuthorizationSession.is_consumed session then
        fail (Anyhow "The upstream authorization session was already used. Try registering again")
      else
      do link <- repo (UpstreamOAuthLinkRepository.lookup link_id);
      do link <- context link "Could not load the upstream OAuth link";
      if bool_decide (is_Some (UpstreamOAuthLink.user_id link)) then
        fail (Anyhow "The upstream identity was already linked to a user. Try logging in again")
      else ret (Some (session, link))
  end.

(** What is done with an optional part of the registration. *)
Definition when_some {A} (o : option A) (k : A → Handler unit) : Handler unit :=
  match o with Some a => k a | None => ret tt end.

Definition add_email (user : User.t) (a : UserEmailAuthentication.t) : Handler unit :=
  do! repo (UserEmailRepository.add user (UserEmailAuthentication.email a));
  ret tt.

Definition add_password (user : User.t) (session : BrowserSession.t)
    (p : UserRegistrationPassword.t) : Handler unit :=
  do p <- repo (UserPasswordRepository.add user (UserRegistrationPassword.version p)
                  (UserRegistrationPassword.hashed_password p) None);
  do! repo (SessionAuthentications.authenticate_with_password session p);
  ret tt.

Definition add_upstream (user : User.t) (session : BrowserSession.t)
    (x : UpstreamOAuthAuthorizationSession.t * UpstreamOAuthLink.t) : Handler unit :=
  do upstream_session <- repo (UpstreamOAuthSessionRepository.consume x.1 session);
  do! repo (UpstreamOAuthLinkRepository.associate_to_user x.2 user);
  do! repo (SessionAuthentications.authenticate_with_upstream session upstream_session);
  ret tt.

Definition provision_job (user : User.t) (display_name : option string) : ProvisionUserJob.t :=
  match display_name with
  | Some n => ProvisionUserJob.set_display_name n (ProvisionUserJob.new user)
  | None => ProvisionUserJob.new user
  end.

(** The user of a completed registration, and the session that logs it in. *)
Definition create_user (user_agent : option string) (r : UserRegistration.t)
    (email : option UserEmailAuthentication.t)
    (upstream : option (UpstreamOAuthAuthorizationSession.t * UpstreamOAuthLink.t)) :
    Handler BrowserSession.t :=
  do user <- repo (UserRepository.add (UserRegistration.username r));
  do session <- repo (BrowserSessionRepository.add user user_agent);
  do! when_some email (add_email user);
  do! when_some (UserRegistration.password r) (add_password user session);
  do! when_some upstream (add_upstream user session);
  do! when_some (UserRegistration.terms_url r)
        (λ terms_url, repo (UserTermsRepository.accept_terms user terms_url));
  do! repo (schedule_job (provision_job user (UserRegistration.display_name r)));
  ret session.

(** What is written once every check passed. *)
Definition complete (ip : BoundActivityTracker) (user_agent : option string) (cookies : RegisterJar)
    (r : UserRegistration.t) (token : option UserRegistrationToken.t)
    (email : option UserEmailAuthentication.t)
    (upstream : option (UpstreamOAuthAuthorizationSession.t * UpstreamOAuthLink.t)) :
    Handler (Response * RegisterJar) :=
  do r <- repo (UserRegistrationRepository.complete r);
  do! when_some token (λ x, do! repo (UserRegistrationTokenRepository.use_token x); ret tt);
  do sessions <- lift (map_err RegistrationNotInCookie
    (UserRegistrationSessions.consume_session r
       (UserRegistrationSessions.load (registrations cookies))));
  do now_ <- now;
  do session <- create_user user_agent r email upstream;
  do! repo save;
  do! Graphql.record_browser_session ip session;
  do action <- stored_action r;
  ret (Redirect (optional_go_next action),
       mkRegisterJar (mkCookieJar (csrf_cookie (jar cookies)) (Graphql.from_session session))
         (UserRegistrationSessions.save sessions now_)).

Definition get (ip : BoundActivityTracker) (cfg : AccountConfig) (user_agent : option string)
    (cookies : RegisterJar) (id : Ulid) : Handler (Response * RegisterJar) :=
  do r <- load_registration id "User registration not found";
  if is_completed r then do page <- resume r; ret (page, cookies) else
  do now_ <- now;
  if HOUR <? now_ - UserRegistration.created_at r
  then fail (Anyhow "Registration session has expired") else
  if negb (UserRegistrationSessions.contains r
             (UserRegistrationSessions.load (registrations cookies)))
  then fail (Anyhow "Could not find the registration in the browser cookies") else
  do! check_username r;
  do token <- check_token cfg r;
  match token with
  | Answer page => ret (page, cookies)
  | Proceed token =>
      do email <- check_email r;
      match email with
      | Answer page => ret (page, cookies)
      | Proceed email =>
          do upstream <- check_upstream r;
          if bool_decide (UserRegistration.display_name r = None)
          then ret (Redirect (RegisterDisplayName (UserRegistration.id r)), cookies)
          else complete ip user_agent cookies r token email upstream
      end
  end.

(** A request, from the opening of its transaction on. *)
Definition register_finish_request (ip : BoundActivityTracker) (cfg : AccountConfig)
    (user_agent : option string) (cookies : RegisterJar) (id : Ulid) :
    Handler (Response * RegisterJar) :=
  do! repo from_pool;
  get ip cfg user_agent cookies id.
End Handler.
End RegisterEnd.
