(* ===== verification/AccountPages.v ===== *)
(** * Login, logout and recovery in the browser

    crates/handlers/src/views: login.rs, logout.rs, recovery/start.rs and
    recovery/progress.rs, with the login hint of shared.rs. *)

From stdpp Require Import base tactics list strings gmap.
From Stdlib Require Import ZArith Lia Ascii String.
From S2P Require Import Prelude Text Scope Externals Formats Pagination TokenFormat DataModel CompatModel UpstreamModel AccountModel Storage TokenRepo GrantRepo QueueRepo UserRepo UpstreamRepo AccountRepo CompatRepo Jobs Passwords ClientAuth TokenEndpoint GraphqlSession WebSession CompatEndpoints RegisterForms Register.
#[local] Open Scope Z_scope.

(** ** Logout (logout.rs) *)
Module LogoutPage.
Section Handler.
Context {R : Type} `{!RngCore R, !RngBytes R, !Base64, !UlidText}.
Abbreviation Handler := (M (World R) InternalError) (only parsing).

(** The end of the session of the cookie, unless it has finished. *)
Definition end_session (ip : BoundActivityTracker) (jar : CookieJar) : Handler unit :=
  match Graphql.current (session_info jar) with
  | None => ret tt
  | Some session_id =>
      do maybe_session <- repo (BrowserSessionRepository.lookup session_id);
      match maybe_session with
      | Some session =>
          if bool_decide (BrowserSession.finished_at session = None) then
            do! Graphql.record_browser_session ip session;
            do! repo (BrowserSessionRepository.finish session);
            ret tt
          else ret tt
      | None => ret tt
      end
  end.

(** The cookie of the session is cleared whatever it was. *)
Definition post (ip : BoundActivityTracker) (jar : CookieJar) (csrf : string)
    (form : option PostAuthAction) : Handler (Response * CookieJar) :=
  do! mmap_err CsrfFailed (verify_form jar csrf);
  do! end_session ip jar;
  do! repo save;
  do now_ <- now;
  ret (Redirect (go_next_or_default form (LoginRoute None)),
       mkCookieJar (csrf_cookie jar) (Graphql.mark_session_ended (session_info jar) now_)).

Definition logout_request (ip : BoundActivityTracker) (jar : CookieJar) (csrf : string)
    (form : option PostAuthAction) : Handler (Response * CookieJar) :=
  do! repo from_pool;
  post ip jar csrf form.
End Handler.
End LogoutPage.

(** ** Login (login.rs) *)

(** [QueryLoginHint::parse_login_hint]: the localpart of a user identifier of
    this homeserver, or an address. *)
Inductive LoginHint : Type :=
| HintMxid (local : string)
| HintEmail (email : string)
| NoHint.

Definition parse_login_hint `{!MatrixNames, !AddressParser} (login_hint : option string) :
    LoginHint :=
  match login_hint with
  | None => NoHint
  | Some login_hint =>
      let mxid :=
        match strip_one ["mxid:"%string] login_hint with
        | Some value => localpart value
        | None => None
        end in
      match mxid with
      | Some local => HintMxid local
      | None => if is_address login_hint then HintEmail login_hint else NoHint
      end
  end.

Module LoginPage.

Record LoginFormData := mkLoginForm { username : string; password : string }.

Definition to_form_state (f : LoginFormData) : FormState.t LoginFormField :=
  FormState.from_form [(LoginUsername, username f); (LoginPassword, password f)].

Section Handler.
Context {R C : Type} `{!RngCore R, !RngBytes R, !Base64, !UlidText, !UrlLib, !PgText,
  !PasswordCrates R C, !AddressParser, !MatrixNames, !Limits}.
Abbreviation Handler := (M (World R) InternalError) (only parsing).
Abbreviation State := (FormState.t LoginFormField) (only parsing).

(** The hint fills in the username, unless a failed attempt did. *)
Definition handle_login_hint (cfg : AccountConfig) (login_hint : option string) (state : State) :
    State :=
  if FormState.has_value LoginUsername state then state
  else
    let value :=
      match parse_login_hint login_hint with
      | HintMxid local => Some local
      | HintEmail email => if login_with_email_allowed cfg then Some email else None
      | NoHint => None
      end in
    FormState.set_value LoginUsername value state.

Definition render (cfg : AccountConfig) (jar : CookieJar) (state : State)
    (action : option PostAuthAction) (login_hint : option string) : Handler Response :=
  do! csrf_token jar;
  do providers <- repo UpstreamOAuthProviderRepository.all_enabled;
  let state := handle_login_hint cfg login_hint state in
  do next <- load_context action;
  page (LoginForm state providers next).

Definition get (ip : BoundActivityTracker) (cfg : AccountConfig) (query : option PostAuthAction)
    (login_hint : option string) (jar : CookieJar) : Handler Response :=
  do loaded <- repo (load_session_or_fallback jar);
  match loaded with
  | Fallback p => page (AccountInactivePage p)
  | MaybeSession (Some session) =>
      do! Graphql.record_browser_session ip session;
      ret (Redirect (optional_go_next query))
  | MaybeSession None =>
      do providers <- repo UpstreamOAuthProviderRepository.all_enabled;
      match password_login_enabled cfg, providers with
      | false, [provider] =>
          ret (Redirect (UpstreamOAuth2Authorize (UpstreamOAuthProvider.id provider) query))
      | _, _ => render cfg jar FormState.empty query login_hint
      end
  end.

(** [contains('@')]. *)
Definition has_at (s : string) : bool :=
  bool_decide ("@"%char ∈ list_ascii_of_string s).

Definition get_user_by_email_or_by_username (cfg : AccountConfig) (username_or_email : string) :
    M (World R) DatabaseError (option User.t) :=
  do by_email <-
    (if login_with_email_allowed cfg && has_at username_or_email then
       do maybe_user_email <- UserEmailRepository.find_by_email username_or_email;
       match maybe_user_email with
       | Some user_email => UserRepository.lookup (UserEmail.user_id user_email)
       | None => ret None
       end
     else ret None);
  match by_email with
  | Some user => ret (Some user)
  | None => UserRepository.find_by_username username_or_email
  end.

(** The form with the errors of empty fields. *)
Definition required (form : LoginFormData) : State :=
  let state := to_form_state form in
  let state := if bool_decide (username form = ""%string)
               then FormState.add_error_on_field LoginUsername Required state else state in
  if bool_decide (password form = ""%string)
  then FormState.add_error_on_field LoginPassword Required state else state.

(** The user and the password that was verified, upgraded if need be; or the
    error of the form. *)
Definition check_credentials (pm : PasswordManager) (ip : option IpAddr) (cfg : AccountConfig)
    (form : LoginFormData) : Handler (result FormError (User.t * UserPassword.t)) :=
  let name := default (username form) (localpart (username form)) in
  do user <- repo (get_user_by_email_or_by_username cfg name);
  match user with
  | None => ret (Err InvalidCredentials)
  | Some user =>
      match check_password ip user with
      | Err _ => ret (Err RateLimitExceeded)
      | Ok _ =>
          do user_password <- repo (UserPasswordRepository.active user);
          match user_password with
          | None => ret (Err InvalidCredentials)
          | Some user_password =>
              do res <- mmap_err PasswordFailure (Login.on_rng
                (verify_and_upgrade pm (UserPassword.version user_password) (password form)
                   (UserPassword.hashed_password user_password)));
              match res with
              | Success (Some (version, new_password_hash)) =>
                  do user_password <- repo (UserPasswordRepository.add user version
                                              new_password_hash (Some user_password));
                  ret (Ok (user, user_password))
              | Success None => ret (Ok (user, user_password))
              | Failure => ret (Err InvalidCredentials)
              end
          end
      end
  end.

(** The session of a user whose password was verified. *)
Definition start_session (ip : BoundActivityTracker) (user_agent : option string)
    (query : option PostAuthAction) (jar : CookieJar) (user : User.t)
    (user_password : UserPassword.t) : Handler (Response * CookieJar) :=
  do user_session <- repo (BrowserSessionRepository.add user user_agent);
  do! repo (SessionAuthentications.authenticate_with_password user_session user_password);
  do! repo save;
  do! Graphql.record_browser_session ip user_session;
  ret (Redirect (optional_go_next query),
       mkCookieJar (csrf_cookie jar) (Graphql.from_session user_session)).

Definition post (pm : PasswordManager) (ip : BoundActivityTracker) (cfg : AccountConfig)
    (user_agent : option string) (query : option PostAuthAction) (login_hint : option string)
    (jar : CookieJar) (csrf : string) (form : LoginFormData) : Handler (Response * CookieJar) :=
  if negb (password_login_enabled cfg) then ret (MethodNotAllowed, jar) else
  do! mmap_err CsrfFailed (verify_form jar csrf);
  let state := required form in
  if negb (FormState.is_valid state) then
    do answer <- render cfg jar state query login_hint;
    ret (answer, jar)
  else
    do checked <- check_credentials pm ip cfg form;
    match checked with
    | Err e =>
        do answer <- render cfg jar (FormState.add_error_on_form e state) query login_hint;
        ret (answer, jar)
    | Ok (user, user_password) =>
        if bool_decide (is_Some (User.deactivated_at user))
           || bool_decide (is_Some (User.locked_at user))
        then
          do p <- repo (render_account_inactive jar user);
          page (AccountInactivePage p, jar)
        else start_session ip user_agent query jar user user_password
    end.

Definition login_page_request (pm : PasswordManager) (ip : BoundActivityTracker)
    (cfg : AccountConfig) (user_agent : option string) (query : option PostAuthAction)
    (login_hint : option string) (jar : CookieJar) (csrf : string) (form : LoginFormData) :
    Handler (Response * CookieJar) :=
  do! repo from_pool;
  post pm ip cfg user_agent query login_hint jar csrf form.
End Handler.
End LoginPage.

(** ** Recovery of an account (recovery/start.rs, recovery/progress.rs) *)
Module RecoveryPage.
Section Handler.
Context {R : Type} `{!RngCore R, !RngBytes R, !Base64, !UlidText, !AddressParser, !AccountLimits,
  !UnicodeLower}.
Abbreviation Handler := (M (World R) InternalError) (only parsing).

(** What every handler checks first: recovery is allowed, and nobody is logged
    in. *)
Definition unless_logged_in (cfg : AccountConfig) (jar : CookieJar) (k : Handler Response) :
    Handler Response :=
  if negb (account_recovery_allowed cfg) then page RecoveryDisabled else
  do! csrf_token jar;
  do maybe_session <- repo (Graphql.load_active_session (session_info jar));
  if bool_decide (is_Some maybe_session) then ret (Redirect Index) else k.

Definition start_get (cfg : AccountConfig) (jar : CookieJar) : Handler Response :=
  unless_logged_in cfg jar
    (do! repo save; page (RecoveryStartPage FormState.empty)).

(** The form, with the errors it has. *)
Definition check_form (ip : option IpAddr) (email : string) : FormState.t RecoveryStartFormField :=
  let state := FormState.from_form [(FieldRecoveryEmail, email)] in
  let state := if is_address email then state
               else FormState.add_error_on_field FieldRecoveryEmail Invalid state in
  if FormState.is_valid state then
    match check_account_recovery ip email with
    | Err _ => FormState.add_error_on_form RateLimitExceeded state
    | Ok _ => state
    end
  else state.

Definition start_post (ip : BoundActivityTracker) (cfg : AccountConfig) (locale : string)
    (user_agent : string) (jar : CookieJar) (csrf email : string) : Handler Response :=
  unless_logged_in cfg jar
    (do! mmap_err CsrfFailed (verify_form jar csrf);
     let state := check_form ip email in
     if negb (FormState.is_valid state) then
       do! repo save;
       page (RecoveryStartPage state)
     else
       do session <- repo (UserRecoveryRepository.add_session email user_agent ip locale);
       do! repo (schedule_job (SendAccountRecoveryEmailsJob.new session));
       do! repo save;
       ret (Redirect (AccountRecoveryProgress (UserRecoverySession.id session)))).

(** The recovery that is under way. *)
Definition with_session (id : Ulid) (k : UserRecoverySession.t → Handler Response) :
    Handler Response :=
  do s <- repo (UserRecoveryRepository.lookup_session id);
  match s with
  | None => ret (Redirect AccountRecoveryStart)
  | Some s =>
      if bool_decide (is_Some (UserRecoverySession.consumed_at s)) then page RecoveryConsumed
      else k s
  end.

Definition progress_get (cfg : AccountConfig) (jar : CookieJar) (id : Ulid) : Handler Response :=
  unless_logged_in cfg jar
    (with_session id (λ s, do! repo save; page (RecoveryProgressPage s false))).

Definition progress_post (ip : BoundActivityTracker) (cfg : AccountConfig) (jar : CookieJar)
    (csrf : string) (id : Ulid) : Handler Response :=
  unless_logged_in cfg jar
    (with_session id (λ s,
       do! mmap_err CsrfFailed (verify_form jar csrf);
       match check_account_recovery ip (UserRecoverySession.email s) with
       | Err _ => page (RecoveryProgressPage s true)
       | Ok _ =>
           do! repo (schedule_job (SendAccountRecoveryEmailsJob.new s));
           do! repo save;
           page (RecoveryProgressPage s false)
       end)).
End Handler.
End RecoveryPage.
