(* ===== verification/AccountMutations.v ===== *)
(** * The GraphQL mutations on accounts and sessions

    crates/handlers/src/graphql/mutations: user.rs, user_email.rs, matrix.rs,
    browser_session.rs and compat_session.rs, and [verify_password_if_needed] of
    mod.rs.  The mutations on OAuth 2.0 sessions are in GraphqlSession. *)

From stdpp Require Import base tactics list strings gmap.
From Stdlib Require Import ZArith Lia Ascii String.
From S2P Require Import Prelude Text Scope Externals Formats Pagination TokenFormat DataModel CompatModel UpstreamModel AccountModel Storage TokenRepo GrantRepo QueueRepo UserRepo UpstreamRepo AccountRepo CompatRepo Jobs Passwords ClientAuth TokenEndpoint GraphqlSession WebSession CompatEndpoints RegisterForms Register.
#[local] Open Scope Z_scope.

Import Graphql.

(** The policy on an address and its requester; [None] when it fails. *)
Class EmailPolicy := evaluate_email : string → Requester → option (list RegisterViolation).

(** [UserId], and the owners of the other resources. *)
Record UserId := mkUserId { the_user : Ulid }.
#[export] Instance UserId_owner : OwnerId UserId := λ u, Some (the_user u).
#[export] Instance UserEmail_owner : OwnerId UserEmail.t := λ e, Some (UserEmail.user_id e).
#[export] Instance CompatSession_owner : OwnerId CompatSession.t :=
  λ s, Some (CompatSession.user_id s).

Definition browser_session (e : RequestingEntity) : option BrowserSession.t :=
  match e with
  | BrowserSessionEntity session => Some session
  | OAuth2SessionEntity _ _ | Anonymous => None
  end.

Definition is_unauthenticated (e : RequestingEntity) : bool :=
  match e with Anonymous => true | _ => false end.

(** The causes of an error of a mutation. *)
Inductive MutationError : Type :=
| Failed (e : GraphqlError)
| PasswordsFailed (e : PasswordError)
| HomeserverRefused (e : HomeserverError)
| PolicyFailed
| InvalidLocale.

Section Common.
Context {R C : Type} `{!RngCore R, !UlidText, !PasswordCrates R C}.
Abbreviation Mutation := (M (World R) MutationError) (only parsing).

Definition graphql {A} (m : M (World R) GraphqlError A) : Mutation A := mmap_err Failed m.
Definition db {A} (m : M (World R) DatabaseError A) : Mutation A := graphql (repository m).
Definition needed {A} (o : option A) (message : string) : Mutation A :=
  graphql (Graphql.context o message).
Definition refused {A} (message : string) : Mutation A := fail (Failed (Message message)).
Definition unauthorized {A} : Mutation A := refused "Unauthorized".

(** A call to the homeserver, with the context of its error. *)
Definition call (c : HomeserverCall) (message : string) : Mutation unit :=
  mmap_err (λ _, Failed (Message message)) (homeserver_call c).

Definition verify_password_if_needed (requester : RequestingEntity) (cfg : AccountConfig)
    (pm : PasswordManager) (password : option string) (user : User.t) : Mutation bool :=
  if is_admin requester then ret true else
  if negb (password_login_enabled cfg) then ret true else
  do user_password <- mmap_err (λ _, Failed (Message "Failed to load user password"))
                        (UserPasswordRepository.active user);
  match user_password with
  | None => ret true
  | Some user_password =>
      match password with
      | None => ret false
      | Some password =>
          do res <- lift (map_err PasswordsFailed
            (verify_password pm (UserPassword.version user_password) password
               (UserPassword.hashed_password user_password)));
          ret (is_success res)
      end
  end.
End Common.

(** ** Users (user.rs) *)
Module UserMutations.

Inductive AddUserPayload : Type :=
| UserExists (user : User.t)
| UserAdded (user : User.t)
| UserReserved
| UserInvalid.

(** The payloads that tell a user that was changed from one that was not found. *)
Inductive UserPayload : Type :=
| UserNotFound
| UserChanged (user : User.t).

Inductive SetPasswordStatus : Type :=
| Allowed
| NotFound
| NoCurrentPassword
| WrongPassword
| InvalidNewPassword
| PasswordChangesDisabled
| NoSuchRecoveryTicket
| RecoveryTicketAlreadyUsed
| ExpiredRecoveryTicket
| AccountLocked.

Inductive ResendRecoveryEmailPayload : Type :=
| ResendNoTicket
| ResendRateLimited
| ResendSent (recovery_session_id : Ulid).

Inductive DeactivateUserPayload : Type :=
| UserDeactivated (user : User.t)
| IncorrectPassword.

Definition valid_username_character (c : ascii) : bool :=
  let n := nat_of_ascii c in
  ((97 <=? n) && (n <=? 122))%nat || ((48 <=? n) && (n <=? 57))%nat
  || bool_decide (c ∈ ["="; "_"; "-"; "."; "/"; "+"]%char).

Definition username_valid (username : string) : bool :=
  if bool_decide (username = ""%string) || (255 <? String.length username)%nat then false
  else if String.prefix "_" username then false
  else forallb valid_username_character (list_ascii_of_string username).

Section Mutations.
Context {R C : Type} `{!RngCore R, !UlidText, !PgText, !PasswordCrates R C, !FreeLocalparts,
  !AccountLimits, !UnicodeLower}.
Abbreviation Mutation := (M (World R) MutationError) (only parsing).

Definition add_user (requester : RequestingEntity) (username : string)
    (skip_homeserver_check : option bool) : Mutation AddUserPayload :=
  if negb (is_admin requester) then unauthorized else
  do! db from_pool;
  do user <- db (UserRepository.find_by_username username);
  match user with
  | Some user => ret (UserExists user)
  | None =>
      if negb (username_valid username) then ret UserInvalid else
      do available <- mmap_err HomeserverRefused (is_localpart_available username);
      if negb available && negb (default false skip_homeserver_check) then ret UserReserved else
      do user <- db (UserRepository.add username);
      do! db (schedule_job (ProvisionUserJob.new user));
      do! db save;
      ret (UserAdded user)
  end.

(** The user of an administrator's mutation. *)
Definition with_user (requester : RequestingEntity) (user_id : string)
    (k : User.t → Mutation User.t) : Mutation UserPayload :=
  if negb (is_admin requester) then unauthorized else
  do! db from_pool;
  do user_id <- graphql (node_ulid UserNode user_id);
  do user <- db (UserRepository.lookup user_id);
  match user with
  | None => ret UserNotFound
  | Some user =>
      do user <- k user;
      do! db save;
      ret (UserChanged user)
  end.

Definition lock_user (requester : RequestingEntity) (user_id : string) (deactivate : option bool) :
    Mutation UserPayload :=
  with_user requester user_id (λ user,
    let deactivate := default false deactivate in
    do user <- db (UserRepository.lock user);
    do! db (schedule_job (ProvisionUserJob.new user));
    do! (if deactivate then db (schedule_job (DeactivateUserJob.new user deactivate)) else ret tt);
    ret user).

Definition unlock_user (requester : RequestingEntity) (user_id : string) : Mutation UserPayload :=
  with_user requester user_id (λ user,
    do! mmap_err HomeserverRefused (homeserver_call (ReactivateUser (User.username user)));
    do user <- db (UserRepository.reactivate user);
    do user <- db (UserRepository.unlock user);
    do! db (schedule_job (ProvisionUserJob.new user));
    ret user).

Definition set_can_request_admin (requester : RequestingEntity) (user_id : string)
    (can_request_admin : bool) : Mutation UserPayload :=
  with_user requester user_id (λ user,
    db (UserRepository.set_can_request_admin user can_request_admin)).

Definition allow_user_cross_signing_reset (requester : RequestingEntity) (user_id : string) :
    Mutation UserPayload :=
  do user_id <- graphql (node_ulid UserNode user_id);
  if negb (is_owner_or_admin requester (mkUserId user_id)) then unauthorized else
  do! db from_pool;
  do user <- db (UserRepository.lookup user_id);
  do! db cancel;
  match user with
  | None => ret UserNotFound
  | Some user =>
      do! call (AllowCrossSigningReset (User.username user)) "Failed to allow cross-signing reset";
      ret (UserChanged user)
  end.

(** The password of a user is replaced by a hash of the new one. *)
Definition replace_password (pm : PasswordManager) (user : User.t) (new_password : string) :
    Mutation unit :=
  do hashed <- mmap_err PasswordsFailed (Login.on_rng (hash pm new_password));
  let '(version, hashed_password) := hashed in
  do! db (UserPasswordRepository.add user version hashed_password None);
  ret tt.

(** Somebody who is not an administrator must be allowed to change the password,
    and know the current one. *)
Definition check_current_password (requester : RequestingEntity) (cfg : AccountConfig)
    (pm : PasswordManager) (user : User.t) (current_password : option string) :
    Mutation (option SetPasswordStatus) :=
  if is_admin requester then ret None else
  if negb (password_change_allowed cfg) then ret (Some PasswordChangesDisabled) else
  do active_password <- db (UserPasswordRepository.active user);
  match active_password with
  | None => ret (Some NoCurrentPassword)
  | Some active_password =>
      match current_password with
      | None =>
          refused "You must supply `currentPassword` to change your own password if you are not an administrator"
      | Some current_password_attempt =>
          do res <- lift (map_err PasswordsFailed
            (verify_password pm (UserPassword.version active_password) current_password_attempt
               (UserPassword.hashed_password active_password)));
          ret (if is_success res then None else Some WrongPassword)
      end
  end.

Definition set_password (requester : RequestingEntity) (cfg : AccountConfig) (pm : PasswordManager)
    (user_id : string) (current_password : option string) (new_password : string) :
    Mutation SetPasswordStatus :=
  do user_id <- graphql (node_ulid UserNode user_id);
  if negb (is_owner_or_admin requester (mkUserId user_id)) then unauthorized else
  if bool_decide (new_password = ""%string) then ret InvalidNewPassword else
  if negb (is_enabled pm) then ret PasswordChangesDisabled else
  do complex <- lift (map_err PasswordsFailed (is_password_complex_enough pm new_password));
  if negb complex then ret InvalidNewPassword else
  do! db from_pool;
  do user <- db (UserRepository.lookup user_id);
  match user with
  | None => ret NotFound
  | Some user =>
      do refusal <- check_current_password requester cfg pm user current_password;
      match refusal with
      | Some status => ret status
      | None =>
          do! replace_password pm user new_password;
          do! db save;
          ret Allowed
      end
  end.

(** The user behind the address of a ticket. *)
Definition ticket_user (ticket : UserRecoveryTicket.t) : Mutation User.t :=
  do user_email <- db (UserEmailRepository.lookup (UserRecoveryTicket.user_email_id ticket));
  do user_email <- needed user_email "Unknown email address";
  do user <- db (UserRepository.lookup (UserEmail.user_id user_email));
  needed user "Invalid user".

Definition set_password_by_recovery (requester : RequestingEntity) (cfg : AccountConfig)
    (pm : PasswordManager) (ticket new_password : string) : Mutation SetPasswordStatus :=
  if negb (is_unauthenticated requester)
  then refused "Account recovery is only for anonymous users." else
  if negb (is_enabled pm) || negb (account_recovery_allowed cfg) then ret PasswordChangesDisabled else
  do complex <- lift (map_err PasswordsFailed (is_password_complex_enough pm new_password));
  if negb complex then ret InvalidNewPassword else
  do! db from_pool;
  do ticket <- db (UserRecoveryRepository.find_ticket ticket);
  match ticket with
  | None => ret NoSuchRecoveryTicket
  | Some ticket =>
      do session <- db (UserRecoveryRepository.lookup_session
                          (UserRecoveryTicket.user_recovery_session_id ticket));
      do session <- needed session "Unknown session";
      if bool_decide (is_Some (UserRecoverySession.consumed_at session))
      then ret RecoveryTicketAlreadyUsed else
      do now_ <- now;
      if negb (UserRecoveryTicket.active ticket now_) then ret ExpiredRecoveryTicket else
      do user <- ticket_user ticket;
      if negb (User.is_valid user) then ret AccountLocked else
      do! replace_password pm user new_password;
      do! db (UserRecoveryRepository.consume_ticket ticket session);
      do! db save;
      ret Allowed
  end.

Definition resend_recovery_email (ip : option IpAddr) (ticket : string) :
    Mutation ResendRecoveryEmailPayload :=
  do! db from_pool;
  do ticket <- db (UserRecoveryRepository.find_ticket ticket);
  match ticket with
  | None => ret ResendNoTicket
  | Some ticket =>
      do session <- db (UserRecoveryRepository.lookup_session
                          (UserRecoveryTicket.user_recovery_session_id ticket));
      do session <- needed session "Could not load recovery session";
      match check_account_recovery ip (UserRecoverySession.email session) with
      | Err _ => ret ResendRateLimited
      | Ok _ =>
          do! db (schedule_job (SendAccountRecoveryEmailsJob.new session));
          do! db save;
          ret (ResendSent (UserRecoverySession.id session))
      end
  end.

Definition deactivate_user (requester : RequestingEntity) (cfg : AccountConfig)
    (pm : PasswordManager) (hs_erase : bool) (password : option string) :
    Mutation DeactivateUserPayload :=
  match browser_session requester with
  | None => unauthorized
  | Some session =>
      if negb (account_deactivation_allowed cfg)
      then refused "Account deactivation is not allowed on this server" else
      do! db from_pool;
      let user := BrowserSession.user session in
      do verified <- verify_password_if_needed requester cfg pm password user;
      if negb verified then ret IncorrectPassword else
      do user <- db (UserRepository.deactivate user);
      do! db (schedule_job (DeactivateUserJob.new user hs_erase));
      do! db save;
      ret (UserDeactivated user)
  end.
End Mutations.
End UserMutations.

(** ** Display names (matrix.rs) *)
Module MatrixMutations.

Inductive SetDisplayNamePayload : Type := NameSet (user : User.t) | NameInvalid.

Definition set_display_name {R} `{!RngCore R, !UlidText} (requester : RequestingEntity)
    (displayname_change_allowed : bool) (user_id : string) (display_name : option string) :
    M (World R) MutationError SetDisplayNamePayload :=
  do id <- graphql (node_ulid UserNode user_id);
  if negb (is_owner_or_admin requester (mkUserId id)) then unauthorized else
  if negb (is_admin requester) && negb displayname_change_allowed then unauthorized else
  do! db from_pool;
  do user <- db (UserRepository.lookup id);
  do user <- needed user "Failed to lookup user";
  do! db cancel;
  match display_name with
  | Some n =>
      if (256 <? String.length n)%nat || bool_decide (n = ""%string) then ret NameInvalid else
      do! call (SetDisplayname (User.username user) n) "Failed to set display name";
      ret (NameSet user)
  | None =>
      do! call (UnsetDisplayname (User.username user)) "Failed to unset display name";
      ret (NameSet user)
  end.
End MatrixMutations.

(** ** Email addresses (user_email.rs) *)
Module UserEmailMutations.

Inductive AddEmailPayload : Type :=
| EmailAdded (email : UserEmail.t)
| EmailExists (email : UserEmail.t)
| EmailInvalid
| EmailDenied (violations : list RegisterViolation).

Inductive RemoveEmailPayload : Type :=
| EmailRemoved (email : UserEmail.t)
| EmailNotFound
| RemoveIncorrectPassword.

Inductive SetPrimaryEmailPayload : Type := PrimarySet (user : User.t) | PrimaryNotFound.

Inductive StartEmailAuthenticationPayload : Type :=
| Started (a : UserEmailAuthentication.t)
| StartInvalidEmailAddress
| StartRateLimited
| StartDenied (violations : list RegisterViolation)
| StartInUse
| StartIncorrectPassword.

Inductive ResendEmailAuthenticationCodePayload : Type :=
| Resent
| ResendCompleted
| ResendCodeRateLimited.

Inductive CompleteEmailAuthenticationPayload : Type :=
| Completed
| InvalidCode
| CodeExpired
| CompleteRateLimited
| CompleteInUse.

Section Mutations.
Context {R C : Type} `{!RngCore R, !UlidText, !PgText, !PasswordCrates R C, !AccountLimits,
  !UnicodeLower, !AddressParser, !EmailPolicy, !LocaleParser}.
Abbreviation Mutation := (M (World R) MutationError) (only parsing).

Definition policy_on (email : string) (requester : Requester) : Mutation (list RegisterViolation) :=
  lift (ok_or (evaluate_email email requester) PolicyFailed).

Definition add_email (requester : Requester) (user_id email : string)
    (skip_policy_check : option bool) : Mutation AddEmailPayload :=
  do id <- graphql (node_ulid UserNode user_id);
  if negb (is_admin (entity requester)) then unauthorized else
  do! db from_pool;
  do user <- db (UserRepository.lookup id);
  do user <- needed user "Failed to load user";
  if negb (is_address email) then ret EmailInvalid else
  do violations <- (if default false skip_policy_check then ret [] else policy_on email requester);
  if negb (bool_decide (violations = [])) then ret (EmailDenied violations) else
  do existing <- db (UserEmailRepository.find user email);
  match existing with
  | Some user_email =>
      do! db save;
      ret (EmailExists user_email)
  | None =>
      do user_email <- db (UserEmailRepository.add user email);
      do! db save;
      ret (EmailAdded user_email)
  end.

Definition remove_email (requester : RequestingEntity) (cfg : AccountConfig) (pm : PasswordManager)
    (user_email_id : string) (password : option string) : Mutation RemoveEmailPayload :=
  do user_email_id <- graphql (node_ulid UserEmailNode user_email_id);
  do! db from_pool;
  do user_email <- db (UserEmailRepository.lookup user_email_id);
  match user_email with
  | None => ret EmailNotFound
  | Some user_email =>
      if negb (is_owner_or_admin requester user_email) then ret EmailNotFound else
      if negb (is_admin requester) && negb (email_change_allowed cfg) then unauthorized else
      do user <- db (UserRepository.lookup (UserEmail.user_id user_email));
      do user <- needed user "Failed to load user";
      do verified <- verify_password_if_needed requester cfg pm password user;
      if negb verified then ret RemoveIncorrectPassword else
      do! db (UserEmailRepository.remove user_email);
      do! db (schedule_job (ProvisionUserJob.new user));
      do! db save;
      ret (EmailRemoved user_email)
  end.

(** It changes nothing. *)
Definition set_primary_email (requester : RequestingEntity) (cfg : AccountConfig)
    (user_email_id : string) : Mutation SetPrimaryEmailPayload :=
  do user_email_id <- graphql (node_ulid UserEmailNode user_email_id);
  do! db from_pool;
  do user_email <- db (UserEmailRepository.lookup user_email_id);
  match user_email with
  | None => ret PrimaryNotFound
  | Some user_email =>
      if negb (is_owner_or_admin requester user_email) then unauthorized else
      if negb (is_admin requester) && negb (email_change_allowed cfg) then unauthorized else
      do user <- db (UserRepository.lookup (UserEmail.user_id user_email));
      do user <- needed user "Failed to load user";
      do! db save;
      ret (PrimarySet user)
  end.

(** The browser session of a requester who may change addresses. *)
Definition email_changer {A} (requester : RequestingEntity) (cfg : AccountConfig)
    (k : BrowserSession.t → Mutation A) : Mutation A :=
  match browser_session requester with
  | None => unauthorized
  | Some session =>
      if negb (email_change_allowed cfg) then refused "Email changes are not allowed on this server"
      else k session
  end.

Definition start_email_authentication (requester : Requester) (cfg : AccountConfig)
    (pm : PasswordManager) (email language : string) (password : option string) :
    Mutation StartEmailAuthenticationPayload :=
  email_changer (entity requester) cfg (λ session,
    if negb (is_locale language) then fail InvalidLocale else
    if negb (is_address email) then ret StartInvalidEmailAddress else
    match check_email_authentication_email (ip_address requester) email with
    | Err _ => ret StartRateLimited
    | Ok _ =>
        do! db from_pool;
        let user := BrowserSession.user session in
        do count <- db (UserEmailRepository.count
          (UserEmailFilter.for_user user (UserEmailFilter.for_email email UserEmailFilter.new)));
        if 0 <? count then ret StartInUse else
        do violations <- policy_on email requester;
        if negb (bool_decide (violations = [])) then ret (StartDenied violations) else
        do verified <- verify_password_if_needed (entity requester) cfg pm password user;
        if negb verified then ret StartIncorrectPassword else
        do a <- db (UserEmailAuthenticationRepository.add_authentication_for_session email session);
        do! db (schedule_job (SendEmailAuthenticationCodeJob.new a language));
        do! db save;
        ret (Started a)
    end).

Definition resend_email_authentication_code (requester : Requester) (cfg : AccountConfig)
    (id language : string) : Mutation ResendEmailAuthenticationCodePayload :=
  do id <- graphql (node_ulid UserEmailAuthenticationNode id);
  email_changer (entity requester) cfg (λ session,
    if negb (is_locale language) then fail InvalidLocale else
    do! db from_pool;
    do a <- db (UserEmailAuthenticationRepository.lookup_authentication id);
    match a with
    | None => ret ResendCompleted
    | Some a =>
        if negb (bool_decide (UserEmailAuthentication.user_session_id a
                              = Some (BrowserSession.id session)))
        then unauthorized else
        if bool_decide (is_Some (UserEmailAuthentication.completed_at a)) then ret ResendCompleted else
        match check_email_authentication_send_code (ip_address requester) a with
        | Err _ => ret ResendCodeRateLimited
        | Ok _ =>
            do! db (schedule_job (SendEmailAuthenticationCodeJob.new a language));
            do! db save;
            ret Resent
        end
    end).

(** The address of a code that was typed in is added, unless somebody has it;
    the code is used up in both cases. *)
Definition add_verified (session : BrowserSession.t) (a : UserEmailAuthentication.t)
    (code : UserEmailAuthenticationCode.t) : Mutation CompleteEmailAuthenticationPayload :=
  do a <- db (UserEmailAuthenticationRepository.complete_authentication_with_code a code);
  do count <- db (UserEmailRepository.count
    (UserEmailFilter.for_email (UserEmailAuthentication.email a) UserEmailFilter.new));
  if 0 <? count then
    do! db save;
    ret CompleteInUse
  else
    do! db (UserEmailRepository.add (BrowserSession.user session) (UserEmailAuthentication.email a));
    do! db save;
    ret Completed.

Definition complete_email_authentication (requester : RequestingEntity) (cfg : AccountConfig)
    (id code : string) : Mutation CompleteEmailAuthenticationPayload :=
  do id <- graphql (node_ulid UserEmailAuthenticationNode id);
  email_changer requester cfg (λ session,
    do! db from_pool;
    do a <- db (UserEmailAuthenticationRepository.lookup_authentication id);
    match a with
    | None => ret InvalidCode
    | Some a =>
        if negb (bool_decide (UserEmailAuthentication.user_session_id a
                              = Some (BrowserSession.id session)))
        then ret InvalidCode else
        match check_email_authentication_attempt a with
        | Err _ => ret CompleteRateLimited
        | Ok _ =>
            do found <- db (UserEmailAuthenticationRepository.find_authentication_code a code);
            match found with
            | None => ret InvalidCode
            | Some code =>
                do now_ <- now;
                if UserEmailAuthenticationCode.expires_at code <? now_ then ret CodeExpired
                else add_verified session a code
            end
        end
    end).
End Mutations.
End UserEmailMutations.

(** ** Sessions (browser_session.rs, compat_session.rs) *)
Module SessionMutations.

Inductive EndBrowserSessionPayload : Type :=
| BrowserSessionNotFound
| BrowserSessionEnded (session : BrowserSession.t).
Inductive CompatSessionPayload : Type :=
| CompatSessionNotFound
| CompatSessionChanged (session : CompatSession.t).

Section Mutations.
Context {R : Type} `{!RngCore R, !UlidText}.
Abbreviation Mutation := (M (World R) MutationError) (only parsing).

(** With whether the cookie of the requester is cleared. *)
Definition end_browser_session (requester : RequestingEntity) (browser_session_id : string) :
    Mutation (EndBrowserSessionPayload * bool) :=
  do browser_session_id <- graphql (node_ulid BrowserSessionNode browser_session_id);
  do! db from_pool;
  do session <- db (BrowserSessionRepository.lookup browser_session_id);
  match session with
  | None => ret (BrowserSessionNotFound, false)
  | Some session =>
      if negb (is_owner_or_admin requester session) then ret (BrowserSessionNotFound, false) else
      do session <- db (BrowserSessionRepository.finish session);
      do! db save;
      ret (BrowserSessionEnded session,
           match browser_session requester with
           | Some s => bool_decide (BrowserSession.id s = BrowserSession.id session)
           | None => false
           end)
  end.

(** A compatibility session of the requester, and its user. *)
Definition with_compat_session (requester : RequestingEntity) (compat_session_id message : string)
    (k : CompatSession.t → User.t → Mutation CompatSession.t) : Mutation CompatSessionPayload :=
  do compat_session_id <- graphql (node_ulid CompatSessionNode compat_session_id);
  do! db from_pool;
  do session <- db (CompatSessionRepository.lookup compat_session_id);
  match session with
  | None => ret CompatSessionNotFound
  | Some session =>
      if negb (is_owner_or_admin requester session) then ret CompatSessionNotFound else
      do user <- db (UserRepository.lookup (CompatSession.user_id session));
      do user <- needed user message;
      do session <- k session user;
      do! db save;
      ret (CompatSessionChanged session)
  end.

Definition end_compat_session (requester : RequestingEntity) (compat_session_id : string) :
    Mutation CompatSessionPayload :=
  with_compat_session requester compat_session_id "Could not load user" (λ session user,
    do! db (schedule_job (SyncDevicesJob.new user));
    db (CompatSessionRepository.finish session)).

Definition set_compat_session_name (requester : RequestingEntity)
    (compat_session_id human_name : string) : Mutation CompatSessionPayload :=
  with_compat_session requester compat_session_id "User not found" (λ session user,
    do session <- db (CompatSessionRepository.set_human_name session (Some human_name));
    do! match CompatSession.device session with
        | Some device =>
            call (UpdateDeviceDisplayName (User.username user) (Device.id device) human_name)
              "Failed to provision device"
        | None => ret tt
        end;
    ret session).
End Mutations.
End SessionMutations.
