(* ===== verification/Tasks.v ===== *)
(** * The tasks

    crates/tasks/src/matrix.rs (provisioning of users and synchronisation of
    devices), user.rs (deactivation and reactivation), sessions.rs (expiry
    of sessions), email.rs and recovery.rs (what is sent by email).  A task opens
    a transaction of its own; a database error or an error of the homeserver makes
    the job be tried again, a missing user makes it fail. *)

From stdpp Require Import base tactics list strings gmap.
From Stdlib Require Import ZArith Lia Ascii String.
From S2P Require Import Prelude Text Scope Externals Formats Pagination TokenFormat DataModel CompatModel Storage QueueRepo QueueWorker TokenRepo UserRepo CompatRepo PersonalRepo Jobs UpstreamModel AccountModel UpstreamRepo AccountRepo RegisterForms.

#[local] Open Scope Z_scope.

(** The texts of the errors a job keeps. *)
Class ErrorTexts := {
  database_text : DatabaseError → string;
  homeserver_text : HomeserverError → string;
}.

Section Tasks.
Context {R : Type} `{!RngCore R} {ulid_text : UlidText} {chrono : ChronoText}
  {url_lib : UrlLib} {pg_text : PgText} {collation : PgCollation} {texts : ErrorTexts}.
Abbreviation Task := (M (World R) JobError) (only parsing).

(** [.map_err(JobError::retry)]. *)
Definition retry_db {A} (m : M (World R) DatabaseError A) : Task A :=
  mmap_err (λ e, mkJobError Retry (database_text e)) m.
Definition retry_homeserver {A} (m : M (World R) HomeserverError A) : Task A :=
  mmap_err (λ e, mkJobError Retry (homeserver_text e)) m.

Definition lookup_user (id : Ulid) : Task User.t :=
  do res <- retry_db (UserRepository.lookup id);
  lift (ok_or res (mkJobError FailJob "User not found")).

(** ** Users and devices (matrix.rs) *)

Definition provision_user_job (job : ProvisionUserJob.t) : Task unit :=
  do! retry_db from_pool;
  do user <- lookup_user (ProvisionUserJob.user_id job);
  do emails <- retry_db (UserEmailRepository.all user);
  let request :=
    ProvisionRequest.set_emails (UserEmail.email <$> emails)
      (ProvisionRequest.new (User.username user) (User.sub user)
         (bool_decide (is_Some (User.locked_at user)))) in
  let request :=
    match ProvisionUserJob.display_name_to_set job with
    | Some display_name => ProvisionRequest.set_displayname display_name request
    | None => request
    end in
  do! retry_homeserver (homeserver_call (ProvisionUser request));
  do! retry_db (schedule_job (SyncDevicesJob.new user));
  retry_db save.

(** [ProvisionDeviceJob::run] and [DeleteDeviceJob::run]: the same lines. *)
Definition provision_device_job (job : ProvisionDeviceJob.t) : Task unit :=
  do! retry_db from_pool;
  do user <- lookup_user (ProvisionDeviceJob.user_id job);
  retry_db (schedule_job (SyncDevicesJob.new user)).

Definition delete_device_job (job : DeleteDeviceJob.t) : Task unit :=
  do! retry_db from_pool;
  do user <- lookup_user (DeleteDeviceJob.user_id job);
  retry_db (schedule_job (SyncDevicesJob.new user)).

(** A loop over the pages of a listing: the devices of each node are
    collected and the cursor moves after it; [None] when [fuel] pages were
    not enough. *)
Section Cycle.
Context {A : Type} (list_op : Pagination.t → M (World R) DatabaseError (Page.t A))
  (devices_of : A → gset string).

Definition visit (acc : Pagination.t * gset string) (edge : Edge.t A) :
    Pagination.t * gset string :=
  let '(cursor, devices) := acc in
  (with_after (Edge.cursor edge) cursor, devices ∪ devices_of (Edge.node edge)).

Fixpoint cycle (fuel : nat) (cursor : Pagination.t) (devices : gset string) :
    Task (option (gset string)) :=
  match fuel with
  | O => ret None
  | S fuel =>
      do page <- retry_db (list_op cursor);
      let '(cursor, devices) := foldl visit (cursor, devices) (Page.edges page) in
      if Page.has_next_page page then cycle fuel cursor devices else ret (Some devices)
  end.
End Cycle.

Definition compat_devices (n : CompatSession.t * option CompatSsoLogin.t) : gset string :=
  match CompatSession.device n.1 with Some device => {[Device.id device]} | None => ∅ end.

Definition scope_devices (scope : Scope) : gset string :=
  list_to_set (omap (λ t, Device.id <$> Device.from_scope_token t) scope).

Definition SYNC_PAGE : Z := 5000.

(** [None] when a loop has more than [fuel] turns. *)
Definition sync_devices_job (fuel : nat) (job : SyncDevicesJob.t) : Task (option unit) :=
  do! retry_db from_pool;
  do user <- lookup_user (SyncDevicesJob.user_id job);
  do! retry_db (UserRepository.acquire_lock_for_sync user);
  do devices <- cycle
    (CompatSessionRepository.list
       (CompatSessionFilter.active_only (CompatSessionFilter.for_user user CompatSessionFilter.new)))
    compat_devices fuel (first_page SYNC_PAGE) ∅;
  match devices with None => ret None | Some devices =>
  do devices <- cycle
    (SessionListing.list
       (OAuth2SessionFilter.active_only (OAuth2SessionFilter.for_user user OAuth2SessionFilter.new)))
    (λ s, scope_devices (Session.scope s)) fuel (first_page SYNC_PAGE) devices;
  match devices with None => ret None | Some devices =>
  do devices <- cycle
    (PersonalSessionRepository.list
       (PersonalSessionFilter.active_only
          (PersonalSessionFilter.for_actor_user user PersonalSessionFilter.new)))
    (λ n, scope_devices (PersonalSession.scope n.1)) fuel (first_page SYNC_PAGE) devices;
  match devices with None => ret None | Some devices =>
  do! retry_homeserver (homeserver_call (SyncDevices (User.username user) devices));
  do! retry_db save;
  ret (Some tt)
  end end end.

(** ** Deactivation (user.rs) *)

(** [DeactivateUserJob::run] up to its commit, *)
Definition lock_out (job : DeactivateUserJob.t) : Task User.t :=
  do! retry_db from_pool;
  do user <- lookup_user (DeactivateUserJob.user_id job);
  do user <- mmap_err (λ _, mkJobError Retry "Failed to deactivate user")
               (UserRepository.deactivate user);
  do! retry_db (BrowserSessionRepository.finish_bulk
    (BrowserSessionFilter.active_only (BrowserSessionFilter.for_user user BrowserSessionFilter.new)));
  do! retry_db (SessionRepository.finish_bulk
    (OAuth2SessionFilter.active_only (OAuth2SessionFilter.for_user user OAuth2SessionFilter.new)));
  do! retry_db (CompatSessionRepository.finish_bulk
    (CompatSessionFilter.active_only (CompatSessionFilter.for_user user CompatSessionFilter.new)));
  do! retry_db (PersonalSessionRepository.revoke_bulk
    (PersonalSessionFilter.active_only
       (PersonalSessionFilter.for_actor_user user PersonalSessionFilter.new)));
  do! retry_db (PersonalSessionRepository.revoke_bulk
    (PersonalSessionFilter.active_only
       (PersonalSessionFilter.for_owner_user user PersonalSessionFilter.new)));
  do! retry_db (UserEmailRepository.remove_bulk
    (UserEmailFilter.for_user user UserEmailFilter.new));
  do! retry_db (delete_unsupported_threepids user);
  do! retry_db save;
  ret user.

(** and the call to the homeserver after it. *)
Definition deactivate_user_job (job : DeactivateUserJob.t) : Task unit :=
  do user <- lock_out job;
  retry_homeserver (homeserver_call
    (DeleteUser (User.username user) (DeactivateUserJob.hs_erase job))).

Definition reactivate_user_job (job : ReactivateUserJob.t) : Task unit :=
  do! retry_db from_pool;
  do user <- lookup_user (ReactivateUserJob.user_id job);
  do! retry_homeserver (homeserver_call (ReactivateUser (User.username user)));
  do! retry_db (UserRepository.reactivate user);
  retry_db save.

(** ** Expiry of sessions (sessions.rs) *)

(** [SessionExpirationConfig] and [PgSessionExpirationConfig] of
    data-model/src/site_config.rs. *)
Record SessionExpirationConfig := mkSessionExpirationConfig {
  user_session_inactivity_ttl : option Duration;
  oauth_session_inactivity_ttl : option Duration;
  compat_session_inactivity_ttl : option Duration;
}.

Record PgSessionExpirationConfig := mkPgSessionExpirationConfig {
  enabled : bool;
  short_lived_max_lifetime : Duration;
  long_lived_max_lifetime : Duration;
  inactivity_ttl : Duration;
}.

(** [if let Some(...)] that schedules a job. *)
Definition schedule_some {J} `{!InsertableJob J} (o : option J) : Task unit :=
  match o with Some job => retry_db (schedule_job job) | None => ret tt end.

Definition expire_inactive_sessions_job (config : option SessionExpirationConfig) : Task unit :=
  match config with
  | None => ret tt
  | Some config =>
      do now_ <- now;
      do! retry_db from_pool;
      do! schedule_some ((λ ttl, ExpireInactiveOAuthSessionsJob.new (now_ - ttl))
                           <$> oauth_session_inactivity_ttl config);
      do! schedule_some ((λ ttl, ExpireInactiveCompatSessionsJob.new (now_ - ttl))
                           <$> compat_session_inactivity_ttl config);
      do! schedule_some ((λ ttl, ExpireInactiveUserSessionsJob.new (now_ - ttl))
                           <$> user_session_inactivity_ttl config);
      retry_db save
  end.

Definition expire_pg_sessions_job (config : option PgSessionExpirationConfig) : Task unit :=
  match config with
  | None => ret tt
  | Some config =>
      if negb (enabled config) then ret tt else
      do now_ <- now;
      do! retry_db from_pool;
      do! retry_db (schedule_job (ExpirePgOAuthSessionsJob.new
            (now_ - short_lived_max_lifetime config) (now_ - long_lived_max_lifetime config)
            (now_ - inactivity_ttl config)));
      retry_db save
  end.

Definition MINUTE : Duration := 60 * 1000000.
Definition BATCH : Z := 100.

(** The device sync of a user met for the first time, ten seconds after the
    one before. *)
Definition sync_once (user_id : Ulid) (users_synced : gset Z) (delay : Duration) :
    Task (gset Z * Duration) :=
  if decide (user_id ∈ users_synced) then ret (users_synced, delay) else
  do now_ <- now;
  do! retry_db (schedule_job_later (SyncDevicesJob.new_for_id user_id) (now_ + delay));
  ret (users_synced ∪ {[user_id]}, delay + 10 * 1000000).

(** The loops over the edges of a page; [should_expire] is the check of the
    lifetime, which the inactive sessions do not have. *)
Fixpoint expire_oauth (should_expire : Session.t → bool) (edges : list (Edge.t Session.t))
    (users_synced : gset Z) (delay : Duration) : Task unit :=
  match edges with
  | [] => ret tt
  | edge :: edges =>
      let session := Edge.node edge in
      if negb (should_expire session)
      then expire_oauth should_expire edges users_synced delay
      else
        do acc <-
          match Session.user_id session with
          | Some user_id => sync_once user_id users_synced delay
          | None => ret (users_synced, delay)
          end;
        let '(users_synced, delay) := acc in
        do! retry_db (SessionRepository.finish session);
        expire_oauth should_expire edges users_synced delay
  end.

Fixpoint expire_compat (edges : list (Edge.t CompatSession.t)) (users_synced : gset Z)
    (delay : Duration) : Task unit :=
  match edges with
  | [] => ret tt
  | edge :: edges =>
      do acc <- sync_once (CompatSession.user_id (Edge.node edge)) users_synced delay;
      let '(users_synced, delay) := acc in
      do! retry_db (CompatSessionRepository.finish (Edge.node edge));
      expire_compat edges users_synced delay
  end.

Fixpoint expire_browser (edges : list (Edge.t BrowserSession.t)) : Task unit :=
  match edges with
  | [] => ret tt
  | edge :: edges =>
      do! retry_db (BrowserSessionRepository.finish (Edge.node edge));
      expire_browser edges
  end.

Definition expire_inactive_oauth_sessions_job (job : ExpireInactiveOAuthSessionsJob.t) :
    Task unit :=
  do! retry_db from_pool;
  let filter :=
    OAuth2SessionFilter.active_only (OAuth2SessionFilter.only_dynamic_clients
      (OAuth2SessionFilter.for_any_user (OAuth2SessionFilter.with_last_active_before
         (ExpireInactiveOAuthSessionsJob.threshold job) OAuth2SessionFilter.new))) in
  do page <- retry_db (SessionListing.list filter
                         (ExpireInactiveOAuthSessionsJob.pagination job BATCH));
  do! schedule_some (ExpireInactiveOAuthSessionsJob.next job page);
  do! expire_oauth (λ _, true) (Page.edges page) ∅ MINUTE;
  retry_db save.

Definition expire_inactive_compat_sessions_job (job : ExpireInactiveCompatSessionsJob.t) :
    Task unit :=
  do! retry_db from_pool;
  let filter :=
    CompatSessionFilter.active_only (CompatSessionFilter.with_last_active_before
      (ExpireInactiveCompatSessionsJob.threshold job) CompatSessionFilter.new) in
  do page <- retry_db (CompatSessionRepository.list filter
                         (ExpireInactiveCompatSessionsJob.pagination job BATCH));
  let page := Page.map fst page in
  do! schedule_some (ExpireInactiveCompatSessionsJob.next job page);
  do! expire_compat (Page.edges page) ∅ MINUTE;
  retry_db save.

Definition expire_inactive_user_sessions_job (job : ExpireInactiveUserSessionsJob.t) :
    Task unit :=
  do! retry_db from_pool;
  let filter :=
    BrowserSessionFilter.active_only (BrowserSessionFilter.with_last_active_before
      (ExpireInactiveUserSessionsJob.threshold job) BrowserSessionFilter.new) in
  do page <- retry_db (BrowserSessionListing.list filter
                         (ExpireInactiveUserSessionsJob.pagination job BATCH));
  do! schedule_some (ExpireInactiveUserSessionsJob.next job page);
  do! expire_browser (Page.edges page);
  retry_db save.

(** The lifetime of a session by its scope. *)
Definition pg_should_expire (job : ExpirePgOAuthSessionsJob.t) (s : Session.t) : bool :=
  if Scope_contains (Session.scope s) PG_SESSION_SHORT_LIVED
  then Session.created_at s <? ExpirePgOAuthSessionsJob.short_lived_created_before job
  else if Scope_contains (Session.scope s) PG_SESSION_LONG_LIVED
  then Session.created_at s <? ExpirePgOAuthSessionsJob.long_lived_created_before job
  else false.

Definition pg_filter (job : ExpirePgOAuthSessionsJob.t) : OAuth2SessionFilter.t :=
  OAuth2SessionFilter.active_only (OAuth2SessionFilter.for_any_user
    (OAuth2SessionFilter.with_scope_containing_any (PG_SESSION_SHORT_LIVED, [PG_SESSION_LONG_LIVED])
      (OAuth2SessionFilter.with_created_before
         (ExpirePgOAuthSessionsJob.short_lived_created_before job)
         (OAuth2SessionFilter.with_last_active_before
            (ExpirePgOAuthSessionsJob.inactive_before job) OAuth2SessionFilter.new)))).

Definition expire_pg_oauth_sessions_job (job : ExpirePgOAuthSessionsJob.t) : Task unit :=
  do! retry_db from_pool;
  do page <- retry_db (SessionListing.list (pg_filter job)
                         (ExpirePgOAuthSessionsJob.pagination job BATCH));
  do! schedule_some (ExpirePgOAuthSessionsJob.next job page);
  do! expire_oauth (pg_should_expire job) (Page.edges page) ∅ MINUTE;
  retry_db save.
End Tasks.

(** ** The tasks that send emails

    crates/tasks/src/email.rs (the code of an address) and recovery.rs (the
    tickets of a recovery).  A task gives the messages it handed to the mailer;
    whether the mailer takes them is a parameter. *)

#[local] Open Scope Z_scope.

(** [rand]: a sample of [Uniform::from(0..n)]. *)
Class RngUniform (R : Type) := sample_below : Z → R → Z * R.

(** A message: to whom, and the code or the ticket it carries. *)
Record Mail := mkMail {
  to_name : option string;
  to_address : string;
  secret : string;
  language : string;
}.

(** The mailer of crates/email: whether it accepts a message. *)
Class Mailer := send : Mail → bool.

(** [format!("{code:06}")], for a number below a million. *)
Definition digit (n k : Z) : string :=
  String (ascii_of_nat (Z.to_nat (48 + (n / 10 ^ k) mod 10))) "".
Definition six_digits (n : Z) : string :=
  digit n 5 +:+ digit n 4 +:+ digit n 3 +:+ digit n 2 +:+ digit n 1 +:+ digit n 0.

Section EmailTasks.
Context {R : Type} `{!RngCore R, !RngUniform R} {ulid_text : UlidText} {url_lib : UrlLib}
  {pg_text : PgText} {collation : PgCollation} {texts : ErrorTexts}
  {addresses : AddressParser} {locales : LocaleParser} {mailer : Mailer}.
Abbreviation Task := (M (World R) JobError) (only parsing).

Definition fail_db {A} (m : M (World R) DatabaseError A) : Task A :=
  mmap_err (λ e, mkJobError FailJob (database_text e)) m.
Definition or_fail {A} (o : option A) (message : string) : Task A :=
  lift (ok_or o (mkJobError FailJob message)).
Definition fail_unless (b : bool) (message : string) : Task unit :=
  if b then ret tt else fail (mkJobError FailJob message).

(** [VerifyEmailJob::run]. *)
Definition verify_email_job (_ : VerifyEmailJob.t) : Task unit :=
  fail (mkJobError FailJob "Not implemented").

Definition FIVE_MINUTES : Duration := 300 * 1000000.

(** The browser session and the registration behind an authentication. *)
Definition load_browser_session (a : UserEmailAuthentication.t) : Task (option BrowserSession.t) :=
  match UserEmailAuthentication.user_session_id a with
  | None => ret None
  | Some id =>
      do s <- retry_db (BrowserSessionRepository.lookup id);
      do s <- or_fail s "Failed to load browser session";
      ret (Some s)
  end.

Definition load_user_registration (a : UserEmailAuthentication.t) :
    Task (option UserRegistration.t) :=
  match UserEmailAuthentication.user_registration_id a with
  | None => ret None
  | Some id =>
      do r <- retry_db (UserRegistrationRepository.lookup id);
      do r <- or_fail r "Failed to load user registration";
      ret (Some r)
  end.

(** [SendEmailAuthenticationCodeJob::run]. *)
Definition send_email_authentication_code_job (job : SendEmailAuthenticationCodeJob.t) :
    Task Mail :=
  do! retry_db from_pool;
  do a <- retry_db (UserEmailAuthenticationRepository.lookup_authentication
                      (SendEmailAuthenticationCodeJob.user_email_authentication_id job));
  do a <- or_fail a "User email authentication not found";
  do! fail_unless (bool_decide (UserEmailAuthentication.completed_at a = None))
        "User email authentication already completed";
  do browser_session <- load_browser_session a;
  do registration <- load_user_registration a;
  do code <- with_rng (sample_below 1000000);
  do code <- retry_db (UserEmailAuthenticationRepository.add_authentication_code FIVE_MINUTES a
                         (six_digits code));
  let address := UserEmailAuthentication.email a in
  do! fail_unless (is_address address) "Invalid address";
  let username :=
    match registration with
    | Some r => Some (UserRegistration.username r)
    | None => (λ s, User.username (BrowserSession.user s)) <$> browser_session
    end in
  let language := SendEmailAuthenticationCodeJob.language job in
  do! fail_unless (is_locale language) "Invalid locale";
  let mail := mkMail username address (UserEmailAuthenticationCode.code code) language in
  do! fail_unless (send mail) "Failed to send";
  do! fail_db save;
  ret mail.

(** [SendAccountRecoveryEmailsJob::run].  A message the mailer does not take is
    only logged. *)
Definition RECOVERY_PAGE : Z := 50.

Definition send_ticket (session : UserRecoverySession.t) (e : UserEmail.t) : Task Mail :=
  do ticket <- with_rng (sample_alphanumeric 32);
  do ticket <- retry_db (UserRecoveryRepository.add_ticket session e ticket);
  do user <- retry_db (UserRepository.lookup (UserEmail.user_id e));
  do user <- or_fail user "User not found";
  do! fail_unless (is_address (UserEmail.email e)) "Invalid address";
  ret (mkMail (Some (User.username user)) (UserEmail.email e) (UserRecoveryTicket.ticket ticket)
         (UserRecoverySession.locale session)).

Fixpoint send_tickets (session : UserRecoverySession.t) (edges : list (Edge.t UserEmail.t))
    (cursor : Pagination.t) (sent : list Mail) : Task (Pagination.t * list Mail) :=
  match edges with
  | [] => ret (cursor, sent)
  | edge :: edges =>
      do mail <- send_ticket session (Edge.node edge);
      send_tickets session edges (with_after (Edge.cursor edge) cursor) (sent ++ [mail])
  end.

(** The pages of addresses; [None] when [fuel] pages were not enough. *)
Fixpoint send_pages (fuel : nat) (session : UserRecoverySession.t) (cursor : Pagination.t)
    (sent : list Mail) : Task (option (list Mail)) :=
  match fuel with
  | O => ret None
  | S fuel =>
      do page <- retry_db (UserEmailRepository.list
        (UserEmailFilter.for_email (UserRecoverySession.email session) UserEmailFilter.new) cursor);
      do x <- send_tickets session (Page.edges page) cursor sent;
      let '(cursor, sent) := x in
      if Page.has_next_page page then send_pages fuel session cursor sent else ret (Some sent)
  end.

Definition send_account_recovery_emails_job (fuel : nat) (job : SendAccountRecoveryEmailsJob.t) :
    Task (option (list Mail)) :=
  do! retry_db from_pool;
  do session <- retry_db (UserRecoveryRepository.lookup_session
                            (SendAccountRecoveryEmailsJob.user_recovery_session_id job));
  do session <- or_fail session "User recovery session not found";
  if bool_decide (is_Some (UserRecoverySession.consumed_at session)) then ret (Some []) else
  do! fail_unless (is_locale (UserRecoverySession.locale session))
        "Invalid locale in database on recovery session";
  do sent <- send_pages fuel session (first_page RECOVERY_PAGE) [];
  match sent with
  | None => ret None
  | Some sent =>
      do! fail_db save;
      ret (Some sent)
  end.
End EmailTasks.

Example pads : six_digits 1234 = "001234"%string.
Proof. vm_compute. reflexivity. Qed.
