(* ===== verification/Cleanup.v ===== *)
(** * The clean-ups

    The deletions of old rows in crates/storage-pg/src/oauth2 (access_token.rs,
    refresh_token.rs, session.rs, authorization_grant.rs, device_code_grant.rs)
    and crates/storage-pg/src/user/session.rs, with what the foreign keys do to
    the rows that refer to them, the activity of sessions, and the jobs of
    crates/tasks/src/cleanup, which run them batch after batch. *)

From stdpp Require Import base tactics list strings gmap.
From Stdlib Require Import ZArith Lia.
From S2P Require Import Prelude Text Scope Externals Formats Pagination TokenFormat DataModel CompatModel UpstreamModel AccountModel Storage QueueRepo QueueWorker TokenRepo GrantRepo UserRepo UpstreamRepo AccountRepo CompatRepo RegisterForms Tasks.
#[local] Open Scope Z_scope.

Import QueueJobRepository(unless_deleted, max_id).

(** ** Access tokens (oauth2/access_token.rs) *)
Module AccessTokenCleanup.
Import OAuth2AccessTokenLookup.

(** [refresh_tokens.oauth2_access_token_id] is [ON DELETE SET NULL]. *)
Definition clear_access_token (ids : list Ulid) (r : OAuth2RefreshTokenLookup.t) :
    OAuth2RefreshTokenLookup.t :=
  OAuth2RefreshTokenLookup.mk (OAuth2RefreshTokenLookup.oauth2_refresh_token_id r)
    (OAuth2RefreshTokenLookup.refresh_token r) (OAuth2RefreshTokenLookup.created_at r)
    (OAuth2RefreshTokenLookup.consumed_at r) (OAuth2RefreshTokenLookup.revoked_at r)
    (unless_deleted ids (OAuth2RefreshTokenLookup.oauth2_access_token_id r))
    (OAuth2RefreshTokenLookup.oauth2_session_id r)
    (OAuth2RefreshTokenLookup.next_oauth2_refresh_token_id r).

Definition delete_stmt (ids : list Ulid) (d : Db) : option (nat * Db) :=
  delete_where_stmt (λ r, bool_decide (oauth2_access_token_id r ∈ ids))
    (set_rows (clear_access_token ids <$> oauth2_refresh_tokens d) d).

Section Ops.
Context {R : Type}.
Abbreviation Repo := (M (World R) DatabaseError) (only parsing).

Definition cleanup (col : t → option DateTime) (since : option DateTime) (until : DateTime)
    (limit : Z) : Repo (nat * option DateTime) :=
  do to_delete <- gets (λ w, oldest_rows col (λ _, true) since until limit (w_txn w));
  do count <- execute (delete_stmt (oauth2_access_token_id <$> to_delete));
  ret (count, max_date col to_delete).

Definition cleanup_revoked := cleanup revoked_at.
Definition cleanup_expired := cleanup expires_at.
End Ops.
End AccessTokenCleanup.

(** ** Refresh tokens (oauth2/refresh_token.rs) *)
Module RefreshTokenCleanup.
Import OAuth2RefreshTokenLookup.

(** [next_oauth2_refresh_token_id] is [ON DELETE SET NULL]. *)
Definition clear_next (ids : list Ulid) (r : t) : t :=
  mk (oauth2_refresh_token_id r) (refresh_token r) (created_at r) (consumed_at r) (revoked_at r)
    (oauth2_access_token_id r) (oauth2_session_id r)
    (unless_deleted ids (next_oauth2_refresh_token_id r)).

Definition delete_stmt (ids : list Ulid) (d : Db) : option (nat * Db) :=
  delete_where_stmt (λ r, bool_decide (oauth2_refresh_token_id r ∈ ids))
    (set_rows (clear_next ids <$> oauth2_refresh_tokens d) d).

(** The token that replaced it was consumed too, or there is none. *)
Definition next_consumed (d : Db) (r : t) : bool :=
  match next_oauth2_refresh_token_id r with
  | None => true
  | Some next =>
      match oauth2_refresh_tokens d !! next with
      | Some n => bool_decide (is_Some (consumed_at n))
      | None => false
      end
  end.

Section Ops.
Context {R : Type}.
Abbreviation Repo := (M (World R) DatabaseError) (only parsing).

Definition cleanup_revoked (since : option DateTime) (until : DateTime) (limit : Z) :
    Repo (nat * option DateTime) :=
  do to_delete <- gets (λ w, oldest_rows revoked_at (λ _, true) since until limit (w_txn w));
  do count <- execute (delete_stmt (oauth2_refresh_token_id <$> to_delete));
  ret (count, max_date revoked_at to_delete).

Definition cleanup_consumed (since : option DateTime) (until : DateTime) (limit : Z) :
    Repo (nat * option DateTime) :=
  do to_delete <- gets (λ w, oldest_rows consumed_at (next_consumed (w_txn w)) since until limit
                               (w_txn w));
  do count <- execute (delete_stmt (oauth2_refresh_token_id <$> to_delete));
  ret (count, max_date consumed_at to_delete).
End Ops.
End RefreshTokenCleanup.

(** ** OAuth 2.0 sessions (oauth2/session.rs) *)
Module OAuth2SessionCleanup.
Import OAuthSessionLookup.

(** The tokens of the sessions are deleted with them; a device code grant goes
    with its session, an authorization grant keeps it. *)
Definition delete_stmt (ids : list Ulid) (d : Db) : option (nat * Db) :=
  let tokens := OAuth2AccessTokenLookup.oauth2_access_token_id
    <$> matching_rows (λ r, bool_decide (OAuth2AccessTokenLookup.oauth2_session_id r ∈ ids)) d in
  let refresh_tokens := OAuth2RefreshTokenLookup.oauth2_refresh_token_id
    <$> matching_rows (λ r, bool_decide (OAuth2RefreshTokenLookup.oauth2_session_id r ∈ ids)) d in
  let gone (s : option Ulid) : bool :=
    match s with Some s => bool_decide (s ∈ ids) | None => false end in
  if bool_decide (map_Forall (λ _ g, gone (GrantLookup.oauth2_session_id g) = false)
                    (oauth2_authorization_grants d))
  then
    '(_, d) ← RefreshTokenCleanup.delete_stmt refresh_tokens d;
    '(_, d) ← AccessTokenCleanup.delete_stmt tokens d;
    '(_, d) ← delete_where_stmt (λ g, gone (OAuth2DeviceGrantLookup.oauth2_session_id g)) d;
    delete_where_stmt (λ r, bool_decide (oauth2_session_id r ∈ ids)) d
  else None.

Definition without_ip (r : t) : t :=
  mk (oauth2_session_id r) (user_id r) (user_session_id r) (oauth2_client_id r) (scope_list r)
    (created_at r) (finished_at r) (user_agent r) (last_active_at r) None (human_name r).

Definition with_activity (at_ : DateTime) (ip : option IpAddr) (r : t) : t :=
  mk (oauth2_session_id r) (user_id r) (user_session_id r) (oauth2_client_id r) (scope_list r)
    (created_at r) (finished_at r) (user_agent r) (Some (greatest at_ (last_active_at r)))
    (coalesce ip (last_active_ip r)) (human_name r).

Section Ops.
Context {R : Type}.
Abbreviation Repo := (M (World R) DatabaseError) (only parsing).

Definition record_batch_activity (activities : list (Ulid * DateTime * option IpAddr)) :
    Repo unit :=
  do res <- execute (batch_stmt with_activity activities);
  lift (ensure_affected_rows res (length activities)).

Definition cleanup_finished (since : option DateTime) (until : DateTime) (limit : Z) :
    Repo (nat * option DateTime) :=
  do to_delete <- gets (λ w, oldest_rows finished_at (λ _, true) since until limit (w_txn w));
  do count <- execute (delete_stmt (oauth2_session_id <$> to_delete));
  ret (count, max_date finished_at to_delete).

Definition cleanup_inactive_ips (since : option DateTime) (threshold : DateTime) (limit : Z) :
    Repo (nat * option DateTime) :=
  do to_update <- gets (λ w, oldest_rows last_active_at
    (λ r, bool_decide (is_Some (last_active_ip r))) since threshold limit (w_txn w));
  do count <- execute (update_where_stmt
    (λ r, bool_decide (oauth2_session_id r ∈ oauth2_session_id <$> to_update)) without_ip);
  ret (count, max_date last_active_at to_update).
End Ops.
End OAuth2SessionCleanup.

(** ** Authorization grants (oauth2/authorization_grant.rs) *)
Module AuthorizationGrantCleanup.
Section Ops.
Context {R : Type}.
Abbreviation Repo := (M (World R) DatabaseError) (only parsing).

Definition cleanup (since : option Ulid) (until : Ulid) (limit : Z) : Repo (nat * option Ulid) :=
  do to_delete <- gets (λ w, cleanup_rows GrantLookup.oauth2_authorization_grant_id (λ _, true)
                               since until limit (w_txn w));
  let ids := GrantLookup.oauth2_authorization_grant_id <$> to_delete in
  do! execute (delete_where_stmt
    (λ r, bool_decide (GrantLookup.oauth2_authorization_grant_id r ∈ ids)));
  ret (length ids, max_id ids).
End Ops.
End AuthorizationGrantCleanup.

(** ** Device code grants (oauth2/device_code_grant.rs) *)
Module DeviceCodeGrantCleanup.
Section Ops.
Context {R : Type}.
Abbreviation Repo := (M (World R) DatabaseError) (only parsing).

Definition cleanup (since : option Ulid) (until : Ulid) (limit : Z) : Repo (nat * option Ulid) :=
  do to_delete <- gets (λ w, cleanup_rows OAuth2DeviceGrantLookup.oauth2_device_code_grant_id
                               (λ _, true) since until limit (w_txn w));
  let ids := OAuth2DeviceGrantLookup.oauth2_device_code_grant_id <$> to_delete in
  do! execute (delete_where_stmt
    (λ r, bool_decide (OAuth2DeviceGrantLookup.oauth2_device_code_grant_id r ∈ ids)));
  ret (length ids, max_id ids).
End Ops.
End DeviceCodeGrantCleanup.

(** ** Browser sessions (user/session.rs) *)
Module BrowserSessionCleanup.
Import UserSessionRow.

(** No OAuth 2.0 session and no compatibility session refers to the session. *)
Definition unreferenced (d : Db) (r : t) : bool :=
  bool_decide (map_Forall (λ _ s, OAuthSessionLookup.user_session_id s ≠ Some (user_session_id r))
                 (oauth2_sessions d))
  && bool_decide (map_Forall
       (λ _ s, CompatSessionLookup.user_session_id s ≠ Some (user_session_id r))
       (compat_sessions d)).

(** The [ON DELETE SET NULL] of the tables that remember the session. *)
Definition clear_grant (ids : list Ulid) (g : GrantLookup.t) : GrantLookup.t :=
  GrantLookup.mk (GrantLookup.oauth2_authorization_grant_id g) (GrantLookup.created_at g)
    (GrantLookup.cancelled_at g) (GrantLookup.fulfilled_at g) (GrantLookup.exchanged_at g)
    (GrantLookup.scope g) (GrantLookup.state g) (GrantLookup.nonce g) (GrantLookup.redirect_uri g)
    (GrantLookup.response_mode g) (GrantLookup.response_type_code g)
    (GrantLookup.response_type_id_token g) (GrantLookup.authorization_code g)
    (GrantLookup.code_challenge g) (GrantLookup.code_challenge_method g)
    (GrantLookup.login_hint g) (GrantLookup.locale g) (GrantLookup.raw_parameters g)
    (GrantLookup.oauth2_client_id g) (unless_deleted ids (GrantLookup.user_session_id g))
    (GrantLookup.oauth2_session_id g).

Definition clear_email (ids : list Ulid) (a : UserEmailAuthenticationLookup.t) :
    UserEmailAuthenticationLookup.t :=
  UserEmailAuthenticationLookup.mk (UserEmailAuthenticationLookup.user_email_authentication_id a)
    (unless_deleted ids (UserEmailAuthenticationLookup.user_session_id a))
    (UserEmailAuthenticationLookup.user_registration_id a) (UserEmailAuthenticationLookup.email a)
    (UserEmailAuthenticationLookup.created_at a) (UserEmailAuthenticationLookup.completed_at a).

Definition clear_upstream (ids : list Ulid) (s : UpstreamSessionLookup.t) :
    UpstreamSessionLookup.t :=
  UpstreamOAuthSessionRepository.with_user_session_id
    (unless_deleted ids (UpstreamSessionLookup.user_session_id s)) s.

(** The authentications are deleted first, the SSO logins go with the session;
    a device code grant, and the sessions the query leaves out, keep it. *)
Definition delete_stmt (ids : list Ulid) (d : Db) : option (nat * Db) :=
  let kept (s : option Ulid) : bool :=
    match s with Some s => bool_decide (s ∉ ids) | None => true end in
  if bool_decide (map_Forall
          (λ _ g, kept (OAuth2DeviceGrantLookup.user_session_id g) = true)
          (oauth2_device_code_grant d))
     && bool_decide (map_Forall (λ _ s, kept (OAuthSessionLookup.user_session_id s) = true)
          (oauth2_sessions d))
     && bool_decide (map_Forall (λ _ s, kept (CompatSessionLookup.user_session_id s) = true)
          (compat_sessions d))
  then
    let authentications := base.filter
      (λ kr, kept (Some (AuthenticationRow.user_session_id kr.2)) = true)
      (user_session_authentications d) in
    let logins := base.filter
      (λ kr, kept (CompatSsoLoginLookup.user_session_id kr.2) = true) (compat_sso_logins d) in
    let d := set_rows authentications (set_rows logins d) in
    let d := set_rows (clear_grant ids <$> oauth2_authorization_grants d) d in
    let d := set_rows (clear_email ids <$> user_email_authentications (accounts d)) d in
    let d := set_rows (clear_upstream ids
                         <$> upstream_oauth_authorization_sessions (accounts d)) d in
    delete_where_stmt (λ r, bool_decide (user_session_id r ∈ ids)) d
  else None.

Definition without_ip (r : t) : t :=
  mk (user_session_id r) (user_id r) (created_at r) (finished_at r) (user_agent r)
    (last_active_at r) None.

Definition with_activity (at_ : DateTime) (ip : option IpAddr) (r : t) : t :=
  mk (user_session_id r) (user_id r) (created_at r) (finished_at r) (user_agent r)
    (Some (greatest at_ (last_active_at r))) (coalesce ip (last_active_ip r)).

Section Ops.
Context {R : Type}.
Abbreviation Repo := (M (World R) DatabaseError) (only parsing).

Definition record_batch_activity (activities : list (Ulid * DateTime * option IpAddr)) :
    Repo unit :=
  do res <- execute (batch_stmt with_activity activities);
  lift (ensure_affected_rows res (length activities)).

Definition cleanup_finished (since : option DateTime) (until : DateTime) (limit : Z) :
    Repo (nat * option DateTime) :=
  do to_delete <- gets (λ w, oldest_rows finished_at (unreferenced (w_txn w)) since until limit
                               (w_txn w));
  do count <- execute (delete_stmt (user_session_id <$> to_delete));
  ret (count, max_date finished_at to_delete).

Definition cleanup_inactive_ips (since : option DateTime) (threshold : DateTime) (limit : Z) :
    Repo (nat * option DateTime) :=
  do to_update <- gets (λ w, oldest_rows last_active_at
    (λ r, bool_decide (is_Some (last_active_ip r))) since threshold limit (w_txn w));
  do count <- execute (update_where_stmt
    (λ r, bool_decide (user_session_id r ∈ user_session_id <$> to_update)) without_ip);
  ret (count, max_date last_active_at to_update).
End Ops.
End BrowserSessionCleanup.

(** ** The jobs (tasks/src/cleanup) *)

Definition BATCH_SIZE : Z := 1000.
Definition HOURS (n : Z) : Duration := n * 3600 * 1000000.
Definition DAYS (n : Z) : Duration := n * 24 * 3600 * 1000000.

Section Jobs.
Context {R : Type} `{!RngCore R} {texts : ErrorTexts}.
Abbreviation Task := (M (World R) JobError) (only parsing).

(** What the cancellation token says at each turn of the loop. *)
Context (cancelled : nat → bool).

(** The loop of a clean-up, in a transaction per batch: the number of rows
    removed, or [None] when [fuel] turns were not enough. *)
Section Batches.
Context (op : option Z → M (World R) DatabaseError (nat * option Z)).

Fixpoint batches (fuel turn : nat) (since : option Z) (total : nat) : Task (option nat) :=
  match fuel with
  | O => ret None
  | S fuel =>
      if cancelled turn then ret (Some total) else
      do! retry_db from_pool;
      do res <- retry_db (op since);
      do! retry_db save;
      let '(count, last) := res in
      let total := (total + count)%nat in
      if Z.of_nat count =? BATCH_SIZE then batches fuel (S turn) last total else ret (Some total)
  end.
End Batches.

(** A clean-up of what is older than a duration, by date or by identifier. *)
Definition by_date (age : Duration)
    (op : option DateTime → DateTime → Z → M (World R) DatabaseError (nat * option DateTime))
    (fuel : nat) : Task (option nat) :=
  do now_ <- now;
  batches (λ since, op since (now_ - age) BATCH_SIZE) fuel 0 None 0.

Definition by_id (age : Duration)
    (op : option Ulid → Ulid → Z → M (World R) DatabaseError (nat * option Ulid))
    (fuel : nat) : Task (option nat) :=
  do now_ <- now;
  batches (λ since, op since (max_ulid_at (now_ - age)) BATCH_SIZE) fuel 0 None 0.

(** tokens.rs *)
Definition cleanup_revoked_oauth_access_tokens_job :=
  by_date (HOURS 1) AccessTokenCleanup.cleanup_revoked.
Definition cleanup_expired_oauth_access_tokens_job :=
  by_date (DAYS 30) AccessTokenCleanup.cleanup_expired.
Definition cleanup_revoked_oauth_refresh_tokens_job :=
  by_date (HOURS 1) RefreshTokenCleanup.cleanup_revoked.
Definition cleanup_consumed_oauth_refresh_tokens_job :=
  by_date (HOURS 1) RefreshTokenCleanup.cleanup_consumed.

(** sessions.rs *)
Definition cleanup_finished_compat_sessions_job :=
  by_date (DAYS 30) CompatSessionRepository.cleanup_finished.
Definition cleanup_finished_oauth2_sessions_job :=
  by_date (DAYS 30) OAuth2SessionCleanup.cleanup_finished.
Definition cleanup_finished_user_sessions_job :=
  by_date (DAYS 30) BrowserSessionCleanup.cleanup_finished.
Definition cleanup_inactive_oauth2_session_ips_job :=
  by_date (DAYS 30) OAuth2SessionCleanup.cleanup_inactive_ips.
Definition cleanup_inactive_compat_session_ips_job :=
  by_date (DAYS 30) CompatSessionRepository.cleanup_inactive_ips.
Definition cleanup_inactive_user_session_ips_job :=
  by_date (DAYS 30) BrowserSessionCleanup.cleanup_inactive_ips.

(** oauth.rs *)
Definition cleanup_oauth_authorization_grants_job :=
  by_id (DAYS 7) AuthorizationGrantCleanup.cleanup.
Definition cleanup_oauth_device_code_grants_job :=
  by_id (DAYS 7) DeviceCodeGrantCleanup.cleanup.
Definition cleanup_upstream_oauth_sessions_job :=
  by_id (DAYS 7) UpstreamOAuthSessionRepository.cleanup_orphaned.
Definition cleanup_upstream_oauth_links_job :=
  by_id (DAYS 7) UpstreamOAuthLinkRepository.cleanup_orphaned.

(** user.rs *)
Definition cleanup_user_registrations_job :=
  by_id (DAYS 30) UserRegistrationRepository.cleanup.
Definition cleanup_user_recovery_sessions_job :=
  by_id (DAYS 7) UserRecoveryRepository.cleanup.
Definition cleanup_user_email_authentications_job :=
  by_id (DAYS 7) UserEmailAuthenticationRepository.cleanup_authentications.

(** misc.rs *)
Definition cleanup_queue_jobs_job := by_id (DAYS 30) QueueJobRepository.cleanup.
End Jobs.
