(* ===== verification/RepoFacts.v ===== *)
(** * What the repository operations do

    Inversion lemmas for the successful runs of the statements and of the
    repository operations: the value returned, the row written and the rest
    of the database left alone; and that no operation but [save] touches the
    committed database. *)

From stdpp Require Import base tactics list strings gmap.
From Stdlib Require Import ZArith Lia Ascii.
From S2P Require Import Prelude Text Scope Externals Formats TokenFormat DataModel Storage TokenRepo GrantRepo QueueRepo UserRepo.

(** ** Rows found by a column *)

Section FindRow.
Context {Row : Type} `{!Table Row}.
Implicit Types (p : Row → bool) (d : Db).

Lemma elem_of_rows d r : r ∈ (map_to_list (rows d)).*2 ↔ ∃ id, rows d !! id = Some r.
Proof.
  rewrite list_elem_of_fmap. split.
  - intros ([id r'] & -> & H%elem_of_map_to_list). eauto.
  - intros [id H%elem_of_map_to_list]. by exists (id, r).
Qed.

Lemma find_row_Some p d r : find_row p d = Some r → p r = true ∧ ∃ id, rows d !! id = Some r.
Proof.
  unfold find_row. intros H%head_Some_elem_of.
  apply list_elem_of_filter in H as [Hp H]. by apply elem_of_rows in H.
Qed.

Lemma find_row_None p d id r : find_row p d = None → rows d !! id = Some r → p r = false.
Proof.
  unfold find_row. intros H Hr. destruct (p r) eqn:Hp; [|done]. exfalso.
  assert (r ∈ filter (λ r, p r = true) (map_to_list (rows d)).*2) as Hin
    by (apply list_elem_of_filter; split; [done | apply elem_of_rows; eauto]).
  destruct (filter _ _); [by apply not_elem_of_nil in Hin | done].
Qed.

Lemma find_row_unique p d id r :
  rows d !! id = Some r → p r = true →
  (∀ id1 r1 id2 r2, rows d !! id1 = Some r1 → rows d !! id2 = Some r2 →
     p r1 = true → p r2 = true → r1 = r2) →
  find_row p d = Some r.
Proof.
  intros Hr Hp Hu. destruct (find_row p d) as [r'|] eqn:Hf.
  - apply find_row_Some in Hf as [Hp' [id' Hr']]. f_equal. eauto.
  - eapply find_row_None in Hf; [|done]. congruence.
Qed.
End FindRow.

(** ** Runs of the statements *)

Section Statements.
Context {R : Type}.
Implicit Types w : World R.

(** What a read leaves alone. *)
Definition same_db w w' : Prop :=
  w_txn w' = w_txn w ∧ w_committed w' = w_committed w ∧ w_clock w' = w_clock w.
Definition same_committed w w' : Prop :=
  w_committed w' = w_committed w ∧ w_clock w' = w_clock w.

#[export] Instance same_db_preorder : PreOrder same_db.
Proof. split; [done|]. intros ??? (?&?&?) (?&?&?). repeat split; congruence. Qed.
#[export] Instance same_committed_preorder : PreOrder same_committed.
Proof. split; [done|]. intros ??? (?&?) (?&?). split; congruence. Qed.

Lemma now_inv {E} w t w' :
  now (E := E) w = (Ok t, w') → t = w_clock w (w_ticks w) ∧ same_db w w'.
Proof. unfold now. intros [= <- <-]. done. Qed.

Lemma with_rng_inv {E A} (f : R → A * R) w a w' :
  with_rng (E := E) f w = (Ok a, w') → (∃ rng, a = (f rng).1) ∧ same_db w w'.
Proof.
  unfold with_rng. destruct (f (w_rng w)) as [x r] eqn:Hf. intros [= <- <-].
  split; [|done]. exists (w_rng w). by rewrite Hf.
Qed.

Lemma query_inv w u w' : query w = (Ok u, w') → same_db w w'.
Proof. unfold query. destruct (w_driver_faults w) as [|[] ?]; intros [= <- <-]; done. Qed.

Lemma select_inv {A} (f : Db → A) w a w' :
  select f w = (Ok a, w') → a = f (w_txn w) ∧ same_db w w'.
Proof.
  intros ([] & w1 & Hq & H)%bind_Ok_inv. injection H as <- <-.
  apply query_inv in Hq as (? & ? & ?). split; [congruence|done].
Qed.

Lemma execute_inv stmt w n w' :
  execute stmt w = (Ok n, w') →
  stmt (w_txn w) = Some (n, w_txn w') ∧ same_committed w w'.
Proof.
  intros ([] & w1 & Hq & H)%bind_Ok_inv. apply query_inv in Hq as (Ht & Hc & Hk).
  rewrite Ht in H. destruct (stmt (w_txn w)) as [[n' d]|]; [|done].
  injection H as <- <-. done.
Qed.

Lemma save_inv w u w' : save w = (Ok u, w') → w_committed w' = w_txn w ∧ w_txn w' = w_txn w.
Proof.
  intros ([] & w1 & Hq & H)%bind_Ok_inv. injection H as <- <-.
  apply query_inv in Hq as (Ht & Hc & Hk). done.
Qed.

Lemma from_pool_inv w u w' :
  from_pool w = (Ok u, w') → w_txn w' = w_committed w ∧ same_committed w w'.
Proof.
  intros ([] & w1 & Hq & H)%bind_Ok_inv. injection H as <- <-.
  apply query_inv in Hq as (Ht & Hc & Hk). done.
Qed.

Lemma ensure_affected_rows_inv n k u : ensure_affected_rows n k = Ok u → n = k.
Proof. unfold ensure_affected_rows. by case_decide. Qed.

Lemma decode_row_inv {Row A} (decode : Row → result DatabaseInconsistencyError A) o w a w' :
  decode_row decode o w = (Ok a, w') →
  w' = w ∧ match o with
           | None => a = None
           | Some r => ∃ x, a = Some x ∧ decode r = Ok x
           end.
Proof.
  unfold decode_row. destruct o as [r|]; [|by intros [= <- <-]].
  intros (x & w1 & H & [= <- <-])%bind_Ok_inv. apply lift_inv in H as [H ->].
  split; [done|]. exists x. destruct (decode r); simplify_eq/=; done.
Qed.

Lemma insert_stmt_inv {Row} `{!Table Row} id (r : Row) cs d n d' :
  insert_stmt id r cs d = Some (n, d') →
  rows d !! id = None ∧ cs d = true ∧ n = 1 ∧ d' = set_rows (<[id := r]> (rows d)) d.
Proof.
  unfold insert_stmt. destruct (rows d !! id); [done|]. destruct (cs d); naive_solver.
Qed.

Lemma update_stmt_inv {Row} `{!Table Row} id (f : Row → Row) cs d d' :
  update_stmt id f cs d = Some (1, d') →
  ∃ r, rows d !! id = Some r ∧ cs d = true ∧ d' = set_rows (<[id := f r]> (rows d)) d.
Proof.
  unfold update_stmt. destruct (rows d !! id) as [r|]; [|done].
  destruct (cs d); naive_solver.
Qed.

(** Every statement but a commit leaves the committed database alone. *)
Lemma keeps_now {E} : keeps same_committed (@now R E).
Proof. done. Qed.
Lemma keeps_with_rng {E A} (f : R → A * R) : keeps same_committed (with_rng (E := E) f).
Proof. intros w. unfold with_rng. by destruct (f (w_rng w)). Qed.
Lemma keeps_query : keeps same_committed (@query R).
Proof. intros w. unfold query. by destruct (w_driver_faults w) as [|[] ?]. Qed.
Lemma keeps_select {A} (f : Db → A) : keeps same_committed (@select R A f).
Proof. apply keeps_bind; [apply _ | apply keeps_query | done]. Qed.
Lemma keeps_execute stmt : keeps same_committed (@execute R stmt).
Proof.
  apply keeps_bind; [apply _ | apply keeps_query | intros _ w].
  by destruct (stmt (w_txn w)) as [[]|].
Qed.
Lemma keeps_from_pool : keeps same_committed (@from_pool R).
Proof. apply keeps_bind; [apply _ | apply keeps_query | done]. Qed.
Lemma err_keeps_save : err_keeps same_committed (@save R).
Proof.
  apply err_keeps_bind; [apply _ | apply keeps_query | done].
Qed.

Lemma render_answer_same_db {E} (e : E) : keeps same_db (render_answer (R := R) e).
Proof. intros w. unfold render_answer. by destruct (w_render_faults w) as [|[] ?]. Qed.
Lemma render_answer_inv {E} (e : E) w u w' : render_answer e w = (Ok u, w') → same_db w w'.
Proof. intros H. by eapply keeps_run; [apply render_answer_same_db|]. Qed.
Lemma keeps_render_answer {E} (e : E) : keeps same_committed (render_answer (R := R) e).
Proof. intros w. by destruct (render_answer_same_db e w) as (_ & ? & ?). Qed.

(** A run that saves as its last fallible step. *)
Lemma err_keeps_save_ret {E A} (f : DatabaseError → E) (a : A) :
  err_keeps same_committed (do! mmap_err f (@save R); ret a).
Proof.
  intros w e w' [(e1 & H%err_keeps_save & _)%mmap_err_Err_inv|(? & ? & _ & H)]%bind_Err_inv;
    done.
Qed.

Lemma err_keeps_save_err {E} (f : DatabaseError → E) :
  err_keeps same_committed (mmap_err f (@save R)).
Proof. intros w e w' (e1 & H%err_keeps_save & _)%mmap_err_Err_inv. done. Qed.
Lemma keeps_decode_row {Row A} (decode : Row → result DatabaseInconsistencyError A) o :
  keeps same_committed (decode_row (W := World R) decode o).
Proof. unfold decode_row. destruct o; keeps_tac. Qed.
End Statements.

#[export] Hint Resolve keeps_now keeps_with_rng keeps_query keeps_select keeps_execute
  keeps_from_pool keeps_decode_row keeps_render_answer render_answer_same_db : keeps.

(** A handler that saves at its end commits nothing when it fails. *)
Ltac err_tac :=
  repeat (intros; lazymatch goal with
    | |- err_keeps _ (bind (_ (@save _)) _) => apply err_keeps_save_ret
    | |- err_keeps _ (_ (@save _)) => apply err_keeps_save_err
    | |- err_keeps _ (bind _ _) => apply err_keeps_bind; [apply _ | keeps_tac | intros ?]
    | |- err_keeps _ (match ?x with _ => _ end) => destruct x
    | |- err_keeps _ _ => apply keeps_err_keeps; keeps_tac
    end).

(** Inverts a successful run down to its statements and rewrites the final
    world with what they do. *)
Ltac run_inv H :=
  lazymatch type of H with
  | bind _ _ _ = (Ok _, _) =>
      let a := fresh "x" in let w1 := fresh "w" in let Hm := fresh "Hrun" in
      apply bind_Ok_inv in H as (a & w1 & Hm & H); run_inv Hm; run_inv H
  | now _ = _ => apply now_inv in H as [? (? & ? & ?)]
  | with_rng _ _ = _ => apply with_rng_inv in H as [[? ?] (? & ? & ?)]
  | query _ = _ => apply query_inv in H as (? & ? & ?)
  | render_answer _ _ = _ => apply render_answer_inv in H as (? & ? & ?)
  | select _ _ = _ => apply select_inv in H as [? (? & ? & ?)]
  | execute _ _ = _ => apply execute_inv in H as [? (? & ?)]
  | decode_row _ _ _ = _ => apply decode_row_inv in H as [? ?]
  | lift _ _ = _ => apply lift_inv in H as [? ?]
  | ret _ _ = _ => injection H as ? ?
  | fail _ _ = _ => discriminate H
  | _ => idtac
  end.

(** The head constant of a computation applied to a world. *)
Ltac head_of t := lazymatch t with ?f _ => head_of f | _ => t end.
Ltac op_inv H :=
  lazymatch type of H with ?m _ = _ => let h := head_of m in unfold h in H; run_inv H end.

Ltac world_simpl :=
  subst;
  repeat match goal with
    | H : w_txn ?w = w_txn _, H' : context [w_txn ?w] |- _ =>
        lazymatch H' with H => fail | _ => rewrite H in H' end
    | H : w_txn ?w = w_txn _ |- context [w_txn ?w] => rewrite H
    end.

Ltac same_world := repeat split; simpl; congruence.

(** The row an [INSERT] or an [UPDATE] of a run wrote. *)
Ltac insert_inv Hc :=
  match goal with H : insert_stmt _ _ _ _ = _ |- _ =>
    apply insert_stmt_inv in H as (? & Hc & ? & ?); subst end.
Ltac update_inv r Hc :=
  repeat match goal with H : Ok _ = ensure_affected_rows _ _ |- _ =>
    symmetry in H; apply ensure_affected_rows_inv in H as -> end;
  match goal with H : update_stmt _ _ _ _ = _ |- _ =>
    apply update_stmt_inv in H as (r & ? & Hc & ?) end.

Ltac destruct_ex :=
  repeat match goal with H : ∃ _, _ |- _ => destruct H end; destruct_and?.

Lemma exists_row_true {Row} `{!Table Row} id d :
  exists_row id d = true ↔ is_Some (rows d !! id).
Proof.
  unfold exists_row. destruct (rows d !! id); [|split; [done | by intros []]].
  split; [eauto | done].
Qed.

Lemma exists_row_opt_true {Row} `{!Table Row} id d :
  exists_row_opt id d = true ↔ ∀ k, id = Some k → is_Some (rows d !! k).
Proof.
  destruct id as [k|]; simpl; [rewrite exists_row_true|]; naive_solver.
Qed.

Lemma unique_value_true {Row} `{!Table Row} (col : Row → option string) v d :
  unique_value col v d = true ↔ ∀ k r, rows d !! k = Some r → col r ≠ Some v.
Proof. unfold unique_value. by rewrite bool_decide_eq_true. Qed.

Lemma map_err_Ok {E F A} (f : E → F) (r : result E A) a : Ok a = map_err f r → r = Ok a.
Proof. destruct r; naive_solver. Qed.

Section RepoRuns.
Context {R : Type} `{!RngCore R}.
Implicit Types w : World R.

(** *** Access tokens *)
Lemma access_lookup_inv id w o w' :
  AccessTokenRepository.lookup id w = (Ok o, w') →
  o = AccessTokenRepository.of_row <$> oauth2_access_tokens (w_txn w) !! id ∧ same_db w w'.
Proof. intros H. op_inv H. subst. split; [done | same_world]. Qed.

Lemma access_find_inv s w o w' :
  AccessTokenRepository.find_by_token s w = (Ok o, w') →
  same_db w w' ∧
  match o with
  | None => ∀ id r, oauth2_access_tokens (w_txn w) !! id = Some r →
      OAuth2AccessTokenLookup.access_token r ≠ s
  | Some a => ∃ id r, oauth2_access_tokens (w_txn w) !! id = Some r ∧
      OAuth2AccessTokenLookup.access_token r = s ∧ a = AccessTokenRepository.of_row r
  end.
Proof.
  intros H. op_inv H. subst. split; [same_world|].
  destruct (find_row _ _) as [r|] eqn:Hf; simpl.
  - apply find_row_Some in Hf as [Hp [id Hr]]. apply bool_decide_eq_true in Hp. eauto.
  - intros id r Hr. eapply find_row_None in Hf; [|done]. by apply bool_decide_eq_false in Hf.
Qed.

Lemma access_add_inv session s ttl w a w' :
  AccessTokenRepository.add session s ttl w = (Ok a, w') →
  ∃ id t, let expires := (λ d, t + d)%Z <$> ttl in
    oauth2_access_tokens (w_txn w) !! id = None ∧
    is_Some (oauth2_sessions (w_txn w) !! Session.id session) ∧
    (∀ k r, oauth2_access_tokens (w_txn w) !! k = Some r →
       OAuth2AccessTokenLookup.access_token r ≠ s) ∧
    a = AccessToken.mk id AccessTokenState.Valid (Session.id session) s t expires None ∧
    w_txn w' = set_rows (<[id := OAuth2AccessTokenLookup.mk id (Session.id session) s t
                                   expires None None]> (oauth2_access_tokens (w_txn w)))
                 (w_txn w) ∧
    same_committed w w'.
Proof.
  intros H. op_inv H. world_simpl. insert_inv Hc.
  rewrite andb_true_iff, exists_row_true, unique_value_true in Hc. destruct Hc as [? Hu].
  do 2 eexists. split_and!; try done; [|same_world].
  intros k r Hk. specialize (Hu k r Hk). simpl in Hu. congruence.
Qed.

Lemma access_revoke_inv a w b w' :
  AccessTokenRepository.revoke a w = (Ok b, w') →
  ∃ t r, oauth2_access_tokens (w_txn w) !! AccessToken.id a = Some r ∧
    AccessToken.revoke a t = Ok b ∧
    w_txn w' = set_rows (<[AccessToken.id a := AccessTokenRepository.with_revoked_at t r]>
                           (oauth2_access_tokens (w_txn w))) (w_txn w) ∧
    same_committed w w'.
Proof.
  intros H. op_inv H. world_simpl. update_inv r Hc.
  do 2 eexists. split_and!; try done; [by eapply map_err_Ok | same_world].
Qed.

Lemma access_mark_used_inv a w b w' :
  AccessTokenRepository.mark_used a w = (Ok b, w') →
  ∃ t r, oauth2_access_tokens (w_txn w) !! AccessToken.id a = Some r ∧
    b = AccessToken.with_first_used_at a (Some t) ∧
    w_txn w' = set_rows (<[AccessToken.id a := AccessTokenRepository.with_first_used_at t r]>
                           (oauth2_access_tokens (w_txn w))) (w_txn w) ∧
    same_committed w w'.
Proof.
  intros H. op_inv H. world_simpl. update_inv r Hc.
  do 2 eexists. split_and!; try done; same_world.
Qed.

(** *** Refresh tokens *)
Lemma refresh_lookup_inv id w o w' :
  RefreshTokenRepository.lookup id w = (Ok o, w') →
  same_db w w' ∧
  match o with
  | None => oauth2_refresh_tokens (w_txn w) !! id = None
  | Some x => ∃ r, oauth2_refresh_tokens (w_txn w) !! id = Some r ∧
      RefreshTokenRepository.try_from r = Ok x
  end.
Proof.
  intros H. op_inv H. subst. split; [same_world|]. simpl in *.
  destruct (oauth2_refresh_tokens _ !! id); naive_solver.
Qed.

Lemma refresh_find_inv s w o w' :
  RefreshTokenRepository.find_by_token s w = (Ok o, w') →
  same_db w w' ∧
  match o with
  | None => ∀ id r, oauth2_refresh_tokens (w_txn w) !! id = Some r →
      OAuth2RefreshTokenLookup.refresh_token r ≠ s
  | Some x => ∃ id r, oauth2_refresh_tokens (w_txn w) !! id = Some r ∧
      OAuth2RefreshTokenLookup.refresh_token r = s ∧ RefreshTokenRepository.try_from r = Ok x
  end.
Proof.
  intros H. op_inv H. subst. split; [same_world|].
  destruct (find_row _ _) as [r|] eqn:Hf; simpl in *; destruct_ex.
  - apply find_row_Some in Hf as [Hp%bool_decide_eq_true [id Hr]]. subst. eauto 10.
  - subst. intros id r Hr. eapply find_row_None in Hf; [|done].
    by apply bool_decide_eq_false in Hf.
Qed.

Lemma refresh_add_inv session a s w b w' :
  RefreshTokenRepository.add session a s w = (Ok b, w') →
  ∃ id t, oauth2_refresh_tokens (w_txn w) !! id = None ∧
    is_Some (oauth2_sessions (w_txn w) !! Session.id session) ∧
    is_Some (oauth2_access_tokens (w_txn w) !! AccessToken.id a) ∧
    (∀ k r, oauth2_refresh_tokens (w_txn w) !! k = Some r →
       OAuth2RefreshTokenLookup.refresh_token r ≠ s) ∧
    b = RefreshToken.mk id RefreshTokenState.Valid s (Session.id session) t
          (Some (AccessToken.id a)) ∧
    w_txn w' = set_rows (<[id := OAuth2RefreshTokenLookup.mk id s t None None
                                   (Some (AccessToken.id a)) (Session.id session) None]>
                           (oauth2_refresh_tokens (w_txn w))) (w_txn w) ∧
    same_committed w w'.
Proof.
  intros H. op_inv H. world_simpl. insert_inv Hc.
  rewrite !andb_true_iff, !exists_row_true, unique_value_true in Hc.
  destruct Hc as [[? ?] Hu].
  do 2 eexists. split_and!; try done; [|same_world].
  intros k r Hk. specialize (Hu k r Hk). simpl in Hu. congruence.
Qed.

Lemma refresh_consume_inv x n w b w' :
  RefreshTokenRepository.consume x n w = (Ok b, w') →
  ∃ t r, oauth2_refresh_tokens (w_txn w) !! RefreshToken.id x = Some r ∧
    is_Some (oauth2_refresh_tokens (w_txn w) !! RefreshToken.id n) ∧
    RefreshToken.consume x t n = Ok b ∧
    w_txn w' = set_rows (<[RefreshToken.id x :=
                             RefreshTokenRepository.with_consumed t (RefreshToken.id n) r]>
                           (oauth2_refresh_tokens (w_txn w))) (w_txn w) ∧
    same_committed w w'.
Proof.
  intros H. op_inv H. world_simpl. update_inv r Hc. apply exists_row_true in Hc.
  do 2 eexists. split_and!; try done; [by eapply map_err_Ok | same_world].
Qed.

Lemma refresh_revoke_inv x w b w' :
  RefreshTokenRepository.revoke x w = (Ok b, w') →
  ∃ t r, oauth2_refresh_tokens (w_txn w) !! RefreshToken.id x = Some r ∧
    RefreshToken.revoke x t = Ok b ∧
    w_txn w' = set_rows (<[RefreshToken.id x := RefreshTokenRepository.with_revoked_at t r]>
                           (oauth2_refresh_tokens (w_txn w))) (w_txn w) ∧
    same_committed w w'.
Proof.
  intros H. op_inv H. world_simpl. update_inv r Hc.
  do 2 eexists. split_and!; try done; [by eapply map_err_Ok | same_world].
Qed.

(** *** Sessions *)
Lemma session_lookup_inv id w o w' :
  SessionRepository.lookup id w = (Ok o, w') →
  same_db w w' ∧
  match o with
  | None => oauth2_sessions (w_txn w) !! id = None
  | Some x => ∃ r, oauth2_sessions (w_txn w) !! id = Some r ∧
      SessionRepository.try_from r = Ok x
  end.
Proof.
  intros H. op_inv H. subst. split; [same_world|]. simpl in *.
  destruct (oauth2_sessions _ !! id); naive_solver.
Qed.

Lemma session_add_inv client user us scope w s w' :
  SessionRepository.add client user us scope w = (Ok s, w') →
  ∃ id t, oauth2_sessions (w_txn w) !! id = None ∧
    (∀ u, user = Some u → is_Some (users (w_txn w) !! User.id u)) ∧
    (∀ b, us = Some b → is_Some (user_sessions (w_txn w) !! BrowserSession.id b)) ∧
    is_Some (oauth2_clients (w_txn w) !! Client.id client) ∧
    s = Session.mk id SessionState.Valid t (User.id <$> user) (BrowserSession.id <$> us)
          (Client.id client) scope None None None None ∧
    w_txn w' = set_rows (<[id := OAuthSessionLookup.mk id (User.id <$> user)
                                   (BrowserSession.id <$> us) (Client.id client) scope t
                                   None None None None None]>
                           (oauth2_sessions (w_txn w))) (w_txn w) ∧
    same_committed w w'.
Proof.
  intros H. op_inv H. world_simpl. insert_inv Hc.
  rewrite !andb_true_iff, !exists_row_opt_true, exists_row_true in Hc.
  destruct Hc as [[Hu Hs] ?].
  do 2 eexists. split_and!; try done; [| |same_world]; intros ? ->; eauto.
Qed.

Lemma session_finish_inv s w s' w' :
  SessionRepository.finish s w = (Ok s', w') →
  ∃ t r, oauth2_sessions (w_txn w) !! Session.id s = Some r ∧
    Session.finish s t = Ok s' ∧
    w_txn w' = set_rows (<[Session.id s := SessionRepository.with_finished_at t r]>
                           (oauth2_sessions (w_txn w))) (w_txn w) ∧
    same_committed w w'.
Proof.
  intros H. op_inv H. world_simpl. update_inv r Hc.
  do 2 eexists. split_and!; try done; [by eapply map_err_Ok | same_world].
Qed.

Lemma session_user_agent_inv s ua w s' w' :
  SessionRepository.record_user_agent s ua w = (Ok s', w') →
  ∃ r, oauth2_sessions (w_txn w) !! Session.id s = Some r ∧
    s' = Session.with_user_agent s (Some ua) ∧
    w_txn w' = set_rows (<[Session.id s := SessionRepository.with_user_agent ua r]>
                           (oauth2_sessions (w_txn w))) (w_txn w) ∧
    same_committed w w'.
Proof.
  intros H. op_inv H. world_simpl. update_inv r Hc.
  eexists. split_and!; try done; same_world.
Qed.

Lemma session_finish_bulk_inv f w n w' :
  SessionRepository.finish_bulk f w = (Ok n, w') →
  ∃ t, w_txn w' = set_rows
      ((λ r, if OAuth2SessionFilter.generate_condition f (w_txn w) r
             then SessionRepository.with_finished_at t r else r)
         <$> oauth2_sessions (w_txn w)) (w_txn w) ∧
    same_committed w w'.
Proof.
  intros H. op_inv H. world_simpl.
  match goal with H : update_where_stmt _ _ _ = _ |- _ => injection H as _ Hd end.
  eexists. split; [by rewrite <- Hd | same_world].
Qed.
End RepoRuns.

Section GrantRuns.
Context {R : Type} `{!RngCore R} {url_lib : UrlLib} {ulid_text : UlidText}.
Implicit Types w : World R.

(** *** Authorization grants *)
Lemma grant_find_inv s w o w' :
  AuthorizationGrantRepository.find_by_code s w = (Ok o, w') →
  same_db w w' ∧
  match o with
  | None => ∀ id r, oauth2_authorization_grants (w_txn w) !! id = Some r →
      GrantLookup.authorization_code r ≠ Some s
  | Some g => ∃ id r, oauth2_authorization_grants (w_txn w) !! id = Some r ∧
      GrantLookup.authorization_code r = Some s ∧
      AuthorizationGrantRepository.try_from r = Ok g
  end.
Proof.
  intros H. op_inv H. subst. split; [same_world|].
  destruct (find_row _ _) as [r|] eqn:Hf; simpl in *; destruct_ex.
  - apply find_row_Some in Hf as [Hp%bool_decide_eq_true [id Hr]]. subst. eauto 10.
  - subst. intros id r Hr. eapply find_row_None in Hf; [|done].
    by apply bool_decide_eq_false in Hf.
Qed.

Lemma grant_exchange_inv g s w g' w' :
  AuthorizationGrantRepository.exchange g s w = (Ok g', w') →
  ∃ t r, oauth2_authorization_grants (w_txn w) !! AuthorizationGrant.id g = Some r ∧
    AuthorizationGrant.exchange g t s = Ok g' ∧
    w_txn w' = set_rows (<[AuthorizationGrant.id g :=
        AuthorizationGrantRepository.with_exchanged t (Session.id s) r]>
        (oauth2_authorization_grants (w_txn w))) (w_txn w) ∧
    same_committed w w'.
Proof.
  intros H. op_inv H. world_simpl. update_inv r Hc.
  do 2 eexists. split_and!; try done; [by eapply map_err_Ok | same_world].
Qed.

Lemma grant_fulfill_inv b g w g' w' :
  AuthorizationGrantRepository.fulfill b g w = (Ok g', w') →
  ∃ t r, oauth2_authorization_grants (w_txn w) !! AuthorizationGrant.id g = Some r ∧
    AuthorizationGrant.fulfill g t b = Ok g' ∧
    w_txn w' = set_rows (<[AuthorizationGrant.id g :=
        AuthorizationGrantRepository.with_fulfilled t (BrowserSession.id b) r]>
        (oauth2_authorization_grants (w_txn w))) (w_txn w) ∧
    same_committed w w'.
Proof.
  intros H. op_inv H. world_simpl. update_inv r Hc.
  do 2 eexists. split_and!; try done; [by eapply map_err_Ok | same_world].
Qed.

(** *** Device code grants *)
Lemma device_find_inv s w o w' :
  DeviceCodeGrantRepository.find_by_device_code s w = (Ok o, w') →
  same_db w w' ∧
  match o with
  | None => ∀ id r, oauth2_device_code_grant (w_txn w) !! id = Some r →
      OAuth2DeviceGrantLookup.device_code r ≠ s
  | Some g => ∃ id r, oauth2_device_code_grant (w_txn w) !! id = Some r ∧
      OAuth2DeviceGrantLookup.device_code r = s ∧
      DeviceCodeGrantRepository.try_from r = Ok g
  end.
Proof.
  intros H. op_inv H. subst. split; [same_world|].
  destruct (find_row _ _) as [r|] eqn:Hf; simpl in *; destruct_ex.
  - apply find_row_Some in Hf as [Hp%bool_decide_eq_true [id Hr]]. subst. eauto 10.
  - subst. intros id r Hr. eapply find_row_None in Hf; [|done].
    by apply bool_decide_eq_false in Hf.
Qed.

Lemma device_exchange_inv g s w g' w' :
  DeviceCodeGrantRepository.exchange g s w = (Ok g', w') →
  ∃ t r, oauth2_device_code_grant (w_txn w) !! DeviceCodeGrant.id g = Some r ∧
    DeviceCodeGrant.exchange g s t = Ok g' ∧
    w_txn w' = set_rows (<[DeviceCodeGrant.id g :=
        DeviceCodeGrantRepository.with_exchanged t (Session.id s) r]>
        (oauth2_device_code_grant (w_txn w))) (w_txn w) ∧
    same_committed w w'.
Proof.
  intros H. op_inv H. world_simpl. update_inv r Hc.
  match goal with H : Ok _ = map_err _ _ |- _ => apply map_err_Ok in H as Hg end.
  assert (DeviceCodeGrant.id g' = DeviceCodeGrant.id g) as Hid.
  { unfold DeviceCodeGrant.exchange in Hg. apply rbind_Ok_inv in Hg as (? & _ & [= <-]). done. }
  rewrite Hid in *. do 2 eexists. split_and!; try done; same_world.
Qed.

Lemma device_add_inv p w g w' :
  DeviceCodeGrantRepository.add p w = (Ok g, w') →
  ∃ gid n, let t := w_clock w n in
    let expires := (t + DeviceCodeGrantRepository.p_expires_in p)%Z in
    let scope := DeviceCodeGrantRepository.p_scope p in
    let cid := Client.id (DeviceCodeGrantRepository.p_client p) in
    let dc := DeviceCodeGrantRepository.p_device_code p in
    let uc := DeviceCodeGrantRepository.p_user_code p in
    let ip := DeviceCodeGrantRepository.p_ip_address p in
    let ua := DeviceCodeGrantRepository.p_user_agent p in
    oauth2_device_code_grant (w_txn w) !! gid = None ∧
    g = DeviceCodeGrant.mk gid DeviceCodeGrantState.Pending cid scope uc dc t expires ip ua
          None ∧
    w_txn w' = set_rows (<[gid := OAuth2DeviceGrantLookup.mk gid cid (Scope_to_string scope)
        dc uc t expires None None None None None ip ua None]>
      (oauth2_device_code_grant (w_txn w))) (w_txn w) ∧
    same_committed w w'.
Proof.
  intros H. op_inv H. world_simpl. insert_inv Hc.
  do 2 eexists. split_and!; try done; same_world.
Qed.

Lemma device_transition_id {E} (r : result E DeviceCodeGrantState.t) g l g' :
  (try st <- r; Ok (DeviceCodeGrant.with_state_locale g st l)) = Ok g' →
  DeviceCodeGrant.id g' = DeviceCodeGrant.id g ∧ DeviceCodeGrant.locale g' = l.
Proof. by intros (? & _ & [= <-])%rbind_Ok_inv. Qed.

Lemma device_fulfill_inv g b l w g' w' :
  DeviceCodeGrantRepository.fulfill g b l w = (Ok g', w') →
  ∃ t r, oauth2_device_code_grant (w_txn w) !! DeviceCodeGrant.id g = Some r ∧
    DeviceCodeGrant.fulfill g b l t = Ok g' ∧
    w_txn w' = set_rows (<[DeviceCodeGrant.id g :=
        DeviceCodeGrantRepository.with_fulfilled t (BrowserSession.id b)
          (DeviceCodeGrant.locale g') r]>
        (oauth2_device_code_grant (w_txn w))) (w_txn w) ∧
    same_committed w w'.
Proof.
  intros H. op_inv H. world_simpl. update_inv r Hc.
  match goal with H : Ok _ = map_err _ _ |- _ => apply map_err_Ok in H as Hg end.
  apply device_transition_id in Hg as Hid. destruct Hid as [Hid _].
  rewrite Hid in *. do 2 eexists. split_and!; try done; same_world.
Qed.

Lemma device_reject_inv g b w g' w' :
  DeviceCodeGrantRepository.reject g b w = (Ok g', w') →
  ∃ t r, oauth2_device_code_grant (w_txn w) !! DeviceCodeGrant.id g = Some r ∧
    DeviceCodeGrant.reject g b t = Ok g' ∧
    w_txn w' = set_rows (<[DeviceCodeGrant.id g :=
        DeviceCodeGrantRepository.with_rejected t (BrowserSession.id b) r]>
        (oauth2_device_code_grant (w_txn w))) (w_txn w) ∧
    same_committed w w'.
Proof.
  intros H. op_inv H. world_simpl. update_inv r Hc.
  match goal with H : Ok _ = map_err _ _ |- _ => apply map_err_Ok in H as Hg end.
  apply device_transition_id in Hg as Hid. destruct Hid as [Hid _].
  rewrite Hid in *. do 2 eexists. split_and!; try done; same_world.
Qed.

(** *** Browser sessions and users *)
Lemma browser_lookup_inv id w o w' :
  BrowserSessionRepository.lookup id w = (Ok o, w') →
  same_db w w' ∧
  o = BrowserSessionRepository.try_from <$>
        BrowserSessionRepository.select_session id (w_txn w).
Proof. intros H. op_inv H. subst. split; [same_world | done]. Qed.

Lemma browser_select_Some id d x :
  BrowserSessionRepository.select_session id d = Some x ↔
  user_sessions d !! id = Some x.1 ∧ users d !! UserSessionRow.user_id x.1 = Some x.2.
Proof.
  unfold BrowserSessionRepository.select_session. destruct x as [s u]. simpl.
  destruct (user_sessions d !! id) as [s'|]; simpl; [|naive_solver].
  destruct (users d !! UserSessionRow.user_id s') eqn:?; simpl; naive_solver.
Qed.

Lemma browser_finish_inv b w b' w' :
  BrowserSessionRepository.finish b w = (Ok b', w') →
  ∃ t r, user_sessions (w_txn w) !! BrowserSession.id b = Some r ∧
    b' = BrowserSession.with_finished_at b (Some t) ∧
    w_txn w' = set_rows (<[BrowserSession.id b :=
        BrowserSessionRepository.with_finished_at t r]> (user_sessions (w_txn w))) (w_txn w) ∧
    same_committed w w'.
Proof.
  intros H. op_inv H. world_simpl. update_inv r Hc.
  do 2 eexists. split_and!; try done; same_world.
Qed.

Lemma last_authentication_inv b w o w' :
  BrowserSessionRepository.get_last_authentication b w = (Ok o, w') → same_db w w'.
Proof. intros H. op_inv H. subst. same_world. Qed.

Lemma user_lookup_inv id w o w' :
  UserRepository.lookup id w = (Ok o, w') →
  same_db w w' ∧ o = UserRepository.of_row <$> users (w_txn w) !! id.
Proof. intros H. op_inv H. subst. split; [same_world | done]. Qed.

Lemma schedule_inv u w x w' :
  QueueJobRepository.schedule_sync_devices u w = (Ok x, w') →
  ∃ id t, queue_jobs (w_txn w) !! id = None ∧
    w_txn w' = set_rows (<[id := QueueJobRepository.sync_devices_row id (User.id u) t]>
                           (queue_jobs (w_txn w))) (w_txn w) ∧
    same_committed w w'.
Proof.
  intros H. unfold QueueJobRepository.schedule_sync_devices in H. op_inv H. world_simpl. insert_inv Hc.
  do 2 eexists. split_and!; try done; same_world.
Qed.
End GrantRuns.

(** The repository operations, for [keeps_tac] to unfold. *)
#[export] Hint Unfold
  AccessTokenRepository.lookup AccessTokenRepository.find_by_token
  AccessTokenRepository.add AccessTokenRepository.revoke AccessTokenRepository.mark_used
  RefreshTokenRepository.lookup RefreshTokenRepository.find_by_token
  RefreshTokenRepository.add RefreshTokenRepository.consume RefreshTokenRepository.revoke
  SessionRepository.lookup SessionRepository.add SessionRepository.add_from_browser_session
  SessionRepository.add_from_client_credentials SessionRepository.finish
  SessionRepository.finish_bulk SessionRepository.record_user_agent
  SessionRepository.set_human_name
  AuthorizationGrantRepository.add AuthorizationGrantRepository.lookup
  AuthorizationGrantRepository.find_by_code AuthorizationGrantRepository.fulfill
  AuthorizationGrantRepository.exchange
  DeviceCodeGrantRepository.add DeviceCodeGrantRepository.lookup
  DeviceCodeGrantRepository.find_by_user_code DeviceCodeGrantRepository.find_by_device_code
  DeviceCodeGrantRepository.fulfill DeviceCodeGrantRepository.reject
  DeviceCodeGrantRepository.exchange
  BrowserSessionRepository.lookup BrowserSessionRepository.add
  BrowserSessionRepository.finish BrowserSessionRepository.finish_bulk
  BrowserSessionRepository.get_last_authentication
  UserRepository.lookup UserRepository.acquire_lock_for_sync
  QueueJobRepository.schedule_sync_devices QueueJobRepository.schedule
  ClientRepository.lookup ClientRepository.find_by_client_id : mas_ops.

(** ** Relations on databases every run keeps *)

Section Keeps.
Context {R : Type} (Q : Db → Db → Prop) `{!PreOrder Q}.

(** The transaction moves along [Q], and what is committed on the way is the
    transaction moved along [Q]. *)
Definition keeps_db (w w' : World R) : Prop :=
  Q (w_txn w) (w_txn w') ∧ (w_committed w' = w_committed w ∨ Q (w_txn w) (w_committed w')).

#[export] Instance keeps_db_preorder : PreOrder keeps_db.
Proof.
  split; [intros w; split; [reflexivity | by left]|].
  intros w1 w2 w3 [Ht [Hc|Hc]] [Ht' [Hc'|Hc']]; (split; [by transitivity (w_txn w2)|]).
  - left. congruence.
  - right. by transitivity (w_txn w2).
  - right. by rewrite Hc'.
  - right. by transitivity (w_txn w2).
Qed.

Lemma keeps_db_same (w w' : World R) : same_db w w' → keeps_db w w'.
Proof. intros (Ht & Hc & _). split; [by rewrite Ht | by left]. Qed.

Lemma keeps_db_query : keeps keeps_db (@query R).
Proof.
  intros w. apply keeps_db_same. unfold query. by destruct (w_driver_faults w) as [|[] ?].
Qed.

Lemma keeps_db_render_answer {E} (e : E) : keeps keeps_db (render_answer (R := R) e).
Proof. intros w. apply keeps_db_same, render_answer_same_db. Qed.

Lemma keeps_db_execute stmt :
  (∀ d n d', stmt d = Some (n, d') → Q d d') → keeps keeps_db (@execute R stmt).
Proof.
  intros Hs. apply keeps_bind; [apply _ | apply keeps_db_query | intros _ w].
  destruct (stmt (w_txn w)) as [[n d]|] eqn:He; [|reflexivity].
  split; [by eapply Hs | by left].
Qed.

Lemma keeps_db_now {E} : keeps keeps_db (@now R E).
Proof. intros w. by apply keeps_db_same. Qed.
Lemma keeps_db_with_rng {E A} (f : R → A * R) : keeps keeps_db (with_rng (E := E) f).
Proof. intros w. apply keeps_db_same. unfold with_rng. by destruct (f (w_rng w)). Qed.
Lemma keeps_db_select {A} (f : Db → A) : keeps keeps_db (@select R A f).
Proof. apply keeps_bind; [apply _ | apply keeps_db_query | intros _ w; reflexivity]. Qed.
Lemma keeps_db_save : keeps keeps_db (@save R).
Proof.
  apply keeps_bind; [apply _ | apply keeps_db_query | intros _ w].
  split; [reflexivity | right; reflexivity].
Qed.
Lemma keeps_db_decode_row {Row A} (decode : Row → result DatabaseInconsistencyError A) o :
  keeps keeps_db (decode_row (W := World R) decode o).
Proof. unfold decode_row. destruct o; keeps_tac. Qed.

(** A request: whatever it answers, the committed database moves along [Q]. *)
Definition txn_keeps {E A} (m : M (World R) E A) : Prop :=
  ∀ w, Q (w_committed w) (w_committed (m w).2).

Lemma txn_keeps_pool {E A} (m : M (World R) E A) (f : DatabaseError → E) :
  keeps keeps_db m → txn_keeps (do! mmap_err f from_pool; m).
Proof.
  intros Hm w. unfold bind.
  destruct (mmap_err f from_pool w) as [[u|e] w1] eqn:Hp; simpl.
  - apply mmap_err_Ok_inv, from_pool_inv in Hp as [Ht [Hc _]].
    destruct (Hm w1) as [_ [->|He]]; [by rewrite Hc | by rewrite <- Ht].
  - apply mmap_err_Err_inv in Hp as (e' & Hp & _).
    apply (keeps_err_keeps same_committed _ keeps_from_pool) in Hp as [-> _]. reflexivity.
Qed.

Lemma txn_keeps_lift {E A B} (r : result E A) (k : A → M (World R) E B) :
  (∀ a, txn_keeps (k a)) → txn_keeps (do a <- lift r; k a).
Proof. intros Hk w. unfold bind, lift. destruct r; simpl; [apply Hk | reflexivity]. Qed.

Lemma txn_keeps_bind {E A B} (m : M (World R) E A) (k : A → M (World R) E B) :
  txn_keeps m → (∀ a, txn_keeps (k a)) → txn_keeps (bind m k).
Proof.
  intros Hm Hk w. specialize (Hm w). unfold bind.
  destruct (m w) as [[a|e] w1]; [|done]. simpl in Hm. etransitivity; [done | apply Hk].
Qed.

(** A computation that commits nothing. *)
Lemma txn_keeps_same {E A} (m : M (World R) E A) : keeps same_committed m → txn_keeps m.
Proof. intros Hm w. destruct (Hm w) as [-> _]. reflexivity. Qed.

Lemma txn_keeps_guard {E B} (c : bool) (e : E) (k : M (World R) E B) :
  txn_keeps k → txn_keeps (do! (if c then fail e else ret tt); k).
Proof. intros Hk w. unfold bind. destruct c; simpl; [reflexivity | apply Hk]. Qed.
End Keeps.

#[export] Hint Resolve keeps_db_now keeps_db_with_rng keeps_db_query keeps_db_select
  keeps_db_save keeps_db_decode_row keeps_db_render_answer : keeps.

(** Peels the checks a request makes before it opens its transaction. *)
Ltac txn_tac :=
  repeat first
    [ apply txn_keeps_lift; [apply _ | intros ?]
    | apply txn_keeps_guard; [apply _|]
    | apply txn_keeps_pool; [apply _|] ].

(** ** Statements when the database answers *)

Lemma bind_run_Ok {W E A B} (m : M W E A) (f : A → M W E B) w a w' :
  m w = (Ok a, w') → bind m f w = f a w'.
Proof. unfold bind. by intros ->. Qed.

Section Answers.
Context {R : Type}.
Implicit Types w : World R.

Lemma query_answers w : w_driver_faults w = [] → query w = (Ok tt, w).
Proof. destruct w. simpl. intros ->. done. Qed.

Lemma select_answers {A} (f : Db → A) w :
  w_driver_faults w = [] → select f w = (Ok (f (w_txn w)), w).
Proof. intros Hw. unfold select, bind. by rewrite query_answers. Qed.

Lemma from_pool_answers w :
  w_driver_faults w = [] → from_pool w = (Ok tt, set_txn w (w_committed w)).
Proof. intros Hw. unfold from_pool, bind. by rewrite query_answers. Qed.

Lemma decode_row_run {Row A} (decode : Row → result DatabaseInconsistencyError A) r w :
  decode_row decode (Some r) w =
  (match decode r with Ok a => Ok (Some a) | Err e => Err (Inconsistency e) end, w).
Proof. unfold decode_row, bind, lift. by destruct (decode r). Qed.
End Answers.
