(* ===== verification/CompatRepoFacts.v ===== *)
(** * Readings of the clock, and what the compatibility, personal and user
      operations do *)

From stdpp Require Import base tactics list strings gmap.
From Stdlib Require Import ZArith Lia Ascii.
From S2P Require Import Prelude Text Externals Formats TokenFormat DataModel Storage RepoFacts Scope Pagination CompatModel TokenRepo GrantRepo QueueRepo UserRepo CompatRepo PersonalRepo AppSessionRepo.

(** ** Readings of the clock

    Which readings of the clock an operation makes: time only passes while a
    request runs. *)

Section Readings.
Context {R : Type}.
Implicit Types w : World R.

(** Time only passes, and the clock stays the same. *)
Definition later w w' : Prop := (w_ticks w ≤ w_ticks w')%nat ∧ w_clock w' = w_clock w.

#[export] Instance later_preorder : PreOrder later.
Proof. split; [done|]. intros ??? [? ?] [? ?]. split; [lia | congruence]. Qed.

(** A reading made between two worlds. *)
Definition reading w w' (t : DateTime) : Prop :=
  ∃ n, (w_ticks w ≤ n < w_ticks w')%nat ∧ t = w_clock w n.

Lemma reading_mono w0 w w' w1 t : later w0 w → reading w w' t → later w' w1 → reading w0 w1 t.
Proof. intros [? Hc] (n & ? & ->) [? _]. exists n. rewrite Hc. split; [lia | done]. Qed.

Lemma now_reading {E} w t w' : now (E := E) w = (Ok t, w') → reading w w' t.
Proof. intros [= <- <-]. exists (w_ticks w). simpl. split; [lia | done]. Qed.

Lemma later_now {E} : keeps later (@now R E).
Proof. intros w. split; [simpl; lia | done]. Qed.
Lemma later_with_rng {E A} (f : R → A * R) : keeps later (with_rng (E := E) f).
Proof. intros w. unfold with_rng. by destruct (f (w_rng w)). Qed.
Lemma later_query : keeps later (@query R).
Proof. intros w. unfold query. by destruct (w_driver_faults w) as [|[] ?]. Qed.
Lemma later_modify {E} f : (∀ w, later w (f w)) → keeps later (modify (E := E) f).
Proof. done. Qed.
Lemma later_select {A} (f : Db → A) : keeps later (@select R A f).
Proof. apply keeps_bind; [apply _ | apply later_query | done]. Qed.
Lemma later_execute stmt : keeps later (@execute R stmt).
Proof.
  apply keeps_bind; [apply _ | apply later_query | intros _ w].
  by destruct (stmt (w_txn w)) as [[]|].
Qed.
Lemma later_decode_row {Row A} (decode : Row → result DatabaseInconsistencyError A) o :
  keeps later (decode_row (W := World R) decode o).
Proof. unfold decode_row. destruct o; keeps_tac. Qed.
Lemma later_save : keeps later (@save R).
Proof. apply keeps_bind; [apply _ | apply later_query | done]. Qed.
Lemma later_from_pool : keeps later (@from_pool R).
Proof. apply keeps_bind; [apply _ | apply later_query | done]. Qed.

(** An operation that reads the clock first. *)
Lemma now_first {E A} (f : DateTime → M (World R) E A) w r w' :
  (∀ t, keeps later (f t)) → bind now f w = (r, w') → reading w w' (w_clock w (w_ticks w)).
Proof.
  intros Hf H. unfold bind, now in H. specialize (Hf (w_clock w (w_ticks w)) (tick w)).
  rewrite H in Hf. destruct Hf as [Ht _]. simpl in Ht.
  exists (w_ticks w). split; [lia | done].
Qed.
End Readings.

#[export] Hint Resolve later_now later_with_rng later_query later_select later_execute later_decode_row later_save
  later_from_pool : keeps.
#[export] Hint Extern 1 (keeps later (modify _)) => apply later_modify; done : keeps.

(** Records that time passed in every step of a run. *)
Ltac time_passed :=
  repeat match goal with
    | H : ?m ?w = (_, ?w') |- _ =>
        lazymatch goal with
        | _ : later w w' |- _ => fail
        | _ => pose proof (keeps_run later m w _ w' ltac:(keeps_tac) H)
        end
    end.

(** A reading made in a part of a run is one of the run. *)
Ltac reading_solve :=
  match goal with Hr : reading ?w1 ?w2 ?t |- reading ?w ?w' ?t =>
    let n := fresh "n" in let Hn := fresh "Hn" in
    destruct Hr as (n & Hn & ->); exists n;
    repeat match goal with H : later _ _ |- _ => destruct H end;
    split; [lia | congruence]
  end.

(** ** What the compatibility, personal and user operations do

    Inversion lemmas for the successful runs of the operations of
    [CompatRepo], [PersonalRepo], [AppSessionRepo] and of the users and
    passwords of [UserRepo]. *)

(** A row found, or not, by the value of a column. *)
Lemma find_col_cases {Row V} `{!Table Row, EqDecision V} (col : Row → V) (v : V) d :
  match find_row (λ r, bool_decide (col r = v)) d with
  | None => ∀ id r, rows d !! id = Some r → col r ≠ v
  | Some r => ∃ id, rows d !! id = Some r ∧ col r = v
  end.
Proof.
  destruct (find_row _ _) as [r|] eqn:Hf.
  - apply find_row_Some in Hf as [Hp%bool_decide_eq_true [id Hr]]. eauto.
  - intros id r Hr. eapply find_row_None in Hf; [|done]. by apply bool_decide_eq_false in Hf.
Qed.

(** The reading an operation starts with. *)
Ltac read_first H :=
  lazymatch type of H with ?m ?w = (_, ?w') =>
    let Hr := fresh "Hread" in
    assert (reading w w' (w_clock w (w_ticks w))) as Hr by
      (let h := head_of m in unfold h in H; revert H; apply now_first; intros ?; keeps_tac)
  end.

Section Runs.
Context {R : Type} `{!RngCore R} {url_lib : UrlLib} {ulid_text : UlidText}.
Implicit Types w : World R.

(** *** Sessions *)
Lemma compat_session_lookup_inv id w o w' :
  CompatSessionRepository.lookup id w = (Ok o, w') →
  same_db w w' ∧ o = CompatSessionRepository.of_row <$> compat_sessions (w_txn w) !! id.
Proof. intros H. op_inv H. subst. split; [same_world | done]. Qed.

Lemma compat_session_add_inv user device browser admin name w s w' :
  CompatSessionRepository.add user device browser admin name w = (Ok s, w') →
  ∃ id t, let us := BrowserSession.id <$> browser in
    reading w w' t ∧
    compat_sessions (w_txn w) !! id = None ∧
    is_Some (users (w_txn w) !! User.id user) ∧
    s = CompatSession.mk id CompatSessionState.Valid (User.id user) (Some device) name us t admin
          None None None ∧
    w_txn w' = set_rows (<[id := CompatSessionLookup.mk id (Some (Device.id device)) name
        (User.id user) us t None admin None None None]> (compat_sessions (w_txn w))) (w_txn w) ∧
    same_committed w w'.
Proof.
  intros H. read_first H. op_inv H. world_simpl. insert_inv Hc.
  rewrite andb_true_iff, exists_row_true in Hc. destruct Hc as [? _].
  do 2 eexists. split_and!; try done; same_world.
Qed.

Lemma compat_session_finish_inv s w s' w' :
  CompatSessionRepository.finish s w = (Ok s', w') →
  ∃ t r, reading w w' t ∧ compat_sessions (w_txn w) !! CompatSession.id s = Some r ∧
    CompatSession.finish s t = Ok s' ∧
    w_txn w' = set_rows (<[CompatSession.id s := CompatSessionRepository.with_finished_at t r]>
                           (compat_sessions (w_txn w))) (w_txn w) ∧
    same_committed w w'.
Proof.
  intros H. read_first H. op_inv H. world_simpl. update_inv r Hc.
  do 2 eexists. split_and!; try done; [by eapply map_err_Ok | same_world].
Qed.

Lemma compat_session_user_agent_inv s ua w s' w' :
  CompatSessionRepository.record_user_agent s ua w = (Ok s', w') →
  ∃ r, compat_sessions (w_txn w) !! CompatSession.id s = Some r ∧
    s' = CompatSession.with_user_agent s (Some ua) ∧
    w_txn w' = set_rows (<[CompatSession.id s := CompatSessionRepository.with_user_agent ua r]>
                           (compat_sessions (w_txn w))) (w_txn w) ∧
    same_committed w w'.
Proof.
  intros H. op_inv H. world_simpl. update_inv r Hc.
  eexists. split_and!; try done; same_world.
Qed.

Lemma compat_session_finish_bulk_inv f w n w' :
  CompatSessionRepository.finish_bulk f w = (Ok n, w') →
  ∃ t, w_txn w' = set_rows
      ((λ r, if CompatSessionFilter.generate_condition f None (w_txn w) r
             then CompatSessionRepository.with_finished_at t r else r)
         <$> compat_sessions (w_txn w)) (w_txn w) ∧
    same_committed w w'.
Proof.
  intros H. op_inv H. world_simpl.
  match goal with H : update_where_stmt _ _ _ = _ |- _ => injection H as _ Hd end.
  eexists. split; [by rewrite <- Hd | same_world].
Qed.

(** *** Access tokens *)
Lemma compat_access_lookup_inv id w o w' :
  CompatAccessTokenRepository.lookup id w = (Ok o, w') →
  same_db w w' ∧ o = CompatAccessTokenRepository.of_row <$> compat_access_tokens (w_txn w) !! id.
Proof. intros H. op_inv H. subst. split; [same_world | done]. Qed.

Lemma compat_access_find_inv s w o w' :
  CompatAccessTokenRepository.find_by_token s w = (Ok o, w') →
  same_db w w' ∧
  match o with
  | None => ∀ id r, compat_access_tokens (w_txn w) !! id = Some r →
      CompatAccessTokenLookup.access_token r ≠ s
  | Some a => ∃ id r, compat_access_tokens (w_txn w) !! id = Some r ∧
      CompatAccessTokenLookup.access_token r = s ∧ a = CompatAccessTokenRepository.of_row r
  end.
Proof.
  intros H. op_inv H. subst. split; [same_world|].
  pose proof (find_col_cases CompatAccessTokenLookup.access_token s (w_txn w)) as Hf.
  destruct (find_row _ _); simpl; [|done]. destruct Hf as (id & ? & ?). eauto.
Qed.

Lemma compat_access_add_inv session s ttl w a w' :
  CompatAccessTokenRepository.add session s ttl w = (Ok a, w') →
  ∃ id t, let expires := (λ d, t + d)%Z <$> ttl in
    reading w w' t ∧
    compat_access_tokens (w_txn w) !! id = None ∧
    is_Some (compat_sessions (w_txn w) !! CompatSession.id session) ∧
    a = CompatAccessToken.mk id (CompatSession.id session) s t expires ∧
    w_txn w' = set_rows (<[id := CompatAccessTokenLookup.mk id s t expires
        (CompatSession.id session)]> (compat_access_tokens (w_txn w))) (w_txn w) ∧
    same_committed w w'.
Proof.
  intros H. read_first H. op_inv H. world_simpl. insert_inv Hc.
  rewrite andb_true_iff, exists_row_true in Hc. destruct Hc as [? _].
  do 2 eexists. split_and!; try done; same_world.
Qed.

Lemma compat_access_expire_inv a w b w' :
  CompatAccessTokenRepository.expire a w = (Ok b, w') →
  ∃ t r, reading w w' t ∧ compat_access_tokens (w_txn w) !! CompatAccessToken.id a = Some r ∧
    w_txn w' = set_rows (<[CompatAccessToken.id a :=
        CompatAccessTokenRepository.with_expires_at t r]> (compat_access_tokens (w_txn w)))
        (w_txn w) ∧
    same_committed w w'.
Proof.
  intros H. read_first H. op_inv H. world_simpl. update_inv r Hc.
  do 2 eexists. split_and!; try done; same_world.
Qed.

(** *** Refresh tokens *)
Lemma compat_refresh_find_inv s w o w' :
  CompatRefreshTokenRepository.find_by_token s w = (Ok o, w') →
  same_db w w' ∧
  match o with
  | None => ∀ id r, compat_refresh_tokens (w_txn w) !! id = Some r →
      CompatRefreshTokenLookup.refresh_token r ≠ s
  | Some a => ∃ id r, compat_refresh_tokens (w_txn w) !! id = Some r ∧
      CompatRefreshTokenLookup.refresh_token r = s ∧ a = CompatRefreshTokenRepository.of_row r
  end.
Proof.
  intros H. op_inv H. subst. split; [same_world|].
  pose proof (find_col_cases CompatRefreshTokenLookup.refresh_token s (w_txn w)) as Hf.
  destruct (find_row _ _); simpl; [|done]. destruct Hf as (id & ? & ?). eauto.
Qed.

Lemma compat_refresh_add_inv session a s w b w' :
  CompatRefreshTokenRepository.add session a s w = (Ok b, w') →
  ∃ id t, reading w w' t ∧ compat_refresh_tokens (w_txn w) !! id = None ∧
    is_Some (compat_access_tokens (w_txn w) !! CompatAccessToken.id a) ∧
    b = CompatRefreshToken.mk id CompatRefreshTokenState.Valid (CompatSession.id session)
          (CompatAccessToken.id a) s t ∧
    w_txn w' = set_rows (<[id := CompatRefreshTokenLookup.mk id s t None (CompatAccessToken.id a)
        (CompatSession.id session)]> (compat_refresh_tokens (w_txn w))) (w_txn w) ∧
    same_committed w w'.
Proof.
  intros H. read_first H. op_inv H. world_simpl. insert_inv Hc.
  rewrite !andb_true_iff, !exists_row_true in Hc. destruct Hc as [[_ ?] _].
  do 2 eexists. split_and!; try done; same_world.
Qed.

Lemma compat_consume_inv r n w r' w' :
  CompatRefreshTokenRepository.consume_and_replace r n w = (Ok r', w') →
  ∃ t, reading w w' t ∧ CompatRefreshToken.session_id r = CompatRefreshToken.session_id n ∧
    CompatRefreshToken.consume r t = Ok r' ∧
    w_txn w' = set_rows
      ((λ x, if CompatRefreshTokenRepository.to_consume (CompatRefreshToken.session_id r)
                  (CompatRefreshToken.id n) x
             then CompatRefreshTokenRepository.with_consumed_at t x else x)
         <$> compat_refresh_tokens (w_txn w)) (w_txn w) ∧
    same_committed w w'.
Proof.
  unfold CompatRefreshTokenRepository.consume_and_replace. case_decide as Hse; [by intros ?|].
  intros H. assert (reading w w' (w_clock w (w_ticks w))) as Hread.
  { revert H. apply now_first. intros ?. keeps_tac. }
  apply bind_Ok_inv in H as (t & w1 & Ht & (k & w2 & Hx & H)%bind_Ok_inv).
  destruct (k =? 0)%nat; [done|].
  run_inv Ht. run_inv Hx. run_inv H. world_simpl.
  match goal with H : update_where_stmt _ _ _ = _ |- _ => injection H as _ Hd end.
  eexists. split_and!; [done|done|by eapply map_err_Ok|by rewrite <- Hd|same_world].
Qed.

(** *** SSO logins *)
Lemma sso_find_inv s w o w' :
  CompatSsoLoginRepository.find_by_token s w = (Ok o, w') →
  same_db w w' ∧
  match o with
  | None => ∀ id r, compat_sso_logins (w_txn w) !! id = Some r →
      CompatSsoLoginLookup.login_token r ≠ s
  | Some l => ∃ id r, compat_sso_logins (w_txn w) !! id = Some r ∧
      CompatSsoLoginLookup.login_token r = s ∧ CompatSsoLoginRepository.try_from r = Ok l
  end.
Proof.
  intros H. op_inv H. subst. split; [same_world|].
  pose proof (find_col_cases CompatSsoLoginLookup.login_token s (w_txn w)) as Hf.
  destruct (find_row _ _); simpl in *; destruct_ex; subst; eauto 10.
Qed.

Lemma sso_exchange_inv l s w l' w' :
  CompatSsoLoginRepository.exchange l s w = (Ok l', w') →
  ∃ t r, reading w w' t ∧ compat_sso_logins (w_txn w) !! CompatSsoLogin.id l = Some r ∧
    CompatSsoLogin.exchange l t s = Ok l' ∧
    w_txn w' = set_rows (<[CompatSsoLogin.id l :=
        CompatSsoLoginRepository.with_exchanged t (CompatSession.id s) r]>
        (compat_sso_logins (w_txn w))) (w_txn w) ∧
    same_committed w w'.
Proof.
  intros H. read_first H. op_inv H. world_simpl. update_inv r Hc.
  match goal with H : Ok _ = map_err _ _ |- _ => apply map_err_Ok in H as Hg end.
  assert (CompatSsoLogin.id l' = CompatSsoLogin.id l) as Hid.
  { unfold CompatSsoLogin.exchange in Hg. apply rbind_Ok_inv in Hg as (? & _ & [= <-]). done. }
  rewrite Hid in *. do 2 eexists. split_and!; try done; same_world.
Qed.

(** *** The sessions a device had *)
Definition compat_uses_device (user : Ulid) (device : Device.Device) (r : CompatSessionLookup.t) :
    bool :=
  bool_decide (CompatSessionLookup.user_id r = user)
  && bool_decide (CompatSessionLookup.device_id r = Some (Device.id device))
  && bool_decide (CompatSessionLookup.finished_at r = None).

Definition oauth2_uses_device (user : Ulid) (device : Device.Device) (r : OAuthSessionLookup.t) :
    bool :=
  match Device.to_scope_token device with
  | Ok (stable, unstable) => AppSessionRepository.uses_device user stable unstable r
  | Err _ => false
  end.

Lemma replace_device_inv user device w b w' :
  AppSessionRepository.finish_sessions_to_replace_device user device w = (Ok b, w') →
  ∃ t, w_txn w' = set_rows
      ((λ r, if oauth2_uses_device (User.id user) device r
             then SessionRepository.with_finished_at t r else r) <$> oauth2_sessions (w_txn w))
      (set_rows
        ((λ r, if compat_uses_device (User.id user) device r
               then CompatSessionRepository.with_finished_at t r else r)
           <$> compat_sessions (w_txn w)) (w_txn w)) ∧
    same_committed w w'.
Proof.
  unfold AppSessionRepository.finish_sessions_to_replace_device, oauth2_uses_device.
  intros (t & w1 & Ht & (n & w2 & Hx & H)%bind_Ok_inv)%bind_Ok_inv.
  run_inv Ht. run_inv Hx. world_simpl.
  match goal with H : update_where_stmt _ _ _ = _ |- _ => injection H as _ Hd end.
  destruct (Device.to_scope_token device) as [[s u]|].
  - run_inv H. world_simpl.
    match goal with H : update_where_stmt _ _ _ = _ |- _ => injection H as _ Hd2 end.
    eexists. split; [rewrite <- Hd2, <- Hd; done | same_world].
  - run_inv H. subst. eexists. split; [|same_world]. rewrite <- Hd. simpl.
    rewrite (map_fmap_ext _ id (oauth2_sessions (w_txn w))), map_fmap_id by done.
    by destruct (w_txn w).
Qed.

(** *** Users and passwords *)
Lemma find_by_username_inv {pg_text : PgText} s w o w' :
  UserRepository.find_by_username s w = (Ok o, w') →
  same_db w w' ∧ ∀ u, o = Some u →
    ∃ id r, users (w_txn w) !! id = Some r ∧ u = UserRepository.of_row r ∧
      pg_lower (UserLookup.username r) = pg_lower s.
Proof.
  intros H. op_inv H. subst. split; [same_world|]. intros u Hu.
  apply fmap_Some in Hu as (r & Hr & ->).
  assert (r ∈ filter (λ r, pg_lower (UserLookup.username r) = pg_lower s)
    (map_to_list (users (w_txn w))).*2) as Hin.
  { revert Hr. unfold UserRepository.pick_username. case_match; [done|]. case_match.
    - intros [= <-]. by apply list_elem_of_here.
    - intros [_ Hr]%head_Some_elem_of%list_elem_of_filter. done. }
  apply list_elem_of_filter in Hin as [? Hin].
  change (users (w_txn w)) with (rows (Row := UserLookup.t) (w_txn w)) in Hin.
  apply elem_of_rows in Hin as [id ?]. eauto.
Qed.

Lemma password_add_inv user v h o w p w' :
  UserPasswordRepository.add user v h o w = (Ok p, w') →
  ∃ m, w_txn w' = set_rows (Row := UserPasswordLookup.t) m (w_txn w) ∧ same_committed w w'.
Proof.
  intros H. op_inv H. world_simpl. insert_inv Hc. eexists. split; [done | same_world].
Qed.

Lemma password_active_inv u w o w' :
  UserPasswordRepository.active u w = (Ok o, w') → same_db w w'.
Proof. intros H. op_inv H. subst. same_world. Qed.
End Runs.

(** The operations, for [keeps_tac] to unfold. *)
#[export] Hint Unfold
  CompatAccessTokenRepository.lookup CompatAccessTokenRepository.find_by_token
  CompatAccessTokenRepository.add CompatAccessTokenRepository.expire
  CompatRefreshTokenRepository.lookup CompatRefreshTokenRepository.find_by_token
  CompatRefreshTokenRepository.add CompatRefreshTokenRepository.consume_and_replace
  CompatSsoLoginRepository.lookup CompatSsoLoginRepository.find_for_session
  CompatSsoLoginRepository.find_by_token CompatSsoLoginRepository.add
  CompatSsoLoginRepository.fulfill CompatSsoLoginRepository.exchange
  CompatSessionRepository.lookup CompatSessionRepository.add CompatSessionRepository.finish
  CompatSessionRepository.finish_bulk CompatSessionRepository.list CompatSessionRepository.count
  CompatSessionRepository.record_user_agent CompatSessionRepository.set_human_name
  CompatSessionRepository.record_batch_activity
  PersonalAccessTokenRepository.lookup PersonalAccessTokenRepository.find_by_token
  PersonalAccessTokenRepository.add PersonalAccessTokenRepository.revoke
  PersonalSessionRepository.lookup PersonalSessionRepository.add PersonalSessionRepository.revoke
  PersonalSessionRepository.revoke_bulk PersonalSessionRepository.count
  PersonalSessionRepository.record_batch_activity
  AppSessionRepository.finish_sessions_to_replace_device
  SessionListing.count SessionListing.list fetch_page
  UserRepository.find_by_username UserRepository.exists_username UserRepository.add
  UserRepository.lock UserRepository.unlock UserRepository.deactivate UserRepository.reactivate
  UserRepository.set_can_request_admin
  UserPasswordRepository.active UserPasswordRepository.add : mas_ops.
