(* ===== verification/Integrity.v ===== *)
(** * Integrity of the database

    The constraints of crates/storage-pg/migrations as a property of the
    database (primary keys, unique columns, foreign keys), and that every
    repository operation keeps them. *)

From stdpp Require Import base tactics list strings gmap.
From Stdlib Require Import ZArith Lia Ascii.
From S2P Require Import Prelude Text Scope Externals Formats TokenFormat DataModel CompatModel Storage TokenRepo GrantRepo QueueRepo UserRepo CompatRepo PersonalRepo AppSessionRepo RepoFacts CompatRepoFacts.

Create HintDb integrity.

(** ** Constraints on tables *)

Section Constraints.
Context {Row Row' : Type}.
Implicit Types (m : gmap Z Row) (tgt : gmap Z Row').

(** The primary key of a row is the key it is stored under. *)
Definition keyed (id : Row → Z) m : Prop := ∀ k r, m !! k = Some r → id r = k.

(** No two rows have the same value in a column. *)
Definition uniq {V} (col : Row → option V) m : Prop :=
  ∀ k1 r1 k2 r2 v, m !! k1 = Some r1 → m !! k2 = Some r2 →
    col r1 = Some v → col r2 = Some v → k1 = k2.

(** A column refers to a row of another table. *)
Definition refs (col : Row → option Z) m tgt : Prop :=
  ∀ k r v, m !! k = Some r → col r = Some v → is_Some (tgt !! v).

Lemma keyed_insert id m k r : keyed id m → id r = k → keyed id (<[k := r]> m).
Proof. intros H Hr k' r' [[<- <-]|[_ ?]]%lookup_insert_Some; eauto. Qed.

Lemma keyed_update id m k r0 r :
  keyed id m → m !! k = Some r0 → id r = id r0 → keyed id (<[k := r]> m).
Proof. intros H H0 Hr. apply keyed_insert; [done|]. rewrite Hr. eauto. Qed.

Lemma keyed_fmap id f m : keyed id m → (∀ r, id (f r) = id r) → keyed id (f <$> m).
Proof. intros H Hf k r (r' & <- & Hr)%lookup_fmap_Some. rewrite Hf. eauto. Qed.

Lemma uniq_insert {V} (col : Row → option V) m k r :
  uniq col m → (∀ v k' r', col r = Some v → m !! k' = Some r' → col r' ≠ Some v) →
  uniq col (<[k := r]> m).
Proof.
  intros H Hr k1 r1 k2 r2 v [[<- <-]|[Hn1 H1]]%lookup_insert_Some
    [[<- <-]|[Hn2 H2]]%lookup_insert_Some Hv1 Hv2; try done.
  - by exfalso; eapply Hr.
  - by exfalso; eapply Hr.
  - eauto.
Qed.

Lemma uniq_update {V} (col : Row → option V) m k r0 r :
  uniq col m → m !! k = Some r0 → col r = col r0 → uniq col (<[k := r]> m).
Proof.
  intros H H0 Hr k1 r1 k2 r2 v [[<- <-]|[Hn1 H1]]%lookup_insert_Some
    [[<- <-]|[Hn2 H2]]%lookup_insert_Some Hv1 Hv2; try done.
  - eapply (H k r0 k2 r2 v); congruence.
  - eapply (H k1 r1 k r0 v); congruence.
  - eauto.
Qed.

Lemma uniq_fmap {V} (col : Row → option V) f m : uniq col m → (∀ r, col (f r) = col r) → uniq col (f <$> m).
Proof.
  intros H Hf k1 r1 k2 r2 v (r1' & <- & H1)%lookup_fmap_Some
    (r2' & <- & H2)%lookup_fmap_Some. rewrite !Hf. eauto.
Qed.

(** A column that is left alone or emptied. *)
Lemma uniq_update_clear {V} (col : Row → option V) m k r0 r :
  uniq col m → m !! k = Some r0 → col r = None → uniq col (<[k := r]> m).
Proof.
  intros H H0 Hr. apply uniq_insert; [done|]. intros v. by rewrite Hr.
Qed.

Lemma uniq_fmap_clear {V} (col : Row → option V) f m :
  uniq col m → (∀ r, col (f r) = col r ∨ col (f r) = None) → uniq col (f <$> m).
Proof.
  intros H Hf k1 r1 k2 r2 v (r1' & <- & H1)%lookup_fmap_Some (r2' & <- & H2)%lookup_fmap_Some.
  destruct (Hf r1') as [->| ->], (Hf r2') as [->| ->]; try done. eauto.
Qed.

Lemma refs_insert_source col m tgt k r :
  refs col m tgt → (∀ v, col r = Some v → is_Some (tgt !! v)) → refs col (<[k := r]> m) tgt.
Proof. intros H Hr k' r' v [[<- <-]|[_ ?]]%lookup_insert_Some ?; eauto. Qed.

Lemma refs_update_source col m tgt k r0 r :
  refs col m tgt → m !! k = Some r0 → col r = col r0 → refs col (<[k := r]> m) tgt.
Proof. intros H H0 Hr. apply refs_insert_source; [done|]. rewrite Hr. eauto. Qed.

Lemma refs_fmap_source col f m tgt :
  refs col m tgt → (∀ r, col (f r) = col r) → refs col (f <$> m) tgt.
Proof. intros H Hf k r v (r' & <- & ?)%lookup_fmap_Some. rewrite Hf. eauto. Qed.

Lemma refs_insert_target col m tgt k r : refs col m tgt → refs col m (<[k := r]> tgt).
Proof. intros H k' r' v ? ?. apply lookup_insert_is_Some'. right. eauto. Qed.

Lemma refs_fmap_target col f m tgt : refs col m tgt → refs col m (f <$> tgt).
Proof. intros H k r v ? ?. rewrite lookup_fmap, fmap_is_Some. eauto. Qed.
End Constraints.

(** ** The schema *)

(** The session of a personal access token that is not revoked. *)
Definition active_session_of (r : PersonalAccessTokenLookup.t) : option Ulid :=
  match PersonalAccessTokenLookup.revoked_at r with
  | None => Some (PersonalAccessTokenLookup.personal_session_id r)
  | Some _ => None
  end.

Record integrity (d : Db) : Prop := {
  clients_pkey : keyed OAuth2ClientLookup.oauth2_client_id (oauth2_clients d);
  users_pkey : keyed UserLookup.user_id (users d);
  user_sessions_pkey : keyed UserSessionRow.user_session_id (user_sessions d);
  sessions_pkey : keyed OAuthSessionLookup.oauth2_session_id (oauth2_sessions d);
  access_tokens_pkey :
    keyed OAuth2AccessTokenLookup.oauth2_access_token_id (oauth2_access_tokens d);
  refresh_tokens_pkey :
    keyed OAuth2RefreshTokenLookup.oauth2_refresh_token_id (oauth2_refresh_tokens d);
  grants_pkey :
    keyed GrantLookup.oauth2_authorization_grant_id (oauth2_authorization_grants d);
  device_grants_pkey :
    keyed OAuth2DeviceGrantLookup.oauth2_device_code_grant_id (oauth2_device_code_grant d);
  access_tokens_unique :
    uniq (λ r, Some (OAuth2AccessTokenLookup.access_token r)) (oauth2_access_tokens d);
  refresh_tokens_unique :
    uniq (λ r, Some (OAuth2RefreshTokenLookup.refresh_token r)) (oauth2_refresh_tokens d);
  authorization_code_unique :
    uniq GrantLookup.authorization_code (oauth2_authorization_grants d);
  device_code_unique :
    uniq (λ r, Some (OAuth2DeviceGrantLookup.device_code r)) (oauth2_device_code_grant d);
  user_code_unique :
    uniq (λ r, Some (OAuth2DeviceGrantLookup.user_code r)) (oauth2_device_code_grant d);
  user_sessions_user_fkey :
    refs (λ r, Some (UserSessionRow.user_id r)) (user_sessions d) (users d);
  sessions_client_fkey :
    refs (λ r, Some (OAuthSessionLookup.oauth2_client_id r)) (oauth2_sessions d)
      (oauth2_clients d);
  sessions_user_fkey : refs OAuthSessionLookup.user_id (oauth2_sessions d) (users d);
  sessions_user_session_fkey :
    refs OAuthSessionLookup.user_session_id (oauth2_sessions d) (user_sessions d);
  access_tokens_session_fkey :
    refs (λ r, Some (OAuth2AccessTokenLookup.oauth2_session_id r)) (oauth2_access_tokens d)
      (oauth2_sessions d);
  refresh_tokens_session_fkey :
    refs (λ r, Some (OAuth2RefreshTokenLookup.oauth2_session_id r))
      (oauth2_refresh_tokens d) (oauth2_sessions d);
  refresh_tokens_access_token_fkey :
    refs OAuth2RefreshTokenLookup.oauth2_access_token_id (oauth2_refresh_tokens d)
      (oauth2_access_tokens d);
  refresh_tokens_next_fkey :
    refs OAuth2RefreshTokenLookup.next_oauth2_refresh_token_id (oauth2_refresh_tokens d)
      (oauth2_refresh_tokens d);
  grants_client_fkey :
    refs (λ r, Some (GrantLookup.oauth2_client_id r)) (oauth2_authorization_grants d)
      (oauth2_clients d);
  grants_session_fkey :
    refs GrantLookup.oauth2_session_id (oauth2_authorization_grants d) (oauth2_sessions d);
  grants_user_session_fkey :
    refs GrantLookup.user_session_id (oauth2_authorization_grants d) (user_sessions d);
  device_grants_client_fkey :
    refs (λ r, Some (OAuth2DeviceGrantLookup.oauth2_client_id r))
      (oauth2_device_code_grant d) (oauth2_clients d);
  device_grants_session_fkey :
    refs OAuth2DeviceGrantLookup.oauth2_session_id (oauth2_device_code_grant d)
      (oauth2_sessions d);
  device_grants_user_session_fkey :
    refs OAuth2DeviceGrantLookup.user_session_id (oauth2_device_code_grant d)
      (user_sessions d);
  usernames_unique : uniq (λ r, Some (UserLookup.username r)) (users d);
  passwords_pkey : keyed UserPasswordLookup.user_password_id (user_passwords d);
  passwords_user_fkey :
    refs (λ r, Some (UserPasswordLookup.user_id r)) (user_passwords d) (users d);
  passwords_upgraded_fkey :
    refs UserPasswordLookup.upgraded_from_id (user_passwords d) (user_passwords d);
  compat_sessions_pkey : keyed CompatSessionLookup.compat_session_id (compat_sessions d);
  compat_access_pkey :
    keyed CompatAccessTokenLookup.compat_access_token_id (compat_access_tokens d);
  compat_refresh_pkey :
    keyed CompatRefreshTokenLookup.compat_refresh_token_id (compat_refresh_tokens d);
  sso_logins_pkey : keyed CompatSsoLoginLookup.compat_sso_login_id (compat_sso_logins d);
  compat_access_unique :
    uniq (λ r, Some (CompatAccessTokenLookup.access_token r)) (compat_access_tokens d);
  compat_refresh_unique :
    uniq (λ r, Some (CompatRefreshTokenLookup.refresh_token r)) (compat_refresh_tokens d);
  sso_logins_unique :
    uniq (λ r, Some (CompatSsoLoginLookup.login_token r)) (compat_sso_logins d);
  compat_sessions_user_fkey :
    refs (λ r, Some (CompatSessionLookup.user_id r)) (compat_sessions d) (users d);
  compat_sessions_user_session_fkey :
    refs CompatSessionLookup.user_session_id (compat_sessions d) (user_sessions d);
  compat_access_session_fkey :
    refs (λ r, Some (CompatAccessTokenLookup.compat_session_id r)) (compat_access_tokens d)
      (compat_sessions d);
  compat_refresh_session_fkey :
    refs (λ r, Some (CompatRefreshTokenLookup.compat_session_id r)) (compat_refresh_tokens d)
      (compat_sessions d);
  compat_refresh_access_fkey :
    refs (λ r, Some (CompatRefreshTokenLookup.compat_access_token_id r))
      (compat_refresh_tokens d) (compat_access_tokens d);
  sso_logins_session_fkey :
    refs CompatSsoLoginLookup.compat_session_id (compat_sso_logins d) (compat_sessions d);
  sso_logins_user_session_fkey :
    refs CompatSsoLoginLookup.user_session_id (compat_sso_logins d) (user_sessions d);
  personal_sessions_pkey : keyed PersonalSessionLookup.personal_session_id (personal_sessions d);
  personal_tokens_pkey :
    keyed PersonalAccessTokenLookup.personal_access_token_id (personal_access_tokens d);
  personal_tokens_unique :
    uniq (λ r, Some (PersonalAccessTokenLookup.access_token_sha256 r))
      (personal_access_tokens d);
  personal_tokens_active_unique :
    uniq active_session_of (personal_access_tokens d);
  personal_tokens_session_fkey :
    refs (λ r, Some (PersonalAccessTokenLookup.personal_session_id r))
      (personal_access_tokens d) (personal_sessions d);
  personal_sessions_actor_fkey :
    refs (λ r, Some (PersonalSessionLookup.actor_user_id r)) (personal_sessions d) (users d);
  personal_sessions_owner_fkey :
    refs PersonalSessionLookup.owner_user_id (personal_sessions d) (users d);
  personal_sessions_client_fkey :
    refs PersonalSessionLookup.owner_oauth2_client_id (personal_sessions d) (oauth2_clients d);
}.

Lemma integrity_empty : integrity (mkDb ∅ ∅ ∅ ∅ ∅ ∅ ∅ ∅ ∅ ∅ ∅ ∅ None ∅ ∅ ∅ ∅ ∅ ∅ ∅ ∅ ∅ no_accounts).
Proof. split; simpl; intros k *; by rewrite ?lookup_empty. Qed.

(** ** Operations keep the integrity *)

Lemma no_active_token_true s d :
  PersonalAccessTokenRepository.no_active_token s d = true ↔
  ∀ k r, personal_access_tokens d !! k = Some r → active_session_of r ≠ Some s.
Proof.
  unfold PersonalAccessTokenRepository.no_active_token. rewrite bool_decide_eq_true.
  apply forall_proper. intros k. apply forall_proper. intros r. apply forall_proper. intros _.
  unfold PersonalAccessTokenRepository.is_active_of, active_session_of.
  destruct (PersonalAccessTokenLookup.revoked_at r); case_bool_decide; naive_solver.
Qed.

(** Splits a boolean constraint of a statement into facts on rows. *)
Ltac constraint_facts :=
  repeat match goal with
    | H : _ && _ = true |- _ => apply andb_true_iff in H as [? ?]
    | H : match ?c with Some _ => _ | None => _ end = true |- _ => destruct c eqn:?
    | H : exists_row _ _ = true |- _ => apply exists_row_true in H
    | H : exists_row_opt _ _ = true |- _ =>
        rewrite exists_row_opt_true in H; simpl in H
    | H : unique_value _ _ _ = true |- _ =>
        rewrite unique_value_true in H; simpl in H
    | H : PersonalAccessTokenRepository.no_active_token _ _ = true |- _ =>
        rewrite no_active_token_true in H; simpl in H
    end.

(** A constraint on the database after a statement on one of its tables. *)
Ltac constraint_solve :=
  first
  [ done
  | apply refs_insert_target; constraint_solve
  | apply refs_fmap_target; constraint_solve
  | eapply keyed_update; [done..]
  | apply keyed_insert; [done..]
  | eapply uniq_update; [done..]
  | eapply refs_update_source; [done..]
  | apply keyed_fmap; [done | intros; by repeat case_match]
  | apply uniq_fmap; [done | intros; by repeat case_match]
  | apply refs_fmap_source; [done | intros; by repeat case_match]
  | apply uniq_insert; [done | intros ??? Hv ?; try unfold active_session_of in Hv; simplify_eq/=; eauto]
  | eapply uniq_update_clear; [done..]
  | apply uniq_fmap_clear; [done | intros; repeat case_match; first [by left | by right]]
  | apply refs_insert_source; [done | naive_solver] ].

Ltac integrity_solve :=
  constraint_facts;
  match goal with H : integrity _ |- _ => destruct H end;
  split; simpl in *; try constraint_solve.

Definition preserves_integrity (d d' : Db) : Prop := integrity d → integrity d'.

#[export] Instance preserves_integrity_preorder : PreOrder preserves_integrity.
Proof. split; [by intros d Hd|]. intros x y z Hxy Hyz Hx. auto. Qed.

Abbreviation keeps_integrity := (keeps_db preserves_integrity) (only parsing).

(** A statement keeps the integrity: inserted rows satisfy the constraints
    checked on insertion, updates leave the other columns alone. *)
#[export] Hint Extern 1 (keeps (keeps_db preserves_integrity) (execute (insert_stmt _ _ _))) =>
  apply (keeps_db_execute _);
  intros ??? (? & ? & ? & ->)%insert_stmt_inv ?; integrity_solve : keeps.

Lemma update_stmt_any {Row} `{!Table Row} id (f : Row → Row) cs d n d' :
  update_stmt id f cs d = Some (n, d') →
  d' = d ∨ ∃ r, rows d !! id = Some r ∧ cs d = true ∧
    d' = set_rows (<[id := f r]> (rows d)) d.
Proof.
  unfold update_stmt. destruct (rows d !! id) as [r|]; [|naive_solver].
  destruct (cs d); naive_solver.
Qed.

#[export] Hint Extern 1 (keeps (keeps_db preserves_integrity) (execute (update_stmt _ _ _))) =>
  apply (keeps_db_execute _);
  intros ??? [->|(? & ? & ? & ->)]%update_stmt_any ?; [done | integrity_solve] : keeps.

#[export] Hint Extern 2 (keeps (keeps_db preserves_integrity) (execute _)) =>
  apply (keeps_db_execute _); unfold update_where_stmt;
  intros ??? [= <- <-] ?; integrity_solve : keeps.

Lemma update_row_where_any {Row} `{!Table Row} id p (f : Row → Row) d n d' :
  update_row_where_stmt id p f d = Some (n, d') →
  d' = d ∨ ∃ r, rows d !! id = Some r ∧ p r = true ∧
    d' = set_rows (<[id := f r]> (rows d)) d.
Proof.
  unfold update_row_where_stmt. destruct (rows d !! id) as [r|]; [|naive_solver].
  destruct (p r) eqn:?; naive_solver.
Qed.

#[export] Hint Extern 1
    (keeps (keeps_db preserves_integrity) (execute (update_row_where_stmt _ _ _))) =>
  apply (keeps_db_execute _);
  intros ??? [->|(? & ? & ? & ->)]%update_row_where_any ?; [done | integrity_solve] : keeps.

Lemma insert_user_any r d n d' :
  UserRepository.insert_user_stmt r d = Some (n, d') →
  d' = d ∨ users d !! UserLookup.user_id r = None ∧
    (∀ k r', users d !! k = Some r' → Some (UserLookup.username r') ≠ Some (UserLookup.username r)) ∧
    d' = set_rows (<[UserLookup.user_id r := r]> (users d)) d.
Proof.
  unfold UserRepository.insert_user_stmt. case_bool_decide as Hu; [|naive_solver].
  intros (? & _ & _ & ->)%insert_stmt_inv. right. split_and!; [done| |done].
  intros k r' Hk [=]. by eapply Hu.
Qed.

#[export] Hint Extern 1
    (keeps (keeps_db preserves_integrity) (execute (UserRepository.insert_user_stmt _))) =>
  apply (keeps_db_execute _);
  intros ??? [->|(? & ? & ->)]%insert_user_any ?; [done | integrity_solve] : keeps.

(** The transactions of the other handlers: the operations the
    authorization, consent, device, login, logout, introspection and
    administration handlers send to the tables modelled here, in any order and number. *)
Section Transactions.
Context {R : Type} `{!RngCore R} {url_lib : UrlLib} {ulid_text : UlidText} {sha2 : Sha2}.

Inductive transaction : M (World R) DatabaseError unit → Prop :=
| txn_done : transaction (ret tt)
| txn_grant_add c u s co st n rm it lh lo rp m : transaction m →
    transaction (do! AuthorizationGrantRepository.add c u s co st n rm it lh lo rp; m)
| txn_grant_fulfill b g m : transaction m →
    transaction (do! AuthorizationGrantRepository.fulfill b g; m)
| txn_device_add p m : transaction m →
    transaction (do! DeviceCodeGrantRepository.add p; m)
| txn_device_fulfill g b l m : transaction m →
    transaction (do! DeviceCodeGrantRepository.fulfill g b l; m)
| txn_device_reject g b m : transaction m →
    transaction (do! DeviceCodeGrantRepository.reject g b; m)
| txn_browser_add u ua m : transaction m →
    transaction (do! BrowserSessionRepository.add u ua; m)
| txn_browser_finish b m : transaction m →
    transaction (do! BrowserSessionRepository.finish b; m)
| txn_browser_finish_bulk f m : transaction m →
    transaction (do! BrowserSessionRepository.finish_bulk f; m)
| txn_mark_used a m : transaction m →
    transaction (do! AccessTokenRepository.mark_used a; m)
| txn_session_finish s m : transaction m →
    transaction (do! SessionRepository.finish s; m)
| txn_session_finish_bulk f m : transaction m →
    transaction (do! SessionRepository.finish_bulk f; m)
| txn_session_name s n m : transaction m →
    transaction (do! SessionRepository.set_human_name s n; m)
| txn_compat_finish s m : transaction m →
    transaction (do! CompatSessionRepository.finish s; m)
| txn_compat_finish_bulk f m : transaction m →
    transaction (do! CompatSessionRepository.finish_bulk f; m)
| txn_compat_name s n m : transaction m →
    transaction (do! CompatSessionRepository.set_human_name s n; m)
| txn_personal_add o u n s m : transaction m →
    transaction (do! PersonalSessionRepository.add o u n s; m)
| txn_personal_token_add s x e m : transaction m →
    transaction (do! PersonalAccessTokenRepository.add s x e; m)
| txn_personal_token_revoke a m : transaction m →
    transaction (do! PersonalAccessTokenRepository.revoke a; m)
| txn_personal_revoke s m : transaction m →
    transaction (do! PersonalSessionRepository.revoke s; m)
| txn_personal_revoke_bulk f m : transaction m →
    transaction (do! PersonalSessionRepository.revoke_bulk f; m)
| txn_user_add n m : transaction m →
    transaction (do! UserRepository.add n; m)
| txn_user_lock u m : transaction m →
    transaction (do! UserRepository.lock u; m)
| txn_user_unlock u m : transaction m →
    transaction (do! UserRepository.unlock u; m)
| txn_user_deactivate u m : transaction m →
    transaction (do! UserRepository.deactivate u; m)
| txn_user_reactivate u m : transaction m →
    transaction (do! UserRepository.reactivate u; m)
| txn_user_admin u b m : transaction m →
    transaction (do! UserRepository.set_can_request_admin u b; m)
| txn_password_add u v h o m : transaction m →
    transaction (do! UserPasswordRepository.add u v h o; m)
| txn_schedule u m : transaction m →
    transaction (do! QueueJobRepository.schedule_sync_devices u; m).

(** Such a transaction, opened and saved. *)
Definition run_transaction (m : M (World R) DatabaseError unit) :
    M (World R) DatabaseError unit :=
  do! from_pool;
  do! m;
  save.

Lemma transaction_keeps_integrity m : transaction m → keeps keeps_integrity m.
Proof. induction 1; keeps_tac. Qed.
End Transactions.
