(* ===== verification/Evolution.v ===== *)
(** * How the database evolves

    No modelled operation removes a row, changes what a row is about, or
    takes a mark back: a finished session stays finished, a revoked or
    consumed token stays so, an exchanged grant stays exchanged. *)

From stdpp Require Import base tactics list strings gmap.
From Stdlib Require Import ZArith Lia Ascii.
From S2P Require Import Prelude Text Scope Externals Formats TokenFormat DataModel CompatModel Storage TokenRepo GrantRepo QueueRepo UserRepo CompatRepo PersonalRepo AppSessionRepo RepoFacts CompatRepoFacts Integrity.

(** ** Orders on rows and tables *)

(** A nullable timestamp that is never reset. *)
Definition stays (o o' : option DateTime) : Prop := o = None ∨ is_Some o'.

#[export] Instance stays_preorder : PreOrder stays.
Proof.
  split; [intros [?|]; [right; eauto | by left]|].
  intros x y z [->|[? ->]]; [by left|]. intros [?|?]; [done | by right].
Qed.

Section Order.
Context {Row T : Type} (fixed : Row → T) (marks : Row → list (option DateTime)).

Definition row_le (r r' : Row) : Prop :=
  fixed r' = fixed r ∧ Forall2 stays (marks r) (marks r').

#[export] Instance row_le_preorder : PreOrder row_le.
Proof.
  split.
  - intros r. split; [done|]. reflexivity.
  - intros x y z [? ?] [? ?]. split; [congruence|]. by transitivity (marks y).
Qed.

Definition table_le (m m' : gmap Z Row) : Prop :=
  ∀ k r, m !! k = Some r → ∃ r', m' !! k = Some r' ∧ row_le r r'.

#[export] Instance table_le_preorder : PreOrder table_le.
Proof.
  split.
  - intros m k r ?. exists r. by split.
  - intros x y z H1 H2 k r (r1 & Hr1 & ?)%H1. apply H2 in Hr1 as (r2 & ? & ?).
    exists r2. split; [done|]. by transitivity r1.
Qed.

Lemma table_le_insert m k r : m !! k = None → table_le m (<[k := r]> m).
Proof. intros Hk k' r' Hr'. exists r'. split; [|done]. rewrite lookup_insert_ne; congruence. Qed.

Lemma table_le_update m k r0 r :
  m !! k = Some r0 → row_le r0 r → table_le m (<[k := r]> m).
Proof.
  intros Hk Hr k' r' Hr'. destruct (decide (k' = k)) as [->|].
  - exists r. rewrite lookup_insert_eq. split; [done|]. by simplify_eq.
  - exists r'. by rewrite lookup_insert_ne.
Qed.

Lemma table_le_fmap m f : (∀ r, row_le r (f r)) → table_le m (f <$> m).
Proof. intros Hf k r Hr. exists (f r). by rewrite lookup_fmap, Hr. Qed.
End Order.

(** ** The tables *)

Definition session_fixed (r : OAuthSessionLookup.t) :=
  (OAuthSessionLookup.oauth2_session_id r, OAuthSessionLookup.user_id r,
   OAuthSessionLookup.user_session_id r, OAuthSessionLookup.oauth2_client_id r,
   OAuthSessionLookup.scope_list r, OAuthSessionLookup.created_at r).
Definition session_marks (r : OAuthSessionLookup.t) := [OAuthSessionLookup.finished_at r].

Definition access_fixed (r : OAuth2AccessTokenLookup.t) :=
  (OAuth2AccessTokenLookup.oauth2_access_token_id r,
   OAuth2AccessTokenLookup.oauth2_session_id r, OAuth2AccessTokenLookup.access_token r,
   OAuth2AccessTokenLookup.created_at r, OAuth2AccessTokenLookup.expires_at r).
Definition access_marks (r : OAuth2AccessTokenLookup.t) :=
  [OAuth2AccessTokenLookup.revoked_at r; OAuth2AccessTokenLookup.first_used_at r].

Definition refresh_fixed (r : OAuth2RefreshTokenLookup.t) :=
  (OAuth2RefreshTokenLookup.oauth2_refresh_token_id r,
   OAuth2RefreshTokenLookup.refresh_token r, OAuth2RefreshTokenLookup.oauth2_session_id r,
   OAuth2RefreshTokenLookup.created_at r,
   OAuth2RefreshTokenLookup.oauth2_access_token_id r).
Definition refresh_marks (r : OAuth2RefreshTokenLookup.t) :=
  [OAuth2RefreshTokenLookup.revoked_at r; OAuth2RefreshTokenLookup.consumed_at r].

Definition grant_fixed (r : GrantLookup.t) :=
  (GrantLookup.oauth2_authorization_grant_id r, GrantLookup.authorization_code r,
   GrantLookup.oauth2_client_id r, GrantLookup.scope r, GrantLookup.redirect_uri r,
   GrantLookup.code_challenge r, GrantLookup.code_challenge_method r).
Definition grant_marks (r : GrantLookup.t) :=
  [GrantLookup.fulfilled_at r; GrantLookup.exchanged_at r; GrantLookup.cancelled_at r].

Definition device_fixed (r : OAuth2DeviceGrantLookup.t) :=
  (OAuth2DeviceGrantLookup.oauth2_device_code_grant_id r,
   OAuth2DeviceGrantLookup.device_code r, OAuth2DeviceGrantLookup.user_code r,
   OAuth2DeviceGrantLookup.oauth2_client_id r, OAuth2DeviceGrantLookup.scope r,
   OAuth2DeviceGrantLookup.expires_at r).
Definition device_marks (r : OAuth2DeviceGrantLookup.t) :=
  [OAuth2DeviceGrantLookup.fulfilled_at r; OAuth2DeviceGrantLookup.rejected_at r;
   OAuth2DeviceGrantLookup.exchanged_at r].

Definition user_session_fixed (r : UserSessionRow.t) :=
  (UserSessionRow.user_session_id r, UserSessionRow.user_id r, UserSessionRow.created_at r).
Definition user_session_marks (r : UserSessionRow.t) := [UserSessionRow.finished_at r].

Definition compat_session_fixed (r : CompatSessionLookup.t) :=
  (CompatSessionLookup.compat_session_id r, CompatSessionLookup.device_id r,
   CompatSessionLookup.user_id r, CompatSessionLookup.user_session_id r,
   CompatSessionLookup.created_at r, CompatSessionLookup.is_synapse_admin r).
Definition compat_session_marks (r : CompatSessionLookup.t) :=
  [CompatSessionLookup.finished_at r].

Definition compat_access_fixed (r : CompatAccessTokenLookup.t) :=
  (CompatAccessTokenLookup.compat_access_token_id r, CompatAccessTokenLookup.access_token r,
   CompatAccessTokenLookup.created_at r, CompatAccessTokenLookup.compat_session_id r).
Definition compat_access_marks (r : CompatAccessTokenLookup.t) :=
  [CompatAccessTokenLookup.expires_at r].

Definition compat_refresh_fixed (r : CompatRefreshTokenLookup.t) :=
  (CompatRefreshTokenLookup.compat_refresh_token_id r, CompatRefreshTokenLookup.refresh_token r,
   CompatRefreshTokenLookup.created_at r, CompatRefreshTokenLookup.compat_access_token_id r,
   CompatRefreshTokenLookup.compat_session_id r).
Definition compat_refresh_marks (r : CompatRefreshTokenLookup.t) :=
  [CompatRefreshTokenLookup.consumed_at r].

Definition sso_login_fixed (r : CompatSsoLoginLookup.t) :=
  (CompatSsoLoginLookup.compat_sso_login_id r, CompatSsoLoginLookup.login_token r,
   CompatSsoLoginLookup.redirect_uri r, CompatSsoLoginLookup.created_at r).
Definition sso_login_marks (r : CompatSsoLoginLookup.t) :=
  [CompatSsoLoginLookup.fulfilled_at r; CompatSsoLoginLookup.exchanged_at r].

Definition personal_session_fixed (r : PersonalSessionLookup.t) :=
  (PersonalSessionLookup.personal_session_id r, PersonalSessionLookup.owner_user_id r,
   PersonalSessionLookup.owner_oauth2_client_id r, PersonalSessionLookup.actor_user_id r,
   PersonalSessionLookup.scope_list r, PersonalSessionLookup.created_at r).
Definition personal_session_marks (r : PersonalSessionLookup.t) :=
  [PersonalSessionLookup.revoked_at r].

Definition personal_token_fixed (r : PersonalAccessTokenLookup.t) :=
  (PersonalAccessTokenLookup.personal_access_token_id r,
   PersonalAccessTokenLookup.personal_session_id r,
   PersonalAccessTokenLookup.access_token_sha256 r, PersonalAccessTokenLookup.created_at r,
   PersonalAccessTokenLookup.expires_at r).
Definition personal_token_marks (r : PersonalAccessTokenLookup.t) :=
  [PersonalAccessTokenLookup.revoked_at r].

Record evolves (d d' : Db) : Prop := {
  ev_sessions :
    table_le session_fixed session_marks (oauth2_sessions d) (oauth2_sessions d');
  ev_access :
    table_le access_fixed access_marks (oauth2_access_tokens d) (oauth2_access_tokens d');
  ev_refresh :
    table_le refresh_fixed refresh_marks (oauth2_refresh_tokens d)
      (oauth2_refresh_tokens d');
  ev_grants :
    table_le grant_fixed grant_marks (oauth2_authorization_grants d)
      (oauth2_authorization_grants d');
  ev_device :
    table_le device_fixed device_marks (oauth2_device_code_grant d)
      (oauth2_device_code_grant d');
  ev_user_sessions :
    table_le user_session_fixed user_session_marks (user_sessions d) (user_sessions d');
  ev_compat_sessions :
    table_le compat_session_fixed compat_session_marks (compat_sessions d) (compat_sessions d');
  ev_compat_access :
    table_le compat_access_fixed compat_access_marks (compat_access_tokens d)
      (compat_access_tokens d');
  ev_compat_refresh :
    table_le compat_refresh_fixed compat_refresh_marks (compat_refresh_tokens d)
      (compat_refresh_tokens d');
  ev_sso_logins :
    table_le sso_login_fixed sso_login_marks (compat_sso_logins d) (compat_sso_logins d');
  ev_personal_sessions :
    table_le personal_session_fixed personal_session_marks (personal_sessions d)
      (personal_sessions d');
  ev_personal_tokens :
    table_le personal_token_fixed personal_token_marks (personal_access_tokens d)
      (personal_access_tokens d');
}.

#[export] Instance evolves_preorder : PreOrder evolves.
Proof.
  split; [intros d; split; reflexivity|].
  intros x y z [] []. split; etransitivity; eassumption.
Qed.

(** ** Operations *)

Ltac row_le_solve :=
  intros; repeat case_match; (split; [done|]);
  cbv [session_marks access_marks refresh_marks grant_marks device_marks
       user_session_marks compat_session_marks compat_access_marks compat_refresh_marks
       sso_login_marks personal_session_marks personal_token_marks]; simpl;
  repeat (apply Forall2_cons; split;
          [first [reflexivity | right; eexists; reflexivity]|]);
  (apply Forall2_nil; done).

Ltac evolves_solve :=
  split; simpl in *;
  first [reflexivity
        | apply table_le_insert; done
        | eapply table_le_update; [done | row_le_solve]
        | apply table_le_fmap; row_le_solve].

Abbreviation keeps_evolution := (keeps_db evolves) (only parsing).

#[export] Hint Extern 1 (keeps (keeps_db evolves) (execute (insert_stmt _ _ _))) =>
  apply (keeps_db_execute _); intros ??? (? & ? & ? & ->)%insert_stmt_inv; evolves_solve : keeps.

#[export] Hint Extern 1 (keeps (keeps_db evolves) (execute (update_stmt _ _ _))) =>
  apply (keeps_db_execute _);
  intros ??? [->|(? & ? & ? & ->)]%update_stmt_any; [reflexivity | evolves_solve] : keeps.

#[export] Hint Extern 1 (keeps (keeps_db evolves) (execute (update_row_where_stmt _ _ _))) =>
  apply (keeps_db_execute _);
  intros ??? [->|(? & ? & ? & ->)]%update_row_where_any; [reflexivity | evolves_solve] : keeps.

#[export] Hint Extern 1
    (keeps (keeps_db evolves) (execute (UserRepository.insert_user_stmt _))) =>
  apply (keeps_db_execute _);
  intros ??? [->|(? & ? & ->)]%insert_user_any; [reflexivity | evolves_solve] : keeps.

#[export] Hint Extern 2 (keeps (keeps_db evolves) (execute _)) =>
  apply (keeps_db_execute _); unfold update_where_stmt;
  intros ??? [= <- <-]; evolves_solve : keeps.

Section Transactions.
Context {R : Type} `{!RngCore R} {url_lib : UrlLib} {ulid_text : UlidText} {sha2 : Sha2}.

Lemma transaction_keeps_evolution m : transaction (R := R) m → keeps keeps_evolution m.
Proof. induction 1; keeps_tac. Qed.
End Transactions.
