(* ===== verification/Scenario.v ===== *)
(** * A concrete deployment

    Instances of the parameters of the endpoints and small databases, to run
    the handlers on: a public client, a user with a browser session, and a
    grant the user has fulfilled. *)

From stdpp Require Import base tactics list strings gmap.
From Stdlib Require Import ZArith Lia Ascii.
From S2P Require Import Prelude Text Scope Externals Formats TokenFormat DataModel Storage TokenRepo GrantRepo QueueRepo UserRepo Passwords ClientAuth TokenEndpoint Introspection CompatEndpoints Tasks ClientMetadata Registration RepoFacts Integrity.

Module Scenario.
Export Counter PlainPasswords.

#[export] Instance no_crypto : ClientCrypto := {
  decrypt_string s := Some s;
  verify_with_jwks _ _ := false;
  verify_with_shared_secret _ _ := false;
  http_get_jwks _ := None;
}.
#[export] Instance allow_all : Policy := λ _ _ _ _ _ _ _, Some [].
#[export] Instance plain_templates : Templates := {
  parse_locale _ := true;
  render_device_name _ _ _ := Some "device";
}.
#[export] Instance one_key : Keystore Z := {
  oidc_issuer := "https://auth.example.com/";
  signing_key_for_algorithm _ := Some 0%Z;
  signing_key_for_alg _ _ := true;
  key_kid _ := Some "kid";
  hash_token _ s := Some s;
  sign_with_rng _ _ _ r := (Some "jwt", r + 1)%Z;
}.

#[export] Instance plain_url_split : UrlSplit := λ _, mkUrlParts "https" "" None true.
#[export] Instance secret_homeserver : Homeserver := "secret".
#[export] Instance example_names : MatrixNames := {
  homeserver := "example.com";
  parse_user_id _ := None;
}.
#[export] Instance no_limits : Limits := {
  requester_allowed _ := true;
  user_allowed _ := true;
}.
#[export] Instance no_texts : ErrorTexts := {
  database_text _ := "database";
  homeserver_text _ := "homeserver";
}.
#[export] Instance no_suffixes : PublicSuffixes := λ _, None.
#[export] Instance plain_hex : Hex := λ s, s.
#[export] Instance plain_metadata_json : MetadataJson := λ m,
  Some (if ClientMetadata.token_endpoint_auth_method m then "secret" else "default").
#[export] Instance allow_clients : RegistrationPolicy := λ _ _ _, Some [].
#[export] Instance plain_aead : Aead := {
  aead_encrypt _ s := Some s;
  aead_decrypt _ s := Some s;
}.
#[export] Instance plain_base64 : Base64Std := {
  base64_encode s := s;
  base64_decode := Some;
}.
#[export] Instance plain_aead_laws : AeadLaws.
Proof. intros nonce s c _ [= <-]. done. Qed.
#[export] Instance plain_base64_laws : Base64StdLaws.
Proof. done. Qed.
#[export] Instance allow_logins : LoginPolicy := λ _ _ _ _ _ _, Some [].

Definition client : OAuth2ClientLookup.t :=
  OAuth2ClientLookup.mk 1 None None None [] true true false true None None None None None
    None None None None (Some "none") None None false.
Definition user : UserLookup.t := UserLookup.mk 2 "alice" 0 None None false false.
Definition browser : UserSessionRow.t := UserSessionRow.mk 3 2 0 None None None None.

Definition scope_text : string := "urn:pg:mas-logout".
Definition verifier : string := letters 43 0.

(** The user fulfilled the grant at second 1. *)
Definition grant : GrantLookup.t :=
  GrantLookup.mk 4 0 None (Some 1000000%Z) None scope_text None None
    "https://app.example.com/" "query" true false (Some "code") (Some verifier)
    (Some "plain") None None None 1 (Some 3%Z) None.

Definition db : Db :=
  mkDb {[1%Z := client]} {[2%Z := user]} {[3%Z := browser]} ∅ ∅ ∅ ∅ {[4%Z := grant]} ∅ ∅ ∅ ∅ None ∅ ∅ ∅ ∅ ∅ ∅ ∅ ∅ ∅ no_accounts.

(** A clock that advances by a second at each reading. *)
Definition clock (n : nat) : DateTime := (2000000 + 1000000 * Z.of_nat n)%Z.

(** A world between two requests: the database, the state of the generator
    and the number of clock readings so far. *)
Definition world (d : Db) (rng : Z) (ticks : nat) : World Z :=
  mkWorld d d rng clock ticks (clock ticks) [] [] [] [] [].

Lemma world_committed d rng ticks : w_committed (world d rng ticks) = d.
Proof. reflexivity. Qed.

Definition config : SiteConfig := mkSiteConfig 300000000 300000000 None true true.

Definition client_credentials : Credentials := NoneCredentials (ulid_to_string 1).

Definition code_request : ClientAuthorization AccessTokenRequest :=
  mkClientAuthorization client_credentials
    (Some (AuthorizationCodeRequest (mkAuthorizationCodeGrant "code" None (Some verifier)))).

(** The exchange of the code. *)
Definition exchange := token_request None config None code_request (world db 0 0).
Definition exchanged_db : Db := w_committed exchange.2.

Example exchange_ok : is_ok exchange.1 = true.
Proof. vm_compute. reflexivity. Qed.

Lemma integrity_db : integrity db.
Proof.
  split; intros k *; simpl; intros;
    repeat match goal with
      | H : {[_ := _]} !! _ = Some _ |- _ => apply lookup_singleton_Some in H as [<- <-]
      | H : ∅ !! _ = Some _ |- _ => by rewrite lookup_empty in H
      end; try done; simplify_eq/=; vm_compute; eauto.
Qed.
End Scenario.
