(* ===== verification/QueueTheorems.v ===== *)
(** * Correctness of the job queue

    What every history of a deployment of workers guarantees: a job is run
    by one worker at a time and at most [MAX_ATTEMPTS] times after the first,
    it only moves forward, two workers never lead at once, and a job that is
    available is reserved in turn.  And what it does not: the jobs of a worker
    that died stay as they are, and hold their schedule back. *)

From stdpp Require Import base tactics list strings gmap sorting relations.
From Stdlib Require Import ZArith Lia.
From S2P Require Import Prelude Text Scope Externals Formats Pagination TokenFormat DataModel Storage QueueRepo QueueWorker Triples QueueFacts QueueSystem QueueHistory TokenRepo GrantRepo UserRepo ClientAuth TokenEndpoint RepoFacts Integrity Scenario.
#[local] Open Scope Z_scope.
Import QueueJobRow.

Section Theorems.
Context {R : Type} `{!RngCore R} {cron : Cron}.
Implicit Types sys : System.
Implicit Types w : World R.
Local Abbreviation reachable := (reachable (R := R)).
Local Abbreviation sys_step := (sys_step (R := R)).
Local Abbreviation trace := (trace (R := R)).

(** C27: in every state a deployment reaches, each job is in a state of its
    life cycle (its columns agree with its status) and has between 0 and
    [MAX_ATTEMPTS] earlier attempts; each job a worker tracks runs, was started
    by that worker and has the attempt the worker knows; and no job is tracked
    twice, by one worker or by two. *)
Theorem queue_invariant sys :
  reachable sys →
  (∀ id r, queue_jobs (sys_db sys) !! id = Some r → queue_job_id r = id ∧ job_wf r) ∧
  (∀ k q t c, sys_workers sys !! k = Some q → JobTracker.job_contexts (tracker q) !! t = Some c →
     ∃ r, queue_jobs (sys_db sys) !! JobContext.id c = Some r ∧ status r = Running ∧
       started_by r = Some k ∧ attempt r = JobContext.attempt c) ∧
  (∀ k k' q q' t t' c c', sys_workers sys !! k = Some q → sys_workers sys !! k' = Some q' →
     JobTracker.job_contexts (tracker q) !! t = Some c →
     JobTracker.job_contexts (tracker q') !! t' = Some c' →
     JobContext.id c = JobContext.id c' → k = k' ∧ t = t').
Proof.
  intros [Hok Htr]%reachable_ok.
  assert (∀ k q t c, sys_workers sys !! k = Some q →
    JobTracker.job_contexts (tracker q) !! t = Some c →
    ∃ r, queue_jobs (sys_db sys) !! JobContext.id c = Some r ∧ status r = Running ∧
      started_by r = Some k ∧ attempt r = JobContext.attempt c) as Hrun.
  { intros k q t c Hk Ht. destruct (Htr k q Hk) as [<- [_ Htk _]].
    exact (tracked_running _ _ _ Htk t c Ht). }
  split_and!; [exact Hok|exact Hrun|]. intros k k' q q' t t' c c' Hk Hk' Ht Ht' Heq.
  destruct (Hrun k q t c Hk Ht) as (r & Hr & _ & Hs & _).
  destruct (Hrun k' q' t' c' Hk' Ht') as (r' & Hr' & _ & Hs' & _).
  rewrite <-Heq in Hr'. simplify_eq. split; [done|].
  destruct (Htr k q Hk) as [_ [_ Htk _]]. by eapply (tracked_once _ _ _ Htk).
Qed.

Lemma trace_moves sys es sys' id r :
  system_ok sys → trace sys es sys' → queue_jobs (sys_db sys) !! id = Some r →
  ∃ r', queue_jobs (sys_db sys') !! id = Some r' ∧ job_moves r r'.
Proof.
  intros Hsys Htr. revert r. induction Htr as [sys|sys e sys1 es sys2 Hs _ IH]; intros r Hr.
  - exists r. split; [done|reflexivity].
  - destruct (sys_step_effect _ _ _ Hsys Hs) as (Hsys1 & _ & k & Hp & _).
    destruct (progress_jobs _ _ _ Hp id r Hr) as (r1 & Hr1 & Hm1 & _).
    destruct (IH Hsys1 r1 Hr1) as (r2 & Hr2 & Hm2). exists r2. split; [done|by transitivity r1].
Qed.

(** A job only moves forward: whatever happens between two states, short
    of a clean-up, a job of the first is in the second, with the same queue,
    payload, attempt and date, its status not before the one it had; once it
    was started, the worker and the date of the start stay, so that it is
    started once, and once it ended its outcome stays. *)
Theorem job_moves_forward sys es sys' id r :
  reachable sys → trace sys es sys' → queue_jobs (sys_db sys) !! id = Some r →
  ∃ r', queue_jobs (sys_db sys') !! id = Some r' ∧ job_moves r r'.
Proof. intros Hsys%reachable_ok. by apply trace_moves. Qed.

(** A worker never stumbles over its own jobs: a turn or a shutdown of a
    worker that is alive fails only when the database does, or, for a turn,
    when the worker was declared dead; it then commits nothing.  In
    particular it never panics for want of a context, nor finds that a job it
    finished is not its own. *)
Theorem worker_errors sys k q w :
  reachable sys → sys_workers sys !! k = Some q → w_committed w = sys_db sys →
  (∀ e w', tick q w = (Err e, w') → w_committed w' = sys_db sys ∧ tick_error (sys_db sys) k e) ∧
  (∀ outcome e w', shutdown outcome q w = (Err e, w') → w_committed w' = sys_db sys ∧
     (e = StartTransaction ∨ e = CommitTransaction ∨ e = Database Driver)).
Proof.
  intros [Hok Htr]%reachable_ok Hk Hc. destruct (Htr k q Hk) as [<- Hq]. split.
  - intros e w' Hrun.
    pose proof (tick_commits (R := R) _ (w_db_now w) q Hok Hq w Hc eq_refl I) as H.
    by rewrite Hrun in H.
  - intros outcome e w' Hrun.
    pose proof (shutdown_commits (R := R) _ (w_db_now w) outcome q Hok Hq w Hc eq_refl I) as H.
    by rewrite Hrun in H.
Qed.

(** ** The leader *)

(** The lease of [a] covers the dates until [until]. *)
Definition leads (a : Z) (until : DateTime) (d : Db) : Prop :=
  ∃ l, queue_leader d = Some l ∧ QueueLeaderRow.queue_worker_id l = a ∧
    until <= QueueLeaderRow.expires_at l.

(** The events of a window of time, in which [a] does not stop. *)
Definition in_time (a : Z) (from until : DateTime) (e : event) : Prop :=
  match e with Ticked _ n _ _ => from <= n <= until | Stopped k => k ≠ a | Other => True end.

Lemma leads_step a from e d d' :
  leads a (from + QueueWorkerRepository.LEASE) d →
  in_time a from (from + QueueWorkerRepository.LEASE) e → lease_step e d d' →
  leads a (from + QueueWorkerRepository.LEASE) d'.
Proof.
  intros (l & Hl & Ha & Hexp) Ht Hs. destruct e as [k n lead qs|k|]; simpl in *.
  - destruct Hs as [t Hs]. rewrite Hl in Hs. simpl in Hs.
    destruct (QueueLeaderRow.expires_at l <? n) eqn:Hlt; [apply Z.ltb_lt in Hlt; lia|].
    unfold lease_after in Hs. case_decide as Hk; injection Hs as _ Hl'.
    + eexists. split_and!; [by symmetry|simpl; congruence|simpl; lia].
    + exists l. by split_and!.
  - exists l. destruct Hs as [Hs|Hs]; rewrite Hs, Hl; [done|]. simpl. by rewrite decide_False by congruence.
  - exists l. by rewrite Hs.
Qed.

(** C28: two workers do not lead at once: after a turn in which the worker
    [a] leads at a date of the database, no turn of another worker within the
    five seconds of the lease makes it the leader, whatever happens in between,
    unless [a] shuts down. *)
Theorem leader_exclusive sys sys1 sys2 sys3 a b n n' lead qs qs' es :
  reachable sys →
  sys_step sys (Ticked a n true qs) sys1 →
  trace sys1 es sys2 → Forall (in_time a n (n + QueueWorkerRepository.LEASE)) es →
  sys_step sys2 (Ticked b n' lead qs') sys3 → b ≠ a →
  n <= n' <= n + QueueWorkerRepository.LEASE →
  lead = false.
Proof.
  intros Hsys%reachable_ok Hs1 Htr Hes Hs2 Hne Hn.
  destruct (sys_step_effect _ _ _ Hsys Hs1) as (Hsys1 & [t Hl] & _).
  assert (leads a (n + QueueWorkerRepository.LEASE) (sys_db sys1)) as Hlead.
  { unfold lease_after in Hl. repeat case_match; simplify_eq; eexists;
      (split_and!; [by symmetry|done|simpl; lia]). }
  clear Hl Hs1 Hsys. assert (system_ok sys2 ∧ leads a (n + QueueWorkerRepository.LEASE) (sys_db sys2)) as [Hsys2 Hlead2].
  { induction Htr as [|s e s1 es s2 Hs _ IH]; [done|]. apply Forall_cons in Hes as [He Hes].
    destruct (sys_step_effect _ _ _ Hsys1 Hs) as (Hs1' & Hl & _). apply IH; try done.
    by eapply leads_step. }
  destruct (sys_step_effect _ _ _ Hsys2 Hs2) as (_ & [t' Hl] & _).
  destruct Hlead2 as (l & Hl2 & Ha & Hexp). rewrite Hl2 in Hl. simpl in Hl.
  destruct (QueueLeaderRow.expires_at l <? n') eqn:Hlt; [apply Z.ltb_lt in Hlt; lia|].
  unfold lease_after in Hl. case_decide; simplify_eq. done.
Qed.
(** ** Results and retries *)

Lemma retry_delay_eq a : 0 <= a < MAX_ATTEMPTS → retry_delay a = 5000000 * 2 ^ a.
Proof.
  unfold MAX_ATTEMPTS. intros Ha. assert (2 ^ a <= 2 ^ 9) by (apply Z.pow_le_mono_r; lia).
  assert (0 < 2 ^ a) by (apply Z.pow_pos_nonneg; lia).
  unfold retry_delay, wrap_i64. rewrite (Z.min_l a), (Z.min_l (2 ^ a)) by lia.
  rewrite Z.mod_small by lia. lia.
Qed.

(** The result of a job that runs is recorded: a success completes it, a
    failure or a crash fails it with its reason; and when a retry is wanted and
    fewer than [MAX_ATTEMPTS] attempts were made, a new job is scheduled with
    the same queue, payload and schedule, one attempt more, five seconds times
    two to the attempt later, and the failed job and the schedule that waited
    for it point to it.  The driver aside, recording does not fail. *)
Theorem result_recorded res ctx r w :
  queue_jobs (w_txn w) !! JobContext.id ctx = Some r → status r = Running →
  0 <= JobContext.attempt ctx →
  match process_result res ctx w with
  | (Ok _, w') => recorded res ctx r (w_txn w) (w_txn w') ∧
      (JobContext.attempt ctx < MAX_ATTEMPTS →
       retry_delay (JobContext.attempt ctx) = 5000000 * 2 ^ JobContext.attempt ctx)
  | (Err e, _) => e = Driver
  end.
Proof.
  intros Hr Hs Ha.
  pose proof (process_result_triple (R := R) (w_committed w) (w_db_now w) (w_txn w) res ctx r Hr Hs
    w eq_refl eq_refl eq_refl) as H.
  destruct (process_result res ctx w) as [[[]|e] w']; destruct H as (_ & _ & H); [|done].
  split; [done|]. intros Hlt. by apply retry_delay_eq.
Qed.

(** ** Reserving in turn *)

(** A reservation takes the oldest available jobs of the queues: as many
    as asked for or all of them, in the order of their identifiers; each now
    runs for the worker and no other job is changed; a job of the queues that
    is left available is younger than all of those taken, which are then as
    many as asked for. *)
Theorem reserve_oldest q queues count w jobs w' :
  jobs_ok (w_txn w) → is_Some (queue_workers (w_txn w) !! q) → 0 <= count < 2 ^ 63 →
  QueueJobRepository.reserve q queues count w = (Ok jobs, w') →
  StronglySorted (λ a b, Job.id a < Job.id b) jobs ∧
  Z.of_nat (length jobs) <= count ∧
  (∃ t, ∀ id, queue_jobs (w_txn w') !! id =
     (λ r, if decide (id ∈ Job.id <$> jobs) then QueueJobRepository.with_running t q r else r)
       <$> queue_jobs (w_txn w) !! id) ∧
  (∀ j, j ∈ jobs → ∃ r, queue_jobs (w_txn w) !! Job.id j = Some r ∧ status r = Available ∧
     queue_name r ∈ queues ∧ j = Job.mk (Job.id j) (queue_name r) (payload r) (attempt r)) ∧
  (∀ id r, queue_jobs (w_txn w) !! id = Some r → status r = Available → queue_name r ∈ queues →
     id ∉ Job.id <$> jobs →
     Z.of_nat (length jobs) = count ∧ ∀ j, j ∈ jobs → Job.id j < id).
Proof.
  intros Hok Hq Hcount Hrun.
  pose proof (reserve_triple (R := R) (w_committed w) (w_db_now w) q queues count (w_txn w) Hok Hq
    w eq_refl eq_refl eq_refl) as H. rewrite Hrun in H. destruct H as (_ & _ & -> & t & Hd').
  set (locked := QueueJobRepository.locked_jobs queues count (w_txn w)) in *.
  assert (Job.id <$> (job_of <$> locked) = queue_job_id <$> locked) as Hids
    by (rewrite <-list_fmap_compose; done).
  destruct (locked_jobs_spec queues count (w_txn w) Hok Hcount) as (Hs & Hlen & Hrest).
  fold locked in Hs, Hlen, Hrest. rewrite length_fmap, Hids. split_and!; [|done| | |].
  - clear -Hs. induction Hs as [|x l Hl IH Hx]; [constructor|]. rewrite fmap_cons. constructor; [done|].
    apply Forall_fmap. eapply Forall_impl; [exact Hx|]. done.
  - exists t. intros id. rewrite Hd'. simpl. apply start_jobs_lookup.
  - intros j (r & -> & Hr)%list_elem_of_fmap. apply locked_jobs_elem in Hr as (Hr & Ha & Hn); [|done].
    by exists r.
  - intros id r Hr Ha Hn Hid. destruct (Hrest id r Hr Ha Hn Hid) as [Hl Hy]. split; [done|].
    intros j (r' & -> & Hr')%list_elem_of_fmap. by apply Hy.
Qed.
(** ** Every available job is reserved *)

(** The available jobs of the queues that are older than [id]. *)
Definition older (queues : list string) (id : Ulid) (d : Db) : gmap Z QueueJobRow.t :=
  filter (λ kr, QueueJobRepository.reservable queues kr.2 = true ∧ kr.1 < id) (queue_jobs d).

(** No job older than [id] becomes available. *)
Definition quiet (id : Ulid) (d d' : Db) : Prop :=
  ∀ k r, k < id → queue_jobs d' !! k = Some r → status r = Available → queue_jobs d !! k = Some r.

Inductive quiet_trace (id : Ulid) : System → list event → System → Prop :=
| quiet_nil sys : quiet_trace id sys [] sys
| quiet_cons sys e sys1 es sys2 :
    sys_step sys e sys1 → quiet id (sys_db sys) (sys_db sys1) → quiet_trace id sys1 es sys2 →
    quiet_trace id sys (e :: es) sys2.

(** The turns that took jobs of the queues. *)
Definition is_turn (queues : list string) (e : event) : bool :=
  match e with Ticked _ _ _ qs => bool_decide (qs = queues) | _ => false end.

Definition turns (queues : list string) (es : list event) : nat :=
  length (filter (λ e, is_turn queues e = true) es).

Lemma reservable_available queues r :
  QueueJobRepository.reservable queues r = true ↔ status r = Available ∧ queue_name r ∈ queues.
Proof.
  unfold QueueJobRepository.reservable. by rewrite andb_true_iff, has_status_true, bool_decide_eq_true.
Qed.

Lemma older_quiet queues id d d' : quiet id d d' → older queues id d' ⊆ older queues id d.
Proof.
  intros Hq. apply map_subseteq_spec. intros k r. unfold older.
  rewrite !map_lookup_filter_Some. simpl. intros (Hr & Hs & Hk).
  split; [|done]. apply Hq; [done..|]. by apply reservable_available in Hs as [? _].
Qed.

(** A turn that leaves the job available takes at least [MAX_JOBS_TO_FETCH]
    older ones. *)
Lemma turn_takes_older q queues id r d d' :
  takes q queues d d' → queue_jobs d' !! id = Some r → QueueJobRepository.reservable queues r = true →
  (size (older queues id d') + 5 ≤ size (older queues id d))%nat.
Proof.
  intros (d1 & jobs & count & Hcount & Hok & Hp & Hav & Hres) Hr Hrs.
  unfold MAX_JOBS_TO_FETCH, MAX_CONCURRENT_JOBS in Hcount.
  apply reservable_available in Hrs as [Ha Hn].
  destruct (reserved_ok _ _ _ _ _ _ Hok Hres) as (_ & _ & _ & Hav1 & _ & Hnd & Hjobs).
  pose proof (Hav1 _ _ Hr Ha) as Hr1. destruct Hres as [-> [t Hd']].
  set (locked := QueueJobRepository.locked_jobs queues count d1) in *.
  assert (id ∉ queue_job_id <$> locked) as Hid.
  { intros Hin. rewrite Hd' in Hr. simpl in Hr. rewrite start_jobs_lookup, Hr1 in Hr. simpl in Hr.
    rewrite decide_True in Hr by done. apply (f_equal (λ o, status <$> o)) in Hr. simpl in Hr.
    congruence. }
  destruct (locked_jobs_spec queues count d1 Hok ltac:(lia)) as (_ & _ & Hall).
  destruct (Hall id r Hr1 Ha Hn Hid) as [Hlen Hlt]. fold locked in Hlen, Hlt.
  assert (list_to_set (queue_job_id <$> locked) ∪ dom (older queues id d') ⊆ dom (older queues id d)
    ∧ list_to_set (queue_job_id <$> locked) ## dom (older queues id d')) as [Hsub Hdis].
  { split.
    - intros k [(x & -> & Hx)%elem_of_list_to_set%list_elem_of_fmap|
        (x & (Hx & Hs & Hk)%map_lookup_filter_Some)%elem_of_dom]%elem_of_union; apply elem_of_dom.
      + pose proof (Hlt x Hx). apply locked_jobs_elem in Hx as (Hx & Hxa & Hxn); [|done].
        exists x. apply map_lookup_filter_Some. simpl.
        split; [by apply Hav|]. split; [by apply reservable_available|done].
      + exists x. apply map_lookup_filter_Some. split; [|done]. simpl in Hs.
        apply reservable_available in Hs as [Hxa _]. apply Hav; [by apply Hav1|done].
    - intros k (x & -> & Hx)%elem_of_list_to_set%list_elem_of_fmap
        (y & (Hy & Hs & _)%map_lookup_filter_Some)%elem_of_dom.
      apply locked_jobs_elem in Hx as Hx'; [|done]. destruct Hx' as (Hx1 & _).
      rewrite Hd' in Hy. simpl in Hy. rewrite start_jobs_lookup, Hx1 in Hy. simpl in Hy.
      rewrite decide_True in Hy by by apply list_elem_of_fmap_2. injection Hy as <-.
      apply reservable_available in Hs as [? _]. done. }
  apply subseteq_size in Hsub. rewrite size_union in Hsub by done.
  rewrite size_list_to_set, length_fmap, !size_dom in Hsub
    by (by apply locked_jobs_nodup). lia.
Qed.

Lemma quiet_trace_trace id sys es sys' : quiet_trace id sys es sys' → trace sys es sys'.
Proof. induction 1; econstructor; eauto. Qed.

(** Along a quiet history, a job is started, or every turn takes its share of
    the older ones. *)
Lemma quiet_trace_shares queues sys es sys' id r :
  system_ok sys → quiet_trace id sys es sys' →
  queue_jobs (sys_db sys) !! id = Some r → status r = Available → queue_name r ∈ queues →
  ∃ r', queue_jobs (sys_db sys') !! id = Some r' ∧
    ((2 ≤ status_rank (status r'))%nat ∨
     (size (older queues id (sys_db sys')) + 5 * turns queues es
      ≤ size (older queues id (sys_db sys)))%nat).
Proof.
  intros Hsys Htr. revert r. induction Htr as [sys|sys e sys1 es sys2 Hs Hq Htr IH]; intros r Hr Ha Hn.
  { exists r. split; [done|right]. unfold turns. simpl. lia. }
  destruct (sys_step_effect _ _ _ Hsys Hs) as (Hsys1 & _ & k & Hp & _).
  destruct (progress_jobs _ _ _ Hp id r Hr) as (r1 & Hr1 & Hm1 & _).
  pose proof (moves_rank _ _ Hm1) as Hrank. rewrite Ha in Hrank. simpl in Hrank.
  destruct (decide (status r1 = Available)) as [Ha1|Hna].
  - assert (queue_name r1 = queue_name r) as Hn1 by (pose proof (moves_same _ _ Hm1); congruence).
    destruct (IH Hsys1 r1 Hr1 Ha1 ltac:(by rewrite Hn1)) as (r2 & Hr2 & Hd2).
    exists r2. split; [done|]. destruct Hd2 as [|Hle]; [by left|right].
    pose proof (map_subseteq_size _ _ (older_quiet queues id _ _ Hq)) as Hsub.
    unfold turns in *. rewrite filter_cons. case_decide as He; [|lia].
    destruct e as [k0 n0 lead qs| |]; [|done..]. apply bool_decide_eq_true in He as ->. simpl.
    pose proof (turn_takes_older k0 queues id r1 _ _ (tick_takes _ _ _ _ _ _ Hsys Hs) Hr1) as Ht.
    rewrite reservable_available, Hn1 in Ht. specialize (Ht (conj Ha1 Hn)). lia.
  - destruct (trace_moves _ _ _ id r1 Hsys1 (quiet_trace_trace _ _ _ _ Htr) Hr1) as (r2 & Hr2 & Hm2).
    exists r2. split; [done|left]. pose proof (moves_rank _ _ Hm2).
    destruct (status r1); simpl in *; done || lia.
Qed.

(** C29: an available job is reserved in turn: along any history in which no
    older job becomes available, the job is started once the workers of its
    queue have made a turn for every five older jobs that were available, and
    one more. *)
Theorem available_job_reserved queues sys es sys' id r :
  reachable sys → quiet_trace id sys es sys' →
  queue_jobs (sys_db sys) !! id = Some r → status r = Available → queue_name r ∈ queues →
  (size (older queues id (sys_db sys)) < 5 * turns queues es)%nat →
  ∃ r', queue_jobs (sys_db sys') !! id = Some r' ∧ (2 ≤ status_rank (status r'))%nat ∧
    is_Some (started_by r').
Proof.
  intros Hsys%reachable_ok Htr Hr Ha Hn Hlt.
  destruct (quiet_trace_shares queues sys es sys' id r Hsys Htr Hr Ha Hn) as (r' & Hr' & Hd).
  exists r'. destruct Hd as [H2|]; [|lia]. split_and!; [done|done|].
  apply quiet_trace_trace, (trace_ok _ _ _ Hsys) in Htr.
  destruct (sys_jobs _ Htr _ _ Hr') as [_ [_ Hw]]. unfold started in Hw.
  destruct (status r'); simpl in *; (lia || naive_solver).
Qed.

(** ** Jobs of a dead worker *)

Lemma lost_job_kept sys sys' id r k :
  system_ok sys → any_step sys sys' → sys_workers sys !! k = None →
  is_Some (queue_workers (sys_db sys) !! k) →
  queue_jobs (sys_db sys) !! id = Some r → status r = Running → started_by r = Some k →
  system_ok sys' ∧ sys_workers sys' !! k = None ∧ is_Some (queue_workers (sys_db sys') !! k) ∧
  queue_jobs (sys_db sys') !! id = Some r.
Proof.
  intros Hsys [[e Hs]|Hs] Hk Hw Hr Hst Hby.
  - destruct (sys_step_effect _ _ _ Hsys Hs) as (Hsys' & _ & o & Hp & Ho).
    split_and!; [done|exact (dead_step _ _ _ k Hsys Hs Hk Hw)|by apply (progress_workers _ _ _ Hp)|].
    destruct (progress_jobs _ _ _ Hp id r Hr) as (r' & Hr' & _ & [->|[?|[?|(_ & [j ->] & Hj)]]]);
      [done|congruence|congruence|]. destruct (Ho j eq_refl). congruence.
  - destruct (cleanup_step_db _ _ Hsys Hs) as (Hsys' & Hwk & Hqw & Hkeep).
    rewrite Hwk, Hqw. split_and!; [done..|]. apply Hkeep; [done|].
    unfold ended. rewrite Hst. naive_solver.
Qed.

(** The jobs of a worker that died are lost: such a job stays marked as
    running for ever, whatever the other workers do; and a recurring schedule
    whose last job it is never becomes due again. *)
Theorem lost_job_blocks_schedule sys sys' id r k :
  reachable sys → sys_workers sys !! k = None → is_Some (queue_workers (sys_db sys) !! k) →
  queue_jobs (sys_db sys) !! id = Some r → status r = Running → started_by r = Some k →
  rtc (any_step (R := R)) sys sys' →
  queue_jobs (sys_db sys') !! id = Some r ∧
  ∀ s now_, QueueScheduleRow.last_scheduled_job_id s = Some id →
    is_Some (QueueScheduleRow.last_scheduled_at s) →
    due (QueueScheduleRepository.status_of (sys_db sys') s) now_ = false.
Proof.
  intros Hsys%reachable_ok Hk Hw Hr Hst Hby Hrtc.
  assert (queue_jobs (sys_db sys') !! id = Some r) as Hr'.
  { induction Hrtc as [|sys sys1 sys2 Hs _ IH]; [done|].
    destruct (lost_job_kept sys sys1 id r k) as (H1 & H2 & H3 & H4); [done..|]. by apply IH. }
  split; [done|]. intros s now_ Hs [t Ht]. unfold due, QueueScheduleRepository.status_of. simpl.
  rewrite Ht, Hs. simpl. rewrite Hr'. simpl. destruct (now_ <? t); [done|].
  unfold QueueScheduleRepository.job_done, QueueJobRepository.has_status. by rewrite Hst.
Qed.
End Theorems.

(** ** A concrete deployment: two workers and a job *)
Module Deployment.
Import Scenario.

#[export] Instance hourly : Cron := {
  Schedule := unit;
  next_after _ t := Some (t + 3600000000);
}.

Definition no_rows : Db := mkDb ∅ ∅ ∅ ∅ ∅ ∅ ∅ ∅ ∅ ∅ ∅ ∅ None ∅ ∅ ∅ ∅ ∅ ∅ ∅ ∅ ∅ no_accounts.
Definition queues : list string := ["sync-devices"].

Definition got {E} (r : result E QueueWorker) : QueueWorker :=
  match r with Ok q => q | Err _ => mkQueueWorker 0 false 0 [] JobTracker.new end.

(** The first worker starts, then the second. *)
Definition start_a := new (world no_rows 0 0).
Definition a : Z := registration (got start_a.1).
Definition sys1 : System :=
  mkSystem _ (w_committed start_a.2) (<[a := configured queues [] (got start_a.1)]> ∅).
Definition start_b := new (world (sys_db sys1) 100 1).
Definition b : Z := registration (got start_b.1).
Definition sys2 : System :=
  mkSystem _ (w_committed start_b.2) (<[b := configured queues [] (got start_b.1)]> (sys_workers sys1)).

(** A request schedules a job. *)
Definition job : QueueJobRow.t := QueueJobRepository.available_row 7 "sync-devices" JNull 0.
Definition sys3 : System :=
  mkSystem _ (set_rows (<[7 := job]> (queue_jobs (sys_db sys2))) (sys_db sys2)) (sys_workers sys2).

(** The first worker takes it and leads; the second finds the lease taken. *)
Definition worker_of (sys : System) (k : Z) : QueueWorker :=
  default (got (Err tt)) (sys_workers sys !! k).
Definition tick_a := tick (worker_of sys3 a) (world (sys_db sys3) 200 2).
Definition sys4 : System :=
  mkSystem _ (w_committed tick_a.2) (<[a := got tick_a.1]> (sys_workers sys3)).
Definition tick_b := tick (worker_of sys4 b) (world (sys_db sys4) 300 3).
Definition sys5 : System :=
  mkSystem _ (w_committed tick_b.2) (<[b := got tick_b.1]> (sys_workers sys4)).

Lemma step1 : sys_step (R := Z) (mkSystem _ no_rows ∅) Other sys1.
Proof.
  refine (step_start (mkSystem _ no_rows ∅) (world no_rows 0 0) (got start_a.1) start_a.2 queues [] _ _);
    [done|]. unfold start_a. apply fst_run. vm_compute. reflexivity.
Qed.

Lemma step2 : sys_step (R := Z) sys1 Other sys2.
Proof.
  refine (step_start sys1 (world (sys_db sys1) 100 1) (got start_b.1) start_b.2 queues [] _ _);
    [done|]. unfold start_b. apply fst_run. vm_compute. reflexivity.
Qed.

Lemma step3 : sys_step (R := Z) sys2 Other sys3.
Proof.
  apply step_request, requested_schedule. vm_compute. reflexivity.
Qed.

Lemma step4 : sys_step (R := Z) sys3 (Ticked a (clock 2) true queues) sys4.
Proof.
  refine (step_tick sys3 (world (sys_db sys3) 200 2) a (worker_of sys3 a) (got tick_a.1) tick_a.2 _ _ _);
    [done|vm_compute; reflexivity|]. unfold tick_a. apply fst_run. vm_compute. reflexivity.
Qed.

Lemma step5 : sys_step (R := Z) sys4 (Ticked b (clock 3) false queues) sys5.
Proof.
  refine (step_tick sys4 (world (sys_db sys4) 300 3) b (worker_of sys4 b) (got tick_b.1) tick_b.2 _ _ _);
    [done|vm_compute; reflexivity|]. unfold tick_b. apply fst_run. vm_compute. reflexivity.
Qed.

Lemma reachable3 : reachable (R := Z) sys3.
Proof.
  exists no_rows. split; [intros k r Hk; vm_compute in Hk; by destruct k|].
  eapply rtc_l; [left; eexists; apply step1|]. eapply rtc_l; [left; eexists; apply step2|].
  apply rtc_once. left. eexists. apply step3.
Qed.

Lemma reachable4 : reachable (R := Z) sys4.
Proof.
  destruct reachable3 as (d & Hd & H). exists d. split; [done|].
  eapply rtc_r; [exact H|]. left. eexists. apply step4.
Qed.

Lemma queue_invariant_witness :
  ∃ r, queue_jobs (sys_db sys4) !! 7 = Some r ∧ queue_job_id r = 7 ∧ job_wf r.
Proof.
  eexists. split; [vm_compute; reflexivity|].
  apply (proj1 (queue_invariant (R := Z) sys4 reachable4) 7). vm_compute. reflexivity.
Defined.

Lemma job_moves_forward_witness :
  ∃ r', queue_jobs (sys_db sys4) !! 7 = Some r' ∧ job_moves job r'.
Proof.
  apply (job_moves_forward (R := Z) sys3 [Ticked a (clock 2) true queues] sys4 7 job reachable3).
  - eapply trace_cons; [apply step4|apply trace_nil].
  - vm_compute. reflexivity.
Defined.

(** The connection breaks at the third statement of a turn. *)
Definition broken : World Z :=
  mkWorld (sys_db sys4) (sys_db sys4) 300 clock 3 (clock 3) [false; false; true] [] [] [] [].
Definition broken_tick := tick (worker_of sys4 a) broken.

Lemma worker_errors_witness :
  ∃ e, broken_tick.1 = Err e ∧
    w_committed broken_tick.2 = sys_db sys4 ∧ tick_error (sys_db sys4) a e.
Proof.
  eexists. split; [vm_compute; reflexivity|].
  refine (proj1 (worker_errors (R := Z) sys4 a (worker_of sys4 a) broken reachable4 _ _) _ _ _).
  - vm_compute. reflexivity.
  - reflexivity.
  - unfold broken_tick. apply fst_run. vm_compute. reflexivity.
Defined.

Lemma leader_exclusive_witness :
  ∃ lead, sys_step (R := Z) sys4 (Ticked b (clock 3) lead queues) sys5 ∧ lead = false.
Proof.
  eexists. split; [apply step5|].
  apply (leader_exclusive (R := Z) sys3 sys4 sys4 sys5 a b (clock 2) (clock 3) false queues queues []
    reachable3 step4).
  - apply trace_nil.
  - constructor.
  - exact step5.
  - vm_compute. congruence.
  - vm_compute. split; congruence.
Defined.

Definition context : JobContext.t := JobContext.mk 7 "sync-devices" 0.

Lemma result_recorded_witness :
  let w := world (sys_db sys4) 300 3 in
  ∃ r, queue_jobs (w_txn w) !! 7 = Some r ∧
  match process_result (Crashed "panicked") context w with
  | (Ok _, w') => recorded (Crashed "panicked") context r (w_txn w) (w_txn w') ∧
      (0 < MAX_ATTEMPTS → retry_delay 0 = 5000000 * 2 ^ 0)
  | (Err e, _) => e = Driver
  end.
Proof.
  eexists. split; [vm_compute; reflexivity|].
  apply (result_recorded (R := Z) (Crashed "panicked") context).
  - vm_compute. reflexivity.
  - reflexivity.
  - apply Z.le_refl.
Defined.

Definition reservation := QueueJobRepository.reserve a queues 5 (world (sys_db sys3) 200 2).

Lemma reserve_oldest_witness :
  ∃ jobs, reservation.1 = Ok jobs ∧ Z.of_nat (length jobs) <= 5.
Proof.
  eexists. split; [vm_compute; reflexivity|].
  refine (proj1 (proj2 (reserve_oldest (R := Z) a queues 5 (world (sys_db sys3) 200 2) _
    reservation.2 _ _ _ _))).
  - apply (reachable_ok (R := Z) sys3 reachable3).
  - vm_compute. eexists. reflexivity.
  - split; [by vm_compute|by vm_compute].
  - unfold reservation. apply fst_run. vm_compute. reflexivity.
Defined.

Lemma available_job_reserved_witness :
  ∃ r', queue_jobs (sys_db sys4) !! 7 = Some r' ∧ (2 ≤ status_rank (status r'))%nat ∧
    is_Some (started_by r').
Proof.
  apply (available_job_reserved (R := Z) queues sys3 [Ticked a (clock 2) true queues] sys4 7 job
    reachable3).
  - eapply quiet_cons; [apply step4| |apply quiet_nil].
    destruct (tick_takes (R := Z) sys3 _ _ _ _ sys4 (reachable_ok _ reachable3) step4)
      as (d1 & jobs & count & _ & Hok & _ & Hav & Hres).
    destruct (reserved_ok _ _ _ _ _ _ Hok Hres) as (_ & _ & _ & Hav1 & _).
    intros k r _ Hr Hs. apply Hav; [by apply Hav1|done].
  - vm_compute. reflexivity.
  - reflexivity.
  - left.
  - vm_compute. lia.
Defined.

Definition sys6 : System := mkSystem _ (sys_db sys4) (delete a (sys_workers sys4)).

Lemma lost_job_blocks_schedule_witness :
  ∃ r, queue_jobs (sys_db sys6) !! 7 = Some r ∧
  ∀ s now_, QueueScheduleRow.last_scheduled_job_id s = Some 7 →
    is_Some (QueueScheduleRow.last_scheduled_at s) →
    due (QueueScheduleRepository.status_of (sys_db sys6) s) now_ = false.
Proof.
  eexists.
  apply (lost_job_blocks_schedule (R := Z) sys6 sys6 7 _ a).
  - destruct reachable4 as (d & Hd & H). exists d. split; [done|].
    eapply rtc_r; [exact H|]. left. exists Other. exact (step_crash sys4 a).
  - apply lookup_delete_eq.
  - vm_compute. eexists. reflexivity.
  - vm_compute. reflexivity.
  - reflexivity.
  - reflexivity.
  - apply rtc_refl.
Defined.
End Deployment.
