(* ===== verification/Stored.v ===== *)
(** * What an operation returns is what is stored

    The operations of the repositories send a statement to the database and
    compute the value they return with the state machines of the data model.
    The two agree: the value returned is what decoding the stored row gives,
    so that it is what a later lookup reads. *)

From stdpp Require Import base tactics list strings gmap.
From Stdlib Require Import ZArith Lia Ascii.
From S2P Require Import Prelude Text Scope Externals Formats TokenFormat DataModel Storage TokenRepo GrantRepo QueueRepo UserRepo ClientAuth TokenEndpoint RepoFacts Integrity Scenario.

(** ** Entities *)

(** A struct of the data model kept in the rows of a table. *)
Class Entity (A Row : Type) := {
  entity_id : A → Ulid;
  decode : Row → result DatabaseInconsistencyError A;
}.

#[export] Instance access_token_entity : Entity AccessToken.t OAuth2AccessTokenLookup.t :=
  { entity_id := AccessToken.id; decode r := Ok (AccessTokenRepository.of_row r) }.
#[export] Instance refresh_token_entity : Entity RefreshToken.t OAuth2RefreshTokenLookup.t :=
  { entity_id := RefreshToken.id; decode := RefreshTokenRepository.try_from }.
#[export] Instance session_entity : Entity Session.t OAuthSessionLookup.t :=
  { entity_id := Session.id; decode := SessionRepository.try_from }.
#[export] Instance device_grant_entity : Entity DeviceCodeGrant.t OAuth2DeviceGrantLookup.t :=
  { entity_id := DeviceCodeGrant.id; decode := DeviceCodeGrantRepository.try_from }.
#[export] Instance authorization_grant_entity `{!UrlLib} :
    Entity AuthorizationGrant.t GrantLookup.t :=
  { entity_id := AuthorizationGrant.id; decode := AuthorizationGrantRepository.try_from }.

Section Entities.
Context {R A Row : Type} `{!Table Row, !Entity A Row}.
Implicit Types (w : World R) (a b : A).

Definition stored a (d : Db) : Prop :=
  ∃ r : Row, rows d !! entity_id a = Some r ∧ decode r = Ok a.

(** An operation that makes an entity, and one that changes an entity: when
    they succeed, what they return is stored. *)
Definition creates (m : M (World R) DatabaseError A) : Prop :=
  ∀ w a w', m w = (Ok a, w') → stored a (w_txn w').
Definition updates (f : A → M (World R) DatabaseError A) : Prop :=
  ∀ w a b w', stored a (w_txn w) → f a w = (Ok b, w') →
    entity_id b = entity_id a ∧ stored b (w_txn w').

(** [lookup] by primary key reads what is stored. *)
Lemma lookup_stored w a :
  w_driver_faults w = [] → stored a (w_txn w) →
  (do res <- select (λ d, rows (Row := Row) d !! entity_id a); decode_row decode res) w
    = (Ok (Some a), w).
Proof.
  intros Hw (r & Hr & Hd). unfold bind. rewrite select_answers by done.
  by rewrite Hr, decode_row_run, Hd.
Qed.

(** A query on a unique column reads what is stored. *)
Lemma find_stored (col : Row → option string) (p : Row → bool) w a r s :
  w_driver_faults w = [] → uniq col (rows (w_txn w)) → (∀ r, p r = true ↔ col r = Some s) →
  rows (w_txn w) !! entity_id a = Some r → decode r = Ok a → col r = Some s →
  (do res <- select (find_row p); decode_row decode res) w = (Ok (Some a), w).
Proof.
  intros Hw Hu Hp Hr Hd Hs. unfold bind. rewrite select_answers by done.
  erewrite find_row_unique; [by rewrite decode_row_run, Hd | exact Hr | by apply Hp |].
  intros k1 r1 k2 r2 H1 H2 Hp1%Hp Hp2%Hp.
  assert (k1 = k2) as -> by eauto. congruence.
Qed.
End Entities.

(** ** Tokens *)

Section Tokens.
Context {R : Type} `{!RngCore R}.
Implicit Types w : World R.

Lemma access_add_creates session s ttl : creates (AccessTokenRepository.add (R := R) session s ttl).
Proof.
  intros w a w' (id & t & _ & _ & _ & -> & -> & _)%access_add_inv.
  eexists. split; [apply lookup_insert_eq | done].
Qed.

Lemma access_revoke_updates : updates (AccessTokenRepository.revoke (R := R)).
Proof.
  intros w a b w' (r0 & Hr0 & Hd) (t & r & Hr & Hb & -> & _)%access_revoke_inv. simpl in *.
  simplify_eq. unfold AccessToken.revoke, AccessTokenState.revoke in Hb.
  apply rbind_Ok_inv in Hb as (st & Hst & [= <-]). split; [done|].
  eexists. split; [apply lookup_insert_eq|]. simpl in *. by repeat case_match; simplify_eq/=.
Qed.

Lemma access_mark_used_updates : updates (AccessTokenRepository.mark_used (R := R)).
Proof.
  intros w a b w' (r0 & Hr0 & Hd) (t & r & Hr & -> & -> & _)%access_mark_used_inv. simpl in *.
  simplify_eq. split; [done|]. eexists. split; [apply lookup_insert_eq | done].
Qed.

Lemma refresh_add_creates session a s : creates (RefreshTokenRepository.add (R := R) session a s).
Proof.
  intros w b w' (id & t & _ & _ & _ & _ & -> & -> & _)%refresh_add_inv.
  eexists. split; [apply lookup_insert_eq | done].
Qed.

Lemma refresh_decode r a :
  RefreshTokenRepository.try_from r = Ok a →
  (OAuth2RefreshTokenLookup.revoked_at r = None ∨
   ∃ t, RefreshToken.state a = RefreshTokenState.Revoked t) ∧
  (RefreshToken.state a = RefreshTokenState.Valid →
   OAuth2RefreshTokenLookup.consumed_at r = None ∧
   OAuth2RefreshTokenLookup.next_oauth2_refresh_token_id r = None) ∧
  a = RefreshToken.mk (OAuth2RefreshTokenLookup.oauth2_refresh_token_id r)
        (RefreshToken.state a) (OAuth2RefreshTokenLookup.refresh_token r)
        (OAuth2RefreshTokenLookup.oauth2_session_id r) (OAuth2RefreshTokenLookup.created_at r)
        (OAuth2RefreshTokenLookup.oauth2_access_token_id r).
Proof.
  unfold RefreshTokenRepository.try_from. intros (st & Hst & [= <-])%rbind_Ok_inv. simpl.
  repeat case_match; simplify_eq; naive_solver.
Qed.

Lemma refresh_consume_updates n : updates (λ r, RefreshTokenRepository.consume (R := R) r n).
Proof.
  intros w a b w' (r0 & Hr0 & Hd) (t & r & Hr & _ & Hb & -> & _)%refresh_consume_inv.
  simpl in *. simplify_eq. unfold RefreshToken.consume, RefreshTokenState.consume in Hb.
  apply rbind_Ok_inv in Hb as (st & Hst & [= <-]). split; [done|].
  eexists. split; [apply lookup_insert_eq|].
  destruct (refresh_decode _ a Hd) as (Hrv & _ & Ha). rewrite Ha.
  simpl. unfold RefreshTokenRepository.try_from. simpl in *.
  destruct Hrv as [Hrv|[t' Hrv]]; [|by rewrite Hrv in Hst]. rewrite Hrv.
  by destruct (RefreshToken.state a); simplify_eq/=.
Qed.

Lemma refresh_revoke_updates : updates (RefreshTokenRepository.revoke (R := R)).
Proof.
  intros w a b w' (r0 & Hr0 & Hd) (t & r & Hr & Hb & -> & _)%refresh_revoke_inv.
  simpl in *. simplify_eq. unfold RefreshToken.revoke, RefreshTokenState.revoke in Hb.
  apply rbind_Ok_inv in Hb as (st & Hst & [= <-]). split; [done|].
  eexists. split; [apply lookup_insert_eq|].
  destruct (refresh_decode _ a Hd) as (_ & Hv & Ha). rewrite Ha.
  simpl. unfold RefreshTokenRepository.try_from. simpl in *.
  destruct (RefreshToken.state a); [|done..]. destruct Hv as [-> ->]; [done|].
  by injection Hst as <-.
Qed.
End Tokens.

(** ** Sessions *)

Section Sessions.
Context {R : Type} `{!RngCore R}.
Implicit Types w : World R.

Lemma session_decode r s :
  SessionRepository.try_from r = Ok s → ∃ tokens,
  collect ScopeToken_from_str (OAuthSessionLookup.scope_list r) = Ok tokens ∧
  s = Session.mk (OAuthSessionLookup.oauth2_session_id r)
        match OAuthSessionLookup.finished_at r with
        | None => SessionState.Valid | Some t => SessionState.Finished t end
        (OAuthSessionLookup.created_at r) (OAuthSessionLookup.user_id r)
        (OAuthSessionLookup.user_session_id r) (OAuthSessionLookup.oauth2_client_id r)
        (Scope_from_iter tokens) (OAuthSessionLookup.user_agent r)
        (OAuthSessionLookup.last_active_at r) (OAuthSessionLookup.last_active_ip r)
        (OAuthSessionLookup.human_name r).
Proof.
  unfold SessionRepository.try_from. intros (tk & Htk%eq_sym%map_err_Ok & [= <-])%rbind_Ok_inv.
  eauto.
Qed.

Lemma session_add_creates client user us scope :
  scope_ok scope → creates (SessionRepository.add (R := R) client user us scope).
Proof.
  intros [Hb Hs] w a w' (id & t & _ & _ & _ & _ & -> & -> & _)%session_add_inv.
  eexists. split; [apply lookup_insert_eq|]. simpl. unfold SessionRepository.try_from. simpl.
  rewrite collect_tokens_id by done. simpl. unfold Scope_from_iter. by rewrite btree_of_list_id.
Qed.

Lemma session_name_inv s n w s' w' :
  SessionRepository.set_human_name s n w = (Ok s', w') →
  ∃ r, oauth2_sessions (w_txn w) !! Session.id s = Some r ∧
    s' = Session.with_human_name s n ∧
    w_txn w' = set_rows (<[Session.id s := SessionRepository.with_human_name n r]>
                           (oauth2_sessions (w_txn w))) (w_txn w) ∧
    same_committed w w'.
Proof.
  intros H. op_inv H. world_simpl. update_inv r Hc.
  eexists. split_and!; try done; same_world.
Qed.

(** The row of a stored session after an update of its columns. *)
Ltac session_stored :=
  split; [done|]; eexists; split; [apply lookup_insert_eq|]; simpl;
  unfold SessionRepository.try_from; simpl;
  match goal with H : collect _ _ = Ok _ |- _ => rewrite H end; simpl.

Lemma session_finish_updates : updates (SessionRepository.finish (R := R)).
Proof.
  intros w a b w' (r0 & Hr0 & (tk & Htk & ->)%session_decode)
    (t & r & Hr & Hb & -> & _)%session_finish_inv. simpl in *. simplify_eq.
  apply rbind_Ok_inv in Hb as (st & Hst & [= <-]). session_stored.
  unfold SessionState.finish in Hst. simpl in Hst. by case_match; simplify_eq/=.
Qed.

Lemma session_user_agent_updates ua :
  updates (λ s, SessionRepository.record_user_agent (R := R) s ua).
Proof.
  intros w a b w' (r0 & Hr0 & (tk & Htk & ->)%session_decode)
    (r & Hr & -> & -> & _)%session_user_agent_inv. simpl in *. simplify_eq. by session_stored.
Qed.

Lemma session_name_updates n : updates (λ s, SessionRepository.set_human_name (R := R) s n).
Proof.
  intros w a b w' (r0 & Hr0 & (tk & Htk & ->)%session_decode)
    (r & Hr & -> & -> & _)%session_name_inv. simpl in *. simplify_eq. by session_stored.
Qed.
End Sessions.

(** ** Authorization grants *)

Section AuthorizationGrants.
Context {R : Type} `{!RngCore R} {url_lib : UrlLib}.
Implicit Types w : World R.

(** What the columns of a grant can hold: the method of its challenge is
    known, and the name of its response mode is not one of a known mode. *)
Definition known_method (code : option AuthorizationCode.t) : Prop :=
  ∀ p, code ≫= AuthorizationCode.pkce = Some p →
    challenge_method p = Plain ∨ challenge_method p = S256.
Definition proper_mode (m : ResponseMode) : Prop :=
  ResponseMode_from_str (ResponseMode_to_string m) = m.

Lemma grant_add_inv c uri sc code st n rm it lh lo rp w g w' :
  AuthorizationGrantRepository.add c uri sc code st n rm it lh lo rp w = (Ok g, w') →
  ∃ id t,
    g = AuthorizationGrant.mk id AuthorizationGrantStage.Pending code (Client.id c) uri sc st n
          rm it t lh lo rp ∧
    w_txn w' = set_rows (<[id := GrantLookup.mk id t None None None (Scope_to_string sc) st n
        uri (ResponseMode_to_string rm) (match code with Some _ => true | None => false end) it
        (AuthorizationCode.code <$> code) (challenge <$> (code ≫= AuthorizationCode.pkce))
        (challenge_method_to_string ∘ challenge_method <$> (code ≫= AuthorizationCode.pkce))
        lh lo (Some rp) (Client.id c) None None]> (oauth2_authorization_grants (w_txn w)))
      (w_txn w) ∧
    oauth2_authorization_grants (w_txn w) !! id = None ∧
    same_committed w w'.
Proof.
  intros H. op_inv H. world_simpl. insert_inv Hc.
  do 2 eexists. split_and!; try done; same_world.
Qed.

Lemma grant_add_creates c uri sc code st n rm it lh lo rp :
  scope_ok sc → sc ≠ [] → url_parse uri = Some uri → known_method code → proper_mode rm →
  creates (AuthorizationGrantRepository.add (R := R) c uri sc code st n rm it lh lo rp).
Proof.
  intros Hsc Hne Huri Hm Hrm w g w' (id & t & -> & -> & _)%grant_add_inv.
  eexists. split; [apply lookup_insert_eq|]. simpl.
  unfold AuthorizationGrantRepository.try_from. simpl. rewrite Scope_reads_back by done. simpl.
  destruct code as [[code [[m ch]|]]|]; simpl.
  - specialize (Hm _ eq_refl). simpl in Hm.
    destruct Hm as [-> | ->]; simpl; rewrite Huri; simpl; by rewrite Hrm.
  - rewrite Huri. simpl. by rewrite Hrm.
  - rewrite Huri. simpl. by rewrite Hrm.
Qed.

(** The stage is decoded from the columns the transitions write. *)
Lemma grant_decode_restage r g r' st :
  AuthorizationGrantRepository.try_from r = Ok g →
  AuthorizationGrantRepository.stage_of r' = Ok st →
  (∃ at_ us, r' = AuthorizationGrantRepository.with_fulfilled at_ us r) ∨
  (∃ at_ s, r' = AuthorizationGrantRepository.with_exchanged at_ s r) →
  AuthorizationGrantRepository.try_from r' = Ok (AuthorizationGrant.with_stage g st).
Proof.
  unfold AuthorizationGrantRepository.try_from. intros H Hst Hr'.
  apply rbind_Ok_inv in H as (sc & Hsc & H). apply rbind_Ok_inv in H as (st0 & _ & H).
  apply rbind_Ok_inv in H as (p & Hp & H). apply rbind_Ok_inv in H as (cd & Hcd & H).
  apply rbind_Ok_inv in H as (u & Hu & [= <-]).
  destruct Hr' as [(? & ? & ->)|(? & ? & ->)]; rewrite Hst; simpl in *;
    unfold AuthorizationGrantRepository.pkce_of, AuthorizationGrantRepository.code_of in *;
    simpl in *; by rewrite Hsc, Hp; simpl; rewrite Hcd; simpl; rewrite Hu.
Qed.

Lemma grant_decode_stage r g :
  AuthorizationGrantRepository.try_from r = Ok g →
  AuthorizationGrant.id g = GrantLookup.oauth2_authorization_grant_id r ∧
  AuthorizationGrantRepository.stage_of r = Ok (AuthorizationGrant.stage g).
Proof.
  unfold AuthorizationGrantRepository.try_from. intros H.
  apply rbind_Ok_inv in H as (sc & _ & H). apply rbind_Ok_inv in H as (st0 & Hst & H).
  apply rbind_Ok_inv in H as (p & _ & H). apply rbind_Ok_inv in H as (cd & _ & H).
  by apply rbind_Ok_inv in H as (u & _ & [= <-]).
Qed.

Lemma grant_fulfill_updates b :
  updates (λ g, AuthorizationGrantRepository.fulfill (R := R) b g).
Proof.
  intros w g g' w' (r0 & Hr0 & Hd) (t & r & Hr & Hg & -> & _)%grant_fulfill_inv.
  simpl in *. simplify_eq. apply rbind_Ok_inv in Hg as (st & Hst & [= <-]). split; [done|].
  eexists. split; [apply lookup_insert_eq|]. eapply grant_decode_restage; [done| |eauto].
  apply grant_decode_stage in Hd as [_ Hs].
  unfold AuthorizationGrantStage.fulfill in Hst.
  destruct (AuthorizationGrant.stage g); simplify_eq.
  unfold AuthorizationGrantRepository.stage_of in *. simpl. by repeat case_match.
Qed.

Lemma grant_exchange_updates s :
  updates (λ g, AuthorizationGrantRepository.exchange (R := R) g s).
Proof.
  intros w g g' w' (r0 & Hr0 & Hd) (t & r & Hr & Hg & -> & _)%grant_exchange_inv.
  simpl in *. simplify_eq. apply rbind_Ok_inv in Hg as (st & Hst & [= <-]). split; [done|].
  eexists. split; [apply lookup_insert_eq|]. eapply grant_decode_restage; [done| |eauto].
  apply grant_decode_stage in Hd as [_ Hs].
  unfold AuthorizationGrantStage.exchange in Hst.
  destruct (AuthorizationGrant.stage g); simplify_eq.
  unfold AuthorizationGrantRepository.stage_of in *. simpl.
  repeat case_match; simplify_eq; done.
Qed.
End AuthorizationGrants.

(** ** Device code grants *)

Section DeviceGrants.
Context {R : Type} `{!RngCore R}.
Implicit Types w : World R.

Lemma device_add_creates p :
  scope_ok (DeviceCodeGrantRepository.p_scope p) → DeviceCodeGrantRepository.p_scope p ≠ [] →
  creates (DeviceCodeGrantRepository.add (R := R) p).
Proof.
  intros Hsc Hne w g w' (gid & n & _ & -> & -> & _)%device_add_inv.
  eexists. split; [apply lookup_insert_eq|]. simpl.
  unfold DeviceCodeGrantRepository.try_from. simpl. by rewrite Scope_reads_back.
Qed.

Lemma device_decode r g :
  DeviceCodeGrantRepository.try_from r = Ok g →
  DeviceCodeGrantRepository.state_of r = Ok (DeviceCodeGrant.state g) ∧
  ∀ r' st l, DeviceCodeGrantRepository.state_of r' = Ok st →
    (∃ at_ us, r' = DeviceCodeGrantRepository.with_fulfilled at_ us l r) ∨
    (∃ at_ us, l = OAuth2DeviceGrantLookup.locale r ∧
       r' = DeviceCodeGrantRepository.with_rejected at_ us r) ∨
    (∃ at_ s, l = OAuth2DeviceGrantLookup.locale r ∧
       r' = DeviceCodeGrantRepository.with_exchanged at_ s r) →
    DeviceCodeGrantRepository.try_from r' = Ok (DeviceCodeGrant.with_state_locale g st l).
Proof.
  unfold DeviceCodeGrantRepository.try_from.
  intros (sc & Hsc & (st0 & Hst0 & [= <-])%rbind_Ok_inv)%rbind_Ok_inv. split; [done|].
  intros r' st l Hst [(? & ? & ->)|[(? & ? & -> & ->)|(? & ? & -> & ->)]]; rewrite Hst; simpl in *;
    by rewrite Hsc.
Qed.

Lemma device_locale r g :
  DeviceCodeGrantRepository.try_from r = Ok g →
  DeviceCodeGrant.locale g = OAuth2DeviceGrantLookup.locale r.
Proof.
  unfold DeviceCodeGrantRepository.try_from.
  by intros (sc & Hsc & (st0 & Hst0 & [= <-])%rbind_Ok_inv)%rbind_Ok_inv.
Qed.

(** The state after a transition, decoded from the row it writes. *)
Ltac device_restate :=
  unfold DeviceCodeGrantState.fulfill, DeviceCodeGrantState.reject,
    DeviceCodeGrantState.exchange, DeviceCodeGrantRepository.state_of in *;
  simpl; repeat case_match; simplify_eq; done.

Lemma device_fulfill_updates b l :
  updates (λ g, DeviceCodeGrantRepository.fulfill (R := R) g b l).
Proof.
  intros w g g' w' (r0 & Hr0 & Hd) (t & r & Hr & Hg & -> & _)%device_fulfill_inv.
  simpl in *. simplify_eq. apply rbind_Ok_inv in Hg as (st & Hst & [= <-]). split; [done|].
  eexists. split; [apply lookup_insert_eq|].
  apply device_decode in Hd as [Hs Hd]. apply Hd; [|simpl; eauto]. device_restate.
Qed.

Lemma device_reject_updates b : updates (λ g, DeviceCodeGrantRepository.reject (R := R) g b).
Proof.
  intros w g g' w' (r0 & Hr0 & Hd) (t & r & Hr & Hg & -> & _)%device_reject_inv.
  simpl in *. simplify_eq. apply rbind_Ok_inv in Hg as (st & Hst & [= <-]). split; [done|].
  eexists. split; [apply lookup_insert_eq|]. pose proof (device_locale _ _ Hd) as Hl.
  apply device_decode in Hd as [Hs Hd]. apply Hd; [|eauto 6]. device_restate.
Qed.

Lemma device_exchange_updates s :
  updates (λ g, DeviceCodeGrantRepository.exchange (R := R) g s).
Proof.
  intros w g g' w' (r0 & Hr0 & Hd) (t & r & Hr & Hg & -> & _)%device_exchange_inv.
  simpl in *. simplify_eq. apply rbind_Ok_inv in Hg as (st & Hst & [= <-]). split; [done|].
  eexists. split; [apply lookup_insert_eq|]. pose proof (device_locale _ _ Hd) as Hl.
  apply device_decode in Hd as [Hs Hd]. apply Hd; [|eauto 6]. device_restate.
Qed.
End DeviceGrants.

(** ** Reading back *)

Section ReadBack.
Context {R : Type} `{!RngCore R} {url_lib : UrlLib}.
Implicit Types w : World R.

Lemma access_decode (o : option OAuth2AccessTokenLookup.t) w :
  decode_row decode o w = (Ok (AccessTokenRepository.of_row <$> o), w).
Proof. by destruct o. Qed.

(** [lookup] and [find_by_token] are queries whose rows are all decoded. *)
Lemma access_query (q : Db → option OAuth2AccessTokenLookup.t) w :
  (do res <- select q; ret (AccessTokenRepository.of_row <$> res)) w =
  (do res <- select q; decode_row decode res) w.
Proof. unfold bind. destruct (select q w) as [[o|] w']; [by rewrite access_decode | done]. Qed.

Lemma access_reads_back w a :
  w_driver_faults w = [] → integrity (w_txn w) → stored a (w_txn w) →
  AccessTokenRepository.lookup (AccessToken.id a) w = (Ok (Some a), w) ∧
  AccessTokenRepository.find_by_token (AccessToken.access_token a) w = (Ok (Some a), w).
Proof.
  intros Hw Hint Ha. unfold AccessTokenRepository.lookup, AccessTokenRepository.find_by_token.
  rewrite !access_query. split; [exact (lookup_stored w a Hw Ha)|]. destruct Ha as (r & Hr & Hd).
  refine (find_stored _ _ w a r (AccessToken.access_token a) Hw
      (access_tokens_unique _ Hint) _ Hr Hd _).
  - intros r'. rewrite bool_decide_eq_true. split; simpl; congruence.
  - by injection Hd as <-.
Qed.

Lemma refresh_reads_back w a :
  w_driver_faults w = [] → integrity (w_txn w) → stored a (w_txn w) →
  RefreshTokenRepository.lookup (RefreshToken.id a) w = (Ok (Some a), w) ∧
  RefreshTokenRepository.find_by_token (RefreshToken.refresh_token a) w = (Ok (Some a), w).
Proof.
  intros Hw Hint Ha. split; [exact (lookup_stored w a Hw Ha)|]. destruct Ha as (r & Hr & Hd).
  refine (find_stored _ _ w a r (RefreshToken.refresh_token a) Hw
      (refresh_tokens_unique _ Hint) _ Hr Hd _).
  - intros r'. rewrite bool_decide_eq_true. split; simpl; congruence.
  - apply refresh_decode in Hd as (_ & _ & ->). done.
Qed.

Lemma grant_decode_code r g code :
  AuthorizationGrantRepository.try_from r = Ok g → AuthorizationGrant.code g = Some code →
  GrantLookup.authorization_code r = Some (AuthorizationCode.code code).
Proof.
  unfold AuthorizationGrantRepository.try_from. intros H Hc.
  apply rbind_Ok_inv in H as (sc & _ & H). apply rbind_Ok_inv in H as (st0 & _ & H).
  apply rbind_Ok_inv in H as (p & _ & H). apply rbind_Ok_inv in H as (cd & Hcd & H).
  apply rbind_Ok_inv in H as (u & _ & [= <-]). simpl in Hc. subst cd.
  unfold AuthorizationGrantRepository.code_of in Hcd. by repeat case_match; simplify_eq/=.
Qed.

Lemma grant_reads_back w g :
  w_driver_faults w = [] → integrity (w_txn w) → stored g (w_txn w) →
  AuthorizationGrantRepository.lookup (AuthorizationGrant.id g) w = (Ok (Some g), w) ∧
  ∀ code, AuthorizationGrant.code g = Some code →
    AuthorizationGrantRepository.find_by_code (AuthorizationCode.code code) w = (Ok (Some g), w).
Proof.
  intros Hw Hint Hg. split; [exact (lookup_stored w g Hw Hg)|]. destruct Hg as (r & Hr & Hd).
  intros code Hc. refine (find_stored _ _ w g r (AuthorizationCode.code code) Hw
      (authorization_code_unique _ Hint) _ Hr Hd _).
  - intros r'. by rewrite bool_decide_eq_true.
  - by eapply grant_decode_code.
Qed.

Lemma device_reads_back w g :
  w_driver_faults w = [] → integrity (w_txn w) → stored g (w_txn w) →
  DeviceCodeGrantRepository.lookup (DeviceCodeGrant.id g) w = (Ok (Some g), w) ∧
  DeviceCodeGrantRepository.find_by_device_code (DeviceCodeGrant.device_code g) w
    = (Ok (Some g), w) ∧
  DeviceCodeGrantRepository.find_by_user_code (DeviceCodeGrant.user_code g) w
    = (Ok (Some g), w).
Proof.
  intros Hw Hint Hg. split; [exact (lookup_stored w g Hw Hg)|]. destruct Hg as (r & Hr & Hd).
  assert (DeviceCodeGrant.device_code g = OAuth2DeviceGrantLookup.device_code r ∧
          DeviceCodeGrant.user_code g = OAuth2DeviceGrantLookup.user_code r) as [-> ->].
  { apply rbind_Ok_inv in Hd as (? & _ & (? & _ & [= <-])%rbind_Ok_inv). done. }
  split.
  - refine (find_stored _ _ w g r (OAuth2DeviceGrantLookup.device_code r) Hw
          (device_code_unique _ Hint) _ Hr Hd _). 2: done.
    intros r'. rewrite bool_decide_eq_true. split; simpl; congruence.
  - refine (find_stored _ _ w g r (OAuth2DeviceGrantLookup.user_code r) Hw
          (user_code_unique _ Hint) _ Hr Hd _). 2: done.
    intros r'. rewrite bool_decide_eq_true. split; simpl; congruence.
Qed.
End ReadBack.

(** ** Claims *)

Section Claims.
Context {R : Type} `{!RngCore R} {url_lib : UrlLib}.
Implicit Types w : World R.

(** C32: whenever an operation of the token repositories succeeds, the token
    it returns is the one its row decodes to afterwards: a new access or refresh
    token, and a stored one that is revoked, marked as used, or consumed. *)
Theorem tokens_stored :
  (∀ session s ttl, creates (AccessTokenRepository.add (R := R) session s ttl)) ∧
  updates (AccessTokenRepository.revoke (R := R)) ∧
  updates (AccessTokenRepository.mark_used (R := R)) ∧
  (∀ session a s, creates (RefreshTokenRepository.add (R := R) session a s)) ∧
  (∀ n, updates (λ r, RefreshTokenRepository.consume (R := R) r n)) ∧
  updates (RefreshTokenRepository.revoke (R := R)).
Proof.
  split_and!; [apply access_add_creates | apply access_revoke_updates
    | apply access_mark_used_updates | apply refresh_add_creates
    | apply refresh_consume_updates | apply refresh_revoke_updates].
Qed.

(** Whenever an operation of the session repository succeeds, the session
    it returns is the one its row decodes to afterwards; for a new session,
    when its scope is a well-formed set of tokens. *)
Theorem sessions_stored :
  (∀ client user us scope, scope_ok scope →
     creates (SessionRepository.add (R := R) client user us scope)) ∧
  updates (SessionRepository.finish (R := R)) ∧
  (∀ ua, updates (λ s, SessionRepository.record_user_agent (R := R) s ua)) ∧
  (∀ n, updates (λ s, SessionRepository.set_human_name (R := R) s n)).
Proof.
  split_and!; [apply session_add_creates | apply session_finish_updates
    | apply session_user_agent_updates | apply session_name_updates].
Qed.

(** Whenever an operation of the repositories of authorization grants and
    device code grants succeeds, the grant it returns is the one its row decodes to
    afterwards; for a new grant, when its scope is well-formed and not empty,
    and for an authorization grant also when its redirect URI is a
    serialized URL, the method of its code challenge is known and its response
    mode is not an unknown mode with the name of a known one. *)
Theorem grants_stored :
  (∀ c uri sc code st n rm it lh lo rp,
     scope_ok sc → sc ≠ [] → url_parse uri = Some uri → known_method code → proper_mode rm →
     creates (AuthorizationGrantRepository.add (R := R) c uri sc code st n rm it lh lo rp)) ∧
  (∀ b, updates (λ g, AuthorizationGrantRepository.fulfill (R := R) b g)) ∧
  (∀ s, updates (λ g, AuthorizationGrantRepository.exchange (R := R) g s)) ∧
  (∀ p, scope_ok (DeviceCodeGrantRepository.p_scope p) →
     DeviceCodeGrantRepository.p_scope p ≠ [] →
     creates (DeviceCodeGrantRepository.add (R := R) p)) ∧
  (∀ b l, updates (λ g, DeviceCodeGrantRepository.fulfill (R := R) g b l)) ∧
  (∀ b, updates (λ g, DeviceCodeGrantRepository.reject (R := R) g b)) ∧
  (∀ s, updates (λ g, DeviceCodeGrantRepository.exchange (R := R) g s)).
Proof.
  split_and!; [intros; by apply grant_add_creates | apply grant_fulfill_updates
    | apply grant_exchange_updates | intros; by apply device_add_creates
    | apply device_fulfill_updates | apply device_reject_updates
    | apply device_exchange_updates].
Qed.

(** What is stored is read back, as long as the database answers: by its
    identifier, and by the text of a token, by an authorization code, by a device
    code and by a user code. *)
Theorem stored_read_back w :
  w_driver_faults w = [] → integrity (w_txn w) →
  (∀ a, stored a (w_txn w) →
     AccessTokenRepository.lookup (AccessToken.id a) w = (Ok (Some a), w) ∧
     AccessTokenRepository.find_by_token (AccessToken.access_token a) w = (Ok (Some a), w)) ∧
  (∀ r, stored r (w_txn w) →
     RefreshTokenRepository.lookup (RefreshToken.id r) w = (Ok (Some r), w) ∧
     RefreshTokenRepository.find_by_token (RefreshToken.refresh_token r) w
       = (Ok (Some r), w)) ∧
  (∀ s, stored s (w_txn w) → SessionRepository.lookup (Session.id s) w = (Ok (Some s), w)) ∧
  (∀ g, stored g (w_txn w) →
     AuthorizationGrantRepository.lookup (AuthorizationGrant.id g) w = (Ok (Some g), w) ∧
     ∀ code, AuthorizationGrant.code g = Some code →
       AuthorizationGrantRepository.find_by_code (AuthorizationCode.code code) w
         = (Ok (Some g), w)) ∧
  (∀ g, stored g (w_txn w) →
     DeviceCodeGrantRepository.lookup (DeviceCodeGrant.id g) w = (Ok (Some g), w) ∧
     DeviceCodeGrantRepository.find_by_device_code (DeviceCodeGrant.device_code g) w
       = (Ok (Some g), w) ∧
     DeviceCodeGrantRepository.find_by_user_code (DeviceCodeGrant.user_code g) w
       = (Ok (Some g), w)).
Proof.
  intros Hw Hint. split_and!.
  - intros a Ha. by apply access_reads_back.
  - intros r Hr. by apply refresh_reads_back.
  - intros s Hs. exact (lookup_stored w s Hw Hs).
  - intros g Hg. by apply grant_reads_back.
  - intros g Hg. by apply device_reads_back.
Qed.

(** An authorization grant whose code challenge has an unknown method is
    stored like any other, but it cannot be read back: looking it up is an
    inconsistency of the database. *)
Theorem unknown_method_unreadable c uri sc code m ch st n rm it lh lo rp w g w' :
  AuthorizationGrantRepository.add c uri sc (Some (AuthorizationCode.mk code
    (Some (mkPkce (UnknownMethod m) ch)))) st n rm it lh lo rp w = (Ok g, w') →
  m ≠ "plain" → m ≠ "S256" → scope_ok sc → sc ≠ [] →
  ∀ w2, w_driver_faults w2 = [] → w_txn w2 = w_txn w' →
    AuthorizationGrantRepository.lookup (AuthorizationGrant.id g) w2 =
    (Err (Inconsistency (on "oauth2_authorization_grants" (Some "code_challenge_method")
            (Some (AuthorizationGrant.id g)))), w2).
Proof.
  intros (id & t & -> & Ht & _)%grant_add_inv H1 H2 Hsc Hne w2 Hw Hw2.
  unfold AuthorizationGrantRepository.lookup, bind. rewrite select_answers by done.
  rewrite Hw2, Ht. simpl. rewrite lookup_insert_eq, decode_row_run.
  unfold AuthorizationGrantRepository.try_from. simpl. rewrite Scope_reads_back by done. simpl.
  unfold AuthorizationGrantRepository.pkce_of. simpl. by rewrite !decide_False by done.
Qed.
End Claims.

(** ** Witnesses *)

Section Witnesses.
Import Scenario.

(** A session of the client, an access token and a refresh token of it, and the
    access token revoked, in the transaction of a request. *)
Definition some_client : Client.t :=
  match ClientRepository.try_from client with
  | Ok c => c
  | Err _ => Client.mk 0 "" None None None [] [] None None None None None None None None None
               None None false
  end.
Definition session_run :=
  SessionRepository.add some_client None None [scope_text] (world db 0 0).
Definition some_session : Session.t :=
  match session_run.1 with
  | Ok s => s
  | Err _ => Session.mk 0 SessionState.Valid 0 None None 0 [] None None None None
  end.
Definition token_run := AccessTokenRepository.add some_session "token" None session_run.2.
Definition some_token : AccessToken.t :=
  match token_run.1 with
  | Ok a => a
  | Err _ => AccessToken.mk 0 AccessTokenState.Valid 0 "" 0 None None
  end.
Definition revoke_run := AccessTokenRepository.revoke some_token token_run.2.
Definition revoked_token : AccessToken.t :=
  match revoke_run.1 with Ok a => a | Err _ => some_token end.

Lemma tokens_stored_witness :
  stored some_token (w_txn token_run.2) ∧ stored revoked_token (w_txn revoke_run.2).
Proof.
  destruct (tokens_stored (R := Z)) as (Hadd & Hrevoke & _).
  assert (stored some_token (w_txn token_run.2)) as Hs.
  { apply (Hadd some_session "token" None session_run.2).
    unfold token_run. apply fst_run. vm_compute. reflexivity. }
  split; [exact Hs|]. apply (Hrevoke token_run.2 some_token revoked_token revoke_run.2 Hs).
  unfold revoke_run. apply fst_run. vm_compute. reflexivity.
Defined.

Lemma sessions_stored_witness : stored some_session (w_txn session_run.2).
Proof.
  destruct (sessions_stored (R := Z)) as (Hadd & _).
  apply (Hadd some_client None None [scope_text]) with (w := world db 0 0).
  - split; repeat constructor; done.
  - unfold session_run. apply fst_run. vm_compute. reflexivity.
Defined.

Definition grant_run (m : PkceCodeChallengeMethod) :=
  AuthorizationGrantRepository.add some_client "https://app.example.com/" [scope_text]
    (Some (AuthorizationCode.mk "other" (Some (mkPkce m verifier)))) None None Query false
    None None ∅ (world db 0 0).
Definition some_grant (m : PkceCodeChallengeMethod) : AuthorizationGrant.t :=
  match (grant_run m).1 with
  | Ok g => g
  | Err _ => AuthorizationGrant.mk 0 AuthorizationGrantStage.Pending None 0 "" [] None None
               Query false 0 None None ∅
  end.

Lemma grants_stored_witness : stored (some_grant S256) (w_txn (grant_run S256).2).
Proof.
  destruct (grants_stored (R := Z)) as (Hadd & _).
  apply (Hadd some_client "https://app.example.com/" [scope_text]
    (Some (AuthorizationCode.mk "other" (Some (mkPkce S256 verifier)))) None None Query false
    None None ∅) with (w := world db 0 0).
  - split; repeat constructor; done.
  - done.
  - reflexivity.
  - intros p [= <-]. by right.
  - reflexivity.
  - unfold grant_run. apply fst_run. vm_compute. reflexivity.
Defined.

Lemma unknown_method_unreadable_witness :
  (AuthorizationGrantRepository.lookup (AuthorizationGrant.id (some_grant (UnknownMethod "S512")))
     (grant_run (UnknownMethod "S512")).2).1 =
  Err (Inconsistency (on "oauth2_authorization_grants" (Some "code_challenge_method")
         (Some (AuthorizationGrant.id (some_grant (UnknownMethod "S512")))))).
Proof.
  rewrite (unknown_method_unreadable some_client "https://app.example.com/" [scope_text]
    "other" "S512" verifier None None Query false None None ∅ (world db 0 0)
    (some_grant (UnknownMethod "S512")) (grant_run (UnknownMethod "S512")).2); [done|..].
  - unfold grant_run. apply fst_run. vm_compute. reflexivity.
  - done.
  - done.
  - split; repeat constructor; done.
  - done.
  - vm_compute. reflexivity.
  - reflexivity.
Defined.

Lemma stored_read_back_witness : ∃ g,
  AuthorizationGrantRepository.find_by_code "code" (world db 0 0) = (Ok (Some g), world db 0 0).
Proof.
  destruct (AuthorizationGrantRepository.try_from grant) as [g|] eqn:Hg;
    [|vm_compute in Hg; discriminate Hg].
  exists g. destruct (stored_read_back (world db 0 0)) as (_ & _ & _ & H & _).
  - reflexivity.
  - apply integrity_db.
  - destruct (AuthorizationGrant.code g) as [code|] eqn:Hc;
      [|vm_compute in Hg; injection Hg as <-; discriminate Hc].
    assert (AuthorizationCode.code code = "code") as <-
      by (vm_compute in Hg; injection Hg as <-; injection Hc as <-; reflexivity).
    apply (H g); [|exact Hc]. exists grant. split; [|exact Hg].
    vm_compute in Hg. injection Hg as <-. reflexivity.
Defined.
End Witnesses.
