(* ===== verification/ListingFacts.v ===== *)
(** * Correctness of the listings of sessions *)

From stdpp Require Import base tactics list strings gmap sorting.
From Stdlib Require Import ZArith Lia.
From S2P Require Import Prelude Text Scope Externals Formats Pagination TokenFormat DataModel Storage TokenRepo QueueRepo UserRepo GrantRepo ClientAuth TokenEndpoint RepoFacts Integrity Scenario Stored.
#[local] Open Scope Z_scope.

(** ** Decoding a page *)

(** A decoded page has the flags and cursors of the page, so the same links. *)
Definition same_shape {A B} (p : Page.t A) (q : Page.t B) : Prop :=
  Page.has_next_page q = Page.has_next_page p ∧
  Page.has_previous_page q = Page.has_previous_page p ∧
  Edge.cursor <$> Page.edges q = Edge.cursor <$> Page.edges p.

Lemma page_links_shape {A B} (p : Page.t A) (q : Page.t B) cur :
  same_shape p q → page_links q cur = page_links p cur.
Proof.
  intros (Hn & Hp & Hc). unfold page_links. rewrite Hn, Hp.
  assert (Edge.cursor <$> last (Page.edges q) = Edge.cursor <$> last (Page.edges p)) as Hl
    by by rewrite <-!fmap_last, Hc.
  assert (Edge.cursor <$> head (Page.edges q) = Edge.cursor <$> head (Page.edges p)) as Hh
    by (destruct (Page.edges q), (Page.edges p); simplify_eq/=; congruence).
  destruct (last (Page.edges q)) as [e1|], (last (Page.edges p)) as [e2|]; simplify_eq/=;
    destruct (head (Page.edges q)) as [e3|], (head (Page.edges p)) as [e4|]; simplify_eq/=;
    try done; repeat match goal with H : Edge.cursor _ = Edge.cursor _ |- _ => rewrite H end;
    done.
Qed.

Lemma try_map_Ok {A B E} (f : A → result E B) (p : Page.t A) :
  Forall (λ n, ∃ a, f n = Ok a) (Page.nodes p) →
  ∃ q, Page.try_map f p = Ok q ∧ same_shape p q ∧
    Forall2 (λ n a, f n = Ok a) (Page.nodes p) (Page.nodes q).
Proof.
  destruct p as [hn hp es]. unfold Page.nodes, Page.try_map. simpl. intros Hall.
  set (g e := try n <- f (Edge.node e); Ok (Edge.mk (Edge.cursor e) n)).
  assert (∃ qs, collect g es = Ok qs ∧ Edge.cursor <$> qs = Edge.cursor <$> es ∧
    Forall2 (λ n a, f n = Ok a) (Edge.node <$> es) (Edge.node <$> qs)) as (qs & Hqs & Hc & H2).
  { induction es as [|e es IH]; [by exists []|]. inversion Hall as [|? ? [a Ha] Hes]; subst.
    destruct (IH Hes) as (qs & Hqs & Hc & H2). exists (Edge.mk (Edge.cursor e) a :: qs).
    simpl. unfold g at 1. rewrite Ha. simpl. rewrite Hqs. simpl.
    split_and!; [done|by f_equal|by constructor]. }
  exists (Page.mk hn hp qs). rewrite Hqs. done.
Qed.

Section Reading.
Context {R Row A : Type} `{!Node Row}.
Context (column : Row → Ulid) (decode : Row → result DatabaseInconsistencyError A).
Context (rs : Db → list Row).
Implicit Types w : World R.

Lemma page_nodes_incl p (l : list Row) r :
  r ∈ Page.nodes (list_page column p l) → r ∈ l.
Proof.
  assert (r ∈ Page.nodes (list_page column p l) → r ∈ generate_pagination column p l) as Hp.
  { unfold list_page, process. set (k := generate_pagination column p l).
    assert (∀ b : bool, r ∈ (if b then removelast k else k) → r ∈ k) as Hb.
    { intros []; [|done]. intros Hr. destruct (decide (k = [])) as [->|Hk]; [done|].
      rewrite (app_removelast_last r Hk). by apply elem_of_app; left. }
    destruct (Pagination.direction p); unfold Page.nodes; simpl;
      rewrite nodes_of_edges, ?elem_of_reverse; apply Hb. }
  intros Hr%Hp. unfold generate_pagination in Hr.
  destruct (Pagination.direction p); apply elem_of_take in Hr as (i & Hr & _);
    apply list_elem_of_lookup_2 in Hr.
  - rewrite order_asc_perm in Hr. unfold window in Hr. by apply list_elem_of_filter in Hr as [_ Hr].
  - rewrite order_desc_perm in Hr. unfold window in Hr. by apply list_elem_of_filter in Hr as [_ Hr].
Qed.

(** A database that answers gives the page of the rows, decoded. *)
Lemma fetch_page_answers p w :
  w_driver_faults w = [] → Forall (λ r, ∃ a, decode r = Ok a) (rs (w_txn w)) →
  ∃ q, fetch_page column decode rs p w = (Ok q, w) ∧
    same_shape (list_page column p (rs (w_txn w))) q ∧
    Forall2 (λ r a, decode r = Ok a) (Page.nodes (list_page column p (rs (w_txn w)))) (Page.nodes q).
Proof.
  intros Hw Hd. destruct (try_map_Ok decode (list_page column p (rs (w_txn w)))) as (q & Hq & Hs & H2).
  { rewrite Forall_forall in Hd |- *. intros r Hr. apply Hd. by eapply page_nodes_incl. }
  exists q. split; [|done]. unfold fetch_page, bind.
  rewrite select_answers by done. fold (list_page column p (rs (w_txn w))).
  unfold lift. rewrite Hq. done.
Qed.

Lemma read_all_follow fuel p w :
  w_driver_faults w = [] → Forall (λ r, ∃ a, decode r = Ok a) (rs (w_txn w)) →
  match follow_next (λ p, list_page column p (rs (w_txn w))) fuel p with
  | Some l => ∃ l', read_all (fetch_page column decode rs) fuel p w = (Ok (Some l'), w) ∧
      Forall2 (λ r a, decode r = Ok a) l l'
  | None => read_all (fetch_page column decode rs) fuel p w = (Ok None, w)
  end.
Proof.
  intros Hw Hd. revert p. induction fuel as [|fuel IH]; intros p; [done|]. simpl.
  destruct (fetch_page_answers p w Hw Hd) as (q & Hq & Hs & H2).
  rewrite (bind_run_Ok _ _ _ _ _ Hq), (page_links_shape _ _ _ Hs).
  destruct (page_links _ p) as [links|]; [|done].
  destruct (PaginationLinks.next links) as [p'|]; [|by eexists].
  specialize (IH p'). destruct (follow_next _ fuel p') as [l|]; simpl.
  - destruct IH as (l' & Hr & Hl). unfold bind. rewrite Hr. simpl.
    eexists. split; [done|]. by apply Forall2_app.
  - unfold bind. by rewrite IH.
Qed.
End Reading.

(** ** The rows of a table *)

Lemma matching_rows_elem {Row} `{!Table Row} (p : Row → bool) d (id : Row → Z) r :
  keyed id (rows d) → r ∈ matching_rows p d ↔ rows d !! id r = Some r ∧ p r = true.
Proof.
  intros Hk. unfold matching_rows. rewrite list_elem_of_filter, list_elem_of_fmap. split.
  - intros (Hp & [k r'] & -> & Hr). apply elem_of_map_to_list in Hr. simpl in *.
    by rewrite (Hk _ _ Hr).
  - intros [Hr Hp]. split; [done|]. exists (id r, r). by rewrite elem_of_map_to_list.
Qed.

Lemma matching_rows_unique {Row} `{!Table Row} (p : Row → bool) d (id : Row → Z) :
  keyed id (rows d) → unique_column id (matching_rows p d).
Proof.
  intros Hk. unfold matching_rows. by apply unique_column_filter, table_column_nodup.
Qed.

(** ** OAuth 2.0 sessions *)
Section Sessions.
Context {R : Type}.
Implicit Types w : World R.
Import SessionListing.

Definition readable (cond : OAuthSessionLookup.t → bool) (d : Db) : Prop :=
  ∀ k r, oauth2_sessions d !! k = Some r → cond r = true →
    ∃ s, SessionRepository.try_from r = Ok s.

Lemma session_id_of r s :
  SessionRepository.try_from r = Ok s → OAuthSessionLookup.oauth2_session_id r = Session.id s.
Proof. unfold SessionRepository.try_from. by intros (x & _ & [= <-])%rbind_Ok_inv. Qed.

Lemma sorted_Forall2 rs l :
  Forall2 (λ r s, SessionRepository.try_from r = Ok s) rs l →
  StronglySorted (before_row OAuthSessionLookup.oauth2_session_id) rs →
  StronglySorted (λ a b, Session.id a < Session.id b) l.
Proof.
  induction 1 as [|r s rs l Hr H2 IH]; [constructor|].
  intros [Hall Hs]%StronglySorted_cons. constructor; [by apply IH|].
  rewrite Forall_forall in Hall. apply Forall_forall. intros b Hb.
  destruct (list_elem_of_lookup_1 _ _ Hb) as [i Hi].
  destruct (Forall2_lookup_r _ _ _ _ _ H2 Hi) as (r' & Hr' & Hd).
  rewrite <-(session_id_of _ _ Hr), <-(session_id_of _ _ Hd). apply Hall.
  by eapply list_elem_of_lookup_2.
Qed.

(** C35: reading the OAuth 2.0 sessions of a filter from the first page on by
    following the [next] links ends, when the database answers, with every
    stored session that matches the filter, exactly once, in the order of the
    identifiers, and as many as [count] says; one link per session, and one
    more, are enough. *)
Theorem sessions_enumerated filter n fuel w :
  w_driver_faults w = [] →
  keyed OAuthSessionLookup.oauth2_session_id (oauth2_sessions (w_txn w)) →
  let cond := OAuth2SessionFilter.generate_condition filter (w_txn w) in
  readable cond (w_txn w) → valid_count n → 0 < n →
  (size (oauth2_sessions (w_txn w)) < fuel)%nat →
  ∃ l, read_all (list filter) fuel (first_page n) w = (Ok (Some l), w) ∧
    StronglySorted (λ a b, Session.id a < Session.id b) l ∧
    (∀ s, s ∈ l ↔ ∃ r, oauth2_sessions (w_txn w) !! Session.id s = Some r ∧
      SessionRepository.try_from r = Ok s ∧ cond r = true) ∧
    count filter w = (Ok (Z.of_nat (length l)), w).
Proof.
  intros Hw Hk cond Hread Hc Hn Hf.
  set (rs d := matching_rows (OAuth2SessionFilter.generate_condition filter d) d).
  assert (∀ r, r ∈ rs (w_txn w) ↔
    oauth2_sessions (w_txn w) !! OAuthSessionLookup.oauth2_session_id r = Some r ∧ cond r = true)
    as Hin by (intros r; exact (matching_rows_elem cond (w_txn w) _ r Hk)).
  destruct (next_links_enumerate OAuthSessionLookup.oauth2_session_id (rs (w_txn w)) n fuel)
    as (k & Hk1 & Hk2 & Hk3); [done..|exact (matching_rows_unique cond (w_txn w) _ Hk)| |].
  { eapply Nat.le_lt_trans; [|exact Hf]. unfold rs, matching_rows.
    rewrite length_filter. by rewrite length_fmap, length_map_to_list. }
  assert (Forall (λ r, ∃ s, SessionRepository.try_from r = Ok s) (rs (w_txn w))) as Hall.
  { apply Forall_forall. intros r [Hr Hp]%Hin. by eapply Hread. }
  pose proof (read_all_follow OAuthSessionLookup.oauth2_session_id SessionRepository.try_from
    rs fuel (first_page n) w Hw Hall) as Hr. rewrite Hk1 in Hr. destruct Hr as (l & Hl & H2).
  exists l. split_and!; [done|by eapply sorted_Forall2| |].
  - intros s. split.
    + intros [i Hi]%list_elem_of_lookup. destruct (Forall2_lookup_r _ _ _ _ _ H2 Hi) as (r & Hr & Hd).
      apply list_elem_of_lookup_2 in Hr. rewrite Hk3 in Hr. apply Hin in Hr as [Hr Hp].
      rewrite (session_id_of _ _ Hd) in Hr. eauto.
    + intros (r & Hr & Hd & Hp). assert (r ∈ k) as Hrk.
      { rewrite Hk3. apply Hin. by rewrite (session_id_of _ _ Hd). }
      apply list_elem_of_lookup in Hrk as [i Hi].
      destruct (Forall2_lookup_l _ _ _ _ _ H2 Hi) as (s' & Hs & Hd').
      rewrite Hd in Hd'. injection Hd' as <-. exact (list_elem_of_lookup_2 _ _ _ Hs).
  - unfold count. rewrite select_answers by done. fold (rs (w_txn w)).
    by rewrite <-(Forall2_length _ _ _ H2), Hk3.
Qed.
End Sessions.

(** ** Browser sessions: the cursor is not the column of the order *)
Section BrowserSessions.
Context {R : Type} `{!UlidText}.
Implicit Types w : World R.
Import BrowserSessionListing.

(** Cursors below every row: a link leads back to the start of the listing. *)
Lemma follow_next_stuck {Row} `{!Node Row} (column : Row → Ulid) rs n fuel p :
  (∀ r s, r ∈ rs → s ∈ rs → cursor_of r < column s) →
  valid_count n → 0 < n → n < Z.of_nat (length rs) →
  Pagination.direction p = Forward → Pagination.before p = None → Pagination.count p = n →
  (∀ c, Pagination.after p = Some c → ∀ r, r ∈ rs → c < column r) →
  follow_next (λ p, list_page column p rs) fuel p = None.
Proof.
  intros Hlow Hc Hn Hlen. revert p. induction fuel as [|fuel IH]; intros p Hd Hb Hcount Ha; [done|].
  simpl. rewrite list_page_forward by by subst.
  assert (window column p rs = rs) as ->.
  { apply filter_all, Forall_forall. intros r Hr. unfold in_window. rewrite Hb.
    destruct (Pagination.after p) as [c|]; [|done]. rewrite bool_decide_true by by eapply Ha. done. }
  set (l := order_asc column rs). assert (length l = length rs) as Hl by apply length_order_asc.
  unfold Page.nodes, page_links. simpl. rewrite nodes_of_edges, Hcount, fmap_last.
  rewrite bool_decide_true by lia.
  destruct (last (take (Z.to_nat n) l)) as [x|] eqn:Hx; simpl; [|done].
  assert (x ∈ rs) as Hin.
  { apply last_Some_elem_of, elem_of_take in Hx as (i & Hi & _).
    apply list_elem_of_lookup_2 in Hi. unfold l in Hi. by rewrite order_asc_perm in Hi. }
  rewrite IH; [done..|]. simpl. intros c [= <-] r Hr. by apply Hlow.
Qed.

(** C36: the cursor of a browser session in a page is the identifier of its
    user, not its own.  When the users are older than the sessions listed, as
    the identifiers of a user and of its sessions are, and there is more than
    one page, following the [next] links from the first page never ends, however
    many are followed. *)
Theorem browser_sessions_never_enumerated filter n fuel w :
  w_driver_faults w = [] → valid_count n → 0 < n →
  let rs := joined_rows filter (w_txn w) in
  n < Z.of_nat (length rs) →
  (∀ r s, r ∈ rs → s ∈ rs → UserLookup.user_id r.2 < UserSessionRow.user_session_id s.1) →
  read_all (list filter) fuel (first_page n) w = (Ok None, w).
Proof.
  intros Hw Hc Hn rs Hlen Hlow.
  pose proof (read_all_follow session_column (λ r, Ok (BrowserSessionRepository.try_from r))
    (joined_rows filter) fuel (first_page n) w Hw) as Hr.
  rewrite (follow_next_stuck session_column rs n fuel) in Hr by done.
  apply Hr, Forall_forall. eauto.
Qed.
End BrowserSessions.

(** ** The largest page size

    [page[first]] of the administration API is any positive [usize]; the
    largest one makes [count + 1] wrap around to a [LIMIT] of zero rows, which
    [process] takes for a full page, and the link to the next page has no
    edge to start from. *)
Theorem largest_page_panics {Row} `{!Node Row} (column : Row → Ulid) rs p :
  Pagination.count p = 2 ^ 64 - 1 →
  page_links (list_page column p rs) p = Err Panicked.
Proof.
  intros Hc. unfold list_page, generate_pagination, process, page_links. rewrite Hc.
  change (usize_succ (2 ^ 64 - 1)) with 0. by destruct (Pagination.direction p).
Qed.

(** ** Witnesses *)
Module Witnesses.
Import Scenario.

Lemma page_of_window_witness :
  let p := Pagination.mk (Some 40) (Some 10) 2 Backward in
  let page := list_page (λ n, n) (Node0 := λ n, n) p [30; 10; 50; 20; 35] in
  Page.nodes page = [30; 35] ∧ Page.has_previous_page page = true ∧
  StronglySorted (before_row (λ n, n)) (Page.nodes page).
Proof.
  split_and!; [by vm_compute..|].
  apply (page_of_window (λ n, n) (Node0 := λ n, n)
    (Pagination.mk (Some 40) (Some 10) 2 Backward) [30; 10; 50; 20; 35]).
  - split; by vm_compute.
  - apply (bool_decide_unpack _). by vm_compute.
Defined.

Definition session_row (id : Ulid) : OAuthSessionLookup.t :=
  OAuthSessionLookup.mk id (Some 2) (Some 3) 1 ["openid"] 0 None None None None None.
Definition browser_row (id : Ulid) : UserSessionRow.t := UserSessionRow.mk id 2 0 None None None None.

(** Three sessions of a user. *)
Definition sessions_db : Db :=
  mkDb {[1 := client]} {[2 := user]} {[3 := browser_row 3; 5 := browser_row 5; 8 := browser_row 8]} ∅
    {[11 := session_row 11; 12 := session_row 12; 14 := session_row 14]} ∅ ∅ ∅ ∅ ∅ ∅ ∅ None ∅ ∅ ∅ ∅ ∅ ∅ ∅ ∅ ∅ no_accounts.

Lemma sessions_enumerated_witness :
  ∃ l, read_all (SessionListing.list OAuth2SessionFilter.new) 4 (first_page 2)
         (world sessions_db 0 0) = (Ok (Some l), world sessions_db 0 0) ∧
    StronglySorted (λ a b, Session.id a < Session.id b) l ∧
    (SessionListing.count OAuth2SessionFilter.new (world sessions_db 0 0)).1
      = Ok (Z.of_nat (length l)).
Proof.
  edestruct (sessions_enumerated OAuth2SessionFilter.new 2 4 (world sessions_db 0 0))
    as (l & Hl & Hs & _ & Hc).
  - done.
  - apply (bool_decide_unpack (map_Forall (λ k r, OAuthSessionLookup.oauth2_session_id r = k)
      (oauth2_sessions sessions_db))). by vm_compute.
  - intros k r Hr _. simpl in Hr.
    repeat (apply lookup_insert_Some in Hr as [[_ <-]|[_ Hr]]; [by eexists|]).
    apply lookup_singleton_Some in Hr as [_ <-]. by eexists.
  - split; by vm_compute.
  - done.
  - vm_compute. lia.
  - exists l. split_and!; [exact Hl|exact Hs|exact (f_equal fst Hc)].
Defined.

Lemma browser_sessions_never_enumerated_witness :
  read_all (BrowserSessionListing.list (BrowserSessionFilter.mk None None None None None None None))
    100 (first_page 2) (world sessions_db 0 0) = (Ok None, world sessions_db 0 0).
Proof.
  apply (browser_sessions_never_enumerated
    (BrowserSessionFilter.mk None None None None None None None) 2 100 (world sessions_db 0 0)).
  - done.
  - split; by vm_compute.
  - done.
  - by vm_compute.
  - intros r s Hr Hs. apply (bool_decide_unpack _). revert s Hs. apply Forall_forall.
    revert r Hr. apply Forall_forall. apply (bool_decide_unpack _). by vm_compute.
Defined.
End Witnesses.
