(* ===== verification/TaskFacts.v ===== *)
(** * Correctness of the tasks: the devices of a user *)

From stdpp Require Import base tactics list strings gmap sorting.
From Stdlib Require Import ZArith Lia.
From S2P Require Import Prelude Text Scope Externals Formats Pagination TokenFormat DataModel CompatModel Storage QueueRepo QueueWorker TokenRepo GrantRepo UserRepo CompatRepo PersonalRepo Jobs Tasks RepoFacts CompatRepoFacts Integrity Stored ListingFacts.
#[local] Open Scope Z_scope.

(** ** Runs that send nothing to the homeserver *)

Section Quiet.
Context {R : Type}.
Implicit Types w : World R.

Definition quiet w w' : Prop :=
  w_devices w' = w_devices w ∧ w_homeserver_faults w' = w_homeserver_faults w.

#[export] Instance quiet_preorder : PreOrder quiet.
Proof. split; [done|]. intros ??? [? ?] [? ?]. split; congruence. Qed.

Lemma quiet_now {E} : keeps quiet (@now R E).
Proof. by intros w. Qed.
Lemma quiet_with_rng {E A} (f : R → A * R) : keeps quiet (with_rng (E := E) f).
Proof. intros w. unfold with_rng. by destruct (f (w_rng w)). Qed.
Lemma quiet_query : keeps quiet (@query R).
Proof. intros w. unfold query. by destruct (w_driver_faults w) as [|[] ?]. Qed.
Lemma quiet_modify {E} f : (∀ w, quiet w (f w)) → keeps quiet (modify (E := E) f).
Proof. done. Qed.
Lemma quiet_select {A} (f : Db → A) : keeps quiet (@select R A f).
Proof. apply keeps_bind; [apply _ | apply quiet_query | done]. Qed.
Lemma quiet_execute stmt : keeps quiet (@execute R stmt).
Proof.
  apply keeps_bind; [apply _ | apply quiet_query | intros _ w].
  by destruct (stmt (w_txn w)) as [[]|].
Qed.
Lemma quiet_decode_row {Row A} (decode : Row → result DatabaseInconsistencyError A) o :
  keeps quiet (decode_row (W := World R) decode o).
Proof. unfold decode_row. destruct o; keeps_tac. Qed.
Lemma quiet_save : keeps quiet (@save R).
Proof. apply keeps_bind; [apply _ | apply quiet_query | done]. Qed.
Lemma quiet_from_pool : keeps quiet (@from_pool R).
Proof. apply keeps_bind; [apply _ | apply quiet_query | done]. Qed.

(** A page that is read is the page of the rows. *)
Lemma fetch_page_inv {Row A} `{!Node Row} (column : Row → Ulid)
    (decode : Row → result DatabaseInconsistencyError A) rs p w q w' :
  fetch_page column decode rs p w = (Ok q, w') →
  same_db w w' ∧ quiet w w' ∧ Page.try_map decode (list_page column p (rs (w_txn w))) = Ok q.
Proof.
  intros H. unfold fetch_page in H. apply bind_Ok_inv in H as (edges & w1 & H & H').
  pose proof (keeps_run quiet _ _ _ _ (quiet_select _) H) as Hq.
  apply select_inv in H as [-> Hs]. unfold lift in H'. injection H' as H' <-.
  split_and!; [done..|]. by apply map_err_Ok with Inconsistency, eq_sym.
Qed.
End Quiet.

#[export] Hint Resolve quiet_now quiet_with_rng quiet_query quiet_select quiet_execute
  quiet_decode_row quiet_save quiet_from_pool : keeps.

#[export] Hint Unfold retry_db retry_homeserver lookup_user schedule_job schedule_job_later
  schedule_some sync_once QueueJobRepository.schedule QueueJobRepository.schedule_later : mas_ops.

(** ** The loop over a listing *)

Section Cycle.
Context {R Row A : Type} `{!Node Row} {texts : ErrorTexts}.
Context (column : Row → Ulid) (decode : Row → result DatabaseInconsistencyError A).
Context (rs : Db → list Row) (devices_of : A → gset string) (row_devices : Row → gset string).
Hypothesis decode_devices : ∀ r a, decode r = Ok a → devices_of a = row_devices r.
Implicit Types w : World R.

Definition all_devices (l : list Row) : gset string := ⋃ (row_devices <$> l).

Lemma elem_of_all_devices l x : x ∈ all_devices l ↔ ∃ r, r ∈ l ∧ x ∈ row_devices r.
Proof.
  unfold all_devices. rewrite elem_of_union_list. setoid_rewrite list_elem_of_fmap. naive_solver.
Qed.

(** The pages of a loop: forward, without an upper bound. *)
Definition forward (n : Z) (p : Pagination.t) : Prop :=
  Pagination.direction p = Forward ∧ Pagination.before p = None ∧ Pagination.count p = n.

Lemma visit_edges es q p D :
  Forall2 (λ e e', Edge.cursor e' = Edge.cursor e ∧ decode (Edge.node e) = Ok (Edge.node e')) es q →
  foldl (visit devices_of) (p, D) q =
  (match last es with Some e => with_after (Edge.cursor e) p | None => p end,
   D ∪ all_devices (Edge.node <$> es)).
Proof.
  intros H. revert p D. induction H as [|e e' es q [Hc Hd] _ IH]; intros p D; simpl.
  - f_equal. unfold all_devices. simpl. set_solver.
  - rewrite IH. f_equal.
    + rewrite Hc. destruct es as [|e2 es]; [done|]. rewrite (last_cons_cons e).
      destruct (last (e2 :: es)) eqn:Hl; [done|]. by apply last_None in Hl.
    + unfold all_devices. simpl. rewrite <-(decode_devices _ _ Hd). set_solver.
Qed.

Lemma try_map_edges {B} (f : Row → result DatabaseInconsistencyError B) (p : Page.t Row) q :
  Page.try_map f p = Ok q →
  Page.has_next_page q = Page.has_next_page p ∧
  Forall2 (λ e e', Edge.cursor e' = Edge.cursor e ∧ f (Edge.node e) = Ok (Edge.node e'))
    (Page.edges p) (Page.edges q).
Proof.
  unfold Page.try_map. intros (es & Hes & [= <-])%rbind_Ok_inv. split; [done|]. simpl.
  apply collect_Ok_Forall2 in Hes. eapply Forall2_impl; [exact Hes|].
  intros e e' (n & Hn & [= <-])%rbind_Ok_inv. done.
Qed.

(** Rows with the same cursor have the same devices. *)
Definition same_devices (l : list Row) : Prop :=
  ∀ r s, r ∈ l → s ∈ l → column r = column s → row_devices r = row_devices s.

(** What a full page leaves: the rows after its last one, and no device of
    the others is missed. *)
Lemma all_devices_split n p l x :
  0 < n → Pagination.before p = None → same_devices l →
  let w := order_asc column (window column p l) in
  (Z.to_nat n < length w)%nat → last (take (Z.to_nat n) w) = Some x →
  let rest := window column (with_after (column x) p) l in
  all_devices (window column p l) = all_devices (take (Z.to_nat n) w) ∪ all_devices rest ∧
  (length rest < length (window column p l))%nat.
Proof.
  intros Hn Hb Hsame w Hlen Hx rest.
  destruct (last_take_split _ _ _ Hx Hlen) as (l1 & Hw & _).
  assert (∀ r, r ∈ w ↔ r ∈ window column p l) as Hin
    by (intros r; unfold w; by rewrite order_asc_perm).
  assert (x ∈ window column p l) as Hxw
    by (apply Hin; rewrite Hw; apply elem_of_app; right; left).
  assert (rest = filter (λ r, column x < column r) (window column p l)) as Hrest.
  { unfold rest. rewrite <-(window_after column p l x Hb Hxw).
    unfold clear_before. rewrite <-Hb. by destruct p. }
  assert (∀ r, r ∈ window column p l → r ∈ l) as Hl
    by (intros r; unfold window; by intros [_ ?]%list_elem_of_filter).
  split.
  - apply leibniz_equiv. intros y. rewrite elem_of_union, !elem_of_all_devices. split.
    + intros (r & Hr & Hy). destruct (decide (column x < column r)) as [Hlt|Hge].
      { right. exists r. rewrite Hrest, list_elem_of_filter. done. }
      left. apply Hin in Hr. rewrite <-(take_drop (Z.to_nat n) w) in Hr.
      apply elem_of_app in Hr as [Hr|Hr]; [by exists r|]. exists x. split.
      { apply last_Some in Hx as [l' ->]. apply elem_of_app. right. left. }
      rewrite (Hsame x r); [done|by apply Hl| |].
      { apply Hl, Hin. rewrite <-(take_drop (Z.to_nat n) w). apply elem_of_app. by right. }
      pose proof (order_asc_sorted column (window column p l)) as Hs. fold w in Hs.
      rewrite Hw in Hs. apply StronglySorted_app in Hs as (_ & _ & Hs).
      apply StronglySorted_cons in Hs as [Hs _]. rewrite Forall_forall in Hs.
      specialize (Hs r Hr). unfold asc in Hs. lia.
    + intros [(r & Hr & Hy)|(r & Hr & Hy)]; exists r; (split; [|done]).
      * apply Hin. by apply elem_of_take in Hr as (i & Hr%list_elem_of_lookup_2 & _).
      * rewrite Hrest in Hr. by apply list_elem_of_filter in Hr as [_ ?].
  - rewrite Hrest. apply (length_filter_lt _ _ x Hxw). lia.
Qed.

(** One turn of the loop, on the page that was read. *)
Lemma cycle_turn n p l q D :
  (∀ r, cursor_of r = column r) → valid_count n → 0 < n → forward n p → same_devices l →
  Page.try_map decode (list_page column p l) = Ok q →
  let '(p', D') := foldl (visit devices_of) (p, D) (Page.edges q) in
  if Page.has_next_page q
  then forward n p' ∧ (length (window column p' l) < length (window column p l))%nat ∧
    D' ∪ all_devices (window column p' l) = D ∪ all_devices (window column p l)
  else D' = D ∪ all_devices (window column p l).
Proof.
  intros Hcur Hc Hn (Hd & Hb & Hcount) Hsame [Hq He]%try_map_edges.
  rewrite (visit_edges _ _ p D He), Hq. rewrite list_page_forward by by subst.
  rewrite Hcount. simpl. set (w := order_asc column (window column p l)).
  rewrite nodes_of_edges, fmap_last. case_bool_decide as Hlt.
  - destruct (last (take (Z.to_nat n) w)) as [x|] eqn:Hx; simpl;
      [|apply last_None, (f_equal length) in Hx; rewrite length_take in Hx; simpl in Hx; lia].
    rewrite Hcur. destruct (all_devices_split n p l x Hn Hb Hsame Hlt Hx) as [HD Hl].
    split_and!; [done..|]. rewrite HD. fold w. set_solver.
  - rewrite take_ge by lia. f_equal. apply leibniz_equiv. intros y.
    rewrite !elem_of_all_devices. unfold w. by setoid_rewrite order_asc_perm.
Qed.

(** A loop that ends has collected the devices of all the rows. *)
Lemma cycle_inv n fuel p D w D' w' :
  (∀ r, cursor_of r = column r) → valid_count n → 0 < n → forward n p →
  same_devices (rs (w_txn w)) →
  cycle (fetch_page column decode rs) devices_of fuel p D w = (Ok (Some D'), w') →
  same_db w w' ∧ quiet w w' ∧ D' = D ∪ all_devices (window column p (rs (w_txn w))).
Proof.
  intros Hcur Hc Hn. revert p D w. induction fuel as [|fuel IH]; intros p D w Hp Hsame H; [done|].
  simpl in H. apply bind_Ok_inv in H as (q & w1 & Hq & H).
  apply mmap_err_Ok_inv, fetch_page_inv in Hq as (Hs & Hqu & Hq).
  pose proof (cycle_turn n p _ q D Hcur Hc Hn Hp Hsame Hq) as Ht.
  destruct (foldl _ _ _) as [p' D1]. destruct (Page.has_next_page q).
  - destruct Ht as (Hp' & _ & <-). pose proof Hs as (Htx & _).
    apply IH in H as (Hs' & Hqu' & ->); [|done|by rewrite Htx].
    rewrite Htx. split_and!; [by transitivity w1..|done].
  - injection H as <- <-. done.
Qed.

(** When the database answers and the rows can be read, it ends. *)
Lemma cycle_answers n fuel p D w :
  (∀ r, cursor_of r = column r) → valid_count n → 0 < n → forward n p →
  same_devices (rs (w_txn w)) → w_driver_faults w = [] →
  Forall (λ r, ∃ a, decode r = Ok a) (rs (w_txn w)) →
  (length (window column p (rs (w_txn w))) < fuel)%nat →
  ∃ D', cycle (fetch_page column decode rs) devices_of fuel p D w = (Ok (Some D'), w).
Proof.
  intros Hcur Hc Hn Hp Hsame Hw Hall. revert p D Hp.
  induction fuel as [|fuel IH]; intros p D Hp Hlen; [lia|]. simpl.
  destruct (fetch_page_answers column decode rs p w Hw Hall) as (q & Hq & _).
  unfold bind, retry_db, mmap_err. rewrite Hq. simpl.
  apply fetch_page_inv in Hq as (_ & _ & Hq).
  pose proof (cycle_turn n p _ q D Hcur Hc Hn Hp Hsame Hq) as Ht.
  destruct (foldl _ _ _) as [p' D1]. destruct (Page.has_next_page q); [|by eexists].
  destruct Ht as (Hp' & Hlt & _). apply IH; [done|lia].
Qed.

(** The loop over the rows of the active sessions of a table. *)
Section Sessions.
Context {S : Type} (session : Row → S) (table : Db → gmap Z S) (active : S → Prop)
  (devices : S → gset string) (n : Z).
Hypothesis cursors : ∀ r, cursor_of r = column r.
Hypothesis session_devices : ∀ r, row_devices r = devices (session r).
Hypothesis count_ok : valid_count n ∧ 0 < n.

Definition lists (d : Db) : Prop :=
  (∀ r, r ∈ rs d → table d !! column r = Some (session r) ∧ active (session r)) ∧
  (∀ k s, table d !! k = Some s → active s → ∃ r, r ∈ rs d ∧ session r = s).

Lemma lists_same_devices d : lists d → same_devices (rs d).
Proof.
  intros [Hin _] r s [Hr _]%Hin [Hs _]%Hin Hrs. rewrite Hrs, Hs in Hr. injection Hr as Hr.
  by rewrite !session_devices, Hr.
Qed.

Lemma cycle_sessions fuel D w D' w' :
  lists (w_txn w) →
  cycle (fetch_page column decode rs) devices_of fuel (first_page n) D w = (Ok (Some D'), w') →
  same_db w w' ∧ quiet w w' ∧ ∀ x, x ∈ D' ↔ x ∈ D ∨
    ∃ k s, table (w_txn w) !! k = Some s ∧ active s ∧ x ∈ devices s.
Proof.
  intros Hl H. apply (cycle_inv n) in H as (Hs & Hq & ->);
    [|done|apply count_ok|apply count_ok|done|by apply lists_same_devices].
  split_and!; [done..|]. intros x. rewrite elem_of_union, elem_of_all_devices.
  apply or_iff_compat_l. unfold window. rewrite filter_all by by apply Forall_forall.
  destruct Hl as [Hin Hhas]. split.
  - intros (r & [Hr Ha]%Hin & Hx). rewrite session_devices in Hx. eauto.
  - intros (k & s & Hks & Ha & Hx). destruct (Hhas k s Hks Ha) as (r & Hr & <-).
    exists r. by rewrite session_devices.
Qed.

Lemma cycle_sessions_answers fuel D w :
  lists (w_txn w) → w_driver_faults w = [] →
  Forall (λ r, ∃ a, decode r = Ok a) (rs (w_txn w)) → (length (rs (w_txn w)) < fuel)%nat →
  ∃ D', cycle (fetch_page column decode rs) devices_of fuel (first_page n) D w = (Ok (Some D'), w).
Proof.
  intros Hl Hw Hall Hf. apply (cycle_answers n); [done|apply count_ok|apply count_ok|done| |done|done|].
  - by apply lists_same_devices.
  - unfold window. by rewrite filter_all by by apply Forall_forall.
Qed.
End Sessions.
End Cycle.

(** ** The devices of a user *)

(** A device of a session of the user that is not over. *)
Definition active_device (d : Db) (user : Ulid) (x : string) : Prop :=
  (∃ k s, compat_sessions d !! k = Some s ∧ CompatSessionLookup.user_id s = user ∧
     CompatSessionLookup.finished_at s = None ∧ CompatSessionLookup.device_id s = Some x) ∨
  (∃ k s t, oauth2_sessions d !! k = Some s ∧ OAuthSessionLookup.user_id s = Some user ∧
     OAuthSessionLookup.finished_at s = None ∧ t ∈ OAuthSessionLookup.scope_list s ∧
     Device.from_scope_token t = Some (Device.mkDevice x)) ∨
  (∃ k s t, personal_sessions d !! k = Some s ∧ PersonalSessionLookup.actor_user_id s = user ∧
     PersonalSessionLookup.revoked_at s = None ∧ t ∈ PersonalSessionLookup.scope_list s ∧
     Device.from_scope_token t = Some (Device.mkDevice x)).

Lemma elem_of_scope_devices (l : list ScopeToken) x :
  x ∈ scope_devices l ↔ ∃ t, t ∈ l ∧ Device.from_scope_token t = Some (Device.mkDevice x).
Proof.
  unfold scope_devices. rewrite elem_of_list_to_set, list_elem_of_omap. split.
  - intros (t & Ht & Hx). apply fmap_Some in Hx as ([y] & Hy & ->). by exists t.
  - intros (t & Ht & Hx). exists t. by rewrite Hx.
Qed.

Lemma scope_devices_decoded (l tokens : list ScopeToken) :
  collect ScopeToken_from_str l = Ok tokens →
  scope_devices (Scope_from_iter tokens) = scope_devices l.
Proof.
  intros [-> _]%collect_tokens. apply leibniz_equiv. intros x.
  rewrite !elem_of_scope_devices. unfold Scope_from_iter. by setoid_rewrite elem_of_btree_of_list.
Qed.

(** A filtered [LEFT JOIN] lists the active rows of the left table. *)
Lemma joined_lists {Row Row2 : Type} `{!Table Row} (id : Row → Z)
    (join : Db → Row → list (Row * option Row2)) (cond : Db → Row * option Row2 → bool)
    (active : Row → Prop) d :
  keyed id (rows d) → (∀ r, cond d r = true ↔ active r.1) →
  (∀ s x, x ∈ join d s → x.1 = s) → (∀ s, ∃ o, (s, o) ∈ join d s) →
  lists (λ r, id r.1)
    (λ d, filter (λ r, cond d r = true) (mjoin (join d <$> (map_to_list (rows d)).*2)))
    fst rows active d.
Proof.
  intros Hk Hc Hl Ht. split.
  - intros r [Ha Hr]%list_elem_of_filter. apply Hc in Ha. split; [|done].
    apply list_elem_of_join in Hr as (xs & Hr & Hxs).
    apply list_elem_of_fmap in Hxs as (s & -> & Hs). apply Hl in Hr as ->.
    apply elem_of_rows in Hs as [k Hs]. by rewrite (Hk _ _ Hs).
  - intros k s Hs Ha. destruct (Ht s) as [o Ho]. exists (s, o). split; [|done].
    apply list_elem_of_filter. split; [by apply Hc|]. apply list_elem_of_join.
    exists (join d s). split; [done|]. apply list_elem_of_fmap. exists s. split; [done|].
    apply elem_of_rows. by exists k.
Qed.

Lemma compat_join_left d s x : x ∈ CompatSessionRepository.left_join d s → x.1 = s.
Proof.
  unfold CompatSessionRepository.left_join. destruct (base.filter _ _) as [|l ls]; [set_solver|].
  by intros (y & -> & _)%list_elem_of_fmap.
Qed.
Lemma compat_join_total d s : ∃ o, (s, o) ∈ CompatSessionRepository.left_join d s.
Proof.
  unfold CompatSessionRepository.left_join. destruct (base.filter _ _) as [|l ls];
    [exists None | exists (Some l)]; left.
Qed.
Lemma personal_join_left d s x : x ∈ PersonalSessionRepository.left_join d s → x.1 = s.
Proof.
  unfold PersonalSessionRepository.left_join. destruct (base.filter _ _) as [|l ls]; [set_solver|].
  by intros (y & -> & _)%list_elem_of_fmap.
Qed.
Lemma personal_join_total d s : ∃ o, (s, o) ∈ PersonalSessionRepository.left_join d s.
Proof.
  unfold PersonalSessionRepository.left_join. destruct (base.filter _ _) as [|l ls];
    [exists None | exists (Some l)]; left.
Qed.

(** *** The three listings *)
Section Listings.
Context {R : Type} {url_lib : UrlLib} (user : User.t).

Definition compat_filter : CompatSessionFilter.t :=
  CompatSessionFilter.active_only (CompatSessionFilter.for_user user CompatSessionFilter.new).
Definition oauth2_filter : OAuth2SessionFilter.t :=
  OAuth2SessionFilter.active_only (OAuth2SessionFilter.for_user user OAuth2SessionFilter.new).
Definition personal_filter : PersonalSessionFilter.t :=
  PersonalSessionFilter.active_only
    (PersonalSessionFilter.for_actor_user user PersonalSessionFilter.new).

Definition compat_active (s : CompatSessionLookup.t) : Prop :=
  CompatSessionLookup.user_id s = User.id user ∧ CompatSessionLookup.finished_at s = None.
Definition oauth2_active (s : OAuthSessionLookup.t) : Prop :=
  OAuthSessionLookup.user_id s = Some (User.id user) ∧ OAuthSessionLookup.finished_at s = None.
Definition personal_active (s : PersonalSessionLookup.t) : Prop :=
  PersonalSessionLookup.actor_user_id s = User.id user ∧ PersonalSessionLookup.revoked_at s = None.

Lemma compat_condition o d r :
  CompatSessionFilter.generate_condition compat_filter o d r = true ↔ compat_active r.
Proof.
  unfold CompatSessionFilter.generate_condition, compat_active. simpl.
  rewrite !andb_true_r, andb_true_iff, bool_decide_eq_true.
  destruct (CompatSessionLookup.finished_at r); intuition done.
Qed.
Lemma oauth2_condition d r :
  OAuth2SessionFilter.generate_condition oauth2_filter d r = true ↔ oauth2_active r.
Proof.
  unfold OAuth2SessionFilter.generate_condition, oauth2_active. simpl.
  rewrite !andb_true_r, andb_true_iff, bool_decide_eq_true.
  destruct (OAuthSessionLookup.finished_at r); intuition done.
Qed.
Lemma personal_condition r :
  PersonalSessionFilter.generate_condition personal_filter r = true ↔ personal_active r.1.
Proof.
  destruct r as [r o]. unfold PersonalSessionFilter.generate_condition, personal_active. simpl.
  rewrite !andb_true_r, andb_true_iff, bool_decide_eq_true.
  destruct (PersonalSessionLookup.revoked_at r); intuition done.
Qed.

Definition compat_row_devices (s : CompatSessionLookup.t) : gset string :=
  match CompatSessionLookup.device_id s with Some x => {[x]} | None => ∅ end.

Lemma compat_decode_devices (r : CompatSessionRepository.CompatSessionAndSsoLoginLookup) a :
  CompatSessionRepository.try_from r = Ok a → compat_devices a = compat_row_devices r.1.
Proof.
  unfold CompatSessionRepository.try_from, compat_devices, compat_row_devices. intros H.
  assert (a.1 = CompatSessionRepository.of_row r.1) as ->.
  { destruct (r.2) as [l|]; [|by injection H as <-].
    apply rbind_Ok_inv in H as (url & _ & H). by repeat case_match; simplify_eq. }
  simpl. by destruct (CompatSessionLookup.device_id r.1).
Qed.
Lemma oauth2_decode_devices r s :
  SessionRepository.try_from r = Ok s →
  scope_devices (Session.scope s) = scope_devices (OAuthSessionLookup.scope_list r).
Proof.
  unfold SessionRepository.try_from. intros (ts & Hts & [= <-])%rbind_Ok_inv.
  by apply scope_devices_decoded, (map_err_Ok _ _ _ (eq_sym Hts)).
Qed.
Lemma personal_decode_devices (r : PersonalSessionRepository.PersonalSessionAndAccessTokenLookup) a :
  PersonalSessionRepository.try_from_joined r = Ok a →
  scope_devices (PersonalSession.scope a.1) = scope_devices (PersonalSessionLookup.scope_list r.1).
Proof.
  unfold PersonalSessionRepository.try_from_joined, PersonalSessionRepository.try_from.
  intros (s & (ts & Hts & (o & _ & [= <-])%rbind_Ok_inv)%rbind_Ok_inv & [= <-])%rbind_Ok_inv.
  by apply scope_devices_decoded, (map_err_Ok _ _ _ (eq_sym Hts)).
Qed.

Lemma compat_lists d : integrity d →
  lists (λ r, CompatSessionLookup.compat_session_id r.1)
    (CompatSessionRepository.joined_rows compat_filter) fst compat_sessions compat_active d.
Proof.
  intros Hint.
  refine (joined_lists CompatSessionLookup.compat_session_id CompatSessionRepository.left_join
    (λ d r, CompatSessionFilter.generate_condition compat_filter (Some r.2) d r.1) compat_active d
    _ _ _ _);
    [apply Hint|intros; apply compat_condition|..].
  - apply compat_join_left.
  - apply compat_join_total.
Qed.
Lemma personal_lists d : integrity d →
  lists (λ r, PersonalSessionLookup.personal_session_id r.1)
    (PersonalSessionRepository.joined_rows personal_filter) fst personal_sessions
    personal_active d.
Proof.
  intros Hint.
  refine (joined_lists PersonalSessionLookup.personal_session_id PersonalSessionRepository.left_join
    (λ _, PersonalSessionFilter.generate_condition personal_filter) personal_active d _ _ _ _);
    [apply Hint|apply personal_condition|..].
  - apply personal_join_left.
  - apply personal_join_total.
Qed.
Lemma oauth2_lists d : integrity d →
  lists OAuthSessionLookup.oauth2_session_id
    (λ d, matching_rows (OAuth2SessionFilter.generate_condition oauth2_filter d) d) (λ r, r)
    oauth2_sessions oauth2_active d.
Proof.
  intros Hint. split.
  - intros r Hr. apply (matching_rows_elem _ _ OAuthSessionLookup.oauth2_session_id) in Hr
      as [Hr Hc]; [|apply Hint]. by apply oauth2_condition in Hc.
  - intros k s Hs Ha. exists s. split; [|done].
    apply (matching_rows_elem _ _ OAuthSessionLookup.oauth2_session_id); [apply Hint|].
    rewrite oauth2_condition. split; [|done]. by rewrite (sessions_pkey _ Hint _ _ Hs).
Qed.
End Listings.

(** ** The job *)
Section SyncJob.
Context {R : Type} `{!RngCore R} {ulid_text : UlidText} {chrono : ChronoText}
  {url_lib : UrlLib} {pg_text : PgText} {collation : PgCollation} {texts : ErrorTexts}.
Implicit Types w : World R.

Lemma retry_db_Ok {A} (m : M (World R) DatabaseError A) w a w' :
  retry_db m w = (Ok a, w') → m w = (Ok a, w').
Proof. apply mmap_err_Ok_inv. Qed.

Lemma lookup_user_inv id w u w' :
  lookup_user id w = (Ok u, w') →
  same_db w w' ∧ quiet w w' ∧
  ∃ r, users (w_txn w) !! id = Some r ∧ u = UserRepository.of_row r.
Proof.
  intros H. assert (quiet w w') as Hq.
  { eapply (keeps_run quiet (lookup_user id)); [|exact H]. keeps_tac. }
  apply bind_Ok_inv in H as (o & w1 & H & H'). apply retry_db_Ok, user_lookup_inv in H as [Hs ->].
  unfold lift in H'. injection H' as H' <-. split_and!; [done..|].
  simpl in H'. destruct (users (w_txn w) !! id) as [r|] eqn:Hr; simplify_eq/=. eauto.
Qed.

Lemma notify_inv c w x w' :
  retry_homeserver (homeserver_call c) w = (Ok x, w') →
  same_db w w' ∧ w_devices w' = w_devices w ++ [c].
Proof.
  intros H%mmap_err_Ok_inv. unfold homeserver_call in H.
  by destruct (w_homeserver_faults w) as [|[] ?]; simplify_eq.
Qed.

Lemma sync_page_ok : valid_count SYNC_PAGE ∧ 0 < SYNC_PAGE.
Proof. by repeat split. Qed.

(** A loop over the sessions of a kind collects the devices of those that are
    not over. *)
Definition collects (cyc : gset string → M (World R) JobError (option (gset string)))
    (has : Db → string → Prop) : Prop :=
  ∀ D w D' w', integrity (w_txn w) → cyc D w = (Ok (Some D'), w') →
    same_db w w' ∧ quiet w w' ∧ ∀ x, x ∈ D' ↔ x ∈ D ∨ has (w_txn w) x.

Lemma collects_compat user fuel :
  collects (cycle (CompatSessionRepository.list (compat_filter user)) compat_devices fuel
              (first_page SYNC_PAGE))
    (λ d x, ∃ k s, compat_sessions d !! k = Some s ∧ compat_active user s ∧
       x ∈ compat_row_devices s).
Proof.
  intros D w D' w' Hint.
  exact (cycle_sessions _ _ _ _ (λ r, compat_row_devices r.1) compat_decode_devices fst
    compat_sessions (compat_active user) compat_row_devices SYNC_PAGE (λ _, eq_refl)
    (λ _, eq_refl) sync_page_ok fuel D w D' w' (compat_lists user _ Hint)).
Qed.
Lemma collects_oauth2 user fuel :
  collects (cycle (SessionListing.list (oauth2_filter user))
              (λ s, scope_devices (Session.scope s)) fuel (first_page SYNC_PAGE))
    (λ d x, ∃ k s, oauth2_sessions d !! k = Some s ∧ oauth2_active user s ∧
       x ∈ scope_devices (OAuthSessionLookup.scope_list s)).
Proof.
  intros D w D' w' Hint.
  exact (cycle_sessions _ _ _ _ (λ r, scope_devices (OAuthSessionLookup.scope_list r))
    oauth2_decode_devices (λ r, r) oauth2_sessions (oauth2_active user)
    (λ r, scope_devices (OAuthSessionLookup.scope_list r)) SYNC_PAGE (λ _, eq_refl)
    (λ _, eq_refl) sync_page_ok fuel D w D' w' (oauth2_lists user _ Hint)).
Qed.
Lemma collects_personal user fuel :
  collects (cycle (PersonalSessionRepository.list (personal_filter user))
              (λ n, scope_devices (PersonalSession.scope n.1)) fuel (first_page SYNC_PAGE))
    (λ d x, ∃ k s, personal_sessions d !! k = Some s ∧ personal_active user s ∧
       x ∈ scope_devices (PersonalSessionLookup.scope_list s)).
Proof.
  intros D w D' w' Hint.
  exact (cycle_sessions _ _ _ _ (λ r, scope_devices (PersonalSessionLookup.scope_list r.1))
    personal_decode_devices fst personal_sessions (personal_active user)
    (λ r, scope_devices (PersonalSessionLookup.scope_list r)) SYNC_PAGE (λ _, eq_refl)
    (λ _, eq_refl) sync_page_ok fuel D w D' w' (personal_lists user _ Hint)).
Qed.

(** The three kinds together are the devices of the user. *)
Lemma active_device_kinds d user x :
  active_device d (User.id user) x ↔
  (∃ k s, compat_sessions d !! k = Some s ∧ compat_active user s ∧ x ∈ compat_row_devices s) ∨
  (∃ k s, oauth2_sessions d !! k = Some s ∧ oauth2_active user s ∧
     x ∈ scope_devices (OAuthSessionLookup.scope_list s)) ∨
  (∃ k s, personal_sessions d !! k = Some s ∧ personal_active user s ∧
     x ∈ scope_devices (PersonalSessionLookup.scope_list s)).
Proof.
  unfold active_device, compat_active, oauth2_active, personal_active, compat_row_devices.
  setoid_rewrite elem_of_scope_devices. split.
  - intros [(k & s & ? & ? & ? & Hd)|[(k & s & t & ? & ? & ? & ? & ?)|(k & s & t & ? & ? & ? & ? & ?)]];
      [left|right; left|right; right]; exists k, s; [|eauto 10..]. rewrite Hd. set_solver.
  - intros [(k & s & ? & [? ?] & Hd)|[(k & s & ? & [? ?] & t & ? & ?)|(k & s & ? & [? ?] & t & ? & ?)]];
      [left|right; left|right; right]; [|eauto 12..]. exists k, s.
    destruct (CompatSessionLookup.device_id s); [|set_solver].
    apply elem_of_singleton in Hd as ->. done.
Qed.

(** A job that syncs the devices of a user tells the homeserver exactly the
    devices of the sessions of the user that are not over, of the three kinds,
    however many pages they take; the database is left as it was. *)
Theorem devices_synced fuel uid w w' :
  integrity (w_committed w) →
  sync_devices_job fuel (SyncDevicesJob.new_for_id uid) w = (Ok (Some tt), w') →
  ∃ u devices, users (w_committed w) !! uid = Some u ∧ w_committed w' = w_committed w ∧
    w_devices w' = w_devices w ++ [SyncDevices (UserLookup.username u) devices] ∧
    ∀ x, x ∈ devices ↔ active_device (w_committed w) uid x.
Proof.
  intros Hint H. unfold sync_devices_job in H. simpl in H.
  apply bind_Ok_inv in H as (x1 & w1 & Hp & H). pose proof (quiet_from_pool w) as Q1.
  apply retry_db_Ok in Hp. rewrite Hp in Q1. apply from_pool_inv in Hp as (T1 & C1 & _).
  apply bind_Ok_inv in H as (user & w2 & Hu & H).
  apply lookup_user_inv in Hu as ((T2 & C2 & _) & Q2 & r & Hr & ->).
  apply bind_Ok_inv in H as (x2 & w3 & Hl & H). pose proof (quiet_query w2) as Q3.
  apply retry_db_Ok in Hl. unfold UserRepository.acquire_lock_for_sync in Hl.
  rewrite Hl in Q3. apply query_inv in Hl as (T3 & C3 & _).
  assert (w_txn w3 = w_committed w) as T by congruence.
  apply bind_Ok_inv in H as ([D1|] & w4 & Hc1 & H); [|done].
  apply collects_compat in Hc1 as ((T4 & C4 & _) & Q4 & HD1); [|by rewrite T].
  apply bind_Ok_inv in H as ([D2|] & w5 & Hc2 & H); [|done].
  apply collects_oauth2 in Hc2 as ((T5 & C5 & _) & Q5 & HD2); [|by rewrite T4, T].
  apply bind_Ok_inv in H as ([D3|] & w6 & Hc3 & H); [|done].
  apply collects_personal in Hc3 as ((T6 & C6 & _) & Q6 & HD3); [|by rewrite T5, T4, T].
  apply bind_Ok_inv in H as (x3 & w7 & [(T7 & C7 & _) Hn]%notify_inv & H).
  apply bind_Ok_inv in H as (x4 & w8 & Hs & [= <-]). apply retry_db_Ok in Hs.
  pose proof (quiet_save w7) as Q8. rewrite Hs in Q8. apply save_inv in Hs as (C8 & _).
  exists r, D3. rewrite T1 in Hr. split_and!; [done|by rewrite C8, T7, T6, T5, T4, T| |].
  - simpl in Q1, Q3, Q8. rewrite (proj1 Q8), Hn, (proj1 Q6), (proj1 Q5), (proj1 Q4), (proj1 Q3), (proj1 Q2).
    by rewrite (proj1 Q1).
  - intros x. rewrite HD3, HD2, HD1, T5, T4, T.
    rewrite <-(users_pkey _ Hint _ _ Hr). change (UserLookup.user_id r) with
      (User.id (UserRepository.of_row r)). rewrite active_device_kinds, elem_of_empty. tauto.
Qed.

(** The rows the three listings meet can be read. *)
Definition sessions_readable (d : Db) (user : User.t) : Prop :=
  Forall (λ r, ∃ a, CompatSessionRepository.try_from r = Ok a)
    (CompatSessionRepository.joined_rows (compat_filter user) d) ∧
  Forall (λ r, ∃ a, SessionRepository.try_from r = Ok a)
    (matching_rows (OAuth2SessionFilter.generate_condition (oauth2_filter user) d) d) ∧
  Forall (λ r, ∃ a, PersonalSessionRepository.try_from_joined r = Ok a)
    (PersonalSessionRepository.joined_rows (personal_filter user) d).

(** When the database and the homeserver answer and the rows of the
    sessions can be read, the three loops of the job end, and with them the
    job, after at most as many turns as there are rows. *)
Theorem sync_devices_ends uid u w :
  integrity (w_committed w) → users (w_committed w) !! uid = Some u →
  w_driver_faults w = [] → w_homeserver_faults w = [] →
  sessions_readable (w_committed w) (UserRepository.of_row u) →
  ∃ turns, ∀ fuel, (turns ≤ fuel)%nat →
    (sync_devices_job fuel (SyncDevicesJob.new_for_id uid) w).1 = Ok (Some tt).
Proof.
  intros Hint Hu Hw Hh (H1 & H2 & H3). set (user := UserRepository.of_row u) in *.
  set (d := w_committed w) in *.
  set (n1 := length (CompatSessionRepository.joined_rows (compat_filter user) d)).
  set (n2 := length (matching_rows (OAuth2SessionFilter.generate_condition (oauth2_filter user) d) d)).
  set (n3 := length (PersonalSessionRepository.joined_rows (personal_filter user) d)).
  exists (S (n1 + n2 + n3)). intros fuel Hf.
  assert (n1 < fuel ∧ n2 < fuel ∧ n3 < fuel)%nat as (L1 & L2 & L3) by lia.
  unfold sync_devices_job, retry_db, lookup_user. simpl.
  set (w1 := set_txn w d).
  assert (retry_db from_pool w = (Ok tt, w1)) as R1.
  { unfold retry_db, mmap_err. by rewrite from_pool_answers. }
  assert (retry_db (UserRepository.lookup uid) w1 = (Ok (Some user), w1)) as R2.
  { unfold retry_db, mmap_err, UserRepository.lookup, bind. rewrite select_answers by done.
    simpl. by rewrite Hu. }
  assert (retry_db (UserRepository.acquire_lock_for_sync user) w1 = (Ok tt, w1)) as R3.
  { unfold retry_db, mmap_err, UserRepository.acquire_lock_for_sync. by rewrite (query_answers w1). }
  destruct (cycle_sessions_answers _ _ _ _ (λ r, compat_row_devices r.1) compat_decode_devices fst
    compat_sessions (compat_active user) compat_row_devices SYNC_PAGE (λ _, eq_refl)
    (λ _, eq_refl) sync_page_ok fuel ∅ w1 (compat_lists user _ Hint) Hw H1) as [D1 R4]; [exact L1|].
  destruct (cycle_sessions_answers _ _ _ _ (λ r, scope_devices (OAuthSessionLookup.scope_list r))
    oauth2_decode_devices (λ r, r) oauth2_sessions (oauth2_active user)
    (λ r, scope_devices (OAuthSessionLookup.scope_list r)) SYNC_PAGE (λ _, eq_refl)
    (λ _, eq_refl) sync_page_ok fuel D1 w1 (oauth2_lists user _ Hint) Hw H2) as [D2 R5]; [exact L2|].
  destruct (cycle_sessions_answers _ _ _ _ (λ r, scope_devices (PersonalSessionLookup.scope_list r.1))
    personal_decode_devices fst personal_sessions (personal_active user)
    (λ r, scope_devices (PersonalSessionLookup.scope_list r)) SYNC_PAGE (λ _, eq_refl)
    (λ _, eq_refl) sync_page_ok fuel D2 w1 (personal_lists user _ Hint) Hw H3) as [D3 R6]; [exact L3|].
  rewrite (bind_run_Ok _ _ _ _ _ R1). unfold bind at 1. rewrite (bind_run_Ok _ _ _ _ _ R2). simpl.
  rewrite (bind_run_Ok _ _ _ _ _ R3).
  unfold CompatSessionRepository.list, SessionListing.list, PersonalSessionRepository.list.
  rewrite (bind_run_Ok _ _ _ _ _ R4), (bind_run_Ok _ _ _ _ _ R5), (bind_run_Ok _ _ _ _ _ R6).
  unfold retry_homeserver, mmap_err, homeserver_call, bind. simpl. rewrite Hh. simpl.
  unfold save, bind. by rewrite query_answers.
Qed.
End SyncJob.
