(* ===== verification/DeactivationFacts.v ===== *)
(** * Correctness of the tasks: deactivation of a user *)

From stdpp Require Import base tactics list strings gmap sorting.
From Stdlib Require Import ZArith Lia.
From S2P Require Import Prelude Text Scope Externals Formats Pagination TokenFormat DataModel CompatModel Storage QueueRepo QueueWorker TokenRepo GrantRepo UserRepo CompatRepo PersonalRepo Jobs Tasks RepoFacts CompatRepoFacts Integrity Stored ListingFacts QueueFacts Scenario TaskFacts.
#[local] Open Scope Z_scope.

(** ** Rows that are ended *)

(** The rows of [mine] are over, those that were over already and those of
    the others are as before. *)
Definition ended {Row} (mine over : Row → Prop) (m m' : gmap Z Row) : Prop :=
  ∀ k, match m !! k, m' !! k with
       | None, None => True
       | Some r, Some r' => (mine r → over r') ∧ (¬ mine r ∨ over r → r' = r)
       | _, _ => False
       end.

Section Ended.
Context {Row : Type} (mine over : Row → Prop).
Implicit Types m : gmap Z Row.

(** An [UPDATE] of the rows that are not over. *)
Lemma ended_set (p : Row → bool) (f : Row → Row) m :
  (∀ k r, m !! k = Some r → p r = true ↔ mine r ∧ ¬ over r) →
  (∀ r, over r ∨ ¬ over r) → (∀ r, over (f r)) →
  ended mine over m ((λ r, if p r then f r else r) <$> m).
Proof.
  intros Hp Hdec Hf k. rewrite lookup_fmap. destruct (m !! k) as [r|] eqn:Hk; [|done]. simpl.
  specialize (Hp k r Hk). destruct (p r).
  - destruct Hp as [[Hm Ho] _]; [done|]. split; [done|]. tauto.
  - split; [|done]. intros Hm. destruct (Hdec r) as [|Ho]; [done|].
    discriminate (proj2 Hp (conj Hm Ho)).
Qed.

(** One row. *)
Lemma ended_row (f : Row → Row) m k r :
  m !! k = Some r → (∀ k' r', m !! k' = Some r' → mine r' ↔ k' = k) → ¬ over r → over (f r) →
  ended mine over m (<[k := f r]> m).
Proof.
  intros Hk Hm Ho Hf k'. destruct (decide (k' = k)) as [->|Hne].
  - rewrite lookup_insert_eq, Hk. split; [done|]. intros [Hn|]; [|done].
    by destruct Hn; apply (Hm k).
  - rewrite lookup_insert_ne by done. destruct (m !! k') as [r'|] eqn:Hr; [|done].
    split; [|done]. intros ?%(Hm _ _ Hr). done.
Qed.

Lemma ended_done m k r :
  m !! k = Some r → (∀ k' r', m !! k' = Some r' → mine r' ↔ k' = k) → over r →
  ended mine over m m.
Proof.
  intros Hk Hm Ho k'. destruct (m !! k') as [r'|] eqn:Hr; [|done]. split; [|done].
  intros ->%(Hm _ _ Hr). congruence.
Qed.
End Ended.

(** The union of two sets of rows, one after the other. *)
Lemma ended_two {Row} (mine1 mine2 over : Row → Prop) (m m1 m2 : gmap Z Row) :
  (∀ r, over r ∨ ¬ over r) → (∀ r, mine1 r ∨ ¬ mine1 r) →
  ended mine1 over m m1 → ended mine2 over m1 m2 →
  ended (λ r, mine1 r ∨ mine2 r) over m m2.
Proof.
  intros Hover Hmine H1 H2 k. specialize (H1 k). specialize (H2 k).
  destruct (m !! k) as [r|], (m1 !! k) as [r1|], (m2 !! k) as [r2|]; try done.
  destruct H1 as [H1 H1'], H2 as [H2 H2']. split.
  - intros Hm. destruct (Hover r1) as [Ho|Ho].
    { rewrite H2' by by right. done. }
    assert (¬ mine1 r) as Hn by auto.
    destruct Hm as [Hm|Hm]; [done|]. apply H2. by rewrite (H1' (or_introl Hn)).
  - intros Hr. assert (r1 = r) as -> by (apply H1'; tauto). apply H2'. tauto.
Qed.

(** ** The transaction *)

(** The addresses of a user. *)
Definition addresses_of (uid : Ulid) (d : Db) : list Ulid :=
  UserEmailLookup.user_email_id
    <$> matching_rows (λ r, bool_decide (UserEmailLookup.user_id r = uid)) d.

(** The sessions, tokens and addresses of the user in the next database; the
    other tables are untouched. *)
Record locked_out (d d' : Db) (uid : Ulid) : Prop := {
  lo_user : ended (λ u, UserLookup.user_id u = uid) (λ u, is_Some (UserLookup.deactivated_at u))
    (users d) (users d');
  lo_browser : ended (λ s, UserSessionRow.user_id s = uid)
    (λ s, is_Some (UserSessionRow.finished_at s)) (user_sessions d) (user_sessions d');
  lo_oauth2 : ended (λ s, OAuthSessionLookup.user_id s = Some uid)
    (λ s, is_Some (OAuthSessionLookup.finished_at s)) (oauth2_sessions d) (oauth2_sessions d');
  lo_compat : ended (λ s, CompatSessionLookup.user_id s = uid)
    (λ s, is_Some (CompatSessionLookup.finished_at s)) (compat_sessions d) (compat_sessions d');
  lo_personal : ended (λ s, PersonalSessionLookup.actor_user_id s = uid ∨
      PersonalSessionLookup.owner_user_id s = Some uid)
    (λ s, is_Some (PersonalSessionLookup.revoked_at s)) (personal_sessions d)
    (personal_sessions d');
  lo_emails : user_emails d' = filter (λ kr, UserEmailLookup.user_id kr.2 ≠ uid) (user_emails d);
  lo_tickets : user_recovery_tickets (accounts d') =
    filter (λ kr, UserRecoveryTicketRow.user_email_id kr.2 ∉ addresses_of uid d)
      (user_recovery_tickets (accounts d));
  lo_threepids : user_unsupported_third_party_ids d' =
    filter (λ kr, kr.1.1.1 ≠ uid) (user_unsupported_third_party_ids d);
  lo_others : d' = set_third_party_ids (user_unsupported_third_party_ids d')
    (set_rows (user_emails d') (set_rows (user_recovery_tickets (accounts d'))
      (set_rows (personal_sessions d') (set_rows (compat_sessions d')
        (set_rows (oauth2_sessions d') (set_rows (user_sessions d') (set_rows (users d') d)))))));
}.

Section Conditions.
Context (user : User.t).

Definition browser_filter : BrowserSessionFilter.t :=
  BrowserSessionFilter.active_only (BrowserSessionFilter.for_user user BrowserSessionFilter.new).
Definition owner_filter : PersonalSessionFilter.t :=
  PersonalSessionFilter.active_only
    (PersonalSessionFilter.for_owner_user user PersonalSessionFilter.new).

Lemma browser_condition r :
  BrowserSessionFilter.generate_condition browser_filter r = true ↔
  UserSessionRow.user_id r = User.id user ∧ ¬ is_Some (UserSessionRow.finished_at r).
Proof.
  unfold BrowserSessionFilter.generate_condition. simpl.
  rewrite !andb_true_r, andb_true_iff, bool_decide_eq_true, <-eq_None_not_Some.
  destruct (UserSessionRow.finished_at r); intuition done.
Qed.
Lemma owner_condition (r : PersonalSessionRepository.PersonalSessionAndAccessTokenLookup) :
  PersonalSessionFilter.generate_condition owner_filter r = true ↔
  PersonalSessionLookup.owner_user_id r.1 = Some (User.id user) ∧
  PersonalSessionLookup.revoked_at r.1 = None.
Proof.
  destruct r as [r o]. unfold PersonalSessionFilter.generate_condition. simpl.
  rewrite !andb_true_r, andb_true_iff, bool_decide_eq_true.
  destruct (PersonalSessionLookup.revoked_at r); intuition done.
Qed.
End Conditions.

(** The sessions a bulk revocation names are those that match. *)
Lemma personal_joined_ids filter (active : PersonalSessionLookup.t → Prop) d k s :
  keyed PersonalSessionLookup.personal_session_id (personal_sessions d) →
  (∀ r, PersonalSessionFilter.generate_condition filter r = true ↔ active r.1) →
  personal_sessions d !! k = Some s →
  PersonalSessionLookup.personal_session_id s ∈
    (λ r : PersonalSessionRepository.PersonalSessionAndAccessTokenLookup,
       PersonalSessionLookup.personal_session_id r.1) <$>
      PersonalSessionRepository.joined_rows filter d ↔ active s.
Proof.
  intros Hk Hc Hs. destruct (joined_lists (Table0 := personal_sessions_table)
    PersonalSessionLookup.personal_session_id
    PersonalSessionRepository.left_join (λ _, PersonalSessionFilter.generate_condition filter)
    active d Hk Hc) as [Hin Hhas].
  - apply personal_join_left.
  - apply personal_join_total.
  - rewrite list_elem_of_fmap. split.
    + intros (r & Hid & Hr). apply Hin in Hr as [Hr Ha]. simpl in Hr.
      rewrite <-Hid, (Hk _ _ Hs), Hs in Hr. by simplify_eq.
    + intros Ha. destruct (Hhas k s Hs Ha) as (r & Hr & <-). by exists r.
Qed.

#[export] Hint Unfold UserEmailRepository.remove_bulk UserEmailRepository.add
  UserEmailRepository.remove UserEmailRepository.all delete_unsupported_threepids : mas_ops.

Section Deactivation.
Context {R : Type} `{!RngCore R} {ulid_text : UlidText} {chrono : ChronoText}
  {url_lib : UrlLib} {pg_text : PgText} {collation : PgCollation} {texts : ErrorTexts}.
Implicit Types w : World R.

(** What the statements of the transaction do to the tables. *)
Definition user_row_closed (d : Db) (uid : Ulid) (m : gmap Z UserLookup.t) : Prop :=
  ∃ u, users d !! uid = Some u ∧
    (is_Some (UserLookup.deactivated_at u) ∧ m = users d ∨
     UserLookup.deactivated_at u = None ∧
     ∃ t, m = <[uid := UserRepository.with_deactivated_at (Some t) u]> (users d)).

Lemma deactivate_inv r w u w' :
  keyed UserLookup.user_id (users (w_txn w)) →
  users (w_txn w) !! UserLookup.user_id r = Some r →
  UserRepository.deactivate (UserRepository.of_row r) w = (Ok u, w') →
  User.id u = UserLookup.user_id r ∧ User.username u = UserLookup.username r ∧
  ∃ m, user_row_closed (w_txn w) (UserLookup.user_id r) m ∧ w_txn w' = set_rows m (w_txn w).
Proof.
  intros Hk Hr H. unfold UserRepository.deactivate in H. simpl in H. case_bool_decide as Hd.
  - injection H as <- <-. split_and!; [done..|]. exists (users (w_txn w)). split.
    + exists r. auto.
    + by destruct (w_txn w).
  - apply bind_Ok_inv in H as (t & w1 & (_ & T1 & _)%now_inv & H).
    apply bind_Ok_inv in H as (k & w2 & (Hs & _)%execute_inv & H).
    apply bind_Ok_inv in H as (x & w3 & [He <-]%lift_inv & [= <- <-]).
    apply eq_sym, ensure_affected_rows_inv in He as ->. split_and!; [done..|].
    rewrite T1 in Hs. apply update_row_where_inv in Hs as [(r' & Hr' & _ & _ & Hd')|[? _]]; [|done].
    simpl in Hr', Hd'. rewrite Hr in Hr'. injection Hr' as <-.
    eexists. split; [|exact Hd']. exists r. split; [done|]. right.
    rewrite <-eq_None_not_Some in Hd. split; [done|by exists t].
Qed.

Lemma browser_finish_bulk_inv f w n w' :
  BrowserSessionRepository.finish_bulk f w = (Ok n, w') →
  ∃ t, w_txn w' = set_rows
      ((λ r, if BrowserSessionFilter.generate_condition f r
             then BrowserSessionRepository.with_finished_at t r else r)
         <$> user_sessions (w_txn w)) (w_txn w).
Proof.
  intros (t & w1 & (_ & T1 & _)%now_inv & (Hs & _)%execute_inv)%bind_Ok_inv.
  rewrite T1 in Hs. injection Hs as _ <-. by exists t.
Qed.

Lemma personal_revoke_bulk_inv f (active : PersonalSessionLookup.t → Prop) w n w' :
  keyed PersonalSessionLookup.personal_session_id (personal_sessions (w_txn w)) →
  (∀ r, PersonalSessionFilter.generate_condition f r = true ↔
     active r.1 ∧ ¬ is_Some (PersonalSessionLookup.revoked_at r.1)) →
  PersonalSessionRepository.revoke_bulk f w = (Ok n, w') →
  ∃ m, ended active (λ s, is_Some (PersonalSessionLookup.revoked_at s))
      (personal_sessions (w_txn w)) m ∧
    keyed PersonalSessionLookup.personal_session_id m ∧ w_txn w' = set_rows m (w_txn w).
Proof.
  intros Hk Hc (t & w1 & (_ & T1 & _)%now_inv & (Hs & _)%execute_inv)%bind_Ok_inv.
  rewrite T1 in Hs. injection Hs as _ <-. eexists. split_and!; [| |done].
  - apply ended_set; [|intros s; destruct (PersonalSessionLookup.revoked_at s); auto|by intros].
    intros k s Hs. rewrite bool_decide_eq_true.
    exact (personal_joined_ids f (λ s, active s ∧ ¬ is_Some (PersonalSessionLookup.revoked_at s))
      (w_txn w) k s Hk Hc Hs).
  - apply keyed_fmap; [done|]. intros s. by case_match.
Qed.

(** A column of dates tells whether a row is over. *)
Lemma dec_over {Row} (col : Row → option DateTime) r : is_Some (col r) ∨ ¬ is_Some (col r).
Proof. destruct (col r); [left|right]; [done | by intros []]. Qed.

Lemma user_row_ended d uid m :
  keyed UserLookup.user_id (users d) → user_row_closed d uid m →
  ended (λ u, UserLookup.user_id u = uid) (λ u, is_Some (UserLookup.deactivated_at u)) (users d) m.
Proof.
  intros Hk (u & Hu & Hm).
  assert (∀ k r, users d !! k = Some r → UserLookup.user_id r = uid ↔ k = uid) as Hid
    by (intros k r Hr; by rewrite (Hk _ _ Hr)).
  destruct Hm as [[Hd ->]|(Hd & t & ->)].
  - by eapply ended_done.
  - apply ended_row; [done..| |done]. simpl. rewrite Hd. by intros [].
Qed.

(** The bulk updates end the sessions of the user. *)
Lemma browser_ended u t m :
  ended (λ s, UserSessionRow.user_id s = User.id u) (λ s, is_Some (UserSessionRow.finished_at s)) m
    ((λ r, if BrowserSessionFilter.generate_condition (browser_filter u) r
           then BrowserSessionRepository.with_finished_at t r else r) <$> m).
Proof.
  apply ended_set; [|intros; apply dec_over|by intros]. intros k r _. apply browser_condition.
Qed.
Lemma oauth2_ended u t d m :
  ended (λ s, OAuthSessionLookup.user_id s = Some (User.id u))
    (λ s, is_Some (OAuthSessionLookup.finished_at s)) m
    ((λ r, if OAuth2SessionFilter.generate_condition (oauth2_filter u) d r
           then SessionRepository.with_finished_at t r else r) <$> m).
Proof.
  apply ended_set; [|intros; apply dec_over|by intros]. intros k r _.
  rewrite <-eq_None_not_Some. apply oauth2_condition.
Qed.
Lemma compat_ended u t d m :
  ended (λ s, CompatSessionLookup.user_id s = User.id u)
    (λ s, is_Some (CompatSessionLookup.finished_at s)) m
    ((λ r, if CompatSessionFilter.generate_condition (compat_filter u) None d r
           then CompatSessionRepository.with_finished_at t r else r) <$> m).
Proof.
  apply ended_set; [|intros; apply dec_over|by intros]. intros k r _.
  rewrite <-eq_None_not_Some. apply compat_condition.
Qed.

Lemma matching_rows_ext {Row} `{!Table Row} (p q : Row → bool) d :
  (∀ r, p r = q r) → matching_rows p d = matching_rows q d.
Proof. intros H. apply list_filter_iff. intros r. by rewrite H. Qed.

Lemma delete_emails_run p d n d' :
  UserEmailRepository.delete_emails_stmt p d = Some (n, d') →
  d' = set_rows (filter (λ kr, p kr.2 = false) (user_emails d))
    (set_rows (filter (λ kr, UserRecoveryTicketRow.user_email_id kr.2
                             ∉ UserEmailLookup.user_email_id <$> matching_rows p d)
                 (user_recovery_tickets (accounts d))) d).
Proof. by intros [= _ <-]. Qed.

Lemma email_remove_bulk_inv u w n w' :
  UserEmailRepository.remove_bulk (UserEmailFilter.for_user u UserEmailFilter.new) w = (Ok n, w') →
  w_txn w' = set_rows (filter (λ kr, UserEmailLookup.user_id kr.2 ≠ User.id u)
                         (user_emails (w_txn w)))
    (set_rows (filter (λ kr, UserRecoveryTicketRow.user_email_id kr.2
                               ∉ addresses_of (User.id u) (w_txn w))
                 (user_recovery_tickets (accounts (w_txn w)))) (w_txn w)).
Proof.
  intros (->%delete_emails_run & _)%execute_inv.
  assert (∀ r, UserEmailFilter.generate_condition
                 (UserEmailFilter.for_user u UserEmailFilter.new) r
               = bool_decide (UserEmailLookup.user_id r = User.id u)) as Hc.
  { intros r. unfold UserEmailFilter.generate_condition. simpl. by rewrite andb_true_r. }
  unfold addresses_of. rewrite (matching_rows_ext _ _ _ Hc). f_equal.
  apply map_filter_ext. intros k r _. simpl. by rewrite Hc, bool_decide_eq_false.
Qed.

(** The tables one after the other. *)
Lemma locked_out_intro d uid mu mb mo mc mp :
  ended (λ u, UserLookup.user_id u = uid) (λ u, is_Some (UserLookup.deactivated_at u))
    (users d) mu →
  ended (λ s, UserSessionRow.user_id s = uid) (λ s, is_Some (UserSessionRow.finished_at s))
    (user_sessions d) mb →
  ended (λ s, OAuthSessionLookup.user_id s = Some uid)
    (λ s, is_Some (OAuthSessionLookup.finished_at s)) (oauth2_sessions d) mo →
  ended (λ s, CompatSessionLookup.user_id s = uid)
    (λ s, is_Some (CompatSessionLookup.finished_at s)) (compat_sessions d) mc →
  ended (λ s, PersonalSessionLookup.actor_user_id s = uid ∨
      PersonalSessionLookup.owner_user_id s = Some uid)
    (λ s, is_Some (PersonalSessionLookup.revoked_at s)) (personal_sessions d) mp →
  locked_out d (set_third_party_ids (filter (λ kr, kr.1.1.1 ≠ uid) (user_unsupported_third_party_ids d))
    (set_rows (filter (λ kr, UserEmailLookup.user_id kr.2 ≠ uid) (user_emails d))
    (set_rows (filter (λ kr, UserRecoveryTicketRow.user_email_id kr.2 ∉ addresses_of uid d)
                 (user_recovery_tickets (accounts d)))
    (set_rows mp (set_rows mc (set_rows mo (set_rows mb (set_rows mu d)))))))) uid.
Proof. by intros; split. Qed.

Lemma lock_out_inv job w u w' :
  integrity (w_committed w) → lock_out job w = (Ok u, w') →
  ∃ r, users (w_committed w) !! DeactivateUserJob.user_id job = Some r ∧
    User.username u = UserLookup.username r ∧
    locked_out (w_committed w) (w_committed w') (DeactivateUserJob.user_id job).
Proof.
  intros Hint H. unfold lock_out in H. minv H.
  repeat match goal with Hr : retry_db _ _ = _ |- _ => apply retry_db_Ok in Hr end.
  apply from_pool_inv in Hm as (T1 & C1 & _).
  apply lookup_user_inv in Hm0 as ((T2 & C2 & _) & _ & r & Hr & ->).
  apply mmap_err_Ok_inv in Hm1. rewrite <-T1 in Hint. rewrite <-T2 in Hint, Hr.
  pose proof (users_pkey _ Hint _ _ Hr) as Hid. rewrite <-Hid in *.
  apply deactivate_inv in Hm1 as (Hu & Hn & m & Hm' & T3); [|apply Hint|done].
  apply browser_finish_bulk_inv in Hm2 as (t4 & T4).
  apply session_finish_bulk_inv in Hm3 as (t5 & T5 & _).
  apply compat_session_finish_bulk_inv in Hm4 as (t6 & T6 & _).
  set (d := w_txn w1) in *.
  apply (personal_revoke_bulk_inv _ (λ s, PersonalSessionLookup.actor_user_id s = User.id u)) in Hm5
    as (m7 & E7 & K7 & T7); [| |intros x; rewrite <-eq_None_not_Some; apply (personal_condition u)];
    [|rewrite T6, T5, T4, T3; apply Hint].
  apply (personal_revoke_bulk_inv _ (λ s, PersonalSessionLookup.owner_user_id s = Some (User.id u)))
    in Hm6 as (m8 & E8 & _ & T8); [|by rewrite T7|intros x; rewrite <-eq_None_not_Some; apply (owner_condition u)].
  apply email_remove_bulk_inv in Hm7. apply execute_inv in Hm8 as ([= _ T10] & _).
  apply save_inv in Hm9 as [-> _]. exists r. rewrite <-T1, <-T2. split_and!; [done..|].
  rewrite T3 in T4. rewrite T4 in T5. rewrite T5 in T6. rewrite T6 in T7, E7. rewrite T7 in T8, E8.
  rewrite T8 in Hm7. rewrite Hm7 in T10. rewrite <-T10. rewrite <-Hu in *.
  refine (locked_out_intro d _ m _ _ _ m8 (user_row_ended _ _ _ (users_pkey _ Hint) Hm') _ _ _ _).
  - apply browser_ended.
  - apply oauth2_ended.
  - apply compat_ended.
  - refine (ended_two _ _ _ _ _ _ (dec_over _) _ E7 E8). intros s.
    destruct (decide (PersonalSessionLookup.actor_user_id s = User.id u)); auto.
Qed.

(** ** When the database and the homeserver answer *)

Definition calm w : Prop := w_driver_faults w = [] ∧ w_homeserver_faults w = [].

Definition answers {E A} (m : M (World R) E A) : Prop :=
  ∀ w, calm w → ∃ a w', m w = (Ok a, w') ∧ calm w'.

Lemma answers_bind {E A B} (m : M (World R) E A) (f : A → M (World R) E B) :
  answers m → (∀ a, answers (f a)) → answers (bind m f).
Proof.
  intros Hm Hf w Hw. destruct (Hm w Hw) as (a & w1 & H1 & Hw1).
  rewrite (bind_run_Ok _ _ _ _ _ H1). by apply Hf.
Qed.
Lemma answers_ret {E A} (a : A) : answers (E := E) (ret a).
Proof. intros w Hw. by exists a, w. Qed.
Lemma answers_retry {A} (m : M (World R) DatabaseError A) : answers m → answers (retry_db m).
Proof.
  intros Hm w Hw. destruct (Hm w Hw) as (a & w' & H & Hw'). exists a, w'.
  unfold retry_db, mmap_err. by rewrite H.
Qed.
Lemma answers_now {E} : answers (@now R E).
Proof. intros w Hw. by eexists _, _. Qed.
Lemma answers_query : answers (@query R).
Proof. intros w [Hw Hh]. unfold query. rewrite Hw. eexists _, _. split; [done|]. by split; simpl; rewrite ?Hw. Qed.
Lemma answers_execute stmt : (∀ d, is_Some (stmt d)) → answers (@execute R stmt).
Proof.
  intros Hs. apply answers_bind; [apply answers_query|]. intros _ w Hw.
  destruct (Hs (w_txn w)) as [[n d] ->]. by eexists _, _.
Qed.
Lemma answers_save : answers (@save R).
Proof. apply answers_bind; [apply answers_query|]. intros _ w Hw. by eexists _, _. Qed.
Lemma answers_call c : answers (retry_homeserver (@homeserver_call R c)).
Proof.
  intros w [Hw Hh]. unfold retry_homeserver, mmap_err, homeserver_call. rewrite Hh.
  eexists _, _. split; [done|]. split; simpl; by rewrite ?Hh.
Qed.

Lemma lock_out_answers job w u :
  calm w → users (w_committed w) !! DeactivateUserJob.user_id job = Some u →
  keyed UserLookup.user_id (users (w_committed w)) →
  ∃ a w', lock_out job w = (Ok a, w') ∧ calm w'.
Proof.
  intros [Hw Hh] Hu Hk. unfold lock_out. set (w1 := set_txn w (w_committed w)).
  assert (retry_db from_pool w = (Ok tt, w1)) as R1.
  { unfold retry_db, mmap_err. by rewrite from_pool_answers. }
  rewrite (bind_run_Ok _ _ _ _ _ R1).
  assert (lookup_user (DeactivateUserJob.user_id job) w1 = (Ok (UserRepository.of_row u), w1))
    as R2.
  { unfold lookup_user, bind, retry_db, mmap_err, UserRepository.lookup, bind.
    rewrite select_answers by done. simpl. by rewrite Hu. }
  rewrite (bind_run_Ok _ _ _ _ _ R2).
  match goal with |- ∃ a w', bind ?m ?f w1 = _ ∧ _ =>
    assert (∃ a w', m w1 = (Ok a, w') ∧ calm w') as (u' & w2 & R3 & Hw2) end.
  { unfold mmap_err, UserRepository.deactivate. simpl. case_bool_decide as Hd; [by eexists _, _|].
    unfold bind, now, execute, bind. rewrite query_answers by done.
    unfold update_row_where_stmt. simpl. rewrite (Hk _ _ Hu), Hu.
    rewrite <-eq_None_not_Some in Hd. rewrite bool_decide_true by done. by eexists _, _. }
  rewrite (bind_run_Ok _ _ _ _ _ R3). clear R3. revert w2 Hw2.
  match goal with |- ∀ w2, calm w2 → ∃ a w', ?m w2 = _ ∧ _ => change (answers m) end.
  repeat (apply answers_bind; [apply answers_retry | intros ?]);
    try apply answers_ret; try apply answers_save; try (by apply answers_execute; eexists);
    apply answers_bind; try apply answers_now; intros ?; by apply answers_execute; eexists.
Qed.

Lemma lock_out_quiet job : keeps quiet (lock_out (R := R) job).
Proof. unfold lock_out. keeps_tac. Qed.
Lemma lock_out_err job : err_keeps same_committed (lock_out (R := R) job).
Proof. unfold lock_out. err_tac. Qed.

(** C15: the deactivation of a user either commits nothing, or it commits that
    the user is deactivated, that every browser, OAuth 2.0, compatibility and
    personal session of the user (those it acts as and those it owns) is over,
    and that its addresses are gone, with nothing of anybody else changed; only
    then is the homeserver told, and when that fails the job is to be tried
    again.  When the database and the homeserver answer, it succeeds. *)
Theorem deactivation_locks_out job w r w' :
  integrity (w_committed w) → deactivate_user_job job w = (r, w') →
  let uid := DeactivateUserJob.user_id job in
  (is_ok r = false ∧ w_committed w' = w_committed w ∧ w_devices w' = w_devices w ∨
   locked_out (w_committed w) (w_committed w') uid ∧
   ∃ u, users (w_committed w) !! uid = Some u ∧
     (r = Ok tt ∧ w_devices w' = w_devices w ++
        [DeleteUser (UserLookup.username u) (DeactivateUserJob.hs_erase job)] ∨
      (∃ e, r = Err e ∧ decision e = Retry) ∧ w_devices w' = w_devices w)) ∧
  (calm w → is_Some (users (w_committed w) !! uid) → r = Ok tt).
Proof.
  intros Hint H uid. unfold deactivate_user_job in H.
  destruct (lock_out job w) as [[u|e] w1] eqn:Hl.
  - rewrite (bind_run_Ok _ _ _ _ _ Hl) in H.
    pose proof (keeps_run quiet _ _ _ _ (lock_out_quiet job) Hl) as [Q _].
    pose proof (lock_out_inv _ _ _ _ Hint Hl) as (row & Hrow & Hn & Hlo).
    unfold retry_homeserver, mmap_err, homeserver_call in H. split.
    + right. destruct (w_homeserver_faults w1) as [|[] ?]; injection H as <- <-;
        (split; [done|]); exists row; (split; [done|]); simpl; rewrite ?Q, ?Hn; eauto.
    + intros Hc [u' Hu]. destruct (lock_out_answers job w u' Hc Hu) as (a & w2 & Ha & _ & Hh);
        [apply Hint|]. rewrite Hl in Ha. injection Ha as <- <-. rewrite Hh in H. by injection H.
  - unfold bind in H. rewrite Hl in H. injection H as <- <-. split.
    + left. pose proof (lock_out_err job w) as He. pose proof (lock_out_quiet job w) as Hq.
      rewrite Hl in He, Hq. destruct (He e w1 eq_refl) as [? _], Hq. done.
    + intros Hc [u' Hu]. destruct (lock_out_answers job w u' Hc Hu) as (a & w2 & Ha & _);
        [apply Hint|]. by rewrite Hl in Ha.
Qed.
End Deactivation.

(** ** Jobs that are lost *)

Section LostJobs.
Context {R : Type} `{!RngCore R} {ulid_text : UlidText} {chrono : ChronoText}
  {texts : ErrorTexts}.

(** A job that provisions or deletes a device commits nothing, even when it
    succeeds: the synchronisation it schedules is lost with its transaction,
    and the homeserver is not told anything. *)
Theorem device_jobs_lost user device (w : World R) :
  let provision := (provision_device_job (ProvisionDeviceJob.mk user device) w).2 in
  let delete := (delete_device_job (DeleteDeviceJob.mk user device) w).2 in
  w_committed provision = w_committed w ∧ w_devices provision = w_devices w ∧
  w_committed delete = w_committed w ∧ w_devices delete = w_devices w.
Proof.
  assert (keeps same_committed (provision_device_job (R := R) (ProvisionDeviceJob.mk user device)) ∧
    keeps quiet (provision_device_job (R := R) (ProvisionDeviceJob.mk user device))) as [Hc Hq].
  { unfold provision_device_job. split; keeps_tac. }
  destruct (Hc w) as [? _], (Hq w) as [? _]. done.
Qed.
End LostJobs.

(** ** Examples *)
Module TaskExample.
Import Scenario.

(** The user of the scenario has a session on a device. *)
Definition device_session : CompatSessionLookup.t :=
  CompatSessionLookup.mk 10 (Some "PHONE") None 2 None 0 None false None None None.
Definition session_db : Db := set_rows {[10 := device_session]} db.
Definition task_world : World Z := world session_db 0 0.

Lemma integrity_session_db : integrity session_db.
Proof.
  split; intros k *; simpl; intros;
    repeat match goal with
      | H : {[_ := _]} !! _ = Some _ |- _ => apply lookup_singleton_Some in H as [<- <-]
      | H : ∅ !! _ = Some _ |- _ => by rewrite lookup_empty in H
      end; try done; simplify_eq/=; vm_compute; eauto.
Qed.

Example device_reported :
  w_devices (sync_devices_job 3 (SyncDevicesJob.new_for_id 2) task_world).2 =
  [SyncDevices "alice" {["PHONE"]}].
Proof. vm_compute. reflexivity. Qed.

Lemma devices_synced_witness :
  ∃ u devices, users session_db !! 2 = Some u ∧
    w_committed (sync_devices_job 3 (SyncDevicesJob.new_for_id 2) task_world).2 = session_db ∧
    w_devices (sync_devices_job 3 (SyncDevicesJob.new_for_id 2) task_world).2 =
      [SyncDevices (UserLookup.username u) devices] ∧
    ∀ x, x ∈ devices ↔ active_device session_db 2 x.
Proof.
  apply (devices_synced 3 2 task_world).
  - apply integrity_session_db.
  - apply fst_run. vm_compute. reflexivity.
Defined.

Lemma sync_devices_ends_witness :
  ∃ turns, ∀ fuel, (turns ≤ fuel)%nat →
    (sync_devices_job fuel (SyncDevicesJob.new_for_id 2) task_world).1 = Ok (Some tt).
Proof.
  apply (sync_devices_ends 2 user task_world).
  - apply integrity_session_db.
  - reflexivity.
  - reflexivity.
  - reflexivity.
  - split_and!; vm_compute; repeat constructor; eauto.
Defined.

Lemma deactivation_locks_out_witness :
  (deactivate_user_job (DeactivateUserJob.mk 2 true) task_world).1 = Ok tt.
Proof.
  refine (proj2 (deactivation_locks_out (DeactivateUserJob.mk 2 true) task_world _
    (deactivate_user_job (DeactivateUserJob.mk 2 true) task_world).2 _ _) _ _).
  - apply integrity_session_db.
  - by destruct (deactivate_user_job _ _).
  - done.
  - vm_compute. eauto.
Defined.
End TaskExample.
