(* ===== verification/TokenFacts.v ===== *)
(** * Correctness of the token endpoint

    What a successful or a refused request to crates/handlers/src/oauth2/token.rs
    does to the database. *)

From stdpp Require Import base tactics list strings gmap.
From Stdlib Require Import ZArith Lia Ascii.
From S2P Require Import Prelude Text Scope Externals Formats TokenFormat DataModel Storage TokenRepo GrantRepo QueueRepo UserRepo ClientAuth TokenEndpoint RepoFacts Integrity Evolution.

#[export] Hint Unfold repo require guard record_oauth2_session generate_id_token
  generate_token_pair device_name_for record_user_agent_opt check_pkce
  check_double_refresh revoke_previous_access_token refresh_token_grant
  client_credentials_grant device_code_grant fulfilled_device_grant refreshed_session
  authenticate fetch : mas_ops.

Section Runs.
Context {R : Type} `{!RngCore R} {crc : Crc} {base64 : Base64} {sha2 : Sha2}
  {ulid_text : UlidText} {url_lib : UrlLib} {jwks_json : JwksJson}
  {client_crypto : ClientCrypto} {policy : Policy} {templates : Templates}
  {keystore : Keystore R}.
Implicit Types w : World R.

(** ** Reads and checks of the handlers *)

Lemma guard_inv c e w u w' : guard c e w = (Ok u, w') → c = true ∧ w' = w.
Proof. unfold guard. destruct c; [by intros [= <- <-] | done]. Qed.

Lemma require_inv {A} (o : option A) e w a w' :
  require o e w = (Ok a, w') → o = Some a ∧ w' = w.
Proof. unfold require, lift, ok_or. destruct o; naive_solver. Qed.

Lemma record_activity_inv {E} ip s w u w' :
  record_oauth2_session (E := E) ip s w = (Ok u, w') → same_db w w'.
Proof. intros H. op_inv H. injection H as <- <-. same_world. Qed.

Lemma homeserver_call_inv c w u w' : homeserver_call c w = (Ok u, w') → same_db w w'.
Proof.
  unfold homeserver_call. destruct (w_homeserver_faults w) as [|[] ?]; intros [= <- <-]; done.
Qed.

Lemma upsert_device_inv u dev n w x w' : upsert_device u dev n w = (Ok x, w') → same_db w w'.
Proof. by intros H%mmap_err_Ok_inv%homeserver_call_inv. Qed.

Lemma provision_devices_inv u n scope w x w' :
  provision_devices u n scope w = (Ok x, w') → same_db w w'.
Proof.
  revert w. induction scope as [|t scope IH]; intros w; simpl; [by intros [= <- <-]|].
  destruct (Device.from_scope_token t); [|apply IH].
  intros (? & w1 & H%upsert_device_inv & ?%IH)%bind_Ok_inv. by transitivity w1.
Qed.

Lemma device_name_inv l c ua w n w' : device_name_for l c ua w = (Ok n, w') → w' = w.
Proof.
  unfold device_name_for.
  intros (? & ? & [_ ->]%guard_inv & [_ ->]%require_inv)%bind_Ok_inv. done.
Qed.

Lemma generate_id_token_inv c g b a l w t w' :
  generate_id_token c g b a l w = (Ok t, w') → same_db w w'.
Proof. intros H. op_inv H. subst. same_world. Qed.

Lemma user_agent_inv s ua w s' w' :
  record_user_agent_opt s ua w = (Ok s', w') →
  s' = match ua with Some a => Session.with_user_agent s (Some a) | None => s end ∧
  match ua with
  | None => w' = w
  | Some a => ∃ r, oauth2_sessions (w_txn w) !! Session.id s = Some r ∧
      w_txn w' = set_rows (<[Session.id s := SessionRepository.with_user_agent a r]>
                             (oauth2_sessions (w_txn w))) (w_txn w) ∧
      same_committed w w'
  end.
Proof.
  destruct ua as [a|]; simpl; [|by intros [= <- <-]].
  intros (r & ? & -> & ? & ?)%mmap_err_Ok_inv%session_user_agent_inv. eauto.
Qed.

(** ** Relations every request keeps *)

Lemma keeps_weaken {E A} (Q Q' : World R → World R → Prop) (m : M (World R) E A) :
  keeps Q m → (∀ w w', Q w w' → Q' w w') → keeps Q' m.
Proof. intros Hm HQ w. apply HQ, Hm. Qed.

Lemma homeserver_call_same_db c : keeps same_db (@homeserver_call R c).
Proof. intros w. unfold homeserver_call. by destruct (w_homeserver_faults w) as [|[] ?]. Qed.
Lemma log_activity_same_db {E} (a : Activity) :
  keeps same_db (modify (E := E) (λ w : World R, log_activity w a)).
Proof. done. Qed.

Lemma same_db_committed w w' : same_db w w' → same_committed w w'.
Proof. by intros (_ & ? & ?). Qed.

Lemma log_activity_committed {E} (a : Activity) :
  keeps same_committed (modify (E := E) (λ w : World R, log_activity w a)).
Proof. apply (keeps_weaken same_db); [apply log_activity_same_db | apply same_db_committed]. Qed.
Lemma log_activity_db Q `{!PreOrder Q} {E} (a : Activity) :
  keeps (keeps_db Q) (modify (E := E) (λ w : World R, log_activity w a)).
Proof. apply (keeps_weaken same_db); [apply log_activity_same_db | apply (keeps_db_same _)]. Qed.
Lemma homeserver_call_committed c : keeps same_committed (@homeserver_call R c).
Proof. apply (keeps_weaken same_db); [apply homeserver_call_same_db | apply same_db_committed]. Qed.
Lemma homeserver_call_db Q `{!PreOrder Q} c : keeps (keeps_db Q) (@homeserver_call R c).
Proof. apply (keeps_weaken same_db); [apply homeserver_call_same_db | apply (keeps_db_same _)]. Qed.

Hint Resolve log_activity_committed log_activity_db
  homeserver_call_committed homeserver_call_db : keeps.

Lemma keeps_provision_devices (Q : World R → World R → Prop) `{!PreOrder Q} u n scope :
  (∀ c, keeps Q (@homeserver_call R c)) → keeps Q (@provision_devices R u n scope).
Proof. intros Hu. unfold upsert_device. induction scope; simpl; unfold upsert_device; keeps_tac. Qed.
Hint Extern 1 (keeps _ (provision_devices _ _ _)) =>
  apply keeps_provision_devices; eauto with keeps typeclass_instances : keeps.

Lemma refresh_token_grant_committed ip g c cfg ua :
  keeps same_committed (refresh_token_grant (R := R) ip g c cfg ua).
Proof. keeps_tac. Qed.
Lemma client_credentials_grant_committed ip g c cfg ua :
  keeps same_committed (client_credentials_grant (R := R) ip g c cfg ua).
Proof. keeps_tac. Qed.
Lemma device_code_grant_committed ip g c cfg ua :
  keeps same_committed (device_code_grant (R := R) ip g c cfg ua).
Proof. keeps_tac. Qed.
Lemma authenticate_committed c : keeps same_committed (authenticate (R := R) c).
Proof. keeps_tac. Qed.

Hint Unfold check_stage authorization_code_grant post token_request : mas_ops.

Lemma post_keeps_integrity ip cfg ua auth :
  keeps keeps_integrity (post (R := R) ip cfg ua auth).
Proof. keeps_tac. Qed.

Lemma token_request_integrity ip cfg ua auth :
  txn_keeps preserves_integrity (token_request (R := R) ip cfg ua auth).
Proof. apply txn_keeps_pool, post_keeps_integrity. apply _. Qed.

Lemma post_keeps_evolution ip cfg ua auth :
  keeps keeps_evolution (post (R := R) ip cfg ua auth).
Proof. keeps_tac. Qed.

(** ** Refused requests *)

(** The session of a replayed code is looked up, finished and saved. *)
Definition end_session (sid : Ulid) : M (World R) RouteError unit :=
  do session <- repo (SessionRepository.lookup sid);
  do session <- require session (NoSuchOAuthSession sid);
  do! repo (SessionRepository.finish session);
  repo save.

Lemma end_session_Err sid w e w' : end_session sid w = (Err e, w') → same_committed w w'.
Proof.
  apply err_keeps_bind; [apply _ | keeps_tac | intros o].
  apply err_keeps_bind; [apply _ | keeps_tac | intros s].
  apply err_keeps_bind; [apply _ | keeps_tac | intros _ w0 e0 w0'].
  intros (e1 & H%err_keeps_save & _)%mmap_err_Err_inv. done.
Qed.

Lemma session_of_row r s :
  SessionRepository.try_from r = Ok s →
  Session.id s = OAuthSessionLookup.oauth2_session_id r ∧
  Session.is_valid s = bool_decide (OAuthSessionLookup.finished_at r = None) ∧
  Session.client_id s = OAuthSessionLookup.oauth2_client_id r ∧
  Session.user_id s = OAuthSessionLookup.user_id r ∧
  Session.user_session_id s = OAuthSessionLookup.user_session_id r.
Proof.
  unfold SessionRepository.try_from. intros (ts & _ & [= <-])%rbind_Ok_inv. simpl.
  unfold Session.is_valid. simpl. by destruct (OAuthSessionLookup.finished_at r).
Qed.

Lemma session_finish_valid s t s' : Session.finish s t = Ok s' → Session.is_valid s = true.
Proof.
  unfold Session.finish, Session.is_valid. intros (? & H & _)%rbind_Ok_inv.
  by destruct (Session.state s).
Qed.

Lemma end_session_Ok sid w u w' :
  integrity (w_txn w) → end_session sid w = (Ok u, w') →
  ∃ r t, oauth2_sessions (w_txn w) !! sid = Some r ∧
    OAuthSessionLookup.finished_at r = None ∧
    w_committed w' = set_rows (<[sid := SessionRepository.with_finished_at t r]>
                                 (oauth2_sessions (w_txn w))) (w_txn w).
Proof.
  intros Hint (o & w1 & [Hdb Ho]%mmap_err_Ok_inv%session_lookup_inv & H)%bind_Ok_inv.
  apply bind_Ok_inv in H as (s & w2 & [-> ->]%require_inv & H).
  apply bind_Ok_inv in H as (s' & w3 & Hf%mmap_err_Ok_inv%session_finish_inv & H).
  apply mmap_err_Ok_inv, save_inv in H as [-> _].
  destruct Ho as (r & Hr & (Hid & Hv & _)%session_of_row).
  destruct Hf as (t & r' & Hr' & Hfin%session_finish_valid & -> & _), Hdb as (Ht & _ & _).
  rewrite Ht in *. apply (sessions_pkey _ Hint) in Hr as Hk.
  assert (Session.id s = sid) as Hsid by congruence. rewrite Hsid in *.
  exists r, t. split_and!; [done | | congruence].
  rewrite Hfin in Hv. by apply symmetry, bool_decide_eq_true in Hv.
Qed.

(** What a code presented again does: the session it was exchanged for, still
    valid, is finished; nothing else changes. *)
Definition replay_ended (grant : AuthorizationCodeGrant) (d d' : Db) : Prop :=
  ∃ gid g sid x r t,
    oauth2_authorization_grants d !! gid = Some g ∧
    GrantLookup.authorization_code g = Some (ac_code grant) ∧
    GrantLookup.exchanged_at g = Some x ∧ GrantLookup.oauth2_session_id g = Some sid ∧
    oauth2_sessions d !! sid = Some r ∧ OAuthSessionLookup.finished_at r = None ∧
    d' = set_rows (<[sid := SessionRepository.with_finished_at t r]> (oauth2_sessions d)) d.

Lemma grant_exchanged_row r g sid f x :
  AuthorizationGrantRepository.try_from r = Ok g →
  AuthorizationGrant.stage g = AuthorizationGrantStage.Exchanged sid f x →
  GrantLookup.exchanged_at r = Some x ∧ GrantLookup.oauth2_session_id r = Some sid.
Proof.
  unfold AuthorizationGrantRepository.try_from.
  intros (? & _ & (st & Hst & (? & _ & (? & _ & (? & _ & [= <-])%rbind_Ok_inv)%rbind_Ok_inv)
    %rbind_Ok_inv)%rbind_Ok_inv)%rbind_Ok_inv. simpl. intros ->.
  unfold AuthorizationGrantRepository.stage_of in Hst.
  repeat case_match; simplify_eq; done.
Qed.

Lemma check_stage_Err g t w e w' :
  integrity (w_txn w) → check_stage g t w = (Err e, w') →
  same_committed w w' ∨
  ∃ sid f x r t', AuthorizationGrant.stage g = AuthorizationGrantStage.Exchanged sid f x ∧
    oauth2_sessions (w_txn w) !! sid = Some r ∧ OAuthSessionLookup.finished_at r = None ∧
    w_committed w' = set_rows (<[sid := SessionRepository.with_finished_at t' r]>
                                 (oauth2_sessions (w_txn w))) (w_txn w).
Proof.
  intros Hint. unfold check_stage.
  destruct (AuthorizationGrant.stage g) as [|bs f|sid f x|c] eqn:Hst;
    try (intros [= <- <-]; by left).
  { destruct (_ <? _)%Z; intros [= <- <-]; by left. }
  destruct (_ <? _)%Z.
  - intros [H%end_session_Err|(? & w1 & H%end_session_Ok & [= <- <-])]%bind_Err_inv;
      [by left | right | done].
    destruct H as (r & t' & ? & ? & ?). naive_solver.
  - intros [[= <- <-]|(? & ? & [= <- <-] & [= <- <-])]%bind_Err_inv; by left.
Qed.

Lemma run_committed {E A} (m : M (World R) E A) w r w' :
  m w = (r, w') → keeps same_committed m → same_committed w w'.
Proof. intros. by eapply keeps_run. Qed.

Lemma authorization_code_grant_Err ip grant c cfg ua w e w' :
  integrity (w_txn w) → authorization_code_grant ip grant c cfg ua w = (Err e, w') →
  same_committed w w' ∨ replay_ended grant (w_txn w) (w_committed w').
Proof.
  intros Hint. unfold authorization_code_grant.
  intros [H|(u & w1 & [_ ->]%guard_inv & H)]%bind_Err_inv.
  { left. apply run_committed in H; [done | keeps_tac]. }
  apply bind_Err_inv in H as [H|(o & w2 & [Hdb Ho]%mmap_err_Ok_inv%grant_find_inv & H)].
  { left. apply run_committed in H; [done | keeps_tac]. }
  apply bind_Err_inv in H as [H|(g & w3 & [-> ->]%require_inv & H)].
  { left. apply same_db_committed in Hdb. apply run_committed in H; [|keeps_tac].
    by transitivity w2. }
  apply bind_Err_inv in H as [H|(t & w4 & [_ Hdb']%now_inv & H)]; [done|].
  assert (same_db w w4) as Hw by (by transitivity w2).
  apply bind_Err_inv in H as [H|(b & w5 & Hcs & H)].
  - destruct Hw as (Ht & Hc & Hk). rewrite <- Ht in Hint.
    apply check_stage_Err in H as [[? ?]|(sid & f & x & r & t' & Hst & ? & ? & ?)];
      [|right|done].
    { left. split; congruence. }
    destruct Ho as (gid & row & Hrow & Hcode & Hg).
    destruct (grant_exchanged_row _ _ _ _ _ Hg Hst).
    rewrite Ht in *. exists gid, row, sid, x, r, t'. done.
  - left. apply same_db_committed in Hw. transitivity w4; [done|].
    assert (same_committed w4 w5) as Hw5.
    { revert Hcs. unfold check_stage. destruct (AuthorizationGrant.stage g); try done.
      - destruct (_ <? _)%Z; [done|]. by intros [= <- <-].
      - by intros (? & ? & _ & ?)%bind_Ok_inv. }
    transitivity w5; [done|].
    apply run_committed in H; [done | keeps_tac].
Qed.

(** ** Successful runs of the handlers' steps *)

Lemma check_stage_Ok g t w b w' :
  check_stage g t w = (Ok b, w') →
  w' = w ∧ ∃ f, AuthorizationGrant.stage g = AuthorizationGrantStage.Fulfilled b f ∧
    (t - f ≤ 10 * 60 * 1000 * 1000)%Z.
Proof.
  unfold check_stage. destruct (AuthorizationGrant.stage g) as [|bs f|sid f x|c]; try done.
  - destruct (Z.ltb_spec (10 * 60 * 1000 * 1000) (t - f)); [done|].
    intros [= <- <-]. eauto.
  - by intros (? & ? & _ & ?)%bind_Ok_inv.
Qed.

Lemma check_pkce_Ok code v w u w' :
  check_pkce code v w = (Ok u, w') →
  w' = w ∧ ∃ p verifier, AuthorizationCode.pkce code = Some p ∧ v = Some verifier ∧
    Pkce_verify p verifier = Ok tt.
Proof.
  unfold check_pkce. destruct (AuthorizationCode.pkce code) as [p|], v as [v|]; try done.
  intros [H ->]%lift_inv. split; [done|]. exists p, v. split_and!; try done.
  destruct u. by apply map_err_Ok in H.
Qed.

Lemma id_token_inv (b : bool) c g bs a l w t w' :
  (if b
   then do t <- mmap_err (λ e, Internal (IdTokenError e)) (generate_id_token c g bs a l);
        ret (Some t)
   else ret None) w = (Ok t, w') → same_db w w'.
Proof.
  destruct b; [|by intros [= <- <-]].
  intros (? & w1 & H%mmap_err_Ok_inv%generate_id_token_inv & [= <- <-])%bind_Ok_inv. done.
Qed.

Lemma generate_token_pair_inv session ttl w a r w' :
  generate_token_pair session ttl w = (Ok (a, r), w') →
  ∃ aid ta rid tr sa sr,
    oauth2_access_tokens (w_txn w) !! aid = None ∧
    oauth2_refresh_tokens (w_txn w) !! rid = None ∧
    (∃ rng, sa = (generate AccessTokenType rng).1) ∧
    (∃ rng, sr = (generate RefreshTokenType rng).1) ∧
    a = AccessToken.mk aid AccessTokenState.Valid (Session.id session) sa ta
          (Some (ta + ttl)%Z) None ∧
    r = RefreshToken.mk rid RefreshTokenState.Valid sr (Session.id session) tr (Some aid) ∧
    w_txn w' =
      set_rows (<[rid := OAuth2RefreshTokenLookup.mk rid sr tr None None (Some aid)
                           (Session.id session) None]> (oauth2_refresh_tokens (w_txn w)))
      (set_rows (<[aid := OAuth2AccessTokenLookup.mk aid (Session.id session) sa ta
                            (Some (ta + ttl)%Z) None None]>
                   (oauth2_access_tokens (w_txn w))) (w_txn w)) ∧
    same_committed w w'.
Proof.
  intros (sa & w1 & [Hsa D1]%with_rng_inv & H)%bind_Ok_inv.
  apply bind_Ok_inv in H as (sr & w2 & [Hsr D2]%with_rng_inv & H).
  apply bind_Ok_inv in H as (a' & w3 & Ha%access_add_inv & H).
  apply bind_Ok_inv in H as (r' & w4 & Hr%refresh_add_inv & [= <- <- <-]).
  destruct Ha as (aid & ta & Ha & _ & _ & -> & Ht3 & C3).
  destruct Hr as (rid & tr & Hr & _ & _ & _ & -> & Ht4 & C4).
  assert (same_db w w2) as (T2 & C2 & K2) by (by transitivity w1).
  rewrite Ht4, Ht3, T2 in *. simpl in *.
  exists aid, ta, rid, tr, sa, sr. destruct C3, C4.
  split_and!; try done; split; congruence.
Qed.

(** ** The endpoint *)

(** A client [c] authenticated in the database [d] by the credentials [cr]. *)
Definition authenticated (d : Db) (cr : Credentials) (c : Client.t) : Prop :=
  ∃ s id row method, credentials_client_id cr = Some s ∧ ulid_from_string s = Some id ∧
    oauth2_clients d !! id = Some row ∧ ClientRepository.try_from row = Ok c ∧
    Client.token_endpoint_auth_method c = Some method ∧ authenticates cr method c.

Lemma fetch_Ok cr w c w' :
  fetch cr w = (Ok (Some c), w') →
  same_db w w' ∧ ∃ s id row, credentials_client_id cr = Some s ∧
    ulid_from_string s = Some id ∧ oauth2_clients (w_txn w) !! id = Some row ∧
    ClientRepository.try_from row = Ok c.
Proof.
  intros Hf. unfold fetch in Hf.
  destruct (credentials_client_id cr) as [s|] eqn:Hs; [|done].
  unfold ClientRepository.find_by_client_id in Hf.
  destruct (ulid_from_string s) as [id|] eqn:Hid; [|done].
  op_inv Hf. subst. simpl in *. split; [same_world|].
  destruct (oauth2_clients (w_txn w) !! id) as [row|] eqn:Hrow; [|done].
  destruct_ex. simplify_eq. exists s, id, row. done.
Qed.

Lemma authenticate_Ok cr w c w' :
  authenticate cr w = (Ok c, w') → same_db w w' ∧ authenticated (w_txn w) cr c.
Proof.
  intros (o & w1 & Hf%mmap_err_Ok_inv & H)%bind_Ok_inv.
  apply bind_Ok_inv in H as (c' & w2 & [-> ->]%require_inv & H).
  apply bind_Ok_inv in H as (m & w3 & [Hm ->]%require_inv & H).
  apply bind_Ok_inv in H as ([] & w4 & [Hv%map_err_Ok ->]%lift_inv & [= <- <-]).
  apply fetch_Ok in Hf as [Hdb (s & id & row & ? & ? & ? & ?)]. split; [done|].
  exists s, id, row, m. split_and!; try done. by apply verify_Ok_iff.
Qed.

Lemma authenticate_answers cr c w :
  w_driver_faults w = [] → authenticated (w_txn w) cr c →
  authenticate cr w = (Ok c, w).
Proof.
  intros Hw (s & id & row & m & Hs & Hid & Hrow & Hc & Hm & Hv).
  unfold authenticate, fetch, ClientRepository.find_by_client_id,
    ClientRepository.lookup, repo, mmap_err.
  rewrite Hs, Hid. unfold bind at 1 2.
  rewrite select_answers by done. simpl. rewrite Hrow, decode_row_run, Hc. simpl.
  unfold bind, require, lift. simpl. rewrite Hm. simpl.
  apply verify_Ok_iff in Hv as ->. done.
Qed.

(** The handler of a grant. *)
Definition handle (ip : option IpAddr) (cfg : SiteConfig) (ua : option string)
    (c : Client.t) (req : AccessTokenRequest) : M (World R) RouteError AccessTokenResponse :=
  match req with
  | AuthorizationCodeRequest g => authorization_code_grant ip g c cfg ua
  | RefreshTokenRequest g => refresh_token_grant ip g c cfg ua
  | ClientCredentialsRequest g => client_credentials_grant ip g c cfg ua
  | DeviceCodeRequest g => device_code_grant ip g c cfg ua
  | UnsupportedRequest => fail UnsupportedGrantType
  end.

Lemma token_request_Ok ip cfg ua auth w resp w' :
  token_request ip cfg ua auth w = (Ok resp, w') →
  ∃ c req w1 w2, form auth = Some req ∧
    authenticated (w_committed w) (credentials auth) c ∧
    w_txn w1 = w_committed w ∧ same_committed w w1 ∧
    handle ip cfg ua c req w1 = (Ok resp, w2) ∧ w_committed w' = w_txn w2.
Proof.
  intros (u & w0 & [Ht Hc]%mmap_err_Ok_inv%from_pool_inv & H)%bind_Ok_inv.
  apply bind_Ok_inv in H as (c & w1 & [Hdb Ha]%authenticate_Ok & H).
  apply bind_Ok_inv in H as (req & w2 & [Hreq ->]%require_inv & H).
  apply bind_Ok_inv in H as (r & w3 & Hr & H).
  apply bind_Ok_inv in H as (u' & w4 & Hs%mmap_err_Ok_inv & [= <- <-]).
  apply save_inv in Hs as [-> _]. rewrite Ht in Ha.
  exists c, req, w1, w3. split_and!; try done.
  - destruct Hdb as (-> & _). done.
  - transitivity w0; [done | by apply same_db_committed].
Qed.

Lemma token_request_Err ip cfg ua auth w e w' :
  token_request ip cfg ua auth w = (Err e, w') →
  w_committed w' = w_committed w ∨
  ∃ c req w1, form auth = Some req ∧ w_txn w1 = w_committed w ∧ same_committed w w1 ∧
    (handle ip cfg ua c req w1 = (Err e, w') ∨
     ∃ r w2, handle ip cfg ua c req w1 = (Ok r, w2) ∧ same_committed w2 w').
Proof.
  intros [H|(u & w0 & [Ht Hc]%mmap_err_Ok_inv%from_pool_inv & H)]%bind_Err_inv.
  { left. apply run_committed in H as [? _]; [done | keeps_tac]. }
  apply bind_Err_inv in H as [H|(c & w1 & [Hdb _]%authenticate_Ok & H)].
  { left. apply run_committed in H as [? _]; [|keeps_tac]. destruct Hc. congruence. }
  apply bind_Err_inv in H as [H|(req & w2 & [Hreq ->]%require_inv & H)].
  { left. apply run_committed in H as [? _]; [|keeps_tac]. destruct Hc, Hdb as (_ & ? & _).
    congruence. }
  right. exists c, req, w1.
  split_and!; [done | by destruct Hdb as (-> & _) | | ].
  { transitivity w0; [done | by apply same_db_committed]. }
  apply bind_Err_inv in H as [H|(r & w3 & Hr & H)]; [by left | right].
  exists r, w3. split; [done|].
  apply bind_Err_inv in H as [(e' & H & _)%mmap_err_Err_inv|(u' & w4 & _ & H)]; [|done].
  by apply err_keeps_save in H.
Qed.
End Runs.

#[export] Hint Extern 1 (keeps _ (provision_devices _ _ _)) =>
  apply keeps_provision_devices; eauto with keeps typeclass_instances : keeps.

#[export] Hint Resolve log_activity_committed log_activity_db
  homeserver_call_committed homeserver_call_db : keeps.
