(* ===== verification/CodeExchange.v ===== *)
(** * The authorization code grant

    When crates/handlers/src/oauth2/token.rs answers an authorization code
    with tokens, and what it then writes. *)

From stdpp Require Import base tactics list strings gmap.
From Stdlib Require Import ZArith Lia Ascii.
From S2P Require Import Prelude Text Scope Formats Externals TokenFormat DataModel Storage TokenRepo GrantRepo QueueRepo UserRepo ClientAuth TokenEndpoint RepoFacts Integrity Evolution Scenario Stored TokenFacts.

(** The steps of a handler, inverted one by one. *)
Ltac hinv H :=
  lazymatch type of H with
  | bind _ _ _ = (Ok _, _) =>
      let a := fresh "x" in let w1 := fresh "w" in let Hm := fresh "Hrun" in
      apply bind_Ok_inv in H as (a & w1 & Hm & H); hinv Hm; cbv beta zeta in H; hinv H
  | (let '(_, _) := ?p in _) _ = (Ok _, _) => destruct p; hinv H
  | guard _ _ _ = _ => apply guard_inv in H as [? ->]
  | require _ _ _ = _ => apply require_inv in H as [? ->]
  | repo _ _ = _ => apply mmap_err_Ok_inv in H; hinv H
  | now _ = _ => apply now_inv in H as [? ?]
  | with_rng _ _ = _ => apply with_rng_inv in H as [[? ?] ?]
  | check_stage _ _ _ = _ => apply check_stage_Ok in H as [-> (? & ? & ?)]
  | check_pkce _ _ _ = _ => apply check_pkce_Ok in H as [-> (? & ? & ? & ? & ?)]
  | device_name_for _ _ _ _ = _ => apply device_name_inv in H as ->
  | record_oauth2_session _ _ _ = _ => apply record_activity_inv in H
  | provision_devices _ _ _ _ = _ => apply provision_devices_inv in H
  | generate_token_pair _ _ _ = (Ok ?p, _) =>
      destruct p; apply generate_token_pair_inv in H
        as (? & ? & ? & ? & ? & ? & ? & ? & ? & ? & ? & ? & ? & ?)
  | (if _ then bind _ _ else ret None) _ = _ => apply id_token_inv in H
  | UserRepository.acquire_lock_for_sync _ _ = _ => apply query_inv in H
  | AuthorizationGrantRepository.find_by_code _ _ = _ => apply grant_find_inv in H as [? ?]
  | AuthorizationGrantRepository.exchange _ _ _ = _ =>
      apply grant_exchange_inv in H as (? & ? & ? & ? & ? & ?)
  | BrowserSessionRepository.lookup _ _ = _ => apply browser_lookup_inv in H as [? ?]
  | BrowserSessionRepository.get_last_authentication _ _ = _ =>
      apply last_authentication_inv in H
  | ret _ _ = _ => injection H as ? ?
  | _ => idtac
  end.

(** Rewrites the worlds of a run into the first one. *)
Ltac txn_norm :=
  repeat match goal with
    | H : same_db _ _ |- _ => destruct H as (? & ? & ?)
    | H : same_committed _ _ |- _ => destruct H as (? & ?)
    end;
  repeat match goal with
    | H : w_txn ?w = _ |- _ => is_var w; rewrite H in *; clear H
    | H : w_clock ?w = _ |- _ => is_var w; rewrite H in *; clear H
    end.

(** ** The grant as a row *)

Section Rows.
Context {url_lib : UrlLib} {ulid_text : UlidText}.

Lemma grant_of_row r g :
  AuthorizationGrantRepository.try_from r = Ok g →
  AuthorizationGrant.id g = GrantLookup.oauth2_authorization_grant_id r ∧
  AuthorizationGrant.client_id g = GrantLookup.oauth2_client_id r ∧
  Scope_from_str (GrantLookup.scope r) = Ok (AuthorizationGrant.scope g) ∧
  AuthorizationGrantRepository.stage_of r = Ok (AuthorizationGrant.stage g) ∧
  ∃ p, AuthorizationGrantRepository.pkce_of r = Ok p ∧
    AuthorizationGrantRepository.code_of r p = Ok (AuthorizationGrant.code g).
Proof.
  unfold AuthorizationGrantRepository.try_from.
  intros (sc & Hsc & (st & Hst & (p & Hp & (co & Hco & (ru & _ & [= <-])%rbind_Ok_inv)
    %rbind_Ok_inv)%rbind_Ok_inv)%rbind_Ok_inv)%rbind_Ok_inv. simpl.
  split_and!; try done; [by destruct (Scope_from_str _); simplify_eq/= | eauto].
Qed.

Lemma stage_fulfilled r b f :
  AuthorizationGrantRepository.stage_of r = Ok (AuthorizationGrantStage.Fulfilled b f) →
  GrantLookup.fulfilled_at r = Some f ∧ GrantLookup.exchanged_at r = None ∧
  GrantLookup.cancelled_at r = None ∧ GrantLookup.user_session_id r = Some b.
Proof.
  unfold AuthorizationGrantRepository.stage_of. repeat case_match; naive_solver.
Qed.

Lemma code_pkce r p code pkce :
  AuthorizationGrantRepository.code_of r p = Ok (Some code) →
  AuthorizationCode.pkce code = Some pkce → p = Some pkce.
Proof.
  unfold AuthorizationGrantRepository.code_of. repeat case_match; naive_solver.
Qed.

Lemma browser_active d b x s :
  integrity d →
  Some s = BrowserSessionRepository.try_from <$> Some x →
  user_sessions d !! b = Some x.1 → users d !! UserSessionRow.user_id x.1 = Some x.2 →
  BrowserSession.id s = b ∧ User.id (BrowserSession.user s) = UserSessionRow.user_id x.1 ∧
  (BrowserSession.active s = true ↔
     UserSessionRow.finished_at x.1 = None ∧ UserLookup.locked_at x.2 = None ∧
     UserLookup.deactivated_at x.2 = None).
Proof.
  intros Hint [= ->] Hb Hu. destruct x as [bs u]. simpl in *. split_and!.
  - by apply (user_sessions_pkey _ Hint).
  - by apply (users_pkey _ Hint).
  - unfold BrowserSession.active, User.is_valid. simpl. repeat case_match; naive_solver.
Qed.
End Rows.

(** ** When a code is exchanged *)

Section Exchange.
Context {R : Type} `{!RngCore R} {crc : Crc} {base64 : Base64} {sha2 : Sha2}
  {ulid_text : UlidText} {url_lib : UrlLib} {jwks_json : JwksJson}
  {client_crypto : ClientCrypto} {policy : Policy} {templates : Templates}
  {keystore : Keystore R}.
Implicit Types w : World R.

(** What has to hold in the database [d] at time [t] for client [c] to
    exchange the code: the grant [g] of the code belongs to the client, was
    fulfilled less than ten minutes ago and never exchanged, the verifier
    answers its challenge, and the browser session [b] that approved it and
    its user [u] are active. *)
Record exchange_allowed (d : Db) (t : DateTime) (grant : AuthorizationCodeGrant)
    (c : Client.t) (gid : Ulid) (g : GrantLookup.t) (bid : Ulid) (b : UserSessionRow.t)
    (u : UserLookup.t) : Prop := {
  ea_grant_type : Client.has_grant_type c AuthorizationCode = true;
  ea_grant : oauth2_authorization_grants d !! gid = Some g;
  ea_code : GrantLookup.authorization_code g = Some (ac_code grant);
  ea_client : GrantLookup.oauth2_client_id g = Client.id c;
  ea_fulfilled : ∃ f, GrantLookup.fulfilled_at g = Some f ∧ (t - f ≤ 600 * 1000000)%Z;
  ea_not_exchanged : GrantLookup.exchanged_at g = None;
  ea_not_cancelled : GrantLookup.cancelled_at g = None;
  ea_pkce : ∃ p v, AuthorizationGrantRepository.pkce_of g = Ok (Some p) ∧
    ac_code_verifier grant = Some v ∧ Pkce_verify p v = Ok tt;
  ea_browser_session : GrantLookup.user_session_id g = Some bid;
  ea_session : user_sessions d !! bid = Some b;
  ea_session_active : UserSessionRow.finished_at b = None;
  ea_user : users d !! UserSessionRow.user_id b = Some u;
  ea_user_active : UserLookup.locked_at u = None ∧ UserLookup.deactivated_at u = None;
}.

(** What the exchange writes: a new session [sid] for the user, the client
    and the scope of the grant, an access token and a refresh token of that
    session, the ones of the response, and the exchange of the grant. *)
Record exchange_effect (d d' : Db) (c : Client.t) (ttl : Duration)
    (user_agent : option string) (resp : AccessTokenResponse) (gid : Ulid)
    (g : GrantLookup.t) (bid : Ulid) (b : UserSessionRow.t) (sid aid rid : Ulid)
    (scope : Scope) : Prop := {
  ee_fresh : oauth2_sessions d !! sid = None ∧ oauth2_access_tokens d !! aid = None ∧
    oauth2_refresh_tokens d !! rid = None;
  ee_scope : Scope_from_str (GrantLookup.scope g) = Ok scope;
  ee_session : ∃ t, oauth2_sessions d' =
    <[sid := OAuthSessionLookup.mk sid (Some (UserSessionRow.user_id b)) (Some bid)
               (Client.id c) scope t None user_agent None None None]> (oauth2_sessions d);
  ee_access : ∃ t, oauth2_access_tokens d' =
    <[aid := OAuth2AccessTokenLookup.mk aid sid (r_access_token resp) t
               (Some (t + ttl)%Z) None None]> (oauth2_access_tokens d);
  ee_refresh : ∃ t s, r_refresh_token resp = Some s ∧ oauth2_refresh_tokens d' =
    <[rid := OAuth2RefreshTokenLookup.mk rid s t None None (Some aid) sid None]>
      (oauth2_refresh_tokens d);
  ee_grant : ∃ t, oauth2_authorization_grants d' =
    <[gid := AuthorizationGrantRepository.with_exchanged t sid g]>
      (oauth2_authorization_grants d);
  ee_response : r_expires_in resp = Some ttl ∧ r_scope resp = Some scope;
  ee_frame : oauth2_device_code_grant d' = oauth2_device_code_grant d ∧
    user_sessions d' = user_sessions d ∧ users d' = users d ∧
    oauth2_clients d' = oauth2_clients d ∧ queue_jobs d' = queue_jobs d;
}.

(** The session a grant starts, with the user agent recorded on it. *)
Lemma new_session c b scope ua w0 s0 w1 s w2 :
  SessionRepository.add_from_browser_session c b scope w0 = (Ok s0, w1) →
  record_user_agent_opt s0 ua w1 = (Ok s, w2) →
  ∃ t, oauth2_sessions (w_txn w0) !! Session.id s = None ∧ Session.scope s = scope ∧
    w_txn w2 = set_rows
      (<[Session.id s := OAuthSessionLookup.mk (Session.id s)
           (Some (User.id (BrowserSession.user b))) (Some (BrowserSession.id b))
           (Client.id c) scope t None ua None None None]> (oauth2_sessions (w_txn w0)))
      (w_txn w0) ∧
    same_committed w0 w2.
Proof.
  intros (sid & t & Hs & _ & _ & _ & -> & Ht & Hc)%session_add_inv [-> Hua]%user_agent_inv.
  exists t. destruct ua as [ua|]; simpl in *; [|by subst].
  destruct Hua as (r & Hr & -> & Hc'). rewrite Ht in *. simpl in *.
  rewrite lookup_insert_eq in Hr. injection Hr as <-.
  split_and!; try done; [|by transitivity w1].
  unfold set_rows; simpl. by rewrite insert_insert_eq.
Qed.

Lemma authorization_code_grant_Ok ip grant c cfg ua w resp w' :
  integrity (w_txn w) →
  authorization_code_grant ip grant c cfg ua w = (Ok resp, w') →
  same_committed w w' ∧
  ∃ n gid g bid b u sid aid rid scope,
    exchange_allowed (w_txn w) (w_clock w n) grant c gid g bid b u ∧
    exchange_effect (w_txn w) (w_txn w') c (access_token_ttl cfg) ua resp gid g bid b
      sid aid rid scope.
Proof.
  intros Hint H. unfold authorization_code_grant in H. hinv H. subst.
  match goal with Ha : SessionRepository.add_from_browser_session _ _ _ _ = _,
    Hu : record_user_agent_opt _ _ _ = _ |- _ =>
    destruct (new_session _ _ _ _ _ _ _ _ _ Ha Hu) as (ts & ? & ? & ? & ?); clear Ha Hu end.
  rename select (∃ _ _, oauth2_authorization_grants _ !! _ = _ ∧ _) into Hg. destruct Hg as (gid & g & Hg & Hcode & Hrow).
  rename select (BrowserSessionRepository.try_from <$> _ = Some _) into Hb.
  rename select (AuthorizationGrant.stage _ = _) into Hstage.
  destruct (grant_of_row _ _ Hrow) as (Hid & Hcl & Hsc & Hst & p & Hp & Hco).
  rewrite Hstage in Hst. apply stage_fulfilled in Hst as (? & ? & ? & ?).
  rename select (AuthorizationGrant.code _ = _) into Hc. rewrite Hc in Hco.
  pose proof (code_pkce _ _ _ _ Hco ltac:(eassumption)) as ->.
  txn_norm. split; [split; congruence|].
  destruct (BrowserSessionRepository.select_session _ _) as [[b u]|] eqn:Hsel; [|done].
  apply browser_select_Some in Hsel as [Hb1 Hb2].
  destruct (browser_active _ _ _ _ Hint (symmetry Hb) Hb1 Hb2) as (Hbid & Hbu & Hact).
  apply (grants_pkey _ Hint) in Hg as Hgid. rewrite Hid, Hgid, Hbid, Hbu in *.
  simpl in *. simplify_eq.
  rename select (bool_decide (Client.id c = _) = true) into Hcc.
  apply bool_decide_eq_true in Hcc.
  rename select (BrowserSession.active _ = true) into Ha. apply Hact in Ha as (? & ? & ?).
  do 10 eexists. split; split; simpl; eauto 10;
    try case_match; simpl; eauto; try (split; congruence); congruence.
Qed.

(** C3: the token endpoint answers an authorization code with tokens only
    when the client authenticated, the grant of that code is the client's, was
    fulfilled at most ten minutes before and neither exchanged nor cancelled,
    the code verifier answers the PKCE challenge of the grant, and the browser
    session that approved it and its user are active; it then commits exactly
    one new session of that user, client and scope, one access token and one
    refresh token of that session, those of the response, and the exchange of
    the grant. *)
Theorem code_exchange ip cfg ua auth grant w resp w' :
  integrity (w_committed w) →
  form auth = Some (AuthorizationCodeRequest grant) →
  token_request ip cfg ua auth w = (Ok resp, w') →
  ∃ c n gid g bid b u sid aid rid scope,
    authenticated (w_committed w) (credentials auth) c ∧
    exchange_allowed (w_committed w) (w_clock w n) grant c gid g bid b u ∧
    exchange_effect (w_committed w) (w_committed w') c (access_token_ttl cfg) ua resp
      gid g bid b sid aid rid scope.
Proof.
  intros Hint Hform (c & req & w1 & w2 & Hreq & Ha & Ht & [Hc Hk] & H & ->)%token_request_Ok.
  rewrite Hform in Hreq. injection Hreq as <-. rewrite <- Ht in Hint.
  apply authorization_code_grant_Ok in H as [_ Hx]; [|done].
  rewrite Ht, Hk in Hx. naive_solver.
Qed.

Lemma exchanged_refused ip cfg ua auth grant w gid g :
  integrity (w_committed w) →
  form auth = Some (AuthorizationCodeRequest grant) →
  oauth2_authorization_grants (w_committed w) !! gid = Some g →
  GrantLookup.authorization_code g = Some (ac_code grant) →
  is_Some (GrantLookup.exchanged_at g) ∨ GrantLookup.fulfilled_at g = None →
  is_ok (token_request ip cfg ua auth w).1 = false.
Proof.
  intros Hint Hform Hg Hcode Hbad.
  destruct (token_request ip cfg ua auth w) as [[resp|e] w'] eqn:H; [|done]. exfalso.
  apply token_request_Ok in H as (c & req & w1 & w2 & Hreq & _ & Ht & _ & H & _).
  rewrite Hform in Hreq. injection Hreq as <-. rewrite <- Ht in *.
  apply authorization_code_grant_Ok in H as (_ & n & gid' & g' & ? & ? & ? & ? & ? & ? & ? &
    [? Hg' Hcode' ? (f & Hf & _) Hx ? ? ? ? ? ? ?] & _); [|done].
  assert (gid' = gid) as -> by (by eapply (authorization_code_unique _ Hint)).
  destruct Hbad as [[texch Hbad]|Hbad]; congruence.
Qed.

(** A code whose grant has been exchanged, or was not fulfilled, is never
    answered with tokens, whatever the client and the verifier. *)
Theorem exchanged_code_refused ip cfg ua auth grant w gid g :
  integrity (w_committed w) →
  form auth = Some (AuthorizationCodeRequest grant) →
  oauth2_authorization_grants (w_committed w) !! gid = Some g →
  GrantLookup.authorization_code g = Some (ac_code grant) →
  is_Some (GrantLookup.exchanged_at g) ∨ GrantLookup.fulfilled_at g = None →
  is_ok (token_request ip cfg ua auth w).1 = false.
Proof. apply exchanged_refused. Qed.

Lemma token_request_refused ip cfg ua auth w e w' :
  integrity (w_committed w) →
  token_request ip cfg ua auth w = (Err e, w') →
  w_committed w' = w_committed w ∨
  ∃ grant, form auth = Some (AuthorizationCodeRequest grant) ∧
    replay_ended grant (w_committed w) (w_committed w').
Proof.
  intros Hint [?|(c & req & w1 & Hreq & Ht & [Hc _] & H)]%token_request_Err; [by left|].
  rewrite <- Ht in Hint.
  assert (same_committed w1 w' ∨ ∃ grant, req = AuthorizationCodeRequest grant ∧
            replay_ended grant (w_txn w1) (w_committed w')) as [[? _]|(g & -> & Hr)].
  - destruct H as [H|(r & w2 & H & Hsave)].
    + destruct req as [g|g|g|g|]; simpl in H.
      * apply authorization_code_grant_Err in H as [?|?]; eauto.
      * left. apply run_committed in H; [done | apply refresh_token_grant_committed].
      * left. apply run_committed in H; [done | apply client_credentials_grant_committed].
      * left. apply run_committed in H; [done | apply device_code_grant_committed].
      * left. by injection H as <- <-.
    + left. transitivity w2; [|done]. destruct req as [g|g|g|g|]; simpl in H.
      * by apply authorization_code_grant_Ok in H as [? _].
      * apply run_committed in H; [done | apply refresh_token_grant_committed].
      * apply run_committed in H; [done | apply client_credentials_grant_committed].
      * apply run_committed in H; [done | apply device_code_grant_committed].
      * done.
  - left. congruence.
  - right. exists g. split; [done|]. by rewrite Ht in Hr.
Qed.

(** C25: a token request that is refused, for whatever reason, a failure of
    the database or of the homeserver included, leaves the committed database
    as it was; the one exception is an exchanged code presented again, after
    which the session it was exchanged for is finished and nothing else
    changes. *)
Theorem token_refused_atomic ip cfg ua auth w e w' :
  integrity (w_committed w) →
  token_request ip cfg ua auth w = (Err e, w') →
  w_committed w' = w_committed w ∨
  ∃ grant, form auth = Some (AuthorizationCodeRequest grant) ∧
    replay_ended grant (w_committed w) (w_committed w').
Proof. apply token_request_refused. Qed.

(** ** Replays *)

Lemma finish_finished s w :
  w_driver_faults w = [] → stored s (w_txn w) → Session.is_finished s = true →
  (SessionRepository.finish s w).1 = Err (to_invalid_operation InvalidTransition).
Proof.
  intros Hw (r & Hr & _) Hf. unfold SessionRepository.finish, execute.
  unfold bind at 1. simpl. unfold bind at 1 2. rewrite query_answers by by destruct w.
  unfold update_stmt. simpl in *. rewrite Hr. unfold bind, lift. simpl.
  unfold Session.is_finished, Session.finish in *.
  by destruct (Session.state s).
Qed.

(** A code presented again more than 20 seconds after its exchange, once
    the session it was exchanged for has finished, is answered with a server error
    and not with the error for invalid grants. *)
Theorem replay_of_finished_session ip cfg ua cr c g code redirect_uri verifier s f x w :
  w_driver_faults w = [] → integrity (w_committed w) →
  authenticated (w_committed w) cr c →
  Client.has_grant_type c AuthorizationCode = true →
  stored g (w_committed w) → AuthorizationGrant.code g = Some code →
  AuthorizationGrant.stage g = AuthorizationGrantStage.Exchanged (Session.id s) f x →
  stored s (w_committed w) → Session.is_finished s = true →
  (20 * 1000 * 1000 < w_clock w (w_ticks w) - x)%Z →
  ∃ e, (token_request ip cfg ua (mkClientAuthorization cr (Some (AuthorizationCodeRequest
      (mkAuthorizationCodeGrant (AuthorizationCode.code code) redirect_uri verifier)))) w).1
      = Err e ∧
    into_response e = (500%Z, client_error ClientErrorCode.ServerError).
Proof.
  intros Hw Hint Hau Hgt Hg Hcode Hst Hs Hf Hlate. set (w1 := set_txn w (w_committed w)).
  exists (Internal (RepositoryError (to_invalid_operation InvalidTransition))). split; [|done].
  unfold token_request.
  rewrite (bind_run_Ok _ _ _ tt w1) by (unfold repo, mmap_err; by rewrite from_pool_answers).
  unfold post. rewrite (bind_run_Ok _ _ _ c w1) by by apply authenticate_answers.
  erewrite bind_run_Ok by done. unfold authorization_code_grant.
  destruct (grant_reads_back w1 g Hw Hint Hg) as [_ Hfind]. specialize (Hfind code Hcode).
  assert (SessionRepository.lookup (Session.id s) (tick w1) = (Ok (Some s), tick w1)) as Hl
    by exact (lookup_stored (tick w1) s Hw Hs).
  pose proof (finish_finished s (tick w1) Hw Hs Hf) as Hfin.
  unfold bind, guard, repo, mmap_err, ret. rewrite Hgt. simpl. rewrite Hfind. simpl.
  unfold check_stage. rewrite Hst. apply Z.ltb_lt in Hlate. simpl. rewrite Hlate.
  unfold bind, repo, mmap_err, require, lift. rewrite Hl. simpl.
  destruct (SessionRepository.finish s (tick w1)) as [[]]; simplify_eq/=. done.
Qed.
End Exchange.

(** ** Witnesses *)

Section Witnesses.
Import Scenario.

Definition exchange_response : AccessTokenResponse :=
  match exchange.1 with Ok r => r | Err _ => response_new "" end.

Lemma code_exchange_witness : ∃ c n gid g bid b u sid aid rid scope,
  authenticated db client_credentials c ∧
  exchange_allowed db (clock n) (mkAuthorizationCodeGrant "code" None (Some verifier)) c gid
    g bid b u ∧
  exchange_effect db exchanged_db c 300000000 None exchange_response gid g bid b sid aid rid
    scope.
Proof.
  apply (code_exchange None config None code_request
           (mkAuthorizationCodeGrant "code" None (Some verifier)) (world db 0 0)).
  - apply integrity_db.
  - reflexivity.
  - apply fst_run. vm_compute. reflexivity.
Defined.

(** The code presented once more, 30 seconds later. *)
Definition replay_world : World Z := world exchanged_db 100 30.
Definition replay := token_request None config None code_request replay_world.

Lemma exchanged_db_integrity : integrity exchanged_db.
Proof.
  apply (token_request_integrity None config None code_request (world db 0 0)), integrity_db.
Qed.

Lemma exchanged_code_refused_witness : is_ok replay.1 = false.
Proof.
  destruct (oauth2_authorization_grants exchanged_db !! 4%Z) as [g|] eqn:Hg;
    [|vm_compute in Hg; discriminate Hg].
  apply (exchanged_code_refused None config None code_request
           (mkAuthorizationCodeGrant "code" None (Some verifier)) replay_world
           4%Z g).
  - apply exchanged_db_integrity.
  - reflexivity.
  - exact Hg.
  - vm_compute in Hg. injection Hg as <-. reflexivity.
  - left. vm_compute in Hg. injection Hg as <-. eexists. reflexivity.
Defined.

Lemma token_refused_atomic_witness :
  w_committed replay.2 = w_committed replay_world ∨
  ∃ grant, form code_request = Some (AuthorizationCodeRequest grant) ∧
    replay_ended grant (w_committed replay_world) (w_committed replay.2).
Proof.
  apply (token_refused_atomic None config None code_request replay_world
           (InvalidGrant 4) replay.2).
  - apply exchanged_db_integrity.
  - apply fst_run. vm_compute. reflexivity.
Defined.

(** The code presented a third time, when the second has ended the session. *)
Definition replayed_db : Db := w_committed replay.2.
Definition replayed_grant : AuthorizationGrant.t :=
  match AuthorizationGrantRepository.try_from
          (default grant (oauth2_authorization_grants replayed_db !! 4%Z)) with
  | Ok g => g
  | Err _ => some_grant Plain
  end.
Definition ended_row : OAuthSessionLookup.t :=
  match AuthorizationGrant.stage replayed_grant with
  | AuthorizationGrantStage.Exchanged sid _ _ =>
      default (OAuthSessionLookup.mk 0 None None 0 [] 0 None None None None None)
        (oauth2_sessions replayed_db !! sid)
  | _ => OAuthSessionLookup.mk 0 None None 0 [] 0 None None None None None
  end.
Definition ended_session : Session.t :=
  match SessionRepository.try_from ended_row with Ok s => s | Err _ => some_session end.
Definition third_world : World Z := world replayed_db 200 90.

Lemma third_world_authenticated :
  authenticated (w_committed third_world) client_credentials some_client.
Proof.
  exists (ulid_to_string 1), 1%Z, client, NoAuthentication.
  split_and!; [vm_compute; reflexivity..|by eexists].
Qed.

(** When the grant was fulfilled and when it was exchanged. *)
Definition replayed_dates : DateTime * DateTime :=
  match AuthorizationGrant.stage replayed_grant with
  | AuthorizationGrantStage.Exchanged _ f x => (f, x)
  | _ => (0, 0)%Z
  end.

Lemma replayed_grant_stored : stored replayed_grant (w_committed third_world).
Proof.
  exists (default grant (oauth2_authorization_grants replayed_db !! 4%Z)).
  split; vm_compute; reflexivity.
Qed.

Lemma ended_session_stored : stored ended_session (w_committed third_world).
Proof. exists ended_row. split; vm_compute; reflexivity. Qed.

Lemma third_world_integrity : integrity (w_committed third_world).
Proof.
  unfold third_world. rewrite world_committed. unfold replayed_db, replay.
  apply token_request_integrity. unfold replay_world. rewrite world_committed.
  apply exchanged_db_integrity.
Qed.

Lemma replay_of_finished_session_witness : ∃ e,
  (token_request None config None code_request third_world).1 = Err e ∧
  into_response e = (500%Z, client_error ClientErrorCode.ServerError).
Proof.
  apply (replay_of_finished_session None config None client_credentials some_client
    replayed_grant (AuthorizationCode.mk "code" (Some (mkPkce Plain verifier))) None
    (Some verifier) ended_session replayed_dates.1 replayed_dates.2 third_world).
  - reflexivity.
  - apply third_world_integrity.
  - apply third_world_authenticated.
  - vm_compute. reflexivity.
  - apply replayed_grant_stored.
  - vm_compute. reflexivity.
  - vm_compute. reflexivity.
  - apply ended_session_stored.
  - vm_compute. reflexivity.
  - vm_compute. reflexivity.
Defined.
End Witnesses.
