(* ===== verification/RefreshRotation.v ===== *)
(** * The refresh token grant

    When crates/handlers/src/oauth2/token.rs answers a refresh token with a
    new pair of tokens, and what it then writes: the rotation of the tokens,
    and the second refresh with a token whose replacement was never used. *)

From stdpp Require Import base tactics list strings gmap.
From Stdlib Require Import ZArith Lia Ascii.
From S2P Require Import Prelude Text Scope Externals Formats TokenFormat DataModel Storage TokenRepo GrantRepo QueueRepo UserRepo ClientAuth TokenEndpoint RepoFacts Integrity Evolution Scenario TokenFacts CodeExchange.

(** ** Rows of tokens *)

(** A refresh token that can still be used. *)
Definition live (r : OAuth2RefreshTokenLookup.t) : Prop :=
  OAuth2RefreshTokenLookup.revoked_at r = None ∧ OAuth2RefreshTokenLookup.consumed_at r = None.

(** An access token that was not revoked. *)
Definition unrevoked (r : OAuth2AccessTokenLookup.t) : Prop :=
  OAuth2AccessTokenLookup.revoked_at r = None.

Lemma refresh_of_row r x :
  RefreshTokenRepository.try_from r = Ok x →
  RefreshToken.id x = OAuth2RefreshTokenLookup.oauth2_refresh_token_id r ∧
  RefreshToken.session_id x = OAuth2RefreshTokenLookup.oauth2_session_id r ∧
  RefreshToken.access_token_id x = OAuth2RefreshTokenLookup.oauth2_access_token_id r ∧
  RefreshToken.next_refresh_token_id x = OAuth2RefreshTokenLookup.next_oauth2_refresh_token_id r ∧
  (RefreshToken.is_valid x = true ↔ live r) ∧
  (live r → OAuth2RefreshTokenLookup.next_oauth2_refresh_token_id r = None).
Proof.
  unfold RefreshTokenRepository.try_from, live. intros (st & Hst & [= <-])%rbind_Ok_inv.
  unfold RefreshToken.is_valid, RefreshToken.next_refresh_token_id. simpl.
  repeat case_match; simplify_eq/=; naive_solver.
Qed.

Lemma access_of_row r :
  AccessToken.id (AccessTokenRepository.of_row r) =
    OAuth2AccessTokenLookup.oauth2_access_token_id r ∧
  (AccessToken.is_used (AccessTokenRepository.of_row r) = false ↔
     OAuth2AccessTokenLookup.first_used_at r = None) ∧
  (AccessTokenState.is_revoked (AccessToken.state (AccessTokenRepository.of_row r)) = false ↔
     unrevoked r).
Proof.
  unfold AccessToken.is_used, unrevoked, AccessTokenRepository.of_row. simpl.
  repeat case_match; naive_solver.
Qed.

Lemma access_revoke_valid a t b :
  AccessToken.revoke a t = Ok b →
  AccessTokenState.is_revoked (AccessToken.state a) = false.
Proof.
  unfold AccessToken.revoke. intros (? & H & _)%rbind_Ok_inv. by destruct (AccessToken.state a).
Qed.

(** ** Revoked rows *)

(** What becomes of a row of the access tokens: it is revoked, if it was not
    already, when [hit] holds, and left alone otherwise. *)
Definition revoked_if (hit : Prop) (o o' : option OAuth2AccessTokenLookup.t) : Prop :=
  match o with
  | None => o' = None
  | Some r =>
      (o' = Some r ∧ (hit → ¬ unrevoked r)) ∨
      (hit ∧ unrevoked r ∧
       ∃ t, o' = Some (AccessTokenRepository.with_revoked_at t r))
  end.

Lemma revoked_if_refl (hit : Prop) o : ¬ hit → revoked_if hit o o.
Proof. intros Hn. destruct o; simpl; [left; by split | done]. Qed.

Lemma revoked_if_trans (P Q P' : Prop) o1 o2 o3 :
  revoked_if P o1 o2 → revoked_if Q o2 o3 → (P' ↔ P ∨ Q) → revoked_if P' o1 o3.
Proof.
  unfold revoked_if, unrevoked. destruct o1 as [r1|]; [|by intros ->].
  intros [[-> HP]|(HP & Hr & t & ->)].
  - intros [[-> HQ]|(HQ & ? & t' & ->)] Hiff; [left | right]; naive_solver.
  - intros [[-> HQ]|(HQ & ? & t' & ->)] Hiff; right; [|done]; naive_solver.
Qed.

Lemma revoked_if_iff (P P' : Prop) o o' : revoked_if P o o' → (P' ↔ P) → revoked_if P' o o'.
Proof. unfold revoked_if. destruct o; naive_solver. Qed.

Lemma revoked_if_unrevoked (hit : Prop) o o' r :
  revoked_if hit o o' → o' = Some r → unrevoked r → o = Some r ∧ ¬ hit.
Proof.
  unfold revoked_if, unrevoked. destruct o as [r0|]; [|naive_solver].
  intros [[-> ?]|(_ & _ & t & ->)]; naive_solver.
Qed.

Lemma revoked_if_update (m : gmap Z OAuth2AccessTokenLookup.t) a r t k :
  m !! a = Some r → unrevoked r →
  revoked_if (Some a = Some k) (m !! k)
    (<[a := AccessTokenRepository.with_revoked_at t r]> m !! k).
Proof.
  intros Ha Hr. destruct (decide (a = k)) as [->|Hn].
  - rewrite lookup_insert_eq, Ha. simpl. right. eauto.
  - rewrite lookup_insert_ne by done. apply revoked_if_refl. congruence.
Qed.

Lemma revoked_if_keyed (hit : Z → Prop) (m m' : gmap Z OAuth2AccessTokenLookup.t) :
  (∀ k, revoked_if (hit k) (m !! k) (m' !! k)) →
  keyed OAuth2AccessTokenLookup.oauth2_access_token_id m →
  keyed OAuth2AccessTokenLookup.oauth2_access_token_id m'.
Proof.
  intros Hm Hk k r Hr. specialize (Hm k). unfold revoked_if in Hm.
  destruct (m !! k) as [r0|] eqn:H0; [|congruence].
  destruct Hm as [[Hm _]|(_ & _ & t & Hm)]; rewrite Hr in Hm; injection Hm as ->;
    by apply (Hk k r0).
Qed.

(** ** The steps of the handler *)

Section Steps.
Context {R : Type} `{!RngCore R} {crc : Crc} {base64 : Base64} {sha2 : Sha2}
  {ulid_text : UlidText} {url_lib : UrlLib} {jwks_json : JwksJson}
  {client_crypto : ClientCrypto} {policy : Policy} {templates : Templates}
  {keystore : Keystore R}.
Implicit Types w : World R.

(** One access token revoked by its identifier. *)
Lemma access_revoke_row a r w b w' :
  keyed OAuth2AccessTokenLookup.oauth2_access_token_id (oauth2_access_tokens (w_txn w)) →
  oauth2_access_tokens (w_txn w) !! a = Some r →
  AccessTokenRepository.revoke (AccessTokenRepository.of_row r) w = (Ok b, w') →
  unrevoked r ∧ same_committed w w' ∧
  ∃ t, w_txn w' = set_rows (<[a := AccessTokenRepository.with_revoked_at t r]>
                              (oauth2_access_tokens (w_txn w))) (w_txn w).
Proof.
  intros Hk Ha (t & r' & Hr' & Hrev%access_revoke_valid & Ht & Hc)%access_revoke_inv.
  destruct (access_of_row r) as (Hid & _ & Hu). apply Hu in Hrev.
  apply Hk in Ha as Hka. rewrite Hid, Hka in *. simplify_eq. eauto.
Qed.

Lemma set_access_id (d : Db) : set_rows (oauth2_access_tokens d) d = d.
Proof. by destruct d. Qed.

Lemma revoke_previous_inv x w u w' :
  keyed OAuth2AccessTokenLookup.oauth2_access_token_id (oauth2_access_tokens (w_txn w)) →
  revoke_previous_access_token x w = (Ok u, w') →
  same_committed w w' ∧ ∃ m, w_txn w' = set_rows m (w_txn w) ∧
    ∀ k, revoked_if (RefreshToken.access_token_id x = Some k)
           (oauth2_access_tokens (w_txn w) !! k) (m !! k).
Proof.
  intros Hk. unfold revoke_previous_access_token.
  assert (∀ w1 (o : option Ulid), w_txn w1 = w_txn w → same_committed w w1 →
    (∀ k r, o = Some k → oauth2_access_tokens (w_txn w) !! k = Some r → ¬ unrevoked r) →
    same_committed w w1 ∧ ∃ m, w_txn w1 = set_rows m (w_txn w) ∧
      ∀ k, revoked_if (o = Some k) (oauth2_access_tokens (w_txn w) !! k) (m !! k))
    as Hsame.
  { intros w1 o Ht Hc Ho. split; [done|]. exists (oauth2_access_tokens (w_txn w)).
    rewrite set_access_id. split; [done|]. intros k. unfold revoked_if.
    destruct (oauth2_access_tokens (w_txn w) !! k) eqn:?; [left; eauto | done]. }
  destruct (RefreshToken.access_token_id x) as [a|]; [|intros [= <- <-]; by apply Hsame].
  intros (o & w1 & [-> (Ht & Hc & Hck)]%mmap_err_Ok_inv%access_lookup_inv & H)%bind_Ok_inv.
  destruct (oauth2_access_tokens (w_txn w) !! a) as [r|] eqn:Ha; simpl in H.
  2: { injection H as <- <-. apply Hsame; [done..|]. congruence. }
  destruct (access_of_row r) as (_ & _ & Hu).
  destruct (AccessTokenState.is_revoked _) eqn:Hrev; simpl in H.
  { injection H as <- <-. apply Hsame; [done..|]. intros k r0 [= <-]. rewrite Ha. naive_solver. }
  apply bind_Ok_inv in H as (b & w2 & H%mmap_err_Ok_inv & [= <- <-]). rewrite <- Ht in Hk, Ha.
  apply (access_revoke_row a) in H as (Hur & Hcw & t & ->); [|done..].
  rewrite Ht in *. split; [destruct Hcw; split; congruence|].
  eexists. split; [done|]. intros k. by apply revoked_if_update.
Qed.

Lemma check_double_refresh_inv x w u w' :
  keyed OAuth2AccessTokenLookup.oauth2_access_token_id (oauth2_access_tokens (w_txn w)) →
  keyed OAuth2RefreshTokenLookup.oauth2_refresh_token_id (oauth2_refresh_tokens (w_txn w)) →
  check_double_refresh x w = (Ok u, w') →
  same_committed w w' ∧ ∃ nid n t m,
    RefreshToken.next_refresh_token_id x = Some nid ∧
    oauth2_refresh_tokens (w_txn w) !! nid = Some n ∧ live n ∧
    (∀ a, OAuth2RefreshTokenLookup.oauth2_access_token_id n = Some a →
       ∃ r, oauth2_access_tokens (w_txn w) !! a = Some r ∧ unrevoked r ∧
         OAuth2AccessTokenLookup.first_used_at r = None) ∧
    (∀ k, revoked_if (OAuth2RefreshTokenLookup.oauth2_access_token_id n = Some k)
            (oauth2_access_tokens (w_txn w) !! k) (m !! k)) ∧
    w_txn w' = set_rows (<[nid := RefreshTokenRepository.with_revoked_at t n]>
                           (oauth2_refresh_tokens (w_txn w))) (set_rows m (w_txn w)).
Proof.
  intros Hak Hrk H. unfold check_double_refresh in H.
  apply bind_Ok_inv in H as (nid & ? & [Hnext ->]%require_inv & H).
  apply bind_Ok_inv in H as (o & w1 & [Hdb Ho]%mmap_err_Ok_inv%refresh_lookup_inv & H).
  apply bind_Ok_inv in H as (y & ? & [-> ->]%require_inv & H).
  apply bind_Ok_inv in H as ([] & ? & [Hv ->]%guard_inv & H).
  apply bind_Ok_inv in H as ([] & w2 & Hacc & H).
  apply bind_Ok_inv in H as (z & w3 & Hrev%mmap_err_Ok_inv%refresh_revoke_inv & [= <- <-]).
  destruct Ho as (n & Hn & (Hid & _ & Ha & _ & Hl & _)%refresh_of_row).
  apply Hl in Hv. apply Hrk in Hn as Hnk.
  destruct Hdb as (Ht & Hc & Hck), Hrev as (t & n' & Hn' & _ & Ht3 & [Hc3 Hk3]).
  rewrite Ha in *. rewrite Hid, Hnk in *.
  assert (same_committed w w2 ∧ ∃ m, w_txn w2 = set_rows m (w_txn w) ∧
    (∀ a, OAuth2RefreshTokenLookup.oauth2_access_token_id n = Some a →
       ∃ r, oauth2_access_tokens (w_txn w) !! a = Some r ∧ unrevoked r ∧
         OAuth2AccessTokenLookup.first_used_at r = None) ∧
    (∀ k, revoked_if (OAuth2RefreshTokenLookup.oauth2_access_token_id n = Some k)
            (oauth2_access_tokens (w_txn w) !! k) (m !! k)))
    as ([Hc2 Hk2] & m & Ht2 & Hu & Hm).
  { destruct (OAuth2RefreshTokenLookup.oauth2_access_token_id n) as [a|].
    - apply bind_Ok_inv in Hacc as (oa & w4 & [-> D4]%mmap_err_Ok_inv%access_lookup_inv & H).
      apply bind_Ok_inv in H as (ya & ? & [Hya ->]%require_inv & H).
      apply bind_Ok_inv in H as ([] & ? & [Hused%negb_true_iff ->]%guard_inv & H).
      apply bind_Ok_inv in H as (? & ? & H%mmap_err_Ok_inv & [= <-]).
      rewrite Ht in *. destruct (oauth2_access_tokens (w_txn w) !! a) as [r|] eqn:Har; [|done].
      injection Hya as <-. destruct (access_of_row r) as (_ & Hfu & _). apply Hfu in Hused.
      destruct D4 as (Ht4 & Hc4 & Hk4).
      apply (access_revoke_row a) in H as (Hur & [? ?] & t' & Hw); rewrite Ht4, ?Ht in *; [|done..].
      split; [split; congruence|]. eexists. split_and!; [done | naive_solver |].
      intros k. by apply revoked_if_update.
    - injection Hacc as <-. split; [done|]. exists (oauth2_access_tokens (w_txn w)).
      rewrite set_access_id. split_and!; [done..|]. intros k. by apply revoked_if_refl. }
  rewrite Ht2 in Hn'. simpl in Hn'. rewrite Hn in Hn'. injection Hn' as <-.
  split; [split; congruence|]. exists nid, n, t, m.
  split_and!; try done. by rewrite Ht3, Ht2.
Qed.
End Steps.

(** ** When a refresh token is answered *)

(** What has to hold in the database [d] for client [c] to refresh with the
    token of row [rt]: its session [s] is the client's and not finished, the
    token is not revoked, and it was either never consumed, or replaced by a
    token [n] that is still live and whose access token was never used. *)
Record refresh_allowed (d : Db) (grant : RefreshTokenGrant) (c : Client.t) (rid : Ulid)
    (rt : OAuth2RefreshTokenLookup.t) (sid : Ulid) (s : OAuthSessionLookup.t) : Prop := {
  ra_grant_type : Client.has_grant_type c RefreshTokenGrantType = true;
  ra_token : oauth2_refresh_tokens d !! rid = Some rt;
  ra_text : OAuth2RefreshTokenLookup.refresh_token rt = rt_refresh_token grant;
  ra_session_id : OAuth2RefreshTokenLookup.oauth2_session_id rt = sid;
  ra_session : oauth2_sessions d !! sid = Some s;
  ra_session_valid : OAuthSessionLookup.finished_at s = None;
  ra_client : OAuthSessionLookup.oauth2_client_id s = Client.id c;
  ra_not_revoked : OAuth2RefreshTokenLookup.revoked_at rt = None;
  ra_state :
    (live rt ∧ OAuth2RefreshTokenLookup.next_oauth2_refresh_token_id rt = None) ∨
    ∃ nid n, nid ≠ rid ∧
      OAuth2RefreshTokenLookup.next_oauth2_refresh_token_id rt = Some nid ∧
      oauth2_refresh_tokens d !! nid = Some n ∧ live n ∧
      ∀ a, OAuth2RefreshTokenLookup.oauth2_access_token_id n = Some a →
        ∃ r, oauth2_access_tokens d !! a = Some r ∧ unrevoked r ∧
          OAuth2AccessTokenLookup.first_used_at r = None;
}.

(** The access tokens a refresh with [rt] revokes: the one issued with [rt]
    and the one issued with the token that replaced it. *)
Definition replaced_access (d : Db) (rt : OAuth2RefreshTokenLookup.t) (a : Ulid) : Prop :=
  OAuth2RefreshTokenLookup.oauth2_access_token_id rt = Some a ∨
  ∃ nid n, OAuth2RefreshTokenLookup.next_oauth2_refresh_token_id rt = Some nid ∧
    oauth2_refresh_tokens d !! nid = Some n ∧
    OAuth2RefreshTokenLookup.oauth2_access_token_id n = Some a.

(** What the refresh writes: a new access token [aid] and a new refresh token
    [nrid] of the same session, those of the response; the presented token is
    consumed and points to its replacement; the one that had replaced it, if
    any, is revoked, and so are the access tokens issued with either. *)
Record refresh_effect (d d' : Db) (ttl : Duration) (user_agent : option string)
    (resp : AccessTokenResponse) (rid : Ulid) (rt : OAuth2RefreshTokenLookup.t)
    (sid : Ulid) (s : OAuthSessionLookup.t) (aid nrid : Ulid) : Prop := {
  re_fresh : oauth2_access_tokens d !! aid = None ∧ oauth2_refresh_tokens d !! nrid = None;
  re_consumed : ∃ t, oauth2_refresh_tokens d' !! rid =
    Some (RefreshTokenRepository.with_consumed t nrid rt);
  re_new_refresh : ∃ t txt, r_refresh_token resp = Some txt ∧
    oauth2_refresh_tokens d' !! nrid =
      Some (OAuth2RefreshTokenLookup.mk nrid txt t None None (Some aid) sid None);
  re_next : ∀ nid, OAuth2RefreshTokenLookup.next_oauth2_refresh_token_id rt = Some nid →
    ∃ n t, oauth2_refresh_tokens d !! nid = Some n ∧ live n ∧
      oauth2_refresh_tokens d' !! nid = Some (RefreshTokenRepository.with_revoked_at t n);
  re_other_refresh : ∀ k, k ≠ rid → k ≠ nrid →
    OAuth2RefreshTokenLookup.next_oauth2_refresh_token_id rt ≠ Some k →
    oauth2_refresh_tokens d' !! k = oauth2_refresh_tokens d !! k;
  re_new_access : ∃ t, oauth2_access_tokens d' !! aid =
    Some (OAuth2AccessTokenLookup.mk aid sid (r_access_token resp) t (Some (t + ttl)%Z)
            None None);
  re_other_access : ∀ k, k ≠ aid →
    revoked_if (replaced_access d rt k) (oauth2_access_tokens d !! k)
      (oauth2_access_tokens d' !! k);
  re_session : oauth2_sessions d' =
    match user_agent with
    | Some ua => <[sid := SessionRepository.with_user_agent ua s]> (oauth2_sessions d)
    | None => oauth2_sessions d
    end;
  re_scope : ∃ tokens, collect ScopeToken_from_str (OAuthSessionLookup.scope_list s) = Ok tokens ∧
    r_scope resp = Some (Scope_from_iter tokens);
  re_expiry : r_expires_in resp = Some ttl;
  re_frame : oauth2_authorization_grants d' = oauth2_authorization_grants d ∧
    oauth2_device_code_grant d' = oauth2_device_code_grant d ∧
    user_sessions d' = user_sessions d ∧ users d' = users d ∧
    oauth2_clients d' = oauth2_clients d ∧ queue_jobs d' = queue_jobs d;
}.

Section Refresh.
Context {R : Type} `{!RngCore R} {crc : Crc} {base64 : Base64} {sha2 : Sha2}
  {ulid_text : UlidText} {url_lib : UrlLib} {jwks_json : JwksJson}
  {client_crypto : ClientCrypto} {policy : Policy} {templates : Templates}
  {keystore : Keystore R}.
Implicit Types w : World R.

(** The token presented is live, or its replacement is revoked. *)
Lemma presented_inv x rt rid w u w' :
  keyed OAuth2AccessTokenLookup.oauth2_access_token_id (oauth2_access_tokens (w_txn w)) →
  keyed OAuth2RefreshTokenLookup.oauth2_refresh_token_id (oauth2_refresh_tokens (w_txn w)) →
  oauth2_refresh_tokens (w_txn w) !! rid = Some rt →
  RefreshTokenRepository.try_from rt = Ok x →
  (if negb (RefreshToken.is_valid x) then check_double_refresh x else ret tt) w = (Ok u, w') →
  same_committed w w' ∧
  ((live rt ∧ OAuth2RefreshTokenLookup.next_oauth2_refresh_token_id rt = None) ∨
   ∃ nid n, nid ≠ rid ∧
      OAuth2RefreshTokenLookup.next_oauth2_refresh_token_id rt = Some nid ∧
      oauth2_refresh_tokens (w_txn w) !! nid = Some n ∧ live n ∧
      ∀ a, OAuth2RefreshTokenLookup.oauth2_access_token_id n = Some a →
        ∃ r, oauth2_access_tokens (w_txn w) !! a = Some r ∧ unrevoked r ∧
          OAuth2AccessTokenLookup.first_used_at r = None) ∧
  ∃ ma mr, w_txn w' = set_rows mr (set_rows ma (w_txn w)) ∧
    (∀ k, revoked_if (∃ nid n,
              OAuth2RefreshTokenLookup.next_oauth2_refresh_token_id rt = Some nid ∧
              oauth2_refresh_tokens (w_txn w) !! nid = Some n ∧
              OAuth2RefreshTokenLookup.oauth2_access_token_id n = Some k)
            (oauth2_access_tokens (w_txn w) !! k) (ma !! k)) ∧
    (∀ nid, OAuth2RefreshTokenLookup.next_oauth2_refresh_token_id rt = Some nid →
       ∃ n t, oauth2_refresh_tokens (w_txn w) !! nid = Some n ∧ live n ∧
         mr !! nid = Some (RefreshTokenRepository.with_revoked_at t n)) ∧
    (∀ k, OAuth2RefreshTokenLookup.next_oauth2_refresh_token_id rt ≠ Some k →
       mr !! k = oauth2_refresh_tokens (w_txn w) !! k).
Proof.
  intros Hak Hrk Hrt (_ & _ & _ & Hnext & Hv & Hln)%refresh_of_row H.
  destruct (RefreshToken.is_valid x) eqn:Hvx; simpl in H.
  - injection H as <- <-. destruct Hv as [Hv _]. specialize (Hv eq_refl).
    rewrite (Hln Hv). split; [done|]. split; [by left|].
    exists (oauth2_access_tokens (w_txn w)), (oauth2_refresh_tokens (w_txn w)).
    rewrite set_access_id. split_and!; [by destruct (w_txn w)| |naive_solver|done].
    intros k. apply revoked_if_refl. naive_solver.
  - apply check_double_refresh_inv in H as (Hc & nid & n & t & m & Hx & Hn & Hl & Hu & Hm & Hw);
      [|done..].
    assert (nid ≠ rid) by naive_solver.
    rewrite Hnext in Hx. rewrite Hx. split; [done|]. split; [right; naive_solver|].
    exists m, (<[nid := RefreshTokenRepository.with_revoked_at t n]>
                 (oauth2_refresh_tokens (w_txn w))).
    split_and!; [done| | |].
    + intros k. eapply revoked_if_iff; [apply Hm|]. naive_solver.
    + intros ? [= <-]. exists n, t. by rewrite lookup_insert_eq.
    + intros k Hk. rewrite lookup_insert_ne; congruence.
Qed.

Lemma consume_inv x rt t n b :
  RefreshTokenRepository.try_from rt = Ok x → RefreshToken.consume x t n = Ok b →
  OAuth2RefreshTokenLookup.revoked_at rt = None ∧
  RefreshToken.access_token_id b = OAuth2RefreshTokenLookup.oauth2_access_token_id rt.
Proof.
  unfold RefreshTokenRepository.try_from, RefreshToken.consume.
  intros (st & Hst & [= <-])%rbind_Ok_inv (st' & Hst' & [= <-])%rbind_Ok_inv. simpl in *.
  split; [|done]. repeat case_match; simplify_eq/=; done.
Qed.

(** The session a refresh token belongs to, with the user agent recorded. *)
Lemma refresh_session_inv sid ua w o w1 s0 s w2 :
  integrity (w_txn w) →
  SessionRepository.lookup sid w = (Ok o, w1) → o = Some s0 →
  record_user_agent_opt s0 ua w1 = (Ok s, w2) →
  same_committed w w2 ∧ ∃ r tokens, oauth2_sessions (w_txn w) !! sid = Some r ∧
    Session.id s = sid ∧
    (Session.is_valid s = true → OAuthSessionLookup.finished_at r = None) ∧
    Session.client_id s = OAuthSessionLookup.oauth2_client_id r ∧
    collect ScopeToken_from_str (OAuthSessionLookup.scope_list r) = Ok tokens ∧
    Session.scope s = Scope_from_iter tokens ∧
    w_txn w2 = set_rows
      match ua with
      | Some ua => <[sid := SessionRepository.with_user_agent ua r]> (oauth2_sessions (w_txn w))
      | None => oauth2_sessions (w_txn w)
      end (w_txn w).
Proof.
  intros Hint [(Ht & Hc & Hk) Ho]%session_lookup_inv -> [-> Hua]%user_agent_inv.
  destruct Ho as (r & Hr & Htry). destruct (session_of_row _ _ Htry) as (Hid & Hv & Hcl & _).
  apply (sessions_pkey _ Hint) in Hr as Hrk.
  assert (∃ tokens, collect ScopeToken_from_str (OAuthSessionLookup.scope_list r) = Ok tokens ∧
            Session.scope s0 = Scope_from_iter tokens) as (tokens & Htk & Hsc).
  { unfold SessionRepository.try_from in Htry.
    apply rbind_Ok_inv in Htry as (tokens & Htk%eq_sym%map_err_Ok & [= <-]). eauto. }
  assert (Session.is_valid s0 = true → OAuthSessionLookup.finished_at r = None) as Hfin.
  { rewrite Hv. apply bool_decide_eq_true. }
  split.
  { destruct ua; [destruct Hua as (_ & _ & _ & [? ?]) | subst]; split; congruence. }
  exists r, tokens. destruct ua as [ua|]; simpl.
  - destruct Hua as (r' & Hr' & -> & _). rewrite Hid, Hrk, Ht in *. by simplify_eq.
  - subst. split_and!; [done|congruence|done..|]. rewrite Ht. by destruct (w_txn w).
Qed.

Lemma refreshed_session_inv c token ua w x s w' :
  integrity (w_txn w) →
  refreshed_session c token ua w = (Ok (x, s), w') →
  same_committed w w' ∧
  ∃ rid rt r tokens, oauth2_refresh_tokens (w_txn w) !! rid = Some rt ∧
    OAuth2RefreshTokenLookup.refresh_token rt = token ∧
    RefreshTokenRepository.try_from rt = Ok x ∧ RefreshToken.id x = rid ∧
    oauth2_sessions (w_txn w) !! OAuth2RefreshTokenLookup.oauth2_session_id rt = Some r ∧
    Session.id s = OAuth2RefreshTokenLookup.oauth2_session_id rt ∧
    OAuthSessionLookup.finished_at r = None ∧
    OAuthSessionLookup.oauth2_client_id r = Client.id c ∧
    collect ScopeToken_from_str (OAuthSessionLookup.scope_list r) = Ok tokens ∧
    Session.scope s = Scope_from_iter tokens ∧
    w_txn w' = set_rows
      match ua with
      | Some ua => <[OAuth2RefreshTokenLookup.oauth2_session_id rt :=
                       SessionRepository.with_user_agent ua r]> (oauth2_sessions (w_txn w))
      | None => oauth2_sessions (w_txn w)
      end (w_txn w).
Proof.
  intros Hint H. unfold refreshed_session in H.
  apply bind_Ok_inv in H as (o & w1 & [(Ht1 & C1 & K1) Ho]%mmap_err_Ok_inv%refresh_find_inv & H).
  apply bind_Ok_inv in H as (x' & ? & [-> ->]%require_inv & H).
  destruct Ho as (rid & rt & Hrt & Htxt & Hx).
  destruct (refresh_of_row _ _ Hx) as (Hid & Hsid & _).
  apply (refresh_tokens_pkey _ Hint) in Hrt as Hrk.
  apply bind_Ok_inv in H as (os & w2 & Hl%mmap_err_Ok_inv & H).
  apply bind_Ok_inv in H as (s0 & ? & [Hos ->]%require_inv & H).
  apply bind_Ok_inv in H as (s' & w3 & Hua & H).
  rewrite <- Ht1 in Hint.
  destruct (refresh_session_inv _ _ _ _ _ _ _ _ Hint Hl Hos Hua)
    as ([C3 K3] & r & tokens & Hr & Hsi & Hfin & Hcl & Htk & Hsc & Ht3).
  apply bind_Ok_inv in H as ([] & ? & [Hv ->]%guard_inv & H). specialize (Hfin Hv).
  apply bind_Ok_inv in H as ([] & ? & [Hcc%bool_decide_eq_true ->]%guard_inv & [= -> -> ->]).
  rewrite Ht1, Hsid in *. split; [split; congruence|].
  exists rid, rt, r, tokens. split_and!; try done; congruence.
Qed.

Lemma refresh_token_grant_Ok ip grant c cfg ua w resp w' :
  integrity (w_txn w) →
  refresh_token_grant ip grant c cfg ua w = (Ok resp, w') →
  same_committed w w' ∧
  ∃ rid rt sid s aid nrid,
    refresh_allowed (w_txn w) grant c rid rt sid s ∧
    refresh_effect (w_txn w) (w_txn w') (access_token_ttl cfg) ua resp rid rt sid s aid nrid.
Proof.
  intros Hint H. unfold refresh_token_grant in H.
  apply bind_Ok_inv in H as ([] & ? & [Hgt ->]%guard_inv & H).
  apply bind_Ok_inv in H as ([x s] & w3 & Hs & H).
  apply refreshed_session_inv in Hs as ([C3 K3] & rid & rt & r & tokens & Hrt & Htxt & Hx & Hrk &
    Hr & Hsi & Hfin & Hcl & Htk & Hsc & Ht3); [|done].
  destruct (refresh_of_row _ _ Hx) as (Hid & Hsid & _).
  apply bind_Ok_inv in H as ([] & w4 & Hpre & H).
  apply (presented_inv x rt rid) in Hpre as ([C4 K4] & Hstate & ma & mr & Ht4 & Hma & Hnx & Hmr);
    rewrite ?Ht3 in *; simpl in *; [|by apply Hint|by apply Hint|done..].
  apply bind_Ok_inv in H as ([] & w5 & (Ht5 & C5 & K5)%record_activity_inv & H).
  apply bind_Ok_inv in H as ([a n] & w6 & Hp%mmap_err_Ok_inv%generate_token_pair_inv & H).
  destruct Hp as (aid & ta & nrid & tn & sa & sn & Ha & Hn & _ & _ & -> & -> & Ht6 & [C6 K6]).
  rewrite Ht5, Ht4 in *. simpl in *.
  apply bind_Ok_inv in H as (y & w7 & Hcons%mmap_err_Ok_inv%refresh_consume_inv & H).
  destruct Hcons as (tc & rt' & Hrt' & _ & Hcons & Ht7 & [C7 K7]).
  destruct (consume_inv _ _ _ _ _ Hx Hcons) as [Hnrev Hya].
  rewrite Hid, Hrk, Ht6 in *. simpl in *.
  assert (OAuth2RefreshTokenLookup.next_oauth2_refresh_token_id rt ≠ Some rid) as Hnn
    by (destruct Hstate as [[_ ->]|(nid & ? & ? & -> & _)]; congruence).
  assert (nrid ≠ rid) as Hnr by (intros ->; rewrite Hmr in Hn by done; congruence).
  rewrite lookup_insert_ne, Hmr in Hrt' by done. rewrite Hrt in Hrt'. injection Hrt' as <-.
  assert (oauth2_access_tokens (w_txn w) !! aid = None) as Ha0.
  { specialize (Hma aid). rewrite Ha in Hma. unfold revoked_if in Hma.
    destruct (oauth2_access_tokens (w_txn w) !! aid); [|done]. naive_solver. }
  assert (oauth2_refresh_tokens (w_txn w) !! nrid = None) as Hn0.
  { destruct (decide (OAuth2RefreshTokenLookup.next_oauth2_refresh_token_id rt = Some nrid)) as [He|He].
    - destruct (Hnx _ He) as (? & ? & _ & _ & ?). congruence.
    - by rewrite <- Hmr. }
  apply bind_Ok_inv in H as ([] & w8 & Hprev & [= <- <-]).
  apply revoke_previous_inv in Hprev as ([C8 K8] & mf & Ht8 & Hmf); rewrite ?Ht7 in *; simpl in *.
  2: { apply keyed_insert; [|done]. eapply revoked_if_keyed; [apply Hma | by apply Hint]. }
  split; [split; congruence|].
  exists rid, rt, (OAuth2RefreshTokenLookup.oauth2_session_id rt), r, aid, nrid.
  split; [split; try done; congruence|]. rewrite Ht8.
  split; simpl; try done.
  - eexists. by rewrite lookup_insert_eq.
  - do 2 eexists. split; [done|].
    rewrite lookup_insert_ne by done. rewrite lookup_insert_eq, Hsi. done.
  - intros nid Hnid. destruct (Hnx _ Hnid) as (n & t & Hnn' & Hln & Hmn). exists n, t.
    split_and!; [done..|]. rewrite !lookup_insert_ne; [done | congruence | congruence].
  - intros k Hk1 Hk2 Hk3. rewrite !lookup_insert_ne by done. by apply Hmr.
  - specialize (Hmf aid). rewrite lookup_insert_eq in Hmf. eexists.
    destruct Hmf as [[-> _]|(Hhit & _)]; [by rewrite Hsi|].
    rewrite Hya in Hhit. exfalso.
    destruct (refresh_tokens_access_token_fkey _ Hint rid rt aid Hrt Hhit). congruence.
  - intros k Hk. specialize (Hmf k). rewrite lookup_insert_ne in Hmf by done.
    eapply revoked_if_trans; [apply Hma | apply Hmf|].
    unfold replaced_access. rewrite Hya. tauto.
  - exists tokens. rewrite Hsc. done.
Qed.

(** C1: the token endpoint answers a refresh token only when the client
    authenticated and is the one of the token's session, the session is not
    finished, and the token is not revoked and either never consumed or
    replaced by a token nobody used; it then commits the rotation: a new pair
    of tokens of that session, those of the response, the presented token
    consumed and linked to its replacement, and the access token issued with
    it, and any unused replacement it had with its access token, revoked;
    every other token is left alone. *)
Theorem refresh_rotation ip cfg ua auth grant w resp w' :
  integrity (w_committed w) →
  form auth = Some (RefreshTokenRequest grant) →
  token_request ip cfg ua auth w = (Ok resp, w') →
  ∃ c rid rt sid s aid nrid,
    authenticated (w_committed w) (credentials auth) c ∧
    refresh_allowed (w_committed w) grant c rid rt sid s ∧
    refresh_effect (w_committed w) (w_committed w') (access_token_ttl cfg) ua resp rid rt
      sid s aid nrid.
Proof.
  intros Hint Hform (c & req & w1 & w2 & Hreq & Ha & Ht & _ & H & ->)%token_request_Ok.
  rewrite Hform in Hreq. injection Hreq as <-. rewrite <- Ht in *.
  apply refresh_token_grant_Ok in H as [_ Hx]; [|done]. naive_solver.
Qed.

(** What makes a refresh token unusable: its session is finished, it is
    revoked, or it is consumed and its replacement is recorded as used: the
    replacement is no longer live, or its access token was used or revoked. *)
Definition spent (d : Db) (rt : OAuth2RefreshTokenLookup.t) : Prop :=
  (∃ s t, oauth2_sessions d !! OAuth2RefreshTokenLookup.oauth2_session_id rt = Some s ∧
     OAuthSessionLookup.finished_at s = Some t) ∨
  is_Some (OAuth2RefreshTokenLookup.revoked_at rt) ∨
  (is_Some (OAuth2RefreshTokenLookup.consumed_at rt) ∧
   ∀ nid n, OAuth2RefreshTokenLookup.next_oauth2_refresh_token_id rt = Some nid →
     oauth2_refresh_tokens d !! nid = Some n →
     ¬ live n ∨
     ∃ a r, OAuth2RefreshTokenLookup.oauth2_access_token_id n = Some a ∧
       oauth2_access_tokens d !! a = Some r ∧
       (is_Some (OAuth2AccessTokenLookup.first_used_at r) ∨ ¬ unrevoked r)).

Lemma refresh_allowed_not_spent d grant c rid rt sid s :
  refresh_allowed d grant c rid rt sid s → ¬ spent d rt.
Proof.
  intros [_ _ _ Hsid Hs Hfin _ Hrev Hst] Hspent.
  destruct Hspent as [(s' & t & Hs' & Hf)|[[t Hr]|[[t Hc] Hn]]]; [congruence..|].
  destruct Hst as [[[_ Hl] _]|(nid & n & _ & Hnext & Hnn & Hl & Hu)]; [congruence|].
  destruct (Hn nid n Hnext Hnn) as [?|(a & r & Ha & Hr & Hbad)]; [done|].
  destruct (Hu a Ha) as (r' & Hr' & Hur & Hfu). simplify_eq.
  destruct Hbad as [[? ?]|?]; [congruence | done].
Qed.

Lemma spent_refused ip cfg ua auth grant w rid rt :
  integrity (w_committed w) →
  form auth = Some (RefreshTokenRequest grant) →
  oauth2_refresh_tokens (w_committed w) !! rid = Some rt →
  OAuth2RefreshTokenLookup.refresh_token rt = rt_refresh_token grant →
  spent (w_committed w) rt →
  is_ok (token_request ip cfg ua auth w).1 = false.
Proof.
  intros Hint Hform Hrt Htxt Hspent.
  destruct (token_request ip cfg ua auth w) as [[resp|e] w'] eqn:H; [|done]. exfalso.
  apply token_request_Ok in H as (c & req & w1 & w2 & Hreq & _ & Ht & _ & H & _).
  rewrite Hform in Hreq. injection Hreq as <-. rewrite <- Ht in *.
  apply refresh_token_grant_Ok in H as (_ & rid' & rt' & sid & s & aid & nrid & Hra & _); [|done].
  assert (rid' = rid) as ->.
  { apply (refresh_tokens_unique _ Hint rid' rt' rid rt (rt_refresh_token grant)); simpl;
      [by eapply ra_token | done | f_equal; by eapply ra_text | by f_equal]. }
  assert (rt' = rt) as -> by (apply ra_token in Hra; congruence).
  by apply refresh_allowed_not_spent in Hra.
Qed.

(** A spent refresh token is refused: no request presenting it is
    answered with tokens, whatever the client. *)
Theorem spent_refresh_token_refused ip cfg ua auth grant w rid rt :
  integrity (w_committed w) →
  form auth = Some (RefreshTokenRequest grant) →
  oauth2_refresh_tokens (w_committed w) !! rid = Some rt →
  OAuth2RefreshTokenLookup.refresh_token rt = rt_refresh_token grant →
  spent (w_committed w) rt →
  is_ok (token_request ip cfg ua auth w).1 = false.
Proof. apply spent_refused. Qed.
End Refresh.

(** ** Witnesses *)

Section Witnesses.
Import Scenario.

Definition refresh_grant (r : AccessTokenResponse) : RefreshTokenGrant :=
  mkRefreshTokenGrant (default "" (r_refresh_token r)) None.
Definition refresh_request (r : AccessTokenResponse) : ClientAuthorization AccessTokenRequest :=
  mkClientAuthorization client_credentials (Some (RefreshTokenRequest (refresh_grant r))).

(** A refresh with the token of the exchange. *)
Definition refresh_world : World Z := world exchanged_db 100 10.
Definition refresh := token_request None config None (refresh_request exchange_response)
  refresh_world.
Definition refresh_response : AccessTokenResponse :=
  match refresh.1 with Ok r => r | Err _ => response_new "" end.
Definition refreshed_world : World Z := refresh.2.

Lemma refresh_rotation_witness : ∃ c rid rt sid s aid nrid,
  authenticated (w_committed refresh_world) client_credentials c ∧
  refresh_allowed (w_committed refresh_world) (refresh_grant exchange_response) c rid rt sid s ∧
  refresh_effect (w_committed refresh_world) (w_committed refreshed_world) 300000000 None
    refresh_response rid rt sid s aid nrid.
Proof.
  apply (refresh_rotation None config None (refresh_request exchange_response)
           (refresh_grant exchange_response) refresh_world).
  - apply exchanged_db_integrity.
  - reflexivity.
  - unfold refreshed_world, refresh. apply fst_run. vm_compute. reflexivity.
Defined.

Lemma refreshed_world_integrity : integrity (w_committed refreshed_world).
Proof.
  unfold refreshed_world, refresh. apply token_request_integrity, exchanged_db_integrity.
Qed.

(** The first refresh token, once its replacement was used to refresh. *)
Definition second_refresh :=
  token_request None config None (refresh_request refresh_response) refreshed_world.
Definition late_refresh :=
  token_request None config None (refresh_request exchange_response) second_refresh.2.

Lemma second_refresh_integrity : integrity (w_committed second_refresh.2).
Proof.
  unfold second_refresh. apply token_request_integrity, refreshed_world_integrity.
Qed.

Definition first_refresh_id : Ulid :=
  default 0%Z (head (omap (λ '(k, r), if bool_decide (OAuth2RefreshTokenLookup.refresh_token r
    = default "" (r_refresh_token exchange_response)) then Some k else None)
    (map_to_list (oauth2_refresh_tokens (w_committed second_refresh.2))))).

Lemma spent_refresh_token_refused_witness : is_ok late_refresh.1 = false.
Proof.
  destruct (oauth2_refresh_tokens (w_committed second_refresh.2) !! first_refresh_id)
    as [rt|] eqn:Hrt; [|vm_compute in Hrt; discriminate Hrt].
  apply (spent_refresh_token_refused None config None (refresh_request exchange_response)
           (refresh_grant exchange_response) second_refresh.2 first_refresh_id rt).
  - apply second_refresh_integrity.
  - reflexivity.
  - exact Hrt.
  - vm_compute in Hrt. injection Hrt as <-. vm_compute. reflexivity.
  - right. right. split.
    + vm_compute in Hrt. injection Hrt as <-. eexists. reflexivity.
    + intros nid n Hnid Hn. left. intros [_ Hc]. vm_compute in Hrt. injection Hrt as <-.
      injection Hnid as <-. vm_compute in Hn. injection Hn as <-. discriminate Hc.
Defined.
End Witnesses.
