(* ===== verification/OtherGrants.v ===== *)
(** * The device code and client credentials grants

    When crates/handlers/src/oauth2/token.rs answers a device code or client
    credentials with tokens, and what it then writes. *)

From stdpp Require Import base tactics list strings gmap.
From Stdlib Require Import ZArith Lia Ascii.
From S2P Require Import Prelude Text Scope Externals Formats TokenFormat DataModel Storage TokenRepo GrantRepo QueueRepo UserRepo ClientAuth TokenEndpoint RepoFacts Integrity Evolution Scenario TokenFacts CodeExchange.

(** ** Rows and responses *)

Lemma device_of_row r g :
  DeviceCodeGrantRepository.try_from r = Ok g →
  DeviceCodeGrant.id g = OAuth2DeviceGrantLookup.oauth2_device_code_grant_id r ∧
  DeviceCodeGrant.client_id g = OAuth2DeviceGrantLookup.oauth2_client_id r ∧
  DeviceCodeGrant.expires_at g = OAuth2DeviceGrantLookup.expires_at r ∧
  Scope_from_str (OAuth2DeviceGrantLookup.scope r) = Ok (DeviceCodeGrant.scope g) ∧
  DeviceCodeGrantRepository.state_of r = Ok (DeviceCodeGrant.state g).
Proof.
  unfold DeviceCodeGrantRepository.try_from.
  intros (sc & Hsc%eq_sym%map_err_Ok & (st & Hst & [= <-])%rbind_Ok_inv)%rbind_Ok_inv. done.
Qed.

Lemma state_fulfilled r b f :
  DeviceCodeGrantRepository.state_of r = Ok (DeviceCodeGrantState.Fulfilled b f) →
  OAuth2DeviceGrantLookup.fulfilled_at r = Some f ∧
  OAuth2DeviceGrantLookup.rejected_at r = None ∧
  OAuth2DeviceGrantLookup.exchanged_at r = None ∧
  OAuth2DeviceGrantLookup.user_session_id r = Some b.
Proof.
  unfold DeviceCodeGrantRepository.state_of. repeat case_match; naive_solver.
Qed.

Lemma with_scope_if_any_fields s p :
  r_access_token (with_scope_if_any s p) = r_access_token p ∧
  r_refresh_token (with_scope_if_any s p) = r_refresh_token p ∧
  r_expires_in (with_scope_if_any s p) = r_expires_in p ∧
  (r_scope p = None → default [] (r_scope (with_scope_if_any s p)) = s).
Proof. unfold with_scope_if_any. destruct s; simpl; split_and!; try done. by intros ->. Qed.

Section Grants.
Context {R : Type} `{!RngCore R} {crc : Crc} {base64 : Base64} {sha2 : Sha2}
  {ulid_text : UlidText} {url_lib : UrlLib} {jwks_json : JwksJson}
  {client_crypto : ClientCrypto} {policy : Policy} {templates : Templates}
  {keystore : Keystore R}.
Implicit Types w : World R.

(** ** What the grants write *)

(** A session [sid] started with the row [s], with one access token of it,
    the text [atxt], and possibly a refresh token, the text [rtxt]; nothing else
    of the token tables changes. *)
Record session_started (d d' : Db) (ttl : option Duration) (atxt : string)
    (rtxt : option string) (sid aid : Ulid) (rid : option Ulid) (s : OAuthSessionLookup.t) :
    Prop := {
  ss_fresh : oauth2_sessions d !! sid = None ∧ oauth2_access_tokens d !! aid = None ∧
    ∀ k, rid = Some k → oauth2_refresh_tokens d !! k = None;
  ss_session : oauth2_sessions d' = <[sid := s]> (oauth2_sessions d);
  ss_access : ∃ t, oauth2_access_tokens d' =
    <[aid := OAuth2AccessTokenLookup.mk aid sid atxt t ((λ d, t + d)%Z <$> ttl) None None]>
      (oauth2_access_tokens d);
  ss_refresh : match rid, rtxt with
    | None, None => oauth2_refresh_tokens d' = oauth2_refresh_tokens d
    | Some k, Some txt => ∃ t, oauth2_refresh_tokens d' =
        <[k := OAuth2RefreshTokenLookup.mk k txt t None None (Some aid) sid None]>
          (oauth2_refresh_tokens d)
    | _, _ => False
    end;
  ss_frame : user_sessions d' = user_sessions d ∧ users d' = users d ∧
    oauth2_clients d' = oauth2_clients d ∧ queue_jobs d' = queue_jobs d;
}.

(** What has to hold for client [c] to exchange a device code at time [t]:
    the grant [g] of the code is the client's, has not expired, and was
    fulfilled by the browser session [bid], neither rejected nor exchanged. *)
Record device_allowed (d : Db) (t : DateTime) (cfg : SiteConfig) (code : string)
    (c : Client.t) (gid : Ulid) (g : OAuth2DeviceGrantLookup.t) (bid : Ulid)
    (b : UserSessionRow.t) : Prop := {
  da_enabled : device_code_grant_enabled cfg = true;
  da_grant_type : Client.has_grant_type c DeviceCode = true;
  da_grant : oauth2_device_code_grant d !! gid = Some g;
  da_code : OAuth2DeviceGrantLookup.device_code g = code;
  da_client : OAuth2DeviceGrantLookup.oauth2_client_id g = Client.id c;
  da_not_expired : (t ≤ OAuth2DeviceGrantLookup.expires_at g)%Z;
  da_fulfilled : is_Some (OAuth2DeviceGrantLookup.fulfilled_at g);
  da_not_rejected : OAuth2DeviceGrantLookup.rejected_at g = None;
  da_not_exchanged : OAuth2DeviceGrantLookup.exchanged_at g = None;
  da_browser_session : OAuth2DeviceGrantLookup.user_session_id g = Some bid;
  da_session : user_sessions d !! bid = Some b;
}.

(** The tail of the device code grant: the refresh token, if the client may
    refresh, and the ID token. *)
Lemma optional_refresh_inv (b : bool) session a params w p w' :
  (if b
   then do refresh_token_str <- with_rng (generate RefreshTokenType);
        do refresh_token <- repo (RefreshTokenRepository.add session a refresh_token_str);
        ret (with_refresh_token (RefreshToken.refresh_token refresh_token) params)
   else ret params) w = (Ok p, w') →
  same_committed w w' ∧
  match b with
  | false => p = params ∧ w_txn w' = w_txn w
  | true => ∃ rid t txt, oauth2_refresh_tokens (w_txn w) !! rid = None ∧
      p = with_refresh_token txt params ∧
      w_txn w' = set_rows (<[rid := OAuth2RefreshTokenLookup.mk rid txt t None None
                                      (Some (AccessToken.id a)) (Session.id session) None]>
                             (oauth2_refresh_tokens (w_txn w))) (w_txn w)
  end.
Proof.
  destruct b; [|by intros [= <- <-]].
  intros (txt & w1 & [_ (Ht & Hc & Hk)]%with_rng_inv & H)%bind_Ok_inv.
  apply bind_Ok_inv in H as (r & w2 & Hr%mmap_err_Ok_inv%refresh_add_inv & [= <- <-]).
  destruct Hr as (rid & t & Hn & _ & _ & _ & -> & Hw & [Hc' Hk']). rewrite Ht in *.
  split; [split; congruence|]. exists rid, t, txt. done.
Qed.

Lemma optional_id_token_inv (b : bool) c g bs a l params w p w' :
  (if b
   then do t <- mmap_err (λ e, Internal (IdTokenError e)) (generate_id_token c g bs a l);
        ret (with_id_token t params)
   else ret params) w = (Ok p, w') →
  same_db w w' ∧ (p = params ∨ ∃ t, p = with_id_token t params).
Proof.
  destruct b; [|intros [= <- <-]; split; [done | by left]].
  intros (t & w1 & H%mmap_err_Ok_inv%generate_id_token_inv & [= <- <-])%bind_Ok_inv. eauto.
Qed.

(** The session of a grant is inserted, something else is written to another
    table, then the user agent is recorded. *)
Lemma user_agent_row s ua r w s' w' :
  oauth2_sessions (w_txn w) !! Session.id s = Some r → OAuthSessionLookup.user_agent r = None →
  record_user_agent_opt s ua w = (Ok s', w') →
  same_committed w w' ∧ Session.id s' = Session.id s ∧ Session.scope s' = Session.scope s ∧
  w_txn w' = set_rows (<[Session.id s := OAuthSessionLookup.mk
      (OAuthSessionLookup.oauth2_session_id r) (OAuthSessionLookup.user_id r)
      (OAuthSessionLookup.user_session_id r) (OAuthSessionLookup.oauth2_client_id r)
      (OAuthSessionLookup.scope_list r) (OAuthSessionLookup.created_at r)
      (OAuthSessionLookup.finished_at r) ua (OAuthSessionLookup.last_active_at r)
      (OAuthSessionLookup.last_active_ip r) (OAuthSessionLookup.human_name r)]>
      (oauth2_sessions (w_txn w))) (w_txn w).
Proof.
  intros Hr Hn [-> Hua]%user_agent_inv. destruct ua as [ua|]; simpl in *.
  - destruct Hua as (r' & Hr' & -> & ?). by simplify_eq.
  - subst. split_and!; try done. rewrite insert_id; [by destruct (w_txn w)|].
    rewrite Hr. destruct r. simpl in *. by subst.
Qed.

Lemma client_credentials_grant_Ok ip grant c cfg ua w resp w' :
  client_credentials_grant ip grant c cfg ua w = (Ok resp, w') →
  same_committed w w' ∧
  Client.has_grant_type c ClientCredentials = true ∧
  evaluate_authorization_grant None c None (default [] (cc_scope grant)) ClientCredentials ip ua
    = Some [] ∧
  default [] (r_scope resp) = default [] (cc_scope grant) ∧
  r_expires_in resp = Some (access_token_ttl cfg) ∧
  (∃ sid aid t, session_started (w_txn w) (w_txn w') (Some (access_token_ttl cfg)) (r_access_token resp)
      (r_refresh_token resp) sid aid None
    (OAuthSessionLookup.mk sid None None (Client.id c) (default [] (cc_scope grant)) t None ua
       None None None)) ∧
  oauth2_authorization_grants (w_txn w') = oauth2_authorization_grants (w_txn w) ∧
  oauth2_device_code_grant (w_txn w') = oauth2_device_code_grant (w_txn w).
Proof.
  intros H. unfold client_credentials_grant in H.
  apply bind_Ok_inv in H as ([] & ? & [Hgt ->]%guard_inv & H).
  apply bind_Ok_inv in H as (res & ? & [Hres ->]%require_inv & H).
  apply bind_Ok_inv in H as ([] & ? & [Hv ->]%guard_inv & H).
  apply bind_Ok_inv in H as (s0 & w1 & Hs%mmap_err_Ok_inv%session_add_inv & H).
  destruct Hs as (sid & t & Hs & _ & _ & _ & -> & Ht1 & [C1 K1]).
  apply bind_Ok_inv in H as (s & w2 & Hua & H).
  eapply user_agent_row in Hua as ([C2 K2] & Hid & Hsc & Ht2);
    [|rewrite Ht1; apply lookup_insert_eq | done]. simpl in *.
  apply bind_Ok_inv in H as (txt & w3 & [_ (Ht3 & C3 & K3)]%with_rng_inv & H).
  apply bind_Ok_inv in H as (a & w4 & Ha%mmap_err_Ok_inv%access_add_inv & H).
  destruct Ha as (aid & ta & Ha & _ & _ & -> & Ht4 & [C4 K4]).
  apply bind_Ok_inv in H as (u & w5 & (Ht5 & C5 & K5)%record_activity_inv & [= <- <-]).
  rewrite Ht5, Ht4, Ht3, Ht2, Ht1, Hid, Hsc in *. simpl in *.
  destruct res; [|done].
  match goal with |- context [with_scope_if_any ?x ?p] =>
    destruct (with_scope_if_any_fields x p) as (Ha1 & Hr1 & He1 & Hs1) end.
  specialize (Hs1 eq_refl). split; [split; congruence|]. split_and!; try done.
  exists sid, aid, t. split; simpl; rewrite ?Ha1, ?Hr1, ?He1; try done.
  - by rewrite insert_insert_eq.
  - eexists. done.
Qed.

Lemma fulfilled_device_grant_inv c code w g bs w' :
  integrity (w_txn w) →
  fulfilled_device_grant c code w = (Ok (g, bs), w') →
  same_db w w' ∧
  ∃ n r b, DeviceCodeGrantRepository.try_from r = Ok g ∧
    oauth2_device_code_grant (w_txn w) !! DeviceCodeGrant.id g = Some r ∧
    OAuth2DeviceGrantLookup.device_code r = code ∧
    OAuth2DeviceGrantLookup.oauth2_client_id r = Client.id c ∧
    (w_clock w n ≤ OAuth2DeviceGrantLookup.expires_at r)%Z ∧
    is_Some (OAuth2DeviceGrantLookup.fulfilled_at r) ∧
    OAuth2DeviceGrantLookup.rejected_at r = None ∧
    OAuth2DeviceGrantLookup.exchanged_at r = None ∧
    OAuth2DeviceGrantLookup.user_session_id r = Some (BrowserSession.id bs) ∧
    user_sessions (w_txn w) !! BrowserSession.id bs = Some b ∧
    User.id (BrowserSession.user bs) = UserSessionRow.user_id b.
Proof.
  intros Hint H. unfold fulfilled_device_grant in H.
  apply bind_Ok_inv in H as (o & w1 & [(Ht1 & C1 & K1) Ho]%mmap_err_Ok_inv%device_find_inv & H).
  apply bind_Ok_inv in H as (g' & ? & [-> ->]%require_inv & H).
  destruct Ho as (gid & row & Hrow & Hcode & Hdec).
  destruct (device_of_row _ _ Hdec) as (Hid & Hcl & Hexp & Hsc & Hst).
  apply (device_grants_pkey _ Hint) in Hrow as Hgid. rewrite Hgid in Hid.
  apply bind_Ok_inv in H as ([] & ? & [Hcc%bool_decide_eq_true ->]%guard_inv & H).
  apply bind_Ok_inv in H as (now_ & w2 & [Hnow (Ht2 & C2 & K2)]%now_inv & H).
  apply bind_Ok_inv in H as ([] & ? & [Hle%negb_true_iff%Z.ltb_ge ->]%guard_inv & H).
  apply bind_Ok_inv in H as (bid & w3 & Hb & H).
  destruct (DeviceCodeGrant.state g') as [|b0 f| |]; try done. injection Hb as -> ->.
  apply state_fulfilled in Hst as (Hf & Hr & Hx & Hus).
  apply bind_Ok_inv in H as (ob & w4 & [(Ht4 & C4 & K4) Hob]%mmap_err_Ok_inv%browser_lookup_inv & H).
  apply bind_Ok_inv in H as (bs' & ? & [-> ->]%require_inv & H).
  injection H as <- <- <-.
  rewrite Ht2, Ht1 in Hob.
  destruct (BrowserSessionRepository.select_session bid (w_txn w)) as [x|] eqn:Hsel; [|done].
  apply browser_select_Some in Hsel as [Hx1 Hx2].
  destruct (browser_active _ _ _ _ Hint Hob Hx1 Hx2) as (Hbid & Hbu & _).
  split; [repeat split; congruence|].
  exists (w_ticks w1), row, x.1. split_and!; try done; try congruence; by eexists.
Qed.

Lemma device_code_grant_Ok ip grant c cfg ua w resp w' :
  integrity (w_txn w) →
  device_code_grant ip grant c cfg ua w = (Ok resp, w') →
  same_committed w w' ∧
  ∃ n gid g bid b sid aid rid scope t tx,
    device_allowed (w_txn w) (w_clock w n) cfg (dc_device_code grant) c gid g bid b ∧
    Scope_from_str (OAuth2DeviceGrantLookup.scope g) = Ok scope ∧
    default [] (r_scope resp) = scope ∧ r_expires_in resp = Some (access_token_ttl cfg) ∧
    (is_Some rid ↔ Client.has_grant_type c RefreshTokenGrantType = true) ∧
    session_started (w_txn w) (w_txn w') (Some (access_token_ttl cfg)) (r_access_token resp)
      (r_refresh_token resp) sid aid rid
      (OAuthSessionLookup.mk sid (Some (UserSessionRow.user_id b)) (Some bid) (Client.id c)
         scope t None ua None None None) ∧
    oauth2_authorization_grants (w_txn w') = oauth2_authorization_grants (w_txn w) ∧
    oauth2_device_code_grant (w_txn w') =
      <[gid := DeviceCodeGrantRepository.with_exchanged tx sid g]>
        (oauth2_device_code_grant (w_txn w)).
Proof.
  intros Hint H. unfold device_code_grant in H.
  apply bind_Ok_inv in H as ([] & ? & [Hen ->]%guard_inv & H).
  apply bind_Ok_inv in H as ([] & ? & [Hgt ->]%guard_inv & H).
  apply bind_Ok_inv in H as ([g bs] & w4 & Hpre & H).
  apply fulfilled_device_grant_inv in Hpre as [(Ht4 & C4 & K4) Hpre]; [|done].
  destruct Hpre as (n & row & b & Hdec & Hrow & Hcode & Hcl & Hexp & Hf & Hr & Hx & Hus & Hb & Hbu).
  destruct (device_of_row _ _ Hdec) as (_ & _ & _ & Hsc & _).
  apply bind_Ok_inv in H as (dn & ? & ->%device_name_inv & H).
  apply bind_Ok_inv in H as (s0 & w5 & Hs%mmap_err_Ok_inv%session_add_inv & H).
  destruct Hs as (sid & t & Hs & _ & _ & _ & -> & Ht5 & [C5 K5]).
  apply bind_Ok_inv in H as (g' & w6 & Hex%mmap_err_Ok_inv%device_exchange_inv & H).
  destruct Hex as (tx & row' & Hrow' & _ & Ht6 & [C6 K6]).
  rewrite Ht5, Ht4 in *. simpl in *.
  assert (row' = row) as -> by congruence.
  apply bind_Ok_inv in H as (s & w7 & Hua & H).
  eapply user_agent_row in Hua as ([C7 K7] & Hsid & Hssc & Ht7);
    [|rewrite Ht6; apply lookup_insert_eq | done]. simpl in *.
  apply bind_Ok_inv in H as (txt & w8 & [_ (Ht8 & C8 & K8)]%with_rng_inv & H).
  apply bind_Ok_inv in H as (a & w9 & Ha%mmap_err_Ok_inv%access_add_inv & H).
  destruct Ha as (aid & ta & Ha & _ & _ & -> & Ht9 & [C9 K9]).
  apply bind_Ok_inv in H as (p1 & w10 & [[C10 K10] Href]%optional_refresh_inv & H).
  apply bind_Ok_inv in H as (p2 & w11 & [(Ht11 & C11 & K11) Hp2]%optional_id_token_inv & H).
  apply bind_Ok_inv in H as ([] & w12 & (Ht12 & C12 & K12)%mmap_err_Ok_inv%query_inv & H).
  apply bind_Ok_inv in H as ([] & w13 & (Ht13 & C13 & K13)%provision_devices_inv & H).
  apply bind_Ok_inv in H as ([] & w14 & (Ht14 & C14 & K14)%record_activity_inv & [= <- <-]).
  split; [split; congruence|]. rewrite Ht14, Ht13, Ht12, Ht11.
  assert (r_access_token p2 = r_access_token p1 ∧ r_refresh_token p2 = r_refresh_token p1 ∧
          r_expires_in p2 = r_expires_in p1 ∧ r_scope p2 = r_scope p1) as (Q1 & Q2 & Q3 & Q4)
    by (destruct Hp2 as [->|[? ->]]; done).
  destruct (with_scope_if_any_fields (Session.scope s) p2) as (Ha1 & Hr1 & He1 & Hs1).
  rewrite Hssc in *. rewrite Ht9, Ht8, Ht7, Ht6, Hsid, Hbu in *. simpl in *.
  exists n, (DeviceCodeGrant.id g), row, (BrowserSession.id bs), b, sid, aid.
  destruct (Client.has_grant_type c RefreshTokenGrantType).
  - destruct Href as (rid & tr & rtxt & Hrn & -> & Ht10). rewrite Ht10. simpl in *.
    exists (Some rid), (DeviceCodeGrant.scope g), t, tx. split_and!; try done.
    + by rewrite Hs1.
    + by rewrite He1.
    + split; simpl; rewrite ?Ha1, ?Hr1, ?He1, ?Q1, ?Q2, ?Q3; eauto.
      * split_and!; [done..|]. naive_solver.
      * by rewrite insert_insert_eq.
  - destruct Href as [-> Ht10]. rewrite Ht10. simpl in *.
    exists None, (DeviceCodeGrant.scope g), t, tx. split_and!; try done.
    + by rewrite Hs1.
    + by rewrite He1.
    + split; simpl; rewrite ?Ha1, ?Hr1, ?He1, ?Q1, ?Q2, ?Q3; eauto.
      * split_and!; [done..|]. naive_solver.
      * by rewrite insert_insert_eq.
Qed.

(** C10: the token endpoint answers a device code with tokens only when the
    grant type is enabled and allowed for the authenticated client, the grant
    of that code is the client's, has not expired, and was fulfilled, neither
    rejected nor exchanged; it then commits one new session of the user who
    fulfilled it, with the scope of the grant, an access token, a refresh
    token exactly when the client may refresh, and the exchange of the grant. *)
Theorem device_exchange ip cfg ua auth grant w resp w' :
  integrity (w_committed w) →
  form auth = Some (DeviceCodeRequest grant) →
  token_request ip cfg ua auth w = (Ok resp, w') →
  ∃ c n gid g bid b sid aid rid scope t tx,
    authenticated (w_committed w) (credentials auth) c ∧
    device_allowed (w_committed w) (w_clock w n) cfg (dc_device_code grant) c gid g bid b ∧
    Scope_from_str (OAuth2DeviceGrantLookup.scope g) = Ok scope ∧
    default [] (r_scope resp) = scope ∧ r_expires_in resp = Some (access_token_ttl cfg) ∧
    (is_Some rid ↔ Client.has_grant_type c RefreshTokenGrantType = true) ∧
    session_started (w_committed w) (w_committed w') (Some (access_token_ttl cfg)) (r_access_token resp)
      (r_refresh_token resp) sid aid rid
      (OAuthSessionLookup.mk sid (Some (UserSessionRow.user_id b)) (Some bid) (Client.id c)
         scope t None ua None None None) ∧
    oauth2_authorization_grants (w_committed w') = oauth2_authorization_grants (w_committed w) ∧
    oauth2_device_code_grant (w_committed w') =
      <[gid := DeviceCodeGrantRepository.with_exchanged tx sid g]>
        (oauth2_device_code_grant (w_committed w)).
Proof.
  intros Hint Hform (c & req & w1 & w2 & Hreq & Ha & Ht & [_ Hk] & H & ->)%token_request_Ok.
  rewrite Hform in Hreq. injection Hreq as <-. rewrite <- Ht in *. rewrite <- Hk.
  apply device_code_grant_Ok in H as [_ Hx]; [|done].
  destruct Hx as (n & gid & g & bid & b & sid & aid & rid & scope & t & tx & Hx).
  exists c, n, gid, g, bid, b, sid, aid, rid, scope, t, tx. by split.
Qed.

(** The token endpoint answers client credentials only when the client
    authenticated and may use that grant, and the policy has no violation for
    the scope it asks; the session it then commits has that scope, no user and
    no browser session, and no refresh token is issued. *)
Theorem client_credentials_session ip cfg ua auth grant w resp w' :
  form auth = Some (ClientCredentialsRequest grant) →
  token_request ip cfg ua auth w = (Ok resp, w') →
  ∃ c sid aid t,
    authenticated (w_committed w) (credentials auth) c ∧
    Client.has_grant_type c ClientCredentials = true ∧
    evaluate_authorization_grant None c None (default [] (cc_scope grant)) ClientCredentials ip ua
      = Some [] ∧
    default [] (r_scope resp) = default [] (cc_scope grant) ∧
  r_expires_in resp = Some (access_token_ttl cfg) ∧
    session_started (w_committed w) (w_committed w') (Some (access_token_ttl cfg)) (r_access_token resp)
      (r_refresh_token resp) sid aid None
      (OAuthSessionLookup.mk sid None None (Client.id c) (default [] (cc_scope grant)) t None
         ua None None None) ∧
    oauth2_authorization_grants (w_committed w') = oauth2_authorization_grants (w_committed w) ∧
    oauth2_device_code_grant (w_committed w') = oauth2_device_code_grant (w_committed w).
Proof.
  intros Hform (c & req & w1 & w2 & Hreq & Ha & Ht & _ & H & ->)%token_request_Ok.
  rewrite Hform in Hreq. injection Hreq as <-. rewrite <- Ht in *.
  apply client_credentials_grant_Ok in H as (_ & ? & ? & ? & ? & (sid & aid & t & ?) & ? & ?).
  exists c, sid, aid, t. done.
Qed.
End Grants.

(** ** Witnesses *)

Section Witnesses.
Import Scenario.

(** A device grant fulfilled at second 1, by a browser session that has
    ended since. *)
Definition device_grant : OAuth2DeviceGrantLookup.t :=
  OAuth2DeviceGrantLookup.mk 5 1 scope_text "device-code" "USERCODE" 0 900000000
    (Some 1000000%Z) None None (Some 3%Z) None None None None.
Definition ended_browser : UserSessionRow.t :=
  UserSessionRow.mk 3 2 0 (Some 1500000%Z) None None None.
Definition robot : OAuth2ClientLookup.t :=
  OAuth2ClientLookup.mk 6 None None None [] false false true false None None None None None
    None None None None (Some "none") None None false.
Definition device_db : Db :=
  mkDb {[1%Z := client; 6%Z := robot]} {[2%Z := user]} {[3%Z := ended_browser]} ∅ ∅ ∅ ∅ ∅
    {[5%Z := device_grant]} ∅ ∅ ∅ None ∅ ∅ ∅ ∅ ∅ ∅ ∅ ∅ ∅ no_accounts.

Definition device_world : World Z := world device_db 0 0.
Definition device_request : ClientAuthorization AccessTokenRequest :=
  mkClientAuthorization client_credentials
    (Some (DeviceCodeRequest (mkDeviceCodeGrantRequest "device-code"))).
Definition device_run := token_request None config None device_request device_world.
Definition device_response : AccessTokenResponse :=
  match device_run.1 with Ok r => r | Err _ => response_new "" end.

Lemma integrity_device_db : integrity device_db.
Proof.
  split; intros k *; simpl; intros;
    repeat match goal with
      | H : {[_ := _]} !! _ = Some _ |- _ => apply lookup_singleton_Some in H as [<- <-]
      | H : <[_ := _]> _ !! _ = Some _ |- _ => apply lookup_insert_Some in H as [[<- <-]|[_ H]]
      | H : ∅ !! _ = Some _ |- _ => by rewrite lookup_empty in H
      end; try done; simplify_eq/=; vm_compute; eauto.
Qed.

(** The browser session has ended, and yet the code is exchanged. *)
Example device_run_ok : is_ok device_run.1 = true.
Proof. vm_compute. reflexivity. Qed.

Lemma device_exchange_witness : ∃ c n gid g bid b sid aid rid scope t tx,
  authenticated (w_committed device_world) client_credentials c ∧
  device_allowed (w_committed device_world) (w_clock device_world n) config "device-code" c gid
    g bid b ∧
  Scope_from_str (OAuth2DeviceGrantLookup.scope g) = Ok scope ∧
  default [] (r_scope device_response) = scope ∧
  r_expires_in device_response = Some 300000000%Z ∧
  (is_Some rid ↔ Client.has_grant_type c RefreshTokenGrantType = true) ∧
  session_started (w_committed device_world) (w_committed device_run.2) (Some 300000000%Z)
    (r_access_token device_response) (r_refresh_token device_response) sid aid rid
    (OAuthSessionLookup.mk sid (Some (UserSessionRow.user_id b)) (Some bid) (Client.id c)
       scope t None None None None None) ∧
  oauth2_authorization_grants (w_committed device_run.2) =
    oauth2_authorization_grants (w_committed device_world) ∧
  oauth2_device_code_grant (w_committed device_run.2) =
    <[gid := DeviceCodeGrantRepository.with_exchanged tx sid g]>
      (oauth2_device_code_grant (w_committed device_world)).
Proof.
  apply (device_exchange None config None device_request
           (mkDeviceCodeGrantRequest "device-code") device_world).
  - apply integrity_device_db.
  - reflexivity.
  - unfold device_run. apply fst_run. vm_compute. reflexivity.
Defined.

Definition robot_request : ClientAuthorization AccessTokenRequest :=
  mkClientAuthorization (NoneCredentials (ulid_to_string 6))
    (Some (ClientCredentialsRequest (mkClientCredentialsGrant (Some [scope_text])))).
Definition robot_run := token_request None config None robot_request device_world.
Definition robot_response : AccessTokenResponse :=
  match robot_run.1 with Ok r => r | Err _ => response_new "" end.

Lemma client_credentials_session_witness : ∃ c sid aid t,
  authenticated (w_committed device_world) (NoneCredentials (ulid_to_string 6)) c ∧
  Client.has_grant_type c ClientCredentials = true ∧
  evaluate_authorization_grant None c None [scope_text] ClientCredentials None None = Some [] ∧
  default [] (r_scope robot_response) = [scope_text] ∧
  r_expires_in robot_response = Some 300000000%Z ∧
  session_started (w_committed device_world) (w_committed robot_run.2) (Some 300000000%Z)
    (r_access_token robot_response) (r_refresh_token robot_response) sid aid None
    (OAuthSessionLookup.mk sid None None (Client.id c) [scope_text] t None None None None
       None) ∧
  oauth2_authorization_grants (w_committed robot_run.2) =
    oauth2_authorization_grants (w_committed device_world) ∧
  oauth2_device_code_grant (w_committed robot_run.2) =
    oauth2_device_code_grant (w_committed device_world).
Proof.
  apply (client_credentials_session None config None robot_request
           (mkClientCredentialsGrant (Some [scope_text])) device_world).
  - reflexivity.
  - unfold robot_run. apply fst_run. vm_compute. reflexivity.
Defined.
End Witnesses.
