(* ===== verification/DeviceFacts.v ===== *)
(** * The device authorization grant, from the request to the polling

    What crates/handlers/src/oauth2/device/authorize.rs stores, and what the
    token endpoint answers to the device that polls with its code. *)

From stdpp Require Import base tactics list strings gmap.
From Stdlib Require Import ZArith Lia Ascii.
From S2P Require Import Prelude Text Scope Formats Externals TokenFormat DataModel Storage TokenRepo GrantRepo QueueRepo UserRepo ClientAuth TokenEndpoint DeviceAuthorize RepoFacts Integrity Evolution Scenario TokenFacts CodeExchange OtherGrants.
Import DeviceAuthorize.

(** ** Upper case *)

(** The characters of a user code: digits and upper case letters. *)
Definition user_code_char (c : ascii) : bool :=
  let n := N_of_ascii c in ((48 <=? n) && (n <=? 57) || (65 <=? n) && (n <=? 90))%N.

Lemma ascii_upper_code c : ascii_alphanumeric c = true → user_code_char (ascii_upper c) = true.
Proof. destruct c as [[] [] [] [] [] [] [] []]; vm_compute; done. Qed.

Lemma to_uppercase_code s :
  all_chars ascii_alphanumeric s = true → all_chars user_code_char (to_uppercase s) = true.
Proof.
  induction s as [|c s IH]; [done|]. simpl. rewrite !andb_true_iff. intros [Hc Hs].
  split; [by apply ascii_upper_code | auto].
Qed.

Lemma to_uppercase_length s : str_len (to_uppercase s) = str_len s.
Proof. induction s as [|c s IH]; [done|]. simpl. by rewrite IH. Qed.

(** ** The request *)

#[export] Hint Unfold DeviceAuthorize.repo DeviceAuthorize.require DeviceAuthorize.guard
  DeviceAuthorize.authenticate DeviceAuthorize.post fetch : mas_ops.

Section Device.
Context {R : Type} `{!RngCore R, !RngLaws R} {crc : Crc} {base64 : Base64} {sha2 : Sha2}
  {ulid_text : UlidText} {url_lib : UrlLib} {jwks_json : JwksJson}
  {client_crypto : ClientCrypto} {policy : Policy} {templates : Templates}
  {keystore : Keystore R} {url_builder : UrlBuilder}.
Implicit Types w : World R.

Lemma device_post_keeps_integrity ip cfg ua auth :
  keeps keeps_integrity (DeviceAuthorize.post (R := R) ip cfg ua auth).
Proof. keeps_tac. Qed.
Lemma device_post_keeps_evolution ip cfg ua auth :
  keeps keeps_evolution (DeviceAuthorize.post (R := R) ip cfg ua auth).
Proof. keeps_tac. Qed.
Lemma device_request_integrity ip cfg ua auth :
  txn_keeps preserves_integrity (device_authorization_request (R := R) ip cfg ua auth).
Proof. apply txn_keeps_pool, device_post_keeps_integrity. apply _. Qed.
Lemma device_request_evolution ip cfg ua auth :
  txn_keeps evolves (device_authorization_request (R := R) ip cfg ua auth).
Proof. apply txn_keeps_pool, device_post_keeps_evolution. apply _. Qed.

Lemma device_guard_inv c e w u w' : guard c e w = (Ok u, w') → c = true ∧ w' = w.
Proof. unfold guard. destruct c; [by intros [= _ <-] | done]. Qed.

Lemma device_authenticate_Ok cr w c w' :
  DeviceAuthorize.authenticate cr w = (Ok c, w') →
  same_db w w' ∧ authenticated (w_txn w) cr c.
Proof.
  intros (o & w1 & Hf%mmap_err_Ok_inv & H)%bind_Ok_inv.
  apply bind_Ok_inv in H as (c' & w2 & [Hc ->]%lift_inv & H). destruct o as [c1|]; [|done].
  injection Hc as ->.
  apply bind_Ok_inv in H as (m & w3 & [Hm ->]%lift_inv & H).
  destruct (Client.token_endpoint_auth_method c1) as [m'|] eqn:Hm'; [|done]. injection Hm as ->.
  apply bind_Ok_inv in H as ([] & w4 & [Hv%map_err_Ok ->]%lift_inv & [= <- <-]).
  apply fetch_Ok in Hf as [Hdb (s & id & row & ? & ? & ? & ?)]. split; [done|].
  exists s, id, row, m'. split_and!; try done. by apply verify_Ok_iff.
Qed.

(** The row a request for [scope] by the client [cid] leaves, at time [t]. *)
Definition pending_row (gid cid : Ulid) (scope : Scope) (dc uc : string) (t : DateTime)
    (ip : option IpAddr) (ua : option string) : OAuth2DeviceGrantLookup.t :=
  OAuth2DeviceGrantLookup.mk gid cid (Scope_to_string scope) dc uc t (t + EXPIRES_IN)%Z
    None None None None None ip ua None.

(** The scope of a request: none given is the empty scope. *)
Definition requested_scope (auth : ClientAuthorization DeviceAuthorizationRequest) : Scope :=
  default [] (form auth ≫= scope).

Lemma device_request_Ok ip cfg ua auth w resp w' :
  device_authorization_request ip cfg ua auth w = (Ok resp, w') →
  device_code_grant_enabled cfg = true ∧
  ∃ c gid n,
    authenticated (w_committed w) (credentials auth) c ∧
    Client.has_grant_type c DeviceCode = true ∧
    str_len (device_code resp) = 32 ∧
    all_chars ascii_alphanumeric (device_code resp) = true ∧
    str_len (user_code resp) = 6 ∧ all_chars user_code_char (user_code resp) = true ∧
    expires_in resp = EXPIRES_IN ∧ interval resp = Some INTERVAL ∧
    (is_Some (verification_uri_complete resp) ↔
       device_code_user_code_auto_fill_enabled cfg = true) ∧
    oauth2_device_code_grant (w_committed w) !! gid = None ∧
    w_committed w' = set_rows (<[gid := pending_row gid (Client.id c) (requested_scope auth)
        (device_code resp) (user_code resp) (w_clock w n) ip ua]>
      (oauth2_device_code_grant (w_committed w))) (w_committed w).
Proof.
  intros (u & w0 & [Ht0 [C0 K0]]%mmap_err_Ok_inv%from_pool_inv & H)%bind_Ok_inv.
  apply bind_Ok_inv in H as ([] & ? & [Hen ->]%device_guard_inv & H).
  apply bind_Ok_inv in H as (c & w1 & [(Ht1 & C1 & K1) Ha]%device_authenticate_Ok & H).
  apply bind_Ok_inv in H as ([] & ? & [Hgt ->]%device_guard_inv & H).
  apply bind_Ok_inv in H as (dc & w2 & [[r2 Hdc] (Ht2 & C2 & K2)]%with_rng_inv & H).
  apply bind_Ok_inv in H as (uc & w3 & [[r3 Huc] (Ht3 & C3 & K3)]%with_rng_inv & H).
  apply bind_Ok_inv in H as (g & w4 & Hg%mmap_err_Ok_inv%device_add_inv & H).
  destruct Hg as (gid & n & Hn & -> & Ht4 & C4 & K4). simpl in *.
  apply bind_Ok_inv in H as ([] & w5 & [Hs _]%mmap_err_Ok_inv%save_inv & [= <- <-]).
  split; [done|]. exists c, gid, n. simpl. rewrite Hdc, Huc in *.
  rewrite Ht3, Ht2, Ht1, Ht0, K3, K2, K1, K0 in *.
  split_and!; try done.
  - apply sample_length.
  - apply sample_chars.
  - rewrite to_uppercase_length. apply sample_length.
  - apply to_uppercase_code, sample_chars.
  - destruct (device_code_user_code_auto_fill_enabled cfg); [by split|].
    split; [by intros [] | done].
  - by rewrite Hs, Ht4.
Qed.

(** ** Polling *)

Lemma device_find_answers w gid r :
  w_driver_faults w = [] → integrity (w_txn w) →
  oauth2_device_code_grant (w_txn w) !! gid = Some r →
  DeviceCodeGrantRepository.find_by_device_code (OAuth2DeviceGrantLookup.device_code r) w =
  (match DeviceCodeGrantRepository.try_from r with
   | Ok g => Ok (Some g) | Err e => Err (Inconsistency e) end, w).
Proof.
  intros Hw Hint Hr. unfold DeviceCodeGrantRepository.find_by_device_code, bind.
  rewrite select_answers by done. erewrite find_row_unique; [apply decode_row_run|done|..].
  - by apply bool_decide_eq_true.
  - intros k1 r1 k2 r2 H1 H2 Hp1%bool_decide_eq_true Hp2%bool_decide_eq_true. simpl in *.
    assert (k1 = k2) as ->
      by (eapply (device_code_unique _ Hint); [exact H1 | exact H2 | done | congruence]).
    congruence.
Qed.

(** The request of a device that polls with its code. *)
Definition poll (ip : option IpAddr) (cfg : SiteConfig) (ua : option string)
    (cr : Credentials) (code : string) : M (World R) TokenEndpoint.RouteError AccessTokenResponse :=
  token_request ip cfg ua
    (mkClientAuthorization cr (Some (DeviceCodeRequest (mkDeviceCodeGrantRequest code)))).

(** What the endpoint answers for a grant that was stored and not touched since. *)
Lemma poll_run ip cfg ua cr c w gid r :
  w_driver_faults w = [] → integrity (w_committed w) →
  device_code_grant_enabled cfg = true →
  authenticated (w_committed w) cr c → Client.has_grant_type c DeviceCode = true →
  oauth2_device_code_grant (w_committed w) !! gid = Some r →
  OAuth2DeviceGrantLookup.oauth2_client_id r = Client.id c →
  DeviceCodeGrantRepository.state_of r = Ok DeviceCodeGrantState.Pending →
  (poll ip cfg ua cr (OAuth2DeviceGrantLookup.device_code r) w).1 =
  match Scope_from_str (OAuth2DeviceGrantLookup.scope r) with
  | Err _ => Err (TokenEndpoint.Internal (RepositoryError (Inconsistency
      (on "oauth2_authorization_grants" (Some "scope")
         (Some (OAuth2DeviceGrantLookup.oauth2_device_code_grant_id r))))))
  | Ok _ => Err (if (OAuth2DeviceGrantLookup.expires_at r <? w_clock w (w_ticks w))%Z
                 then DeviceCodeExpired else DeviceCodePending)
  end.
Proof.
  intros Hw Hint Hen Hau Hgt Hr Hcl Hst. set (w1 := set_txn w (w_committed w)).
  assert (∀ e, (fulfilled_device_grant c (OAuth2DeviceGrantLookup.device_code r) w1).1 = Err e →
    (poll ip cfg ua cr (OAuth2DeviceGrantLookup.device_code r) w).1 = Err e) as Hgo.
  { intros e He. unfold poll, token_request.
    rewrite (bind_run_Ok _ _ _ tt w1)
      by (unfold TokenEndpoint.repo, mmap_err; by rewrite from_pool_answers).
    unfold TokenEndpoint.post. rewrite (bind_run_Ok _ _ _ c w1) by by apply authenticate_answers.
    erewrite bind_run_Ok by done. unfold device_code_grant, TokenEndpoint.guard.
    rewrite Hen, Hgt. unfold bind, ret. simpl.
    by destruct (fulfilled_device_grant _ _ _) as [[[]|] ?]; simplify_eq/=. }
  pose proof (device_find_answers w1 gid r Hw Hint Hr) as Hf.
  unfold DeviceCodeGrantRepository.try_from in Hf. rewrite Hst in Hf.
  destruct (Scope_from_str _) as [sc|]; simpl in Hf; apply Hgo; unfold fulfilled_device_grant.
  - erewrite bind_run_Ok by (unfold TokenEndpoint.repo, mmap_err; simpl; by rewrite Hf).
    unfold bind, TokenEndpoint.require, TokenEndpoint.guard, lift. simpl.
    rewrite bool_decide_eq_true_2 by done. simpl. by destruct (_ <? _)%Z.
  - unfold bind, TokenEndpoint.repo, mmap_err. simpl. by rewrite Hf.
Qed.
End Device.

(** ** Claims *)

Section Claims.
Context {R : Type} `{!RngCore R, !RngLaws R} {crc : Crc} {base64 : Base64} {sha2 : Sha2}
  {ulid_text : UlidText} {url_lib : UrlLib} {jwks_json : JwksJson}
  {client_crypto : ClientCrypto} {policy : Policy} {templates : Templates}
  {keystore : Keystore R} {url_builder : UrlBuilder}.
Implicit Types w : World R.

(** A device authorization request that succeeds was made by an
    authenticated client with the device code grant type while the grant is
    enabled; it answers a device code of 32 letters and digits and a user code of 6
    digits and upper case letters, valid for 20 minutes, and it adds to the
    database one pending grant of that client with these codes, the requested
    scope and that expiry, and nothing else. *)
Theorem device_authorization ip cfg ua auth w resp w' :
  device_authorization_request ip cfg ua auth w = (Ok resp, w') →
  device_code_grant_enabled cfg = true ∧
  ∃ c gid n,
    authenticated (w_committed w) (credentials auth) c ∧
    Client.has_grant_type c DeviceCode = true ∧
    str_len (device_code resp) = 32 ∧
    all_chars ascii_alphanumeric (device_code resp) = true ∧
    str_len (user_code resp) = 6 ∧ all_chars user_code_char (user_code resp) = true ∧
    expires_in resp = EXPIRES_IN ∧ interval resp = Some INTERVAL ∧
    (is_Some (verification_uri_complete resp) ↔
       device_code_user_code_auto_fill_enabled cfg = true) ∧
    oauth2_device_code_grant (w_committed w) !! gid = None ∧
    w_committed w' = set_rows (<[gid := pending_row gid (Client.id c) (requested_scope auth)
        (device_code resp) (user_code resp) (w_clock w n) ip ua]>
      (oauth2_device_code_grant (w_committed w))) (w_committed w).
Proof. apply device_request_Ok. Qed.

(** The stored grant, as a later request of the same client finds it. *)
Lemma stored_grant ip cfg ua auth w resp w' :
  integrity (w_committed w) →
  device_authorization_request ip cfg ua auth w = (Ok resp, w') →
  device_code_grant_enabled cfg = true ∧ integrity (w_committed w') ∧
  ∃ c gid t, authenticated (w_committed w') (credentials auth) c ∧
    Client.has_grant_type c DeviceCode = true ∧
    oauth2_device_code_grant (w_committed w') !! gid =
      Some (pending_row gid (Client.id c) (requested_scope auth) (device_code resp)
              (user_code resp) t ip ua).
Proof.
  intros Hint H. pose proof (device_request_integrity ip cfg ua auth w Hint) as Hint'.
  rewrite H in Hint'. simpl in Hint'.
  apply device_request_Ok in H
    as (Hen & c & gid & n & Ha & Hgt & _ & _ & _ & _ & _ & _ & _ & _ & Hc). rewrite Hc in *.
  split_and!; [exact Hen | exact Hint' |]. exists c, gid, (w_clock w n). split_and!; try done.
  apply lookup_insert_eq.
Qed.

(** A device that asked for a non-empty scope and polls the token endpoint
    with its device code, before the user has decided, is told that the
    authorization is pending until the grant expires, and that the code is
    expired afterwards. *)
Theorem device_polling ip cfg ua auth w resp w' :
  integrity (w_committed w) →
  device_authorization_request ip cfg ua auth w = (Ok resp, w') →
  scope_ok (requested_scope auth) → requested_scope auth ≠ [] →
  ∃ gid r, oauth2_device_code_grant (w_committed w') !! gid = Some r ∧
    OAuth2DeviceGrantLookup.device_code r = device_code resp ∧
    ∀ ip2 ua2 w2, w_committed w2 = w_committed w' → w_driver_faults w2 = [] →
      (poll ip2 cfg ua2 (credentials auth) (device_code resp) w2).1 =
      Err (if (OAuth2DeviceGrantLookup.expires_at r <? w_clock w2 (w_ticks w2))%Z
           then DeviceCodeExpired else DeviceCodePending).
Proof.
  intros Hint H Hsc Hne. apply stored_grant in H as (Hen & Hint' & c & gid & t & Ha & Hgt & Hr);
    [|done].
  eexists gid, _. split_and!; [exact Hr | done |]. intros ip2 ua2 w2 Hc Hw. rewrite <- Hc in *.
  pose proof (poll_run ip2 cfg ua2 _ c w2 gid _ Hw Hint' Hen Ha Hgt Hr eq_refl eq_refl) as Hp.
  simpl in Hp. by rewrite Scope_reads_back in Hp.
Qed.

(** A device authorization request without a scope is answered like any
    other, but the grant it stores cannot be read back: the device that polls
    with its code is answered with an internal error, never with pending. *)
Theorem device_without_scope ip cfg ua auth w resp w' :
  integrity (w_committed w) →
  device_authorization_request ip cfg ua auth w = (Ok resp, w') →
  form auth ≫= scope = None →
  ∀ ip2 ua2 w2, w_committed w2 = w_committed w' → w_driver_faults w2 = [] →
    ∃ e, (poll ip2 cfg ua2 (credentials auth) (device_code resp) w2).1 = Err e ∧
      TokenEndpoint.into_response e = (500%Z, client_error ClientErrorCode.ServerError).
Proof.
  intros Hint H Hsc ip2 ua2 w2 Hc Hw.
  apply stored_grant in H as (Hen & Hint' & c & gid & t & Ha & Hgt & Hr); [|done].
  rewrite <- Hc in *.
  pose proof (poll_run ip2 cfg ua2 _ c w2 gid _ Hw Hint' Hen Ha Hgt Hr eq_refl eq_refl) as Hp.
  simpl in Hp. unfold requested_scope in Hp. rewrite Hsc in Hp. simpl in Hp.
  eexists. split; [exact Hp | reflexivity].
Qed.
End Claims.

(** ** Witnesses *)

Section Witnesses.
Import Scenario.

#[export] Instance plain_links : UrlBuilder := {
  http_base := "https://auth.example.com/";
  urlencoded_code code := match code with Some c => "code=" +:+ c | None => "" end;
  url_join base path := base +:+ path;
}.

Definition authorize (s : option Scope) : ClientAuthorization DeviceAuthorizationRequest :=
  mkClientAuthorization client_credentials (Some (mkDeviceAuthorizationRequest s)).
Definition asked_world : World Z := world OtherGrants.device_db 5 0.
Definition asked (s : option Scope) :=
  device_authorization_request None config None (authorize s) asked_world.
Definition answer (s : option Scope) : DeviceAuthorizationResponse :=
  match (asked s).1 with
  | Ok r => r
  | Err _ => mkDeviceAuthorizationResponse "" "" "" None 0 None
  end.

Example asked_links : verification_uri (answer None) = "https://auth.example.com/link" ∧
  verification_uri_complete (answer None) =
    Some ("https://auth.example.com/link?code=" +:+ user_code (answer None)).
Proof. vm_compute. done. Qed.

Lemma device_authorization_witness : str_len (user_code (answer (Some [scope_text]))) = 6.
Proof.
  destruct (device_authorization None config None (authorize (Some [scope_text])) asked_world
              (answer (Some [scope_text])) (asked (Some [scope_text])).2)
    as (_ & c & gid & n & _ & _ & _ & _ & H & _).
  - unfold asked. apply fst_run. vm_compute. reflexivity.
  - exact H.
Defined.

(** The world after the request, at a reading of the clock. *)
Definition later (s : option Scope) (ticks : nat) : World Z :=
  world (w_committed (asked s).2) 50 ticks.

Lemma device_polling_witness : ∃ gid r,
  oauth2_device_code_grant (w_committed (asked (Some [scope_text])).2) !! gid = Some r ∧
  OAuth2DeviceGrantLookup.device_code r = device_code (answer (Some [scope_text])) ∧
  (poll None config None client_credentials (device_code (answer (Some [scope_text])))
     (later (Some [scope_text]) 10)).1 =
  Err (if (OAuth2DeviceGrantLookup.expires_at r <? clock 10)%Z
       then DeviceCodeExpired else DeviceCodePending).
Proof.
  destruct (device_polling None config None (authorize (Some [scope_text])) asked_world
              (answer (Some [scope_text])) (asked (Some [scope_text])).2)
    as (gid & r & Hr & Hd & Hp).
  - apply OtherGrants.integrity_device_db.
  - unfold asked. apply fst_run. vm_compute. reflexivity.
  - split; repeat constructor; done.
  - done.
  - exists gid, r. split_and!; [exact Hr | exact Hd |].
    apply (Hp None None (later (Some [scope_text]) 10)); reflexivity.
Defined.

Lemma device_without_scope_witness : ∃ e,
  (poll None config None client_credentials (device_code (answer None)) (later None 10)).1
    = Err e ∧
  TokenEndpoint.into_response e = (500%Z, client_error ClientErrorCode.ServerError).
Proof.
  apply (device_without_scope None config None (authorize None) asked_world (answer None)
           (asked None).2).
  - apply OtherGrants.integrity_device_db.
  - unfold asked. apply fst_run. vm_compute. reflexivity.
  - reflexivity.
  - reflexivity.
  - reflexivity.
Defined.
End Witnesses.
