(* ===== verification/RevocationFacts.v ===== *)
(** * Correctness of the revocation endpoint

    What a successful or a refused request to
    crates/handlers/src/oauth2/revoke.rs does to the database. *)

From stdpp Require Import base tactics list strings gmap.
From Stdlib Require Import ZArith Lia Ascii.
From S2P Require Import Prelude Text Scope Externals Formats TokenFormat DataModel Storage TokenRepo GrantRepo QueueRepo UserRepo ClientAuth TokenEndpoint Revocation RepoFacts Integrity Evolution Scenario TokenFacts CodeExchange RefreshRotation.

#[export] Hint Unfold Revoke.repo Revoke.require Revoke.guard Revoke.authenticate
  Revoke.session_of_token Revoke.finish_browser_session Revoke.post : mas_ops.

Section Runs.
Context {R : Type} `{!RngCore R} {crc : Crc} {base64 : Base64} {ulid_text : UlidText}
  {url_lib : UrlLib} {jwks_json : JwksJson} {client_crypto : ClientCrypto}.
Implicit Types w : World R.

Lemma revoke_guard_inv c e w u w' : Revoke.guard c e w = (Ok u, w') → c = true ∧ w' = w.
Proof. unfold Revoke.guard. destruct c; [by intros [= <- <-] | done]. Qed.

Lemma revoke_require_inv {A} (o : option A) e w a w' :
  Revoke.require o e w = (Ok a, w') → o = Some a ∧ w' = w.
Proof. unfold Revoke.require, lift, ok_or. destruct o; naive_solver. Qed.

Lemma revoke_authenticate_Ok cr w c w' :
  Revoke.authenticate cr w = (Ok c, w') → same_db w w' ∧ authenticated (w_txn w) cr c.
Proof.
  intros (o & w1 & Hf%mmap_err_Ok_inv & H)%bind_Ok_inv.
  apply bind_Ok_inv in H as (c' & w2 & [-> ->]%revoke_require_inv & H).
  apply bind_Ok_inv in H as (m & w3 & [Hm ->]%revoke_require_inv & H).
  apply bind_Ok_inv in H as ([] & w4 & [Hv%map_err_Ok ->]%lift_inv & [= <- <-]).
  apply fetch_Ok in Hf as [Hdb (s & id & row & ? & ? & ? & ?)]. split; [done|].
  exists s, id, row, m. split_and!; try done. by apply verify_Ok_iff.
Qed.

(** ** What the endpoint checks and writes *)

(** The token of the request: an access token, neither revoked nor expired,
    or a live refresh token, of the session [sid]; a hint has to be right. *)
Definition presented_token (d : Db) (t : DateTime) (form : Revoke.RevocationRequest)
    (sid : Ulid) : Prop :=
  (check (Revoke.token form) = Ok AccessTokenType ∧
   Revoke.token_type_hint form ∈ [None; Some HintAccessToken] ∧
   ∃ k a, oauth2_access_tokens d !! k = Some a ∧
     OAuth2AccessTokenLookup.access_token a = Revoke.token form ∧ unrevoked a ∧
     (∀ e, OAuth2AccessTokenLookup.expires_at a = Some e → (t ≤ e)%Z) ∧
     OAuth2AccessTokenLookup.oauth2_session_id a = sid) ∨
  (check (Revoke.token form) = Ok RefreshTokenType ∧
   Revoke.token_type_hint form ∈ [None; Some HintRefreshToken] ∧
   ∃ k r, oauth2_refresh_tokens d !! k = Some r ∧
     OAuth2RefreshTokenLookup.refresh_token r = Revoke.token form ∧ live r ∧
     OAuth2RefreshTokenLookup.oauth2_session_id r = sid).

Lemma access_valid_row a t :
  AccessToken.is_valid (AccessTokenRepository.of_row a) t = true →
  unrevoked a ∧ ∀ e, OAuth2AccessTokenLookup.expires_at a = Some e → (t ≤ e)%Z.
Proof.
  unfold AccessToken.is_valid, AccessToken.is_expired, unrevoked, AccessTokenRepository.of_row.
  simpl. intros [Hs He]%andb_true_iff. split; [by destruct (OAuth2AccessTokenLookup.revoked_at a)|].
  intros e Hexp. rewrite Hexp in He. apply negb_true_iff, Z.ltb_ge in He. done.
Qed.

Lemma session_of_token_Ok form ty w sid w' :
  check (Revoke.token form) = Ok ty →
  Revoke.session_of_token form ty w = (Ok sid, w') →
  same_db w w' ∧ ∃ n, presented_token (w_txn w) (w_clock w n) form sid.
Proof.
  intros Hty H. unfold Revoke.session_of_token in H.
  assert (∀ u, ty = AccessTokenType →
    Revoke.token_type_hint form ∈ [None; Some HintAccessToken] →
    (do access_token <- Revoke.repo (AccessTokenRepository.find_by_token (Revoke.token form));
     do access_token <- Revoke.require access_token Revoke.UnknownToken;
     do now_ <- now;
     do! Revoke.guard (AccessToken.is_valid access_token now_) Revoke.UnknownToken;
     ret (AccessToken.session_id access_token)) w = (Ok sid, u) →
    same_db w u ∧ ∃ n, presented_token (w_txn w) (w_clock w n) form sid) as Hacc.
  { intros u -> Hh (o & w1 & [D1 Ho]%mmap_err_Ok_inv%access_find_inv & Hr)%bind_Ok_inv.
    apply bind_Ok_inv in Hr as (a & ? & [-> ->]%revoke_require_inv & Hr).
    apply bind_Ok_inv in Hr as (t & w2 & [Ht D2]%now_inv & Hr).
    apply bind_Ok_inv in Hr as (x & ? & [Hv ->]%revoke_guard_inv & [= <- <-]).
    destruct Ho as (k & r & Hr & Htxt & ->). apply access_valid_row in Hv as [Hu He].
    split; [by transitivity w1|]. exists (w_ticks w1). left. subst t.
    destruct D1 as (_ & _ & Hk). rewrite Hk in He. naive_solver. }
  assert (∀ u, ty = RefreshTokenType →
    Revoke.token_type_hint form ∈ [None; Some HintRefreshToken] →
    (do refresh_token <- Revoke.repo (RefreshTokenRepository.find_by_token (Revoke.token form));
     do refresh_token <- Revoke.require refresh_token Revoke.UnknownToken;
     do! Revoke.guard (RefreshToken.is_valid refresh_token) Revoke.UnknownToken;
     ret (RefreshToken.session_id refresh_token)) w = (Ok sid, u) →
    same_db w u ∧ ∃ n, presented_token (w_txn w) (w_clock w n) form sid) as Href.
  { intros u -> Hh (o & w1 & [D1 Ho]%mmap_err_Ok_inv%refresh_find_inv & Hr)%bind_Ok_inv.
    apply bind_Ok_inv in Hr as (a & ? & [-> ->]%revoke_require_inv & Hr).
    apply bind_Ok_inv in Hr as (x & ? & [Hv ->]%revoke_guard_inv & [= <- <-]).
    destruct Ho as (k & r & Hr & Htxt & (_ & Hs & _ & _ & Hl & _)%refresh_of_row).
    apply Hl in Hv. split; [done|]. exists 0. right. rewrite Hs. naive_solver. }
  destruct (Revoke.token_type_hint form) as [[]|], ty; try done;
    (apply Hacc in H || apply Href in H); try done; rewrite !elem_of_cons; naive_solver.
Qed.

(** The browser session [bid] that goes with the session: that of a session
    with the scope [urn:pg:mas-logout], unless it is finished. *)
Definition logged_out (d : Db) (s : OAuthSessionLookup.t) (bid : Ulid)
    (b : UserSessionRow.t) : Prop :=
  Scope_contains (Scope_from_iter (OAuthSessionLookup.scope_list s)) PG_MAS_LOGOUT = true ∧
  OAuthSessionLookup.user_session_id s = Some bid ∧ user_sessions d !! bid = Some b ∧
  UserSessionRow.finished_at b = None.

(** What the revocation writes: the session [sid] is finished; when its
    browser session goes with it, that and all its sessions still valid are
    finished as well; a job syncs the devices of the user. *)
Record revoke_effect (d d' : Db) (sid : Ulid) (s : OAuthSessionLookup.t) : Prop := {
  rv_session : ∃ t, oauth2_sessions d' !! sid = Some (SessionRepository.with_finished_at t s);
  rv_others : ∀ k r, k ≠ sid → oauth2_sessions d !! k = Some r →
    (∃ bid b t, logged_out d s bid b ∧ OAuthSessionLookup.user_session_id r = Some bid ∧
       OAuthSessionLookup.finished_at r = None ∧
       oauth2_sessions d' !! k = Some (SessionRepository.with_finished_at t r)) ∨
    (oauth2_sessions d' !! k = Some r ∧
     ∀ bid b, logged_out d s bid b → OAuthSessionLookup.user_session_id r = Some bid →
       OAuthSessionLookup.finished_at r ≠ None);
  rv_browser : ∀ k b, user_sessions d !! k = Some b →
    (logged_out d s k b ∧ ∃ t, user_sessions d' !! k =
       Some (BrowserSessionRepository.with_finished_at t b)) ∨
    (¬ logged_out d s k b ∧ user_sessions d' !! k = Some b);
  rv_job : match OAuthSessionLookup.user_id s with
    | Some uid => ∃ jid t, queue_jobs d !! jid = None ∧ queue_jobs d' =
        <[jid := QueueJobRepository.sync_devices_row jid uid t]> (queue_jobs d)
    | None => queue_jobs d' = queue_jobs d
    end;
  rv_frame : dom (oauth2_sessions d') = dom (oauth2_sessions d) ∧
    oauth2_access_tokens d' = oauth2_access_tokens d ∧
    oauth2_refresh_tokens d' = oauth2_refresh_tokens d ∧
    oauth2_authorization_grants d' = oauth2_authorization_grants d ∧
    oauth2_device_code_grant d' = oauth2_device_code_grant d ∧
    users d' = users d ∧ oauth2_clients d' = oauth2_clients d;
}.

(** The condition of the bulk update: the sessions of the browser session
    that are still valid. *)
Lemma bulk_condition b d r :
  OAuth2SessionFilter.generate_condition
    (OAuth2SessionFilter.active_only
       (OAuth2SessionFilter.for_browser_session b OAuth2SessionFilter.new)) d r = true ↔
  OAuthSessionLookup.user_session_id r = Some (BrowserSession.id b) ∧
  OAuthSessionLookup.finished_at r = None.
Proof.
  unfold OAuth2SessionFilter.generate_condition, BrowserSessionFilter.add_option. simpl.
  rewrite ?andb_true_r, andb_true_iff, bool_decide_eq_true.
  destruct (OAuthSessionLookup.finished_at r); naive_solver.
Qed.

Lemma finish_browser_session_Ok logout us w u w' :
  keyed UserSessionRow.user_session_id (user_sessions (w_txn w)) →
  refs (λ r, Some (UserSessionRow.user_id r)) (user_sessions (w_txn w)) (users (w_txn w)) →
  Revoke.finish_browser_session logout us w = (Ok u, w') →
  same_committed w w' ∧
  ((w_txn w' = w_txn w ∧ ∀ bid b, logout = true → us = Some bid →
      user_sessions (w_txn w) !! bid = Some b → UserSessionRow.finished_at b ≠ None) ∨
   ∃ bid b t t', logout = true ∧ us = Some bid ∧
     user_sessions (w_txn w) !! bid = Some b ∧ UserSessionRow.finished_at b = None ∧
     w_txn w' = set_rows (<[bid := BrowserSessionRepository.with_finished_at t' b]>
                            (user_sessions (w_txn w)))
       (set_rows ((λ r, if bool_decide (OAuthSessionLookup.user_session_id r = Some bid) &&
                           bool_decide (OAuthSessionLookup.finished_at r = None)
                        then SessionRepository.with_finished_at t r else r)
                    <$> oauth2_sessions (w_txn w)) (w_txn w))).
Proof.
  intros Hpk Hfk. unfold Revoke.finish_browser_session.
  destruct logout; [|intros [= <- <-]; split; [done|]; by left].
  destruct us as [bid|]; [|intros [= <- <-]; split; [done|]; by left].
  intros (o & w1 & [(Ht & C1 & K1) Ho]%mmap_err_Ok_inv%browser_lookup_inv & H)%bind_Ok_inv.
  destruct (BrowserSessionRepository.select_session bid (w_txn w)) as [x|] eqn:Hsel; simpl in Ho;
    subst o.
  2: { injection H as <- <-. split; [split; congruence|]. left. split; [done|].
    intros bid' b _ [= <-] Hb. exfalso. revert Hsel.
    unfold BrowserSessionRepository.select_session. rewrite Hb. simpl.
    destruct (Hfk bid b _ Hb eq_refl) as [u0 ->]. done. }
  apply browser_select_Some in Hsel as [Hb Hu]. destruct x as [b bu]. simpl in *.
  apply Hpk in Hb as Hbk.
  destruct (UserSessionRow.finished_at b) as [f|] eqn:Hf; simpl in H.
  { injection H as <- <-. split; [split; congruence|]. left. split; [done|].
    intros bid' b' _ [= <-] Hb'. congruence. }
  apply bind_Ok_inv in H as (n & w2 & Hbulk%mmap_err_Ok_inv%session_finish_bulk_inv & H).
  apply bind_Ok_inv in H as (b' & w3 & Hfin%mmap_err_Ok_inv%browser_finish_inv & [= <- <-]).
  destruct Hbulk as (t & Ht2 & [C2 K2]), Hfin as (t' & br & Hbr & _ & Ht3 & [C3 K3]).
  rewrite Ht3, Ht2, Ht in *. simpl in *. rewrite Hbk in *.
  assert (br = b) as -> by congruence.
  split; [split; congruence|]. right. exists bid, b, t, t'. split_and!; try done.
  f_equal. apply map_fmap_ext. intros k r _.
  match goal with |- (if ?a then _ else _) = (if ?c then _ else _) => assert (a = c) as -> end;
    [|done].
  apply eq_true_iff_eq. rewrite bulk_condition, andb_true_iff, !bool_decide_eq_true. done.
Qed.

Lemma collect_tokens_Ok l l' : collect ScopeToken_from_str l = Ok l' → l' = l.
Proof.
  intros H%collect_Ok_Forall2. induction H as [|x y l l' [-> _]%ScopeToken_from_str_Ok _ IH];
    [done | by subst].
Qed.

Lemma session_row_scope r s :
  SessionRepository.try_from r = Ok s →
  Session.scope s = Scope_from_iter (OAuthSessionLookup.scope_list r).
Proof.
  unfold SessionRepository.try_from.
  intros (ts & Hts%eq_sym%map_err_Ok%collect_tokens_Ok & [= <-])%rbind_Ok_inv. by subst.
Qed.

(** The job that syncs the devices of the user of the session. *)
Lemma sync_job_inv uid w u w' :
  integrity (w_txn w) →
  match uid with
  | Some user_id =>
      do user <- Revoke.repo (UserRepository.lookup user_id);
      do user <- Revoke.require user Revoke.UnknownToken;
      Revoke.repo (QueueJobRepository.schedule_sync_devices user)
  | None => ret tt
  end w = (Ok u, w') →
  same_committed w w' ∧
  match uid with
  | Some uid => ∃ jid t, queue_jobs (w_txn w) !! jid = None ∧ w_txn w' = set_rows
      (<[jid := QueueJobRepository.sync_devices_row jid uid t]>
         (queue_jobs (w_txn w))) (w_txn w)
  | None => w_txn w' = w_txn w
  end.
Proof.
  intros Hint. destruct uid as [uid|]; [|by intros [= <- <-]].
  intros (o & w1 & [(Ht & C1 & K1) ->]%mmap_err_Ok_inv%user_lookup_inv & H)%bind_Ok_inv.
  apply bind_Ok_inv in H as (x & ? & [Hx ->]%revoke_require_inv & H).
  apply mmap_err_Ok_inv, schedule_inv in H as (jid & t & Hj & Hw & [C2 K2]).
  destruct (users (w_txn w) !! uid) as [ur|] eqn:Hu; [|done]. injection Hx as <-.
  apply (users_pkey _ Hint) in Hu. simpl in Hw. rewrite Hu, Ht in *.
  split; [split; congruence|]. exists jid, t. done.
Qed.

(** The final database, read back as the effect above. *)
Lemma revoke_effect_intro d d6 d' sid s t jobs :
  oauth2_sessions d !! sid = Some s →
  match OAuthSessionLookup.user_id s with
  | Some uid => ∃ jid t, queue_jobs d !! jid = None ∧ jobs =
      <[jid := QueueJobRepository.sync_devices_row jid uid t]> (queue_jobs d)
  | None => jobs = queue_jobs d
  end →
  d6 = set_rows (<[sid := SessionRepository.with_finished_at t s]> (oauth2_sessions d))
         (set_rows jobs d) →
  ((d' = d6 ∧ ∀ bid b, ¬ logged_out d s bid b) ∨
   ∃ bid b t t', logged_out d s bid b ∧
     d' = set_rows (<[bid := BrowserSessionRepository.with_finished_at t' b]> (user_sessions d))
       (set_rows ((λ r, if bool_decide (OAuthSessionLookup.user_session_id r = Some bid) &&
                           bool_decide (OAuthSessionLookup.finished_at r = None)
                        then SessionRepository.with_finished_at t r else r)
                    <$> oauth2_sessions d6) d6)) →
  revoke_effect d d' sid s.
Proof.
  intros Hs Hjobs -> [[-> Hno]|(bid & b & t1 & t2 & Hlo & ->)].
  - split; simpl; [eexists; apply lookup_insert_eq | | | |].
    + intros k r Hk Hr. right. rewrite lookup_insert_ne by done. naive_solver.
    + intros k b Hb. right. split; [apply Hno | done].
    + destruct (OAuthSessionLookup.user_id s); naive_solver.
    + split_and!; try done. apply dom_insert_lookup_L. eauto.
  - pose proof Hlo as (Hsc & Hus & Hb & Hf). split; simpl.
    + exists t. rewrite lookup_fmap, lookup_insert_eq. simpl.
      by destruct (bool_decide _).
    + intros k r Hk Hr. rewrite lookup_fmap, lookup_insert_ne, Hr by done. simpl.
      destruct (bool_decide_reflect (OAuthSessionLookup.user_session_id r = Some bid)) as [Hu|Hu],
        (bool_decide_reflect (OAuthSessionLookup.finished_at r = None)) as [Hn|Hn]; simpl.
      * left. exists bid, b, t1. done.
      * right. done.
      * right. split; [done|]. intros bid' b' (_ & Hus' & _). congruence.
      * right. split; [done|]. intros bid' b' (_ & Hus' & _). congruence.
    + intros k b' Hb'. destruct (decide (k = bid)) as [->|Hne].
      * simplify_eq. left. split; [done|]. exists t2. apply lookup_insert_eq.
      * right. rewrite lookup_insert_ne by done. split; [|done].
        intros (_ & Hus' & _). congruence.
    + destruct (OAuthSessionLookup.user_id s); naive_solver.
    + split_and!; try done. rewrite dom_fmap_L. apply dom_insert_lookup_L. eauto.
Qed.

Lemma revoke_post_Ok ip auth w u w' :
  integrity (w_txn w) →
  Revoke.post ip auth w = (Ok u, w') →
  ∃ c form n sid s, ClientAuth.form auth = Some form ∧
    authenticated (w_txn w) (credentials auth) c ∧
    presented_token (w_txn w) (w_clock w n) form sid ∧
    oauth2_sessions (w_txn w) !! sid = Some s ∧ OAuthSessionLookup.finished_at s = None ∧
    OAuthSessionLookup.oauth2_client_id s = Client.id c ∧
    revoke_effect (w_txn w) (w_committed w') sid s.
Proof.
  intros Hint H. unfold Revoke.post in H.
  apply bind_Ok_inv in H as (c & w1 & [(Ht1 & _ & K1) Hauth]%revoke_authenticate_Ok & H).
  apply bind_Ok_inv in H as (form & ? & [Hform ->]%revoke_require_inv & H).
  apply bind_Ok_inv in H as (ty & ? & [Hty%map_err_Ok ->]%lift_inv & H).
  apply bind_Ok_inv in H as (sid & w2 & [(Ht2 & _) [n Hp]]%session_of_token_Ok & H); [|done].
  apply bind_Ok_inv in H as (o & w3 & [(Ht3 & _) Ho]%mmap_err_Ok_inv%session_lookup_inv & H).
  apply bind_Ok_inv in H as (x & ? & [-> ->]%revoke_require_inv & H).
  destruct Ho as (s & Hs & Hx). apply session_row_scope in Hx as Hscope.
  destruct (session_of_row _ _ Hx) as (Hid & Hv & Hcl & Huid & Hus).
  apply bind_Ok_inv in H as ([] & ? & [Hval ->]%revoke_guard_inv & H).
  apply bind_Ok_inv in H as ([] & ? & [Hcc%bool_decide_eq_true ->]%revoke_guard_inv & H).
  apply bind_Ok_inv in H as ([] & w4 & (Ht4 & _)%record_activity_inv & H).
  rewrite Ht3, Ht2, Ht1 in *. rewrite <- Ht4 in Hint.
  apply bind_Ok_inv in H as ([] & w5 & [_ Hjob]%sync_job_inv & H); [|done].
  apply bind_Ok_inv in H as (s' & w6 & Hfin%mmap_err_Ok_inv%session_finish_inv & H).
  destruct Hfin as (t & r & Hr & _ & Ht6 & _). rewrite Ht4 in Hint.
  rewrite Hv in Hval. apply bool_decide_eq_true in Hval.
  apply bind_Ok_inv in H as ([] & w7 & Hb & H). apply mmap_err_Ok_inv, save_inv in H as [-> _].
  apply (sessions_pkey _ Hint) in Hs as Hsk.
  assert (∃ jobs, w_txn w5 = set_rows jobs (w_txn w) ∧
    match OAuthSessionLookup.user_id s with
    | Some uid => ∃ jid t, queue_jobs (w_txn w) !! jid = None ∧ jobs =
        <[jid := QueueJobRepository.sync_devices_row jid uid t]> (queue_jobs (w_txn w))
    | None => jobs = queue_jobs (w_txn w)
    end) as (jobs & Ht5 & Hjobs).
  { rewrite Huid, Ht4 in Hjob. destruct (OAuthSessionLookup.user_id s); [naive_solver|].
    exists (queue_jobs (w_txn w)). split; [rewrite Hjob; by destruct (w_txn w) | done]. }
  rewrite Ht5, Hid, Hsk in *. simpl in *. assert (r = s) as -> by congruence.
  apply finish_browser_session_Ok in Hb as [_ Hb]; rewrite Ht6 in *; simpl in *;
    [| by apply Hint..].
  rewrite Hscope, Hus in Hb.
  exists c, form, n, sid, s. split_and!; try done; try congruence.
  eapply (revoke_effect_intro _ _ _ _ _ t jobs Hs Hjobs eq_refl). unfold logged_out. simpl.
  destruct Hb as [[Hw Hno]|(bid & b & t1 & t2 & Hlo & Hub & Hb & Hbf & Hw)]; rewrite Hw.
  - left. split; [done|]. intros bid b (Hlo & Hub & Hb & Hbf). by eapply Hno.
  - right. exists bid, b, t1, t2. split_and!; done.
Qed.

(** ** Every request *)

Lemma revoke_post_keeps_integrity ip auth : keeps keeps_integrity (Revoke.post (R := R) ip auth).
Proof. keeps_tac. Qed.
Lemma revoke_post_keeps_evolution ip auth : keeps keeps_evolution (Revoke.post (R := R) ip auth).
Proof. keeps_tac. Qed.

Lemma revoke_request_integrity ip auth :
  txn_keeps preserves_integrity (Revoke.revoke_request (R := R) ip auth).
Proof. apply txn_keeps_pool, revoke_post_keeps_integrity. apply _. Qed.

(** C22: a revocation request succeeds only when the client authenticated and
    the token is a valid access token or a live refresh token of a session of
    that client that is not finished; the session is then finished for good
    in the database, with a job to sync the devices of its user, and, when the
    session has the scope [urn:pg:mas-logout], the browser session it came
    from and all the sessions of that browser session still valid are finished
    with it; no other session, browser session or token changes. *)
Theorem revocation_ends_session ip auth w u w' :
  integrity (w_committed w) →
  Revoke.revoke_request ip auth w = (Ok u, w') →
  ∃ c form n sid s, ClientAuth.form auth = Some form ∧
    authenticated (w_committed w) (credentials auth) c ∧
    presented_token (w_committed w) (w_clock w n) form sid ∧
    oauth2_sessions (w_committed w) !! sid = Some s ∧
    OAuthSessionLookup.finished_at s = None ∧
    OAuthSessionLookup.oauth2_client_id s = Client.id c ∧
    revoke_effect (w_committed w) (w_committed w') sid s.
Proof.
  intros Hint (u0 & w0 & [Ht [_ Hk]]%mmap_err_Ok_inv%from_pool_inv & H)%bind_Ok_inv.
  rewrite <- Ht in *. rewrite <- Hk. by eapply revoke_post_Ok.
Qed.

(** A revocation request that is refused leaves the committed database
    as it was, whatever the reason. *)
Theorem revoke_refused_atomic ip auth w e w' :
  Revoke.revoke_request ip auth w = (Err e, w') → w_committed w' = w_committed w.
Proof.
  assert (err_keeps same_committed (Revoke.revoke_request (R := R) ip auth)) as Hk.
  { repeat (apply err_keeps_bind; [apply _ | keeps_tac | intros ?]).
    intros w0 e0 w0' (e1 & H%err_keeps_save & _)%mmap_err_Err_inv. done. }
  intros H. by apply Hk in H as [? _].
Qed.
End Runs.

(** ** Witnesses *)

Section Witnesses.
Import Scenario.

(** The access token of the exchange, revoked. *)
Definition revoke_form (r : AccessTokenResponse) : Revoke.RevocationRequest :=
  Revoke.mkRevocationRequest (r_access_token r) None.
Definition revoke_auth (r : AccessTokenResponse) : ClientAuthorization Revoke.RevocationRequest :=
  mkClientAuthorization client_credentials (Some (revoke_form r)).
Definition revoke_run := Revoke.revoke_request None (revoke_auth exchange_response) refresh_world.

Example revoke_run_ok : is_ok revoke_run.1 = true.
Proof. vm_compute. reflexivity. Qed.

Lemma revocation_ends_session_witness : ∃ c form n sid s,
  ClientAuth.form (revoke_auth exchange_response) = Some form ∧
  authenticated (w_committed refresh_world) (credentials (revoke_auth exchange_response)) c ∧
  presented_token (w_committed refresh_world) (w_clock refresh_world n) form sid ∧
  oauth2_sessions (w_committed refresh_world) !! sid = Some s ∧
  OAuthSessionLookup.finished_at s = None ∧
  OAuthSessionLookup.oauth2_client_id s = Client.id c ∧
  revoke_effect (w_committed refresh_world) (w_committed revoke_run.2) sid s.
Proof.
  apply (revocation_ends_session None (revoke_auth exchange_response) refresh_world tt).
  - apply exchanged_db_integrity.
  - unfold revoke_run. apply fst_run. vm_compute. reflexivity.
Defined.

(** The same token revoked once more. *)
Definition revoke_again :=
  Revoke.revoke_request None (revoke_auth exchange_response) revoke_run.2.

Lemma revoke_refused_atomic_witness :
  w_committed revoke_again.2 = w_committed revoke_run.2.
Proof.
  apply (revoke_refused_atomic None (revoke_auth exchange_response) revoke_run.2
           Revoke.UnknownToken revoke_again.2).
  unfold revoke_again. apply fst_run. vm_compute. reflexivity.
Defined.
End Witnesses.
