(* ===== verification/GraphqlFacts.v ===== *)
(** * Correctness of the sessions in the GraphQL API

    Node identifiers round trip; who a request is made by, and what the
    mutations on sessions allow and write. *)

From stdpp Require Import base tactics list strings gmap.
From Stdlib Require Import ZArith Lia Ascii.
From S2P Require Import Prelude Text Scope Externals Formats TokenFormat DataModel Storage TokenRepo GrantRepo QueueRepo UserRepo ClientAuth TokenEndpoint Revocation GraphqlSession RepoFacts Integrity Evolution Scenario TokenFacts CodeExchange RefreshRotation OtherGrants RevocationFacts.

Import Graphql.

(** ** Node identifiers *)

Lemma prefix_roundtrip t : from_prefix (to_prefix t) = Some t.
Proof. by destruct t. Qed.

Section NodeIds.
Context {ulid_text : UlidText} {ulid_laws : UlidTextLaws}.

(** The identifier of a node is read back as its type and its ULID, and
    extracting the ULID succeeds for that type of node only. *)
Theorem node_id_roundtrip t t' id :
  (0 ≤ id < 2 ^ 128)%Z →
  deserialize (serialize t id) = Ok (t, id) ∧
  extract_ulid t' (serialize t id) =
    if decide (t = t') then Ok id else Err (TypeMismatch t t').
Proof.
  intros Hid.
  assert (deserialize (serialize t id) = Ok (t, id)) as Hd.
  { unfold deserialize, serialize. rewrite app_str_cons, app_str_nil_l, split_once_app
      by by destruct t. simpl. rewrite prefix_roundtrip. simpl.
    by rewrite ulid_print_parse. }
  split; [done|]. unfold extract_ulid. rewrite Hd. done.
Qed.
End NodeIds.

(** ** The requester *)

Section Requesters.
Context {R : Type} `{!RngCore R} {ulid_text : UlidText}.
Implicit Types w : World R.

Lemma graphql_require_inv {A} (o : option A) e w a w' :
  Graphql.require o e w = (Ok a, w') → o = Some a ∧ w' = w.
Proof. unfold Graphql.require, lift, ok_or. destruct o; naive_solver. Qed.

Lemma cancel_inv w u w' :
  cancel w = (Ok u, w') → w_txn w' = w_committed w ∧ w_committed w' = w_committed w.
Proof.
  intros ([] & w1 & Hq & H)%bind_Ok_inv. injection H as <- <-.
  apply query_inv in Hq as (Ht & Hc & Hk). done.
Qed.

(** A user who is neither locked nor deactivated. *)
Definition user_active (d : Db) (uid : Ulid) : Prop :=
  ∃ u, users d !! uid = Some u ∧ UserLookup.locked_at u = None ∧
    UserLookup.deactivated_at u = None.

(** What the database says of a requester: a browser session is active, and
    so is its user; a bearer token is neither revoked nor expired at time [t],
    its session not finished, with the scope of the API and of no user but an
    active one. *)
Definition entity_ok (d : Db) (t : DateTime) (info : SessionInfo) (token : option string)
    (e : RequestingEntity) : Prop :=
  match e with
  | Anonymous => token = None
  | BrowserSessionEntity b =>
      token = None ∧ current info = Some (BrowserSession.id b) ∧
      ∃ row, user_sessions d !! BrowserSession.id b = Some row ∧
        UserSessionRow.finished_at row = None ∧ user_active d (UserSessionRow.user_id row) ∧
        User.id (BrowserSession.user b) = UserSessionRow.user_id row
  | OAuth2SessionEntity s u =>
      ∃ txt k a row, token = Some txt ∧ oauth2_access_tokens d !! k = Some a ∧
        OAuth2AccessTokenLookup.access_token a = txt ∧ unrevoked a ∧
        (∀ e, OAuth2AccessTokenLookup.expires_at a = Some e → (t ≤ e)%Z) ∧
        OAuth2AccessTokenLookup.oauth2_session_id a = Session.id s ∧
        oauth2_sessions d !! Session.id s = Some row ∧
        OAuthSessionLookup.finished_at row = None ∧
        Scope_contains (Scope_from_iter (OAuthSessionLookup.scope_list row))
          "urn:mas:graphql:*" = true ∧
        Session.scope s = Scope_from_iter (OAuthSessionLookup.scope_list row) ∧
        User.id <$> u = OAuthSessionLookup.user_id row ∧
        ∀ uid, OAuthSessionLookup.user_id row = Some uid → user_active d uid
  end.

Lemma session_user_inv uid w u w' :
  integrity (w_txn w) →
  match uid with
  | Some user_id =>
      do user <- Graphql.repo (UserRepository.lookup user_id);
      do user <- Graphql.require user LoadFailed;
      ret (Some user)
  | None => ret None
  end w = (Ok u, w') →
  same_db w w' ∧ User.id <$> u = uid ∧
  (match u with Some u => User.is_valid u | None => true end = true →
   ∀ k, uid = Some k → user_active (w_txn w) k).
Proof.
  intros Hint. destruct uid as [uid|]; [|by intros [= <- <-]].
  intros (o & w1 & [Hdb ->]%mmap_err_Ok_inv%user_lookup_inv & H)%bind_Ok_inv.
  apply bind_Ok_inv in H as (x & ? & [Hx ->]%graphql_require_inv & [= <- <-]).
  destruct (users (w_txn w) !! uid) as [r|] eqn:Hr; [|done]. injection Hx as <-.
  apply (users_pkey _ Hint) in Hr as Hk. simpl. split_and!; [done | congruence |].
  intros Hv ? [= <-]. exists r. split; [done|]. unfold User.is_valid in Hv. simpl in Hv.
  by destruct (UserLookup.locked_at r), (UserLookup.deactivated_at r).
Qed.

Lemma token_entity_Ok ip undoc txt info w e w' :
  integrity (w_txn w) → token_entity ip undoc txt w = (Ok e, w') →
  same_db w w' ∧ undoc = true ∧ (∃ s u, e = OAuth2SessionEntity s u) ∧
  ∃ n, entity_ok (w_txn w) (w_clock w n) info (Some txt) e.
Proof.
  intros Hint H. unfold token_entity in H.
  apply bind_Ok_inv in H as ([] & w1 & Hun & H).
  destruct undoc; [|done]. injection Hun as <-.
  apply bind_Ok_inv in H as (o & w1 & [D1 Ho]%mmap_err_Ok_inv%access_find_inv & H).
  apply bind_Ok_inv in H as (tk & ? & [-> ->]%graphql_require_inv & H).
  apply bind_Ok_inv in H as (o & w2 & [D2 Hs]%mmap_err_Ok_inv%session_lookup_inv & H).
  apply bind_Ok_inv in H as (s & ? & [-> ->]%graphql_require_inv & H).
  apply bind_Ok_inv in H as ([] & w3 & D3%record_activity_inv & H).
  assert (same_db w w3) as D by (transitivity w1; [done|]; by transitivity w2).
  destruct Ho as (k & a & Ha & Htxt & ->), Hs as (row & Hrow & Hrs).
  destruct D1 as (T1 & _), D2 as (T2 & _), D as (T3 & C3 & K3). rewrite T1 in *.
  destruct (session_of_row _ _ Hrs) as (Hid & Hv & _ & Huid & _).
  apply session_row_scope in Hrs as Hsc. apply (sessions_pkey _ Hint) in Hrow as Hrk.
  simpl in Hrk, Hrow. apply bind_Ok_inv in H as (u & w4 & Hu & H). rewrite <- T3 in Hint.
  apply session_user_inv in Hu as ((T4 & C4 & K4) & Hu1 & Hu2); [|done].
  apply bind_Ok_inv in H as (t & w5 & [Ht (T5 & C5 & K5)]%now_inv & H).
  apply bind_Ok_inv in H as ([] & ? & Hval & H).
  apply bind_Ok_inv in H as ([] & ? & Hgq & [= <- <-]).
  destruct (AccessToken.is_valid _ t) eqn:Htv, (Session.is_valid s) eqn:Hsv,
    (match u with Some u => User.is_valid u | None => true end) eqn:Huv;
    try discriminate Hval. injection Hval as <-.
  destruct (Scope_contains _ _) eqn:Hg; [|discriminate Hgq]. injection Hgq as <-.
  apply access_valid_row in Htv as [Hur Hex].
  split; [repeat split; congruence|]. split_and!; [done | eauto |].
  exists (w_ticks w4). simpl. exists txt, k, a, row.
  rewrite Hid, Hrk. rewrite K4, K3 in Ht. subst t. rewrite Huid in Hu1, Hu2.
  split_and!; try done.
  - apply symmetry, bool_decide_eq_true in Hv. done.
  - by rewrite <- Hsc.
  - intros uid Hk. rewrite <- T3. by apply Hu2.
Qed.

Lemma cookie_entity_Ok ip info w e w' :
  integrity (w_txn w) → cookie_entity ip info w = (Ok e, w') →
  same_db w w' ∧ (∀ s u, e ≠ OAuth2SessionEntity s u) ∧
  ∀ t, entity_ok (w_txn w) t info None e.
Proof.
  intros Hint (o & w1 & Ho%mmap_err_Ok_inv & H)%bind_Ok_inv.
  unfold load_active_session in Ho. destruct (current info) as [bid|] eqn:Hcur.
  2: { injection Ho as <- <-. injection H as <- <-. done. }
  apply bind_Ok_inv in Ho as (ob & w2 & [Hdb ->]%browser_lookup_inv & [= <- <-]).
  destruct (BrowserSessionRepository.select_session bid (w_txn w)) as [x|] eqn:Hsel; simpl in H.
  2: { by injection H as <- <-. }
  apply browser_select_Some in Hsel as [Hx1 Hx2].
  destruct (browser_active _ _ _ _ Hint eq_refl Hx1 Hx2) as (Hbid & Hbu & Hact).
  destruct (BrowserSession.active (BrowserSessionRepository.try_from x)) eqn:Ha.
  2: { by injection H as <- <-. }
  destruct Hact as [Hact _]. destruct (Hact eq_refl) as (Hf & Hl & Hd).
  apply bind_Ok_inv in H as ([] & w3 & Hr & [= <- <-]).
  assert (same_db w2 w3) as Hdb' by (op_inv Hr; injection Hr as <-; same_world).
  split; [by transitivity w2|]. split; [done|]. intros t. simpl.
  rewrite Hbid, Hcur. split_and!; [done..|]. exists x.1. split_and!; try done.
  exists x.2. done.
Qed.

(** A request to the GraphQL API is made on behalf of a browser session
    only when that session is active and its user neither locked nor
    deactivated, and on behalf of an OAuth 2.0 session only when bearer tokens
    are accepted, the token is neither revoked nor expired, the session is not
    finished, has the scope of the API, and its user, if it has one, is
    neither locked nor deactivated; finding out leaves the database as it was. *)
Theorem requester_authenticated undoc ip info ua token w r w' :
  integrity (w_txn w) →
  get_requester undoc ip info ua token w = (Ok r, w') →
  w_committed w' = w_committed w ∧ w_txn w' = w_committed w ∧
  (token ≠ None → undoc = true) ∧
  ∃ n, entity_ok (w_txn w) (w_clock w n) info token (entity r).
Proof.
  intros Hint (e & w1 & He & H)%bind_Ok_inv.
  apply bind_Ok_inv in H as ([] & w2 & [Ht Hc]%mmap_err_Ok_inv%cancel_inv & [= <- <-]).
  destruct token as [txt|].
  - apply (token_entity_Ok _ _ _ info) in He as ((_ & C1 & _) & Hu & _ & Hok); [|done].
    split_and!; [congruence..| done | done].
  - apply cookie_entity_Ok in He as ((_ & C1 & _) & _ & Hok); [|done].
    split_and!; [congruence..| done | exists 0; apply Hok].
Qed.
End Requesters.

(** ** Mutations *)

#[export] Hint Unfold Graphql.repository Graphql.context Graphql.node_ulid
  Graphql.create_oauth2_session Graphql.end_oauth2_session
  Graphql.set_oauth2_session_name : mas_ops.

Section Mutations.
Context {R : Type} `{!RngCore R} {crc : Crc} {ulid_text : UlidText} {url_lib : UrlLib}
  {jwks_json : JwksJson}.
Implicit Types w : World R.

Lemma context_inv {A} (o : option A) msg w a w' :
  context o msg w = (Ok a, w') → o = Some a ∧ w' = w.
Proof. unfold context, lift, ok_or. destruct o; naive_solver. Qed.

Lemma node_ulid_inv t id w k w' :
  node_ulid t id w = (Ok k, w') → extract_ulid t id = Ok k ∧ w' = w.
Proof. intros [H%map_err_Ok ->]%lift_inv. done. Qed.

Lemma for_devices_inv f scope w u w' : for_devices f scope w = (Ok u, w') → same_db w w'.
Proof.
  revert w. induction scope as [|t scope IH]; intros w; simpl; [by intros [= <- <-]|].
  destruct (Device.from_scope_token t); [|apply IH].
  intros (? & w1 & H%mmap_err_Ok_inv%homeserver_call_inv & ?%IH)%bind_Ok_inv.
  by transitivity w1.
Qed.

Lemma client_lookup_inv id w o w' :
  ClientRepository.lookup id w = (Ok o, w') →
  same_db w w' ∧ ∀ c, o = Some c → ∃ row, oauth2_clients (w_txn w) !! id = Some row ∧
    ClientRepository.try_from row = Ok c.
Proof.
  intros H. op_inv H. subst. split; [same_world|]. simpl in *. intros c ->.
  destruct (oauth2_clients (w_txn w) !! id); naive_solver.
Qed.

Lemma client_of_row row c :
  ClientRepository.try_from row = Ok c → Client.id c = OAuth2ClientLookup.oauth2_client_id row.
Proof.
  unfold ClientRepository.try_from. intros H.
  do 7 (apply rbind_Ok_inv in H as (? & _ & H)). by injection H as <-.
Qed.

(** A refresh token, unless the session is permanent. *)
Lemma permanent_refresh_inv (p : bool) session a w o w' :
  (if p then ret None
   else do refresh_token_str <- with_rng (generate RefreshTokenType);
        do refresh_token <- repository (RefreshTokenRepository.add session a refresh_token_str);
        ret (Some refresh_token)) w = (Ok o, w') →
  same_committed w w' ∧
  match o with
  | None => p = true ∧ w_txn w' = w_txn w
  | Some r => p = false ∧ ∃ t, oauth2_refresh_tokens (w_txn w) !! RefreshToken.id r = None ∧
      w_txn w' = set_rows (<[RefreshToken.id r := OAuth2RefreshTokenLookup.mk
          (RefreshToken.id r) (RefreshToken.refresh_token r) t None None
          (Some (AccessToken.id a)) (Session.id session) None]>
          (oauth2_refresh_tokens (w_txn w))) (w_txn w)
  end.
Proof.
  destruct p; [by intros [= <- <-]|].
  intros (txt & w1 & [_ (Ht & Hc & Hk)]%with_rng_inv & H)%bind_Ok_inv.
  apply bind_Ok_inv in H as (r & w2 & Hr%mmap_err_Ok_inv%refresh_add_inv & [= <- <-]).
  destruct Hr as (rid & t & Hn & _ & _ & _ & -> & Hw & [Hc' Hk']). rewrite Ht in *.
  split; [split; congruence|]. split; [done|]. exists t. done.
Qed.

Lemma create_oauth2_session_Ok requester input w p w' :
  integrity (w_committed w) →
  create_oauth2_session requester input w = (Ok p, w') →
  ∃ rs ru uid scope' sid aid rid t,
    requester = OAuth2SessionEntity rs ru ∧
    Scope_contains (Session.scope rs) "urn:mas:admin" = true ∧
    extract_ulid UserNode (user_id input) = Ok uid ∧
    is_Some (users (w_committed w) !! uid) ∧
    Scope_from_str (scope input) = Ok scope' ∧
    (rid = None ↔ permanent input = Some true) ∧
    session_started (w_committed w) (w_committed w')
      (if default false (permanent input) then None else Some 300000000%Z)
      (access_token p) (refresh_token p) sid aid rid
      (OAuthSessionLookup.mk sid (Some uid) None (Session.client_id rs) scope' t None None
         None None None) ∧
    oauth2_authorization_grants (w_committed w') = oauth2_authorization_grants (w_committed w) ∧
    oauth2_device_code_grant (w_committed w') = oauth2_device_code_grant (w_committed w).
Proof.
  intros Hint H. unfold create_oauth2_session in H.
  apply bind_Ok_inv in H as (uid & ? & [Huid ->]%node_ulid_inv & H).
  apply bind_Ok_inv in H as (sc & ? & [Hsc%map_err_Ok ->]%lift_inv & H).
  apply bind_Ok_inv in H as ([] & ? & Hadm & H).
  destruct (is_admin requester) eqn:Had; [|done]. injection Hadm as <-.
  apply bind_Ok_inv in H as (rs & ? & [Hrs ->]%context_inv & H).
  destruct requester as [| |rs' ru]; try done. injection Hrs as ->.
  apply bind_Ok_inv in H as ([] & w1 & [T1 _]%mmap_err_Ok_inv%from_pool_inv & H).
  apply bind_Ok_inv in H as (oc & w2 & [(T2 & _) Hc]%mmap_err_Ok_inv%client_lookup_inv & H).
  apply bind_Ok_inv in H as (c & ? & [-> ->]%context_inv & H).
  destruct (Hc c eq_refl) as (row & Hrow & Hcid%client_of_row). rewrite T1 in *.
  apply (clients_pkey _ Hint) in Hrow. rewrite Hrow in Hcid.
  apply bind_Ok_inv in H as (ou & w3 & [(T3 & _) ->]%mmap_err_Ok_inv%user_lookup_inv & H).
  apply bind_Ok_inv in H as (u & ? & [Hu ->]%context_inv & H). rewrite T2 in *.
  destruct (users (w_committed w) !! uid) as [urow|] eqn:Hur; [|done]. injection Hu as <-.
  apply (users_pkey _ Hint) in Hur as Huk.
  apply bind_Ok_inv in H as (txt & w4 & [_ (T4 & _)]%with_rng_inv & H).
  apply bind_Ok_inv in H as (s & w5 & Hs%mmap_err_Ok_inv%session_add_inv & H).
  destruct Hs as (sid & t & Hsn & _ & _ & _ & -> & T5 & _).
  apply bind_Ok_inv in H as ([] & w6 & (T6 & _)%mmap_err_Ok_inv%query_inv & H).
  apply bind_Ok_inv in H as ([] & w7 & (T7 & _)%for_devices_inv & H).
  apply bind_Ok_inv in H as (a & w8 & Ha%mmap_err_Ok_inv%access_add_inv & H).
  destruct Ha as (aid & ta & Han & _ & _ & -> & T8 & _).
  apply bind_Ok_inv in H as (o & w9 & [_ Ho]%permanent_refresh_inv & H).
  apply bind_Ok_inv in H as ([] & w10 & [T10 _]%mmap_err_Ok_inv%save_inv & [= <- <-]).
  rewrite T10, T8, T7, T6, T5, T4, T3, Hcid in *. simpl in *. rewrite Huk in *.
  assert (RefreshToken.id <$> o = None ↔ permanent input = Some true) as Hiff.
  { destruct o; destruct Ho as [Hp _]; destruct (permanent input) as [[]|]; naive_solver. }
  exists rs, ru, uid, sc, sid, aid, (RefreshToken.id <$> o), t.
  do 3 (split; [done|]). split; [by eexists|]. do 2 (split; [done|]).
  split; [|destruct o; [destruct Ho as (_ & ? & _ & ->) | destruct Ho as [_ ->]]; done].
  destruct o as [r|]; simpl in *.
  - destruct Ho as (Hp & tr & Hrn & T9). rewrite Hp, T9 in *.
    split; simpl; [split_and!; try done; naive_solver|done| | |done].
    + exists ta. done.
    + exists tr. done.
  - destruct Ho as [Hp T9]. rewrite Hp, T9 in *.
    split; simpl; [split_and!; try done|done| |done|done]. exists ta. done.
Qed.

(** A session is created through the GraphQL API only for a requester
    whose own session has the scope [urn:mas:admin]; it is a session of the
    requester's client for an existing user, with the scope asked and one new
    access token, which expires in five minutes and comes with a refresh
    token, or, for a permanent session, never expires and comes without. *)
Theorem create_session_admin requester input w p w' :
  integrity (w_committed w) →
  create_oauth2_session requester input w = (Ok p, w') →
  ∃ rs ru uid scope' sid aid rid t,
    requester = OAuth2SessionEntity rs ru ∧
    Scope_contains (Session.scope rs) "urn:mas:admin" = true ∧
    extract_ulid UserNode (user_id input) = Ok uid ∧
    is_Some (users (w_committed w) !! uid) ∧
    Scope_from_str (scope input) = Ok scope' ∧
    (rid = None ↔ permanent input = Some true) ∧
    session_started (w_committed w) (w_committed w')
      (if default false (permanent input) then None else Some 300000000%Z)
      (access_token p) (refresh_token p) sid aid rid
      (OAuthSessionLookup.mk sid (Some uid) None (Session.client_id rs) scope' t None None
         None None None) ∧
    oauth2_authorization_grants (w_committed w') = oauth2_authorization_grants (w_committed w) ∧
    oauth2_device_code_grant (w_committed w') = oauth2_device_code_grant (w_committed w).
Proof. apply create_oauth2_session_Ok. Qed.

Lemma owner_or_admin_iff e (s : Session.t) :
  is_owner_or_admin e s = true ↔
  is_admin e = true ∨ ∃ u, entity_user e = Some u ∧ Session.user_id s = Some (User.id u).
Proof.
  unfold is_owner_or_admin, owner_id, Session_owner.
  destruct (is_admin e); [naive_solver|].
  destruct (Session.user_id s) as [o|]; [|naive_solver].
  destruct (entity_user e) as [u|]; [|naive_solver].
  rewrite bool_decide_eq_true. naive_solver.
Qed.

Lemma graphql_sync_job_inv uid w u w' :
  integrity (w_txn w) →
  match uid with
  | Some user_id =>
      do user <- repository (UserRepository.lookup user_id);
      do user <- context user "Could not load user";
      repository (QueueJobRepository.schedule_sync_devices user)
  | None => ret tt
  end w = (Ok u, w') →
  ∃ jobs, w_txn w' = set_rows jobs (w_txn w) ∧
    match uid with
    | Some uid => ∃ jid t, queue_jobs (w_txn w) !! jid = None ∧ jobs =
        <[jid := QueueJobRepository.sync_devices_row jid uid t]>
          (queue_jobs (w_txn w))
    | None => jobs = queue_jobs (w_txn w)
    end.
Proof.
  intros Hint. destruct uid as [uid|].
  2: { intros [= <- <-]. exists (queue_jobs (w_txn w)). by destruct (w_txn w). }
  intros (o & w1 & [(Ht & C1 & K1) ->]%mmap_err_Ok_inv%user_lookup_inv & H)%bind_Ok_inv.
  apply bind_Ok_inv in H as (x & ? & [Hx ->]%context_inv & H).
  apply mmap_err_Ok_inv, schedule_inv in H as (jid & t & Hj & Hw & _).
  destruct (users (w_txn w) !! uid) as [ur|] eqn:Hu; [|done]. injection Hx as <-.
  apply (users_pkey _ Hint) in Hu. simpl in Hw. rewrite Hu, Ht in *.
  exists (<[jid := QueueJobRepository.sync_devices_row jid uid t]>
            (queue_jobs (w_txn w))).
  split; [exact Hw|]. exists jid, t. done.
Qed.

(** A session is ended through the GraphQL API only for its own user or
    an administrator; it is then finished, with a job to sync the devices of
    its user, and nothing else changes; to anyone else the session is not
    found, and nothing changes. *)
Theorem end_session_rights requester id w r w' :
  integrity (w_committed w) →
  end_oauth2_session requester id w = (Ok r, w') →
  match r with
  | EndNotFound => w_committed w' = w_committed w
  | Ended _ => ∃ sid row t jobs,
      extract_ulid OAuth2SessionNode id = Ok sid ∧
      oauth2_sessions (w_committed w) !! sid = Some row ∧
      OAuthSessionLookup.finished_at row = None ∧
      (is_admin requester = true ∨
       ∃ u, entity_user requester = Some u ∧
         OAuthSessionLookup.user_id row = Some (User.id u)) ∧
      w_committed w' =
        set_rows (<[sid := SessionRepository.with_finished_at t row]>
                    (oauth2_sessions (w_committed w))) (set_rows jobs (w_committed w)) ∧
      match OAuthSessionLookup.user_id row with
      | Some uid => ∃ jid tj, queue_jobs (w_committed w) !! jid = None ∧ jobs =
          <[jid := QueueJobRepository.sync_devices_row jid uid tj]>
            (queue_jobs (w_committed w))
      | None => jobs = queue_jobs (w_committed w)
      end
  end.
Proof.
  intros Hint H. unfold end_oauth2_session in H.
  apply bind_Ok_inv in H as (sid & ? & [Hsid ->]%node_ulid_inv & H).
  apply bind_Ok_inv in H as ([] & w1 & [T1 [C1 _]]%mmap_err_Ok_inv%from_pool_inv & H).
  apply bind_Ok_inv in H as (o & w2 & [(T2 & C2 & _) Ho]%mmap_err_Ok_inv%session_lookup_inv & H).
  destruct o as [s|]; [|injection H as <- <-; congruence].
  destruct (is_owner_or_admin requester s) eqn:Hrights; [|injection H as <- <-; congruence].
  simpl in H. apply bind_Ok_inv in H as ([] & w3 & Hjob & H).
  apply bind_Ok_inv in H as (s' & w4 & Hfin%mmap_err_Ok_inv%session_finish_inv & H).
  apply bind_Ok_inv in H as ([] & w5 & [T5 _]%mmap_err_Ok_inv%save_inv & [= <- <-]).
  destruct Ho as (row & Hrow & Hs). rewrite T1 in *. rewrite <- T2 in Hint, Hrow.
  destruct (session_of_row _ _ Hs) as (Hid & Hv & _ & Hu & _).
  apply (sessions_pkey _ Hint) in Hrow as Hrk.
  apply graphql_sync_job_inv in Hjob as (jobs & T3 & Hjobs); [|done].
  destruct Hfin as (t & row' & Hrow' & Hval%session_finish_valid & T4 & _).
  rewrite T5, T4, T3, T2, Hid, Hrk in *. simpl in *.
  assert (row' = row) as -> by congruence. rewrite Hu in Hjobs.
  apply owner_or_admin_iff in Hrights. rewrite Hu in Hrights.
  exists sid, row, t, jobs. split_and!; try done.
  rewrite Hval in Hv. by apply symmetry, bool_decide_eq_true in Hv.
Qed.

(** ** Every mutation *)

Lemma keeps_for_devices (Q : World R → World R → Prop) `{!PreOrder Q} f scope :
  (∀ c, keeps Q (@homeserver_call R c)) → keeps Q (for_devices (R := R) f scope).
Proof. intros Hu. induction scope; simpl; keeps_tac. Qed.

Hint Extern 1 (keeps _ (for_devices _ _)) =>
  apply keeps_for_devices; eauto with keeps typeclass_instances : keeps.

Lemma create_keeps_integrity requester input :
  txn_keeps preserves_integrity (create_oauth2_session (R := R) requester input).
Proof. txn_tac. keeps_tac. Qed.
Lemma create_keeps_evolution requester input :
  txn_keeps evolves (create_oauth2_session (R := R) requester input).
Proof. txn_tac. keeps_tac. Qed.
Lemma end_keeps_integrity requester id :
  txn_keeps preserves_integrity (end_oauth2_session (R := R) requester id).
Proof. txn_tac. keeps_tac. Qed.
Lemma end_keeps_evolution requester id :
  txn_keeps evolves (end_oauth2_session (R := R) requester id).
Proof. txn_tac. keeps_tac. Qed.
Lemma name_keeps_integrity requester id n :
  txn_keeps preserves_integrity (set_oauth2_session_name (R := R) requester id n).
Proof. txn_tac. keeps_tac. Qed.
Lemma name_keeps_evolution requester id n :
  txn_keeps evolves (set_oauth2_session_name (R := R) requester id n).
Proof. txn_tac. keeps_tac. Qed.

Lemma create_err requester input :
  err_keeps same_committed (create_oauth2_session (R := R) requester input).
Proof. unfold create_oauth2_session. err_tac. Qed.
Lemma end_err requester id : err_keeps same_committed (end_oauth2_session (R := R) requester id).
Proof. unfold end_oauth2_session. err_tac. Qed.
Lemma name_err requester id name :
  err_keeps same_committed (set_oauth2_session_name (R := R) requester id name).
Proof. unfold set_oauth2_session_name. err_tac. Qed.

(** A mutation on sessions that fails leaves the committed database as it
    was, whichever mutation and whatever the reason. *)
Theorem mutation_refused_atomic requester input id name w e w' :
  create_oauth2_session requester input w = (Err e, w') ∨
  end_oauth2_session requester id w = (Err e, w') ∨
  set_oauth2_session_name requester id name w = (Err e, w') →
  w_committed w' = w_committed w.
Proof. intros [H%create_err|[H%end_err|H%name_err]]; apply H. Qed.
End Mutations.

#[export] Hint Extern 1 (keeps _ (Graphql.for_devices _ _)) =>
  apply keeps_for_devices; eauto with keeps typeclass_instances : keeps.

(** ** Witnesses *)

Section Witnesses.
Import Scenario.

Lemma node_id_roundtrip_witness :
  deserialize (serialize UserNode 2) = Ok (UserNode, 2%Z) ∧
  extract_ulid OAuth2SessionNode (serialize UserNode 2) =
    Err (TypeMismatch UserNode OAuth2SessionNode).
Proof. apply (node_id_roundtrip UserNode OAuth2SessionNode 2). lia. Defined.

(** An administrator's session and its access token. *)
Definition admin_session : OAuthSessionLookup.t :=
  OAuthSessionLookup.mk 7 (Some 2%Z) None 1 ["urn:mas:admin"; "urn:mas:graphql:*"] 0 None None
    None None None.
Definition admin_token : OAuth2AccessTokenLookup.t :=
  OAuth2AccessTokenLookup.mk 8 7 "mat_admin" 0 None None None.
Definition admin_db : Db :=
  mkDb {[1%Z := client]} {[2%Z := user]} {[3%Z := browser]} ∅ {[7%Z := admin_session]}
    {[8%Z := admin_token]} ∅ ∅ ∅ ∅ ∅ ∅ None ∅ ∅ ∅ ∅ ∅ ∅ ∅ ∅ ∅ no_accounts.
Definition admin_world : World Z := world admin_db 0 0.

Lemma integrity_admin_db : integrity admin_db.
Proof.
  split; intros k *; simpl; intros;
    repeat match goal with
      | H : {[_ := _]} !! _ = Some _ |- _ => apply lookup_singleton_Some in H as [<- <-]
      | H : ∅ !! _ = Some _ |- _ => by rewrite lookup_empty in H
      end; try done; simplify_eq/=; vm_compute; eauto.
Qed.

Definition no_cookie : SessionInfo := mkSessionInfo None None.
Definition requester_run := get_requester true None no_cookie None (Some "mat_admin") admin_world.
Definition admin : Requester :=
  match requester_run.1 with Ok r => r | Err _ => mkRequester Anonymous None None end.

Lemma requester_authenticated_witness :
  w_committed requester_run.2 = w_committed admin_world ∧
  w_txn requester_run.2 = w_committed admin_world ∧
  (Some "mat_admin" ≠ None → true = true) ∧
  ∃ n, entity_ok (w_txn admin_world) (w_clock admin_world n) no_cookie (Some "mat_admin")
         (entity admin).
Proof.
  apply (requester_authenticated true None no_cookie None (Some "mat_admin") admin_world).
  - apply integrity_admin_db.
  - unfold requester_run. apply fst_run. vm_compute. reflexivity.
Defined.

Definition create_input : CreateOAuth2SessionInput :=
  mkCreateOAuth2SessionInput scope_text (serialize UserNode 2) None.
Definition create_run := create_oauth2_session (entity admin) create_input admin_world.
Definition created : CreateOAuth2SessionPayload :=
  match create_run.1 with
  | Ok p => p
  | Err _ => mkCreateOAuth2SessionPayload "" None
      (Session.mk 0 SessionState.Valid 0 None None 0 [] None None None None)
  end.

Lemma create_session_admin_witness : ∃ rs ru uid scope' sid aid rid t,
  entity admin = OAuth2SessionEntity rs ru ∧
  Scope_contains (Session.scope rs) "urn:mas:admin" = true ∧
  extract_ulid UserNode (user_id create_input) = Ok uid ∧
  is_Some (users (w_committed admin_world) !! uid) ∧
  Scope_from_str (scope create_input) = Ok scope' ∧
  (rid = None ↔ permanent create_input = Some true) ∧
  session_started (w_committed admin_world) (w_committed create_run.2)
    (if default false (permanent create_input) then None else Some 300000000%Z)
    (access_token created) (refresh_token created) sid aid rid
    (OAuthSessionLookup.mk sid (Some uid) None (Session.client_id rs) scope' t None None
       None None None) ∧
  oauth2_authorization_grants (w_committed create_run.2) =
    oauth2_authorization_grants (w_committed admin_world) ∧
  oauth2_device_code_grant (w_committed create_run.2) =
    oauth2_device_code_grant (w_committed admin_world).
Proof.
  apply (create_session_admin (entity admin) create_input admin_world created create_run.2).
  - apply integrity_admin_db.
  - unfold create_run. apply fst_run. vm_compute. reflexivity.
Defined.

Definition stranger : RequestingEntity := Anonymous.
(** The user of the session, signed in on the web, ends it. *)
Definition owner : RequestingEntity :=
  match (cookie_entity None (mkSessionInfo (Some 3%Z) None) admin_world).1 with
  | Ok e => e
  | Err _ => Anonymous
  end.
Definition end_id : string := serialize OAuth2SessionNode 7.
Definition end_run := end_oauth2_session owner end_id admin_world.
Definition ended : Session.t :=
  match end_run.1 with Ok (Ended s) => s | _ => session created end.

Lemma end_session_rights_witness : ∃ sid row t jobs,
  extract_ulid OAuth2SessionNode end_id = Ok sid ∧
  oauth2_sessions (w_committed admin_world) !! sid = Some row ∧
  OAuthSessionLookup.finished_at row = None ∧
  (is_admin owner = true ∨
   ∃ u, entity_user owner = Some u ∧ OAuthSessionLookup.user_id row = Some (User.id u)) ∧
  w_committed end_run.2 =
    set_rows (<[sid := SessionRepository.with_finished_at t row]>
                (oauth2_sessions (w_committed admin_world)))
      (set_rows jobs (w_committed admin_world)) ∧
  match OAuthSessionLookup.user_id row with
  | Some uid => ∃ jid tj, queue_jobs (w_committed admin_world) !! jid = None ∧ jobs =
      <[jid := QueueJobRepository.sync_devices_row jid uid tj]>
        (queue_jobs (w_committed admin_world))
  | None => jobs = queue_jobs (w_committed admin_world)
  end.
Proof.
  apply (end_session_rights owner end_id admin_world (Ended ended) end_run.2).
  - apply integrity_admin_db.
  - unfold end_run. apply fst_run. vm_compute. reflexivity.
Defined.

Definition refused_run := create_oauth2_session stranger create_input admin_world.

Lemma mutation_refused_atomic_witness :
  w_committed refused_run.2 = w_committed admin_world.
Proof.
  apply (mutation_refused_atomic stranger create_input "" "" admin_world
           (Message "Unauthorized") refused_run.2).
  left. unfold refused_run. apply fst_run. vm_compute. reflexivity.
Defined.
End Witnesses.
