(* ===== verification/CompatRefreshFacts.v ===== *)
(** * The compatibility API and the introspection in the database, and the
      rotation of the compatibility tokens *)

From stdpp Require Import base tactics list strings gmap.
From Stdlib Require Import ZArith Lia Ascii.
From S2P Require Import Prelude Text Scope Externals Formats Pagination TokenFormat DataModel CompatModel Storage TokenRepo GrantRepo QueueRepo UserRepo CompatRepo PersonalRepo AppSessionRepo Passwords ClientAuth TokenEndpoint Introspection CompatEndpoints RepoFacts CompatRepoFacts Integrity Evolution TokenFacts Scenario.

(** ** What the compatibility API and the introspection do to the database

    The handlers of [CompatEndpoints] and [Introspection] keep
    the integrity of the database and only move its rows forward. *)

#[export] Hint Unfold
  Introspection.repo Introspection.require Introspection.guard Introspection.record_compat_session
  Introspection.record_personal_session Introspection.authenticate Introspection.valid_user
  Introspection.subject_of Introspection.expires_in_of Introspection.normalized
  Introspection.introspect_access_token Introspection.introspect_refresh_token
  Introspection.compat_scope Introspection.introspect_compat_access_token
  Introspection.introspect_compat_refresh_token Introspection.check_owner
  Introspection.introspect_personal_access_token Introspection.post
  CompatEndpoints.repo CompatEndpoints.require CompatEndpoints.guard
  CompatRefresh.post CompatLogout.post CompatLogoutAll.post SsoRedirect.get
  SsoComplete.repo SsoComplete.page SsoComplete.post count_user_sessions_for_limiting
  Login.repo Login.schedule_sync Login.find_lru_compat_sessions_flawed
  Login.process_violations_for_compat_login Login.device_of Login.admit_device Login.check_login
  Login.token_login Login.check_user_password Login.user_password_login Login.login_name
  Login.login_session Login.issue_tokens : mas_ops.

Section Keeps.
Context {R C : Type} `{!RngCore R} {crc : Crc} {base64 : Base64} {sha2 : Sha2}
  {ulid_text : UlidText} {url_lib : UrlLib} {url_split : UrlSplit} {jwks_json : JwksJson}
  {client_crypto : ClientCrypto} {hs : Homeserver} {pg_text : PgText}
  {password_crates : PasswordCrates R C} {names : MatrixNames} {limits : Limits}
  {login_policy : LoginPolicy}.

Lemma keeps_finish_sessions (Q : World R → World R → Prop) `{!PreOrder Q} l :
  (∀ s, keeps Q (CompatSessionRepository.finish s)) → keeps Q (Login.finish_sessions l).
Proof. intros H. induction l as [|s l IH]; simpl; keeps_tac; auto. Qed.

Lemma keeps_on_rng (Q : Db → Db → Prop) `{!PreOrder Q} {E A} (m : M R E A) :
  keeps (keeps_db Q) (Login.on_rng (R := R) m).
Proof.
  intros w. apply keeps_db_same; [done|]. unfold Login.on_rng. by destruct (m (w_rng w)).
Qed.

Lemma keeps_on_rng_committed {E A} (m : M R E A) : keeps same_committed (Login.on_rng (R := R) m).
Proof. intros w. unfold Login.on_rng. by destruct (m (w_rng w)). Qed.
End Keeps.

#[export] Hint Resolve keeps_on_rng_committed keeps_on_rng : keeps.
#[export] Hint Extern 1 (keeps _ (Login.finish_sessions _)) =>
  apply keeps_finish_sessions; [apply _ | keeps_tac] : keeps.

(** ** Requests *)
Section Requests.
Context {R C : Type} `{!RngCore R} {crc : Crc} {base64 : Base64} {sha2 : Sha2}
  {ulid_text : UlidText} {url_lib : UrlLib} {url_split : UrlSplit} {jwks_json : JwksJson}
  {client_crypto : ClientCrypto} {hs : Homeserver} {pg_text : PgText}
  {password_crates : PasswordCrates R C} {names : MatrixNames} {limits : Limits}
  {login_policy : LoginPolicy}.
Implicit Types w : World R.

(** A request to the compatibility API or to the introspection endpoint. *)
Inductive compat_step : World R → World R → Prop :=
| compat_refresh ip cfg input w :
    compat_step w (CompatRefresh.refresh_request ip cfg input w).2
| compat_logout ip auth w : compat_step w (CompatLogout.logout_request ip auth w).2
| compat_logout_all ip auth input w :
    compat_step w (CompatLogoutAll.logout_all_request ip auth input w).2
| compat_login pm ip cfg ua input w : compat_step w (Login.post pm ip cfg ua input w).2
| compat_sso_redirect params w : compat_step w (SsoRedirect.sso_redirect_request params w).2
| compat_sso_complete ip ua session id w :
    compat_step w (SsoComplete.sso_complete_request ip ua session id w).2
| compat_introspect h auth w :
    compat_step w (Introspection.introspection_request h auth w).2.

(** What follows the transaction that opens the session. *)
Lemma provision_txn_keeps Q `{!PreOrder Q} {A} ip session user (x : A) :
  (∀ s, txn_keeps Q (Login.undo_session (R := R) s)) →
  txn_keeps Q (do! Introspection.record_compat_session (R := R) ip session;
               do! Login.provision session user; ret x).
Proof.
  intros Hu. apply txn_keeps_bind; [done| |].
  { apply txn_keeps_same; [done|]. intros w. done. }
  intros _. apply txn_keeps_bind; [done| |intros _; apply txn_keeps_same; [done|keeps_tac]].
  intros w. unfold Login.provision.
  destruct (CompatSession.device session) as [dv|]; [|simpl; reflexivity].
  unfold homeserver_call. destruct (w_homeserver_faults w) as [|[] ?]; simpl; try reflexivity.
  apply (Hu session (pop_homeserver_fault w)).
Qed.

Lemma login_txn_keeps Q `{!PreOrder Q} pm ip cfg ua input :
  txn_keeps Q (Login.open_session (R := R) pm ip cfg ua input) →
  (∀ s, txn_keeps Q (Login.undo_session (R := R) s)) →
  txn_keeps Q (Login.post (R := R) pm ip cfg ua input).
Proof.
  intros Ho Hu. apply txn_keeps_bind; [done..|]. intros [[[session user] a] r].
  by apply provision_txn_keeps.
Qed.
End Requests.

(** A relation on databases every request keeps, given that the statements of
    the requests do. *)
Ltac txn_goal :=
  lazymatch goal with
  | |- txn_keeps _ _ => idtac
  | |- ?Q (w_committed ?w) (w_committed (?m ?w).2) => apply (λ H : txn_keeps Q m, H w)
  end.
Ltac compat_step_tac :=
  destruct 1; txn_goal;
  try (apply login_txn_keeps; [apply _ | | intros ?]);
  (apply txn_keeps_pool; [apply _ | keeps_tac]).

Section Preserved.
Context {R C : Type} `{!RngCore R} {crc : Crc} {base64 : Base64} {sha2 : Sha2}
  {ulid_text : UlidText} {url_lib : UrlLib} {url_split : UrlSplit} {jwks_json : JwksJson}
  {client_crypto : ClientCrypto} {hs : Homeserver} {pg_text : PgText}
  {password_crates : PasswordCrates R C} {names : MatrixNames} {limits : Limits}
  {login_policy : LoginPolicy}.
Implicit Types w : World R.

Lemma compat_step_integrity w w' :
  compat_step w w' → preserves_integrity (w_committed w) (w_committed w').
Proof. compat_step_tac. Qed.

Lemma compat_step_evolves w w' : compat_step w w' → evolves (w_committed w) (w_committed w').
Proof. compat_step_tac. Qed.
End Preserved.

(** ** Rotation of the compatibility tokens

    What a successful request to crates/handlers/src/compat/refresh.rs reads
    and writes. *)

#[local] Open Scope Z_scope.

Section Common.
Context {R E : Type}.
Implicit Types w : World R.

Lemma compat_guard_inv c (e : E) w u w' :
  CompatEndpoints.guard c e w = (Ok u, w') → c = true ∧ w' = w.
Proof. unfold CompatEndpoints.guard. destruct c; [by intros [= <- <-] | done]. Qed.

Lemma compat_require_inv {A} (o : option A) (e : E) w a w' :
  CompatEndpoints.require o e w = (Ok a, w') → o = Some a ∧ w' = w.
Proof. unfold CompatEndpoints.require, lift, ok_or. destruct o; naive_solver. Qed.

Lemma record_compat_inv ip s w u w' :
  Introspection.record_compat_session (R := R) (E := E) ip s w = (Ok u, w') → same_db w w'.
Proof. by intros (t & w1 & [= <- <-] & [= <- <-])%bind_Ok_inv. Qed.

Lemma with_rng_same {A} (f : R → A * R) w a w' :
  with_rng (E := E) f w = (Ok a, w') → same_db w w'.
Proof. by intros [_ ?]%with_rng_inv. Qed.
End Common.

(** *** What a refresh does *)

(** A refresh token that was not consumed. *)
Definition compat_live (r : CompatRefreshTokenLookup.t) : Prop :=
  CompatRefreshTokenLookup.consumed_at r = None.

(** The token presented: a live refresh token of a session that is not
    finished. *)
Record compat_refresh_allowed (d : Db) (input : string) (rid : Ulid)
    (rt : CompatRefreshTokenLookup.t) (s : CompatSessionLookup.t) : Prop := {
  cra_token : compat_refresh_tokens d !! rid = Some rt;
  cra_text : CompatRefreshTokenLookup.refresh_token rt = input;
  cra_live : compat_live rt;
  cra_session : compat_sessions d !! CompatRefreshTokenLookup.compat_session_id rt = Some s;
  cra_valid : CompatSessionLookup.finished_at s = None;
}.

(** A refresh token after the others of its session are consumed at [t]. *)
Definition consumed_in (sid : Ulid) (t : DateTime) (r : CompatRefreshTokenLookup.t) :
    CompatRefreshTokenLookup.t :=
  if bool_decide (CompatRefreshTokenLookup.compat_session_id r = sid)
     && bool_decide (CompatRefreshTokenLookup.consumed_at r = None)
  then CompatRefreshTokenRepository.with_consumed_at t r else r.

(** What the refresh writes, between the worlds [w] and [w']: a new pair of
    tokens; every live refresh token of the session is consumed; the access
    token of the pair presented has expired by a reading of the clock. *)
Record compat_refresh_effect {R} (w w' : World R) (ttl : Duration)
    (resp : CompatRefresh.ResponseBody) (rt : CompatRefreshTokenLookup.t) (aid nrid : Ulid) :
    Prop := {
  cre_fresh : compat_access_tokens (w_committed w) !! aid = None ∧
    compat_refresh_tokens (w_committed w) !! nrid = None;
  cre_new_access : ∃ t, reading w w' t ∧ compat_access_tokens (w_committed w') !! aid =
    Some (CompatAccessTokenLookup.mk aid (CompatRefresh.access_token resp) t (Some (t + ttl))
            (CompatRefreshTokenLookup.compat_session_id rt));
  cre_new_refresh : ∃ t, compat_refresh_tokens (w_committed w') !! nrid =
    Some (CompatRefreshTokenLookup.mk nrid (CompatRefresh.refresh_token resp) t None aid
            (CompatRefreshTokenLookup.compat_session_id rt));
  cre_consumed : ∃ t, reading w w' t ∧ ∀ k, k ≠ nrid →
    compat_refresh_tokens (w_committed w') !! k =
    consumed_in (CompatRefreshTokenLookup.compat_session_id rt) t <$>
      compat_refresh_tokens (w_committed w) !! k;
  cre_expired : ∃ a t e, reading w w' t ∧ e ≤ t ∧
    compat_access_tokens (w_committed w') !! CompatRefreshTokenLookup.compat_access_token_id rt =
      Some a ∧ CompatAccessTokenLookup.expires_at a = Some e;
  cre_other_access : ∀ k, k ≠ aid → k ≠ CompatRefreshTokenLookup.compat_access_token_id rt →
    compat_access_tokens (w_committed w') !! k = compat_access_tokens (w_committed w) !! k;
  cre_rest : w_committed w' = set_rows (compat_refresh_tokens (w_committed w'))
    (set_rows (compat_access_tokens (w_committed w')) (w_committed w));
  cre_ttl : CompatRefresh.expires_in_ms resp = ttl;
}.

Section Refresh.
Context {R : Type} `{!RngCore R} {crc : Crc} {base64 : Base64}.
Implicit Types w : World R.

(** The old access token, after the step that expires it. *)
Definition expire_step (a : CompatAccessTokenLookup.t) (aid : Ulid)
    (m : gmap Z CompatAccessTokenLookup.t) (t1 t2 : DateTime) :
    gmap Z CompatAccessTokenLookup.t :=
  if CompatAccessToken.is_valid (CompatAccessTokenRepository.of_row a) t1
  then <[aid := CompatAccessTokenRepository.with_expires_at t2 a]> m else m.

Lemma expire_step_expired a aid m t1 t2 w w' :
  m !! aid = Some a → reading w w' t1 → reading w w' t2 →
  ∃ a' t e, reading w w' t ∧ e ≤ t ∧ expire_step a aid m t1 t2 !! aid = Some a' ∧
    CompatAccessTokenLookup.expires_at a' = Some e.
Proof.
  unfold expire_step, CompatAccessToken.is_valid. simpl. intros Hm H1 H2.
  destruct (CompatAccessTokenLookup.expires_at a) as [e|] eqn:He.
  - destruct (Z.ltb_spec t1 e).
    + eexists _, t2, t2. rewrite lookup_insert_eq. split_and!; [done|lia|done|done].
    + exists a, t1, e. split_and!; [done|lia|done|done].
  - eexists _, t2, t2. rewrite lookup_insert_eq. split_and!; [done|lia|done|done].
Qed.

Lemma expire_step_other a aid m t1 t2 k :
  k ≠ aid → expire_step a aid m t1 t2 !! k = m !! k.
Proof. intros Hk. unfold expire_step. case_match; [by rewrite lookup_insert_ne|done]. Qed.

(** The old access token is read, and expired where it has not already. *)
Lemma old_access_inv {E} (a : CompatAccessToken.t) w o w' :
  (do now_ <- now (E := E);
   ret (if CompatAccessToken.is_valid a now_ then Some a else None)) w = (Ok o, w') →
  same_db w w' ∧ ∃ t, reading w w' t ∧
    o = if CompatAccessToken.is_valid a t then Some a else None.
Proof.
  intros H. assert (reading w w' (w_clock w (w_ticks w))) as Hr
    by (revert H; apply now_first; intros ?; keeps_tac).
  apply bind_Ok_inv in H as (t & w1 & [-> D]%now_inv & [= <- <-]). eauto.
Qed.

Lemma expire_old_inv a aid t1 w u w' :
  compat_access_tokens (w_txn w) !! aid = Some a →
  CompatAccessTokenLookup.compat_access_token_id a = aid →
  match (if CompatAccessToken.is_valid (CompatAccessTokenRepository.of_row a) t1
         then Some (CompatAccessTokenRepository.of_row a) else None) with
  | Some x => do! CompatEndpoints.repo CompatRefresh.Internal
                    (CompatAccessTokenRepository.expire x); ret tt
  | None => ret tt
  end w = (Ok u, w') →
  same_committed w w' ∧ ∃ t2, (t2 = t1 ∨ reading w w' t2) ∧
    w_txn w' = set_rows (expire_step a aid (compat_access_tokens (w_txn w)) t1 t2) (w_txn w).
Proof.
  intros Ha Hid H. unfold expire_step.
  destruct (CompatAccessToken.is_valid _ _).
  - apply bind_Ok_inv in H as (b & w1 & Hx%mmap_err_Ok_inv & [= <- <-]).
    apply compat_access_expire_inv in Hx as (t2 & r & Hr & Hrow & Ht & Hc). simpl in *.
    rewrite Hid in *. simplify_eq. split; [done|]. exists t2. auto.
  - injection H as <- <-. split; [done|]. exists t1. split; [by left|]. by destruct (w_txn w).
Qed.

(** The statements of the handler, together. *)
Lemma refreshed_effect w w' ttl resp rid rt a aid nrid ta tr tc t1 t2 :
  integrity (w_committed w) →
  compat_refresh_tokens (w_committed w) !! rid = Some rt →
  compat_access_tokens (w_committed w) !! CompatRefreshTokenLookup.compat_access_token_id rt =
    Some a →
  compat_access_tokens (w_committed w) !! aid = None →
  compat_refresh_tokens (w_committed w) !! nrid = None →
  reading w w' ta → reading w w' tc → reading w w' t1 → reading w w' t2 →
  CompatRefresh.expires_in_ms resp = ttl →
  let sid := CompatRefreshTokenLookup.compat_session_id rt in
  let d1 := set_rows (<[aid := CompatAccessTokenLookup.mk aid (CompatRefresh.access_token resp)
      ta (Some (ta + ttl)) sid]> (compat_access_tokens (w_committed w))) (w_committed w) in
  let d2 := set_rows (<[nrid := CompatRefreshTokenLookup.mk nrid
      (CompatRefresh.refresh_token resp) tr None aid sid]> (compat_refresh_tokens d1)) d1 in
  let d3 := set_rows ((λ x, if CompatRefreshTokenRepository.to_consume sid nrid x
      then CompatRefreshTokenRepository.with_consumed_at tc x else x) <$>
      compat_refresh_tokens d2) d2 in
  w_committed w' = set_rows (expire_step a (CompatRefreshTokenLookup.compat_access_token_id rt)
      (compat_access_tokens d3) t1 t2) d3 →
  compat_refresh_effect w w' ttl resp rt aid nrid.
Proof.
  intros Hint Hrt Ha Fa Fr Ra Rc R1 R2 Httl sid d1 d2 d3 Hd.
  assert (aid ≠ CompatRefreshTokenLookup.compat_access_token_id rt) as Hne by congruence.
  split; rewrite ?Hd; try done; simpl.
  - exists ta. by rewrite expire_step_other, lookup_insert_eq.
  - exists tr. rewrite lookup_fmap, lookup_insert_eq. simpl.
    unfold CompatRefreshTokenRepository.to_consume. simpl.
    by rewrite (bool_decide_eq_true_2 (nrid = nrid)), andb_false_r.
  - exists tc. split; [done|]. intros k Hk. rewrite lookup_fmap, lookup_insert_ne by done.
    destruct (compat_refresh_tokens (w_committed w) !! k) as [r|] eqn:Hr; [|done]. simpl.
    unfold CompatRefreshTokenRepository.to_consume, consumed_in.
    rewrite (compat_refresh_pkey _ Hint _ _ Hr).
    by rewrite (bool_decide_eq_false_2 (k = nrid)), andb_true_r.
  - destruct (expire_step_expired a (CompatRefreshTokenLookup.compat_access_token_id rt)
      (<[aid := CompatAccessTokenLookup.mk aid (CompatRefresh.access_token resp)
      ta (Some (ta + ttl)) sid]> (compat_access_tokens (w_committed w))) t1 t2 w w')
      as (a' & t & e & ? & ? & ? & ?); [by rewrite lookup_insert_ne | done..|].
    exists a', t, e. done.
  - intros k Hk1 Hk2. by rewrite expire_step_other, lookup_insert_ne.
Qed.

Lemma compat_refresh_Ok ip cfg input w resp w' :
  integrity (w_committed w) →
  CompatRefresh.refresh_request ip cfg input w = (Ok resp, w') →
  check input = Ok CompatRefreshTokenType ∧
  ∃ rid rt s aid nrid, compat_refresh_allowed (w_committed w) input rid rt s ∧
    compat_refresh_effect w w' (compat_token_ttl cfg) resp rt aid nrid.
Proof.
  intros Hint H. unfold CompatRefresh.refresh_request, CompatRefresh.post in H.
  apply bind_Ok_inv in H as (u0 & w0 & Hpool & H).
  apply bind_Ok_inv in H as (ty & ? & [Hty%map_err_Ok ->]%lift_inv & H).
  apply bind_Ok_inv in H as (u1 & ? & [->%bool_decide_eq_true ->]%compat_guard_inv & H).
  apply bind_Ok_inv in H as (o & w1 & Hfind & H).
  apply bind_Ok_inv in H as (x & ? & [-> ->]%compat_require_inv & H).
  apply bind_Ok_inv in H as (u2 & ? & [Hlive ->]%compat_guard_inv & H).
  apply bind_Ok_inv in H as (so & w2 & Hses & H).
  apply bind_Ok_inv in H as (se & ? & [-> ->]%compat_require_inv & H).
  apply bind_Ok_inv in H as (u3 & ? & [Hvalid ->]%compat_guard_inv & H).
  apply bind_Ok_inv in H as (u4 & w3 & Hrec & H).
  apply bind_Ok_inv in H as (ao & w4 & Hold & H).
  apply bind_Ok_inv in H as (oa & w5 & Hoa & H).
  apply bind_Ok_inv in H as (rs & w6 & Hrs & H).
  apply bind_Ok_inv in H as (as_ & w7 & Has & H).
  apply bind_Ok_inv in H as (na & w8 & Hna & H).
  apply bind_Ok_inv in H as (nr & w9 & Hnr & H).
  apply bind_Ok_inv in H as (u5 & w10 & Hcon & H).
  apply bind_Ok_inv in H as (u6 & w11 & Hexp & H).
  apply bind_Ok_inv in H as (u7 & w12 & Hsave & [= <- <-]).
  time_passed.
  split; [done|].
  apply mmap_err_Ok_inv, from_pool_inv in Hpool as [T0 [C0 K0]].
  apply mmap_err_Ok_inv, compat_refresh_find_inv in Hfind as [(T1 & C1 & K1) (rid & rt & Hrt & Htxt & ->)].
  apply mmap_err_Ok_inv, compat_session_lookup_inv in Hses as [(T2 & C2 & K2) Hse].
  apply record_compat_inv in Hrec as (T3 & C3 & K3).
  apply mmap_err_Ok_inv, compat_access_lookup_inv in Hold as [(T4 & C4 & K4) ->].
  apply with_rng_same in Hrs as (T6 & C6 & K6).
  apply with_rng_same in Has as (T7 & C7 & K7).
  symmetry in Hse. apply fmap_Some in Hse as (s & Hs & ->).
  rewrite T1, T0 in Hs. rewrite T0 in Hrt. simpl in Hs.
  assert (w_txn w3 = w_committed w) as T by congruence. rewrite T in *.
  destruct (compat_refresh_access_fkey _ Hint _ _ _ Hrt eq_refl) as [a Ha].
  simpl in Hoa. rewrite Ha in Hoa.
  apply old_access_inv in Hoa as [(T5 & C5 & K5) (t1 & R1 & ->)].
  apply mmap_err_Ok_inv, compat_access_add_inv in Hna
    as (aid & ta & Ra & Fa & _ & -> & T8 & C8 & K8).
  apply mmap_err_Ok_inv, compat_refresh_add_inv in Hnr
    as (nrid & tr & Rr & Fr & _ & -> & T9 & C9 & K9).
  apply mmap_err_Ok_inv, compat_consume_inv in Hcon
    as (tc & Rc & _ & _ & T10 & C10 & K10).
  assert (w_txn w7 = w_committed w) as T7' by congruence. rewrite T7' in *.
  pose proof (compat_sessions_pkey _ Hint _ _ Hs) as Hsid.
  apply (expire_old_inv a (CompatRefreshTokenLookup.compat_access_token_id rt)) in Hexp
    as [[C11 K11] (t2 & R2 & T11)].
  2: { rewrite T10, T9, T8. simpl. by rewrite lookup_insert_ne by congruence. }
  2: { by apply (compat_access_pkey _ Hint). }
  apply mmap_err_Ok_inv, save_inv in Hsave as [Hcom _].
  exists rid, rt, s, aid, nrid. split.
  - split; [done..| |done|].
    + revert Hlive. unfold compat_live, CompatRefreshTokenRepository.of_row. simpl.
      by destruct (CompatRefreshTokenLookup.consumed_at rt).
    + revert Hvalid. unfold CompatSessionRepository.of_row. simpl.
      by destruct (CompatSessionLookup.finished_at s).
  - eapply (refreshed_effect _ _ _ _ rid rt a aid nrid ta tr tc t1 t2); try done.
    + by rewrite T8 in Fr.
    + reading_solve.
    + reading_solve.
    + reading_solve.
    + destruct R2 as [->|R2]; reading_solve.
    + simpl in *. rewrite Hsid in *. by rewrite Hcom, T11, T10, T9, T8.
Qed.
End Refresh.
