(* ===== verification/CompatLoginFacts.v ===== *)
(** * Correctness of the login of the compatibility API

    What a successful login (crates/handlers/src/compat/login.rs) has
    checked, and what it writes: the session, its tokens, the end of the
    sessions the device had, the SSO login exchanged. *)

From stdpp Require Import base tactics list strings gmap.
From Stdlib Require Import ZArith Lia Ascii.
From S2P Require Import Prelude Text Scope Externals Formats Pagination TokenFormat DataModel CompatModel Storage TokenRepo GrantRepo QueueRepo UserRepo CompatRepo PersonalRepo AppSessionRepo Passwords ClientAuth TokenEndpoint Introspection CompatEndpoints RepoFacts CompatRepoFacts Integrity Evolution Scenario TokenFacts CompatRefreshFacts.
#[local] Open Scope Z_scope.

(** ** Sessions that end *)

(** A row left alone, or marked as finished. *)
Definition ended {Row} (finish : DateTime → Row → Row) (o o' : option Row) : Prop :=
  match o, o' with
  | None, None => True
  | Some r, Some r' => r' = r ∨ ∃ t, r' = finish t r
  | _, _ => False
  end.

Section Ended.
Context {Row : Type} (finish : DateTime → Row → Row).
Hypothesis finish_twice : ∀ t t' r, finish t' (finish t r) = finish t' r.

Lemma ended_refl o : ended finish o o.
Proof. destruct o; simpl; auto. Qed.

Lemma ended_trans x y z : ended finish x y → ended finish y z → ended finish x z.
Proof using finish_twice.
  destruct x as [x|], y as [y|], z as [z|]; simpl; try done.
  intros [->|[t ->]] [->|[t' ->]]; rewrite ?finish_twice; eauto.
Qed.

Lemma ended_update (m : gmap Z Row) i r t k :
  m !! i = Some r → ended finish (m !! k) (<[i := finish t r]> m !! k).
Proof.
  intros Hi. destruct (decide (i = k)) as [->|].
  - rewrite lookup_insert_eq, Hi. simpl. eauto.
  - rewrite lookup_insert_ne by done. apply ended_refl.
Qed.

Lemma ended_fmap (m : gmap Z Row) (p : Row → bool) t k :
  ended finish (m !! k) (((λ r, if p r then finish t r else r) <$> m) !! k).
Proof. rewrite lookup_fmap. destruct (m !! k); simpl; [|done]. destruct (p _); eauto. Qed.
End Ended.

(** Sessions may end and jobs be scheduled; nothing else changes. *)
Record ends (d d' : Db) : Prop := {
  en_compat : ∀ k, ended CompatSessionRepository.with_finished_at (compat_sessions d !! k)
    (compat_sessions d' !! k);
  en_oauth2 : ∀ k, ended SessionRepository.with_finished_at (oauth2_sessions d !! k)
    (oauth2_sessions d' !! k);
  en_rest : d' = set_rows (queue_jobs d') (set_rows (compat_sessions d')
    (set_rows (oauth2_sessions d') d));
}.

#[export] Instance ends_preorder : PreOrder ends.
Proof.
  split.
  - intros d. split; [intros; apply ended_refl..|by destruct d].
  - intros x y z [H1 H2 H3] [H4 H5 H6]. split.
    + intros k. by eapply ended_trans.
    + intros k. by eapply ended_trans.
    + rewrite H6, H3. simpl. by destruct z.
Qed.

Ltac ends_solve :=
  split; simpl in *;
  [intros; first [apply ended_refl | by apply ended_update | apply ended_fmap] ..
  | reflexivity].

#[export] Hint Extern 1 (keeps (keeps_db ends) (execute (insert_stmt _ _ _))) =>
  apply (keeps_db_execute _); intros ??? (? & ? & ? & ->)%insert_stmt_inv; ends_solve : keeps.
#[export] Hint Extern 1 (keeps (keeps_db ends) (execute (update_stmt _ _ _))) =>
  apply (keeps_db_execute _);
  intros ??? [->|(? & ? & ? & ->)]%update_stmt_any; [reflexivity | ends_solve] : keeps.
#[export] Hint Extern 2 (keeps (keeps_db ends) (execute _)) =>
  apply (keeps_db_execute _); unfold update_where_stmt;
  intros ??? [= <- <-]; ends_solve : keeps.

(** ** The device *)

(** No active session of the user is on the device. *)
Definition device_free (d : Db) (uid : Ulid) (device : Device.Device) : Prop :=
  (∀ k r, compat_sessions d !! k = Some r → compat_uses_device uid device r = false) ∧
  (∀ k r, oauth2_sessions d !! k = Some r → oauth2_uses_device uid device r = false).

Lemma compat_finished_unused uid device t r :
  compat_uses_device uid device (CompatSessionRepository.with_finished_at t r) = false.
Proof. unfold compat_uses_device. simpl. by rewrite andb_false_r. Qed.

Lemma oauth2_finished_unused uid device t r :
  oauth2_uses_device uid device (SessionRepository.with_finished_at t r) = false.
Proof.
  unfold oauth2_uses_device, AppSessionRepository.uses_device.
  destruct (Device.to_scope_token device) as [[]|]; [|done]. simpl. by rewrite andb_false_r.
Qed.

Lemma device_free_ends d d' uid device :
  device_free d uid device → ends d d' → device_free d' uid device.
Proof.
  intros [H1 H2] [E1 E2 _]. split; intros k r Hr.
  - specialize (E1 k). rewrite Hr in E1. unfold ended in E1.
    destruct (compat_sessions d !! k) as [r0|] eqn:?; [|done].
    destruct E1 as [->|[t ->]]; [eauto | apply compat_finished_unused].
  - specialize (E2 k). rewrite Hr in E2. unfold ended in E2.
    destruct (oauth2_sessions d !! k) as [r0|] eqn:?; [|done].
    destruct E2 as [->|[t ->]]; [eauto | apply oauth2_finished_unused].
Qed.

Section Login.
Context {R C : Type} `{!RngCore R} {crc : Crc} {base64 : Base64} {sha2 : Sha2}
  {ulid_text : UlidText} {url_lib : UrlLib} {pg_text : PgText}
  {password_crates : PasswordCrates R C} {names : MatrixNames} {limits : Limits}
  {login_policy : LoginPolicy}.
Implicit Types w : World R.

Lemma replace_device_free user device w b w' :
  AppSessionRepository.finish_sessions_to_replace_device user device w = (Ok b, w') →
  device_free (w_txn w') (User.id user) device.
Proof.
  intros (t & -> & _)%replace_device_inv. split; simpl; intros k r;
    intros (r0 & <- & _)%lookup_fmap_Some.
  - destruct (compat_uses_device _ _ r0) eqn:E; [apply compat_finished_unused | done].
  - destruct (oauth2_uses_device _ _ r0) eqn:E; [apply oauth2_finished_unused | done].
Qed.

(** A run that keeps [ends] and commits nothing. *)
Lemma ends_run {E A} (m : M (World R) E A) w r w' :
  keeps (keeps_db ends) m → keeps same_committed m → m w = (r, w') →
  ends (w_txn w) (w_txn w') ∧ same_committed w w'.
Proof.
  intros He Hc H. split; [|by apply (keeps_run _ m w r)].
  by apply (keeps_run _ m w r w' He) in H as [? _].
Qed.

Lemma admit_device_Ok ip ua lim user login req w dev w' :
  Login.admit_device ip ua lim user login req w = (Ok dev, w') →
  ends (w_txn w) (w_txn w') ∧ same_committed w w' ∧
  device_free (w_txn w') (User.id user) dev ∧
  (∀ id, req = Some id → dev = Device.mkDevice id).
Proof.
  intros H. unfold Login.admit_device in H.
  apply bind_Ok_inv in H as (u0 & w0 & H0 & H).
  apply bind_Ok_inv in H as (dev' & w1 & H1 & H).
  apply bind_Ok_inv in H as (b & w2 & H2 & H).
  apply ends_run in H as Hrest; [|keeps_tac..]. destruct Hrest as [E3 C3].
  apply ends_run in H0 as [E0 C0]; [|keeps_tac..].
  apply ends_run in H1 as E1; [|keeps_tac..]. destruct E1 as [E1 C1].
  apply ends_run in H2 as E2; [|keeps_tac..]. destruct E2 as [E2 C2].
  apply mmap_err_Ok_inv, replace_device_free in H2.
  assert (dev' = dev) as ->.
  { apply bind_Ok_inv in H as (cnt & w3 & _ & H). apply bind_Ok_inv in H as (v & w4 & _ & H).
    by apply bind_Ok_inv in H as (u5 & w5 & _ & [= <- <-]). }
  split_and!.
  - by repeat (etransitivity; [eassumption|]).
  - by repeat (etransitivity; [eassumption|]).
  - by eapply device_free_ends.
  - intros id ->. by injection H1 as <- <-.
Qed.

(** ** The credentials *)

(** A password of the user: the latest row of the table verifies. *)
Definition password_of (pm : PasswordManager) (d : Db) (uid : Ulid) (password : string) : Prop :=
  ∃ k r, user_passwords d !! k = Some r ∧ UserPasswordLookup.user_id r = uid ∧
    (∀ k' r', user_passwords d !! k' = Some r' → UserPasswordLookup.user_id r' = uid →
       UserPasswordLookup.created_at r' ≤ UserPasswordLookup.created_at r) ∧
    verify_password pm (UserPasswordLookup.version r) password
      (UserPasswordLookup.hashed_password r) = Ok (Success tt).

Lemma latest_Some rs r :
  UserPasswordRepository.latest rs = Some r →
  r ∈ rs ∧ ∀ r', r' ∈ rs → UserPasswordLookup.created_at r' ≤ UserPasswordLookup.created_at r.
Proof.
  revert r. induction rs as [|x rs IH]; intros r; simpl; [done|].
  destruct (UserPasswordRepository.latest rs) as [b|] eqn:Hb; simpl.
  - destruct (IH b eq_refl) as [Hin Hmax].
    destruct (Z.ltb_spec (UserPasswordLookup.created_at b) (UserPasswordLookup.created_at x));
      intros [= <-]; (split; [set_solver|]); intros r' [->|Hr']%elem_of_cons; try lia;
      specialize (Hmax r' Hr'); lia.
  - intros [= <-]. split; [set_solver|]. intros r' [->|Hr']%elem_of_cons; [lia|].
    destruct rs as [|y rs]; [by apply not_elem_of_nil in Hr'|].
    simpl in Hb. destruct (UserPasswordRepository.latest rs) as [z|]; [|done]. by case_match.
Qed.

Lemma password_active_row u w p w' :
  UserPasswordRepository.active u w = (Ok (Some p), w') →
  same_db w w' ∧ ∃ k r, user_passwords (w_txn w) !! k = Some r ∧
    UserPasswordLookup.user_id r = User.id u ∧
    UserPassword.version p = UserPasswordLookup.version r ∧
    UserPassword.hashed_password p = UserPasswordLookup.hashed_password r ∧
    ∀ k' r', user_passwords (w_txn w) !! k' = Some r' →
      UserPasswordLookup.user_id r' = User.id u →
      UserPasswordLookup.created_at r' ≤ UserPasswordLookup.created_at r.
Proof.
  intros H. op_inv H. subst. split; [same_world|].
  destruct (UserPasswordRepository.latest _) as [r|] eqn:Hl; simpl in *; destruct_ex; [|done].
  simplify_eq. apply latest_Some in Hl as [Hin Hmax].
  change (user_passwords (w_txn w)) with (rows (Row := UserPasswordLookup.t) (w_txn w)) in *.
  apply list_elem_of_filter in Hin as [Hu Hin]. apply elem_of_rows in Hin as [k Hk].
  exists k, r.
  match goal with H : UserPasswordRepository.try_from _ = _ |- _ => rename H into Hd end.
  unfold UserPasswordRepository.try_from in Hd. apply rbind_Ok_inv in Hd as (v & Hv & [= <-]).
  split_and!; try done.
  - simpl. revert Hv. unfold UserPasswordRepository.scheme_version.
    case_match; simpl; naive_solver.
  - intros k' r' Hk' Hu'. apply Hmax, list_elem_of_filter. split; [done|].
    apply elem_of_rows. eauto.
Qed.

Lemma verify_and_upgrade_Ok pm scheme p h (r : R) o r' :
  verify_and_upgrade pm scheme p h r = (Ok (Success o), r') →
  verify_password pm scheme p h = Ok (Success tt).
Proof.
  intros (inner & r1 & _ & H)%bind_Ok_inv.
  destruct (if decide _ then _ else _) as [nh r2]. injection H as H _.
  apply rbind_Ok_inv in H as (res & -> & H). apply rbind_Ok_inv in H as (n & _ & H).
  destruct res as [[]|]; [done|]. by injection H.
Qed.

(** Only the table of the passwords changes. *)
Definition passwords_only (d d' : Db) : Prop := d' = set_rows (user_passwords d') d.

Lemma check_user_password_Ok pm ip user password w x w' :
  Login.check_user_password pm ip user password w = (Ok x, w') →
  same_committed w w' ∧ passwords_only (w_txn w) (w_txn w') ∧
  password_of pm (w_txn w) (User.id user) password.
Proof.
  intros H. assert (same_committed w w') as Hc by (eapply keeps_run; [|exact H]; keeps_tac).
  split; [done|]. unfold Login.check_user_password in H.
  apply bind_Ok_inv in H as (u0 & ? & [_ ->]%lift_inv & H).
  apply bind_Ok_inv in H as (o & w1 & H1%mmap_err_Ok_inv & H).
  apply bind_Ok_inv in H as (p & ? & [-> ->]%compat_require_inv & H).
  apply bind_Ok_inv in H as (res & w2 & H2%mmap_err_Ok_inv & H).
  apply password_active_row in H1 as [(T1 & _) (k & r & Hr & Hu & Hv & Hh & Hmax)].
  unfold Login.on_rng in H2. destruct (verify_and_upgrade _ _ _ _ _) as [vr rng] eqn:Hver.
  injection H2 as -> <-.
  assert (∀ o, res = Success o → password_of pm (w_txn w) (User.id user) password) as Hp.
  { intros o ->. apply verify_and_upgrade_Ok in Hver. rewrite Hv, Hh in Hver.
    exists k, r. eauto. }
  destruct res as [[[v h]|]|]; [| |done].
  - split; [|by eapply Hp].
    apply bind_Ok_inv in H as (np & w3 & H3%mmap_err_Ok_inv & [= <- <-]).
    apply password_add_inv in H3 as (m & T3 & _). unfold passwords_only.
    rewrite T3. simpl. by rewrite T1.
  - injection H as <- <-. split; [|by eapply Hp]. unfold passwords_only. simpl. rewrite T1.
    by destruct (w_txn w).
Qed.

(** An SSO login that can be exchanged: fulfilled no more than thirty seconds
    ago by a browser session of the user that is not finished. *)
Definition login_of (d : Db) (t : DateTime) (uid : Ulid) (token : string) (lid : Ulid)
    (l : CompatSsoLoginLookup.t) : Prop :=
  compat_sso_logins d !! lid = Some l ∧ CompatSsoLoginLookup.login_token l = token ∧
  CompatSsoLoginLookup.exchanged_at l = None ∧
  ∃ f bid b, CompatSsoLoginLookup.fulfilled_at l = Some f ∧ t ≤ f + Login.THIRTY_SECONDS ∧
    CompatSsoLoginLookup.user_session_id l = Some bid ∧ user_sessions d !! bid = Some b ∧
    UserSessionRow.user_id b = uid ∧ UserSessionRow.finished_at b = None.

(** A session opened for the user [u] on the device: no other active session
    of the user is on it, and every other session was left alone or ended. *)
Record opened (d d' : Db) (uid : Ulid) (u : UserLookup.t) (device : Device.Device)
    (sid : Ulid) : Prop := {
  op_user : users d !! uid = Some u ∧ UserLookup.locked_at u = None ∧
    UserLookup.deactivated_at u = None;
  op_fresh : compat_sessions d !! sid = None;
  op_session : ∃ s, compat_sessions d' !! sid = Some s ∧
    CompatSessionLookup.compat_session_id s = sid ∧ CompatSessionLookup.user_id s = uid ∧
    CompatSessionLookup.device_id s = Some (Device.id device) ∧
    CompatSessionLookup.finished_at s = None ∧ CompatSessionLookup.is_synapse_admin s = false;
  op_device : ∀ k r, compat_sessions d' !! k = Some r →
    compat_uses_device uid device r = true → k = sid;
  op_device_oauth2 : ∀ k r, oauth2_sessions d' !! k = Some r →
    oauth2_uses_device uid device r = false;
  op_others : ∀ k, k ≠ sid → ended CompatSessionRepository.with_finished_at
    (compat_sessions d !! k) (compat_sessions d' !! k);
  op_oauth2 : ∀ k, ended SessionRepository.with_finished_at (oauth2_sessions d !! k)
    (oauth2_sessions d' !! k);
}.

(** The tables a login leaves alone. *)
Definition untouched (d : Db) :=
  (oauth2_clients d, users d, user_sessions d, user_session_authentications d,
   oauth2_access_tokens d, oauth2_refresh_tokens d, oauth2_authorization_grants d,
   oauth2_device_code_grant d, queue_workers d, queue_schedules d, queue_leader d,
   personal_sessions d, personal_access_tokens d).
Definition around_login (d d' : Db) : Prop := untouched d' = untouched d.

Lemma opened_tables d d' d'' uid u device sid :
  opened d d' uid u device sid → compat_sessions d'' = compat_sessions d' →
  oauth2_sessions d'' = oauth2_sessions d' → opened d d'' uid u device sid.
Proof. intros [] Hc Ho. split; rewrite ?Hc, ?Ho; done. Qed.

Lemma opened_before d0 d d' uid u device sid :
  opened d d' uid u device sid → users d = users d0 → compat_sessions d = compat_sessions d0 →
  oauth2_sessions d = oauth2_sessions d0 → opened d0 d' uid u device sid.
Proof. intros [] Hu Hc Ho. split; rewrite <- ?Hu, <- ?Hc, <- ?Ho; done. Qed.

(** The session is added once the device is admitted. *)
Lemma opened_add d d1 user u device browser name w s w' :
  users d !! User.id user = Some u → UserLookup.locked_at u = None →
  UserLookup.deactivated_at u = None →
  ends d d1 → device_free d1 (User.id user) device → w_txn w = d1 →
  CompatSessionRepository.add user device browser false name w = (Ok s, w') →
  ∃ sid, opened d (w_txn w') (User.id user) u device sid ∧ CompatSession.id s = sid ∧
    CompatSession.device s = Some device ∧ CompatSession.user_id s = User.id user ∧
    same_committed w w' ∧ w_txn w' = set_rows (compat_sessions (w_txn w')) d1.
Proof.
  intros Hu Hl Hde [Ec Eo Er] [Fc Fo] Hw
    (sid & t & _ & Hfresh & _ & -> & Ht & Hc)%compat_session_add_inv.
  rewrite Hw in *. exists sid. simpl. split_and!; try done; [|by rewrite Ht].
  assert (compat_sessions d !! sid = None) as Hf.
  { specialize (Ec sid). rewrite Hfresh in Ec. by destruct (compat_sessions d !! sid). }
  split; rewrite ?Ht; simpl; try done.
  - rewrite lookup_insert_eq. eauto 10.
  - intros k r [[<- <-]|[_ Hr]]%lookup_insert_Some Huse; [done|].
    by rewrite (Fc k r Hr) in Huse.
  - intros k Hk. by rewrite lookup_insert_ne.
Qed.

(** The row of a login that was fulfilled and not exchanged. *)
Lemma sso_fulfilled_row l x f b :
  CompatSsoLoginRepository.try_from l = Ok x →
  CompatSsoLogin.state x = CompatSsoLoginState.Fulfilled f b →
  CompatSsoLogin.id x = CompatSsoLoginLookup.compat_sso_login_id l ∧
  CompatSsoLoginLookup.fulfilled_at l = Some f ∧ CompatSsoLoginLookup.exchanged_at l = None ∧
  CompatSsoLoginLookup.user_session_id l = Some b.
Proof.
  unfold CompatSsoLoginRepository.try_from.
  intros (u & _ & (st & Hst & [= <-])%rbind_Ok_inv)%rbind_Ok_inv. simpl. intros ->.
  destruct (CompatSsoLoginLookup.fulfilled_at l), (CompatSsoLoginLookup.exchanged_at l),
    (CompatSsoLoginLookup.user_session_id l), (CompatSsoLoginLookup.compat_session_id l);
    simplify_eq; done.
Qed.

Lemma check_login_Ok x w b w' :
  Login.check_login x w = (Ok b, w') →
  same_db w w' ∧ ∃ f t, CompatSsoLogin.state x = CompatSsoLoginState.Fulfilled f b ∧
    reading w w' t ∧ t ≤ f + Login.THIRTY_SECONDS.
Proof.
  intros H. assert (reading w w' (w_clock w (w_ticks w))) as Hr
    by (revert H; apply now_first; intros ?; keeps_tac).
  apply bind_Ok_inv in H as (t & w1 & [-> D]%now_inv & H).
  destruct (CompatSsoLogin.state x) as [|f b'|]; [done| |done].
  destruct (Z.ltb_spec (f + Login.THIRTY_SECONDS) (w_clock w (w_ticks w))); [done|].
  injection H as <- <-. split; [done|]. eauto 10.
Qed.

Lemma valid_user_row r :
  User.is_valid (UserRepository.of_row r) = true →
  UserLookup.locked_at r = None ∧ UserLookup.deactivated_at r = None.
Proof.
  unfold User.is_valid. simpl.
  by destruct (UserLookup.locked_at r), (UserLookup.deactivated_at r).
Qed.

Lemma token_login_Ok ip ua lim token req name w s user w' :
  integrity (w_txn w) →
  Login.token_login ip ua lim token req name w = (Ok (s, user), w') →
  same_committed w w' ∧ ∃ uid u device sid lid l t1 t2,
    opened (w_txn w) (w_txn w') uid u device sid ∧
    user = UserRepository.of_row u ∧ CompatSession.id s = sid ∧
    CompatSession.device s = Some device ∧
    (∀ id, req = Some id → device = Device.mkDevice id) ∧
    login_of (w_txn w) t1 uid token lid l ∧ reading w w' t1 ∧ reading w w' t2 ∧
    compat_sso_logins (w_txn w') =
      <[lid := CompatSsoLoginRepository.with_exchanged t2 sid l]> (compat_sso_logins (w_txn w)) ∧
    around_login (w_txn w) (w_txn w') ∧
    compat_access_tokens (w_txn w') = compat_access_tokens (w_txn w) ∧
    compat_refresh_tokens (w_txn w') = compat_refresh_tokens (w_txn w).
Proof.
  intros Hint H. assert (same_committed w w') as Hcom by (eapply keeps_run; [|exact H]; keeps_tac).
  split; [done|]. unfold Login.token_login in H.
  apply bind_Ok_inv in H as (lo & w1 & H1 & H).
  apply bind_Ok_inv in H as (x & ? & [-> ->]%compat_require_inv & H).
  apply bind_Ok_inv in H as (bid & w2 & H2 & H).
  apply bind_Ok_inv in H as (bo & w3 & H3 & H).
  apply bind_Ok_inv in H as (b & ? & [-> ->]%compat_require_inv & H).
  apply bind_Ok_inv in H as (u0 & ? & Hact & H).
  destruct (BrowserSession.active b && User.is_valid (BrowserSession.user b)) eqn:Hb; [|done].
  injection Hact as _ <-.
  apply bind_Ok_inv in H as (device & w4 & H4 & H).
  apply bind_Ok_inv in H as (s' & w5 & H5 & H).
  apply bind_Ok_inv in H as (l' & w6 & H6 & [= <- <- <-]).
  time_passed.
  apply mmap_err_Ok_inv, sso_find_inv in H1 as [(T1 & _) (lid & l & Hl & Htok & Hdec)].
  apply check_login_Ok in H2 as [(T2 & _) (f & t1 & Hst & R1 & Ht1)].
  destruct (sso_fulfilled_row _ _ _ _ Hdec Hst) as (Hid & Hf & Hex & Hus).
  apply mmap_err_Ok_inv, browser_lookup_inv in H3 as [(T3 & _) Hbs].
  symmetry in Hbs. apply fmap_Some in Hbs as ([br u] & [Hbr Hu]%browser_select_Some & ->).
  simpl in *. apply andb_true_iff in Hb as [Hbact [Hlock Hdeact]%valid_user_row].
  apply admit_device_Ok in H4 as (En & _ & Hfree & Hreq).
  assert (w_txn w3 = w_txn w) as T by congruence. rewrite T in En.
  rewrite T2, T1 in Hbr, Hu.
  pose proof (users_pkey _ Hint _ _ Hu) as Huid. simpl in *.
  apply mmap_err_Ok_inv in H5.
  eapply (opened_add (w_txn w) (w_txn w4) (UserRepository.of_row u) u) in H5
    as (sid & Hop & Hsid & Hdev & _ & _ & Ht5); [|simpl; by rewrite Huid|done..].
  apply mmap_err_Ok_inv, sso_exchange_inv in H6 as (t2 & l2 & R2 & Hl2 & _ & T6 & _).
  pose proof (en_rest _ _ En) as Er.
  assert (compat_sso_logins (w_txn w5) = compat_sso_logins (w_txn w)) as Hsso
    by (rewrite Ht5; simpl; by rewrite Er).
  pose proof (sso_logins_pkey _ Hint _ _ Hl) as Hlid. rewrite Hlid in Hid.
  rewrite Hid, Hsso in *. rewrite Hl in Hl2. injection Hl2 as <-.
  simpl in Hop. rewrite Huid, Hsid in *. exists (UserSessionRow.user_id br), u, device, sid, lid, l, t1, t2.
  split_and!; try done.
  - eapply opened_tables; [exact Hop|by rewrite T6..].
  - split_and!; try done. exists f, bid, br. split_and!; try done.
    revert Hbact. unfold BrowserSession.active. simpl. by case_match.
  - reading_solve.
  - reading_solve.
  - by rewrite T6.
  - transitivity (untouched (w_txn w5)); [by rewrite T6|].
    transitivity (untouched (w_txn w4)); [by rewrite Ht5 | by rewrite Er].
  - rewrite T6. simpl. rewrite Ht5. simpl. by rewrite Er.
  - rewrite T6. simpl. rewrite Ht5. simpl. by rewrite Er.
Qed.

Lemma password_login_Ok pm ip ua lim username password req name w s user w' :
  integrity (w_txn w) →
  Login.user_password_login pm ip ua lim username password req name w = (Ok (s, user), w') →
  same_committed w w' ∧ ∃ uid u device sid,
    opened (w_txn w) (w_txn w') uid u device sid ∧
    user = UserRepository.of_row u ∧ CompatSession.id s = sid ∧
    CompatSession.device s = Some device ∧
    (∀ id, req = Some id → device = Device.mkDevice id) ∧
    pg_lower (UserLookup.username u) = pg_lower username ∧
    password_of pm (w_txn w) uid password ∧
    compat_sso_logins (w_txn w') = compat_sso_logins (w_txn w) ∧
    around_login (w_txn w) (w_txn w') ∧
    compat_access_tokens (w_txn w') = compat_access_tokens (w_txn w) ∧
    compat_refresh_tokens (w_txn w') = compat_refresh_tokens (w_txn w).
Proof.
  intros Hint H. assert (same_committed w w') as Hcom by (eapply keeps_run; [|exact H]; keeps_tac).
  split; [done|]. unfold Login.user_password_login in H.
  apply bind_Ok_inv in H as (uo & w1 & H1 & H).
  apply bind_Ok_inv in H as (x & ? & [Hfil ->]%compat_require_inv & H).
  apply bind_Ok_inv in H as (u0 & ? & [Hlock%bool_decide_eq_true ->]%compat_guard_inv & H).
  apply bind_Ok_inv in H as (u1 & w2 & H2 & H).
  apply bind_Ok_inv in H as (device & w3 & H3 & H).
  apply bind_Ok_inv in H as (s' & w4 & H4 & [= <- <- <-]).
  apply mmap_err_Ok_inv, find_by_username_inv in H1 as [(T1 & _) Hu].
  destruct uo as [y|]; [|done]. simpl in Hfil. case_bool_decide as Hdeact; [|done].
  injection Hfil as ->. destruct (Hu x eq_refl) as (uid & u & Hrow & -> & Hname). clear Hu.
  apply check_user_password_Ok in H2 as (_ & Hpw & Hpass). rewrite T1 in Hpw, Hpass.
  apply admit_device_Ok in H3 as (En & _ & Hfree & Hreq).
  pose proof (users_pkey _ Hint _ _ Hrow) as Huid. simpl in *.
  unfold passwords_only in Hpw. pose proof (en_rest _ _ En) as Er.
  apply mmap_err_Ok_inv in H4.
  eapply (opened_add (w_txn w2) (w_txn w3) (UserRepository.of_row u) u) in H4
    as (sid & Hop & Hsid & Hdev & _ & _ & Ht4);
    [|rewrite Hpw; simpl; by rewrite Huid|done..].
  rewrite Huid in *. exists uid, u, device, sid. simpl in Hop. rewrite Huid in Hop.
  split_and!; try done.
  - eapply opened_before; [exact Hop|by rewrite Hpw..].
  - rewrite Ht4. simpl. rewrite Er. simpl. by rewrite Hpw.
  - transitivity (untouched (w_txn w3)); [by rewrite Ht4|].
    transitivity (untouched (w_txn w2)); [by rewrite Er | by rewrite Hpw].
  - rewrite Ht4. simpl. rewrite Er. simpl. by rewrite Hpw.
  - rewrite Ht4. simpl. rewrite Er. simpl. by rewrite Hpw.
Qed.

(** ** The whole login *)

(** What the credentials were: the password of the user, or an SSO login,
    which is exchanged. *)
Definition credentials_hold (pm : PasswordManager) (w w' : World R) (d d' : Db)
    (credentials : Login.Credentials) (uid sid : Ulid) (u : UserLookup.t) : Prop :=
  match credentials with
  | Login.CredentialsPassword identifier user password =>
      is_enabled pm = true ∧ compat_sso_logins d' = compat_sso_logins d ∧
      password_of pm d uid password ∧
      ∃ name, (user = Some name ∨ user = None ∧ identifier = Some (Login.IdentifierUser name)) ∧
        pg_lower (UserLookup.username u) = pg_lower (default name (localpart name))
  | Login.CredentialsToken token =>
      ∃ lid l t1 t2, reading w w' t1 ∧ reading w w' t2 ∧ login_of d t1 uid token lid l ∧
        compat_sso_logins d' =
          <[lid := CompatSsoLoginRepository.with_exchanged t2 sid l]> (compat_sso_logins d)
  | Login.CredentialsUnsupported => False
  end.

(** The session the credentials gave. *)
Definition session_given (pm : PasswordManager) (input : Login.RequestBody) (s : CompatSession.t)
    (user : User.t) (w w' : World R) : Prop :=
  ∃ uid u device sid,
    opened (w_txn w) (w_txn w') uid u device sid ∧
    user = UserRepository.of_row u ∧ CompatSession.id s = sid ∧
    CompatSession.device s = Some device ∧
    (∀ id, Login.device_id input = Some id → device = Device.mkDevice id) ∧
    credentials_hold pm w w' (w_txn w) (w_txn w') (Login.credentials input) uid sid u ∧
    around_login (w_txn w) (w_txn w') ∧
    compat_access_tokens (w_txn w') = compat_access_tokens (w_txn w) ∧
    compat_refresh_tokens (w_txn w') = compat_refresh_tokens (w_txn w).

Lemma token_session_given pm ip cfg ua input token w s user w' :
  integrity (w_txn w) → Login.credentials input = Login.CredentialsToken token →
  Login.token_login ip ua (session_limit cfg) token (Login.device_id input)
    (Login.initial_device_display_name input) w = (Ok (s, user), w') →
  same_committed w w' ∧ session_given pm input s user w w'.
Proof.
  intros Hint Hcr Ht. apply token_login_Ok in Ht
    as (Hc & uid & u & device & sid & lid & l & t1 & t2 & Hop & Hu & Hs & Hd & Hreq & Hl &
        R1 & R2 & Hsso & Ha & H1 & H2); [|done].
  split; [exact Hc|]. exists uid, u, device, sid. rewrite Hcr.
  split_and!; try eassumption. exists lid, l, t1, t2. eauto.
Qed.

Lemma login_session_Ok pm ip cfg ua input w s user w' :
  integrity (w_txn w) →
  Login.login_session pm ip cfg ua input w = (Ok (s, user), w') →
  same_committed w w' ∧ session_given pm input s user w w'.
Proof.
  intros Hint H. unfold Login.login_session in H.
  destruct (is_enabled pm) eqn:Hen, (Login.credentials input) as [idf us pw|token|] eqn:Hcr;
    try done; [|by eapply token_session_given..].
  apply bind_Ok_inv in H as (name & w1 & Hname & H).
  assert (w1 = w ∧ (us = Some name ∨ us = None ∧ idf = Some (Login.IdentifierUser name)))
    as [-> Hn].
  { unfold Login.login_name in Hname. destruct us as [us|].
    - destruct idf as [[]|]; injection Hname as <- <-; auto.
    - destruct idf as [[]|]; try done. injection Hname as <- <-. auto. }
  apply password_login_Ok in H as (Hc & uid & u & device & sid & Hop & Hu & Hs & Hd & Hreq & Hlow &
    Hpw & Hsso & Ha & H1 & H2); [|done].
  split; [done|]. exists uid, u, device, sid. rewrite Hcr. split_and!; try done.
  split_and!; try done. eauto.
Qed.

Lemma issue_tokens_Ok cfg s refreshable w a r w' :
  Login.issue_tokens cfg s refreshable w = (Ok (a, r), w') →
  same_committed w w' ∧ ∃ aid t, reading w w' t ∧
    compat_access_tokens (w_txn w) !! aid = None ∧
    let expires := if refreshable then Some (t + compat_token_ttl cfg) else None in
    let ma := <[aid := CompatAccessTokenLookup.mk aid (CompatAccessToken.token a) t expires
                         (CompatSession.id s)]> (compat_access_tokens (w_txn w)) in
    if refreshable
    then ∃ rid txt tr, r = Some txt ∧ compat_refresh_tokens (w_txn w) !! rid = None ∧
      w_txn w' = set_rows (<[rid := CompatRefreshTokenLookup.mk rid txt tr None aid
                   (CompatSession.id s)]> (compat_refresh_tokens (w_txn w)))
                   (set_rows ma (w_txn w))
    else r = None ∧ w_txn w' = set_rows ma (w_txn w).
Proof.
  intros H. assert (same_committed w w') as Hcom by (eapply keeps_run; [|exact H]; keeps_tac).
  split; [done|]. unfold Login.issue_tokens in H.
  apply bind_Ok_inv in H as (txt & w1 & H1 & H).
  apply bind_Ok_inv in H as (a' & w2 & H2 & H).
  apply bind_Ok_inv in H as (r' & w3 & H3 & [= <- <- <-]).
  time_passed.
  apply with_rng_same in H1 as (T1 & _).
  apply mmap_err_Ok_inv, compat_access_add_inv in H2 as (aid & t & Ra & Fa & _ & -> & T2 & _).
  rewrite T1 in *. exists aid, t. split; [reading_solve|]. split; [done|]. simpl.
  destruct refreshable.
  - apply bind_Ok_inv in H3 as (rtxt & w4 & (T4 & _)%with_rng_same & H3).
    apply bind_Ok_inv in H3 as (x & w5 & H5 & [= <- <-]).
    apply mmap_err_Ok_inv, compat_refresh_add_inv in H5 as (rid & tr & _ & Fr & _ & -> & T5 & _).
    rewrite T4, T2 in *. simpl in *. exists rid, rtxt, tr. done.
  - injection H3 as <- <-. done.
Qed.

(** What a login commits, between the worlds [w] and [w']. *)
Record login_effect (pm : PasswordManager) (cfg : SiteConfig) (input : Login.RequestBody)
    (resp : Login.ResponseBody) (w w' : World R) (uid : Ulid) (u : UserLookup.t)
    (device : Device.Device) (sid aid : Ulid) : Prop := {
  lg_opened : opened (w_committed w) (w_committed w') uid u device sid;
  lg_credentials : credentials_hold pm w w' (w_committed w) (w_committed w')
    (Login.credentials input) uid sid u;
  lg_access_fresh : compat_access_tokens (w_committed w) !! aid = None;
  lg_access : ∃ t, reading w w' t ∧ compat_access_tokens (w_committed w') =
    <[aid := CompatAccessTokenLookup.mk aid (Login.r_access_token resp) t
        ((λ ttl, t + ttl) <$> Login.r_expires_in_ms resp) sid]>
      (compat_access_tokens (w_committed w));
  lg_refresh : match Login.r_refresh_token resp with
    | Some txt => ∃ rid t, compat_refresh_tokens (w_committed w) !! rid = None ∧
        compat_refresh_tokens (w_committed w') =
        <[rid := CompatRefreshTokenLookup.mk rid txt t None aid sid]>
          (compat_refresh_tokens (w_committed w))
    | None => compat_refresh_tokens (w_committed w') = compat_refresh_tokens (w_committed w)
    end;
  lg_refreshable : is_Some (Login.r_refresh_token resp) ↔ Login.refresh_token input = true;
  lg_expires : Login.r_expires_in_ms resp =
    if Login.refresh_token input then Some (compat_token_ttl cfg) else None;
  lg_response : Login.r_device_id resp = Some device ∧
    Login.r_user_id resp = mxid (UserLookup.username u) ∧
    ∀ id, Login.device_id input = Some id → device = Device.mkDevice id;
  lg_around : around_login (w_committed w) (w_committed w');
}.

Lemma credentials_mono pm w0 w w' w1 d d' d1 cr uid sid u :
  later w0 w → later w' w1 → compat_sso_logins d1 = compat_sso_logins d' →
  credentials_hold pm w w' d d' cr uid sid u → credentials_hold pm w0 w1 d d1 cr uid sid u.
Proof.
  intros L0 L1 Hs. destruct cr as [idf us pw|token|]; simpl; rewrite ?Hs; [done| |done].
  intros (lid & l & t1 & t2 & R1 & R2 & ?). exists lid, l, t1, t2.
  split; [by eapply (reading_mono w0 w w' w1)|]. by split; [eapply (reading_mono w0 w w' w1)|].
Qed.

(** The user agent is written to the row of the new session. *)
Lemma opened_user_agent d uid u device ua s w s' w' :
  opened d (w_txn w) uid u device (CompatSession.id s) →
  match ua with
  | Some ua => Login.repo (CompatSessionRepository.record_user_agent s ua)
  | None => ret s
  end w = (Ok s', w') →
  opened d (w_txn w') uid u device (CompatSession.id s) ∧ CompatSession.id s' = CompatSession.id s ∧
  CompatSession.device s' = CompatSession.device s ∧
  w_txn w' = set_rows (compat_sessions (w_txn w')) (w_txn w).
Proof.
  intros Hop H. destruct ua as [ua|].
  2: { injection H as <- <-. split_and!; try done. by destruct (w_txn w). }
  apply mmap_err_Ok_inv, compat_session_user_agent_inv in H as (r & Hr & -> & T & _).
  split_and!; try done; [|by rewrite T].
  destruct Hop as [Hu Hf (s0 & Hs0 & ?) Hdev Hdo Hot Hoo]. split; rewrite ?T; simpl; try done.
  - rewrite lookup_insert_eq. rewrite Hr in Hs0. simplify_eq. naive_solver.
  - intros k x [[<- _]|[_ Hx]]%lookup_insert_Some; [done|]. eauto.
  - intros k Hk. rewrite lookup_insert_ne by done. eauto.
Qed.

Lemma provision_Ok s user w x w' :
  Login.provision s user w = (Ok x, w') → w_committed w' = w_committed w ∧ later w w'.
Proof.
  unfold Login.provision. destruct (CompatSession.device s) as [dv|]; [|done].
  unfold homeserver_call. destruct (w_homeserver_faults w) as [|[] ?]; try (by intros [= <- <-]).
  unfold Login.undo_session. intros H. exfalso.
  apply bind_Ok_inv in H as (? & ? & _ & H). apply bind_Ok_inv in H as (? & ? & _ & H).
  apply bind_Ok_inv in H as (? & ? & _ & H). by apply bind_Ok_inv in H as (? & ? & _ & H).
Qed.

Lemma later_on_rng {E A} (m : M R E A) : keeps later (Login.on_rng (R := R) m).
Proof. intros w. unfold Login.on_rng. by destruct (m (w_rng w)). Qed.
Hint Resolve later_on_rng : keeps.

(** The response to a login. *)
Definition response_of (cfg : SiteConfig) (input : Login.RequestBody) (s : CompatSession.t)
    (user : User.t) (a : CompatAccessToken.t) (r : option string) : Login.ResponseBody :=
  Login.mkResponseBody (CompatAccessToken.token a) (CompatSession.device s)
    (mxid (User.username user)) r
    (if Login.refresh_token input then Some (compat_token_ttl cfg) else None).

Lemma open_session_Ok pm ip cfg ua input w s user a r w' :
  integrity (w_committed w) → Login.open_session pm ip cfg ua input w = (Ok (s, user, a, r), w') →
  ∃ uid u device sid aid,
    login_effect pm cfg input (response_of cfg input s user a r) w w' uid u device sid aid.
Proof.
  intros Hint H. unfold Login.open_session in H.
  apply bind_Ok_inv in H as (u2 & w1 & H1 & H).
  apply bind_Ok_inv in H as ([s0 user0] & w2 & H2 & H).
  apply bind_Ok_inv in H as (s1 & w3 & H3 & H).
  apply bind_Ok_inv in H as ([a1 r1] & w4 & H4 & H).
  apply bind_Ok_inv in H as (u3 & w5 & H5 & [= <- <- <- <- <-]).
  time_passed.
  apply mmap_err_Ok_inv, from_pool_inv in H1 as [T1 _].
  apply login_session_Ok in H2
    as (_ & uid & u & device & sid & Hop & -> & Hsid & Hdev & Hreq & Hcr & Har & Ha & Hr);
    [|by rewrite T1]. rewrite T1 in *. subst sid.
  eapply opened_user_agent in H3 as (Hop3 & Hid3 & Hdev3 & T3); [|exact Hop].
  apply issue_tokens_Ok in H4 as (_ & aid & t & Rt & Fa & H4). rewrite Hid3 in H4.
  apply mmap_err_Ok_inv, save_inv in H5 as [Hcom _].
  assert (compat_access_tokens (w_txn w3) = compat_access_tokens (w_committed w)) as Ha3
    by (rewrite T3; simpl; congruence).
  assert (compat_refresh_tokens (w_txn w3) = compat_refresh_tokens (w_committed w)) as Hr3
    by (rewrite T3; simpl; congruence).
  rewrite Ha3, Hr3 in *.
  exists uid, u, device, (CompatSession.id s0), aid. cbv zeta in H4.
  assert (compat_sso_logins (w_txn w3) = compat_sso_logins (w_txn w2)) as Hsso by (by rewrite T3).
  assert (compat_sessions (w_txn w4) = compat_sessions (w_txn w3) ∧
    oauth2_sessions (w_txn w4) = oauth2_sessions (w_txn w3) ∧
    compat_sso_logins (w_txn w4) = compat_sso_logins (w_txn w3) ∧
    compat_access_tokens (w_txn w4) = <[aid := CompatAccessTokenLookup.mk aid
      (CompatAccessToken.token a1) t (if Login.refresh_token input
        then Some (t + compat_token_ttl cfg) else None) (CompatSession.id s0)]>
      (compat_access_tokens (w_committed w))) as (Hs4 & Ho4 & Hl4 & Ha4).
  { destruct (Login.refresh_token input); destruct_ex; subst;
      match goal with H : w_txn w4 = _ |- _ => by rewrite H end. }
  split; rewrite ?Hcom; simpl.
  - eapply opened_tables; [exact Hop3|done|done].
  - eapply (credentials_mono _ _ w1 w2); [..|exact Hcr]; [done| |congruence].
    repeat match goal with H : later _ _ |- _ => destruct H end. split; [lia | congruence].
  - done.
  - exists t. split; [reading_solve|]. rewrite Ha4. by destruct (Login.refresh_token input).
  - destruct (Login.refresh_token input); destruct_ex; subst; simpl.
    + eexists _, _. split; [done|]. match goal with H : w_txn w4 = _ |- _ => by rewrite H end.
    + match goal with H : w_txn w4 = _ |- _ => by rewrite H end.
  - destruct (Login.refresh_token input); destruct_ex; subst; simpl;
      [split; eauto | split; [by intros []|done]].
  - done.
  - split_and!; [congruence|done|done].
  - transitivity (untouched (w_txn w3)).
    + destruct (Login.refresh_token input); destruct_ex; subst;
        match goal with H : w_txn w4 = _ |- _ => by rewrite H end.
    + transitivity (untouched (w_txn w2)); [by rewrite T3 | done].
Qed.

Lemma login_effect_later pm cfg input resp w w1 w' uid u device sid aid :
  w_committed w' = w_committed w1 → later w w → later w1 w' →
  login_effect pm cfg input resp w w1 uid u device sid aid →
  login_effect pm cfg input resp w w' uid u device sid aid.
Proof.
  intros Hc L0 L1 []. split; rewrite ?Hc; try done.
  - by eapply (credentials_mono pm w w w1 w').
  - destruct lg_access0 as (t & Ht & ?). exists t. split; [|done].
    by eapply (reading_mono w w w1 w').
Qed.

Lemma login_Ok pm ip cfg ua input w resp w' :
  integrity (w_committed w) → Login.post pm ip cfg ua input w = (Ok resp, w') →
  ∃ uid u device sid aid, login_effect pm cfg input resp w w' uid u device sid aid.
Proof.
  intros Hint H. unfold Login.post in H.
  apply bind_Ok_inv in H as ([[[s user] a] r] & w1 & Hopen & H).
  apply bind_Ok_inv in H as (u0 & w2 & Hrec & H).
  apply bind_Ok_inv in H as (u1 & w3 & Hprov & [= <- <-]).
  apply provision_Ok in Hprov as [Cp Lp]. time_passed.
  apply record_compat_inv in Hrec as (_ & Cr & _).
  apply open_session_Ok in Hopen as (uid & u & device & sid & aid & He); [|done].
  exists uid, u, device, sid, aid. eapply login_effect_later; [| |  |exact He];
    [congruence | done | by transitivity w2].
Qed.
End Login.
