(* ===== verification/IntrospectionFacts.v ===== *)
(** * Correctness of the introspection

    Which tokens are active, said of the database alone, and that the
    introspection endpoint (crates/handlers/src/oauth2/introspection.rs)
    answers with that. *)

From stdpp Require Import base tactics list strings gmap.
From Stdlib Require Import ZArith Lia Ascii.
From S2P Require Import Prelude Text Scope Formats Externals TokenFormat DataModel CompatModel Storage TokenRepo GrantRepo QueueRepo UserRepo CompatRepo PersonalRepo ClientAuth TokenEndpoint Introspection RepoFacts CompatRepoFacts Integrity Scenario TokenFacts CodeExchange RefreshRotation GraphqlFacts CompatRefreshFacts CompatLoginFacts.
#[local] Open Scope Z_scope.

(** ** Active tokens *)

(** A user who may act: neither locked nor deactivated. *)
Definition user_active (d : Db) (uid : Ulid) : Prop :=
  ∃ u, users d !! uid = Some u ∧ UserLookup.locked_at u = None ∧
    UserLookup.deactivated_at u = None.

(** A user whom a personal token may act as (docs/topics/authorization.md,
    "Validity", and [User::is_valid_actor]): deactivation rules it out, a lock
    does not. *)
Definition actor_active (d : Db) (uid : Ulid) : Prop :=
  ∃ u, users d !! uid = Some u ∧ UserLookup.deactivated_at u = None.

(** The tokens that are active at the instant [t] as the documentation has it, by
    the type of the token: the token is neither spent nor expired, its session is
    not over, and the users the session is of may act.  A personal token is
    stored hashed. *)
Inductive token_active `{!Sha2} (d : Db) (t : DateTime) (txt : string) : TokenType → Prop :=
| active_access k a s :
    oauth2_access_tokens d !! k = Some a → OAuth2AccessTokenLookup.access_token a = txt →
    unrevoked a → (∀ e, OAuth2AccessTokenLookup.expires_at a = Some e → t ≤ e) →
    oauth2_sessions d !! OAuth2AccessTokenLookup.oauth2_session_id a = Some s →
    OAuthSessionLookup.finished_at s = None →
    (∀ uid, OAuthSessionLookup.user_id s = Some uid → user_active d uid) →
    token_active d t txt AccessTokenType
| active_refresh k r s :
    oauth2_refresh_tokens d !! k = Some r → OAuth2RefreshTokenLookup.refresh_token r = txt →
    live r → oauth2_sessions d !! OAuth2RefreshTokenLookup.oauth2_session_id r = Some s →
    OAuthSessionLookup.finished_at s = None →
    (∀ uid, OAuthSessionLookup.user_id s = Some uid → user_active d uid) →
    token_active d t txt RefreshTokenType
| active_compat_access k a s :
    compat_access_tokens d !! k = Some a → CompatAccessTokenLookup.access_token a = txt →
    (∀ e, CompatAccessTokenLookup.expires_at a = Some e → t < e) →
    compat_sessions d !! CompatAccessTokenLookup.compat_session_id a = Some s →
    CompatSessionLookup.finished_at s = None → user_active d (CompatSessionLookup.user_id s) →
    token_active d t txt CompatAccessTokenType
| active_compat_refresh k r s :
    compat_refresh_tokens d !! k = Some r → CompatRefreshTokenLookup.refresh_token r = txt →
    compat_live r → compat_sessions d !! CompatRefreshTokenLookup.compat_session_id r = Some s →
    CompatSessionLookup.finished_at s = None → user_active d (CompatSessionLookup.user_id s) →
    token_active d t txt CompatRefreshTokenType
| active_personal k a s :
    personal_access_tokens d !! k = Some a →
    PersonalAccessTokenLookup.access_token_sha256 a = sha256 txt →
    PersonalAccessTokenLookup.revoked_at a = None →
    (∀ e, PersonalAccessTokenLookup.expires_at a = Some e → t < e) →
    personal_sessions d !! PersonalAccessTokenLookup.personal_session_id a = Some s →
    PersonalSessionLookup.revoked_at s = None →
    actor_active d (PersonalSessionLookup.actor_user_id s) →
    (∀ uid, PersonalSessionLookup.owner_user_id s = Some uid → user_active d uid) →
    token_active d t txt PersonalAccessTokenType.

(** A personal token that acts as a user who is locked: the one kind of token
    that the endpoint tells apart from the documentation. *)
Inductive locked_actor `{!Sha2} (d : Db) (txt : string) : TokenType → Prop :=
| locked_personal k a s u :
    personal_access_tokens d !! k = Some a →
    PersonalAccessTokenLookup.access_token_sha256 a = sha256 txt →
    personal_sessions d !! PersonalAccessTokenLookup.personal_session_id a = Some s →
    users d !! PersonalSessionLookup.actor_user_id s = Some u →
    UserLookup.locked_at u ≠ None →
    locked_actor d txt PersonalAccessTokenType.

(** The errors the endpoint answers as a token that is not active. *)
Definition reads_inactive (e : Introspection.RouteError) : bool :=
  match e with
  | Introspection.UnknownToken _ | Introspection.UnexpectedTokenType
  | Introspection.InvalidToken _ | Introspection.InvalidUser _
  | Introspection.InvalidCompatSession _ | Introspection.InvalidOAuthSession _
  | Introspection.InvalidPersonalSession _ | Introspection.InvalidTokenFormat _
  | Introspection.CantEncodeDeviceID _ => true
  | _ => false
  end.

Lemma reads_inactive_response {ulid_text : UlidText} text e :
  reads_inactive e = true ↔ Introspection.into_response text e = inr Introspection.INACTIVE.
Proof. by destruct e. Qed.

(** The answer of a run agrees with the database [d] at the instant [t]. *)
Definition agrees `{!Sha2} (d : Db) (t : DateTime) (txt : string) (ty : TokenType)
    (r : result Introspection.RouteError Introspection.IntrospectionResponse) : Prop :=
  match r with
  | Ok reply =>
      Introspection.active reply = true ∧ token_active d t txt ty ∧ ¬ locked_actor d txt ty
  | Err (Introspection.CantEncodeDeviceID _) => True
  | Err e => reads_inactive e = true → token_active d t txt ty → locked_actor d txt ty
  end.

(** ** Steps of the handler *)

Lemma bind_assoc {W E A B C} (m : M W E A) (f : A → M W E B) (k : B → M W E C) w :
  bind (bind m f) k w = bind m (λ a, bind (f a) k) w.
Proof. unfold bind. by destruct (m w) as [[a|e] w1]. Qed.

Section Steps.
Context {R : Type}.
Implicit Types w : World R.

(** The clock was not read, and nothing was written. *)
Definition still w w' : Prop :=
  w_ticks w' = w_ticks w ∧ w_clock w' = w_clock w ∧ w_txn w' = w_txn w.

#[export] Instance still_preorder : PreOrder still.
Proof. split; [done|]. intros ??? (? & ? & ?) (? & ? & ?). split_and!; congruence. Qed.

Lemma still_query : keeps still (@query R).
Proof. intros w. unfold query. by destruct (w_driver_faults w) as [|[] ?]. Qed.
Lemma still_select {A} (f : Db → A) : keeps still (@select R A f).
Proof. apply keeps_bind; [apply _ | apply still_query | done]. Qed.
Lemma from_pool_still w u w' :
  from_pool w = (Ok u, w') →
  w_ticks w' = w_ticks w ∧ w_clock w' = w_clock w ∧ w_txn w' = w_committed w.
Proof.
  intros H. pose proof (from_pool_inv _ _ _ H) as [Ht _].
  apply bind_Ok_inv in H as (x & w1 & Hq & [= <- <-]).
  by apply (keeps_run still _ _ _ _ still_query) in Hq as (? & ? & _).
Qed.
Lemma still_decode_row {Row A} (decode : Row → result DatabaseInconsistencyError A) o :
  keeps still (decode_row (W := World R) decode o).
Proof. unfold decode_row. destruct o; keeps_tac. Qed.

Context {A B : Type}.
Abbreviation Handler := (M (World R) Introspection.RouteError) (only parsing).

Lemma repo_step (m : M (World R) DatabaseError A) (k : A → Handler B) w r w' :
  bind (Introspection.repo m) k w = (r, w') →
  (∃ e, r = Err (Introspection.Internal e)) ∨ ∃ a w1, m w = (Ok a, w1) ∧ k a w1 = (r, w').
Proof.
  unfold bind, Introspection.repo, mmap_err. destruct (m w) as [[a|e] w1].
  - intros H. right. eauto.
  - intros [= <- <-]. left. eauto.
Qed.

Lemma require_step (o : option A) e (k : A → Handler B) w r w' :
  bind (Introspection.require o e) k w = (r, w') →
  (o = None ∧ r = Err e) ∨ ∃ a, o = Some a ∧ k a w = (r, w').
Proof.
  unfold bind, Introspection.require, lift. destruct o as [a|]; simpl.
  - intros H. right. eauto.
  - intros [= <- <-]. by left.
Qed.

Lemma guard_step c e (k : unit → Handler B) w r w' :
  bind (Introspection.guard c e) k w = (r, w') →
  (c = false ∧ r = Err e) ∨ (c = true ∧ k tt w = (r, w')).
Proof.
  unfold bind, Introspection.guard. destruct c; simpl; [by right|].
  intros [= <- <-]. by left.
Qed.

Lemma now_step (k : DateTime → Handler B) w r w' :
  bind now k w = (r, w') → k (w_clock w (w_ticks w)) (tick w) = (r, w').
Proof. done. Qed.
End Steps.

#[export] Hint Resolve still_query still_select still_decode_row : keeps.

(** One step of a run: either it ended there, or it goes on. *)
Ltac walk H :=
  lazymatch type of H with
  | bind (Introspection.repo _) _ _ = _ =>
      apply repo_step in H as [[? ->]|(? & ? & ? & H)]; [by intros|]
  | bind (Introspection.require _ _) _ _ = _ =>
      apply require_step in H as [[? ->]|(? & ? & H)]
  | bind (Introspection.guard _ _) _ _ = _ =>
      apply guard_step in H as [[? ->]|[? H]]
  end.

Section Introspect.
Context {R : Type} `{!RngCore R} {crc : Crc} {base64 : Base64} {sha2 : Sha2}
  {ulid_text : UlidText} {url_lib : UrlLib} {jwks_json : JwksJson}
  {client_crypto : ClientCrypto} {hs : Homeserver}.
Implicit Types w : World R.

Lemma user_active_valid d uid u :
  users d !! uid = Some u → User.is_valid (UserRepository.of_row u) = true → user_active d uid.
Proof. intros Hu [? ?]%valid_user_row. by exists u. Qed.

Lemma user_inactive d uid u :
  users d !! uid = Some u → User.is_valid (UserRepository.of_row u) = false →
  ¬ user_active d uid.
Proof.
  unfold User.is_valid. simpl. intros Hu Hv (u' & Hu' & Hl & Hd). simplify_eq.
  by rewrite Hl, Hd in Hv.
Qed.

(** The user is looked up, then the handler goes on. *)
Lemma valid_user_step {B} uid (k : User.t → M (World R) Introspection.RouteError B) w r w' :
  bind (Introspection.valid_user uid) k w = (r, w') →
  (∃ e, r = Err e ∧ (reads_inactive e = true → ¬ user_active (w_txn w) uid) ∧
     ∀ x, e ≠ Introspection.CantEncodeDeviceID x) ∨
  ∃ u w1, user_active (w_txn w) uid ∧ same_db w w1 ∧ k u w1 = (r, w').
Proof.
  unfold bind at 1. intros H.
  destruct (Introspection.valid_user uid w) as [v w1] eqn:Hv. unfold Introspection.valid_user in Hv.
  apply repo_step in Hv as [[e ->]|(o & w2 & Hl & Hv)].
  { injection H as <- <-. left. eexists. by split_and!. }
  apply user_lookup_inv in Hl as [D ->].
  apply require_step in Hv as [[Hn ->]|(x & Hx & Hv)].
  { injection H as <- <-. left. eexists. by split_and!. }
  apply fmap_Some in Hx as (row & Hrow & ->).
  apply guard_step in Hv as [[Hn ->]|[Ht Hv]].
  - injection H as <- <-. left. eexists. split_and!; [done| |done]. intros _.
    by eapply user_inactive.
  - injection Hv as <- <-. right. exists (UserRepository.of_row row), w2.
    split_and!; [by eapply user_active_valid | done | done].
Qed.

(** The rest of a handler, once the token is known to be active. *)
Definition answers (r : result Introspection.RouteError
    Introspection.IntrospectionResponse) : Prop :=
  match r with
  | Ok reply => Introspection.active reply = true
  | Err e => reads_inactive e = false ∨ ∃ x, e = Introspection.CantEncodeDeviceID x
  end.

Lemma agrees_answers d t txt ty r :
  token_active d t txt ty → ¬ locked_actor d txt ty → answers r → agrees d t txt ty r.
Proof.
  unfold answers, agrees. destruct r as [reply|e]; [done|]. intros _ _ [H|[x ->]]; [|done].
  destruct e; by rewrite ?H.
Qed.

Lemma agrees_refused d t txt ty e :
  (reads_inactive e = true → ¬ token_active d t txt ty) → agrees d t txt ty (Err e).
Proof. intros H. unfold agrees. destruct e; intros; first [done | by destruct H]. Qed.

(** What is left once the users are checked: nothing that answers as for a
    token that is not active, except a device that has no scope. *)
Lemma answers_step {A} (m : M (World R) Introspection.RouteError A) k w r w' :
  (∀ e w1, m w = (Err e, w1) → reads_inactive e = false ∨ ∃ x, e = Introspection.CantEncodeDeviceID x) →
  (∀ a w1, k a w1 = (r, w') → answers r) → bind m k w = (r, w') → answers r.
Proof.
  intros Hm Hk. unfold bind. destruct (m w) as [[a|e] w1]; [by apply Hk|].
  intros [= <- <-]. by eapply Hm.
Qed.

Lemma subject_step {B} s (k : _ → M (World R) Introspection.RouteError B) w r w' :
  bind (Introspection.subject_of s) k w = (r, w') →
  (∃ e, r = Err e ∧ (reads_inactive e = true →
     ∃ uid, Session.user_id s = Some uid ∧ ¬ user_active (w_txn w) uid)) ∨
  ∃ x w1, (∀ uid, Session.user_id s = Some uid → user_active (w_txn w) uid) ∧ k x w1 = (r, w').
Proof.
  unfold Introspection.subject_of. destruct (Session.user_id s) as [uid|].
  - intros H. rewrite bind_assoc in H.
    apply valid_user_step in H as [(e & -> & He & _)|(u & w1 & Hu & _ & H)].
    + left. exists e. split; [done|]. intros Hr. exists uid. auto.
    + right. eexists _, w1. split; [by intros ? [= <-]|exact H].
  - intros H. right. eexists _, w. split; [done|exact H].
Qed.

(** Computations that never answer as for a token that is not active. *)
Lemma loud_repo {A} (m : M (World R) DatabaseError A) w e w' :
  Introspection.repo m w = (Err e, w') →
  reads_inactive e = false ∨ ∃ x, e = Introspection.CantEncodeDeviceID x.
Proof. intros (e' & _ & ->)%mmap_err_Err_inv. by left. Qed.

Lemma loud_normalized s w e w' :
  Introspection.normalized (R := R) s w = (Err e, w') →
  reads_inactive e = false ∨ ∃ x, e = Introspection.CantEncodeDeviceID x.
Proof.
  unfold Introspection.normalized, Introspection.require, lift.
  destruct (normalize_scope s); [done|]. intros [= <- <-]. by left.
Qed.

Lemma loud_compat_scope b s w e w' :
  Introspection.compat_scope (R := R) b s w = (Err e, w') →
  reads_inactive e = false ∨ ∃ x, e = Introspection.CantEncodeDeviceID x.
Proof.
  unfold Introspection.compat_scope. intros [H|(? & ? & _ & H)]%bind_Err_inv; [|done].
  destruct b, (CompatSession.device s) as [dv|]; try done.
  unfold bind, lift in H. destruct (Device.to_scope_token dv) as [[]|]; [done|].
  injection H as <- <-. right. eauto.
Qed.

Lemma loud_expires e w x w' :
  Introspection.expires_in_of (R := R) e w = (Err x, w') → False.
Proof. unfold Introspection.expires_in_of. by destruct e. Qed.
End Introspect.

(** Goes through what is left of a handler. *)
Ltac finish_answers H :=
  revert H;
  repeat (first
    [ apply answers_step; [first
        [ apply loud_repo | apply loud_normalized | apply loud_compat_scope
        | by intros ?? ?%loud_expires | done | intros ?? ?; by simplify_eq ] | intros ? ?]
    | intros [= <- <-]; done ]).

(** The answer is that of a token that is not active, and it is not. *)
Ltac refuse :=
  apply agrees_refused;
  let Ha := fresh "Ha" in let Hr := fresh "Hr" in intros Hr Ha;
  match goal with Hiff : token_active _ _ _ _ ↔ _ |- _ => apply Hiff in Ha end;
  destruct_and?; destruct_ex; simplify_eq; eauto; first [congruence | naive_solver].

Section Verdicts.
Context {R : Type} `{!RngCore R} {crc : Crc} {base64 : Base64} {sha2 : Sha2}
  {ulid_text : UlidText} {url_lib : UrlLib} {jwks_json : JwksJson}
  {client_crypto : ClientCrypto} {hs : Homeserver}.
Implicit Types w : World R.

(** Of the tokens with the text presented only the one found counts. *)
Lemma same_text {Row V} (col : Row → V) (m : gmap Z Row) k1 r1 k2 r2 :
  uniq (λ r, Some (col r)) m → m !! k1 = Some r1 → m !! k2 = Some r2 → col r1 = col r2 →
  k1 = k2 ∧ r1 = r2.
Proof.
  intros Hu H1 H2 Hc. assert (k1 = k2) as -> by (eapply Hu; [done..|simpl; congruence]).
  split; congruence.
Qed.

Lemma compat_access_active_iff d t txt k a :
  integrity d → compat_access_tokens d !! k = Some a →
  CompatAccessTokenLookup.access_token a = txt →
  token_active d t txt CompatAccessTokenType ↔
  CompatAccessToken.is_valid (CompatAccessTokenRepository.of_row a) t = true ∧
  ∃ s, compat_sessions d !! CompatAccessTokenLookup.compat_session_id a = Some s ∧
    CompatSession.is_valid (CompatSessionRepository.of_row s) = true ∧
    user_active d (CompatSessionLookup.user_id s).
Proof.
  intros Hint Hk Htxt. unfold CompatAccessToken.is_valid, CompatSession.is_valid. simpl. split.
  - intros Ha. inversion Ha as [| |k' a' s' Hk' Ht' Hexp Hs Hf Hu| |]; subst.
    destruct (same_text _ _ _ _ _ _ (compat_access_unique _ Hint) Hk' Hk Ht') as [-> ->]. split.
    + destruct (CompatAccessTokenLookup.expires_at a) as [e|]; [|done].
      apply Z.ltb_lt. by apply Hexp.
    + exists s'. rewrite Hf. auto.
  - intros (He & s & Hs & Hf & Hu). eapply active_compat_access; try done.
    + intros e Hexp. rewrite Hexp in He. by apply Z.ltb_lt.
    + by destruct (CompatSessionLookup.finished_at s).
Qed.

Lemma compat_access_agrees b txt w r w' :
  integrity (w_txn w) → Introspection.introspect_compat_access_token b txt w = (r, w') →
  agrees (w_txn w) (w_clock w (w_ticks w)) txt CompatAccessTokenType r.
Proof.
  intros Hint H. unfold Introspection.introspect_compat_access_token in H.
  apply repo_step in H as [[e ->]|(o & w1 & Hf & H)]; [by intros|].
  assert (still w w1) as (Tk & Ck & _) by (eapply keeps_run; [|exact Hf]; keeps_tac).
  apply compat_access_find_inv in Hf as [(T1 & _ & _) Ho].
  apply require_step in H as [[-> ->]|(x & -> & H)].
  { intros _ Ha. exfalso. inversion Ha; subst. by eapply Ho. }
  destruct Ho as (k & a & Hk & Htxt & ->).
  apply now_step in H. rewrite Tk, Ck in H.
  pose proof (compat_access_active_iff _ (w_clock w (w_ticks w)) _ _ _ Hint Hk Htxt) as Hiff.
  apply guard_step in H as [[Hv ->]|[Hv H]]; rewrite Hv in Hiff; [by refuse|].
  apply repo_step in H as [[e ->]|(so & w2 & Hs & H)]; [by intros|].
  apply compat_session_lookup_inv in Hs as [(T2 & _ & _) ->]. simpl in *.
  apply require_step in H as [[_ ->]|(s & Hs & H)]; [by intros|].
  apply fmap_Some in Hs as (row & Hrow & ->). rewrite T1 in *.
  apply guard_step in H as [[Hsv ->]|[Hsv H]]; [by refuse|].
  apply valid_user_step in H as [(e & -> & He & Hne)|(u & w3 & Hu & D3 & H)]; rewrite T2 in *.
  { refuse. }
  apply agrees_answers; [naive_solver|by inversion 1|]. finish_answers H.
Qed.

Lemma compat_refresh_active_iff d t txt k a :
  integrity d → compat_refresh_tokens d !! k = Some a →
  CompatRefreshTokenLookup.refresh_token a = txt →
  token_active d t txt CompatRefreshTokenType ↔
  CompatRefreshToken.is_valid (CompatRefreshTokenRepository.of_row a) = true ∧
  ∃ s, compat_sessions d !! CompatRefreshTokenLookup.compat_session_id a = Some s ∧
    CompatSession.is_valid (CompatSessionRepository.of_row s) = true ∧
    user_active d (CompatSessionLookup.user_id s).
Proof.
  intros Hint Hk Htxt. unfold CompatRefreshToken.is_valid, CompatSession.is_valid. simpl. split.
  - intros Ha. inversion Ha as [| | |k' a' s' Hk' Ht' Hl Hs Hf Hu|]; subst.
    destruct (same_text _ _ _ _ _ _ (compat_refresh_unique _ Hint) Hk' Hk Ht') as [-> ->].
    unfold compat_live in Hl. rewrite Hl. split; [done|]. exists s'. rewrite Hf. auto.
  - intros (He & s & Hs & Hf & Hu). eapply active_compat_refresh; try done.
    + unfold compat_live. by destruct (CompatRefreshTokenLookup.consumed_at a).
    + by destruct (CompatSessionLookup.finished_at s).
Qed.

Lemma compat_refresh_agrees b txt t w r w' :
  integrity (w_txn w) → Introspection.introspect_compat_refresh_token b txt w = (r, w') →
  agrees (w_txn w) t txt CompatRefreshTokenType r.
Proof.
  intros Hint H. unfold Introspection.introspect_compat_refresh_token in H.
  apply repo_step in H as [[e ->]|(o & w1 & Hf & H)]; [by intros|].
  apply compat_refresh_find_inv in Hf as [(T1 & _ & _) Ho].
  apply require_step in H as [[-> ->]|(x & -> & H)].
  { intros _ Ha. exfalso. inversion Ha; subst. by eapply Ho. }
  destruct Ho as (k & a & Hk & Htxt & ->).
  pose proof (compat_refresh_active_iff _ t _ _ _ Hint Hk Htxt) as Hiff.
  apply guard_step in H as [[Hv ->]|[Hv H]]; rewrite Hv in Hiff; [by refuse|].
  apply repo_step in H as [[e ->]|(so & w2 & Hs & H)]; [by intros|].
  apply compat_session_lookup_inv in Hs as [(T2 & _ & _) ->]. simpl in *.
  apply require_step in H as [[_ ->]|(s & Hs & H)]; [by intros|].
  apply fmap_Some in Hs as (row & Hrow & ->). rewrite T1 in *.
  apply guard_step in H as [[Hsv ->]|[Hsv H]]; [by refuse|].
  apply valid_user_step in H as [(e & -> & He & Hne)|(u & w3 & Hu & D3 & H)]; rewrite T2 in *.
  { refuse. }
  apply agrees_answers; [naive_solver|by inversion 1|]. finish_answers H.
Qed.

Lemma session_row r s :
  SessionRepository.try_from r = Ok s →
  Session.user_id s = OAuthSessionLookup.user_id r ∧
  (Session.is_valid s = true ↔ OAuthSessionLookup.finished_at r = None).
Proof.
  unfold SessionRepository.try_from. intros (l & _ & [= <-])%rbind_Ok_inv.
  unfold Session.is_valid. simpl. split; [done|].
  by destruct (OAuthSessionLookup.finished_at r).
Qed.

Lemma refresh_active_iff d t txt k a x :
  integrity d → oauth2_refresh_tokens d !! k = Some a →
  OAuth2RefreshTokenLookup.refresh_token a = txt → RefreshTokenRepository.try_from a = Ok x →
  token_active d t txt RefreshTokenType ↔
  RefreshToken.is_valid x = true ∧
  ∃ s, oauth2_sessions d !! OAuth2RefreshTokenLookup.oauth2_session_id a = Some s ∧
    OAuthSessionLookup.finished_at s = None ∧
    ∀ uid, OAuthSessionLookup.user_id s = Some uid → user_active d uid.
Proof.
  intros Hint Hk Htxt Hx. apply refresh_of_row in Hx as (_ & _ & _ & _ & Hv & _).
  rewrite Hv. split.
  - intros Ha. inversion Ha as [|k' a' s' Hk' Ht' Hl Hs Hf Hu| | |]; subst.
    destruct (same_text _ _ _ _ _ _ (refresh_tokens_unique _ Hint) Hk' Hk Ht') as [-> ->].
    eauto.
  - intros (He & s & Hs & Hf & Hu). by eapply active_refresh.
Qed.

Lemma refresh_agrees txt t w r w' :
  integrity (w_txn w) → Introspection.introspect_refresh_token txt w = (r, w') →
  agrees (w_txn w) t txt RefreshTokenType r.
Proof.
  intros Hint H. unfold Introspection.introspect_refresh_token in H.
  apply repo_step in H as [[e ->]|(o & w1 & Hf & H)]; [by intros|].
  apply refresh_find_inv in Hf as [(T1 & _ & _) Ho].
  apply require_step in H as [[-> ->]|(x & -> & H)].
  { intros _ Ha. exfalso. inversion Ha; subst. by eapply Ho. }
  destruct Ho as (k & a & Hk & Htxt & Hx).
  pose proof (refresh_active_iff _ t _ _ _ _ Hint Hk Htxt Hx) as Hiff.
  apply guard_step in H as [[Hv ->]|[Hv H]]; rewrite Hv in Hiff; [by refuse|].
  apply refresh_of_row in Hx as (_ & Hsid & _). rewrite Hsid in H.
  apply repo_step in H as [[e ->]|(so & w2 & Hs & H)]; [by intros|].
  apply session_lookup_inv in Hs as [(T2 & _ & _) Hs].
  apply require_step in H as [[_ ->]|(s & -> & H)]; [by intros|].
  destruct Hs as (row & Hrow & Hs). rewrite T1 in *.
  apply session_row in Hs as [Huid Hsr].
  apply guard_step in H as [[Hsv ->]|[Hsv H]]; rewrite Hsv in Hsr; [by refuse|].
  apply subject_step in H as [(e & -> & He)|([sub name] & w3 & Hu & H)]; rewrite T2, Huid in *.
  { refuse. }
  apply agrees_answers; [naive_solver|by inversion 1|]. finish_answers H.
Qed.

Lemma access_active_iff d t txt k a :
  integrity d → oauth2_access_tokens d !! k = Some a →
  OAuth2AccessTokenLookup.access_token a = txt →
  token_active d t txt AccessTokenType ↔
  AccessToken.is_valid (AccessTokenRepository.of_row a) t = true ∧
  ∃ s, oauth2_sessions d !! OAuth2AccessTokenLookup.oauth2_session_id a = Some s ∧
    OAuthSessionLookup.finished_at s = None ∧
    ∀ uid, OAuthSessionLookup.user_id s = Some uid → user_active d uid.
Proof.
  intros Hint Hk Htxt. unfold AccessToken.is_valid, AccessToken.is_expired, unrevoked.
  rewrite andb_true_iff, negb_true_iff. simpl. split.
  - intros Ha. inversion Ha as [k' a' s' Hk' Ht' Hr Hexp Hs Hf Hu| | | |]; subst.
    destruct (same_text _ _ _ _ _ _ (access_tokens_unique _ Hint) Hk' Hk Ht') as [-> ->].
    split; [split|eauto].
    + by rewrite Hr.
    + destruct (OAuth2AccessTokenLookup.expires_at a) as [e|]; [|done].
      apply Z.ltb_ge. by apply Hexp.
  - intros ([Hr He] & s & Hs & Hf & Hu). eapply active_access; try done.
    + unfold unrevoked. by destruct (OAuth2AccessTokenLookup.revoked_at a).
    + intros e Hexp. rewrite Hexp in He. by apply Z.ltb_ge.
Qed.

(** Marking the token as used touches no other table. *)
Lemma use_step {B} a (k : AccessToken.t → M (World R) Introspection.RouteError B) w r w' :
  bind (if AccessToken.is_used a then ret a
        else Introspection.repo (AccessTokenRepository.mark_used a)) k w = (r, w') →
  (∃ e, r = Err (Introspection.Internal e)) ∨
  ∃ b w1, users (w_txn w1) = users (w_txn w) ∧ k b w1 = (r, w').
Proof.
  destruct (AccessToken.is_used a).
  - intros H. right. exists a, w. done.
  - intros [?|(b & w1 & Hm & H)]%repo_step; [by left|]. right. exists b, w1. split; [|done].
    apply access_mark_used_inv in Hm as (t & row & _ & _ & -> & _). done.
Qed.

Lemma user_active_users d d' uid : users d' = users d → user_active d' uid ↔ user_active d uid.
Proof. unfold user_active. by intros ->. Qed.

Lemma access_agrees txt w r w' :
  integrity (w_txn w) → Introspection.introspect_access_token txt w = (r, w') →
  agrees (w_txn w) (w_clock w (w_ticks w)) txt AccessTokenType r.
Proof.
  intros Hint H. unfold Introspection.introspect_access_token in H.
  apply repo_step in H as [[e ->]|(o & w1 & Hf & H)]; [by intros|].
  assert (still w w1) as (Tk & Ck & _) by (eapply keeps_run; [|exact Hf]; keeps_tac).
  apply access_find_inv in Hf as [(T1 & _ & _) Ho].
  apply require_step in H as [[-> ->]|(x & -> & H)].
  { intros _ Ha. exfalso. inversion Ha; subst. by eapply Ho. }
  destruct Ho as (k & a & Hk & Htxt & ->).
  apply now_step in H. rewrite Tk, Ck in H.
  pose proof (access_active_iff _ (w_clock w (w_ticks w)) _ _ _ Hint Hk Htxt) as Hiff.
  apply guard_step in H as [[Hv ->]|[Hv H]]; rewrite Hv in Hiff; [by refuse|].
  apply repo_step in H as [[e ->]|(so & w2 & Hs & H)]; [by intros|].
  apply session_lookup_inv in Hs as [(T2 & _ & _) Hs]. simpl in *.
  apply require_step in H as [[_ ->]|(s & -> & H)]; [by intros|].
  destruct Hs as (row & Hrow & Hs). rewrite T1 in *.
  apply session_row in Hs as [Huid Hsr].
  apply guard_step in H as [[Hsv ->]|[Hsv H]]; rewrite Hsv in Hsr; [by refuse|].
  apply use_step in H as [[e ->]|(b & w3 & T3 & H)]; [by intros|]. rewrite T2 in T3.
  apply subject_step in H as [(e & -> & He)|([sub name] & w4 & Hu & H)]; rewrite Huid in *.
  { setoid_rewrite (user_active_users _ _ _ T3) in He. refuse. }
  setoid_rewrite (user_active_users _ _ _ T3) in Hu.
  apply agrees_answers; [naive_solver|by inversion 1|]. finish_answers H.
Qed.

Lemma personal_find_inv txt w o w' :
  PersonalAccessTokenRepository.find_by_token txt w = (Ok o, w') →
  same_db w w' ∧
  match o with
  | None => ∀ id r, personal_access_tokens (w_txn w) !! id = Some r →
      PersonalAccessTokenLookup.access_token_sha256 r ≠ sha256 txt
  | Some a => ∃ id r, personal_access_tokens (w_txn w) !! id = Some r ∧
      PersonalAccessTokenLookup.access_token_sha256 r = sha256 txt ∧
      a = PersonalAccessTokenRepository.of_row r
  end.
Proof.
  intros H. op_inv H. subst. split; [same_world|].
  pose proof (find_col_cases PersonalAccessTokenLookup.access_token_sha256 (sha256 txt) (w_txn w))
    as Hf.
  destruct (find_row _ _); simpl; [|done]. destruct Hf as (id & ? & ?). eauto.
Qed.

Lemma personal_session_lookup_inv id w o w' :
  PersonalSessionRepository.lookup id w = (Ok o, w') →
  same_db w w' ∧
  match o with
  | None => personal_sessions (w_txn w) !! id = None
  | Some x => ∃ r, personal_sessions (w_txn w) !! id = Some r ∧
      PersonalSessionRepository.try_from r = Ok x
  end.
Proof.
  intros H. op_inv H. subst. split; [same_world|]. simpl in *.
  destruct (personal_sessions _ !! id); naive_solver.
Qed.

(** What is read of the row of a personal session. *)
Lemma personal_session_row r s :
  PersonalSessionRepository.try_from r = Ok s →
  PersonalSession.actor_user_id s = PersonalSessionLookup.actor_user_id r ∧
  (PersonalSession.is_valid s = true ↔ PersonalSessionLookup.revoked_at r = None) ∧
  match PersonalSession.owner s with
  | OwnerUser uid => PersonalSessionLookup.owner_user_id r = Some uid
  | OwnerOAuth2Client _ => PersonalSessionLookup.owner_user_id r = None
  end.
Proof.
  unfold PersonalSessionRepository.try_from. intros (l & _ & H)%rbind_Ok_inv.
  apply rbind_Ok_inv in H as (o & Ho & [= <-]). unfold PersonalSession.is_valid. simpl.
  split_and!; [done | by destruct (PersonalSessionLookup.revoked_at r)|].
  by destruct (PersonalSessionLookup.owner_user_id r), (PersonalSessionLookup.owner_oauth2_client_id r);
    simplify_eq.
Qed.

Lemma personal_active_iff d t txt k a :
  integrity d → personal_access_tokens d !! k = Some a →
  PersonalAccessTokenLookup.access_token_sha256 a = sha256 txt →
  token_active d t txt PersonalAccessTokenType ↔
  PersonalAccessToken.is_valid (PersonalAccessTokenRepository.of_row a) t = true ∧
  ∃ s, personal_sessions d !! PersonalAccessTokenLookup.personal_session_id a = Some s ∧
    PersonalSessionLookup.revoked_at s = None ∧
    actor_active d (PersonalSessionLookup.actor_user_id s) ∧
    ∀ uid, PersonalSessionLookup.owner_user_id s = Some uid → user_active d uid.
Proof.
  intros Hint Hk Htxt. unfold PersonalAccessToken.is_valid. simpl. split.
  - intros Ha. inversion Ha as [| | | |k' a' s' Hk' Ht' Hr Hexp Hs Hf Hu Ho]; subst.
    destruct (same_text _ _ _ _ _ _ (personal_tokens_unique _ Hint) Hk' Hk) as [-> ->];
      [congruence|].
    split; [|eauto 10]. rewrite Hr.
    destruct (PersonalAccessTokenLookup.expires_at a) as [e|]; [|done].
    apply Z.ltb_lt. by apply Hexp.
  - intros (He & s & Hs & Hf & Hu & Ho).
    destruct (PersonalAccessTokenLookup.revoked_at a) eqn:Hr; [done|].
    eapply active_personal; try done.
    intros e Hexp. rewrite Hexp in He. by apply Z.ltb_lt.
Qed.

(** Of a token that is found, whether it acts as a locked user. *)
Lemma user_active_actor d uid : user_active d uid → actor_active d uid.
Proof. intros (u & ? & _ & ?). by exists u. Qed.

Lemma inactive_locked d txt k a s :
  personal_access_tokens d !! k = Some a →
  PersonalAccessTokenLookup.access_token_sha256 a = sha256 txt →
  personal_sessions d !! PersonalAccessTokenLookup.personal_session_id a = Some s →
  actor_active d (PersonalSessionLookup.actor_user_id s) →
  ¬ user_active d (PersonalSessionLookup.actor_user_id s) →
  locked_actor d txt PersonalAccessTokenType.
Proof.
  intros Hk Htxt Hs (u & Hu & Hd) Hn. eapply locked_personal; [done..|].
  intros Hl. apply Hn. by exists u.
Qed.

Lemma active_not_locked d txt k a s :
  integrity d → personal_access_tokens d !! k = Some a →
  PersonalAccessTokenLookup.access_token_sha256 a = sha256 txt →
  personal_sessions d !! PersonalAccessTokenLookup.personal_session_id a = Some s →
  user_active d (PersonalSessionLookup.actor_user_id s) →
  ¬ locked_actor d txt PersonalAccessTokenType.
Proof.
  intros Hint Hk Htxt Hs (u & Hu & Hl & _) H.
  inversion H as [k' a' s' u' Hk' Ht' Hs' Hu' Hlock]; subst.
  destruct (same_text _ _ _ _ _ _ (personal_tokens_unique _ Hint) Hk' Hk) as [-> ->];
    [congruence|]. by simplify_eq.
Qed.

Lemma owner_step {B} o (k : _ → M (World R) Introspection.RouteError B) w r w' :
  bind (Introspection.check_owner o) k w = (r, w') →
  (∃ e, r = Err e ∧ (reads_inactive e = true →
     ∃ uid, o = OwnerUser uid ∧ ¬ user_active (w_txn w) uid)) ∨
  ∃ x w1, (∀ uid, o = OwnerUser uid → user_active (w_txn w) uid) ∧ k x w1 = (r, w').
Proof.
  unfold Introspection.check_owner. intros H. destruct o as [uid|cid]; rewrite bind_assoc in H.
  - apply valid_user_step in H as [(e & -> & He & _)|(u & w1 & Hu & _ & H)].
    + left. exists e. split; [done|]. intros Hr. exists uid. auto.
    + right. eexists _, w1. split; [by intros ? [= <-]|exact H].
  - apply repo_step in H as [[e ->]|(c & w1 & _ & H)]; [left; by eexists|].
    rewrite bind_assoc in H. apply require_step in H as [[_ ->]|(x & _ & H)]; [left; by eexists|].
    right. eexists _, w1. split; [done|exact H].
Qed.

Lemma personal_agrees txt w r w' :
  integrity (w_txn w) → Introspection.introspect_personal_access_token txt w = (r, w') →
  agrees (w_txn w) (w_clock w (w_ticks w)) txt PersonalAccessTokenType r.
Proof.
  intros Hint H. unfold Introspection.introspect_personal_access_token in H.
  apply repo_step in H as [[e ->]|(o & w1 & Hf & H)]; [by intros|].
  assert (still w w1) as (Tk & Ck & _) by (eapply keeps_run; [|exact Hf]; keeps_tac).
  apply personal_find_inv in Hf as [(T1 & _ & _) Ho].
  apply require_step in H as [[-> ->]|(x & -> & H)].
  { intros _ Ha. exfalso. inversion Ha; subst. by eapply Ho. }
  destruct Ho as (k & a & Hk & Htxt & ->).
  apply now_step in H. rewrite Tk, Ck in H.
  pose proof (personal_active_iff _ (w_clock w (w_ticks w)) _ _ _ Hint Hk Htxt) as Hiff.
  apply guard_step in H as [[Hv ->]|[Hv H]]; rewrite Hv in Hiff; [by refuse|].
  apply repo_step in H as [[e ->]|(so & w2 & Hs & H)]; [by intros|].
  apply personal_session_lookup_inv in Hs as [(T2 & _ & _) Hs]. simpl in *.
  apply require_step in H as [[_ ->]|(s & -> & H)]; [by intros|].
  destruct Hs as (row & Hrow & Hs). rewrite T1 in *.
  apply personal_session_row in Hs as (Hact & Hsr & Hown).
  apply guard_step in H as [[Hsv ->]|[Hsv H]]; rewrite Hsv in Hsr; [by refuse|].
  apply valid_user_step in H as [(e & -> & He & Hne)|(u & w3 & Hu & (T3 & _) & H)];
    rewrite T2, Hact in *.
  { assert (reads_inactive e = true →
      token_active (w_txn w) (w_clock w (w_ticks w)) txt PersonalAccessTokenType →
      locked_actor (w_txn w) txt PersonalAccessTokenType) as Hl; [|unfold agrees; by destruct e].
    intros Hr Ha. apply Hiff in Ha as (_ & s' & Hs' & _ & Hu & _). simplify_eq.
    eapply inactive_locked; [done..|by apply He]. }
  apply owner_step in H as [(e & -> & He)|(cid & w4 & Ho & H)]; rewrite T3 in *.
  { apply agrees_refused. intros Hr Ha. destruct (He Hr) as (uid & Hu' & Hn).
    rewrite Hu' in Hown. apply Hiff in Ha as (_ & s' & Hs' & _ & _ & Ho'). simplify_eq. auto. }
  apply agrees_answers; [| |finish_answers H].
  - apply Hiff. split; [done|]. exists row.
    split_and!; [done|naive_solver|by apply user_active_actor|]. intros uid Huid.
    destruct (PersonalSession.owner s) as [uid'|]; simplify_eq. auto.
  - by eapply active_not_locked.
Qed.
End Verdicts.

(** ** The endpoint *)

(** What the endpoint says of a token: that it is active, that it is not, or
    nothing, when it answers with an error. *)
Definition says (r : result Introspection.RouteError Introspection.IntrospectionResponse) :
    option bool :=
  match r with
  | Ok reply => Some (Introspection.active reply)
  | Err e => if reads_inactive e then Some false else None
  end.

Section Endpoint.
Context {R : Type} `{!RngCore R} {crc : Crc} {base64 : Base64} {sha2 : Sha2}
  {ulid_text : UlidText} {url_lib : UrlLib} {jwks_json : JwksJson}
  {client_crypto : ClientCrypto} {hs : Homeserver}.
Implicit Types w : World R.

(** Who may ask: the homeserver, or a client that proved who it is. *)
Definition caller_allowed (d : Db) (c : Credentials) : Prop :=
  match bearer_token c with
  | Some token => token = homeserver_access_token
  | None => ∃ client, authenticated d c client ∧
      Client.token_endpoint_auth_method client ≠ Some NoAuthentication
  end.

Lemma introspection_caller c w r w' :
  Introspection.authenticate c w = (r, w') →
  still w w' ∧
  match r with
  | Ok _ => caller_allowed (w_txn w) c
  | Err e => reads_inactive e = false
  end.
Proof.
  intros H. assert (still w w') as Hst by (eapply keeps_run; [|exact H]; keeps_tac).
  split; [done|]. unfold Introspection.authenticate, caller_allowed in *.
  destruct (bearer_token c) as [tok|] eqn:Hb.
  - unfold Introspection.guard, verify_token in H. case_bool_decide; injection H as <- <-; done.
  - apply repo_step in H as [[e ->]|(o & w1 & Hf & H)]; [done|].
    apply require_step in H as [[_ ->]|(cl & -> & H)]; [done|].
    apply fetch_Ok in Hf as [_ (s & id & row & ? & ? & ? & ?)].
    unfold bind, lift in H.
    destruct (Client.token_endpoint_auth_method cl) as [m|] eqn:Hm; [|by injection H as <- <-].
    destruct (decide (m = NoAuthentication)) as [->|Hne]; [by injection H as <- <-|].
    assert (map_err Introspection.ClientCredentialsVerification (verify c m cl) = r) as Hv.
    { destruct m; by injection H. }
    destruct (verify c m cl) as [[]|e] eqn:He; subst r; [|done]. simpl.
    exists cl. split; [|congruence]. exists s, id, row, m. split_and!; try done.
    by apply verify_Ok_iff.
Qed.

(** What the token that is looked up was, whatever its type. *)
Definition introspect (h : bool) (ty : TokenType) (txt : string) :=
  match ty with
  | AccessTokenType => Introspection.introspect_access_token (R := R) txt
  | RefreshTokenType => Introspection.introspect_refresh_token txt
  | CompatAccessTokenType => Introspection.introspect_compat_access_token h txt
  | CompatRefreshTokenType => Introspection.introspect_compat_refresh_token h txt
  | PersonalAccessTokenType => Introspection.introspect_personal_access_token txt
  end.

Lemma introspect_agrees h ty txt w r w' :
  integrity (w_txn w) → introspect h ty txt w = (r, w') →
  agrees (w_txn w) (w_clock w (w_ticks w)) txt ty r.
Proof.
  intros Hint H. destruct ty; simpl in H.
  - by eapply access_agrees.
  - by eapply refresh_agrees.
  - by eapply compat_access_agrees.
  - by eapply compat_refresh_agrees.
  - by eapply personal_agrees.
Qed.

Lemma agrees_says d t txt ty r :
  agrees d t txt ty r →
  (says r = Some true → token_active d t txt ty ∧ ¬ locked_actor d txt ty) ∧
  (says r = Some false → token_active d t txt ty →
     locked_actor d txt ty ∨ ∃ x, r = Err (Introspection.CantEncodeDeviceID x)).
Proof.
  unfold agrees, says. destruct r as [reply|e].
  - intros [-> ?]. split; [done|]. by intros.
  - destruct (reads_inactive e) eqn:He; [|by intros]. intros H. split; [done|]. intros _ Ha.
    destruct e; eauto.
Qed.

Lemma introspection_err h auth :
  err_keeps same_committed (Introspection.introspection_request (R := R) h auth).
Proof. unfold Introspection.introspection_request, Introspection.post. err_tac. Qed.

(** The token a request presents, with a hint that fits it. *)
Definition presents (auth : ClientAuthorization Introspection.IntrospectionRequest)
    (txt : string) (ty : TokenType) : Prop :=
  ∃ f, form auth = Some f ∧ Introspection.token f = txt ∧ check txt = Ok ty ∧
    ∀ hint, Introspection.token_type_hint f = Some hint → matches_hint ty hint = true.

Lemma introspection_says h auth w r w' :
  integrity (w_committed w) → Introspection.introspection_request h auth w = (r, w') →
  says r = None ∨
  caller_allowed (w_committed w) (credentials auth) ∧
  ((∀ txt ty, ¬ presents auth txt ty) ∧ says r = Some false ∨
   ∃ txt ty, presents auth txt ty ∧
     (says r = Some true → token_active (w_committed w) (w_clock w (w_ticks w)) txt ty ∧
        ¬ locked_actor (w_committed w) txt ty) ∧
     (says r = Some false → token_active (w_committed w) (w_clock w (w_ticks w)) txt ty →
        locked_actor (w_committed w) txt ty ∨
        ∃ x, r = Err (Introspection.CantEncodeDeviceID x))).
Proof.
  intros Hint H. unfold Introspection.introspection_request, Introspection.post in H.
  apply repo_step in H as [[e ->]|(u & w1 & Hp & H)]; [by left|].
  apply from_pool_still in Hp as (K1 & C1 & T1).
  unfold bind at 1 in H. destruct (Introspection.authenticate _ w1) as [v w2] eqn:Ha.
  apply introspection_caller in Ha as [(K2 & C2 & T2) Ha]. rewrite T1 in *.
  destruct v as [?|e]; [|injection H as <- <-; left; simpl; by rewrite Ha].
  apply require_step in H as [[_ ->]|(f & Hf & H)]; [by left|]. right. split; [done|].
  unfold bind at 1, lift in H. destruct (check (Introspection.token f)) as [ty|e] eqn:Hc.
  2: { injection H as <- <-. left. split; [|done]. intros txt ty (f' & Hf' & <- & Hc' & _).
       simplify_eq. congruence. }
  simpl in H. apply guard_step in H as [[Hh ->]|[Hh H]].
  { left. split; [|done]. intros txt ty' (f' & Hf' & <- & Hc' & Hhint). simplify_eq.
    rewrite Hc in Hc'. injection Hc' as <-.
    destruct (Introspection.token_type_hint f) as [hint|]; [|done]. by rewrite Hhint in Hh. }
  right. exists (Introspection.token f), ty. split.
  { exists f. split_and!; try done. intros hint Hhint. by rewrite Hhint in Hh. }
  unfold bind at 1 in H. fold (introspect (bool_decide (h = Some "1")) ty (Introspection.token f)) in H.
  destruct (introspect _ ty _ w2) as [v w3] eqn:Hi.
  apply introspect_agrees in Hi as Hag; [|by rewrite T2]. rewrite K2, K1, C2, C1, T2 in Hag.
  apply agrees_says in Hag. destruct v as [reply|e]; [|by injection H as <- <-].
  apply repo_step in H as [[e ->]|(x & w4 & _ & [= <- <-])]; [by split|done].
Qed.

(** C16: the introspection endpoint answers only a caller who is allowed to ask.
    What it says to be active is active as the documentation has it, at the
    instant the request first reads the clock, whatever the type of the token. It
    says of every token that is active that it is, with two exceptions: a
    personal token that acts as a locked user, which the documentation
    allows and which is never said to be active, and the token of a device
    that has no scope. A request it refuses commits nothing. *)
Theorem introspection_truthful h auth w r w' :
  integrity (w_committed w) → Introspection.introspection_request h auth w = (r, w') →
  (is_ok r = false → w_committed w' = w_committed w) ∧
  (says r = None ∨
   caller_allowed (w_committed w) (credentials auth) ∧
   ((∀ txt ty, ¬ presents auth txt ty) ∧ says r = Some false ∨
    ∃ txt ty, presents auth txt ty ∧
      (says r = Some true → token_active (w_committed w) (w_clock w (w_ticks w)) txt ty ∧
         ¬ locked_actor (w_committed w) txt ty) ∧
      (says r = Some false → token_active (w_committed w) (w_clock w (w_ticks w)) txt ty →
         locked_actor (w_committed w) txt ty ∨
         ∃ x, r = Err (Introspection.CantEncodeDeviceID x)))).
Proof.
  intros Hint H. split; [|by eapply introspection_says].
  destruct r as [x|e]; [done|]. intros _. by apply introspection_err in H as [-> _].
Qed.
(** A personal token that acts as a locked user is never said to be active,
    though the documentation lets a locked user be acted as. *)
Lemma locked_actor_refused h auth txt w :
  integrity (w_committed w) → presents auth txt PersonalAccessTokenType →
  locked_actor (w_committed w) txt PersonalAccessTokenType →
  says (Introspection.introspection_request h auth w).1 ≠ Some true.
Proof.
  intros Hint Hp Hl Hsay.
  destruct (Introspection.introspection_request h auth w) as [r w'] eqn:H. simpl in Hsay.
  apply introspection_says in H as [?|(_ & [[Hn _]|(txt' & ty' & Hp' & Ht & _)])];
    [congruence|by eapply Hn| |done].
  apply Ht in Hsay as [_ Hnl]. destruct Hp as (f & Hf & <- & Hc & _), Hp' as (f' & Hf' & <- & Hc' & _).
  simplify_eq. rewrite Hc in Hc'. by injection Hc' as <-.
Qed.
End Endpoint.

(** ** Witnesses *)
Section Witnesses.
Import Scenario.

(** The homeserver asks about the access token of the code exchange. *)
Definition introspection_auth : ClientAuthorization Introspection.IntrospectionRequest :=
  mkClientAuthorization (BearerToken "secret")
    (Some (Introspection.mkIntrospectionRequest (r_access_token exchange_response) None)).
Definition introspection_run :=
  Introspection.introspection_request None introspection_auth exchange.2.

Example introspection_run_active : says introspection_run.1 = Some true.
Proof. vm_compute. reflexivity. Qed.

Lemma introspection_truthful_witness :
  says introspection_run.1 = Some true ∧
  (is_ok introspection_run.1 = false → w_committed introspection_run.2 = w_committed exchange.2) ∧
  (says introspection_run.1 = None ∨
   caller_allowed (w_committed exchange.2) (credentials introspection_auth) ∧
   ((∀ txt ty, ¬ presents introspection_auth txt ty) ∧ says introspection_run.1 = Some false ∨
    ∃ txt ty, presents introspection_auth txt ty ∧
      (says introspection_run.1 = Some true → token_active (w_committed exchange.2)
         (w_clock exchange.2 (w_ticks exchange.2)) txt ty ∧
         ¬ locked_actor (w_committed exchange.2) txt ty) ∧
      (says introspection_run.1 = Some false → token_active (w_committed exchange.2)
         (w_clock exchange.2 (w_ticks exchange.2)) txt ty →
         locked_actor (w_committed exchange.2) txt ty ∨
         ∃ x, introspection_run.1 = Err (Introspection.CantEncodeDeviceID x)))).
Proof.
  split; [vm_compute; reflexivity|].
  apply (introspection_truthful None introspection_auth exchange.2 introspection_run.1
           introspection_run.2).
  - unfold exchange. apply token_request_integrity. apply integrity_db.
  - unfold introspection_run. apply surjective_pairing.
Defined.

(** The homeserver asks about a personal token of a client, which acts as Alice
    while she is locked. *)
Definition locked_alice : UserLookup.t :=
  UserLookup.mk 2 "alice" 0 (Some 1000000) None false false.
Definition personal_token : string := (generate PersonalAccessTokenType 0).1.
Definition alice_actor : PersonalSessionLookup.t :=
  PersonalSessionLookup.mk 5 None (Some 1) 2 "robot" [] 0 None None None.
Definition robot_token : PersonalAccessTokenLookup.t :=
  PersonalAccessTokenLookup.mk 6 5 (sha256 personal_token) 0 None None.
Definition robot_db : Db :=
  mkDb {[1 := client]} {[2 := locked_alice]} ∅ ∅ ∅ ∅ ∅ ∅ ∅ ∅ ∅ ∅ None ∅ ∅ ∅ ∅
    {[5 := alice_actor]} {[6 := robot_token]} ∅ ∅ ∅ no_accounts.
Definition robot_auth : ClientAuthorization Introspection.IntrospectionRequest :=
  mkClientAuthorization (BearerToken "secret")
    (Some (Introspection.mkIntrospectionRequest personal_token None)).

Example locked_actor_diverges :
  token_active robot_db 2000000 personal_token PersonalAccessTokenType ∧
  presents robot_auth personal_token PersonalAccessTokenType ∧
  says (Introspection.introspection_request None robot_auth (world robot_db 0 0)).1 = Some false.
Proof.
  split_and!.
  - apply (active_personal _ _ _ 6 robot_token alice_actor); try done. by exists locked_alice.
  - eexists. split_and!; [reflexivity|reflexivity|vm_compute; reflexivity|done].
  - vm_compute. reflexivity.
Qed.
End Witnesses.
