(* ===== verification/ConsentFacts.v ===== *)
(** * Correctness of the consent of the user

    The protection of the forms, what the pages of the authorization endpoint
    and of the device grant write, and under which conditions. *)

From stdpp Require Import base tactics list strings gmap.
From Stdlib Require Import ZArith Lia.
From S2P Require Import Prelude Text Scope Formats Externals Pagination TokenFormat DataModel CompatModel Storage TokenRepo GrantRepo QueueRepo UserRepo CompatRepo PersonalRepo Passwords ClientAuth TokenEndpoint GraphqlSession WebSession CompatEndpoints Authorization DeviceConsent Triples RepoFacts Integrity Evolution Scenario Stored TokenFacts CodeExchange OtherGrants GraphqlFacts CompatRefreshFacts.
#[local] Open Scope Z_scope.

#[export] Hint Unfold WebSession.csrf_token verify_form render_account_inactive
  load_session_or_fallback Graphql.record_browser_session Graphql.load_active_session
  Authorization.repo Authorization.require Authorization.callback_error CallbackDestination.go
  ConsentPage.repo ConsentPage.require ConsentPage.page DeviceConsent.page
  ConsentPage.violations_of DeviceConsent.repo DeviceConsent.require DeviceConsent.enabled
  DeviceConsent.load_grant DeviceConsent.violations_of DeviceConsent.decide_grant
  DeviceConsent.redirect_url DeviceConsent.handle_code generate_id_token : mas_ops.

(** ** Runs that commit for some answers only *)

Section CommitsFor.
Context {R : Type}.

(** A run commits nothing, or its result is in [ok]. *)
Definition commits_when {E A} (ok : result E A → Prop) (m : M (World R) E A) : Prop :=
  ∀ w, same_committed w (m w).2 ∨ ok (m w).1.

Lemma commits_when_keeps {E A} (ok : result E A → Prop) (m : M (World R) E A) :
  keeps same_committed m → commits_when ok m.
Proof. intros H w. left. apply H. Qed.

Lemma commits_when_bind {E A B} (ok : result E B → Prop) (m : M (World R) E A)
    (f : A → M (World R) E B) :
  keeps same_committed m → (∀ a, commits_when ok (f a)) → commits_when ok (bind m f).
Proof.
  intros Hm Hf w. specialize (Hm w). unfold bind. destruct (m w) as [[a|e] w1]; [|by left].
  destruct (Hf a w1) as [H|H]; [left; by transitivity w1|by right].
Qed.

(** What follows a commit gives a result in [ok]. *)
Lemma commits_when_save {E A} (ok : result E A → Prop) (g : DatabaseError → E)
    (m : M (World R) E A) :
  (∀ w, ok (m w).1) → commits_when ok (do! mmap_err g save; m).
Proof.
  intros Hok w. unfold bind, mmap_err. destruct (save_cases w) as [(w' & -> & _)|(w' & Hs & Hc)].
  - right. apply Hok.
  - left. pose proof (err_keeps_save _ _ _ Hs) as H. by rewrite Hs.
Qed.

(** It commits nothing, or answers in [ok]. *)
Definition commits_for {E A} (ok : A → Prop) (m : M (World R) E A) : Prop :=
  commits_when (λ r, ∃ a, r = Ok a ∧ ok a) m.

Lemma commits_for_keeps {E A} (ok : A → Prop) (m : M (World R) E A) :
  keeps same_committed m → commits_for ok m.
Proof. apply commits_when_keeps. Qed.
Lemma commits_for_bind {E A B} (ok : B → Prop) (m : M (World R) E A) (f : A → M (World R) E B) :
  keeps same_committed m → (∀ a, commits_for ok (f a)) → commits_for ok (bind m f).
Proof. apply commits_when_bind. Qed.
Lemma commits_for_save {E A} (ok : A → Prop) (g : DatabaseError → E) (m : M (World R) E A) :
  (∀ w, ∃ a, (m w).1 = Ok a ∧ ok a) → commits_for ok (do! mmap_err g save; m).
Proof. apply (commits_when_save (λ r, ∃ a, r = Ok a ∧ ok a)). Qed.
End CommitsFor.

(** A run commits nothing, or goes past a part that does not commit. *)
Lemma commit_bind_inv {R E A B} (m : M (World R) E A) (k : A → M (World R) E B) w r w' :
  keeps same_committed m → bind m k w = (r, w') →
  same_committed w w' ∨ ∃ a w1, m w = (Ok a, w1) ∧ same_committed w w1 ∧ k a w1 = (r, w').
Proof.
  intros Hm H. specialize (Hm w). unfold bind in H. destruct (m w) as [[a|e] w1].
  - right. by exists a, w1.
  - left. by injection H as _ <-.
Qed.

Lemma commit_bind_err_inv {R E A B} (m : M (World R) E A) (k : A → M (World R) E B) w r w' :
  keeps same_committed m → bind m k w = (r, w') →
  same_committed w w' ∧ is_ok r = false ∨
  ∃ a w1, m w = (Ok a, w1) ∧ same_committed w w1 ∧ k a w1 = (r, w').
Proof.
  intros Hm H. specialize (Hm w). unfold bind in H. destruct (m w) as [[a|e] w1].
  - right. by exists a, w1.
  - left. by injection H as <- <-.
Qed.

(** It commits nothing, or commits for good. *)
Lemma commit_save_inv {R E B} (g : DatabaseError → E) (k : M (World R) E B) w r w' :
  keeps same_committed k → bind (mmap_err g save) (λ _, k) w = (r, w') →
  w_committed w' = w_committed w ∨ ∃ w1, w_committed w' = w_txn w ∧ k w1 = (r, w').
Proof.
  intros Hk H. unfold bind, mmap_err in H.
  destruct (save_cases w) as [(w1 & Hs & Hc)|(w1 & Hs & Hc)]; rewrite Hs in H; simpl in H.
  - right. exists w1. split; [|done]. specialize (Hk w1). rewrite H in Hk.
    destruct Hk as [Hk _]. simpl in Hk. by rewrite Hk.
  - left. by injection H as _ <-.
Qed.

(** Goes past the first part of the run [H]; [K] says that nothing was committed
    so far. *)
Ltac commit_step H K a w1 Hm :=
  let Hs := fresh in
  apply commit_bind_inv in H as [Hs|(a & w1 & Hm & Hs & H)]; [| |by keeps_tac];
    [left; exact (proj1 (transitivity K Hs))|];
  apply (transitivity K) in Hs; clear K; rename Hs into K.

(** ** The errors a run may end with *)

Section Raises.
Context {R : Type}.

Definition raises {E A} (P : E → Prop) (m : M (World R) E A) : Prop :=
  ∀ w e w', m w = (Err e, w') → P e.

Lemma raises_bind {E A B} (P : E → Prop) (m : M (World R) E A) (f : A → M (World R) E B) :
  raises P m → (∀ a, raises P (f a)) → raises P (bind m f).
Proof. intros Hm Hf w e w' [H|(a & w1 & _ & H)]%bind_Err_inv; [by eapply Hm|by eapply Hf]. Qed.
Lemma raises_mmap_err {E F A} (P : F → Prop) (g : E → F) (m : M (World R) E A) :
  (∀ e, P (g e)) → raises P (mmap_err g m).
Proof. intros HP w e w' (e1 & _ & ->)%mmap_err_Err_inv. apply HP. Qed.
Lemma raises_lift {E A} (P : E → Prop) (r : result E A) :
  (∀ e, r = Err e → P e) → raises P (lift (W := World R) r).
Proof. intros HP w e w' [= -> _]. by apply HP. Qed.
Lemma raises_fail {E A} (P : E → Prop) e : P e → raises P (fail (W := World R) (A := A) e).
Proof. by intros HP w e' w' [= <- _]. Qed.
Lemma raises_never {E A} (P : E → Prop) (m : M (World R) E A) :
  (∀ w, is_ok (m w).1 = true) → raises P m.
Proof. intros Hm w e w' H. specialize (Hm w). by rewrite H in Hm. Qed.
Lemma raises_with_rng {E A} (P : E → Prop) (f : R → A * R) : raises P (with_rng (E := E) f).
Proof. apply raises_never. intros w. unfold with_rng. by destruct (f (w_rng w)). Qed.

(** A part that cannot raise the error the run ends with went well. *)
Lemma bind_raises_inv {E A B} (P : E → Prop) (m : M (World R) E A) (k : A → M (World R) E B)
    w r w' :
  raises P m → (∀ e, r = Err e → ¬ P e) → bind m k w = (r, w') →
  ∃ a w1, m w = (Ok a, w1) ∧ k a w1 = (r, w').
Proof.
  intros Hm Hr H. unfold bind in H. destruct (m w) as [[a|e] w1] eqn:Hw; [by exists a, w1|].
  injection H as <- <-. by destruct (Hr e eq_refl (Hm _ _ _ Hw)).
Qed.
End Raises.

Ltac raises_tac :=
  repeat (intros; lazymatch goal with
    | |- raises _ (bind _ _) => apply raises_bind
    | |- raises _ (mmap_err _ _) => apply raises_mmap_err; intros; exact I
    | |- raises _ (lift (ok_or ?o _)) =>
        apply raises_lift; intros ? ?; destruct o; simplify_eq/=; exact I
    | |- raises _ (lift (map_err _ ?o)) =>
        apply raises_lift; intros ? ?; destruct o; simplify_eq/=; exact I
    | |- raises _ (fail _) => apply raises_fail; exact I
    | |- raises _ (match ?x with _ => _ end) => destruct x
    | |- raises _ _ =>
        first [ apply raises_with_rng
              | apply raises_never; intros; reflexivity
              | progress autounfold with mas_ops ]
    end).

(** An answer that is rendered. *)
Lemma render_answer_result {R E A} (e : E) (a : A) (w : World R) :
  let r := (do! render_answer e; ret a) w in r.1 = Ok a ∨ r.1 = Err e.
Proof. unfold bind, render_answer, ret. destruct (w_render_faults w) as [|[] ?]; auto. Qed.

Ltac commits_tac :=
  repeat (intros; lazymatch goal with
    | |- commits_for _ (bind (_ (@save _)) _) =>
        apply commits_for_save; intros; eexists; split; [reflexivity|simpl; eauto]
    | |- commits_for _ (bind _ _) => apply commits_for_bind; [keeps_tac | intros ?]
    | |- commits_for _ (match ?x with _ => _ end) => destruct x
    | |- commits_for _ _ => solve [apply commits_for_keeps; keeps_tac]
    | |- commits_when _ (bind (_ (@save _)) _) => apply commits_when_save
    | |- commits_when _ (bind _ _) => apply commits_when_bind; [keeps_tac | intros ?]
    | |- commits_when _ (match ?x with _ => _ end) => destruct x
    | |- commits_when _ _ => solve [apply commits_when_keeps; keeps_tac]
    end).

(** A run that only reads. *)
Lemma reads_run {R E A} (m : M (World R) E A) w r w' :
  keeps (keeps_db eq) m → keeps same_committed m → m w = (r, w') → same_db w w'.
Proof.
  intros Ht Hc H. specialize (Ht w). specialize (Hc w). rewrite H in Ht, Hc.
  destruct Ht as [Ht _], Hc as [Hc Hk]. done.
Qed.

Lemma fetch_user_email_keeps {R E} {pg : PgCollation} (Q : World R → World R → Prop) u :
  keeps Q (UserEmailRepository.all u) → keeps Q (ConsentPage.fetch_user_email (E := E) u).
Proof.
  intros H w. specialize (H w). unfold ConsentPage.fetch_user_email.
  by destruct (UserEmailRepository.all u w) as [[]].
Qed.
#[export] Hint Extern 1 (keeps _ (ConsentPage.fetch_user_email _)) =>
  apply fetch_user_email_keeps; keeps_tac : keeps.
#[export] Hint Unfold UserEmailRepository.all : mas_ops.

(** Steps that leave the transaction as it is. *)
Ltac same_txn D := let T := fresh "T" in destruct D as [T _]; rewrite <-T in *; clear T.
Ltac reads_txn H :=
  lazymatch type of H with
  | ?m ?w = (_, ?w') =>
      let D := fresh "D" in
      assert (same_db w w') as D by (eapply reads_run; [| |exact H]; keeps_tac);
      same_txn D; clear H
  end.

(** ** The protection of the forms *)

Section Forms.
Context {R : Type} {base64 : Base64}.
Implicit Types w : World R.

(** The form carries the token of the cookie, which has not expired at [t]. *)
Definition form_protected (jar : CookieJar) (csrf : string) (t : DateTime) : Prop :=
  ∃ c, csrf_cookie jar = Ok (Some c) ∧ t < CsrfToken.expiration c ∧
    base64url_decode csrf = Some (CsrfToken.token c).

Lemma verify_form_inv jar csrf w u w' :
  verify_form jar csrf w = (Ok u, w') →
  same_db w w' ∧ ∃ n, form_protected jar csrf (w_clock w n).
Proof.
  intros (o & ? & [Ho ->]%lift_inv & H)%bind_Ok_inv.
  apply bind_Ok_inv in H as (c & ? & [Hc ->]%lift_inv & H).
  apply bind_Ok_inv in H as (t & w1 & [-> Hs]%now_inv & H).
  apply bind_Ok_inv in H as (c' & ? & [Hc' ->]%lift_inv & H).
  apply lift_inv in H as [H ->]. split; [done|]. exists (w_ticks w), c.
  destruct (csrf_cookie jar) as [o'|]; [|done]. injection Ho as ->.
  destruct o' as [c1|]; [|done]. injection Hc as ->.
  unfold CsrfToken.verify_expiration in Hc'. destruct (Z.ltb_spec (w_clock w (w_ticks w))
    (CsrfToken.expiration c1)); [|done]. injection Hc' as ->.
  apply eq_sym, rbind_Ok_inv in H as (f & Hf & H). case_decide as Heq; [|done].
  destruct (base64url_decode csrf) as [f'|] eqn:Hd; [|done]. injection Hf as ->.
  split_and!; [done..|]. by rewrite Heq.
Qed.

Lemma verify_form_run c info csrf w :
  w_clock w (w_ticks w) < CsrfToken.expiration c →
  (verify_form (mkCookieJar (Ok (Some c)) info) csrf w).1 = CsrfToken.verify_form_value c csrf.
Proof.
  intros Ht. unfold verify_form, bind, lift, now, CsrfToken.verify_expiration. simpl.
  by rewrite (proj2 (Z.ltb_lt _ _) Ht).
Qed.

Lemma csrf_token_inv {rng_bytes : RngBytes R} {E} jar w c w' :
  csrf_token (E := E) jar w = (Ok c, w') →
  CsrfToken.expiration c = w_clock w (w_ticks w) + HOUR ∧
  ((∃ old, csrf_cookie jar = Ok (Some old) ∧ w_clock w (w_ticks w) < CsrfToken.expiration old ∧
      CsrfToken.token c = CsrfToken.token old) ∨
   (∃ rng, CsrfToken.token c = (sample_bytes 32 rng).1)).
Proof.
  intros (t & w1 & [-> (_ & _ & Hk)]%now_inv & H)%bind_Ok_inv.
  set (t := w_clock w (w_ticks w)) in *.
  assert (with_rng (E := E) (CsrfToken.generate t HOUR) w1 = (Ok c, w') →
    CsrfToken.expiration c = t + HOUR ∧ ∃ rng, CsrfToken.token c = (sample_bytes 32 rng).1) as Hg.
  { intros [[rng ->] _]%with_rng_inv. unfold CsrfToken.generate.
    destruct (sample_bytes 32 rng) eqn:Hb. split; [done|]. exists rng. by rewrite Hb. }
  destruct (csrf_cookie jar) as [[old|]|]; [|naive_solver..].
  unfold CsrfToken.verify_expiration in H. destruct (Z.ltb_spec t (CsrfToken.expiration old));
    [|naive_solver]. injection H as <- <-. split; [done|]. left. eauto.
Qed.

(** The token a page is given is that of the cookie of the request if it
    has not expired and a fresh one otherwise, and it is good for an hour: the
    form that carries it back with the cookie of the page is accepted until
    then, and refused afterwards; a form that carries anything else is refused. *)
Theorem form_roundtrip {rng_bytes : RngBytes R} {round_trip : Base64RoundTrip} {E} jar info csrf w c w1 w2 :
  csrf_token (E := E) jar w = (Ok c, w1) →
  let jar' := mkCookieJar (Ok (Some c)) info in
  let t := w_clock w2 (w_ticks w2) in
  CsrfToken.expiration c = w_clock w (w_ticks w) + HOUR ∧
  ((∃ old, csrf_cookie jar = Ok (Some old) ∧ w_clock w (w_ticks w) < CsrfToken.expiration old ∧
      CsrfToken.token c = CsrfToken.token old) ∨
   (∃ rng, CsrfToken.token c = (sample_bytes 32 rng).1)) ∧
  (t < CsrfToken.expiration c → (verify_form jar' (CsrfToken.form_value c) w2).1 = Ok tt) ∧
  (CsrfToken.expiration c ≤ t → (verify_form jar' csrf w2).1 = Err Expired) ∧
  (base64url_decode csrf ≠ Some (CsrfToken.token c) → is_ok (verify_form jar' csrf w2).1 = false).
Proof.
  intros H jar' t. destruct (csrf_token_inv _ _ _ _ H) as [He Htok].
  split_and!; [done|done|..].
  - intros Ht. unfold jar'. rewrite verify_form_run by done. unfold CsrfToken.verify_form_value, CsrfToken.form_value.
    rewrite base64url_encode_decode. simpl. by rewrite decide_True.
  - intros Ht. unfold verify_form, bind, lift, now, CsrfToken.verify_expiration. simpl. fold t.
    by rewrite (proj2 (Z.ltb_ge _ _) Ht).
  - intros Hd. destruct (verify_form _ _ _) as [[[]|] w'] eqn:Hv; [|done].
    apply verify_form_inv in Hv as (_ & n & c' & [= <-] & _ & Hc). done.
Qed.
End Forms.

(** ** The session behind the cookie *)

Section SignedIn.
Context {R : Type} {rng_bytes : RngBytes R} {base64 : Base64} {ulid_text : UlidText}.
Implicit Types w : World R.

(** [b] is the session of the cookie, not over, of a user who is neither
    locked nor deactivated. *)
Definition signed_in (d : Db) (info : Graphql.SessionInfo) (b : BrowserSession.t) : Prop :=
  ∃ sid us u, Graphql.current info = Some sid ∧
    user_sessions d !! sid = Some us ∧ users d !! UserSessionRow.user_id us = Some u ∧
    UserSessionRow.finished_at us = None ∧ UserLookup.locked_at u = None ∧
    UserLookup.deactivated_at u = None ∧
    b = BrowserSessionRepository.try_from (us, u) ∧ BrowserSession.id b = sid.

Lemma load_session_inv jar w o w' :
  integrity (w_txn w) →
  load_session_or_fallback jar w = (Ok (MaybeSession o), w') →
  same_db w w' ∧ ∀ b, o = Some b → signed_in (w_txn w) (session_info jar) b.
Proof.
  intros Hint H. split; [eapply reads_run; [| |exact H]; keeps_tac|].
  unfold load_session_or_fallback in H. intros b ->.
  destruct (Graphql.current (session_info jar)) as [sid|] eqn:Hcur; [|done].
  apply bind_Ok_inv in H as (ob & w1 & [_ ->]%browser_lookup_inv & H).
  destruct (BrowserSessionRepository.select_session sid (w_txn w)) as [x|] eqn:Hsel; simpl in H;
    [|done].
  case_match eqn:Ha; [by apply bind_Ok_inv in H as (? & ? & _ & ?)|]. injection H as <- <-.
  apply browser_select_Some in Hsel as [Hx1 Hx2].
  destruct (browser_active _ _ _ _ Hint eq_refl Hx1 Hx2) as (Hbid & _).
  rewrite !orb_false_iff, !bool_decide_eq_false in Ha. destruct Ha as [[Hd Hl] Hf].
  rewrite <-!eq_None_not_Some in Hd, Hl, Hf. destruct x as [us u]. by exists sid, us, u.
Qed.

Lemma load_active_inv info w o w' :
  integrity (w_txn w) → Graphql.load_active_session info w = (Ok o, w') →
  same_db w w' ∧ ∀ b, o = Some b → signed_in (w_txn w) info b.
Proof.
  intros Hint H. split; [eapply reads_run; [| |exact H]; keeps_tac|].
  unfold Graphql.load_active_session in H. intros b ->.
  destruct (Graphql.current info) as [sid|] eqn:Hcur; [|done].
  apply bind_Ok_inv in H as (ob & w1 & [_ ->]%browser_lookup_inv & [= H _]).
  destruct (BrowserSessionRepository.select_session sid (w_txn w)) as [x|] eqn:Hsel; simpl in H;
    [|done].
  apply browser_select_Some in Hsel as [Hx1 Hx2].
  destruct (browser_active _ _ _ _ Hint eq_refl Hx1 Hx2) as (Hbid & _ & Ha).
  destruct (BrowserSession.active _); [|done]. injection H as <-.
  destruct Ha as [Ha _]. destruct (Ha eq_refl) as (? & ? & ?).
  destruct x as [us u]. by exists sid, us, u.
Qed.

(** The sessions of the user that the policy counts. *)
Definition session_counts (d : Db) (user : User.t) : SessionCounts :=
  let count {A} (l : list A) := Z.of_nat (length l) in
  let oauth2 := count (matching_rows (OAuth2SessionFilter.generate_condition
    (OAuth2SessionFilter.for_user user (OAuth2SessionFilter.active_only OAuth2SessionFilter.new))
    d) d) in
  let compat := count (matching_rows (CompatSessionFilter.generate_condition
    (CompatSessionFilter.for_user user (CompatSessionFilter.active_only CompatSessionFilter.new))
    None d) d) in
  let personal := count (PersonalSessionRepository.joined_rows
    (PersonalSessionFilter.for_owner_user user
       (PersonalSessionFilter.for_actor_user user
          (PersonalSessionFilter.active_only PersonalSessionFilter.new))) d) in
  mkSessionCounts (oauth2 + compat + personal) oauth2 compat personal.

Lemma session_counts_inv user w c w' :
  count_user_sessions_for_limiting user w = (Ok c, w') →
  same_db w w' ∧ c = session_counts (w_txn w) user.
Proof.
  intros (? & w1 & [-> D1]%select_inv & H)%bind_Ok_inv.
  apply bind_Ok_inv in H as (? & w2 & [-> D2]%select_inv & H).
  apply bind_Ok_inv in H as (? & w3 & [-> D3]%select_inv & [= <- <-]).
  split; [transitivity w1; [done|]; by transitivity w2|].
  destruct D1 as [E1 _], D2 as [E2 _]. unfold session_counts. by rewrite E2, E1.
Qed.

Lemma client_find_inv {url_lib : UrlLib} {jwks_json : JwksJson} s w o w' :
  ClientRepository.find_by_client_id s w = (Ok o, w') →
  same_db w w' ∧ ∀ c, o = Some c → ∃ id row, ulid_from_string s = Some id ∧
    oauth2_clients (w_txn w) !! id = Some row ∧ ClientRepository.try_from row = Ok c.
Proof.
  unfold ClientRepository.find_by_client_id. destruct (ulid_from_string s) as [id|].
  - intros [D H]%client_lookup_inv. split; [done|]. intros c Hc.
    destruct (H c Hc) as (row & ? & ?). by exists id, row.
  - by intros [= <- <-].
Qed.

Lemma grant_lookup_inv {url_lib : UrlLib} id w o w' :
  AuthorizationGrantRepository.lookup id w = (Ok o, w') →
  same_db w w' ∧ ∀ g, o = Some g → ∃ r, oauth2_authorization_grants (w_txn w) !! id = Some r ∧
    AuthorizationGrantRepository.try_from r = Ok g.
Proof.
  intros H. op_inv H. subst. split; [same_world|]. simpl in *. intros g ->.
  destruct (oauth2_authorization_grants (w_txn w) !! id); naive_solver.
Qed.

Lemma device_lookup_inv id w o w' :
  DeviceCodeGrantRepository.lookup id w = (Ok o, w') →
  same_db w w' ∧ ∀ g, o = Some g → ∃ r, oauth2_device_code_grant (w_txn w) !! id = Some r ∧
    DeviceCodeGrantRepository.try_from r = Ok g.
Proof.
  intros H. op_inv H. subst. split; [same_world|]. simpl in *. intros g ->.
  destruct (oauth2_device_code_grant (w_txn w) !! id); naive_solver.
Qed.
End SignedIn.

(** ** The consent to an authorization request *)

Section Consent.
Context {R : Type} `{!RngCore R} {rng_bytes : RngBytes R} {base64 : Base64}
  {ulid_text : UlidText} {url_lib : UrlLib} {jwks_json : JwksJson} {url_edit : UrlEdit}
  {url_encoded : UrlEncoded} {policy : Policy} {keystore : Keystore R} {pg : PgCollation}.
Implicit Types w : World R.

(** The result of a request that gave a consent: what is sent to the client, or
    nothing when the answer to it does not render. *)
Definition consented (r : result ConsentPage.RouteError ConsentPage.Response) :
    option (option CallbackDestination.Response) :=
  match r with
  | Ok (ConsentPage.Callback resp) => Some (Some resp)
  | Err (ConsentPage.CallbackFailed _) => Some None
  | _ => None
  end.

(** The errors of the parts that come before the answer to the client. *)
Definition not_callback (e : ConsentPage.RouteError) : Prop :=
  match e with ConsentPage.CallbackFailed _ => False | _ => True end.

Lemma not_callback_consented r sent :
  consented r = Some sent → ∀ e, r = Err e → ¬ not_callback e.
Proof. by intros H e -> Hn; destruct e. Qed.

(** The answer to the client. *)
Lemma callback_answer dest params w r w' :
  (do c <- mmap_err ConsentPage.CallbackFailed (CallbackDestination.go (R := R) dest params);
   ret (ConsentPage.Callback c)) w = (r, w') →
  same_db w w' ∧ ∃ sent, consented r = Some sent ∧
    ∀ resp, sent = Some resp → resp = CallbackDestination.response dest params.
Proof.
  intros H. split; [eapply reads_run; [| |exact H]; keeps_tac|].
  unfold CallbackDestination.go, bind, mmap_err, render_answer, ret in H.
  destruct (w_render_faults w) as [|[] ?]; injection H as <- _; naive_solver.
Qed.

Lemma consent_post_commits ip ua jar csrf gid :
  commits_when (λ r, is_Some (consented r))
    (ConsentPage.consent_post_request (R := R) ip ua jar csrf gid).
Proof.
  unfold ConsentPage.consent_post_request, ConsentPage.post. commits_tac. intros w.
  match goal with |- is_Some (consented (?m ?w).1) => destruct (m w) as [r w'] eqn:H end.
  apply callback_answer in H as (_ & sent & H & _). by exists sent.
Qed.

(** What stands when a consent is given: the form is protected, the user is
    signed in, the grant is pending and the policy has nothing against it; the
    grant is fulfilled, nothing else is written, and its code goes to the
    redirect URI of the request, if the answer renders. *)
Record consent_given (d : Db) (jar : CookieJar) (ip : BoundActivityTracker) (ua : option string)
    (gid : Ulid) (t : DateTime) (d' : Db) (sent : option CallbackDestination.Response)
    (b : BrowserSession.t) (row : GrantLookup.t) (g : AuthorizationGrant.t)
    (client : Client.t) (id_token : option string) : Prop := {
  given_session : signed_in d (session_info jar) b;
  given_row : oauth2_authorization_grants d !! gid = Some row ∧
    AuthorizationGrantRepository.try_from row = Ok g;
  given_pending : GrantLookup.fulfilled_at row = None ∧ GrantLookup.exchanged_at row = None ∧
    GrantLookup.cancelled_at row = None;
  given_client : ∃ crow, oauth2_clients d !! GrantLookup.oauth2_client_id row = Some crow ∧
    ClientRepository.try_from crow = Ok client;
  given_policy : evaluate_authorization_grant (Some (BrowserSession.user b)) client
    (Some (session_counts d (BrowserSession.user b))) (AuthorizationGrant.scope g)
    AuthorizationCode ip ua = Some [];
  given_written : d' = set_rows (<[gid :=
      AuthorizationGrantRepository.with_fulfilled t (BrowserSession.id b) row]>
      (oauth2_authorization_grants d)) d;
  given_answer : ∃ dest,
    CallbackDestination.try_new (ResponseMode_from_str (GrantLookup.response_mode row))
      (AuthorizationGrant.redirect_uri g) (GrantLookup.state row) = Ok dest ∧
    ∀ resp, sent = Some resp → resp = CallbackDestination.response dest
      (CallbackDestination.response_params (GrantLookup.authorization_code row) id_token);
  given_id_token : is_Some id_token ↔ GrantLookup.response_type_id_token row = true;
}.

Lemma consent_require_inv {A} (o : option A) e w a w' :
  ConsentPage.require o e w = (Ok a, w') → o = Some a ∧ w' = w.
Proof. unfold ConsentPage.require, lift, ok_or. destruct o; naive_solver. Qed.

Lemma grant_row_pending r g :
  AuthorizationGrantRepository.try_from r = Ok g →
  AuthorizationGrantStage.is_pending (AuthorizationGrant.stage g) = true →
  GrantLookup.fulfilled_at r = None ∧ GrantLookup.exchanged_at r = None ∧
  GrantLookup.cancelled_at r = None.
Proof.
  intros (_ & _ & _ & Hs & _)%grant_of_row. unfold AuthorizationGrantRepository.stage_of in Hs.
  destruct (AuthorizationGrant.stage g); repeat case_match; naive_solver.
Qed.

Lemma grant_row_answer r g :
  AuthorizationGrantRepository.try_from r = Ok g →
  AuthorizationCode.code <$> AuthorizationGrant.code g = GrantLookup.authorization_code r ∧
  AuthorizationGrant.response_mode g = ResponseMode_from_str (GrantLookup.response_mode r) ∧
  AuthorizationGrant.state g = GrantLookup.state r ∧
  AuthorizationGrant.response_type_id_token g = GrantLookup.response_type_id_token r.
Proof.
  intros H. split.
  - apply grant_of_row in H as (_ & _ & _ & _ & p & _ & Hc).
    unfold AuthorizationGrantRepository.code_of in Hc.
    repeat case_match; simplify_eq; by destruct (AuthorizationGrant.code g); simplify_eq.
  - unfold AuthorizationGrantRepository.try_from in H.
    do 5 (apply rbind_Ok_inv in H as (? & _ & H)). by injection H as <-.
Qed.

(** Goes past a part of the consent, which cannot raise the error of its answer. *)
Ltac consent_step H a w1 Hm :=
  apply (bind_raises_inv not_callback) in H as (a & w1 & Hm & H);
    [|by raises_tac|by eapply not_callback_consented].

Lemma page_not_consented p w r w' :
  ConsentPage.page p w = (r, w') → (∀ c, p ≠ ConsentPage.Callback c) → consented r = None.
Proof.
  intros H Hp. unfold ConsentPage.page, bind, render_answer, ret in H.
  destruct (w_render_faults w) as [|[] ?]; injection H as <- _; try done;
    destruct p; try done; by destruct (Hp r).
Qed.

(** From the grant on: it is fulfilled, committed, and answered. *)
Lemma consent_fulfill_inv b client g row dest w r sent w' :
  consented r = Some sent → AuthorizationGrantRepository.try_from row = Ok g →
  oauth2_authorization_grants (w_txn w) !! AuthorizationGrant.id g = Some row →
  (do grant <- ConsentPage.repo (AuthorizationGrantRepository.fulfill b g);
   do id_token <-
     (if AuthorizationGrant.response_type_id_token grant
      then
        do last_authentication <-
          ConsentPage.repo (BrowserSessionRepository.get_last_authentication b);
        do t <- mmap_err ConsentPage.IdTokenError
          (generate_id_token client (Some grant) b None last_authentication);
        ret (Some t)
      else ret None);
   do! ConsentPage.repo save;
   do c <- mmap_err ConsentPage.CallbackFailed (CallbackDestination.go dest
     (CallbackDestination.response_params
        (AuthorizationCode.code <$> AuthorizationGrant.code grant) id_token));
   ret (ConsentPage.Callback c)) w = (r, w') →
  ∃ t id_token,
    w_committed w' = set_rows (<[AuthorizationGrant.id g :=
      AuthorizationGrantRepository.with_fulfilled t (BrowserSession.id b) row]>
      (oauth2_authorization_grants (w_txn w))) (w_txn w) ∧
    (∀ resp, sent = Some resp → resp = CallbackDestination.response dest
      (CallbackDestination.response_params (GrantLookup.authorization_code row) id_token)) ∧
    (is_Some id_token ↔ GrantLookup.response_type_id_token row = true).
Proof.
  intros Hs Hrg Hrow H. consent_step H g' w1 H1.
  apply mmap_err_Ok_inv, grant_fulfill_inv in H1 as (t & row' & Hrow' & Hg' & T1 & _).
  rewrite Hrow in Hrow'. injection Hrow' as <-.
  consent_step H idt w2 H2. consent_step H u3 w3 H3.
  apply mmap_err_Ok_inv, save_inv in H3 as [C3 _].
  apply callback_answer in H as [(_ & C4 & _) (sent' & Hs' & Hsent)]. rewrite Hs in Hs'.
  injection Hs' as <-. exists t, idt.
  destruct (grant_row_answer _ _ Hrg) as (Hcode & _ & _ & Hit).
  apply rbind_Ok_inv in Hg' as (st & _ & [= <-]). simpl in *. rewrite Hcode in Hsent.
  assert (w_txn w2 = w_txn w1) as T2
    by (assert (same_db w1 w2) as [? _] by (eapply reads_run; [| |exact H2]; keeps_tac); done).
  split_and!; [by rewrite C4, C3, T2, T1|done|]. rewrite <-Hit. clear -H2.
  destruct (AuthorizationGrant.response_type_id_token g).
  - apply bind_Ok_inv in H2 as (? & ? & _ & H2).
    by apply bind_Ok_inv in H2 as (? & ? & _ & [= <- _]).
  - injection H2 as <- _. split; [by intros []|done].
Qed.

Lemma consent_post_given ip ua jar csrf gid w r sent w' :
  integrity (w_committed w) → consented r = Some sent →
  ConsentPage.consent_post_request ip ua jar csrf gid w = (r, w') →
  (∃ n, form_protected jar csrf (w_clock w n)) ∧
  ∃ t b row g client id_token, consent_given (w_committed w) jar ip ua gid t (w_committed w') sent
    b row g client id_token.
Proof.
  intros Hint Hsent H. consent_step H u0 w0 H0.
  apply mmap_err_Ok_inv, from_pool_inv in H0 as [T0 [_ K0]].
  rewrite <-T0, <-K0 in *. clear T0 K0 w.
  consent_step H u1 w1 H1. apply mmap_err_Ok_inv, verify_form_inv in H1 as [D1 Hf].
  split; [done|]. clear Hf. same_txn D1.
  consent_step H loaded w2 Hl. apply mmap_err_Ok_inv in Hl.
  destruct loaded as [o|]; [|by rewrite (page_not_consented _ _ _ _ H) in Hsent].
  apply load_session_inv in Hl as [D2 Hb]; [|done]. same_txn D2.
  consent_step H u3 w3 D3. reads_txn D3.
  consent_step H og w4 H4. apply mmap_err_Ok_inv, grant_lookup_inv in H4 as [D4 Hg]. same_txn D4.
  consent_step H g w5 H5. apply consent_require_inv in H5 as [-> ->].
  destruct (Hg g eq_refl) as (row & Hrow & Hrg).
  consent_step H dest w6 H6. apply lift_inv in H6 as [Hdest%map_err_Ok ->].
  destruct o as [b|]; [|by injection H as <- _]. specialize (Hb b eq_refl).
  consent_step H u7 w7 D7. reads_txn D7.
  consent_step H oc w8 H8. apply mmap_err_Ok_inv, client_lookup_inv in H8 as [D8 Hc]. same_txn D8.
  consent_step H client w9 H9. apply consent_require_inv in H9 as [-> ->].
  destruct (AuthorizationGrantStage.is_pending _) eqn:Hp; [|by injection H as <- _]. simpl in H.
  consent_step H counts w10 H10. apply mmap_err_Ok_inv, session_counts_inv in H10 as [D10 ->].
  same_txn D10. consent_step H v w11 H11. apply consent_require_inv in H11 as [Hv ->].
  case_bool_decide as Hv0; [|by rewrite (page_not_consented _ _ _ _ H) in Hsent].
  subst v. simpl in H. destruct (grant_of_row _ _ Hrg) as (Hgid & Hcid & _).
  destruct (grant_row_answer _ _ Hrg) as (_ & Hmode & Hst & _).
  pose proof (grants_pkey _ Hint _ _ Hrow) as Hk. simpl in Hk.
  eapply consent_fulfill_inv in H as (t & idt & Hw & Hresp & Hidt); [|done..|by rewrite Hgid, Hk].
  exists t, b, row, g, client, idt. rewrite Hgid, Hk in Hw. rewrite Hcid in Hc.
  split; try done.
  - by eapply grant_row_pending.
  - by apply Hc.
  - exists dest. unfold CallbackDestination.of_grant in Hdest. by rewrite <-Hmode, <-Hst.
Qed.

(** C6: consent is given only with a form of the service, by a user who is
    signed in and neither locked nor deactivated, for a grant that is pending
    and that the policy accepts with the sessions the user has.  Then the grant
    is fulfilled by that session, nothing else is written, and its code, with
    an ID token if the request asked for one, goes to the redirect URI of the
    request.  All that stands already when the answer to the client does not
    render, which is the one error that follows the commit; any other error, and
    any other answer, commits nothing. *)
Theorem consent_protected ip ua jar csrf gid w r w' :
  integrity (w_committed w) →
  ConsentPage.consent_post_request ip ua jar csrf gid w = (r, w') →
  match consented r with
  | Some sent =>
      (∃ n, form_protected jar csrf (w_clock w n)) ∧
      ∃ t b row g client id_token, consent_given (w_committed w) jar ip ua gid t
        (w_committed w') sent b row g client id_token
  | None => w_committed w' = w_committed w
  end.
Proof.
  intros Hint H. destruct (consented r) as [sent|] eqn:Hr; [by eapply consent_post_given|].
  destruct (consent_post_commits ip ua jar csrf gid w) as [[Hc _]|[? Hs]]; rewrite H in *; [done|].
  simpl in Hs. congruence.
Qed.
End Consent.

(** ** The consent to a device *)

Section DeviceConsents.
Context {R : Type} `{!RngCore R} {rng_bytes : RngBytes R} {base64 : Base64}
  {ulid_text : UlidText} {url_lib : UrlLib} {jwks_json : JwksJson} {policy : Policy}
  {pg : PgCollation}.
Implicit Types w : World R.

(** The answers that end a decision of the user. *)
Definition is_decision (r : result DeviceConsent.InternalError DeviceConsent.Response) : Prop :=
  match r with
  | Ok (DeviceConsent.DevicePage _ _ _ _) | Ok (DeviceConsent.Deeplink _) => True
  | _ => False
  end.

(** What a decision writes: a pending grant is fulfilled when the user agrees
    and confirms the device, and rejected when the user refuses; one that is
    not pending stays as it is. *)
Definition device_decided (d : Db) (locale : string) (form : DeviceConsent.ConsentForm)
    (b : Ulid) (gid : Ulid) (row : OAuth2DeviceGrantLookup.t) (pending : bool) (t : DateTime)
    (d' : Db) : Prop :=
  let write row' :=
    d' = set_rows (<[gid := row']> (oauth2_device_code_grant d)) d in
  if pending then
    match DeviceConsent.action form with
    | DeviceConsent.Consent =>
        is_Some (DeviceConsent.confirm_device form) ∧
        write (DeviceCodeGrantRepository.with_fulfilled t b (Some locale) row)
    | DeviceConsent.Reject => write (DeviceCodeGrantRepository.with_rejected t b row)
    end
  else d' = d.

(** What stands when it is taken. *)
Record device_decision (d : Db) (jar : CookieJar) (ip : BoundActivityTracker)
    (ua : option string) (gid : Ulid) (t0 : DateTime) (b : BrowserSession.t)
    (row : OAuth2DeviceGrantLookup.t) (g : DeviceCodeGrant.t) (client : Client.t) : Prop := {
  decision_session : signed_in d (session_info jar) b;
  decision_row : oauth2_device_code_grant d !! gid = Some row ∧
    DeviceCodeGrantRepository.try_from row = Ok g;
  decision_expiry : t0 ≤ OAuth2DeviceGrantLookup.expires_at row;
  decision_client : ∃ crow,
    oauth2_clients d !! OAuth2DeviceGrantLookup.oauth2_client_id row = Some crow ∧
    ClientRepository.try_from crow = Ok client;
  decision_policy : evaluate_authorization_grant (Some (BrowserSession.user b)) client
    (Some (session_counts d (BrowserSession.user b))) (DeviceCodeGrant.scope g)
    DeviceCode ip ua = Some [];
}.

Lemma device_require_inv {A} (o : option A) e w a w' :
  DeviceConsent.require o e w = (Ok a, w') → o = Some a ∧ w' = w.
Proof. unfold DeviceConsent.require, lift, ok_or. destruct o; naive_solver. Qed.

Lemma load_grant_inv ip b gid w g client counts w' :
  integrity (w_txn w) →
  DeviceConsent.load_grant ip b gid w = (Ok (g, client, counts), w') →
  same_db w w' ∧ counts = session_counts (w_txn w) (BrowserSession.user b) ∧
  ∃ n row, oauth2_device_code_grant (w_txn w) !! gid = Some row ∧
    DeviceCodeGrantRepository.try_from row = Ok g ∧ DeviceCodeGrant.id g = gid ∧
    w_clock w n ≤ OAuth2DeviceGrantLookup.expires_at row ∧
    ∃ crow,
      oauth2_clients (w_txn w) !! OAuth2DeviceGrantLookup.oauth2_client_id row = Some crow ∧
      ClientRepository.try_from crow = Ok client.
Proof.
  intros Hint H. pose proof H as D. split; [eapply reads_run; [| |exact D]; keeps_tac|]. clear D.
  apply bind_Ok_inv in H as (? & w1 & D1 & H).
  assert (same_db w w1) as (T1 & _ & K1) by (eapply reads_run; [| |exact D1]; keeps_tac).
  rewrite <-T1, <-K1 in *. clear D1 T1 K1.
  apply bind_Ok_inv in H as (o & w2 & [(T2 & _ & K2) Hg]%mmap_err_Ok_inv%device_lookup_inv & H).
  rewrite <-T2, <-K2 in *. clear T2 K2.
  apply bind_Ok_inv in H as (g' & ? & [-> ->]%device_require_inv & H).
  destruct (Hg g' eq_refl) as (row & Hrow & Hrg).
  apply bind_Ok_inv in H as (t & w3 & [-> (T3 & _)]%now_inv & H). rewrite <-T3 in *. clear T3.
  destruct (Z.ltb_spec (DeviceCodeGrant.expires_at g') (w_clock w2 (w_ticks w2))) as [|Hex]; [done|].
  apply bind_Ok_inv in H as (oc & w4 & [[T4 _] Hc]%mmap_err_Ok_inv%client_lookup_inv & H).
  rewrite <-T4 in *. apply bind_Ok_inv in H as (c & ? & [-> ->]%device_require_inv & H).
  apply bind_Ok_inv in H as (? & w5 & [_ ->]%mmap_err_Ok_inv%session_counts_inv & [= <- <- <- _]).
  destruct (device_of_row _ _ Hrg) as (Hid & Hcid & He & _). split; [done|].
  exists (w_ticks w2), row. rewrite He in Hex. rewrite Hcid in Hc.
  pose proof (device_grants_pkey _ Hint _ _ Hrow) as Hk. simpl in Hk.
  split_and!; [done|done|by rewrite Hid|done|by apply Hc].
Qed.

Lemma decide_grant_inv locale form b g w g' w' row :
  oauth2_device_code_grant (w_txn w) !! DeviceCodeGrant.id g = Some row →
  DeviceConsent.decide_grant locale form b g w = (Ok g', w') →
  ∃ t, device_decided (w_txn w) locale form (BrowserSession.id b) (DeviceCodeGrant.id g) row
    (DeviceCodeGrantState.is_pending (DeviceCodeGrant.state g)) t (w_txn w').
Proof.
  intros Hrow H. unfold DeviceConsent.decide_grant, device_decided in *.
  destruct (DeviceCodeGrantState.is_pending _); [|injection H as <- <-; by exists 0].
  destruct (DeviceConsent.action form).
  - destruct (DeviceConsent.confirm_device form); [|done].
    apply mmap_err_Ok_inv, device_fulfill_inv in H as (t & r & Hr & Hf & -> & _).
    exists t. split; [done|]. apply device_transition_id in Hf as [_ ->]. simpl in *. congruence.
  - apply mmap_err_Ok_inv, device_reject_inv in H as (t & r & Hr & Hf & -> & _).
    exists t. simpl in *. congruence.
Qed.

Lemma device_page_inv p w r w' :
  DeviceConsent.page p w = (r, w') →
  same_committed w w' ∧ (r = Ok p ∨ r = Err DeviceConsent.TemplateError).
Proof.
  intros H. split; [eapply keeps_run; [|exact H]; keeps_tac|].
  unfold DeviceConsent.page in H. pose proof (render_answer_result DeviceConsent.TemplateError p w) as Hr.
  rewrite H in Hr. exact Hr.
Qed.

Lemma err_not_decision r : is_ok r = false → ¬ is_decision r.
Proof. destruct r; [done|by intros _ []]. Qed.

(** Goes past a part of the request; [K] says that nothing was committed so far. *)
Ltac device_step H K a w1 Hm :=
  let Hs := fresh in
  apply commit_bind_err_inv in H as [[Hs ?]|(a & w1 & Hm & Hs & H)]; [| |by keeps_tac];
    [left; split; [exact (proj1 (transitivity K Hs))|by apply err_not_decision]|];
  apply (transitivity K) in Hs; clear K; rename Hs into K.

(** From the decision on: it is taken, committed, and answered. *)
Lemma device_decide_inv locale form providers b client g row w r w' :
  oauth2_device_code_grant (w_txn w) !! DeviceCodeGrant.id g = Some row →
  (do grant <- DeviceConsent.decide_grant locale form b g;
   do redirect_url <- DeviceConsent.redirect_url form grant providers;
   do email <- ConsentPage.fetch_user_email (BrowserSession.user b);
   do! DeviceConsent.repo save;
   match redirect_url with
   | Some deeplink => ret (DeviceConsent.Deeplink deeplink)
   | None => DeviceConsent.page (DeviceConsent.DevicePage grant client b email)
   end) w = (r, w') →
  (w_committed w' = w_committed w ∧ ¬ is_decision r) ∨
  (is_decision r ∨ r = Err DeviceConsent.TemplateError) ∧
  ∃ t, device_decided (w_txn w) locale form (BrowserSession.id b) (DeviceCodeGrant.id g) row
    (DeviceCodeGrantState.is_pending (DeviceCodeGrant.state g)) t (w_committed w').
Proof.
  intros Hrow H. assert (same_committed w w) as K by done.
  device_step H K g' w1 Hd. apply decide_grant_inv with (row := row) in Hd as [t Hd]; [|done].
  device_step H K url w2 D2. reads_txn D2. device_step H K email w3 D3. reads_txn D3.
  unfold bind, DeviceConsent.repo, mmap_err in H.
  destruct (save_cases w3) as [(w4 & Hs & Hc)|(w4 & Hs & Hc)]; rewrite Hs in H; simpl in H.
  - right. destruct url; [injection H as <- <-; split; [by left|]; exists t; simpl|].
    + by rewrite Hc.
    + apply device_page_inv in H as [[C5 _] Hr]. split.
      * destruct Hr as [->| ->]; [by left|by right].
      * exists t. by rewrite C5, Hc.
  - left. injection H as <- <-. split; [|by intros []]. rewrite Hc. apply K.
Qed.

(** C30: a device is granted access, or refused, only with a form of the
    service, by a user who is signed in and neither locked nor deactivated,
    while the code of the device has not expired, and if the policy accepts it
    with the sessions the user has.  Access is granted only when the user
    agrees and confirms the device, and only for a grant that is pending: one
    that was decided stays as it was.  The decision stands when the page that
    confirms it does not render, which is the one error that follows the
    commit; any other answer, and any other error, commits nothing. *)
Theorem device_consent_protected ip cfg locale providers ua jar csrf form gid w r w' :
  integrity (w_committed w) →
  DeviceConsent.device_consent_request ip cfg locale providers ua jar csrf form gid w = (r, w') →
  w_committed w' = w_committed w ∧ ¬ is_decision r ∨
  device_code_grant_enabled cfg = true ∧ (∃ n, form_protected jar csrf (w_clock w n)) ∧
  (is_decision r ∨ r = Err DeviceConsent.TemplateError) ∧
  ∃ n t b row g client,
    device_decision (w_committed w) jar ip ua gid (w_clock w n) b row g client ∧
    device_decided (w_committed w) locale form (BrowserSession.id b) gid row
      (DeviceCodeGrantState.is_pending (DeviceCodeGrant.state g)) t (w_committed w').
Proof.
  intros Hint H. assert (same_committed w w) as K by done.
  device_step H K u0 w0 H0. apply mmap_err_Ok_inv, from_pool_inv in H0 as [T0 _].
  rewrite <-T0 in Hint.
  device_step H K u1 w1 Hen. unfold DeviceConsent.enabled in Hen.
  destruct (device_code_grant_enabled cfg); [|done]. injection Hen as _ <-.
  device_step H K u2 w2 H2. apply mmap_err_Ok_inv, verify_form_inv in H2 as [(T2 & _ & K2) Hf].
  rewrite <-K2, (proj2 K) in Hf. rewrite <-T2 in T0, Hint. clear T2 K2.
  device_step H K loaded w3 Hl. apply mmap_err_Ok_inv in Hl.
  destruct loaded as [o|].
  2: { apply device_page_inv in H as [C [->| ->]]; left; split; [apply (transitivity K C)| |apply (transitivity K C)|]; by intros []. }
  apply load_session_inv in Hl as [(T3 & _) Hb]; [|done]. rewrite T0 in Hb. rewrite <-T3 in T0, Hint.
  device_step H K u4 w4 D4. reads_txn D4.
  destruct o as [b|]; [|left; injection H as <- <-; split; [apply K|by intros []]].
  pose proof (proj2 K) as Hclock.
  device_step H K x w5 Hg. destruct x as [[g client] counts].
  apply load_grant_inv in Hg as ([T5 _] & -> & n & row & Hrow & Hrg & Hgid & Hex & Hc); [|done].
  rewrite T0 in Hrow, Hc, T5. rewrite Hclock in Hex.
  device_step H K v w6 Hv. apply device_require_inv in Hv as [Hv ->].
  case_bool_decide as Hv0; simpl in H.
  2: { device_step H K c w7 D7. apply device_page_inv in H as [C [->| ->]]; left;
       (split; [apply (transitivity K C)|by intros []]). }
  rewrite <-T5, <-Hgid in Hrow. apply device_decide_inv with (row := row) in H
    as [[C Hn]|(Hr & t & Hd)]; [left; split; [rewrite C; apply K|done]| |done].
  right. split; [done|]. split; [done|]. split; [done|]. rewrite T5, Hgid in Hrow, Hd. subst v.
  exists n, t, b, row, g, client. split; [|done]. split; try done; [by apply Hb|by rewrite <-T0].
Qed.
End DeviceConsents.

(** ** The authorization request *)

Section AuthorizationRequests.
Context {R : Type} `{!RngCore R, !RngLaws R} {ulid_text : UlidText} {url_lib : UrlLib}
  {jwks_json : JwksJson} {url_edit : UrlEdit} {url_encoded : UrlEncoded}.
Implicit Types w : World R.

(** A redirect URI the client registered; a loopback one may have any port. *)
Definition registered_uri (client : Client.t) (uri : Url) : Prop :=
  uri ∈ Client.redirect_uris client ∨
  (∃ h, url_host_str uri = Some h ∧ h ∈ LOCAL_HOSTS) ∧
  ∃ u, url_without_port uri = Some u ∧ u ∈ Client.redirect_uris client.

Lemma resolve_redirect_uri_registered client o uri :
  resolve_redirect_uri client o = Ok uri →
  registered_uri client uri ∧ ∀ u, o = Some u → uri = u.
Proof.
  unfold resolve_redirect_uri, registered_uri.
  destruct (Client.redirect_uris client) as [|u1 us]; [done|].
  destruct o as [u|].
  - intros H. assert (uri_matches_one_of u (u1 :: us) = true ∧ u = uri) as [Hm <-]
      by (destruct us; destruct (uri_matches_one_of u _); by simplify_eq).
    split; [|by intros ? [= <-]]. unfold uri_matches_one_of in Hm.
    apply orb_true_iff in Hm as [Hm|Hm%bool_decide_eq_true]; [right|by left].
    case_bool_decide as Hh; [|done]. destruct (url_without_port u) as [u'|]; [|done].
    apply bool_decide_eq_true in Hm. split; [|by exists u'].
    destruct (url_host_str u) as [h|]; [by exists h|]. exfalso. simpl in Hh.
    repeat (apply elem_of_cons in Hh as [?|Hh]; [done|]). by apply elem_of_nil in Hh.
  - destruct us; intros [= <-]. split; [|done]. left. by left.
Qed.

Lemma stored_client_grant_types row c :
  ClientRepository.try_from row = Ok c →
  Client.grant_types c = ClientRepository.grant_types_of row ∧
  Client.has_grant_type c Implicit = false.
Proof.
  unfold ClientRepository.try_from. intros H.
  do 7 (apply rbind_Ok_inv in H as (? & _ & H)). injection H as <-. split; [done|].
  unfold Client.has_grant_type. simpl. unfold ClientRepository.grant_types_of.
  apply bool_decide_eq_false. by repeat case_match; set_solver.
Qed.

(** What a request that is accepted stores, for the redirect URI it resolved to. *)
Record grant_requested (d : Db) (params : Authorization.Params) (uri : Url) (mode : ResponseMode)
    (client : Client.t) (gid : Ulid) (row : GrantLookup.t) (d' : Db) : Prop := {
  requested_refusal : Authorization.refusal client params = None;
  requested_new : oauth2_authorization_grants d !! gid = None;
  requested_written :
    d' = set_rows (<[gid := row]> (oauth2_authorization_grants d)) d;
  requested_client : GrantLookup.oauth2_client_id row = Client.id client;
  requested_uri : GrantLookup.redirect_uri row = uri ∧
    GrantLookup.response_mode row = ResponseMode_to_string mode ∧
    GrantLookup.state row = Authorization.state (Authorization.auth params) ∧
    GrantLookup.nonce row = Authorization.nonce (Authorization.auth params) ∧
    GrantLookup.scope row = Scope_to_string (Authorization.scope (Authorization.auth params));
  requested_pending : GrantLookup.fulfilled_at row = None ∧ GrantLookup.exchanged_at row = None ∧
    GrantLookup.cancelled_at row = None ∧ GrantLookup.user_session_id row = None ∧
    GrantLookup.oauth2_session_id row = None;
  requested_types : GrantLookup.response_type_id_token row = false ∧
    GrantLookup.response_type_code row =
      Authorization.has_code (Authorization.response_type (Authorization.auth params));
  requested_code :
    if Authorization.has_code (Authorization.response_type (Authorization.auth params)) then
      Client.has_grant_type client AuthorizationCode = true ∧
      ∃ code p, GrantLookup.authorization_code row = Some code ∧ str_len code = 32%nat ∧
        all_chars ascii_alphanumeric code = true ∧ Authorization.pkce params = Some p ∧
        GrantLookup.code_challenge row = Some (challenge p) ∧
        GrantLookup.code_challenge_method row =
          Some (challenge_method_to_string (challenge_method p))
    else GrantLookup.authorization_code row = None ∧ GrantLookup.code_challenge row = None;
}.

Definition grant_of_response (r : Authorization.Response) : option Ulid :=
  match r with
  | Authorization.Callback _ => None
  | Authorization.ToRegister g | Authorization.ToLogin g _ | Authorization.ToConsent g => Some g
  end.

Lemma request_grant_commits ip locale info raw client uri mode dest params :
  commits_for (λ r, is_Some (grant_of_response r))
    (Authorization.request_grant (R := R) ip locale info raw client uri mode dest params).
Proof.
  unfold Authorization.request_grant. commits_tac. by case_match.
Qed.

Lemma refusal_None client params :
  Client.has_grant_type client Implicit = false → Authorization.refusal client params = None →
  let types := Authorization.response_type (Authorization.auth params) in
  Authorization.has_id_token types = false ∧
  if Authorization.has_code types
  then Client.has_grant_type client AuthorizationCode = true ∧ is_Some (Authorization.pkce params)
  else Authorization.pkce params = None.
Proof.
  unfold Authorization.refusal. intros -> H.
  destruct (Authorization.has_id_token _); [by repeat case_match|]. split; [done|].
  simpl in H. repeat (case_match; try done); simplify_eq.
  - destruct (Client.has_grant_type client AuthorizationCode); [|done].
    destruct (Authorization.pkce params); [done|]. by case_bool_decide.
  - destruct (Authorization.pkce params); [|done]. case_bool_decide; naive_solver.
Qed.

Lemma callback_error_inv dest e w r w' :
  Authorization.callback_error dest e w = (Ok r, w') →
  same_db w w' ∧ r = Authorization.Callback
    (CallbackDestination.response dest (CallbackDestination.error_params e)) ∧
  w_committed w' = w_committed w.
Proof.
  intros H. assert (same_db w w') as D by (eapply reads_run; [| |exact H]; keeps_tac).
  split; [done|]. split; [|by destruct D as (_ & ? & _)].
  apply bind_Ok_inv in H as (c & w1 & Hc%mmap_err_Ok_inv & [= <- _]).
  by apply bind_Ok_inv in Hc as (? & ? & _ & [= <- _]).
Qed.

(** The block that stores the grant. *)
Lemma request_grant_inv ip locale info raw client uri mode dest params w r w' :
  integrity (w_committed w) →
  Client.has_grant_type client Implicit = false → w_txn w = w_committed w →
  Authorization.request_grant ip locale info raw client uri mode dest params w = (Ok r, w') →
  match grant_of_response r with
  | Some gid =>
      (r = Authorization.ToConsent gid → ∃ b, signed_in (w_committed w) info b) ∧
      ∃ row, grant_requested (w_committed w) params uri mode client gid row (w_committed w')
  | None => ∃ e, Authorization.refusal client params = Some e ∧ r = Authorization.Callback
      (CallbackDestination.response dest (CallbackDestination.error_params e))
  end.
Proof.
  intros Hint Himp Htxn H. rewrite <-Htxn in Hint.
  apply bind_Ok_inv in H as (session & w1 & Hses%mmap_err_Ok_inv & H).
  apply load_active_inv in Hses as [D1 Hses]; [|done]. rewrite Htxn in Hint, Hses. same_txn D1.
  destruct (Authorization.refusal client params) as [e|] eqn:Href.
  { apply callback_error_inv in H as (_ & -> & _). by exists e. }
  destruct (refusal_None _ _ Himp Href) as [Hid Hcode].
  apply bind_Ok_inv in H as (code & w2 & Hc & H).
  assert (same_db w1 w2) as D2 by (eapply reads_run; [| |exact Hc]; keeps_tac). same_txn D2.
  apply bind_Ok_inv in H as (g & w3 & (gid & t & -> & T3 & Hnew & C3 & _)
    %mmap_err_Ok_inv%grant_add_inv & H). simpl in H.
  match type of T3 with _ = set_rows (<[_ := ?row]> _) _ => set (row0 := row) in * end.
  assert (∃ w4, w_committed w4 = w_txn w3 ∧ same_committed w4 w' ∧
    grant_of_response r = Some gid ∧ (r = Authorization.ToConsent gid → is_Some session))
    as (w4 & C4 & [C5 _] & -> & Hto).
  { destruct session; apply bind_Ok_inv in H as (? & w4 & [Hs _]%mmap_err_Ok_inv%save_inv & H);
      exists w4; (split; [done|]).
    - apply bind_Ok_inv in H as (? & w5 & H5 & [= <- <-]).
      split; [eapply keeps_run; [|exact H5]; keeps_tac|done].
    - injection H as <- <-. split; [done|by case_bool_decide]. }
  split; [intros Hr; destruct (Hto Hr) as [b ->]; by exists b; apply Hses|].
  exists row0. rewrite Htxn in *. unfold row0.
  destruct (Authorization.has_code _) eqn:Hhas.
  - destruct Hcode as [Hgt [p Hp]].
    apply bind_Ok_inv in Hc as (c & ? & [[rng ->] _]%with_rng_inv & [= <- _]).
    split; try (by rewrite C5, C4, T3); simpl; rewrite ?Hid, ?Hhas, ?Hp; try done.
    split; [done|].
    eexists _, p. split_and!; [done|apply sample_length|apply sample_chars|done..].
  - injection Hc as <- _. split; try (by rewrite C5, C4, T3); simpl; by rewrite ?Hid, ?Hhas.
Qed.

Lemma authorization_request_keeps ip locale info raw params :
  commits_for (λ r, is_Some (grant_of_response r))
    (Authorization.authorization_request (R := R) ip locale info raw params).
Proof.
  unfold Authorization.authorization_request, Authorization.get. commits_tac. intros w.
  assert (∀ x, keeps same_committed (Authorization.callback_error (R := R) a4 x)) as Hk
    by (intros; keeps_tac).
  destruct (request_grant_commits ip locale info raw a1 a2 a3 a4 params w) as [Hs|Hs];
    destruct (Authorization.request_grant _ _ _ _ _ _ _ _ _ w) as [[r|e] w'];
    [by left|left; transitivity w'; [done|apply Hk]|by right|by destruct Hs as (? & [=] & _)].
Qed.

(** C12: a request of a client is answered at a redirect URI that the client
    registered, or not at all.  A request that is refused sends an error
    there and stores nothing.  One that is accepted stores one new grant of
    the client, pending, and nothing else: for the redirect URI it was checked
    for, with a fresh code and the PKCE challenge of the request if it asks
    for a code, which the client must be allowed to do, and never for an ID
    token; the user is sent to consent only if signed in. *)
Theorem authorization_requested ip locale info raw params w r w' :
  integrity (w_committed w) →
  Authorization.authorization_request ip locale info raw params w = (r, w') →
  match r with
  | Err _ => w_committed w' = w_committed w
  | Ok resp => ∃ cid crow client uri mode dest,
      ulid_from_string (Authorization.client_id (Authorization.auth params)) = Some cid ∧
      oauth2_clients (w_committed w) !! cid = Some crow ∧
      ClientRepository.try_from crow = Ok client ∧ registered_uri client uri ∧
      (∀ u, Authorization.redirect_uri (Authorization.auth params) = Some u → uri = u) ∧
      CallbackDestination.try_new mode uri (Authorization.state (Authorization.auth params)) =
        Ok dest ∧
      match grant_of_response resp with
      | None => w_committed w' = w_committed w ∧ ∃ e, resp = Authorization.Callback
          (CallbackDestination.response dest (CallbackDestination.error_params e))
      | Some gid =>
          (resp = Authorization.ToConsent gid → ∃ b, signed_in (w_committed w) info b) ∧
          ∃ row, grant_requested (w_committed w) params uri mode client gid row (w_committed w')
      end
  end.
Proof.
  intros Hint H. pose proof (authorization_request_keeps ip locale info raw params w) as Hc.
  rewrite H in Hc. destruct r as [resp|e]; [|by destruct Hc as [[]|(? & [=] & _)]].
  apply bind_Ok_inv in H as (? & w0 & [T0 [C0 _]]%mmap_err_Ok_inv%from_pool_inv & H).
  assert (w_committed w' = w_committed w ∨ is_Some (grant_of_response resp)) as Hw.
  { destruct Hc as [[? _]|(? & [= <-] & ?)]; [by left|by right]. }
  rewrite <-C0 in *. clear Hc C0.
  apply bind_Ok_inv in H as (oc & w1 & [[T1 [C1 _]] Hf]%mmap_err_Ok_inv%client_find_inv & H).
  rewrite <-T1, <-C1 in *.
  apply bind_Ok_inv in H as (client & ? & [Hoc ->]%lift_inv & H).
  destruct oc as [c|]; [|done]. injection Hoc as ->.
  destruct (Hf c eq_refl) as (cid & crow & Hcid & Hcrow & Hcc).
  apply bind_Ok_inv in H as (uri & ? & [Huri%map_err_Ok ->]%lift_inv & H).
  apply bind_Ok_inv in H as (mode & ? & [Hmode ->]%lift_inv & H).
  apply bind_Ok_inv in H as (dest & ? & [Hdest%map_err_Ok ->]%lift_inv & H).
  apply resolve_redirect_uri_registered in Huri as [Hreg Hgiven].
  apply stored_client_grant_types in Hcc as Himp. destruct Himp as [_ Himp].
  exists cid, crow, c, uri, mode, dest. rewrite T0 in Hcrow. split_and!; try done.
  destruct (Authorization.request_grant _ _ _ _ _ _ _ _ _ w1) as [[r|e] w2] eqn:Hreq;
    [injection H as <- <-|apply callback_error_inv in H as (_ & -> & _); simpl in *;
      split; [by destruct Hw as [|[]]|by eexists]].
  apply request_grant_inv in Hreq; [|done..].
  destruct (grant_of_response r) eqn:Hr; [done|]. split; [by destruct Hw as [|[]]|].
  destruct Hreq as (e & _ & ->). by exists e.
Qed.
End AuthorizationRequests.

(** ** Examples *)
Module ConsentExample.
Import Scenario.

#[local] Instance plain_base64 : Base64 := {
  base64url_encode s := s;
  base64url_decode s := Some s;
}.
#[local] Instance plain_base64_round_trip : Base64RoundTrip.
Proof. done. Qed.

Definition app : Url := "https://app.example.com/".
Definition app_client : OAuth2ClientLookup.t :=
  OAuth2ClientLookup.mk 1 None None None [app] true true false true None None None None None
    None None None None (Some "none") None None false.
Definition pending_grant : GrantLookup.t :=
  GrantLookup.mk 4 0 None None None scope_text (Some "xyz") None app "query" true false
    (Some "code") (Some verifier) (Some "plain") None None None 1 None None.
Definition device : OAuth2DeviceGrantLookup.t :=
  OAuth2DeviceGrantLookup.mk 5 1 scope_text "device-code" "ABCDEF" 0 1000000000 None None None
    None None None None None.
Definition consent_db : Db :=
  mkDb {[1 := app_client]} {[2 := user]} {[3 := browser]} ∅ ∅ ∅ ∅ {[4 := pending_grant]}
    {[5 := device]} ∅ ∅ ∅ None ∅ ∅ ∅ ∅ ∅ ∅ ∅ ∅ ∅ no_accounts.
Definition consent_world : World Z := world consent_db 0 0.

Lemma integrity_consent_db : integrity consent_db.
Proof.
  split; intros k *; simpl; intros;
    repeat match goal with
      | H : {[_ := _]} !! _ = Some _ |- _ => apply lookup_singleton_Some in H as [<- <-]
      | H : ∅ !! _ = Some _ |- _ => by rewrite lookup_empty in H
      end; try done; simplify_eq/=; vm_compute; eauto.
Qed.

Definition jar : CookieJar :=
  mkCookieJar (Ok (Some (CsrfToken.mk 100000000 "token"))) (Graphql.mkSessionInfo (Some 3) None).

Definition consent_run := ConsentPage.consent_post_request None None jar "token" 4 consent_world.
Definition redirected : CallbackDestination.Response :=
  CallbackDestination.RedirectTo "https://app.example.com/?state=xyz&code=code&#".

Example consent_answer : consent_run.1 = Ok (ConsentPage.Callback redirected).
Proof. vm_compute. reflexivity. Qed.

Lemma consent_protected_witness :
  (∃ n, form_protected jar "token" (w_clock consent_world n)) ∧
  ∃ t b row g client id_token, consent_given consent_db jar None None 4 t
    (w_committed consent_run.2) (Some redirected) b row g client id_token.
Proof.
  refine (consent_protected None None jar "token" 4 consent_world
    (Ok (ConsentPage.Callback redirected)) consent_run.2 _ _).
  - apply integrity_consent_db.
  - unfold consent_run. apply fst_run. vm_compute. reflexivity.
Defined.

Definition yes : DeviceConsent.ConsentForm :=
  DeviceConsent.mkConsentForm DeviceConsent.Consent (Some "on").
Definition device_run := DeviceConsent.device_consent_request None config "en" (Ok []) None jar
  "token" yes 5 consent_world.

Example device_granted :
  OAuth2DeviceGrantLookup.user_session_id <$>
    (oauth2_device_code_grant (w_committed device_run.2) !! 5) = Some (Some 3).
Proof. vm_compute. reflexivity. Qed.

Lemma device_consent_protected_witness :
  w_committed device_run.2 = consent_db ∧ ¬ is_decision device_run.1 ∨
  device_code_grant_enabled config = true ∧
  (∃ n, form_protected jar "token" (w_clock consent_world n)) ∧
  (is_decision device_run.1 ∨ device_run.1 = Err DeviceConsent.TemplateError) ∧
  ∃ n t b row g client,
    device_decision consent_db jar None None 5 (clock n) b row g client ∧
    device_decided consent_db "en" yes (BrowserSession.id b) 5 row
      (DeviceCodeGrantState.is_pending (DeviceCodeGrant.state g)) t (w_committed device_run.2).
Proof.
  apply (device_consent_protected None config "en" (Ok []) None jar "token" yes 5 consent_world
    device_run.1 device_run.2).
  - apply integrity_consent_db.
  - unfold device_run. by destruct (DeviceConsent.device_consent_request _ _ _ _ _ _ _ _ _ _).
Defined.

Definition app_request : Authorization.Params :=
  Authorization.mkParams
    (Authorization.mkAuthorizationRequest [Authorization.Code] (ulid_to_string 1) (Some app)
       [scope_text] (Some "xyz") None None None None None None None)
    (Some (mkPkce Plain verifier)).
Definition request_run := Authorization.authorization_request None "en"
  (Graphql.mkSessionInfo (Some 3) None) ∅ app_request consent_world.
Definition request_answer : Authorization.Response :=
  match request_run.1 with Ok r => r | Err _ => Authorization.ToRegister 0 end.

Example request_to_consent : ∃ gid, request_answer = Authorization.ToConsent gid.
Proof. vm_compute. eauto. Qed.

Lemma authorization_requested_witness :
  ∃ cid crow client uri mode dest,
    ulid_from_string (ulid_to_string 1) = Some cid ∧
    oauth2_clients consent_db !! cid = Some crow ∧
    ClientRepository.try_from crow = Ok client ∧ registered_uri client uri ∧
    (∀ u, Some app = Some u → uri = u) ∧
    CallbackDestination.try_new mode uri (Some "xyz") = Ok dest ∧
    match grant_of_response request_answer with
    | None => w_committed request_run.2 = consent_db ∧ ∃ e, request_answer =
        Authorization.Callback
          (CallbackDestination.response dest (CallbackDestination.error_params e))
    | Some gid =>
        (request_answer = Authorization.ToConsent gid →
          ∃ b, signed_in consent_db (Graphql.mkSessionInfo (Some 3) None) b) ∧
        ∃ row, grant_requested consent_db app_request uri mode client gid row
          (w_committed request_run.2)
    end.
Proof.
  apply (authorization_requested None "en" (Graphql.mkSessionInfo (Some 3) None) ∅ app_request
    consent_world (Ok request_answer) request_run.2).
  - apply integrity_consent_db.
  - unfold request_run. apply fst_run. vm_compute. reflexivity.
Defined.

Lemma form_roundtrip_witness :
  ∃ c, (csrf_token (E := unit) jar consent_world).1 = Ok c ∧
    (verify_form (mkCookieJar (Ok (Some c)) (session_info jar)) (CsrfToken.form_value c)
       consent_world).1 = Ok tt.
Proof.
  eexists. split; [vm_compute; reflexivity|].
  refine (proj1 (proj2 (proj2 (form_roundtrip (E := unit) jar (session_info jar) "" consent_world _
    (csrf_token (E := unit) jar consent_world).2 consent_world _))) _).
  - apply fst_run. vm_compute. reflexivity.
  - vm_compute. reflexivity.
Defined.
End ConsentExample.
