(* ===== verification/RegistrationFacts.v ===== *)
(** * Correctness of the registration of clients *)

From stdpp Require Import base tactics list strings gmap sorting.
From Stdlib Require Import ZArith Lia.
From S2P Require Import Prelude Text Scope Formats Externals TokenFormat DataModel Storage UserRepo ClientAuth TokenEndpoint CompatEndpoints Authorization ClientMetadata Passwords Registration RepoFacts Integrity Scenario TokenFacts.
#[local] Open Scope Z_scope.

#[export] Hint Unfold ClientWrites.find_by_metadata_digest ClientWrites.add
  ClientWrites.upsert_static ClientWrites.all_static Registration.repo Registration.require
  Registration.client_secret_of Registration.client_of Registration.post : mas_ops.

(** ** What is validated *)

Section Metadata.
Context {url_edit : UrlEdit} {url_split : UrlSplit}.
Import ClientMetadata.

Definition https (o : option Url) : Prop :=
  ∀ u, o = Some u → url_scheme (url_parts u) = "https".
Definition encryptable (alg enc : option string) : Prop := is_Some enc → is_Some alg.

(** What the metadata say the client uses: the grant types, the code grant when
    they say nothing; the response types, [code] when they say nothing and a
    grant that redirects is used. *)
Definition uses_grant (m : ClientMetadata.t) (g : GrantType) : Prop :=
  match grant_types m with
  | Some gs => g ∈ gs
  | None => g = AuthorizationCode
  end.
Definition uses_type (m : ClientMetadata.t) (r : Authorization.ResponseType) : Prop :=
  match response_types m with
  | Some types => r ∈ types
  | None => r = [Authorization.Code] ∧ (uses_grant m AuthorizationCode ∨ uses_grant m Implicit)
  end.

(** The grants a response type needs (OpenID Connect Dynamic Client Registration
    1.0, "grant_types"): the code grant for a code, the implicit grant for a
    token or an ID token, both for a combination. *)
Definition granted (m : ClientMetadata.t) (r : Authorization.ResponseType) : Prop :=
  (Authorization.Code ∈ r → uses_grant m AuthorizationCode) ∧
  (Authorization.IdToken ∈ r ∨ Authorization.Token ∈ r → uses_grant m Implicit).

Definition jwt_method (o : option OAuthClientAuthenticationMethod) : Prop :=
  o = Some PrivateKeyJwt ∨ o = Some ClientSecretJwt.

(** Metadata of OpenID Connect Dynamic Client Registration 1.0. *)
Record valid_metadata (m : ClientMetadata.t) : Prop := {
  vm_uris : ∀ us u, redirect_uris m = Some us → u ∈ us → url_fragment u = None;
  vm_uris_given : redirect_uris m = None →
    ¬ uses_grant m AuthorizationCode ∧ ¬ uses_grant m Implicit;
  vm_response_types : ∀ r, uses_type m r → granted m r;
  vm_jwks : ¬ (is_Some (jwks_uri m) ∧ is_Some (jwks m));
  vm_sector : https (sector_identifier_uri m);
  vm_private_key : token_endpoint_auth_method m = Some PrivateKeyJwt →
    is_Some (jwks_uri m) ∨ is_Some (jwks m);
  vm_signing_alg : token_endpoint_auth_signing_alg m ≠ Some "none";
  vm_signing_alg_given : jwt_method (token_endpoint_auth_method m) →
    is_Some (token_endpoint_auth_signing_alg m);
  vm_id_token_alg : id_token_signed_response_alg m = Some "none" →
    ∀ r, uses_type m r → Authorization.IdToken ∉ r;
  vm_id_token : encryptable (id_token_encrypted_response_alg m) (id_token_encrypted_response_enc m);
  vm_userinfo : encryptable (userinfo_encrypted_response_alg m) (userinfo_encrypted_response_enc m);
  vm_request_object :
    encryptable (request_object_encryption_alg m) (request_object_encryption_enc m);
  vm_introspection : encryptable (introspection_encrypted_response_alg m)
    (introspection_encrypted_response_enc m);
  vm_login : https (initiate_login_uri m);
}.

(** The fault an error names is one the metadata have. *)
Definition unencryptable (alg enc : option string) : Prop := alg = None ∧ is_Some enc.
Definition rejected (m : ClientMetadata.t) (e : VerificationError) : Prop :=
  match e with
  | MissingRedirectUris =>
      redirect_uris m = None ∧ (uses_grant m AuthorizationCode ∨ uses_grant m Implicit)
  | RedirectUriWithFragment u =>
      ∃ us, redirect_uris m = Some us ∧ u ∈ us ∧ is_Some (url_fragment u)
  | IncoherentResponseType r => uses_type m r ∧ ¬ granted m r
  | JwksUriAndJwksMutuallyExclusive => is_Some (jwks_uri m) ∧ is_Some (jwks m)
  | UrlNonHttpsScheme f u =>
      (f = "sector_identifier_uri" ∧ sector_identifier_uri m = Some u ∨
       f = "initiate_login_uri" ∧ initiate_login_uri m = Some u) ∧
      url_scheme (url_parts u) ≠ "https"
  | MissingJwksForTokenMethod =>
      token_endpoint_auth_method m = Some PrivateKeyJwt ∧ jwks_uri m = None ∧ jwks m = None
  | UnauthorizedSigningAlgNone f =>
      f = "token_endpoint" ∧ token_endpoint_auth_signing_alg m = Some "none"
  | MissingAuthSigningAlg f =>
      f = "token_endpoint" ∧ jwt_method (token_endpoint_auth_method m) ∧
      token_endpoint_auth_signing_alg m = None
  | IdTokenSigningAlgNone => id_token_signed_response_alg m = Some "none" ∧
      ∃ r, uses_type m r ∧ Authorization.IdToken ∈ r
  | MissingEncryptionAlg f =>
      f = "id_token" ∧ unencryptable (id_token_encrypted_response_alg m)
                         (id_token_encrypted_response_enc m) ∨
      f = "userinfo" ∧ unencryptable (userinfo_encrypted_response_alg m)
                         (userinfo_encrypted_response_enc m) ∨
      f = "request_object" ∧ unencryptable (request_object_encryption_alg m)
                               (request_object_encryption_enc m) ∨
      f = "introspection" ∧ unencryptable (introspection_encrypted_response_alg m)
                              (introspection_encrypted_response_enc m)
  end.

(** The accessors of the code, in terms of what the metadata say. *)
Lemma has_uses g m : has g m = true ↔ uses_grant m g.
Proof.
  unfold has, uses_grant, get_grant_types, DEFAULT_GRANT_TYPES. rewrite bool_decide_eq_true.
  destruct (grant_types m); simpl; [done|]. by rewrite list_elem_of_singleton.
Qed.
#[local] Instance uses_grant_dec m g : Decision (uses_grant m g).
Proof. unfold uses_grant. destruct (grant_types m); apply _. Defined.

Lemma redirecting_uses m :
  has AuthorizationCode m || has Implicit m = true ↔
  uses_grant m AuthorizationCode ∨ uses_grant m Implicit.
Proof. by rewrite orb_true_iff, !has_uses. Qed.

Lemma type_uses r m : r ∈ response_types_or_code m ↔ uses_type m r.
Proof.
  unfold response_types_or_code, uses_type. destruct (response_types m); [done|].
  rewrite <-redirecting_uses. destruct (_ || _); set_solver.
Qed.

Lemma coherent_granted m r :
  coherent (has Implicit m) (has AuthorizationCode m) r = true ↔ granted m r.
Proof.
  unfold granted. rewrite <-!has_uses. unfold coherent, Authorization.has_code,
    Authorization.has_id_token, Authorization.has_token.
  destruct (has Implicit m), (has AuthorizationCode m);
    repeat case_bool_decide; simpl; naive_solver.
Qed.

Lemma method_Some m k :
  k ≠ ClientSecretBasic →
  get_token_endpoint_auth_method m = k ↔ token_endpoint_auth_method m = Some k.
Proof.
  intros Hk. unfold get_token_endpoint_auth_method, DEFAULT_TOKEN_AUTH_METHOD.
  destruct (token_endpoint_auth_method m); simpl; naive_solver.
Qed.
Lemma jwt_method_elem m :
  get_token_endpoint_auth_method m ∈ [PrivateKeyJwt; ClientSecretJwt] ↔
  jwt_method (token_endpoint_auth_method m).
Proof. unfold jwt_method. rewrite <-!method_Some by done. set_solver. Qed.
Lemma alg_none_Some m :
  get_id_token_signed_response_alg m = "none" ↔ id_token_signed_response_alg m = Some "none".
Proof.
  unfold get_id_token_signed_response_alg, DEFAULT_SIGNING_ALGORITHM.
  destruct (id_token_signed_response_alg m); simpl; naive_solver.
Qed.

(** A check refuses a fault, and nothing else. *)
Definition decides (r : result VerificationError unit) (good : Prop)
    (fault : VerificationError → Prop) : Prop :=
  match r with Ok _ => good | Err e => fault e ∧ ¬ good end.

Lemma ensure_decides (b : bool) e (good : Prop) (fault : VerificationError → Prop) :
  (b = true → good) → (b = false → fault e ∧ ¬ good) → decides (ensure b e) good fault.
Proof. by destruct b; simpl; auto. Qed.

Lemma https_decides m f o :
  f = "sector_identifier_uri" ∧ sector_identifier_uri m = o ∨
  f = "initiate_login_uri" ∧ initiate_login_uri m = o →
  decides (check_https f o) (https o) (rejected m).
Proof.
  unfold https. destruct o as [u|]; [|by intros]. intros Hf. simpl.
  apply ensure_decides; rewrite ?bool_decide_eq_true, ?bool_decide_eq_false.
  - by intros ? ? [= <-].
  - intros Hs. simpl. split; [done|]. naive_solver.
Qed.

Lemma encryption_decides m f alg enc :
  (unencryptable alg enc → rejected m (MissingEncryptionAlg f)) →
  decides (check_encryption f alg enc) (encryptable alg enc) (rejected m).
Proof.
  intros Hf. apply ensure_decides;
    rewrite ?orb_true_iff, ?orb_false_iff, ?bool_decide_eq_true, ?bool_decide_eq_false;
    unfold encryptable, unencryptable in *.
  - intros [->|H]; [by intros []|done].
  - intros [He Ha]. rewrite <-eq_None_not_Some in Ha. rewrite not_eq_None_Some in He.
    split; [by apply Hf|]. intros H. specialize (H He). rewrite Ha in H. by destruct H.
Qed.

Lemma redirect_uris_decides m :
  decides (check_redirect_uris m)
    ((∀ us u, redirect_uris m = Some us → u ∈ us → url_fragment u = None) ∧
     (redirect_uris m = None → ¬ uses_grant m AuthorizationCode ∧ ¬ uses_grant m Implicit))
    (rejected m).
Proof.
  unfold check_redirect_uris. destruct (redirect_uris m) as [us|] eqn:Hus.
  - destruct (list_find _ us) as [[i u]|] eqn:Hf; simpl.
    + apply list_find_Some in Hf as (Hi%list_elem_of_lookup_2 & Hu & _).
      split; [naive_solver|]. intros [H _]. rewrite (H us u) in Hu by done. by destruct Hu.
    + split; [|done]. intros us' u [= <-] Hu. apply list_find_None in Hf.
      rewrite Forall_forall in Hf. by apply eq_None_not_Some, Hf.
  - apply ensure_decides; rewrite ?negb_true_iff, ?negb_false_iff, ?redirecting_uses.
    + rewrite <-not_true_iff_false, redirecting_uses. naive_solver.
    + intros H. split; [by split|]. intros [_ Hn]. destruct (Hn eq_refl). tauto.
Qed.

Lemma response_types_decides m :
  decides (check_response_types m) (∀ r, uses_type m r → granted m r) (rejected m).
Proof.
  unfold check_response_types. destruct (list_find _ _) as [[i r]|] eqn:Hf; simpl.
  - apply list_find_Some in Hf as (Hi%list_elem_of_lookup_2 & Hr & _).
    apply type_uses in Hi. rewrite <-not_true_iff_false, coherent_granted in Hr. naive_solver.
  - intros r Hr%type_uses. apply list_find_None in Hf. rewrite Forall_forall in Hf.
    apply coherent_granted. by apply not_false_is_true, Hf.
Qed.

Lemma jwks_decides m :
  decides (ensure (negb (bool_decide (is_Some (jwks_uri m)) && bool_decide (is_Some (jwks m))))
             JwksUriAndJwksMutuallyExclusive)
    (¬ (is_Some (jwks_uri m) ∧ is_Some (jwks m))) (rejected m).
Proof.
  apply ensure_decides; rewrite ?negb_true_iff, ?negb_false_iff, ?andb_true_iff, ?andb_false_iff,
    ?bool_decide_eq_true, ?bool_decide_eq_false; simpl; naive_solver.
Qed.

Lemma private_key_decides m :
  decides (ensure (negb (bool_decide (get_token_endpoint_auth_method m = PrivateKeyJwt)
             && bool_decide (jwks_uri m = None) && bool_decide (jwks m = None)))
             MissingJwksForTokenMethod)
    (token_endpoint_auth_method m = Some PrivateKeyJwt → is_Some (jwks_uri m) ∨ is_Some (jwks m))
    (rejected m).
Proof.
  apply ensure_decides; rewrite ?negb_true_iff, ?negb_false_iff, ?andb_true_iff, ?andb_false_iff,
    ?bool_decide_eq_true, ?bool_decide_eq_false, method_Some by done; simpl;
    rewrite ?not_eq_None_Some; [naive_solver|].
  intros [[Hm Hu] Hj]. split; [done|]. rewrite Hu, Hj. intros H. by destruct (H Hm) as [[]|[]].
Qed.

Lemma signing_alg_decides m :
  decides (check_auth_signing_alg m)
    (token_endpoint_auth_signing_alg m ≠ Some "none" ∧
     (jwt_method (token_endpoint_auth_method m) → is_Some (token_endpoint_auth_signing_alg m)))
    (rejected m).
Proof.
  unfold check_auth_signing_alg. destruct (token_endpoint_auth_signing_alg m) as [alg|] eqn:Ha;
    apply ensure_decides; rewrite ?negb_true_iff, ?negb_false_iff, ?bool_decide_eq_true,
      ?bool_decide_eq_false, ?jwt_method_elem; simpl; rewrite ?Ha; [naive_solver..|].
  intros Hj. split; [done|]. intros [_ H]. by destruct (H Hj).
Qed.

Lemma id_token_alg_decides m :
  decides (ensure (negb (bool_decide (get_id_token_signed_response_alg m = "none")
             && existsb Authorization.has_id_token (response_types_or_code m)))
             IdTokenSigningAlgNone)
    (id_token_signed_response_alg m = Some "none" →
     ∀ r, uses_type m r → Authorization.IdToken ∉ r) (rejected m).
Proof.
  assert (existsb Authorization.has_id_token (response_types_or_code m) = true ↔
    ∃ r, uses_type m r ∧ Authorization.IdToken ∈ r) as He.
  { rewrite existsb_exists. setoid_rewrite <-list_elem_of_In. setoid_rewrite type_uses.
    unfold Authorization.has_id_token. by setoid_rewrite bool_decide_eq_true. }
  apply ensure_decides; rewrite ?negb_true_iff, ?negb_false_iff, ?andb_true_iff,
    ?bool_decide_eq_true, ?He, ?alg_none_Some; simpl; [|naive_solver].
  rewrite <-not_true_iff_false, andb_true_iff, bool_decide_eq_true, He, alg_none_Some. naive_solver.
Qed.

(** The checks in a row. *)
Lemma decides_then {A} (r : result VerificationError unit) (k : result VerificationError A)
    (good rest : Prop) (fault : VerificationError → Prop) :
  decides r good fault →
  match k with Ok _ => rest | Err e => fault e ∧ ¬ rest end →
  match (try _ <- r; k) with Ok _ => good ∧ rest | Err e => fault e ∧ ¬ (good ∧ rest) end.
Proof. destruct r as [[]|e]; simpl; [destruct k|]; naive_solver. Qed.

Lemma validate_same m m' : validate m = Ok m' → m' = m.
Proof.
  unfold validate. repeat (intros (? & _ & H)%rbind_Ok_inv; revert H). by intros [= <-].
Qed.

Lemma validate_decides m :
  match validate m with
  | Ok _ => valid_metadata m
  | Err e => rejected m e ∧ ¬ valid_metadata m
  end.
Proof.
  set (all := ((∀ us u, redirect_uris m = Some us → u ∈ us → url_fragment u = None) ∧
      (redirect_uris m = None → ¬ uses_grant m AuthorizationCode ∧ ¬ uses_grant m Implicit)) ∧
    (∀ r, uses_type m r → granted m r) ∧ ¬ (is_Some (jwks_uri m) ∧ is_Some (jwks m)) ∧
    https (sector_identifier_uri m) ∧
    (token_endpoint_auth_method m = Some PrivateKeyJwt → is_Some (jwks_uri m) ∨ is_Some (jwks m)) ∧
    (token_endpoint_auth_signing_alg m ≠ Some "none" ∧
     (jwt_method (token_endpoint_auth_method m) → is_Some (token_endpoint_auth_signing_alg m))) ∧
    (id_token_signed_response_alg m = Some "none" →
     ∀ r, uses_type m r → Authorization.IdToken ∉ r) ∧
    encryptable (id_token_encrypted_response_alg m) (id_token_encrypted_response_enc m) ∧
    encryptable (userinfo_encrypted_response_alg m) (userinfo_encrypted_response_enc m) ∧
    encryptable (request_object_encryption_alg m) (request_object_encryption_enc m) ∧
    https (initiate_login_uri m) ∧
    encryptable (introspection_encrypted_response_alg m)
      (introspection_encrypted_response_enc m) ∧ True).
  assert (all ↔ valid_metadata m) as Hall
    by (split; [intros ([? ?] & ? & ? & ? & ? & [? ?] & ?); destruct_and!; by split
               |intros []; unfold all; split_and!; done]).
  assert (match validate m with Ok _ => all | Err e => rejected m e ∧ ¬ all end) as H.
  { unfold validate, all.
    apply decides_then; [apply redirect_uris_decides|].
    apply decides_then; [apply response_types_decides|].
    apply decides_then; [apply jwks_decides|].
    apply decides_then; [apply https_decides; by left|].
    apply decides_then; [apply private_key_decides|].
    apply decides_then; [apply signing_alg_decides|].
    apply decides_then; [apply id_token_alg_decides|].
    do 3 (apply decides_then; [apply encryption_decides; simpl; by auto|]).
    apply decides_then; [apply https_decides; by right|].
    apply decides_then; [apply encryption_decides; simpl; by auto|done]. }
  destruct (validate m); by rewrite <-Hall.
Qed.

Lemma validate_Ok m m' : validate m = Ok m' ↔ m' = m ∧ valid_metadata m.
Proof.
  pose proof (validate_decides m) as H. split.
  - intros Hv. apply validate_same in Hv as Hm. by rewrite Hv in H.
  - intros [-> Hv]. destruct (validate m) as [m''|e] eqn:Hm; [|by destruct H].
    by apply validate_same in Hm as ->.
Qed.

(** ** The order of the lists *)

Lemma sort_elem {A} (compare : A → A → comparison) x l : x ∈ sort compare l ↔ x ∈ l.
Proof. unfold sort. by rewrite merge_sort_Permutation. Qed.

Lemma uses_grant_sorted m g : uses_grant (sorted m) g ↔ uses_grant m g.
Proof. unfold uses_grant. simpl. destruct (grant_types m); simpl; [apply sort_elem|done]. Qed.
Lemma uses_type_sorted m r : uses_type (sorted m) r ↔ uses_type m r.
Proof.
  pose proof (uses_grant_sorted m) as H. unfold uses_type.
  change (response_types (sorted m)) with (sort response_type_compare <$> response_types m).
  destruct (response_types m); [apply sort_elem|].
  split; intros [-> Hg]; (split; [done|]); [by rewrite <-!H|by rewrite !H].
Qed.
Lemma redirect_uris_sorted m us u :
  redirect_uris m = Some us →
  ∃ us', redirect_uris (sorted m) = Some us' ∧ (u ∈ us' ↔ u ∈ us).
Proof. intros H. simpl. rewrite H. eexists. split; [done|apply sort_elem]. Qed.

Lemma valid_sorted m : valid_metadata (sorted m) ↔ valid_metadata m.
Proof.
  assert (∀ r, granted (sorted m) r ↔ granted m r) as Hg
    by (intros r; unfold granted; by rewrite !uses_grant_sorted).
  split; intros [Hu Hn Hr ? ? ? ? ? Hi ? ? ? ? ?]; split; try done.
  - intros us u Hus Hin. destruct (redirect_uris_sorted m us u Hus) as (us' & Hus' & He).
    by apply (Hu us'), He.
  - intros H. rewrite <-(uses_grant_sorted m AuthorizationCode), <-(uses_grant_sorted m Implicit).
    apply Hn. simpl. by rewrite H.
  - intros r Hx. by apply Hg, Hr, uses_type_sorted.
  - intros H r Hx. by apply (Hi H), uses_type_sorted.
  - intros us u Hus Hin. simpl in Hus. destruct (redirect_uris m) as [us0|] eqn:H0; [|done].
    injection Hus as <-. by apply (Hu us0), (sort_elem String.compare).
  - intros H. rewrite !uses_grant_sorted. apply Hn. simpl in H. by destruct (redirect_uris m).
  - intros r Hx. rewrite uses_type_sorted in Hx. by apply Hg, Hr.
  - intros H r Hx. rewrite uses_type_sorted in Hx. by apply Hi.
Qed.

(** C31: metadata are accepted exactly when they are those of a client of OpenID
    Connect: a redirect URI is given where a grant needs one and has no
    fragment, every response type has the grants it needs, keys are given in
    one way and where the authentication needs them, the algorithms are
    complete, and the URLs that have to be are of the https scheme.  What is
    accepted is not changed; an error names a fault that is there; and the order
    of the lists does not matter. *)
Theorem metadata_validated m :
  match validate m with
  | Ok m' => m' = m ∧ valid_metadata m
  | Err e => rejected m e ∧ ¬ valid_metadata m
  end ∧
  is_ok (validate (sorted m)) = is_ok (validate m).
Proof.
  pose proof (validate_decides m) as H. pose proof (validate_decides (sorted m)) as Hs.
  pose proof (valid_sorted m). split.
  - destruct (validate m) as [m'|e] eqn:Hv; [|done]. by apply validate_same in Hv.
  - destruct (validate m), (validate (sorted m)); try done; exfalso; tauto.
Qed.
End Metadata.

(** ** The endpoint *)

Section Requests.
Context {R : Type} `{!RngCore R, !RngLaws R} {url_lib : UrlLib} {ulid_text : UlidText}
  {jwks_json : JwksJson} {url_edit : UrlEdit} {url_split : UrlSplit} {sha2 : Sha2} {aead : Aead}
  {base64 : Base64Std} {psl : PublicSuffixes} {hex : Hex} {json : MetadataJson}
  {policy : RegistrationPolicy}.
Implicit Types w : World R.
Import ClientMetadata.

Lemma registration_err ip cfg ua nonce body :
  err_keeps same_committed (Registration.registration_request (R := R) ip cfg ua nonce body).
Proof. unfold Registration.registration_request, Registration.post. err_tac. Qed.

(** The row of a new client. *)
Definition client_row (id : Ulid) (m : ClientMetadata.t) (digest secret : option string) :
    OAuth2ClientLookup.t :=
  let text {T} (o : option (Localized.t T)) : option T := Localized.non_localized <$> o in
  OAuth2ClientLookup.mk id digest secret (application_type m) (get_redirect_uris m)
    (has AuthorizationCode m) (has RefreshTokenGrantType m) (has ClientCredentials m)
    (has DeviceCode m) (text (client_name m)) (text (logo_uri m)) (text (client_uri m))
    (text (policy_uri m)) (text (tos_uri m)) (jwks_uri m) (jwks m)
    (id_token_signed_response_alg m) (userinfo_signed_response_alg m)
    (OAuthClientAuthenticationMethod_to_string <$> token_endpoint_auth_method m)
    (token_endpoint_auth_signing_alg m) (initiate_login_uri m) false.

(** The client that is answered for it. *)
Definition new_client (id : Ulid) (m : ClientMetadata.t) (secret : option string)
    (keys : option JwksOrJwksUri) : Client.t :=
  let text {T} (o : option (Localized.t T)) : option T := Localized.non_localized <$> o in
  Client.mk id (ulid_to_string id) None secret (application_type m) (get_redirect_uris m)
    (get_grant_types m) (text (client_name m)) (text (logo_uri m)) (text (client_uri m))
    (text (policy_uri m)) (text (tos_uri m)) keys (id_token_signed_response_alg m)
    (userinfo_signed_response_alg m) (token_endpoint_auth_method m)
    (token_endpoint_auth_signing_alg m) (initiate_login_uri m) false.

Definition secret_method (m : ClientMetadata.t) : Prop :=
  ∃ k, token_endpoint_auth_method m = Some k ∧
    k ∈ [ClientSecretJwt; ClientSecretPost; ClientSecretBasic].

Lemma client_secret_inv nonce m w o w' :
  Registration.client_secret_of nonce m w = (Ok o, w') →
  same_db w w' ∧ (is_Some o ↔ secret_method m) ∧
  ∀ s e, o = Some (s, e) → str_len s = 20%nat ∧ all_chars ascii_alphanumeric s = true ∧
    Encrypter.encrypt_to_string nonce s = Some e.
Proof.
  unfold Registration.client_secret_of, secret_method.
  intros H. destruct (token_endpoint_auth_method m) as [k|].
  2: { injection H as <- <-. split; [done|]. split; [|done].
       split; [by intros []|by intros (? & ? & _)]. }
  assert (k ∈ [ClientSecretJwt; ClientSecretPost; ClientSecretBasic] ∧
    (do client_secret <- with_rng (sample_alphanumeric 20);
     do encrypted <- Registration.require (Encrypter.encrypt_to_string nonce client_secret)
       Registration.EncryptionError;
     ret (Some (client_secret, encrypted))) w = (Ok o, w') ∨
    k ∉ [ClientSecretJwt; ClientSecretPost; ClientSecretBasic] ∧ o = None ∧ w' = w)
    as [[Hk H']|(Hk & -> & ->)].
  { destruct k; first [left; split; [set_solver|exact H] |
      right; injection H as <- <-; split; [set_solver|done]]. }
  - apply bind_Ok_inv in H' as (s & w1 & [[rng ->] Hs]%with_rng_inv & H').
    apply bind_Ok_inv in H' as (e & ? & [He ->]%lift_inv & [= <- <-]).
    split; [done|]. split; [split; [|done]; by exists k|]. intros s e' [= <- <-].
    split_and!; [apply sample_length|apply sample_chars|].
    by destruct (Encrypter.encrypt_to_string _ _); simplify_eq/=.
  - split; [done|]. split; [|done]. split; [by intros []|]. intros (? & [= <-] & ?). done.
Qed.

Lemma find_digest_inv digest w o w' :
  ClientWrites.find_by_metadata_digest digest w = (Ok o, w') →
  same_db w w' ∧
  match o with
  | Some c => ∃ id row, oauth2_clients (w_txn w) !! id = Some row ∧
      OAuth2ClientLookup.metadata_digest row = Some digest ∧ ClientRepository.try_from row = Ok c
  | None => ∀ id r, oauth2_clients (w_txn w) !! id = Some r →
      OAuth2ClientLookup.metadata_digest r ≠ Some digest
  end.
Proof.
  intros H. op_inv H. subst. split; [same_world|].
  destruct (find_row _ _) as [r|] eqn:Hf; simpl in *; destruct_ex.
  - apply find_row_Some in Hf as [Hp%bool_decide_eq_true [id Hr]]. subst. eauto 10.
  - subst. intros id r Hr. eapply find_row_None in Hf; [|done].
    by apply bool_decide_eq_false in Hf.
Qed.

Lemma ulid_range t (rng : R) : 0 ≤ (from_datetime_with_rng t rng).1 < 2 ^ 128.
Proof.
  destruct (from_datetime_eq t rng) as (random & Hr & ->).
  pose proof (Z.mod_pos_bound (timestamp_ms_of t) (2 ^ 48)). lia.
Qed.

Lemma client_add_inv uris dg sec app gts name logo uri pol tos ju j ida uia meth sa login w c w' :
  ClientWrites.add uris dg sec app gts name logo uri pol tos ju j ida uia meth sa login w =
    (Ok c, w') →
  ∃ id keys, 0 ≤ id < 2 ^ 128 ∧ oauth2_clients (w_txn w) !! id = None ∧
    (∀ digest, dg = Some digest → ∀ k r, oauth2_clients (w_txn w) !! k = Some r →
       OAuth2ClientLookup.metadata_digest r ≠ Some digest) ∧
    w_txn w' = set_rows (<[id := OAuth2ClientLookup.mk id dg sec app uris
        (bool_decide (AuthorizationCode ∈ gts)) (bool_decide (RefreshTokenGrantType ∈ gts))
        (bool_decide (ClientCredentials ∈ gts)) (bool_decide (DeviceCode ∈ gts)) name logo uri pol
        tos ju j ida uia (OAuthClientAuthenticationMethod_to_string <$> meth) sa login false]>
        (oauth2_clients (w_txn w))) (w_txn w) ∧
    same_committed w w' ∧ ClientWrites.jwks_of j ju = Ok keys ∧
    c = Client.mk id (ulid_to_string id) None sec app uris gts name logo uri pol tos keys ida uia
          meth sa login false.
Proof.
  intros H. op_inv H. world_simpl. insert_inv Hc. do 2 eexists.
  split; [apply ulid_range|]. split_and!; try done; [|same_world].
  intros digest -> k r Hr. simpl in Hc.
  by apply bool_decide_eq_true in Hc as Hu; apply (Hu k r).
Qed.

Lemma client_of_inv m json_text secret w c w' :
  Registration.client_of m json_text secret w = (Ok c, w') →
  let digest := hex_encode (sha256 json_text) in
  (secret = None ∧ same_db w w' ∧ ∃ id row, oauth2_clients (w_txn w) !! id = Some row ∧
     OAuth2ClientLookup.metadata_digest row = Some digest ∧
     ClientRepository.try_from row = Ok c) ∨
  (∃ id keys, 0 ≤ id < 2 ^ 128 ∧ oauth2_clients (w_txn w) !! id = None ∧
     (secret = None → ∀ k r, oauth2_clients (w_txn w) !! k = Some r →
        OAuth2ClientLookup.metadata_digest r ≠ Some digest) ∧
     w_txn w' = set_rows (<[id := client_row id m (if secret then None else Some digest)
       (snd <$> secret)]> (oauth2_clients (w_txn w))) (w_txn w) ∧
     same_committed w w' ∧ ClientWrites.jwks_of (jwks m) (jwks_uri m) = Ok keys ∧
     c = new_client id m (snd <$> secret) keys).
Proof.
  intros H digest. apply bind_Ok_inv in H as ([o found] & w1 & Hf & H).
  assert (same_db w w1 ∧ o = (if secret then None else Some digest) ∧
    (∀ c, found = Some c → secret = None ∧ ∃ id row, oauth2_clients (w_txn w) !! id = Some row ∧
       OAuth2ClientLookup.metadata_digest row = Some digest ∧
       ClientRepository.try_from row = Ok c) ∧
    (found = None → secret = None → ∀ k r, oauth2_clients (w_txn w) !! k = Some r →
       OAuth2ClientLookup.metadata_digest r ≠ Some digest)) as (D & -> & Hfound & Hnone).
  { destruct secret as [x|]; [by injection Hf as <- <- <-|].
    apply bind_Ok_inv in Hf as (oc & w2 & [D Hc]%mmap_err_Ok_inv%find_digest_inv & [= <- <- <-]).
    split_and!; [done|done| |].
    - intros c' ->. split; [done|]. exact Hc.
    - intros -> _. exact Hc. }
  destruct found as [c'|].
  - injection H as <- <-. left. destruct (Hfound c' eq_refl) as [-> Hrow]. done.
  - right. apply mmap_err_Ok_inv, client_add_inv in H
      as (id & keys & Hrange & Hid & Hu & Ht & Hc & Hkeys & ->).
    destruct D as (T & C & K). rewrite T in *. exists id, keys.
    split; [done|]. split_and!; try done; [by apply Hnone|]. destruct Hc. split; congruence.
Qed.

(** ** What is written is read back *)

(** What serde reads: URLs in their serialized form, and a key set. *)
Definition parsed (o : option Url) : Prop := ∀ u, o = Some u → url_parse u = Some u.
Record well_formed (m : ClientMetadata.t) : Prop := {
  wf_redirect_uris : Forall (λ u, url_parse u = Some u) (get_redirect_uris m);
  wf_logo_uri : parsed (Localized.non_localized <$> logo_uri m);
  wf_client_uri : parsed (Localized.non_localized <$> client_uri m);
  wf_policy_uri : parsed (Localized.non_localized <$> policy_uri m);
  wf_tos_uri : parsed (Localized.non_localized <$> tos_uri m);
  wf_initiate_login_uri : parsed (initiate_login_uri m);
  wf_jwks_uri : parsed (jwks_uri m);
  wf_jwks : ∀ j, jwks m = Some j → jwks_from_value j = Some j;
}.

Lemma parse_url_opt_Ok col id o : parsed o → ClientRepository.parse_url_opt col id o = Ok o.
Proof.
  intros H. destruct o as [u|]; [|done]. unfold ClientRepository.parse_url_opt,
    ClientRepository.parse_url. by rewrite (H u eq_refl).
Qed.

Lemma collect_urls_Ok col id us : Forall (λ u, url_parse u = Some u) us →
  collect (ClientRepository.parse_url col id) us = Ok us.
Proof.
  induction 1 as [|u us Hu _ IH]; [done|]. simpl. unfold ClientRepository.parse_url at 1.
  rewrite Hu. simpl. by rewrite IH.
Qed.

Lemma client_row_read id m dg sec keys :
  well_formed m → ClientWrites.jwks_of (jwks m) (jwks_uri m) = Ok keys →
  ∃ c, ClientRepository.try_from (client_row id m dg sec) = Ok c ∧
    Client.id c = id ∧ Client.encrypted_client_secret c = sec ∧ Client.jwks c = keys ∧
    Client.redirect_uris c = get_redirect_uris m ∧
    (∀ g, g ∈ Client.grant_types c ↔ g ∈ get_grant_types m ∧
       g ∈ [AuthorizationCode; RefreshTokenGrantType; ClientCredentials; DeviceCode]) ∧
    Client.token_endpoint_auth_method c =
      OAuthClientAuthenticationMethod_from_str <$>
        (OAuthClientAuthenticationMethod_to_string <$> token_endpoint_auth_method m).
Proof.
  intros [] Hk. unfold ClientRepository.try_from. simpl.
  rewrite collect_urls_Ok by done. simpl. rewrite !parse_url_opt_Ok by done. simpl.
  assert (ClientRepository.jwks_of (client_row id m dg sec) = Ok keys) as ->.
  { unfold ClientRepository.jwks_of, ClientWrites.jwks_of in *. simpl.
    destruct (jwks m) as [j|], (jwks_uri m) as [u|]; simplify_eq/=; try done.
    - by rewrite wf_jwks0.
    - unfold ClientRepository.parse_url. by rewrite wf_jwks_uri0. }
  simpl. eexists. split; [done|]. simpl. split_and!; try done. intros g.
  unfold ClientRepository.grant_types_of. simpl. unfold has.
  rewrite !elem_of_app. repeat case_bool_decide; set_solver.
Qed.

(** The metadata of a new client are verified again before they are answered:
    its response types are lost, so one with the implicit grant and without the
    code grant is refused. *)
Lemma new_client_valid id m sec keys :
  valid_metadata m → ClientWrites.jwks_of (jwks m) (jwks_uri m) = Ok keys →
  valid_metadata (of_client (new_client id m sec keys)) ↔
  (Implicit ∈ get_grant_types m → AuthorizationCode ∈ get_grant_types m).
Proof.
  intros Hm Hk.
  assert (∀ g, uses_grant m g ↔ g ∈ get_grant_types m) as Hg
    by (intros g; by rewrite <-has_uses, <-(bool_decide_eq_true (g ∈ get_grant_types m))).
  rewrite <-!Hg. assert (∀ g, uses_grant (of_client (new_client id m sec keys)) g ↔ uses_grant m g)
    as Hu by (intros g; by rewrite Hg).
  assert (∀ r, uses_type (of_client (new_client id m sec keys)) r ↔ r = [Authorization.Code] ∧
    (uses_grant m AuthorizationCode ∨ uses_grant m Implicit)) as Ht
    by (intros r; by rewrite <-!Hu).
  split.
  { intros Hv Hi. apply Hu. apply (vm_response_types _ Hv [Authorization.Code]); [|by left].
    apply Ht. auto. }
  intros H. destruct Hm. split; simpl; try done; try (by intros []).
  - intros us u [= <-]. unfold get_redirect_uris. destruct (redirect_uris m) as [us|]; simpl.
    + by apply vm_uris0.
    + by intros []%not_elem_of_nil.
  - intros r [-> Hr]%Ht. split; [intros _; apply Hu; tauto|]. set_solver.
  - destruct keys as [[]|]; simpl; by intros [[] []].
  - intros Hp. specialize (vm_private_key0 Hp). unfold ClientWrites.jwks_of in Hk.
    destruct (jwks m), (jwks_uri m); simplify_eq/=; eauto.
  - intros _ r [-> _]%Ht. set_solver.
Qed.

(** What stands when a client is registered with the metadata [m]. *)
Record registered (d d' : Db) (ip : BoundActivityTracker) (ua : option string) (nonce : string)
    (m : ClientMetadata.t) (digest : string) (secret : option (string * string))
    (c : Client.t) : Prop := {
  rg_valid : valid_metadata m;
  rg_domains : Registration.public_suffix_field m = None;
  rg_policy : evaluate_client_registration m ip ua = Some [];
  rg_secret : is_Some secret ↔ secret_method m;
  rg_secret_drawn : ∀ s e, secret = Some (s, e) →
    str_len s = 20%nat ∧ all_chars ascii_alphanumeric s = true ∧
    Encrypter.encrypt_to_string nonce s = Some e;
  rg_client :
    secret = None ∧ d' = d ∧
      (∃ id row, oauth2_clients d !! id = Some row ∧
         OAuth2ClientLookup.metadata_digest row = Some digest ∧
         ClientRepository.try_from row = Ok c) ∨
    (∃ id keys, 0 ≤ id < 2 ^ 128 ∧ oauth2_clients d !! id = None ∧
       (secret = None → ∀ k r, oauth2_clients d !! k = Some r →
          OAuth2ClientLookup.metadata_digest r ≠ Some digest) ∧
       d' = set_rows (<[id := client_row id m (if secret then None else Some digest)
              (snd <$> secret)]> (oauth2_clients d)) d ∧
       ClientWrites.jwks_of (jwks m) (jwks_uri m) = Ok keys ∧
       c = new_client id m (snd <$> secret) keys ∧
       (Implicit ∈ get_grant_types m → AuthorizationCode ∈ get_grant_types m));
}.

Lemma registration_inv ip cfg ua nonce body w resp w' :
  Registration.registration_request ip cfg ua nonce body w = (Ok resp, w') →
  ∃ b j secret c, body = Ok b ∧ metadata_to_string (sorted b) = Some j ∧
    registered (w_committed w) (w_committed w') ip ua nonce
      (Registration.drop_device_code cfg (sorted b)) (hex_encode (sha256 j)) secret c ∧
    resp = Registration.mkResponse (Client.client_id c) (fst <$> secret)
      (Some (datetime_utc (Client.id c))) None (of_client c).
Proof.
  intros H. apply bind_Ok_inv in H as (? & w1 & [T1 C1]%mmap_err_Ok_inv%from_pool_inv & H).
  apply bind_Ok_inv in H as (b & ? & [Hb%map_err_Ok ->]%lift_inv & H).
  apply bind_Ok_inv in H as (j & ? & [Hj ->]%lift_inv & H).
  assert (metadata_to_string (sorted b) = Some j) as Hj'
    by (destruct (metadata_to_string _); simplify_eq/=; done).
  apply bind_Ok_inv in H as (m & ? & [Hv%map_err_Ok ->]%lift_inv & H).
  apply validate_Ok in Hv as [-> Hv].
  apply bind_Ok_inv in H as (? & ? & Hsuf & H).
  destruct (Registration.public_suffix_field _) eqn:Hpsl; [done|]. injection Hsuf as <- <-.
  apply bind_Ok_inv in H as (v & ? & [Hpol ->]%lift_inv & H).
  case_bool_decide as Hv0; [|done]. subst v. simpl in H.
  apply bind_Ok_inv in H as (secret & w2 & (D2 & Hs & Hs')%client_secret_inv & H).
  apply bind_Ok_inv in H as (c & w3 & Hc%client_of_inv & H).
  apply bind_Ok_inv in H as (m' & ? & [Hm'%map_err_Ok ->]%lift_inv & H).
  apply validate_Ok in Hm' as [-> Hm'].
  apply bind_Ok_inv in H as (? & w4 & [C4 _]%mmap_err_Ok_inv%save_inv & [= <- <-]).
  exists b, j, secret, c. split_and!; try done.
  destruct D2 as (T2 & _ & _). rewrite T2, T1 in Hc. rewrite C4.
  split; try done.
  - by destruct (evaluate_client_registration _ _ _); simplify_eq/=.
  - destruct Hc as [(-> & (T3 & _ & _) & Hrow)|
      (id & keys & Hr & Hid & Hd & T3 & _ & Hk & ->)].
    + left. split_and!; [done| |done]. congruence.
    + right. exists id, keys. split; [done|]. split_and!; try done.
      by apply (new_client_valid id _ (snd <$> secret) keys).
Qed.

(** C13: a client is registered only with coherent metadata, on domains that
    are not public suffixes, and that the policy has nothing against; it gets a
    new secret exactly when it names a method that uses one, and the secret is
    20 letters and digits and is stored encrypted.  The client without a secret
    that has the same metadata already is answered, and otherwise one row is
    added, that says what was registered; nothing else is written, and nothing
    at all when the request is refused. *)
Theorem client_registered ip cfg ua nonce body w r w' :
  Registration.registration_request ip cfg ua nonce body w = (r, w') →
  match r with
  | Ok resp => ∃ b j secret c, body = Ok b ∧ metadata_to_string (sorted b) = Some j ∧
      registered (w_committed w) (w_committed w') ip ua nonce
        (Registration.drop_device_code cfg (sorted b)) (hex_encode (sha256 j)) secret c ∧
      resp = Registration.mkResponse (Client.client_id c) (fst <$> secret)
        (Some (datetime_utc (Client.id c))) None (of_client c)
  | Err _ => same_committed w w'
  end.
Proof.
  intros H. destruct r as [resp|e]; [by apply registration_inv|]. by apply registration_err in H.
Qed.

(** ** Registered clients authenticate *)

Lemma sort_Forall {A} (cmp : A → A → comparison) (P : A → Prop) l :
  Forall P l → Forall P (sort cmp l).
Proof. intros H. unfold sort. by rewrite merge_sort_Permutation. Qed.

Lemma non_localized_sorted {T} (o : option (Localized.t T)) :
  Localized.non_localized <$> (sort_localized <$> o) = Localized.non_localized <$> o.
Proof. by destruct o. Qed.

Lemma well_formed_request cfg m :
  well_formed m → well_formed (Registration.drop_device_code cfg (sorted m)).
Proof.
  intros []. assert (well_formed (sorted m)) as H.
  { split; cbn [sorted logo_uri client_uri policy_uri tos_uri initiate_login_uri jwks_uri jwks];
      rewrite ?non_localized_sorted; try done.
    unfold get_redirect_uris in *. simpl. destruct (redirect_uris m); [|done]. by apply sort_Forall. }
  unfold Registration.drop_device_code. destruct (device_code_grant_enabled cfg); [done|].
  by destruct H.
Qed.

Lemma method_request cfg m :
  token_endpoint_auth_method (Registration.drop_device_code cfg (sorted m)) =
  token_endpoint_auth_method m.
Proof. unfold Registration.drop_device_code. by destruct (device_code_grant_enabled cfg). Qed.

(** The client a request registered, and the row it is read from. *)
Lemma registered_row {ulid_laws : UlidTextLaws} d d' ip ua nonce m digest secret c :
  registered d d' ip ua nonce m digest secret c → well_formed m → d' ≠ d ∨ secret_method m →
  ∃ id row c', Client.client_id c = ulid_to_string id ∧
    ulid_from_string (ulid_to_string id) = Some id ∧ oauth2_clients d' !! id = Some row ∧
    ClientRepository.try_from row = Ok c' ∧ Client.encrypted_client_secret c' = snd <$> secret ∧
    Client.token_endpoint_auth_method c' = OAuthClientAuthenticationMethod_from_str <$>
      (OAuthClientAuthenticationMethod_to_string <$> token_endpoint_auth_method m).
Proof.
  intros [_ _ _ Hs _ Hc] Hwf Hnew.
  destruct Hc as [(-> & -> & _)|(id & keys & Hr & _ & _ & -> & Hk & -> & _)].
  { destruct Hnew as [?|[? [=]]%Hs]; congruence. }
  destruct (client_row_read id m (if secret then None else Some digest) (snd <$> secret) keys)
    as (c' & Hread & _ & Hsec & _ & _ & _ & Hm); [done..|].
  exists id, (client_row id m (if secret then None else Some digest) (snd <$> secret)), c'.
  split_and!; try done; [by apply ulid_print_parse|]. apply lookup_insert_eq.
Qed.

Section Secrets.
Context {crypto : ClientCrypto} {aead_laws : AeadLaws} {base64_laws : Base64StdLaws}
  {ulid_laws : UlidTextLaws}.
(** Clients are authenticated with the encrypter their secrets are stored with. *)
Hypothesis same_encrypter :
  ∀ e s, Encrypter.decrypt_string e = Ok s → ClientAuth.decrypt_string e = Some s.

(** C14: a client that registers to authenticate with a secret, in the header or
    in the form, authenticates with the one it is answered, by the method it
    named, and with no other. *)
Theorem registered_client_authenticates ip cfg ua nonce b w resp w' :
  String.length nonce = Encrypter.NONCE → well_formed b →
  Registration.registration_request ip cfg ua nonce (Ok b) w = (Ok resp, w') →
  ∀ credentials, (token_endpoint_auth_method b, credentials) ∈
    [(Some ClientSecretBasic, SecretBasic); (Some ClientSecretPost, SecretPost)] →
  ∃ s, Registration.client_secret resp = Some s ∧
    ∀ s', (∃ c, authenticated (w_committed w') (credentials (Registration.client_id resp) s') c) ↔
      s' = s.
Proof.
  intros Hn Hwf (b' & j & secret & c & [= <-] & _ & Hreg & ->)%registration_inv credentials Hcr.
  assert (secret_method (Registration.drop_device_code cfg (sorted b))) as Hsm.
  { unfold secret_method. rewrite method_request.
    rewrite !elem_of_cons in Hcr. destruct Hcr as [[= -> _]|[[= -> _]|[]%not_elem_of_nil]];
      eexists; (split; [done|]); set_solver. }
  destruct (registered_row _ _ _ _ _ _ _ _ _ Hreg) as
    (id & row & c' & Hid & Hp & Hrow & Hread & Henc & Hm); [by apply well_formed_request|by right|].
  rewrite method_request in Hm.
  destruct (proj2 (rg_secret _ _ _ _ _ _ _ _ _ Hreg) Hsm) as [[s e] ->].
  destruct (rg_secret_drawn _ _ _ _ _ _ _ _ _ Hreg s e eq_refl) as (_ & _ & He).
  apply Encrypter.encrypted_read_back, same_encrypter in He; [|done].
  simpl in Henc. exists s. split; [done|]. intros s'. simpl. rewrite Hid. unfold authenticated. split.
  - intros (c2 & s2 & id2 & row2 & m2 & Hs2 & Hid2 & Hrow2 & Hread2 & Hm2 & Ha).
    assert (s2 = ulid_to_string id) as -> by (set_unfold in Hcr; naive_solver).
    assert (id2 = id) as -> by congruence. assert (row2 = row) as -> by congruence.
    assert (c2 = c') as -> by congruence. rewrite Hm in Hm2.
    rewrite !elem_of_cons in Hcr. destruct Hcr as [[= Hb ->]|[[= Hb ->]|[]%not_elem_of_nil]];
      rewrite Hb in Hm2; injection Hm2 as <-;
      destruct Ha as (? & ? & ? & [= <- <-] & ? & ?); congruence.
  - intros ->. exists c', (ulid_to_string id), id, row.
    rewrite !elem_of_cons in Hcr. destruct Hcr as [[= Hb ->]|[[= Hb ->]|[]%not_elem_of_nil]];
      rewrite Hb in Hm; eexists; split_and!; try done;
      [exact Hm|simpl; eauto 10|exact Hm|simpl; eauto 10].
Qed.

(** A client that is registered without a method is stored without one: it
    has no secret, although the default of the field is a method that needs
    one, and no credentials authenticate it. *)
Theorem client_without_method_refused ip cfg ua nonce b w resp w' :
  well_formed b → token_endpoint_auth_method b = None →
  get_token_endpoint_auth_method b = ClientSecretBasic ∧
  (Registration.registration_request ip cfg ua nonce (Ok b) w = (Ok resp, w') →
   w_committed w' ≠ w_committed w →
   Registration.client_secret resp = None ∧
   ∀ cr c, credentials_client_id cr = Some (Registration.client_id resp) →
     ¬ authenticated (w_committed w') cr c).
Proof.
  intros Hwf Hb. split; [unfold get_token_endpoint_auth_method; by rewrite Hb|].
  intros (b' & j & secret & c & [= <-] & _ & Hreg & ->)%registration_inv Hnew.
  destruct (registered_row _ _ _ _ _ _ _ _ _ Hreg) as
    (id & row & c' & Hid & Hp & Hrow & Hread & Henc & Hm); [by apply well_formed_request|by left|].
  rewrite method_request, Hb in Hm. split.
  - simpl. destruct secret as [x|] eqn:Hs; [|done].
    destruct (proj1 (rg_secret _ _ _ _ _ _ _ _ _ Hreg)) as (k & Hk & _); [done|].
    rewrite method_request, Hb in Hk. done.
  - simpl. rewrite Hid. intros cr c2 Hcr (s2 & id2 & row2 & m2 & Hs2 & Hid2 & Hrow2 & Hread2 & Hm2 & _).
    assert (s2 = ulid_to_string id) as -> by congruence.
    assert (id2 = id) as -> by congruence. assert (row2 = row) as -> by congruence.
    assert (c2 = c') as -> by congruence. by rewrite Hm in Hm2.
Qed.
End Secrets.
End Requests.

(** ** A client that registers *)

Module RegistrationExample.
Import Scenario ClientMetadata.

#[export] Instance encrypter_crypto : ClientCrypto := {
  decrypt_string e := match Encrypter.decrypt_string e with Ok s => Some s | Err _ => None end;
  verify_with_jwks _ _ := false;
  verify_with_shared_secret _ _ := false;
  http_get_jwks _ := None;
}.
Lemma encrypter_same e s : Encrypter.decrypt_string e = Ok s → decrypt_string e = Some s.
Proof. intros H. simpl. by rewrite H. Qed.

(** A client with a redirect URI, and the method it names. *)
Definition metadata (method : option OAuthClientAuthenticationMethod) : ClientMetadata.t :=
  mk (Some ["https://app.example.com/"]) None None None None None None None None None None None
    None None None None method None None None None None None None None None None None None None
    None None None None None None None None.
Lemma metadata_well_formed method : well_formed (metadata method).
Proof. by split; repeat constructor. Qed.

(** A client of the code and the ID token at once, with the grants it names. *)
Definition hybrid (grants : list GrantType) : ClientMetadata.t :=
  mk (Some ["https://app.example.com/"]) (Some [[Authorization.Code; Authorization.IdToken]])
    (Some grants) None None None None None None None None None None None None None
    None None None None None None None None None None None None None None
    None None None None None None None None.

Example hybrid_needs_both :
  validate (hybrid [Implicit; AuthorizationCode])
    = Ok (hybrid [Implicit; AuthorizationCode]) ∧
  (∀ g, g ∈ [Implicit; AuthorizationCode; RefreshTokenGrantType] →
     validate (hybrid [g])
     = Err (IncoherentResponseType [Authorization.Code; Authorization.IdToken])).
Proof.
  split; [vm_compute; reflexivity|].
  intros g Hg. rewrite !elem_of_cons in Hg.
  destruct Hg as [->|[->|[->|[]%not_elem_of_nil]]]; vm_compute; reflexivity.
Qed.

Definition nonce : string := letters 12 0.
Definition register (method : option OAuthClientAuthenticationMethod) :=
  Registration.registration_request (R := Z) None config None nonce (Ok (metadata method))
    (world db 0 0).
Definition answer (method : option OAuthClientAuthenticationMethod) : option Registration.Response :=
  match (register method).1 with Ok r => Some r | Err _ => None end.
End RegistrationExample.

Section Witnesses.
Import Scenario ClientMetadata RegistrationExample.

Lemma client_registered_witness :
  is_ok (register (Some ClientSecretBasic)).1 = true ∧
  match (register (Some ClientSecretBasic)).1 with
  | Ok resp => ∃ b j secret c, Ok (metadata (Some ClientSecretBasic)) = Ok (E := Registration.JsonRejection) b ∧
      metadata_to_string (sorted b) = Some j ∧
      registered db (w_committed (register (Some ClientSecretBasic)).2) None None nonce
        (Registration.drop_device_code config (sorted b)) (hex_encode (sha256 j)) secret c ∧
      resp = Registration.mkResponse (Client.client_id c) (fst <$> secret)
        (Some (datetime_utc (Client.id c))) None (of_client c)
  | Err _ => same_committed (world db 0 0) (register (Some ClientSecretBasic)).2
  end.
Proof.
  split; [vm_compute; reflexivity|].
  apply (client_registered None config None nonce (Ok (metadata (Some ClientSecretBasic)))
    (world db 0 0)). apply surjective_pairing.
Defined.

Lemma registered_client_authenticates_witness :
  match (register (Some ClientSecretBasic)).1 with
  | Ok resp => ∃ s, Registration.client_secret resp = Some s ∧
      ∀ s', (∃ c, authenticated (w_committed (register (Some ClientSecretBasic)).2)
        (SecretBasic (Registration.client_id resp) s') c) ↔ s' = s
  | Err _ => False
  end.
Proof.
  destruct (register (Some ClientSecretBasic)) as [[resp|e] w'] eqn:H.
  - refine (registered_client_authenticates encrypter_same None config None nonce
      (metadata (Some ClientSecretBasic)) (world db 0 0) resp w' _ _ H SecretBasic _).
    + reflexivity.
    + apply metadata_well_formed.
    + left.
  - apply (f_equal (λ x, is_ok x.1)) in H. revert H. vm_compute. discriminate.
Defined.

Lemma client_without_method_refused_witness :
  match (register None).1 with
  | Ok resp => Registration.client_secret resp = None ∧
      ∀ cr c, credentials_client_id cr = Some (Registration.client_id resp) →
        ¬ authenticated (w_committed (register None).2) cr c
  | Err _ => False
  end.
Proof.
  destruct (register None) as [[resp|e] w'] eqn:H.
  - refine (proj2 (client_without_method_refused None config None nonce (metadata None)
      (world db 0 0) resp w' (metadata_well_formed None) eq_refl) H _).
    apply (f_equal (λ x, size (oauth2_clients (w_committed x.2)))) in H.
    intros Heq. simpl in H. rewrite Heq in H. revert H. vm_compute. discriminate.
  - apply (f_equal (λ x, is_ok x.1)) in H. revert H. vm_compute. discriminate.
Defined.
End Witnesses.
