(* ===== verification/AccountIntegrity.v ===== *)
(** * Integrity of the account tables

    The constraints of crates/storage-pg/migrations on the tables of
    registrations, recoveries, email addresses, terms and upstream providers, and
    that the operations of their repositories keep them: the deletions too,
    which take with them, or empty, what refers to the rows they delete. *)

From stdpp Require Import base tactics list strings gmap.
From Stdlib Require Import ZArith Lia.
From S2P Require Import Prelude Text Scope Externals Formats Pagination TokenFormat DataModel UpstreamModel AccountModel Storage TokenRepo GrantRepo QueueRepo UserRepo UpstreamRepo AccountRepo RepoFacts CompatRepoFacts Integrity.

(** ** Deletions *)

Section Deletions.
Context {Row Row' : Type}.
Implicit Types (m : gmap Z Row) (tgt : gmap Z Row').

Lemma keyed_filter id (P : Z * Row → Prop) `{!∀ x, Decision (P x)} m :
  keyed id m → keyed id (filter P m).
Proof. intros Hm k r [? _]%map_lookup_filter_Some. eauto. Qed.

Lemma uniq_filter {V} (col : Row → option V) (P : Z * Row → Prop) `{!∀ x, Decision (P x)} m :
  uniq col m → uniq col (filter P m).
Proof.
  intros Hm k1 r1 k2 r2 v [? _]%map_lookup_filter_Some [? _]%map_lookup_filter_Some. eauto.
Qed.

Lemma refs_filter_source col (P : Z * Row → Prop) `{!∀ x, Decision (P x)} m tgt :
  refs col m tgt → refs col (filter P m) tgt.
Proof. intros Hm k r v [? _]%map_lookup_filter_Some. eauto. Qed.

(** A table whose rows do not refer to the rows that are deleted. *)
Lemma refs_filter_target col m tgt (P : Z * Row' → Prop) `{!∀ x, Decision (P x)} :
  refs col m tgt →
  (∀ k r v r', m !! k = Some r → col r = Some v → tgt !! v = Some r' → P (v, r')) →
  refs col m (filter P tgt).
Proof.
  intros Hm HP k r v Hr Hv. destruct (Hm k r v Hr Hv) as [r' Hr'].
  exists r'. apply map_lookup_filter_Some. eauto.
Qed.

(** A column whose value is kept or emptied. *)
Lemma refs_fmap_clear col f m tgt :
  refs col m tgt → (∀ r, col (f r) = col r ∨ col (f r) = None) → refs col (f <$> m) tgt.
Proof.
  intros H Hf k r v (r' & <- & Hr)%lookup_fmap_Some. destruct (Hf r') as [->| ->]; [eauto|done].
Qed.
End Deletions.

Lemma elem_of_matching {Row} `{!Table Row} (p : Row → bool) d k r :
  rows d !! k = Some r → p r = true → r ∈ matching_rows p d.
Proof.
  intros Hk Hp. apply list_elem_of_filter. split; [done|].
  apply list_elem_of_fmap. exists (k, r). split; [done|]. by apply elem_of_map_to_list.
Qed.

Lemma matching_spec {Row} `{!Table Row} (p : Row → bool) d r :
  r ∈ matching_rows p d → p r = true ∧ ∃ k, rows d !! k = Some r.
Proof.
  intros [Hp H]%list_elem_of_filter. split; [done|].
  apply list_elem_of_fmap in H as ([k r'] & -> & H%elem_of_map_to_list). eauto.
Qed.

(** ** The schema *)

Record account_integrity (d : Db) : Prop := {
  emails_pkey : keyed UserEmailLookup.user_email_id (user_emails d);
  registrations_pkey :
    keyed UserRegistrationLookup.user_registration_id (user_registrations (accounts d));
  registration_tokens_pkey :
    keyed UserRegistrationTokenLookup.user_registration_token_id
      (user_registration_tokens (accounts d));
  terms_pkey : keyed UserTermsRow.user_terms_id (user_terms (accounts d));
  email_authentications_pkey :
    keyed UserEmailAuthenticationLookup.user_email_authentication_id
      (user_email_authentications (accounts d));
  email_codes_pkey :
    keyed UserEmailAuthenticationCodeLookup.user_email_authentication_code_id
      (user_email_authentication_codes (accounts d));
  recovery_sessions_pkey :
    keyed UserRecoverySessionRow.user_recovery_session_id (user_recovery_sessions (accounts d));
  recovery_tickets_pkey :
    keyed UserRecoveryTicketRow.user_recovery_ticket_id (user_recovery_tickets (accounts d));
  providers_pkey :
    keyed ProviderLookup.upstream_oauth_provider_id (upstream_oauth_providers (accounts d));
  links_pkey : keyed LinkLookup.upstream_oauth_link_id (upstream_oauth_links (accounts d));
  upstream_sessions_pkey :
    keyed UpstreamSessionLookup.upstream_oauth_authorization_session_id
      (upstream_oauth_authorization_sessions (accounts d));
  registration_tokens_unique :
    uniq (λ r, Some (UserRegistrationTokenLookup.token r)) (user_registration_tokens (accounts d));
  terms_unique :
    uniq (λ r, Some (UserTermsRow.user_id r, UserTermsRow.terms_url r)) (user_terms (accounts d));
  email_codes_unique :
    uniq (λ r, Some (UserEmailAuthenticationCodeLookup.user_email_authentication_id r,
                     UserEmailAuthenticationCodeLookup.code r))
      (user_email_authentication_codes (accounts d));
  links_subject_unique :
    uniq (λ r, Some (LinkLookup.upstream_oauth_provider_id r, LinkLookup.subject r))
      (upstream_oauth_links (accounts d));
  upstream_state_unique :
    uniq (λ r, Some (UpstreamSessionLookup.state r))
      (upstream_oauth_authorization_sessions (accounts d));
  emails_user_fkey : refs (λ r, Some (UserEmailLookup.user_id r)) (user_emails d) (users d);
  terms_user_fkey :
    refs (λ r, Some (UserTermsRow.user_id r)) (user_terms (accounts d)) (users d);
  registrations_authentication_fkey :
    refs UserRegistrationLookup.email_authentication_id (user_registrations (accounts d))
      (user_email_authentications (accounts d));
  registrations_token_fkey :
    refs UserRegistrationLookup.user_registration_token_id (user_registrations (accounts d))
      (user_registration_tokens (accounts d));
  registrations_upstream_fkey :
    refs UserRegistrationLookup.upstream_oauth_authorization_session_id
      (user_registrations (accounts d)) (upstream_oauth_authorization_sessions (accounts d));
  authentications_session_fkey :
    refs UserEmailAuthenticationLookup.user_session_id (user_email_authentications (accounts d))
      (user_sessions d);
  authentications_registration_fkey :
    refs UserEmailAuthenticationLookup.user_registration_id
      (user_email_authentications (accounts d)) (user_registrations (accounts d));
  email_codes_authentication_fkey :
    refs (λ r, Some (UserEmailAuthenticationCodeLookup.user_email_authentication_id r))
      (user_email_authentication_codes (accounts d)) (user_email_authentications (accounts d));
  tickets_session_fkey :
    refs (λ r, Some (UserRecoveryTicketRow.user_recovery_session_id r))
      (user_recovery_tickets (accounts d)) (user_recovery_sessions (accounts d));
  tickets_email_fkey :
    refs (λ r, Some (UserRecoveryTicketRow.user_email_id r))
      (user_recovery_tickets (accounts d)) (user_emails d);
  links_provider_fkey :
    refs (λ r, Some (LinkLookup.upstream_oauth_provider_id r)) (upstream_oauth_links (accounts d))
      (upstream_oauth_providers (accounts d));
  links_user_fkey : refs LinkLookup.user_id (upstream_oauth_links (accounts d)) (users d);
  upstream_sessions_provider_fkey :
    refs (λ r, Some (UpstreamSessionLookup.upstream_oauth_provider_id r))
      (upstream_oauth_authorization_sessions (accounts d)) (upstream_oauth_providers (accounts d));
  upstream_sessions_link_fkey :
    refs UpstreamSessionLookup.upstream_oauth_link_id
      (upstream_oauth_authorization_sessions (accounts d)) (upstream_oauth_links (accounts d));
  session_authentications_upstream_fkey :
    refs AuthenticationRow.upstream_oauth_authorization_session_id (user_session_authentications d)
      (upstream_oauth_authorization_sessions (accounts d));
}.

Lemma account_integrity_empty :
  account_integrity (mkDb ∅ ∅ ∅ ∅ ∅ ∅ ∅ ∅ ∅ ∅ ∅ ∅ None ∅ ∅ ∅ ∅ ∅ ∅ ∅ ∅ ∅ no_accounts).
Proof. split; simpl; intros k *; by rewrite ?lookup_empty. Qed.

Definition preserves_accounts (d d' : Db) : Prop := account_integrity d → account_integrity d'.

#[export] Instance preserves_accounts_preorder : PreOrder preserves_accounts.
Proof. split; [by intros d Hd|]. intros x y z Hxy Hyz Hx. auto. Qed.

Abbreviation keeps_accounts := (keeps_db preserves_accounts) (only parsing).

(** ** Statements *)

Lemma unique_pair {Row A B} (f : Row → A) (g : Row → B) (m : gmap Z Row) a b :
  (∀ k r, m !! k = Some r → ¬ (f r = a ∧ g r = b)) ↔
  (∀ k r, m !! k = Some r → Some (f r, g r) ≠ Some (a, b)).
Proof. split; intros H k r Hk; specialize (H k r Hk); naive_solver. Qed.

Lemma unique_subject_true p s d :
  UpstreamOAuthLinkRepository.unique_subject p s d = true ↔
  ∀ k r, upstream_oauth_links (accounts d) !! k = Some r →
    Some (LinkLookup.upstream_oauth_provider_id r, LinkLookup.subject r) ≠ Some (p, s).
Proof.
  unfold UpstreamOAuthLinkRepository.unique_subject. rewrite bool_decide_eq_true.
  apply unique_pair.
Qed.

Lemma unique_code_true a c d :
  UserEmailAuthenticationRepository.unique_code a c d = true ↔
  ∀ k r, user_email_authentication_codes (accounts d) !! k = Some r →
    Some (UserEmailAuthenticationCodeLookup.user_email_authentication_id r,
          UserEmailAuthenticationCodeLookup.code r) ≠ Some (a, c).
Proof.
  unfold UserEmailAuthenticationRepository.unique_code. rewrite bool_decide_eq_true.
  apply unique_pair.
Qed.

Lemma update_checked_any {Row} `{!Table Row} id p (f : Row → Row) cs d n d' :
  update_checked_stmt id p f cs d = Some (n, d') →
  d' = d ∨ ∃ r, rows d !! id = Some r ∧ p r = true ∧ cs d = true ∧
    d' = set_rows (<[id := f r]> (rows d)) d.
Proof.
  unfold update_checked_stmt. destruct (rows d !! id) as [r|]; [|naive_solver].
  destruct (p r) eqn:?, (cs d) eqn:?; naive_solver.
Qed.

Ltac account_facts :=
  repeat match goal with
    | H : UpstreamOAuthLinkRepository.unique_subject _ _ _ = true |- _ =>
        apply andb_prop in H || rewrite unique_subject_true in H; simpl in H
    | H : UserEmailAuthenticationRepository.unique_code _ _ _ = true |- _ =>
        rewrite unique_code_true in H; simpl in H
    end.

Ltac account_solve :=
  constraint_facts; account_facts; constraint_facts;
  match goal with H : account_integrity _ |- _ => destruct H end;
  split; simpl in *; try constraint_solve.

#[export] Hint Extern 1 (keeps (keeps_db preserves_accounts) (execute (insert_stmt _ _ _))) =>
  apply (keeps_db_execute _);
  intros ??? (? & ? & ? & ->)%insert_stmt_inv ?; account_solve : keeps.
#[export] Hint Extern 1 (keeps (keeps_db preserves_accounts) (execute (update_stmt _ _ _))) =>
  apply (keeps_db_execute _);
  intros ??? [->|(? & ? & ? & ->)]%update_stmt_any ?; [done | account_solve] : keeps.
#[export] Hint Extern 1
    (keeps (keeps_db preserves_accounts) (execute (update_row_where_stmt _ _ _))) =>
  apply (keeps_db_execute _);
  intros ??? [->|(? & ? & ? & ->)]%update_row_where_any ?; [done | account_solve] : keeps.
#[export] Hint Extern 1
    (keeps (keeps_db preserves_accounts)
       (execute (UserRegistrationRepository.update_pending_stmt _ _ _))) =>
  apply (keeps_db_execute _);
  intros ??? [->|(? & ? & ? & ? & ->)]%update_checked_any ?; [done | account_solve] : keeps.

(** ** Statements that delete *)

(** The constraints that a deletion keeps whatever the rows: what is left are the
    foreign keys into the table deleted from. *)
Ltac deletion_solve :=
  first
  [ done
  | apply keyed_filter; deletion_solve
  | apply uniq_filter; deletion_solve
  | apply refs_filter_source; deletion_solve
  | apply refs_fmap_target; deletion_solve
  | apply keyed_fmap; [done | intros; by repeat case_match]
  | apply uniq_fmap; [done | intros; by repeat case_match]
  | apply refs_fmap_source; [deletion_solve | intros; by repeat case_match]
  | apply refs_fmap_clear; [deletion_solve | intros; repeat case_match; first [by left | by right]] ].

Lemma delete_sessions_accounts ids d n d' :
  UserRecoveryRepository.delete_sessions_stmt ids d = Some (n, d') → preserves_accounts d d'.
Proof.
  intros [= _ <-] H. destruct H. split; simpl; try deletion_solve.
  apply refs_filter_target; [deletion_solve|].
  intros k r v r' [Hk Hn]%map_lookup_filter_Some [= <-] Hr'. simpl in *.
  apply bool_decide_eq_false. by rewrite (recovery_sessions_pkey0 _ _ Hr').
Qed.

Lemma delete_emails_accounts p d n d' :
  UserEmailRepository.delete_emails_stmt p d = Some (n, d') → preserves_accounts d d'.
Proof.
  intros [= _ <-] H. destruct H. split; simpl; try deletion_solve.
  apply refs_filter_target; [deletion_solve|].
  intros k r v r' [Hk Hn]%map_lookup_filter_Some [= <-] Hr'. simpl in *.
  destruct (p r') eqn:Hp; [|done]. destruct Hn. apply list_elem_of_fmap. exists r'.
  split; [by rewrite (emails_pkey0 _ _ Hr')|]. by eapply elem_of_matching; [exact Hr'|].
Qed.

Lemma delete_authentications_accounts ids d :
  preserves_accounts d (UserRegistrationRepository.delete_authentications ids d).
Proof.
  intros H. destruct H. split; simpl; try deletion_solve.
  - apply refs_filter_target.
    + apply refs_fmap_clear; [done|]. intros r. case_bool_decide; auto.
    + intros k r v r' (r0 & <- & Hr0)%lookup_fmap_Some Hv Hr' Hin. simpl in *.
      case_bool_decide as Hd; [done|]. destruct Hd. rewrite Hv. by apply list_elem_of_fmap_2.
  - apply refs_filter_target; [deletion_solve|].
    by intros k r v r' [Hk Hn]%map_lookup_filter_Some [= <-] Hr'.
Qed.

Lemma delete_registrations_accounts ids d n d' :
  UserRegistrationRepository.delete_registrations_stmt ids d = Some (n, d') →
  preserves_accounts d d'.
Proof.
  intros [= _ <-] H.
  set (auths := UserEmailAuthenticationLookup.user_email_authentication_id <$> _).
  pose proof (email_authentications_pkey _ H) as Hkeyed.
  assert (∀ k a, user_email_authentications (accounts d) !! k = Some a → k ∉ auths →
            UserEmailAuthenticationLookup.user_registration_id a ∉ Some <$> ids) as Hauths.
  { intros k a Ha Hn Hin. apply Hn. apply list_elem_of_fmap. exists a. split.
    - by rewrite (Hkeyed _ _ Ha).
    - eapply elem_of_matching; [exact Ha|]. by apply bool_decide_eq_true. }
  pose proof (delete_authentications_accounts auths d H) as H'. clearbody auths.
  destruct H'. split; simpl in *; try deletion_solve.
  apply refs_filter_target; [deletion_solve|].
  intros k r v r' [Hk Hn]%map_lookup_filter_Some Hv Hr'. simpl in *.
  apply bool_decide_eq_false. rewrite (registrations_pkey0 _ _ Hr'). intros Hin.
  apply (Hauths k r Hk Hn). rewrite Hv. by apply list_elem_of_fmap_2.
Qed.

Lemma delete_upstream_sessions_accounts ids d :
  preserves_accounts d (delete_upstream_sessions ids d).
Proof.
  intros H. destruct H. split; simpl; try deletion_solve.
  - apply refs_filter_target.
    + apply refs_fmap_clear; [done|]. intros r. case_match; auto.
    + intros k r v r' (r0 & <- & Hr0)%lookup_fmap_Some Hv Hr' Hin. simpl in *.
      destruct (UserRegistrationLookup.upstream_oauth_authorization_session_id r0) as [i|] eqn:Hi.
      * case_bool_decide; [done|]. rewrite Hi in Hv. by injection Hv as ->.
      * by rewrite Hi in Hv.
  - apply refs_filter_target.
    + apply refs_fmap_clear; [done|]. intros r. case_match; auto.
    + intros k r v r' (r0 & <- & Hr0)%lookup_fmap_Some Hv Hr' Hin. simpl in *.
      destruct (AuthenticationRow.upstream_oauth_authorization_session_id r0) as [i|] eqn:Hi.
      * case_bool_decide; [done|]. rewrite Hi in Hv. by injection Hv as ->.
      * by rewrite Hi in Hv.
Qed.

Lemma delete_links_accounts p d n d' :
  delete_links_stmt p d = Some (n, d') → preserves_accounts d d'.
Proof.
  unfold delete_links_stmt. case_bool_decide as Hs; [|done]. intros [= _ <-] H.
  destruct H. split; simpl; try deletion_solve.
  apply refs_filter_target; [done|]. intros k r v r' Hk Hv Hr'. simpl.
  destruct (p r') eqn:Hp; [|done]. destruct (Hs k r Hk). rewrite Hv.
  apply list_elem_of_fmap_2, list_elem_of_fmap. exists r'.
  split; [by rewrite (links_pkey0 _ _ Hr')|]. by eapply elem_of_matching; [exact Hr'|].
Qed.

Lemma cleanup_links_accounts ids d n d' :
  UpstreamOAuthLinkRepository.cleanup_links_stmt ids d = Some (n, d') → preserves_accounts d d'.
Proof.
  intros [= _ <-] H.
  set (sessions := UpstreamSessionLookup.upstream_oauth_authorization_session_id <$> _).
  pose proof (upstream_sessions_pkey _ H) as Hkeyed.
  assert (∀ k s i, upstream_oauth_authorization_sessions (accounts d) !! k = Some s →
            k ∉ sessions → UpstreamSessionLookup.upstream_oauth_link_id s = Some i → i ∉ ids)
    as Hsessions.
  { intros k s i Hs Hn Hi Hin. apply Hn. apply list_elem_of_fmap. exists s. split.
    - by rewrite (Hkeyed _ _ Hs).
    - eapply elem_of_matching; [exact Hs|]. rewrite Hi. by apply bool_decide_eq_true. }
  pose proof (delete_upstream_sessions_accounts sessions d H) as H'. clearbody sessions.
  destruct H'. split; simpl in *; try deletion_solve.
  apply refs_filter_target; [deletion_solve|].
  intros k r v r' [Hk Hn]%map_lookup_filter_Some Hv Hr'. simpl in *.
  apply bool_decide_eq_false. rewrite (links_pkey0 _ _ Hr'). eauto.
Qed.

Lemma delete_provider_accounts id d n d' :
  delete_provider_stmt id d = Some (n, d') → preserves_accounts d d'.
Proof.
  unfold delete_provider_stmt. do 2 (case_bool_decide; [|done]). intros [= _ <-] Hd.
  destruct Hd. split; simpl; try deletion_solve.
  - apply refs_filter_target; [done|]. intros k r v r' Hk [= <-] Hr'. simpl.
    apply bool_decide_eq_false. rewrite (providers_pkey0 _ _ Hr'). eauto.
  - apply refs_filter_target; [done|]. intros k r v r' Hk [= <-] Hr'. simpl.
    apply bool_decide_eq_false. rewrite (providers_pkey0 _ _ Hr'). eauto.
Qed.

(** ** The other statements *)

Lemma use_token_any id t d n d' :
  UserRegistrationTokenRepository.use_token_stmt id t d = Some (n, d') →
  ∃ r, user_registration_tokens (accounts d) !! id = Some r ∧
    UserRegistrationTokenLookup.revoked_at r = None ∧
    d' = set_rows (<[id := UserRegistrationTokenRepository.with_use t r]>
                     (user_registration_tokens (accounts d))) d.
Proof.
  unfold UserRegistrationTokenRepository.use_token_stmt. simpl.
  destruct (user_registration_tokens (accounts d) !! id) as [r|]; [|done].
  case_bool_decide; [|done]. destruct (_ <? _)%Z; [|done]. intros [= _ <-]. eauto.
Qed.

Lemma insert_terms_any r d n d' :
  UserTermsRepository.insert_terms_stmt r d = Some (n, d') →
  d' = d ∨ user_terms (accounts d) !! UserTermsRow.user_terms_id r = None ∧
    is_Some (users d !! UserTermsRow.user_id r) ∧
    (∀ k r', user_terms (accounts d) !! k = Some r' →
       Some (UserTermsRow.user_id r', UserTermsRow.terms_url r')
       ≠ Some (UserTermsRow.user_id r, UserTermsRow.terms_url r)) ∧
    d' = set_rows (<[UserTermsRow.user_terms_id r := r]> (user_terms (accounts d))) d.
Proof.
  unfold UserTermsRepository.insert_terms_stmt. case_bool_decide as Hu; [|naive_solver].
  intros (Hn & Hr%exists_row_true & _ & ->)%insert_stmt_inv. right.
  split_and!; [done|done| |done]. by apply unique_pair.
Qed.

Lemma upsert_provider_any id row d n d' :
  UpstreamOAuthProviderRepository.upsert_provider_stmt id row d = Some (n, d') →
  ∃ row', ProviderLookup.upstream_oauth_provider_id row'
          = ProviderLookup.upstream_oauth_provider_id row ∧
    d' = set_rows (<[id := row']> (upstream_oauth_providers (accounts d))) d.
Proof. intros [= _ <-]. eexists. split; [|reflexivity]. by case_match. Qed.

Lemma alter_Some {A} (f : A → A) k (m : gmap Z A) x :
  m !! k = Some x → alter f k m = <[k := f x]> m.
Proof.
  intros Hk. apply map_eq. intros i. destruct (decide (i = k)) as [->|].
  - by rewrite lookup_alter_eq, lookup_insert_eq, Hk.
  - by rewrite lookup_alter_ne, lookup_insert_ne.
Qed.
Lemma alter_None {A} (f : A → A) k (m : gmap Z A) : m !! k = None → alter f k m = m.
Proof.
  intros Hk. apply map_eq. intros i. destruct (decide (i = k)) as [->|].
  - by rewrite lookup_alter_eq, Hk.
  - by rewrite lookup_alter_ne.
Qed.
Lemma alter_cases {A} (f : A → A) k (m : gmap Z A) :
  alter f k m = m ∨ ∃ x, m !! k = Some x ∧ alter f k m = <[k := f x]> m.
Proof.
  destruct (m !! k) as [x|] eqn:Hk; [right | left; by apply alter_None].
  exists x. split; [done|]. by apply alter_Some.
Qed.

(** The trigger gives an authorization session its browser session. *)
Lemma track_user_session_accounts r d :
  preserves_accounts d (SessionAuthentications.track_user_session r d).
Proof.
  intros H. unfold SessionAuthentications.track_user_session.
  destruct (AuthenticationRow.upstream_oauth_authorization_session_id r) as [k|]; [|done].
  set (f := λ s, _).
  assert (∀ s, UpstreamSessionLookup.upstream_oauth_authorization_session_id (f s)
                 = UpstreamSessionLookup.upstream_oauth_authorization_session_id s ∧
               UpstreamSessionLookup.upstream_oauth_provider_id (f s)
                 = UpstreamSessionLookup.upstream_oauth_provider_id s ∧
               UpstreamSessionLookup.upstream_oauth_link_id (f s)
                 = UpstreamSessionLookup.upstream_oauth_link_id s ∧
               UpstreamSessionLookup.state (f s) = UpstreamSessionLookup.state s) as Hf.
  { intros s. unfold f. by case_bool_decide. }
  clearbody f. simpl.
  destruct (alter_cases f k (upstream_oauth_authorization_sessions (accounts d)))
    as [->|(s & Hs & ->)]; [by destruct H; split|].
  destruct (Hf s) as (Hid & Hprovider & Hlink & Hstate). destruct H.
  split; simpl;
    first [ done
          | apply refs_insert_target; done
          | eapply keyed_update; done
          | eapply uniq_update; [done..|by rewrite Hstate]
          | eapply refs_update_source; [done..|by rewrite ?Hprovider] ].
Qed.

Lemma insert_authentication_accounts r d n d' :
  SessionAuthentications.insert_authentication_stmt r d = Some (n, d') → preserves_accounts d d'.
Proof.
  unfold SessionAuthentications.insert_authentication_stmt.
  destruct (insert_stmt _ _ _ _) as [[n1 d1]|] eqn:Hi; [|done]. intros [= _ <-] H.
  apply track_user_session_accounts. apply insert_stmt_inv in Hi as (? & ? & _ & ->).
  account_solve.
Qed.

#[export] Hint Extern 1
    (keeps (keeps_db preserves_accounts) (execute (UserRegistrationTokenRepository.use_token_stmt _ _))) =>
  apply (keeps_db_execute _); intros ??? (? & ? & ? & ->)%use_token_any ?; account_solve : keeps.
#[export] Hint Extern 1
    (keeps (keeps_db preserves_accounts) (execute (UserTermsRepository.insert_terms_stmt _))) =>
  apply (keeps_db_execute _);
  intros ??? [->|(? & ? & ? & ->)]%insert_terms_any ?; [done | account_solve] : keeps.
#[export] Hint Extern 1
    (keeps (keeps_db preserves_accounts)
       (execute (UpstreamOAuthProviderRepository.upsert_provider_stmt _ _))) =>
  apply (keeps_db_execute _);
  intros ??? (? & ? & ->)%upsert_provider_any ?; account_solve : keeps.
#[export] Hint Extern 1
    (keeps (keeps_db preserves_accounts)
       (execute (SessionAuthentications.insert_authentication_stmt _))) =>
  apply (keeps_db_execute _); apply insert_authentication_accounts : keeps.
#[export] Hint Extern 1
    (keeps (keeps_db preserves_accounts) (execute (UserRecoveryRepository.delete_sessions_stmt _))) =>
  apply (keeps_db_execute _); apply delete_sessions_accounts : keeps.
#[export] Hint Extern 1
    (keeps (keeps_db preserves_accounts) (execute (UserEmailRepository.delete_emails_stmt _))) =>
  apply (keeps_db_execute _); apply delete_emails_accounts : keeps.
#[export] Hint Extern 1
    (keeps (keeps_db preserves_accounts)
       (execute (UserRegistrationRepository.delete_registrations_stmt _))) =>
  apply (keeps_db_execute _); apply delete_registrations_accounts : keeps.
#[export] Hint Extern 1
    (keeps (keeps_db preserves_accounts)
       (execute (UserEmailAuthenticationRepository.delete_authentications_stmt _))) =>
  apply (keeps_db_execute _); intros ??? [= _ <-]; apply delete_authentications_accounts : keeps.
#[export] Hint Extern 1
    (keeps (keeps_db preserves_accounts) (execute (delete_upstream_sessions_stmt _))) =>
  apply (keeps_db_execute _); intros ??? [= _ <-]; apply delete_upstream_sessions_accounts : keeps.
#[export] Hint Extern 1
    (keeps (keeps_db preserves_accounts) (execute (λ d, Some (_, delete_upstream_sessions _ d)))) =>
  apply (keeps_db_execute _); intros ??? [= _ <-]; apply delete_upstream_sessions_accounts : keeps.
#[export] Hint Extern 1
    (keeps (keeps_db preserves_accounts) (execute (delete_links_stmt _))) =>
  apply (keeps_db_execute _); apply delete_links_accounts : keeps.
#[export] Hint Extern 1
    (keeps (keeps_db preserves_accounts)
       (execute (UpstreamOAuthLinkRepository.cleanup_links_stmt _))) =>
  apply (keeps_db_execute _); apply cleanup_links_accounts : keeps.
#[export] Hint Extern 1
    (keeps (keeps_db preserves_accounts) (execute (delete_provider_stmt _))) =>
  apply (keeps_db_execute _); apply delete_provider_accounts : keeps.
#[export] Hint Extern 1
    (keeps (keeps_db preserves_accounts) (execute (UserRepository.insert_user_stmt _))) =>
  apply (keeps_db_execute _);
  intros ??? [->|(? & ? & ->)]%insert_user_any ?; [done | account_solve] : keeps.
#[export] Hint Extern 2 (keeps (keeps_db preserves_accounts) (execute _)) =>
  apply (keeps_db_execute _); unfold update_where_stmt, delete_threepids_stmt;
  intros ??? [= _ <-] Hd; destruct Hd; split; simpl; deletion_solve : keeps.
