(* ===== verification/AccountSteps.v ===== *)
(** * The pages, the registrations, the mutations and the tasks in a history

    The requests and jobs of [Authorization], [DeviceConsent], [Registration],
    [Tasks], [Register], [AccountPages] and [AccountMutations] as steps that keep
    the integrity of the database, and a concrete deployment with accounts. *)

From stdpp Require Import base tactics list strings gmap.
From Stdlib Require Import ZArith Lia Ascii.
From S2P Require Import Prelude Text Scope Externals Formats Pagination TokenFormat DataModel CompatModel Storage TokenRepo GrantRepo QueueRepo UserRepo CompatRepo PersonalRepo Jobs Tasks Passwords ClientAuth TokenEndpoint GraphqlSession WebSession CompatEndpoints Authorization DeviceConsent ClientMetadata Registration RepoFacts CompatRepoFacts Integrity Evolution TokenFacts TaskFacts DeactivationFacts CompatRefreshFacts ConsentFacts RegistrationFacts AccountModel RegisterForms Register AccountMutations AccountIntegrity Scenario UpstreamModel UpstreamRepo AccountRepo AccountPages GraphqlFacts.

(** ** The pages, the registration of clients and the tasks in a history

    The handlers of [Authorization], [DeviceConsent] and [Registration] and the
    tasks of [Tasks] keep the integrity of the database and only move its rows
    forward. *)

#[export] Hint Unfold lock_out Authorization.get Authorization.request_grant ConsentPage.get
  ConsentPage.post DeviceConsent.get DeviceConsent.post DeviceConsent.link_get
  DeviceConsent.link_post PersonalSessionRepository.list BrowserSessionListing.list : mas_ops.

(** ** Loops *)

Section Loops.
Context {R : Type} `{!RngCore R} {ulid_text : UlidText} {chrono : ChronoText}
  {texts : ErrorTexts} (Q : World R → World R → Prop) `{!PreOrder Q}.

Lemma keeps_cycle {A} (list_op : Pagination.t → M (World R) DatabaseError (Page.t A)) devices_of
    fuel p D :
  (∀ p, keeps Q (list_op p)) → keeps Q (cycle list_op devices_of fuel p D).
Proof.
  intros Hl. revert p D. induction fuel as [|fuel IH]; intros p D; simpl; [keeps_tac|].
  apply keeps_bind; [done|unfold retry_db; keeps_tac; auto|]. intros page.
  destruct (foldl _ _ _) as [p' D']. destruct (Page.has_next_page page); [apply IH|keeps_tac].
Qed.
Lemma keeps_expire_oauth f es u d :
  (∀ u d t, keeps Q (sync_once (R := R) u d t)) →
  (∀ s, keeps Q (SessionRepository.finish (R := R) s)) →
  keeps Q (expire_oauth (R := R) f es u d).
Proof.
  intros Hs Hf. revert u d. induction es as [|e es IH]; intros u d; simpl; [keeps_tac|].
  destruct (f _); simpl; [|auto]. apply keeps_bind; [done|by destruct (Session.user_id _); keeps_tac|].
  intros [u' d']. apply keeps_bind; [done|unfold retry_db; keeps_tac; auto|auto].
Qed.
Lemma keeps_expire_compat es u d :
  (∀ u d t, keeps Q (sync_once (R := R) u d t)) →
  (∀ s, keeps Q (CompatSessionRepository.finish (R := R) s)) →
  keeps Q (expire_compat (R := R) es u d).
Proof.
  intros Hs Hf. revert u d. induction es as [|e es IH]; intros u d; simpl; [keeps_tac|].
  apply keeps_bind; [done|auto|]. intros [u' d'].
  apply keeps_bind; [done|unfold retry_db; keeps_tac; auto|auto].
Qed.
Lemma keeps_expire_browser es :
  (∀ s, keeps Q (BrowserSessionRepository.finish (R := R) s)) →
  keeps Q (expire_browser (R := R) es).
Proof.
  intros Hf. induction es as [|e es IH]; simpl; [keeps_tac|].
  apply keeps_bind; [done|unfold retry_db; keeps_tac; auto|auto].
Qed.
End Loops.

#[export] Hint Extern 1 (keeps _ (cycle _ _ _ _ _)) =>
  apply keeps_cycle; [apply _ | intros; keeps_tac] : keeps.
#[export] Hint Extern 1 (keeps _ (expire_oauth _ _ _ _)) =>
  apply keeps_expire_oauth; [apply _ | intros; keeps_tac..] : keeps.
#[export] Hint Extern 1 (keeps _ (expire_compat _ _ _)) =>
  apply keeps_expire_compat; [apply _ | intros; keeps_tac..] : keeps.
#[export] Hint Extern 1 (keeps _ (expire_browser _)) =>
  apply keeps_expire_browser; [apply _ | intros; keeps_tac..] : keeps.

(** ** Requests and jobs *)
Section Steps.
Context {R : Type} `{!RngCore R} {rng_bytes : RngBytes R} {base64 : Base64} {sha2 : Sha2}
  {ulid_text : UlidText} {url_lib : UrlLib} {url_split : UrlSplit} {url_edit : UrlEdit}
  {url_encoded : UrlEncoded} {jwks_json : JwksJson} {policy : Policy} {keystore : Keystore R}
  {pg_text : PgText} {collation : PgCollation} {unicode : UnicodeCase} {chrono : ChronoText}
  {texts : ErrorTexts} {aead : Aead} {base64_std : Base64Std} {psl : PublicSuffixes} {hex : Hex}
  {json : MetadataJson} {registration_policy : RegistrationPolicy}.
Implicit Types w : World R.

(** A request to the pages of the browser or to the registration. *)
Inductive page_step : World R → World R → Prop :=
| page_authorization ip locale info raw params w :
    page_step w (Authorization.authorization_request ip locale info raw params w).2
| page_consent ip ua jar id w : page_step w (ConsentPage.consent_get_request ip ua jar id w).2
| page_consent_post ip ua jar csrf id w :
    page_step w (ConsentPage.consent_post_request ip ua jar csrf id w).2
| page_device ip cfg ua jar id w :
    page_step w (DeviceConsent.device_page_request ip cfg ua jar id w).2
| page_device_post ip cfg locale providers ua jar csrf form id w :
    page_step w (DeviceConsent.device_consent_request ip cfg locale providers ua jar csrf form
      id w).2
| page_registration ip cfg ua nonce body w :
    page_step w (Registration.registration_request ip cfg ua nonce body w).2.

(** A run of a job. *)
Inductive job_step : World R → World R → Prop :=
| job_provision_user job w : job_step w (provision_user_job job w).2
| job_provision_device job w : job_step w (provision_device_job job w).2
| job_delete_device job w : job_step w (delete_device_job job w).2
| job_sync_devices fuel job w : job_step w (sync_devices_job fuel job w).2
| job_deactivate job w : job_step w (deactivate_user_job job w).2
| job_reactivate job w : job_step w (reactivate_user_job job w).2
| job_expire_inactive config w : job_step w (expire_inactive_sessions_job config w).2
| job_expire_pg config w : job_step w (expire_pg_sessions_job config w).2
| job_expire_oauth job w : job_step w (expire_inactive_oauth_sessions_job job w).2
| job_expire_compat job w : job_step w (expire_inactive_compat_sessions_job job w).2
| job_expire_user job w : job_step w (expire_inactive_user_sessions_job job w).2
| job_expire_pg_oauth job w : job_step w (expire_pg_oauth_sessions_job job w).2.

(** The error of a request of a client is answered by another run. *)
Lemma keeps_caught (Q : World R → World R → Prop) `{!Transitive Q} {E F A} (m : M (World R) E A)
    (k : M (World R) F A) :
  keeps Q m → keeps Q k → keeps Q (λ w, match m w with
                                         | (Ok r, w') => (Ok r, w')
                                         | (Err _, w') => k w'
                                         end).
Proof.
  intros Hm Hk w. specialize (Hm w). destruct (m w) as [[a|e] w']; [done|].
  by transitivity w'.
Qed.
End Steps.

Ltac page_step_tac :=
  destruct 1; txn_goal; (apply txn_keeps_pool; [apply _ | keeps_tac; try (apply keeps_caught; [apply _|keeps_tac..])]).

Ltac job_tac :=
  repeat (intros; lazymatch goal with
    | |- txn_keeps _ (bind (retry_db from_pool) _) =>
        apply txn_keeps_pool; [apply _ | keeps_tac]
    | |- txn_keeps _ (match ?x with _ => _ end) => destruct x
    | |- txn_keeps _ (bind (lock_out _) _) => apply txn_keeps_bind; [apply _ | unfold lock_out|]
    | |- txn_keeps _ (bind now _) => apply txn_keeps_bind; [apply _ | |]
    | |- txn_keeps _ _ => apply txn_keeps_same; [apply _ | keeps_tac]
    end).
Ltac job_step_tac :=
  destruct 1; txn_goal;
  unfold provision_user_job, provision_device_job, delete_device_job, sync_devices_job,
    deactivate_user_job, reactivate_user_job, expire_inactive_sessions_job,
    expire_pg_sessions_job, expire_inactive_oauth_sessions_job,
    expire_inactive_compat_sessions_job, expire_inactive_user_sessions_job,
    expire_pg_oauth_sessions_job; job_tac.

Section Preserved.
Context {R : Type} `{!RngCore R} {rng_bytes : RngBytes R} {base64 : Base64} {sha2 : Sha2}
  {ulid_text : UlidText} {url_lib : UrlLib} {url_split : UrlSplit} {url_edit : UrlEdit}
  {url_encoded : UrlEncoded} {jwks_json : JwksJson} {policy : Policy} {keystore : Keystore R}
  {pg_text : PgText} {collation : PgCollation} {unicode : UnicodeCase} {chrono : ChronoText}
  {texts : ErrorTexts} {aead : Aead} {base64_std : Base64Std} {psl : PublicSuffixes} {hex : Hex}
  {json : MetadataJson} {registration_policy : RegistrationPolicy}.
Implicit Types w : World R.

Lemma page_step_integrity w w' :
  page_step w w' → preserves_integrity (w_committed w) (w_committed w').
Proof. page_step_tac. Qed.
Lemma page_step_evolves w w' : page_step w w' → evolves (w_committed w) (w_committed w').
Proof. page_step_tac. Qed.

Lemma job_step_integrity w w' :
  job_step w w' → preserves_integrity (w_committed w) (w_committed w').
Proof. job_step_tac. Qed.
Lemma job_step_evolves w w' : job_step w w' → evolves (w_committed w) (w_committed w').
Proof. job_step_tac. Qed.
End Preserved.

(** ** A concrete deployment with accounts

    Instances of the parameters of the registration, the account pages, the
    mutations and the emails, and a small database: a user with a password, an
    address and a recovery under way, and somebody about to finish a
    registration. *)

#[local] Open Scope Z_scope.

Module AccountScenario.
Import Scenario.

#[export] Instance counter_below : RngUniform Z := λ bound n, (n mod bound, n + 1).
#[export] Instance every_localpart : FreeLocalparts := λ _, true.
#[export] Instance every_address : AddressParser := λ s, negb (bool_decide (s = ""%string)).
#[export] Instance every_locale : LocaleParser := λ _, true.
#[export] Instance allow_registrations : RegisterPolicy := λ _ _ _ _, Some [].
#[export] Instance allow_emails : EmailPolicy := λ _ _, Some [].
#[export] Instance no_captcha : CaptchaApi := λ _ _ _ _, None.
#[export] Instance no_account_limits : AccountLimits := {
  account_recovery_per_requester _ := true;
  account_recovery_per_email _ := true;
  registration_per_requester _ := true;
  email_authentication_per_requester _ := true;
  email_authentication_per_email _ := true;
  email_authentication_emails_per_session _ := true;
  email_authentication_attempt_per_session _ := true;
}.
#[export] Instance ascii_lowercase : UnicodeLower := Counter.ascii_lower.
#[export] Instance no_json : PgJson := λ _ _, None.
#[export] Instance same_text : PgPattern := λ s p, bool_decide (s = p).
#[export] Instance every_mail : Mailer := λ _, true.

Definition alice_password : UserPasswordLookup.t := UserPasswordLookup.mk 5 2 "ahunter2" 2 None 0.
Definition alice_email : UserEmailLookup.t := UserEmailLookup.mk 7 2 "alice@example.com" 0.
Definition recovery : UserRecoverySessionRow.t :=
  UserRecoverySessionRow.mk 8 "alice@example.com" "browser" None "en" 0 None.
Definition ticket : UserRecoveryTicketRow.t :=
  UserRecoveryTicketRow.mk 9 8 7 "ticket" 0 600000000.

(** Bob has chosen a name and a password, and confirmed his address. *)
Definition invitation : UserRegistrationTokenLookup.t :=
  UserRegistrationTokenLookup.mk 12 "invitation" (Some 1) 0 0 None None None.
Definition bob_email : UserEmailAuthenticationLookup.t :=
  UserEmailAuthenticationLookup.mk 11 None (Some 10) "bob@example.com" 0 (Some 1000000).
Definition bob : UserRegistrationLookup.t :=
  UserRegistrationLookup.mk 10 None None None "bob" (Some "Bob"%string) None (Some 11) (Some 12)
    (Some "acorrect horse"%string) (Some 2) None 0 None.

Definition account_db : Db :=
  mkDb ∅ {[2 := user]} {[3 := browser]} ∅ ∅ ∅ ∅ ∅ ∅ ∅ ∅ ∅ None ∅ ∅ ∅ ∅ ∅ ∅
    {[5 := alice_password]} {[7 := alice_email]} ∅
    (mkAccounts {[10 := bob]} {[12 := invitation]} ∅ {[11 := bob_email]} ∅ {[8 := recovery]}
       {[9 := ticket]} ∅ ∅ ∅).
Definition account_world : World Z := world account_db 0 0.

Definition account_config : AccountConfig :=
  mkAccountConfig true true true true true true true true true true None None "auth.example.com".

Definition bob_cookies : RegisterJar :=
  mkRegisterJar (mkCookieJar (Ok None) (Graphql.mkSessionInfo None None)) (Ok (Some {[10]})).

Ltac check_constraints :=
  split; intros k *; simpl; intros;
    repeat match goal with
      | H : {[_ := _]} !! _ = Some _ |- _ => apply lookup_singleton_Some in H as [<- <-]
      | H : ∅ !! _ = Some _ |- _ => by rewrite lookup_empty in H
      end; try done; simplify_eq/=; vm_compute; eauto.

Lemma integrity_account_db : integrity account_db.
Proof. check_constraints. Qed.
Lemma account_integrity_db : account_integrity account_db.
Proof. check_constraints. Qed.
End AccountScenario.

(** *** The registration, the account pages, the mutations and the emails in a
      history

    A request to the handlers of [Register], [AccountPages] and [AccountMutations],
    or a run of the jobs of [Tasks] that send emails, as a step, and that a step keeps the
    integrity of the account tables. *)

#[export] Hint Unfold
  UserRegistrationRepository.lookup UserRegistrationRepository.add
  UserRegistrationRepository.set_display_name UserRegistrationRepository.set_terms_url
  UserRegistrationRepository.set_email_authentication UserRegistrationRepository.set_password
  UserRegistrationRepository.set_registration_token
  UserRegistrationRepository.set_upstream_oauth_authorization_session
  UserRegistrationRepository.complete UserRegistrationRepository.cleanup
  UserRegistrationTokenRepository.lookup UserRegistrationTokenRepository.find_by_token
  UserRegistrationTokenRepository.add UserRegistrationTokenRepository.use_token
  UserRegistrationTokenRepository.revoke UserRegistrationTokenRepository.unrevoke
  UserRegistrationTokenRepository.set_expiry UserRegistrationTokenRepository.set_usage_limit
  UserTermsRepository.accept_terms
  UserEmailAuthenticationRepository.add_authentication_for_session
  UserEmailAuthenticationRepository.add_authentication_for_registration
  UserEmailAuthenticationRepository.add_authentication_code
  UserEmailAuthenticationRepository.lookup_authentication
  UserEmailAuthenticationRepository.find_authentication_code
  UserEmailAuthenticationRepository.complete_authentication
  UserEmailAuthenticationRepository.complete_authentication_with_code
  UserEmailAuthenticationRepository.complete_authentication_with_upstream
  UserEmailAuthenticationRepository.cleanup_authentications
  UserRecoveryRepository.lookup_session UserRecoveryRepository.add_session
  UserRecoveryRepository.find_ticket UserRecoveryRepository.add_ticket
  UserRecoveryRepository.consume_ticket UserRecoveryRepository.cleanup
  SessionAuthentications.authenticate_with_password
  SessionAuthentications.authenticate_with_upstream
  UpstreamOAuthProviderRepository.lookup UpstreamOAuthProviderRepository.add
  UpstreamOAuthProviderRepository.delete_by_id UpstreamOAuthProviderRepository.upsert
  UpstreamOAuthProviderRepository.disable UpstreamOAuthProviderRepository.all_enabled
  UpstreamOAuthLinkRepository.lookup UpstreamOAuthLinkRepository.find_by_subject
  UpstreamOAuthLinkRepository.add UpstreamOAuthLinkRepository.associate_to_user
  UpstreamOAuthLinkRepository.remove UpstreamOAuthLinkRepository.cleanup_orphaned
  UpstreamOAuthSessionRepository.lookup UpstreamOAuthSessionRepository.add
  UpstreamOAuthSessionRepository.complete_with_link UpstreamOAuthSessionRepository.consume
  UpstreamOAuthSessionRepository.cleanup_orphaned
  UserEmailRepository.lookup UserEmailRepository.find UserEmailRepository.find_by_email
  UserEmailRepository.list UserEmailRepository.count UserEmailRepository.remove
  delete_unsupported_threepids : mas_ops.

#[export] Hint Unfold
  Register.repo Register.context Register.page load_context stored_action resume
  load_registration RegisterStart.get RegisterPassword.render RegisterPassword.get
  RegisterPassword.check_username RegisterPassword.validate RegisterPassword.create
  RegisterPassword.post RegisterVerify.load_authentication RegisterVerify.get RegisterVerify.post
  RegisterTokenStep.get RegisterTokenStep.usable_token RegisterTokenStep.post RegisterNameStep.get
  RegisterNameStep.post RegisterEnd.check_username RegisterEnd.load_upstream_session
  RegisterEnd.token_required RegisterEnd.check_token RegisterEnd.check_email
  RegisterEnd.check_upstream RegisterEnd.when_some RegisterEnd.add_email RegisterEnd.add_password
  RegisterEnd.add_upstream RegisterEnd.create_user RegisterEnd.complete RegisterEnd.get
  LogoutPage.end_session LogoutPage.post LoginPage.render LoginPage.get
  LoginPage.get_user_by_email_or_by_username LoginPage.check_credentials LoginPage.start_session
  LoginPage.post RecoveryPage.unless_logged_in RecoveryPage.start_get RecoveryPage.start_post
  RecoveryPage.with_session RecoveryPage.progress_get RecoveryPage.progress_post
  load_session_or_fallback Login.on_rng : mas_ops.

#[export] Hint Unfold
  AccountMutations.graphql AccountMutations.db AccountMutations.needed AccountMutations.refused
  AccountMutations.unauthorized AccountMutations.call AccountMutations.verify_password_if_needed
  UserMutations.add_user UserMutations.with_user UserMutations.lock_user UserMutations.unlock_user
  UserMutations.set_can_request_admin UserMutations.allow_user_cross_signing_reset
  UserMutations.replace_password UserMutations.check_current_password UserMutations.set_password
  UserMutations.ticket_user UserMutations.set_password_by_recovery
  UserMutations.resend_recovery_email UserMutations.deactivate_user
  MatrixMutations.set_display_name UserEmailMutations.policy_on UserEmailMutations.add_email
  UserEmailMutations.remove_email UserEmailMutations.set_primary_email
  UserEmailMutations.email_changer UserEmailMutations.start_email_authentication
  UserEmailMutations.resend_email_authentication_code UserEmailMutations.add_verified
  UserEmailMutations.complete_email_authentication SessionMutations.end_browser_session
  SessionMutations.with_compat_session SessionMutations.end_compat_session
  SessionMutations.set_compat_session_name
  fail_db or_fail fail_unless load_browser_session load_user_registration send_ticket : mas_ops.

(** *** Steps *)
Section Steps.
Context {R C : Type} `{!RngCore R, !RngBytes R, !RngUniform R} {base64 : Base64}
  {ulid_text : UlidText} {url_lib : UrlLib} {pg_text : PgText} {collation : PgCollation}
  {texts : ErrorTexts} {password_crates : PasswordCrates R C} {localparts : FreeLocalparts}
  {addresses : AddressParser} {locales : LocaleParser} {register_policy : RegisterPolicy}
  {email_policy : EmailPolicy} {captcha_api : CaptchaApi} {account_limits : AccountLimits}
  {limits : Limits} {lower : UnicodeLower} {names : MatrixNames} {mailer : Mailer}.
Implicit Types w : World R.

Definition opened {A} (m : M (World R) InternalError A) : M (World R) InternalError A :=
  do! repo from_pool; m.

(** A request to the registration. *)
Inductive register_step : World R → World R → Prop :=
| register_start ip cfg query jar w :
    register_step w (opened (RegisterStart.get ip cfg query jar) w).2
| register_password pm ip cfg locale ua query cookies csrf form w :
    register_step w
      (opened (RegisterPassword.post pm ip cfg locale ua query cookies csrf form) w).2
| register_verify jar id csrf code w :
    register_step w (opened (RegisterVerify.post jar id csrf code) w).2
| register_token jar id csrf token w :
    register_step w (opened (RegisterTokenStep.post jar id csrf token) w).2
| register_name jar id csrf action name w :
    register_step w (opened (RegisterNameStep.post jar id csrf action name) w).2
| register_finish ip cfg ua cookies id w :
    register_step w (RegisterEnd.register_finish_request ip cfg ua cookies id w).2.

(** A request to the pages of the account. *)
Inductive account_page_step : World R → World R → Prop :=
| page_logout ip jar csrf form w :
    account_page_step w (LogoutPage.logout_request ip jar csrf form w).2
| page_login ip cfg query hint jar w :
    account_page_step w (opened (LoginPage.get ip cfg query hint jar) w).2
| page_login_post pm ip cfg ua query hint jar csrf form w :
    account_page_step w
      (LoginPage.login_page_request pm ip cfg ua query hint jar csrf form w).2
| page_recovery_start ip cfg locale ua jar csrf email w :
    account_page_step w
      (opened (RecoveryPage.start_post ip cfg locale ua jar csrf email) w).2
| page_recovery_progress ip cfg jar csrf id w :
    account_page_step w (opened (RecoveryPage.progress_post ip cfg jar csrf id) w).2.

(** A mutation of the GraphQL interface. *)
Inductive mutation_step : World R → World R → Prop :=
| mutation_add_user requester name skip w :
    mutation_step w (UserMutations.add_user requester name skip w).2
| mutation_lock requester id deactivate w :
    mutation_step w (UserMutations.lock_user requester id deactivate w).2
| mutation_unlock requester id w : mutation_step w (UserMutations.unlock_user requester id w).2
| mutation_admin requester id b w :
    mutation_step w (UserMutations.set_can_request_admin requester id b w).2
| mutation_cross_signing requester id w :
    mutation_step w (UserMutations.allow_user_cross_signing_reset requester id w).2
| mutation_password requester cfg pm id current new w :
    mutation_step w (UserMutations.set_password requester cfg pm id current new w).2
| mutation_recovery requester cfg pm ticket new w :
    mutation_step w (UserMutations.set_password_by_recovery requester cfg pm ticket new w).2
| mutation_resend ip ticket w : mutation_step w (UserMutations.resend_recovery_email ip ticket w).2
| mutation_deactivate requester cfg pm erase password w :
    mutation_step w (UserMutations.deactivate_user requester cfg pm erase password w).2
| mutation_display_name requester allowed id name w :
    mutation_step w (MatrixMutations.set_display_name requester allowed id name w).2
| mutation_add_email requester id email skip w :
    mutation_step w (UserEmailMutations.add_email requester id email skip w).2
| mutation_remove_email requester cfg pm id password w :
    mutation_step w (UserEmailMutations.remove_email requester cfg pm id password w).2
| mutation_primary requester cfg id w :
    mutation_step w (UserEmailMutations.set_primary_email requester cfg id w).2
| mutation_start requester cfg pm email language password w :
    mutation_step w
      (UserEmailMutations.start_email_authentication requester cfg pm email language password w).2
| mutation_resend_code requester cfg id language w :
    mutation_step w
      (UserEmailMutations.resend_email_authentication_code requester cfg id language w).2
| mutation_complete requester cfg id code w :
    mutation_step w (UserEmailMutations.complete_email_authentication requester cfg id code w).2
| mutation_end_browser requester id w :
    mutation_step w (SessionMutations.end_browser_session requester id w).2
| mutation_end_compat requester id w :
    mutation_step w (SessionMutations.end_compat_session requester id w).2
| mutation_name_compat requester id name w :
    mutation_step w (SessionMutations.set_compat_session_name requester id name w).2.

(** A run of a job that sends emails. *)
Inductive email_job_step : World R → World R → Prop :=
| job_send_code job w : email_job_step w (send_email_authentication_code_job job w).2
| job_send_recovery fuel job w :
    email_job_step w (send_account_recovery_emails_job fuel job w).2.

Definition account_step w w' : Prop :=
  register_step w w' ∨ account_page_step w w' ∨ mutation_step w w' ∨ email_job_step w w'.
End Steps.

(** *** What is kept *)
Section Loops.
Context {R : Type} `{!RngCore R, !RngUniform R} {ulid_text : UlidText} {pg_text : PgText}
  {texts : ErrorTexts} {addresses : AddressParser} (Q : World R → World R → Prop) `{!PreOrder Q}.

Lemma keeps_send_tickets session edges cursor sent :
  (∀ e, keeps Q (send_ticket (R := R) session e)) →
  keeps Q (send_tickets (R := R) session edges cursor sent).
Proof.
  intros Hs. revert cursor sent. induction edges as [|e es IH]; intros; simpl; [keeps_tac|].
  apply keeps_bind; auto.
Qed.

Lemma keeps_send_pages fuel session cursor sent :
  (∀ e, keeps Q (send_ticket (R := R) session e)) →
  (∀ f p, keeps Q (UserEmailRepository.list (R := R) f p)) →
  keeps Q (send_pages (R := R) fuel session cursor sent).
Proof.
  intros Hs Hl. revert cursor sent. induction fuel as [|fuel IH]; intros; simpl; [keeps_tac|].
  apply keeps_bind; [done|unfold retry_db; keeps_tac; auto|]. intros page.
  apply keeps_bind; [done|by apply keeps_send_tickets|]. intros [c s].
  destruct (Page.has_next_page page); [apply IH|keeps_tac].
Qed.
End Loops.

#[export] Hint Extern 1 (keeps _ (send_pages _ _ _ _)) =>
  apply keeps_send_pages; [apply _ | intros; keeps_tac..] : keeps.

(** *** Statements on the tables of the accounts *)

(** The rest of the database. *)
Definition core (d : Db) : Db :=
  set_rows (∅ : gmap Z AuthenticationRow.t)
    (set_rows (∅ : gmap Z UserEmailLookup.t) (set_third_party_ids ∅ (set_accounts no_accounts d))).

(** A relation that only reads the rest. *)
Class OnCore (Q : Db → Db → Prop) := on_core : ∀ d d', core d' = core d → Q d d'.

#[export] Instance evolves_on_core : OnCore evolves.
Proof.
  intros d d' H. assert (evolves (core d) (core d')) as [] by (by rewrite H). by split.
Qed.
#[export] Instance integrity_on_core : OnCore preserves_integrity.
Proof.
  intros d d' H Hd. assert (integrity (core d)) as Hc by (destruct Hd; by split).
  rewrite <-H in Hc. destruct Hc. by split.
Qed.

Definition recoveries_of (d : Db) : gmap Z UserRecoverySessionRow.t :=
  user_recovery_sessions (accounts d).

(** A relation that reads the rest and the recoveries. *)
Class OnRecoveries (Q : Db → Db → Prop) :=
  on_recoveries : ∀ d d', core d' = core d → recoveries_of d' = recoveries_of d → Q d d'.

#[export] Instance core_on_recoveries Q `{!OnCore Q} : OnRecoveries Q.
Proof. intros d d' H _. by apply on_core. Qed.

Lemma delete_recovery_core (Q : Db → Db → Prop) `{!OnCore Q, !PreOrder Q} {R : Type} ids :
  keeps (keeps_db Q) (execute (R := R) (UserRecoveryRepository.delete_sessions_stmt ids)).
Proof. apply (keeps_db_execute _). intros ??? [= _ <-]. by apply on_core. Qed.

Section Core.
Context (Q : Db → Db → Prop) `{!OnRecoveries Q, !PreOrder Q} {R : Type}.

Lemma use_token_core id t :
  keeps (keeps_db Q) (execute (R := R) (UserRegistrationTokenRepository.use_token_stmt id t)).
Proof.
  apply (keeps_db_execute _). intros ??? (? & _ & _ & ->)%use_token_any. by apply on_recoveries.
Qed.
Lemma insert_terms_core r :
  keeps (keeps_db Q) (execute (R := R) (UserTermsRepository.insert_terms_stmt r)).
Proof.
  apply (keeps_db_execute _).
  intros ??? [->|(_ & _ & _ & ->)]%insert_terms_any; by apply on_recoveries.
Qed.
Lemma insert_authentication_core r :
  keeps (keeps_db Q) (execute (R := R) (SessionAuthentications.insert_authentication_stmt r)).
Proof.
  apply (keeps_db_execute _). intros d n d' H.
  unfold SessionAuthentications.insert_authentication_stmt in H.
  destruct (insert_stmt _ _ _ _) as [[? d1]|] eqn:Hi; [|done]. injection H as _ <-.
  apply insert_stmt_inv in Hi as (_ & _ & _ & ->).
  unfold SessionAuthentications.track_user_session. case_match; by apply on_recoveries.
Qed.
Lemma update_pending_core r f cs :
  keeps (keeps_db Q) (execute (R := R) (UserRegistrationRepository.update_pending_stmt r f cs)).
Proof.
  apply (keeps_db_execute _).
  intros ??? [->|(? & _ & _ & _ & ->)]%update_checked_any; by apply on_recoveries.
Qed.
Lemma delete_emails_core p :
  keeps (keeps_db Q) (execute (R := R) (UserEmailRepository.delete_emails_stmt p)).
Proof. apply (keeps_db_execute _). intros ??? [= _ <-]. by apply on_recoveries. Qed.
Lemma delete_registrations_core ids :
  keeps (keeps_db Q) (execute (R := R) (UserRegistrationRepository.delete_registrations_stmt ids)).
Proof. apply (keeps_db_execute _). intros ??? [= _ <-]. by apply on_recoveries. Qed.
Lemma delete_authentications_core ids :
  keeps (keeps_db Q)
    (execute (R := R) (UserEmailAuthenticationRepository.delete_authentications_stmt ids)).
Proof. apply (keeps_db_execute _). intros ??? [= _ <-]. by apply on_recoveries. Qed.
Lemma delete_upstream_core p :
  keeps (keeps_db Q) (execute (R := R) (delete_upstream_sessions_stmt p)).
Proof. apply (keeps_db_execute _). intros ??? [= _ <-]. by apply on_recoveries. Qed.
Lemma delete_upstream_ids_core ids :
  keeps (keeps_db Q) (execute (R := R) (λ d, Some (length ids, delete_upstream_sessions ids d))).
Proof. apply (keeps_db_execute _). intros ??? [= _ <-]. by apply on_recoveries. Qed.
Lemma delete_links_core p : keeps (keeps_db Q) (execute (R := R) (delete_links_stmt p)).
Proof.
  apply (keeps_db_execute _). unfold delete_links_stmt. intros ???.
  case_bool_decide; [|done]. intros [= _ <-]. by apply on_recoveries.
Qed.
Lemma cleanup_links_core ids :
  keeps (keeps_db Q) (execute (R := R) (UpstreamOAuthLinkRepository.cleanup_links_stmt ids)).
Proof. apply (keeps_db_execute _). intros ??? [= _ <-]. by apply on_recoveries. Qed.
Lemma delete_provider_core id : keeps (keeps_db Q) (execute (R := R) (delete_provider_stmt id)).
Proof.
  apply (keeps_db_execute _). unfold delete_provider_stmt. intros ???.
  do 2 (case_bool_decide; [|done]). intros [= _ <-]. by apply on_recoveries.
Qed.
Lemma upsert_provider_core id r :
  keeps (keeps_db Q)
    (execute (R := R) (UpstreamOAuthProviderRepository.upsert_provider_stmt id r)).
Proof. apply (keeps_db_execute _). intros ??? [= _ <-]. by apply on_recoveries. Qed.
End Core.
#[export] Hint Extern 1 (keeps (keeps_db _) (execute _)) =>
  first [ apply use_token_core | apply insert_terms_core | apply insert_authentication_core
        | apply update_pending_core | apply delete_emails_core | apply delete_recovery_core
        | apply delete_registrations_core | apply delete_authentications_core
        | apply delete_upstream_core | apply delete_upstream_ids_core | apply delete_links_core
        | apply cleanup_links_core | apply delete_provider_core | apply upsert_provider_core ];
  apply _ : keeps.

(** *** The other operations of the repositories *)

(** What the administration, the configuration and the clean-up tasks send to the
    repositories of the accounts, in any order and number. *)
Section Upkeep.
Context {R : Type} `{!RngCore R} {url_lib : UrlLib} {pg_text : PgText} {pg_json : PgJson}
  {pg_pattern : PgPattern}.

Inductive upkeep : M (World R) DatabaseError unit → Prop :=
| upkeep_done : upkeep (ret tt)
| upkeep_provider_add p m : upkeep m → upkeep (do! UpstreamOAuthProviderRepository.add p; m)
| upkeep_provider_upsert id p m :
    upkeep m → upkeep (do! UpstreamOAuthProviderRepository.upsert id p; m)
| upkeep_provider_delete id m :
    upkeep m → upkeep (do! UpstreamOAuthProviderRepository.delete_by_id id; m)
| upkeep_provider_disable p m :
    upkeep m → upkeep (do! UpstreamOAuthProviderRepository.disable p; m)
| upkeep_link_add p s n m : upkeep m → upkeep (do! UpstreamOAuthLinkRepository.add p s n; m)
| upkeep_link_user l u m :
    upkeep m → upkeep (do! UpstreamOAuthLinkRepository.associate_to_user l u; m)
| upkeep_link_remove l m : upkeep m → upkeep (do! UpstreamOAuthLinkRepository.remove l; m)
| upkeep_links_cleanup since until limit m :
    upkeep m → upkeep (do! UpstreamOAuthLinkRepository.cleanup_orphaned since until limit; m)
| upkeep_session_add p s v n m :
    upkeep m → upkeep (do! UpstreamOAuthSessionRepository.add p s v n; m)
| upkeep_session_complete s l i c e u m :
    upkeep m → upkeep (do! UpstreamOAuthSessionRepository.complete_with_link s l i c e u; m)
| upkeep_session_consume s b m :
    upkeep m → upkeep (do! UpstreamOAuthSessionRepository.consume s b; m)
| upkeep_sessions_cleanup since until limit m :
    upkeep m → upkeep (do! UpstreamOAuthSessionRepository.cleanup_orphaned since until limit; m)
| upkeep_authenticate s u m :
    upkeep m → upkeep (do! SessionAuthentications.authenticate_with_upstream s u; m)
| upkeep_registration_upstream r u m :
    upkeep m →
    upkeep (do! UserRegistrationRepository.set_upstream_oauth_authorization_session r u; m)
| upkeep_registrations_cleanup since until limit m :
    upkeep m → upkeep (do! UserRegistrationRepository.cleanup since until limit; m)
| upkeep_token_add t l e m : upkeep m → upkeep (do! UserRegistrationTokenRepository.add t l e; m)
| upkeep_token_revoke x m : upkeep m → upkeep (do! UserRegistrationTokenRepository.revoke x; m)
| upkeep_token_unrevoke x m :
    upkeep m → upkeep (do! UserRegistrationTokenRepository.unrevoke x; m)
| upkeep_token_expiry x e m :
    upkeep m → upkeep (do! UserRegistrationTokenRepository.set_expiry x e; m)
| upkeep_token_limit x l m :
    upkeep m → upkeep (do! UserRegistrationTokenRepository.set_usage_limit x l; m)
| upkeep_email_add u e m : upkeep m → upkeep (do! UserEmailRepository.add u e; m)
| upkeep_email_remove e m : upkeep m → upkeep (do! UserEmailRepository.remove e; m)
| upkeep_emails_remove f m : upkeep m → upkeep (do! UserEmailRepository.remove_bulk f; m)
| upkeep_authentications_cleanup since until limit m :
    upkeep m →
    upkeep (do! UserEmailAuthenticationRepository.cleanup_authentications since until limit; m)
| upkeep_recoveries_cleanup since until limit m :
    upkeep m → upkeep (do! UserRecoveryRepository.cleanup since until limit; m)
| upkeep_threepids u m : upkeep m → upkeep (do! delete_unsupported_threepids u; m).

Lemma upkeep_accounts m : upkeep m → keeps (keeps_db preserves_accounts) m.
Proof. induction 1; keeps_tac. Qed.
Lemma upkeep_integrity m : upkeep m → keeps (keeps_db preserves_integrity) m.
Proof. induction 1; keeps_tac. Qed.
Lemma upkeep_evolves m : upkeep m → keeps (keeps_db evolves) m.
Proof. induction 1; keeps_tac. Qed.
End Upkeep.

(** The homeserver is asked for a name, and a transaction that is given up. *)
Section Keeps.
Context {R : Type} {localparts : FreeLocalparts}.

Lemma localpart_same_db n : keeps same_db (is_localpart_available (R := R) n).
Proof. intros w. unfold is_localpart_available. by destruct (w_homeserver_faults w) as [|[] ?]. Qed.
Lemma localpart_committed n : keeps same_committed (is_localpart_available (R := R) n).
Proof. apply (keeps_weaken same_db); [apply localpart_same_db | apply same_db_committed]. Qed.
Lemma localpart_db Q `{!PreOrder Q} n : keeps (keeps_db Q) (is_localpart_available (R := R) n).
Proof. apply (keeps_weaken same_db); [apply localpart_same_db | apply (keeps_db_same _)]. Qed.
Lemma cancel_committed : keeps same_committed (@cancel R).
Proof. unfold cancel. keeps_tac. intros w. by split. Qed.
End Keeps.
#[export] Hint Resolve localpart_same_db localpart_committed localpart_db cancel_committed : keeps.

Lemma txn_keeps_db_pool {R A} (Q : Db → Db → Prop) `{!PreOrder Q}
    (m : M (World R) MutationError A) :
  keeps (keeps_db Q) m → txn_keeps Q (do! db from_pool; m).
Proof.
  intros Hm w. assert ((do! db from_pool; m) w
    = (do! mmap_err (λ e, Failed (Graphql.RepositoryFailed e)) from_pool; m) w) as ->.
  { unfold db, graphql, Graphql.repository, bind, mmap_err. by destruct (from_pool w) as [[]]. }
  by apply txn_keeps_pool.
Qed.

(** A request, from its checks to the opening of its transaction, and its
    transaction. *)
Ltac request_tac :=
  repeat (intros; lazymatch goal with
    | |- txn_keeps _ (bind (retry_db from_pool) _) =>
        apply txn_keeps_pool; [apply _ | keeps_tac]
    | |- txn_keeps _ (bind (repo from_pool) _) =>
        apply txn_keeps_pool; [apply _ | keeps_tac]
    | |- txn_keeps _ (bind (db from_pool) _) =>
        first [ apply txn_keeps_db_pool; [apply _ | by keeps_tac] | request_leaf ]
    | |- txn_keeps _ (match ?x with _ => _ end) => destruct x
    | |- txn_keeps _ (bind _ _) => apply txn_keeps_bind; [apply _ | request_leaf |]
    | |- txn_keeps _ _ => request_leaf
    end)
with request_leaf := apply txn_keeps_same; [apply _ | by keeps_tac].

Ltac account_step_tac :=
  intros [H|[H|[H|H]]]; destruct H; txn_goal;
  unfold opened, RegisterEnd.register_finish_request, LogoutPage.logout_request,
    LoginPage.login_page_request, UserMutations.add_user, UserMutations.lock_user,
    UserMutations.unlock_user, UserMutations.set_can_request_admin, UserMutations.with_user,
    UserMutations.allow_user_cross_signing_reset, UserMutations.set_password,
    UserMutations.set_password_by_recovery, UserMutations.resend_recovery_email,
    UserMutations.deactivate_user, MatrixMutations.set_display_name, UserEmailMutations.add_email,
    UserEmailMutations.remove_email, UserEmailMutations.set_primary_email,
    UserEmailMutations.start_email_authentication,
    UserEmailMutations.resend_email_authentication_code,
    UserEmailMutations.complete_email_authentication, UserEmailMutations.email_changer,
    SessionMutations.end_browser_session, SessionMutations.end_compat_session,
    SessionMutations.set_compat_session_name, SessionMutations.with_compat_session,
    send_email_authentication_code_job, send_account_recovery_emails_job;
  request_tac.

Section Preserved.
Context {R C : Type} `{!RngCore R, !RngBytes R, !RngUniform R} {base64 : Base64}
  {ulid_text : UlidText} {url_lib : UrlLib} {pg_text : PgText} {collation : PgCollation}
  {texts : ErrorTexts} {password_crates : PasswordCrates R C} {localparts : FreeLocalparts}
  {addresses : AddressParser} {locales : LocaleParser} {register_policy : RegisterPolicy}
  {email_policy : EmailPolicy} {captcha_api : CaptchaApi} {account_limits : AccountLimits}
  {limits : Limits} {lower : UnicodeLower} {names : MatrixNames} {mailer : Mailer}.
Implicit Types w : World R.

Lemma account_step_accounts w w' :
  account_step w w' → preserves_accounts (w_committed w) (w_committed w').
Proof. account_step_tac. Qed.
Lemma account_step_integrity w w' :
  account_step w w' → preserves_integrity (w_committed w) (w_committed w').
Proof. account_step_tac. Qed.
Lemma account_step_evolves w w' : account_step w w' → evolves (w_committed w) (w_committed w').
Proof. account_step_tac. Qed.
End Preserved.
