(* ===== verification/Lifecycle.v ===== *)
(** * Histories of requests

    The endpoints and the other handlers' transactions, one request after the
    other: what holds in every state they reach, and what a state keeps of the
    earlier ones; the integrity of the tables of the accounts. *)

From stdpp Require Import base tactics list strings gmap relations.
From Stdlib Require Import ZArith Lia Ascii.
From S2P Require Import Prelude Text Scope Externals Formats Pagination TokenFormat DataModel CompatModel Storage TokenRepo GrantRepo QueueRepo Jobs Tasks UserRepo CompatRepo PersonalRepo AppSessionRepo Passwords ClientAuth TokenEndpoint Revocation DeviceAuthorize GraphqlSession WebSession Introspection CompatEndpoints Authorization DeviceConsent ClientMetadata Registration RegisterForms Register AccountPages AccountMutations RepoFacts CompatRepoFacts Integrity Evolution Scenario TokenFacts CodeExchange RefreshRotation OtherGrants DeviceFacts RevocationFacts GraphqlFacts CompatRefreshFacts TaskFacts DeactivationFacts ConsentFacts RegistrationFacts AccountSteps AccountIntegrity CompatLoginFacts UpstreamModel AccountModel UpstreamRepo AccountRepo.

(** ** Requests that issue no token *)

(** An access token may be marked as used; nothing else of it changes. *)
Definition same_access (o o' : option OAuth2AccessTokenLookup.t) : Prop :=
  match o, o' with
  | None, None => True
  | Some a, Some a' =>
      OAuth2AccessTokenLookup.oauth2_session_id a' = OAuth2AccessTokenLookup.oauth2_session_id a ∧
      OAuth2AccessTokenLookup.revoked_at a' = OAuth2AccessTokenLookup.revoked_at a
  | _, _ => False
  end.

#[export] Instance same_access_preorder : PreOrder same_access.
Proof.
  split; [intros [a|]; done|]. intros [a|] [b|] [c|]; simpl; try done.
  intros [? ?] [? ?]. split; congruence.
Qed.

Definition tokens_le (d d' : Db) : Prop :=
  oauth2_refresh_tokens d' = oauth2_refresh_tokens d ∧
  ∀ k, same_access (oauth2_access_tokens d !! k) (oauth2_access_tokens d' !! k).

#[export] Instance tokens_le_preorder : PreOrder tokens_le.
Proof.
  split; [intros d; by split|]. intros x y z [H1 H2] [H3 H4]. split; [congruence|].
  intros k. by transitivity (oauth2_access_tokens y !! k).
Qed.

#[export] Instance tokens_le_on_core : OnCore tokens_le.
Proof.
  intros d d' H. assert (tokens_le (core d) (core d')) as [] by (by rewrite H). by split.
Qed.

Lemma tokens_le_tables d d' :
  oauth2_refresh_tokens d' = oauth2_refresh_tokens d →
  oauth2_access_tokens d' = oauth2_access_tokens d → tokens_le d d'.
Proof. intros ? Ha. split; [done|]. by rewrite Ha. Qed.

Lemma same_access_update (m : gmap Z OAuth2AccessTokenLookup.t) i a t k :
  m !! i = Some a →
  same_access (m !! k) (<[i := AccessTokenRepository.with_first_used_at t a]> m !! k).
Proof.
  intros Hi. destruct (decide (i = k)) as [->|].
  - by rewrite lookup_insert_eq, Hi.
  - by rewrite lookup_insert_ne.
Qed.

Ltac tokens_solve :=
  first [reflexivity | by apply tokens_le_tables
        | split; [done | intros; simpl in *; by apply same_access_update]].

#[export] Hint Extern 1 (keeps (keeps_db tokens_le) (execute (insert_stmt _ _ _))) =>
  apply (keeps_db_execute _); intros ??? (? & ? & ? & ->)%insert_stmt_inv; tokens_solve : keeps.
#[export] Hint Extern 1 (keeps (keeps_db tokens_le) (execute (update_stmt _ _ _))) =>
  apply (keeps_db_execute _); intros ??? [->|(? & ? & ? & ->)]%update_stmt_any; tokens_solve
  : keeps.
#[export] Hint Extern 1 (keeps (keeps_db tokens_le) (execute (update_row_where_stmt _ _ _))) =>
  apply (keeps_db_execute _); intros ??? [->|(? & ? & ? & ->)]%update_row_where_any; tokens_solve
  : keeps.
#[export] Hint Extern 1
    (keeps (keeps_db tokens_le) (execute (UserRepository.insert_user_stmt _))) =>
  apply (keeps_db_execute _); intros ??? [->|(? & ? & ->)]%insert_user_any; tokens_solve : keeps.
#[export] Hint Extern 2 (keeps (keeps_db tokens_le) (execute _)) =>
  apply (keeps_db_execute _); unfold update_where_stmt; intros ??? [= <- <-]; tokens_solve
  : keeps.

Section Requests.
Context {R C : Type} `{!RngCore R} {crc : Crc} {base64 : Base64} {sha2 : Sha2}
  {ulid_text : UlidText} {url_lib : UrlLib} {jwks_json : JwksJson}
  {client_crypto : ClientCrypto} {policy : Policy} {templates : Templates}
  {keystore : Keystore R} {url_builder : DeviceAuthorize.UrlBuilder} {url_split : UrlSplit}
  {hs : Homeserver} {pg_text : PgText} {password_crates : PasswordCrates R C}
  {names : MatrixNames} {limits : Limits} {login_policy : LoginPolicy}
  {rng_bytes : RngBytes R} {url_edit : UrlEdit} {url_encoded : UrlEncoded}
  {collation : PgCollation} {unicode : UnicodeCase} {chrono : ChronoText} {texts : ErrorTexts}
  {aead : Aead} {base64_std : Base64Std} {psl : PublicSuffixes} {hex : Hex}
  {json : MetadataJson} {registration_policy : RegistrationPolicy}
  `{!RngUniform R} {localparts : FreeLocalparts} {addresses : AddressParser}
  {locales : LocaleParser} {register_policy : RegisterPolicy} {email_policy : EmailPolicy}
  {captcha_api : CaptchaApi} {account_limits : AccountLimits} {lower : UnicodeLower}
  {mailer : Mailer} {pg_json : PgJson} {pg_pattern : PgPattern}.
Implicit Types w : World R.

Lemma transaction_tokens m : transaction (R := R) m → keeps (keeps_db tokens_le) m.
Proof. induction 1; keeps_tac. Qed.

Lemma revoke_tokens ip auth : txn_keeps tokens_le (Revoke.revoke_request (R := R) ip auth).
Proof. apply txn_keeps_pool; [apply _ | keeps_tac]. Qed.
Lemma device_tokens_le ip cfg ua auth :
  txn_keeps tokens_le (DeviceAuthorize.device_authorization_request (R := R) ip cfg ua auth).
Proof. apply txn_keeps_pool; [apply _ | keeps_tac]. Qed.
Lemma end_tokens requester id :
  txn_keeps tokens_le (Graphql.end_oauth2_session (R := R) requester id).
Proof. txn_tac. keeps_tac. Qed.
Lemma name_tokens requester id n :
  txn_keeps tokens_le (Graphql.set_oauth2_session_name (R := R) requester id n).
Proof. txn_tac. keeps_tac. Qed.

Lemma compat_step_tokens w w' : compat_step w w' → tokens_le (w_committed w) (w_committed w').
Proof. compat_step_tac. Qed.

Lemma page_step_tokens w w' : page_step w w' → tokens_le (w_committed w) (w_committed w').
Proof. page_step_tac. Qed.
Lemma job_step_tokens w w' : job_step w w' → tokens_le (w_committed w) (w_committed w').
Proof. job_step_tac. Qed.
Lemma upkeep_tokens m : upkeep (R := R) m → keeps (keeps_db tokens_le) m.
Proof. induction 1; keeps_tac. Qed.
Lemma account_step_tokens w w' :
  account_step w w' → tokens_le (w_committed w) (w_committed w').
Proof. account_step_tac. Qed.

Lemma run_transaction_keeps (Q : Db → Db → Prop) `{!PreOrder Q} m :
  keeps (keeps_db Q) m → txn_keeps Q (run_transaction (R := R) m).
Proof.
  intros Hm w.
  assert (run_transaction m w = (do! mmap_err id from_pool; do! m; save) w) as ->.
  { unfold run_transaction, bind, mmap_err. by destruct (from_pool w) as [[] ?]. }
  apply txn_keeps_pool; [done|]. keeps_tac.
Qed.

(** ** Steps *)

(** One request, whatever it answers, or time passing: the generator, the
    clock readings made and the failures to come are not ours to fix. *)
Inductive step : World R → World R → Prop :=
| step_token ip cfg ua auth w : step w (token_request ip cfg ua auth w).2
| step_revoke ip auth w : step w (Revoke.revoke_request ip auth w).2
| step_device ip cfg ua auth w :
    step w (DeviceAuthorize.device_authorization_request ip cfg ua auth w).2
| step_create requester input w : step w (Graphql.create_oauth2_session requester input w).2
| step_end requester id w : step w (Graphql.end_oauth2_session requester id w).2
| step_name requester id n w : step w (Graphql.set_oauth2_session_name requester id n w).2
| step_compat w w' : compat_step w w' → step w w'
| step_page w w' : page_step w w' → step w w'
| step_job w w' : job_step w w' → step w w'
| step_account w w' : account_step w w' → step w w'
| step_transaction m w : transaction m → step w (run_transaction m w).2
| step_upkeep m w : upkeep m → step w (run_transaction m w).2
| step_outside w w' : w_committed w' = w_committed w → w_clock w' = w_clock w → step w w'.

Lemma step_integrity w w' : step w w' → integrity (w_committed w) → integrity (w_committed w').
Proof.
  destruct 1 as [| | | | | |w w' Hs|w w' Hs|w w' Hs|w w' Hs|m w Hm|m w Hm|w w' Hc]; intros Hint.
  - by apply token_request_integrity.
  - by apply revoke_request_integrity.
  - by apply device_request_integrity.
  - by apply create_keeps_integrity.
  - by apply end_keeps_integrity.
  - by apply name_keeps_integrity.
  - by apply (compat_step_integrity _ _ Hs).
  - by apply (page_step_integrity _ _ Hs).
  - by apply (job_step_integrity _ _ Hs).
  - by apply (account_step_integrity _ _ Hs).
  - revert Hint. apply (run_transaction_keeps _ m (transaction_keeps_integrity m Hm) w).
  - revert Hint. apply (run_transaction_keeps _ m (upkeep_integrity m Hm) w).
  - by rewrite Hc.
Qed.

Lemma step_evolves w w' : step w w' → evolves (w_committed w) (w_committed w').
Proof.
  destruct 1 as [ip cfg ua auth w| | | | | |w w' Hs|w w' Hs|w w' Hs|w w' Hs|m w Hm|m w Hm|w w' Hc].
  - apply (txn_keeps_pool evolves _ _ (post_keeps_evolution ip cfg ua auth)).
  - apply (txn_keeps_pool evolves _ _ (revoke_post_keeps_evolution _ _)).
  - apply device_request_evolution.
  - apply create_keeps_evolution.
  - apply end_keeps_evolution.
  - apply name_keeps_evolution.
  - by apply compat_step_evolves.
  - by apply page_step_evolves.
  - by apply job_step_evolves.
  - by apply account_step_evolves.
  - apply (run_transaction_keeps _ m (transaction_keeps_evolution m Hm)).
  - apply (run_transaction_keeps _ m (upkeep_evolves m Hm)).
  - by rewrite Hc.
Qed.

Lemma steps_integrity w w' :
  rtc step w w' → integrity (w_committed w) → integrity (w_committed w').
Proof. induction 1; eauto using step_integrity. Qed.

Lemma steps_evolve w w' : rtc step w w' → evolves (w_committed w) (w_committed w').
Proof.
  induction 1 as [|w1 w2 w3 H _ IH]; [reflexivity|].
  transitivity (w_committed w2); [by apply step_evolves | done].
Qed.

(** ** What a step does to the tokens *)

Inductive tokens_step (d d' : Db) : Prop :=
| ts_same : tokens_le d d' → tokens_step d d'
| ts_started ttl atxt rtxt sid aid rid s :
    session_started d d' ttl atxt rtxt sid aid rid s → tokens_step d d'
| ts_refreshed grant c ttl ua resp rid rt sid s aid nrid :
    refresh_allowed d grant c rid rt sid s →
    refresh_effect d d' ttl ua resp rid rt sid s aid nrid → tokens_step d d'.

Lemma exchange_started d d' c ttl ua resp gid g bid b sid aid rid scope :
  exchange_effect d d' c ttl ua resp gid g bid b sid aid rid scope →
  ∃ s, session_started d d' (Some ttl) (r_access_token resp) (r_refresh_token resp) sid aid
         (Some rid) s.
Proof.
  intros [(? & ? & ?) _ [t Hs] Ha (tr & txt & Hr & Href) _ _ (? & ? & ? & ? & ?)].
  eexists. split; [|done|done| |done].
  - split_and!; [done..|]. naive_solver.
  - rewrite Hr. eauto.
Qed.

Lemma token_step ip cfg ua auth w :
  integrity (w_committed w) →
  tokens_step (w_committed w) (w_committed (token_request ip cfg ua auth w).2).
Proof.
  intros Hint. destruct (token_request ip cfg ua auth w) as [[resp|e] w'] eqn:H; simpl.
  - apply token_request_Ok in H as (c & req & w1 & w2 & _ & _ & Ht & _ & H & ->).
    rewrite <- Ht in *. destruct req as [g|g|g|g|]; simpl in H; [| | | |done].
    + apply authorization_code_grant_Ok in H
        as (_ & n & gid & gr & bid & b & u & sid & aid & rid & sc & _ & He); [|done].
      apply exchange_started in He as [s Hs]. by eapply ts_started.
    + apply refresh_token_grant_Ok in H as (_ & rid & rt & sid & s & aid & nrid & Ha & He);
        [|done]. by eapply ts_refreshed.
    + apply client_credentials_grant_Ok in H as (_ & _ & _ & _ & _ & (sid & aid & t & Hs) & _).
      by eapply ts_started.
    + apply device_code_grant_Ok in H as (_ & n & gid & g' & bid & b & sid & aid & rid & sc &
        t & tx & _ & _ & _ & _ & _ & Hs & _); [|done]. by eapply ts_started.
  - apply token_request_refused in H as [->|(g & _ & gid & gr & sid & x & r & t & _ & _ & _ & _ & _ & _ & ->)];
      [apply ts_same; reflexivity| |done]. by apply ts_same, tokens_le_tables.
Qed.

Lemma step_tokens w w' :
  step w w' → integrity (w_committed w) → tokens_step (w_committed w) (w_committed w').
Proof.
  destruct 1 as [| | |requester input w| | |w w' Hs|w w' Hs|w w' Hs|w w' Hs|m w Hm|m w Hm|w w' Hc]; intros Hint.
  - by apply token_step.
  - apply ts_same, revoke_tokens.
  - apply ts_same, device_tokens_le.
  - destruct (Graphql.create_oauth2_session requester input w) as [[p|e] w'] eqn:H; simpl.
    + apply create_oauth2_session_Ok in H
        as (? & ? & ? & ? & sid & aid & rid & t & _ & _ & _ & _ & _ & _ & Hs & _); [|done].
      by eapply ts_started.
    + apply create_err in H as [-> _]. apply ts_same. reflexivity.
  - apply ts_same, end_tokens.
  - apply ts_same, name_tokens.
  - by apply ts_same, compat_step_tokens.
  - by apply ts_same, page_step_tokens.
  - by apply ts_same, job_step_tokens.
  - by apply ts_same, account_step_tokens.
  - apply ts_same, (run_transaction_keeps _ m (transaction_tokens m Hm)).
  - apply ts_same, (run_transaction_keeps _ m (upkeep_tokens m Hm)).
  - rewrite Hc. apply ts_same. reflexivity.
Qed.
End Requests.

(** ** The tokens of a session *)

(** A refresh token is replaced by one of its own session; a session has at
    most one live refresh token and one access token that is not revoked, and
    if it ever had a refresh token, the access token was issued with the live
    one. *)
Record tokens_ok (d : Db) : Prop := {
  tk_next : ∀ k r n, oauth2_refresh_tokens d !! k = Some r →
    OAuth2RefreshTokenLookup.next_oauth2_refresh_token_id r = Some n →
    ∃ r', oauth2_refresh_tokens d !! n = Some r' ∧
      OAuth2RefreshTokenLookup.oauth2_session_id r' =
      OAuth2RefreshTokenLookup.oauth2_session_id r;
  tk_live : ∀ k1 r1 k2 r2, oauth2_refresh_tokens d !! k1 = Some r1 →
    oauth2_refresh_tokens d !! k2 = Some r2 → live r1 → live r2 →
    OAuth2RefreshTokenLookup.oauth2_session_id r1 =
    OAuth2RefreshTokenLookup.oauth2_session_id r2 → k1 = k2;
  tk_pair : ∀ a ra k r, oauth2_access_tokens d !! a = Some ra → unrevoked ra →
    oauth2_refresh_tokens d !! k = Some r →
    OAuth2RefreshTokenLookup.oauth2_session_id r =
    OAuth2AccessTokenLookup.oauth2_session_id ra →
    ∃ k' r', oauth2_refresh_tokens d !! k' = Some r' ∧ live r' ∧
      OAuth2RefreshTokenLookup.oauth2_session_id r' =
      OAuth2AccessTokenLookup.oauth2_session_id ra ∧
      OAuth2RefreshTokenLookup.oauth2_access_token_id r' = Some a;
  tk_access : ∀ k1 a1 k2 a2, oauth2_access_tokens d !! k1 = Some a1 →
    oauth2_access_tokens d !! k2 = Some a2 → unrevoked a1 → unrevoked a2 →
    OAuth2AccessTokenLookup.oauth2_session_id a1 =
    OAuth2AccessTokenLookup.oauth2_session_id a2 → k1 = k2;
}.

Lemma tokens_ok_same d d' : tokens_ok d → tokens_le d d' → tokens_ok d'.
Proof.
  intros [Hn Hl Hp Ha] [Hr Hs].
  assert (∀ k a, oauth2_access_tokens d' !! k = Some a → ∃ a0,
    oauth2_access_tokens d !! k = Some a0 ∧ (unrevoked a → unrevoked a0) ∧
    OAuth2AccessTokenLookup.oauth2_session_id a =
    OAuth2AccessTokenLookup.oauth2_session_id a0) as Hback.
  { intros k a Hk. specialize (Hs k). rewrite Hk in Hs. unfold same_access, unrevoked in *.
    destruct (oauth2_access_tokens d !! k) as [a0|]; [|done]. destruct Hs as [? Hrv].
    exists a0. split_and!; [done | congruence | done]. }
  split; rewrite ?Hr; [done..| |].
  - intros a ra k r (a0 & H0 & Hu & Hs0)%Hback Hua Hk Hse. rewrite Hs0 in *. eauto.
  - intros k1 a1 k2 a2 (b1 & H1 & Hu1 & Hs1)%Hback (b2 & H2 & Hu2 & Hs2)%Hback ? ? ?.
    eapply (Ha k1 b1 k2 b2); eauto. congruence.
Qed.

Lemma tokens_ok_started d d' ttl atxt rtxt sid aid rid s :
  integrity d → tokens_ok d → session_started d d' ttl atxt rtxt sid aid rid s → tokens_ok d'.
Proof.
  intros Hint [Hn Hl Hp Ha] [(Hs & Hfa & Hfr) _ [t Hacc] Href _].
  assert (∀ k a, oauth2_access_tokens d !! k = Some a →
    OAuth2AccessTokenLookup.oauth2_session_id a ≠ sid) as Hna.
  { intros k a Hk <-. destruct (access_tokens_session_fkey _ Hint k a _ Hk eq_refl). congruence. }
  assert (∀ k r, oauth2_refresh_tokens d !! k = Some r →
    OAuth2RefreshTokenLookup.oauth2_session_id r ≠ sid) as Hnr.
  { intros k r Hk <-. destruct (refresh_tokens_session_fkey _ Hint k r _ Hk eq_refl). congruence. }
  destruct rid as [rid|], rtxt as [txt|]; try done.
  - specialize (Hfr rid eq_refl). destruct Href as [tr Href].
    split; rewrite ?Hacc, ?Href; clear Hacc Href.
    + intros k r n [[<- <-]|[Hne Hk]]%lookup_insert_Some Hnext; [done|].
      destruct (Hn k r n Hk Hnext) as (r' & Hr' & Hse). exists r'. split; [|done].
      rewrite lookup_insert_ne; congruence.
    + intros k1 r1 k2 r2 [[<- <-]|[? H1]]%lookup_insert_Some
        [[<- <-]|[? H2]]%lookup_insert_Some; simpl; intros; try done; eauto;
        exfalso; [eapply Hnr; [exact H2 | done] | eapply Hnr; [exact H1 | done]].
    + intros a ra k r [[<- <-]|[Hne Hk]]%lookup_insert_Some Hu
        [[<- <-]|[Hner Hkr]]%lookup_insert_Some; simpl; intros Hse.
      * eexists _, _. rewrite lookup_insert_eq. done.
      * exfalso. by eapply Hnr.
      * exfalso. eapply Hna; [exact Hk | done].
      * destruct (Hp _ _ _ _ Hk Hu Hkr Hse) as (k' & r' & Hr' & ?). exists k', r'.
        split; [|done]. rewrite lookup_insert_ne; congruence.
    + intros k1 a1 k2 a2 [[<- <-]|[? H1]]%lookup_insert_Some
        [[<- <-]|[? H2]]%lookup_insert_Some; simpl; intros; try done; eauto;
        exfalso; [eapply Hna; [exact H2 | done] | eapply Hna; [exact H1 | done]].
  - split; rewrite ?Hacc, ?Href; clear Hacc Href; [done..| |].
    + intros a ra k r [[<- <-]|[Hne Hk]]%lookup_insert_Some Hu Hkr; simpl; intros Hse.
      * exfalso. by eapply Hnr.
      * eauto.
    + intros k1 a1 k2 a2 [[<- <-]|[? H1]]%lookup_insert_Some
        [[<- <-]|[? H2]]%lookup_insert_Some; simpl; intros; try done; eauto;
        exfalso; [eapply Hna; [exact H2 | done] | eapply Hna; [exact H1 | done]].
Qed.

(** The refresh tokens after a refresh: the new one; the one presented and the
    one that had replaced it, no longer live; the others as they were. *)
Lemma refresh_rows_after d d' ttl ua resp rid rt sid s aid nrid k r :
  oauth2_refresh_tokens d !! rid = Some rt →
  OAuth2RefreshTokenLookup.oauth2_session_id rt = sid →
  refresh_effect d d' ttl ua resp rid rt sid s aid nrid →
  oauth2_refresh_tokens d' !! k = Some r →
  (k = nrid ∧ OAuth2RefreshTokenLookup.oauth2_session_id r = sid ∧
   OAuth2RefreshTokenLookup.next_oauth2_refresh_token_id r = None) ∨
  (¬ live r ∧ ∃ r0, oauth2_refresh_tokens d !! k = Some r0 ∧
   OAuth2RefreshTokenLookup.oauth2_session_id r =
   OAuth2RefreshTokenLookup.oauth2_session_id r0 ∧
   (OAuth2RefreshTokenLookup.next_oauth2_refresh_token_id r =
      OAuth2RefreshTokenLookup.next_oauth2_refresh_token_id r0 ∨
    k = rid ∧ OAuth2RefreshTokenLookup.next_oauth2_refresh_token_id r = Some nrid)) ∨
  (k ≠ rid ∧ OAuth2RefreshTokenLookup.next_oauth2_refresh_token_id rt ≠ Some k ∧
   oauth2_refresh_tokens d !! k = Some r).
Proof.
  intros Hrid Hsid [_ [t Hc] (tn & txt & _ & Hn) Hnx Ho _ _ _ _ _ _] Hk.
  destruct (decide (k = rid)) as [->|Hk1].
  { right. left. rewrite Hk in Hc. injection Hc as ->. split; [by intros [_ ?]|].
    exists rt. simpl. eauto. }
  destruct (decide (k = nrid)) as [->|Hk2].
  { left. rewrite Hk in Hn. by injection Hn as ->. }
  destruct (decide (OAuth2RefreshTokenLookup.next_oauth2_refresh_token_id rt = Some k))
    as [Hk3|Hk3].
  { right. left. destruct (Hnx k Hk3) as (n & t' & Hnn & _ & Hn').
    rewrite Hk in Hn'. injection Hn' as ->. split; [by intros [? _]|]. exists n. simpl. eauto. }
  right. right. by rewrite <- Ho.
Qed.

(** What was live and unrevoked in the session of the token is gone. *)
Lemma refresh_pair d grant c rid rt sid s k a :
  tokens_ok d → refresh_allowed d grant c rid rt sid s →
  oauth2_access_tokens d !! k = Some a → unrevoked a →
  OAuth2AccessTokenLookup.oauth2_session_id a = sid → replaced_access d rt k.
Proof.
  intros [Hn Hl Hp _] [_ Hrt _ Hsid _ _ _ _ Hst] Hk Hu Ha.
  destruct (Hp _ _ _ _ Hk Hu Hrt) as (k' & r' & Hk' & Hl' & Hs' & Hac); [congruence|].
  destruct Hst as [[Hlr _]|(nid & n & _ & Hnx & Hnn & Hln & _)].
  - left. assert (k' = rid) as -> by (apply (Hl k' r' rid rt); congruence). congruence.
  - right. destruct (Hn _ _ _ Hrt Hnx) as (n' & Hn' & Hsn).
    assert (n' = n) as -> by congruence.
    assert (k' = nid) as -> by (apply (Hl k' r' nid n); congruence).
    exists nid, n. split_and!; try done. congruence.
Qed.

Lemma refresh_live d grant c rid rt sid s k r :
  tokens_ok d → refresh_allowed d grant c rid rt sid s →
  oauth2_refresh_tokens d !! k = Some r → live r →
  OAuth2RefreshTokenLookup.oauth2_session_id r = sid →
  k = rid ∨ OAuth2RefreshTokenLookup.next_oauth2_refresh_token_id rt = Some k.
Proof.
  intros [Hn Hl _ _] [_ Hrt _ Hsid _ _ _ _ Hst] Hk Hu Ha.
  destruct Hst as [[Hlr _]|(nid & n & _ & Hnx & Hnn & Hln & _)].
  - left. apply (Hl k r rid rt); congruence.
  - right. destruct (Hn _ _ _ Hrt Hnx) as (n' & Hn' & Hsn).
    assert (n' = n) as -> by congruence.
    assert (k = nid) as -> by (apply (Hl k r nid n); congruence). done.
Qed.

Section Refreshed.
Context {d d' : Db} {grant : RefreshTokenGrant} {c : Client.t} {ttl : Duration}
  {ua : option string} {resp : AccessTokenResponse} {rid : Ulid}
  {rt : OAuth2RefreshTokenLookup.t} {sid : Ulid} {s : OAuthSessionLookup.t} {aid nrid : Ulid}.
Hypothesis (Hok : tokens_ok d).
Hypothesis (Hra : refresh_allowed d grant c rid rt sid s).
Hypothesis (Hre : refresh_effect d d' ttl ua resp rid rt sid s aid nrid).

Lemma refreshed_rows k r :
  oauth2_refresh_tokens d' !! k = Some r →
  (k = nrid ∧ OAuth2RefreshTokenLookup.oauth2_session_id r = sid ∧
   OAuth2RefreshTokenLookup.next_oauth2_refresh_token_id r = None) ∨
  (¬ live r ∧ ∃ r0, oauth2_refresh_tokens d !! k = Some r0 ∧
   OAuth2RefreshTokenLookup.oauth2_session_id r =
   OAuth2RefreshTokenLookup.oauth2_session_id r0 ∧
   (OAuth2RefreshTokenLookup.next_oauth2_refresh_token_id r =
      OAuth2RefreshTokenLookup.next_oauth2_refresh_token_id r0 ∨
    k = rid ∧ OAuth2RefreshTokenLookup.next_oauth2_refresh_token_id r = Some nrid)) ∨
  (k ≠ rid ∧ OAuth2RefreshTokenLookup.next_oauth2_refresh_token_id rt ≠ Some k ∧
   oauth2_refresh_tokens d !! k = Some r).
Proof.
  apply (refresh_rows_after _ _ _ _ _ _ _ _ _ _ _ k r (ra_token _ _ _ _ _ _ _ Hra)
           (ra_session_id _ _ _ _ _ _ _ Hra) Hre).
Qed.

Lemma refreshed_live k r :
  oauth2_refresh_tokens d' !! k = Some r → live r →
  (k = nrid ∧ OAuth2RefreshTokenLookup.oauth2_session_id r = sid) ∨
  (oauth2_refresh_tokens d !! k = Some r ∧ OAuth2RefreshTokenLookup.oauth2_session_id r ≠ sid).
Proof.
  intros Hk Hl.
  destruct (refreshed_rows k r Hk) as [(? & ? & _)|[[? _]|(H1 & H2 & H3)]];
    [by left | done | right].
  split; [done|]. intros Hs. destruct (refresh_live _ _ _ _ _ _ _ _ _ Hok Hra H3 Hl Hs); done.
Qed.

Lemma refreshed_access k a :
  oauth2_access_tokens d' !! k = Some a → unrevoked a →
  (k = aid ∧ OAuth2AccessTokenLookup.oauth2_session_id a = sid) ∨
  (oauth2_access_tokens d !! k = Some a ∧ OAuth2AccessTokenLookup.oauth2_session_id a ≠ sid).
Proof.
  intros Hk Hu. destruct (decide (k = aid)) as [->|Hne].
  - left. destruct (re_new_access _ _ _ _ _ _ _ _ _ _ _ Hre) as [t Ht].
    rewrite Hk in Ht. by injection Ht as ->.
  - right. destruct (revoked_if_unrevoked _ _ _ _
      (re_other_access _ _ _ _ _ _ _ _ _ _ _ Hre k Hne) Hk Hu) as [H0 Hnot].
    split; [done|]. intros Hs. apply Hnot. by eapply refresh_pair.
Qed.

(** Rows stay, in their session; those of the other sessions as they were. *)
Lemma refreshed_stay k r :
  oauth2_refresh_tokens d !! k = Some r → ∃ r', oauth2_refresh_tokens d' !! k = Some r' ∧
    OAuth2RefreshTokenLookup.oauth2_session_id r' =
    OAuth2RefreshTokenLookup.oauth2_session_id r ∧
    (OAuth2RefreshTokenLookup.oauth2_session_id r ≠ sid → r' = r).
Proof.
  intros Hk. pose proof (ra_token _ _ _ _ _ _ _ Hra) as Hrt.
  pose proof (ra_session_id _ _ _ _ _ _ _ Hra) as Hsid.
  destruct Hre as [[_ Hf] [t Hc] _ Hnx Ho _ _ _ _ _ _].
  destruct (decide (k = rid)) as [->|Hk1].
  { eexists. split; [exact Hc|]. simplify_eq. done. }
  destruct (decide (OAuth2RefreshTokenLookup.next_oauth2_refresh_token_id rt = Some k))
    as [Hk3|Hk3].
  { destruct (Hnx k Hk3) as (n & t' & Hn & _ & Hn'). eexists. split; [exact Hn'|].
    destruct (tk_next _ Hok _ _ _ Hrt Hk3) as (r0 & ? & ?). simplify_eq. done. }
  exists r. split; [|done]. rewrite Ho; congruence.
Qed.

Lemma tokens_ok_refreshed : tokens_ok d'.
Proof.
  destruct (re_new_refresh _ _ _ _ _ _ _ _ _ _ _ Hre) as (tn & txt & _ & Hnew).
  pose proof (ra_session_id _ _ _ _ _ _ _ Hra) as Hsid.
  pose proof (ra_token _ _ _ _ _ _ _ Hra) as Hrt.
  assert (∀ k r0 n, oauth2_refresh_tokens d !! k = Some r0 →
    OAuth2RefreshTokenLookup.next_oauth2_refresh_token_id r0 = Some n →
    ∃ r', oauth2_refresh_tokens d' !! n = Some r' ∧
      OAuth2RefreshTokenLookup.oauth2_session_id r' =
      OAuth2RefreshTokenLookup.oauth2_session_id r0) as Hnext.
  { intros k r0 n H0 Hn. destruct (tk_next _ Hok _ _ _ H0 Hn) as (r1 & H1 & Hs1).
    destruct (refreshed_stay _ _ H1) as (r2 & H2 & Hs2 & _). exists r2. split; congruence. }
  split.
  - intros k r n Hk Hn. destruct (refreshed_rows k r Hk)
      as [(_ & _ & ?)|[(_ & r0 & H0 & Hs0 & [Hn0|[-> Hn0]])|(_ & _ & H0)]]; [congruence| | |eauto].
    + rewrite Hn0 in Hn. rewrite Hs0. eauto.
    + rewrite Hn0 in Hn. injection Hn as <-. eexists. split; [exact Hnew|]. simpl. congruence.
  - intros k1 r1 k2 r2 H1 H2 L1 L2 Hs.
    destruct (refreshed_live _ _ H1 L1) as [[-> ?]|[? ?]],
      (refreshed_live _ _ H2 L2) as [[-> ?]|[? ?]]; [done|congruence|congruence|].
    by eapply (tk_live _ Hok k1 r1 k2 r2).
  - intros a ra k r Ha Hu Hk Hs. destruct (refreshed_access _ _ Ha Hu) as [[-> ?]|[H0 Hne]].
    + do 2 eexists. split; [exact Hnew|]. split_and!; [done | simpl; congruence | done].
    + assert (∃ r0, oauth2_refresh_tokens d !! k = Some r0 ∧
        OAuth2RefreshTokenLookup.oauth2_session_id r =
        OAuth2RefreshTokenLookup.oauth2_session_id r0) as (r0 & Hr0 & Hs0)
        by (destruct (refreshed_rows k r Hk) as [(_ & ? & _)|[(_ & ? & ? & ? & _)|(_ & _ & ?)]];
            [congruence | eauto | eauto]).
      destruct (tk_pair _ Hok a ra k r0 H0 Hu Hr0) as (k' & r' & Hk' & Hl' & Hs' & Ha');
        [congruence|].
      destruct (refreshed_stay _ _ Hk') as (r2 & Hr2 & _ & Heq).
      rewrite Heq in Hr2 by congruence. eauto 10.
  - intros k1 a1 k2 a2 H1 H2 U1 U2 Hs.
    destruct (refreshed_access _ _ H1 U1) as [[-> ?]|[? ?]],
      (refreshed_access _ _ H2 U2) as [[-> ?]|[? ?]]; [done|congruence|congruence|].
    by eapply (tk_access _ Hok k1 a1 k2 a2).
Qed.
End Refreshed.

Lemma tokens_ok_step d d' : integrity d → tokens_ok d → tokens_step d d' → tokens_ok d'.
Proof.
  intros Hint Hok [H|ttl atxt rtxt sid aid rid s H|grant c ttl ua resp rid rt sid s aid nrid Ha He].
  - by eapply tokens_ok_same.
  - by eapply tokens_ok_started.
  - by eapply tokens_ok_refreshed.
Qed.

(** ** Finished sessions *)

Definition finished (d : Db) (sid : Ulid) : Prop :=
  ∃ s t, oauth2_sessions d !! sid = Some s ∧ OAuthSessionLookup.finished_at s = Some t.

Lemma finished_evolves d d' sid : evolves d d' → finished d sid → finished d' sid.
Proof.
  intros Hev (s & t & Hk & Hf).
  destruct (ev_sessions _ _ Hev _ _ Hk) as (s' & Hk' & [_ Hm]).
  inversion Hm as [|? ? ? ? [Hn|[t' Ht']] _]; [congruence|]. exists s', t'. done.
Qed.

(** No token is issued for a finished session. *)
Lemma finished_no_new_token d d' sid :
  finished d sid → tokens_step d d' →
  (∀ k a, oauth2_access_tokens d' !! k = Some a →
     OAuth2AccessTokenLookup.oauth2_session_id a = sid → is_Some (oauth2_access_tokens d !! k)) ∧
  (∀ k r, oauth2_refresh_tokens d' !! k = Some r →
     OAuth2RefreshTokenLookup.oauth2_session_id r = sid → is_Some (oauth2_refresh_tokens d !! k)).
Proof.
  intros (s0 & t0 & Hs0 & Hf0)
    [[Hr Hs]|ttl atxt rtxt sid' aid rid s H|grant c ttl ua resp rid rt sid' s aid nrid Ha He].
  - split; [|rewrite Hr; eauto]. intros k a Hk _. specialize (Hs k). rewrite Hk in Hs.
    destruct (oauth2_access_tokens d !! k); [eauto | done].
  - destruct H as [(Hn & _ & _) _ [t Ha] Hr _]. assert (sid' ≠ sid) by congruence. split.
    + intros k a Hk Hsid. rewrite Ha in Hk. apply lookup_insert_Some in Hk as [[<- <-]|[_ ?]];
        [done | eauto].
    + intros k r Hk Hsid. destruct rid as [rid|], rtxt; try done; [|rewrite Hr in Hk; eauto].
      destruct Hr as [tr Hr]. rewrite Hr in Hk.
      apply lookup_insert_Some in Hk as [[<- <-]|[_ ?]]; [done | eauto].
  - assert (sid' ≠ sid) as Hne
      by (destruct Ha as [_ _ _ _ Hs Hfin _ _ _]; intros ->; congruence). split.
    + intros k a Hk Hsid. destruct (decide (k = aid)) as [->|Hk'].
      * destruct (re_new_access _ _ _ _ _ _ _ _ _ _ _ He) as [t Ht].
        rewrite Hk in Ht. by injection Ht as ->.
      * pose proof (re_other_access _ _ _ _ _ _ _ _ _ _ _ He k Hk') as Hrev.
        unfold revoked_if in Hrev. destruct (oauth2_access_tokens d !! k); [eauto|congruence].
    + intros k r Hk Hsid.
      destruct (refresh_rows_after _ _ _ _ _ _ _ _ _ _ _ k r (ra_token _ _ _ _ _ _ _ Ha)
                  (ra_session_id _ _ _ _ _ _ _ Ha) He Hk)
        as [(_ & ? & _)|[(_ & r0 & ? & _)|(_ & _ & ?)]]; [congruence | eauto | eauto].
Qed.

Section Histories.
Context {R C : Type} `{!RngCore R} {crc : Crc} {base64 : Base64} {sha2 : Sha2}
  {ulid_text : UlidText} {url_lib : UrlLib} {jwks_json : JwksJson}
  {client_crypto : ClientCrypto} {policy : Policy} {templates : Templates}
  {keystore : Keystore R} {url_builder : DeviceAuthorize.UrlBuilder} {url_split : UrlSplit}
  {hs : Homeserver} {pg_text : PgText} {password_crates : PasswordCrates R C}
  {names : MatrixNames} {limits : Limits} {login_policy : LoginPolicy}
  {rng_bytes : RngBytes R} {url_edit : UrlEdit} {url_encoded : UrlEncoded}
  {collation : PgCollation} {unicode : UnicodeCase} {chrono : ChronoText} {texts : ErrorTexts}
  {aead : Aead} {base64_std : Base64Std} {psl : PublicSuffixes} {hex : Hex}
  {json : MetadataJson} {registration_policy : RegistrationPolicy}
  `{!RngUniform R} {localparts : FreeLocalparts} {addresses : AddressParser}
  {locales : LocaleParser} {register_policy : RegisterPolicy} {email_policy : EmailPolicy}
  {captcha_api : CaptchaApi} {account_limits : AccountLimits} {lower : UnicodeLower}
  {mailer : Mailer} {pg_json : PgJson} {pg_pattern : PgPattern}.
Implicit Types w : World R.

Lemma steps_tokens_ok w w' :
  rtc step w w' → integrity (w_committed w) → tokens_ok (w_committed w) →
  tokens_ok (w_committed w').
Proof.
  induction 1 as [|w1 w2 w3 H _ IH]; intros Hint Hok; [done|].
  apply IH; [by eapply step_integrity|].
  eapply tokens_ok_step; [exact Hint | exact Hok | by apply step_tokens].
Qed.

Lemma no_tokens_ok d :
  oauth2_access_tokens d = ∅ → oauth2_refresh_tokens d = ∅ → tokens_ok d.
Proof. intros Ha Hr. split; rewrite ?Ha, ?Hr; intros k *; by rewrite ?lookup_empty. Qed.

(** C2: whatever requests a deployment that starts without tokens answers,
    a session never has two refresh tokens that can still be used, nor two
    access tokens that are not revoked. *)
Theorem one_valid_token_per_session w w' :
  integrity (w_committed w) →
  oauth2_access_tokens (w_committed w) = ∅ → oauth2_refresh_tokens (w_committed w) = ∅ →
  rtc step w w' →
  (∀ k1 r1 k2 r2, oauth2_refresh_tokens (w_committed w') !! k1 = Some r1 →
     oauth2_refresh_tokens (w_committed w') !! k2 = Some r2 → live r1 → live r2 →
     OAuth2RefreshTokenLookup.oauth2_session_id r1 =
     OAuth2RefreshTokenLookup.oauth2_session_id r2 → k1 = k2) ∧
  (∀ k1 a1 k2 a2, oauth2_access_tokens (w_committed w') !! k1 = Some a1 →
     oauth2_access_tokens (w_committed w') !! k2 = Some a2 → unrevoked a1 → unrevoked a2 →
     OAuth2AccessTokenLookup.oauth2_session_id a1 =
     OAuth2AccessTokenLookup.oauth2_session_id a2 → k1 = k2).
Proof.
  intros Hint Ha Hr Hs.
  destruct (steps_tokens_ok _ _ Hs Hint (no_tokens_ok _ Ha Hr)) as [_ Hl _ Ht]. done.
Qed.

(** C24: nothing is taken back: whatever requests follow, the rows of the
    sessions, tokens and grants stay, what they are about does not change, and
    a session once finished, a token once revoked, consumed or used, a grant
    once fulfilled, rejected, cancelled or exchanged stays so. *)
Theorem nothing_taken_back w w' : rtc step w w' → evolves (w_committed w) (w_committed w').
Proof. apply steps_evolve. Qed.

(** C5: a code is exchanged once: after a request exchanged it, and whatever
    requests follow, no request presenting it is answered with tokens. *)
Theorem code_exchanged_once ip cfg ua auth grant w resp w1 w2 ip' cfg' ua' auth' grant' :
  integrity (w_committed w) →
  form auth = Some (AuthorizationCodeRequest grant) →
  token_request ip cfg ua auth w = (Ok resp, w1) →
  rtc step w1 w2 →
  form auth' = Some (AuthorizationCodeRequest grant') → ac_code grant' = ac_code grant →
  is_ok (token_request ip' cfg' ua' auth' w2).1 = false.
Proof.
  intros Hint Hform H Hs Hform' Hcode.
  assert (integrity (w_committed w1)) as Hint1.
  { replace w1 with (token_request ip cfg ua auth w).2 by (by rewrite H).
    by apply token_request_integrity. }
  apply token_request_Ok in H as (c & req & wa & wb & Hreq & _ & Ht & _ & H & Hc).
  rewrite Hform in Hreq. injection Hreq as <-. rewrite <- Ht in Hint.
  apply authorization_code_grant_Ok in H as (_ & n & gid & g & bid & b & u & sid & aid & rid &
    sc & Hea & Hee); [|done].
  destruct (ee_grant _ _ _ _ _ _ _ _ _ _ _ _ _ _ Hee) as [t Hg].
  pose proof (ev_grants _ _ (steps_evolve _ _ Hs)) as Hgr.
  destruct (Hgr gid (AuthorizationGrantRepository.with_exchanged t sid g)) as (g' & Hg' & [Hfix Hm]).
  { by rewrite Hc, Hg, lookup_insert_eq. }
  eapply (exchanged_refused _ _ _ _ _ w2 gid g'); [by eapply steps_integrity | done | done | |].
  - injection Hfix as _ Hco _ _ _ _ _. rewrite Hco, Hcode. by eapply ea_code.
  - left. simpl in Hm. inversion Hm as [|? ? ? ? _ Hm']. subst.
    inversion Hm' as [|? ? ? ? [?|?] _]; [done|]. done.
Qed.

Lemma steps_finished_tokens w w' sid :
  rtc step w w' → integrity (w_committed w) → finished (w_committed w) sid →
  (∀ k a, oauth2_access_tokens (w_committed w') !! k = Some a →
     OAuth2AccessTokenLookup.oauth2_session_id a = sid →
     is_Some (oauth2_access_tokens (w_committed w) !! k)) ∧
  (∀ k r, oauth2_refresh_tokens (w_committed w') !! k = Some r →
     OAuth2RefreshTokenLookup.oauth2_session_id r = sid →
     is_Some (oauth2_refresh_tokens (w_committed w) !! k)).
Proof.
  induction 1 as [|w1 w2 w3 H Hr IH]; intros Hint Hfin; [eauto|].
  pose proof (step_evolves _ _ H) as Hev.
  destruct IH as [IHa IHr]; [by eapply step_integrity | by eapply finished_evolves|].
  destruct (finished_no_new_token _ _ sid Hfin (step_tokens _ _ H Hint)) as [Ha Hre].
  pose proof (steps_evolve _ _ Hr) as Hev'. split.
  - intros k a Hk Hs. destruct (IHa k a Hk Hs) as [a1 Ha1].
    destruct (ev_access _ _ Hev' k a1 Ha1) as (a' & Ha' & [Hfix _]).
    apply (Ha k a1 Ha1). injection Hfix as ? ? ? ? ?. congruence.
  - intros k r Hk Hs. destruct (IHr k r Hk Hs) as [r1 Hr1].
    destruct (ev_refresh _ _ Hev' k r1 Hr1) as (r' & Hr' & [Hfix _]).
    apply (Hre k r1 Hr1). injection Hfix as ? ? ? ? ?. congruence.
Qed.

(** C4: a finished session is the end of its tokens: whatever requests follow,
    it stays finished, it gets no access token and no refresh token any more,
    and a request presenting one of its refresh tokens is refused. *)
Theorem finished_session_is_final ip cfg ua auth grant w w' sid k r :
  integrity (w_committed w) → finished (w_committed w) sid → rtc step w w' →
  finished (w_committed w') sid ∧
  (∀ k a, oauth2_access_tokens (w_committed w') !! k = Some a →
     OAuth2AccessTokenLookup.oauth2_session_id a = sid →
     is_Some (oauth2_access_tokens (w_committed w) !! k)) ∧
  (∀ k r, oauth2_refresh_tokens (w_committed w') !! k = Some r →
     OAuth2RefreshTokenLookup.oauth2_session_id r = sid →
     is_Some (oauth2_refresh_tokens (w_committed w) !! k)) ∧
  (oauth2_refresh_tokens (w_committed w') !! k = Some r →
   OAuth2RefreshTokenLookup.oauth2_session_id r = sid →
   form auth = Some (RefreshTokenRequest grant) →
   rt_refresh_token grant = OAuth2RefreshTokenLookup.refresh_token r →
   is_ok (token_request ip cfg ua auth w').1 = false).
Proof.
  intros Hint Hfin Hs. pose proof (steps_evolve _ _ Hs) as Hev.
  pose proof (finished_evolves _ _ _ Hev Hfin) as Hfin'.
  destruct (steps_finished_tokens _ _ _ Hs Hint Hfin) as [Ha Hr].
  split_and!; [done..|]. intros Hk Hsid Hform Htxt.
  eapply spent_refused; [by eapply steps_integrity | done | exact Hk | done |].
  left. rewrite Hsid. done.
Qed.
End Histories.

(** ** Witnesses *)

Section Witnesses.
Import Scenario AccountScenario.

Definition start_world : World Z := world db 0 0.

(** The exchange, a refresh, and the first code presented again. *)
Lemma history : rtc step start_world (token_request None config None code_request
  (token_request None config None (refresh_request exchange_response)
    (token_request None config None code_request start_world).2).2).2.
Proof.
  eapply rtc_l; [apply (step_token None config None code_request)|].
  eapply rtc_l; [apply (step_token None config None (refresh_request exchange_response))|].
  apply rtc_once, (step_token None config None code_request).
Qed.

Definition after : World Z := (token_request None config None code_request
  (token_request None config None (refresh_request exchange_response)
    (token_request None config None code_request start_world).2).2).2.

Lemma one_valid_token_per_session_witness :
  (∀ k1 r1 k2 r2, oauth2_refresh_tokens (w_committed after) !! k1 = Some r1 →
     oauth2_refresh_tokens (w_committed after) !! k2 = Some r2 → live r1 → live r2 →
     OAuth2RefreshTokenLookup.oauth2_session_id r1 =
     OAuth2RefreshTokenLookup.oauth2_session_id r2 → k1 = k2) ∧
  (∀ k1 a1 k2 a2, oauth2_access_tokens (w_committed after) !! k1 = Some a1 →
     oauth2_access_tokens (w_committed after) !! k2 = Some a2 → unrevoked a1 → unrevoked a2 →
     OAuth2AccessTokenLookup.oauth2_session_id a1 =
     OAuth2AccessTokenLookup.oauth2_session_id a2 → k1 = k2).
Proof.
  apply (one_valid_token_per_session start_world after);
    [apply integrity_db | reflexivity | reflexivity | apply history].
Defined.

Lemma nothing_taken_back_witness : evolves (w_committed start_world) (w_committed after).
Proof. apply (nothing_taken_back start_world after). apply history. Defined.

Lemma code_exchanged_once_witness :
  is_ok (token_request None config None code_request
    (token_request None config None code_request start_world).2).1 = false.
Proof.
  apply (code_exchanged_once None config None code_request
           (mkAuthorizationCodeGrant "code" None (Some verifier)) start_world exchange_response
           (token_request None config None code_request start_world).2
           (token_request None config None code_request start_world).2
           None config None code_request
           (mkAuthorizationCodeGrant "code" None (Some verifier))).
  - apply integrity_db.
  - reflexivity.
  - apply fst_run. vm_compute. reflexivity.
  - apply rtc_refl.
  - reflexivity.
  - reflexivity.
Defined.

(** A session that is finished. *)
Definition ended_session : OAuthSessionLookup.t :=
  OAuthSessionLookup.mk 7 (Some 2%Z) None 1 [scope_text] 0 (Some 1000000%Z) None None None None.
Definition orphan : OAuth2RefreshTokenLookup.t :=
  OAuth2RefreshTokenLookup.mk 9 "mar_old" 0 None None None 7 None.
Definition ended_db : Db :=
  mkDb {[1%Z := client]} {[2%Z := user]} ∅ ∅ {[7%Z := ended_session]} ∅ {[9%Z := orphan]} ∅ ∅ ∅ ∅ ∅ None ∅ ∅ ∅ ∅ ∅ ∅ ∅ ∅ ∅ no_accounts.
Definition ended_world : World Z := world ended_db 0 0.
Definition orphan_grant : RefreshTokenGrant := mkRefreshTokenGrant "mar_old" None.
Definition orphan_request : ClientAuthorization AccessTokenRequest :=
  mkClientAuthorization client_credentials (Some (RefreshTokenRequest orphan_grant)).

Lemma integrity_ended_db : integrity ended_db.
Proof.
  split; intros k *; simpl; intros;
    repeat match goal with
      | H : {[_ := _]} !! _ = Some _ |- _ => apply lookup_singleton_Some in H as [<- <-]
      | H : ∅ !! _ = Some _ |- _ => by rewrite lookup_empty in H
      end; try done; simplify_eq/=; vm_compute; eauto.
Qed.

Lemma finished_session_is_final_witness :
  is_ok (token_request None config None orphan_request ended_world).1 = false.
Proof.
  apply (finished_session_is_final None config None orphan_request orphan_grant ended_world
           ended_world 7 9 orphan).
  - apply integrity_ended_db.
  - exists ended_session, 1000000%Z. split; reflexivity.
  - apply rtc_refl.
  - reflexivity.
  - reflexivity.
  - reflexivity.
  - reflexivity.
Defined.
End Witnesses.

(** ** Histories of the accounts

    The integrity of the tables of the accounts in every state that requests,
    jobs and upkeep reach. *)

#[local] Open Scope Z_scope.

Section Requests.
Context {R C : Type} `{!RngCore R} {crc : Crc} {base64 : Base64} {sha2 : Sha2}
  {ulid_text : UlidText} {url_lib : UrlLib} {jwks_json : JwksJson}
  {client_crypto : ClientCrypto} {policy : Policy} {templates : Templates}
  {keystore : Keystore R} {url_builder : DeviceAuthorize.UrlBuilder} {url_split : UrlSplit}
  {hs : Homeserver} {pg_text : PgText} {password_crates : PasswordCrates R C}
  {names : MatrixNames} {limits : Limits} {login_policy : LoginPolicy}
  {rng_bytes : RngBytes R} {url_edit : UrlEdit} {url_encoded : UrlEncoded}
  {collation : PgCollation} {unicode : UnicodeCase} {chrono : ChronoText} {texts : ErrorTexts}
  {aead : Aead} {base64_std : Base64Std} {psl : PublicSuffixes} {hex : Hex}
  {json : MetadataJson} {registration_policy : RegistrationPolicy}
  `{!RngUniform R} {localparts : FreeLocalparts} {addresses : AddressParser}
  {locales : LocaleParser} {register_policy : RegisterPolicy} {email_policy : EmailPolicy}
  {captcha_api : CaptchaApi} {account_limits : AccountLimits} {lower : UnicodeLower}
  {mailer : Mailer} {pg_json : PgJson} {pg_pattern : PgPattern}.
Implicit Types w : World R.

#[local] Hint Unfold check_stage authorization_code_grant TokenEndpoint.post token_request : mas_ops.

Lemma transaction_accounts m : transaction (R := R) m → keeps (keeps_db preserves_accounts) m.
Proof. induction 1; keeps_tac. Qed.

Lemma token_accounts ip cfg ua auth :
  txn_keeps preserves_accounts (token_request (R := R) ip cfg ua auth).
Proof. apply txn_keeps_pool; [apply _ | keeps_tac]. Qed.
Lemma revoke_accounts ip auth :
  txn_keeps preserves_accounts (Revoke.revoke_request (R := R) ip auth).
Proof. apply txn_keeps_pool; [apply _ | keeps_tac]. Qed.
Lemma device_accounts ip cfg ua auth :
  txn_keeps preserves_accounts (DeviceAuthorize.device_authorization_request (R := R) ip cfg ua auth).
Proof. apply txn_keeps_pool; [apply _ | keeps_tac]. Qed.
Lemma create_accounts requester input :
  txn_keeps preserves_accounts (Graphql.create_oauth2_session (R := R) requester input).
Proof. txn_tac. keeps_tac. Qed.
Lemma end_accounts requester id :
  txn_keeps preserves_accounts (Graphql.end_oauth2_session (R := R) requester id).
Proof. txn_tac. keeps_tac. Qed.
Lemma name_accounts requester id n :
  txn_keeps preserves_accounts (Graphql.set_oauth2_session_name (R := R) requester id n).
Proof. txn_tac. keeps_tac. Qed.

Lemma compat_step_accounts w w' :
  compat_step w w' → preserves_accounts (w_committed w) (w_committed w').
Proof. compat_step_tac. Qed.
Lemma page_step_accounts w w' :
  page_step w w' → preserves_accounts (w_committed w) (w_committed w').
Proof. page_step_tac. Qed.
Lemma job_step_accounts w w' :
  job_step w w' → preserves_accounts (w_committed w) (w_committed w').
Proof. job_step_tac. Qed.

Lemma step_accounts w w' : step w w' → preserves_accounts (w_committed w) (w_committed w').
Proof.
  destruct 1 as [| | | | | |w w' Hs|w w' Hs|w w' Hs|w w' Hs|m w Hm|m w Hm|w w' Hc].
  - apply token_accounts.
  - apply revoke_accounts.
  - apply device_accounts.
  - apply create_accounts.
  - apply end_accounts.
  - apply name_accounts.
  - by apply compat_step_accounts.
  - by apply page_step_accounts.
  - by apply job_step_accounts.
  - by apply account_step_accounts.
  - apply (run_transaction_keeps _ m (transaction_accounts m Hm)).
  - apply (run_transaction_keeps _ m (upkeep_accounts m Hm)).
  - rewrite Hc. reflexivity.
Qed.

(** PostgreSQL refuses what breaks a constraint, or deletes what refers to the row
    deleted: whatever requests are answered, jobs run and rows cleaned up, the
    tables of the accounts stay well formed. *)
Lemma steps_accounts w w' :
  rtc step w w' → account_integrity (w_committed w) → account_integrity (w_committed w').
Proof.
  induction 1 as [|w1 w2 w3 H _ IH]; intros Hint; [done|].
  apply IH. by apply (step_accounts _ _ H).
Qed.
End Requests.
