(* ===== verification/CompatHistory.v ===== *)
(** * Histories of the compatibility tokens

    What holds of the compatibility sessions, their tokens and the SSO logins
    in every state that requests reach. *)

From stdpp Require Import base tactics list strings gmap relations.
From Stdlib Require Import ZArith Lia Ascii.
From S2P Require Import Prelude Text Scope Externals Formats Pagination TokenFormat DataModel CompatModel Storage TokenRepo GrantRepo QueueRepo Jobs Tasks UserRepo CompatRepo PersonalRepo AppSessionRepo Passwords ClientAuth TokenEndpoint Revocation DeviceAuthorize GraphqlSession WebSession Introspection CompatEndpoints Authorization DeviceConsent ClientMetadata Registration RegisterForms Register AccountPages AccountMutations RepoFacts CompatRepoFacts Integrity Evolution Scenario TokenFacts RevocationFacts DeviceFacts GraphqlFacts CompatRefreshFacts TaskFacts DeactivationFacts ConsentFacts RegistrationFacts AccountSteps AccountIntegrity CompatLoginFacts IntrospectionFacts Lifecycle.

#[local] Open Scope Z_scope.

(** ** Requests that issue no compatibility token *)

Definition compat_same (d d' : Db) : Prop :=
  compat_access_tokens d' = compat_access_tokens d ∧
  compat_refresh_tokens d' = compat_refresh_tokens d.

#[export] Instance compat_same_preorder : PreOrder compat_same.
Proof. split; [done|]. intros x y z [? ?] [? ?]. split; congruence. Qed.
#[export] Instance compat_same_on_core : OnCore compat_same.
Proof.
  intros d d' H. assert (compat_same (core d) (core d')) as [] by (by rewrite H). by split.
Qed.

#[export] Hint Extern 1 (keeps (keeps_db compat_same) (execute (insert_stmt _ _ _))) =>
  apply (keeps_db_execute _); intros ??? (? & ? & ? & ->)%insert_stmt_inv; done : keeps.
#[export] Hint Extern 1 (keeps (keeps_db compat_same) (execute (update_stmt _ _ _))) =>
  apply (keeps_db_execute _); intros ??? [->|(? & ? & ? & ->)]%update_stmt_any; done : keeps.
#[export] Hint Extern 1 (keeps (keeps_db compat_same) (execute (update_row_where_stmt _ _ _))) =>
  apply (keeps_db_execute _); intros ??? [->|(? & ? & ? & ->)]%update_row_where_any; done : keeps.
#[export] Hint Extern 1
    (keeps (keeps_db compat_same) (execute (UserRepository.insert_user_stmt _))) =>
  apply (keeps_db_execute _); intros ??? [->|(? & ? & ->)]%insert_user_any; done : keeps.
#[export] Hint Extern 2 (keeps (keeps_db compat_same) (execute _)) =>
  apply (keeps_db_execute _); unfold update_where_stmt; intros ??? [= <- <-]; done : keeps.

Section Requests.
Context {R C : Type} `{!RngCore R} {crc : Crc} {base64 : Base64} {sha2 : Sha2}
  {ulid_text : UlidText} {url_lib : UrlLib} {jwks_json : JwksJson}
  {client_crypto : ClientCrypto} {policy : Policy} {templates : Templates}
  {keystore : Keystore R} {url_builder : DeviceAuthorize.UrlBuilder} {url_split : UrlSplit}
  {hs : Homeserver} {pg_text : PgText} {password_crates : PasswordCrates R C}
  {names : MatrixNames} {limits : Limits} {login_policy : LoginPolicy}
  {rng_bytes : RngBytes R} {url_edit : UrlEdit} {url_encoded : UrlEncoded}
  {collation : PgCollation} {unicode : UnicodeCase} {chrono : ChronoText} {texts : ErrorTexts}
  {aead : Aead} {base64_std : Base64Std} {psl : PublicSuffixes} {hex : Hex}
  {json : MetadataJson} {registration_policy : RegistrationPolicy}
  `{!RngUniform R} {localparts : FreeLocalparts} {addresses : AddressParser}
  {locales : LocaleParser} {register_policy : RegisterPolicy} {email_policy : EmailPolicy}
  {captcha_api : CaptchaApi} {account_limits : AccountLimits} {lower : UnicodeLower}
  {mailer : Mailer} {pg_json : PgJson} {pg_pattern : PgPattern}.
Implicit Types w : World R.

#[local] Hint Unfold check_stage authorization_code_grant TokenEndpoint.post token_request : mas_ops.

Lemma transaction_compat m : transaction (R := R) m → keeps (keeps_db compat_same) m.
Proof. induction 1; keeps_tac. Qed.

Lemma token_compat ip cfg ua auth : txn_keeps compat_same (token_request (R := R) ip cfg ua auth).
Proof. apply txn_keeps_pool; [apply _ | keeps_tac]. Qed.
Lemma revoke_compat ip auth : txn_keeps compat_same (Revoke.revoke_request (R := R) ip auth).
Proof. apply txn_keeps_pool; [apply _ | keeps_tac]. Qed.
Lemma device_compat ip cfg ua auth :
  txn_keeps compat_same (DeviceAuthorize.device_authorization_request (R := R) ip cfg ua auth).
Proof. apply txn_keeps_pool; [apply _ | keeps_tac]. Qed.
Lemma create_compat requester input :
  txn_keeps compat_same (Graphql.create_oauth2_session (R := R) requester input).
Proof. txn_tac. keeps_tac. Qed.
Lemma end_compat requester id :
  txn_keeps compat_same (Graphql.end_oauth2_session (R := R) requester id).
Proof. txn_tac. keeps_tac. Qed.
Lemma name_compat requester id n :
  txn_keeps compat_same (Graphql.set_oauth2_session_name (R := R) requester id n).
Proof. txn_tac. keeps_tac. Qed.

Lemma refresh_err ip cfg input :
  err_keeps same_committed (CompatRefresh.refresh_request (R := R) ip cfg input).
Proof. unfold CompatRefresh.refresh_request, CompatRefresh.post. err_tac. Qed.
Lemma open_session_err pm ip cfg ua input :
  err_keeps same_committed (Login.open_session (R := R) pm ip cfg ua input).
Proof. unfold Login.open_session. err_tac. Qed.

(** ** What a request does to the compatibility tokens *)

(** A refresh token is issued to a session that is new, or replaces those of
    its session. *)
Inductive compat_tokens_step (d d' : Db) : Prop :=
| cts_same : compat_same d d' → compat_tokens_step d d'
| cts_opened sid aid a :
    compat_sessions d !! sid = None →
    CompatAccessTokenLookup.compat_session_id a = sid →
    compat_access_tokens d !! aid = None →
    compat_access_tokens d' = <[aid := a]> (compat_access_tokens d) →
    (compat_refresh_tokens d' = compat_refresh_tokens d ∨
     ∃ rid txt t, compat_refresh_tokens d !! rid = None ∧ compat_refresh_tokens d' =
       <[rid := CompatRefreshTokenLookup.mk rid txt t None aid sid]> (compat_refresh_tokens d)) →
    compat_tokens_step d d'
| cts_rotated ttl w w' input rid rt s resp aid nrid :
    w_committed w = d → w_committed w' = d' →
    compat_refresh_allowed d input rid rt s →
    compat_refresh_effect (R := R) w w' ttl resp rt aid nrid → compat_tokens_step d d'.

Lemma undo_compat s : txn_keeps compat_same (Login.undo_session (R := R) s).
Proof. apply txn_keeps_pool; [apply _ | keeps_tac]. Qed.

Lemma login_compat pm ip cfg ua input w :
  integrity (w_committed w) →
  compat_tokens_step (w_committed w) (w_committed (Login.post pm ip cfg ua input w).2).
Proof.
  intros Hint. unfold Login.post.
  destruct (Login.open_session pm ip cfg ua input w) as [[[[[s user] a] r]|e] w1] eqn:Ho.
  - rewrite (bind_run_Ok _ _ _ _ _ Ho).
    destruct (provision_txn_keeps compat_same ip s user (response_of cfg input s user a r)
      undo_compat w1) as [Ha Hr].
    apply open_session_Ok in Ho as (uid & u & device & sid & aid & He); [|done].
    destruct (lg_access _ _ _ _ _ _ _ _ _ _ _ He) as (t & _ & Hacc).
    pose proof (lg_refresh _ _ _ _ _ _ _ _ _ _ _ He) as Href.
    eapply (cts_opened _ _ sid aid (CompatAccessTokenLookup.mk aid _ t _ sid)).
    + apply (op_fresh _ _ _ _ _ _ (lg_opened _ _ _ _ _ _ _ _ _ _ _ He)).
    + reflexivity.
    + apply (lg_access_fresh _ _ _ _ _ _ _ _ _ _ _ He).
    + by etransitivity; [exact Ha|exact Hacc].
    + destruct r as [txt|]; [|left; by etransitivity; [exact Hr|exact Href]].
      right. destruct Href as (rid & tr & Hf & Href). exists rid, txt, tr. split; [done|].
      by etransitivity; [exact Hr|exact Href].
  - unfold bind. rewrite Ho. simpl. apply open_session_err in Ho as [Hc _]. rewrite Hc.
    by apply cts_same.
Qed.

Lemma refresh_compat ip cfg input w :
  integrity (w_committed w) →
  compat_tokens_step (w_committed w)
    (w_committed (CompatRefresh.refresh_request ip cfg input w).2).
Proof.
  intros Hint. destruct (CompatRefresh.refresh_request ip cfg input w) as [[resp|e] w'] eqn:H.
  - apply compat_refresh_Ok in H as (_ & rid & rt & s & aid & nrid & Ha & He); [|done].
    by eapply cts_rotated.
  - apply refresh_err in H as [Hc _]. simpl. rewrite Hc. by apply cts_same.
Qed.

Lemma compat_step_compat w w' :
  compat_step w w' → integrity (w_committed w) →
  compat_tokens_step (w_committed w) (w_committed w').
Proof.
  destruct 1; intros Hint; [by apply refresh_compat| | |by apply login_compat|..];
    apply cts_same; txn_goal; (apply txn_keeps_pool; [apply _ | keeps_tac]).
Qed.

Lemma page_step_compat w w' : page_step w w' → compat_same (w_committed w) (w_committed w').
Proof. page_step_tac. Qed.
Lemma job_step_compat w w' : job_step w w' → compat_same (w_committed w) (w_committed w').
Proof. job_step_tac. Qed.
Lemma upkeep_compat m : upkeep (R := R) m → keeps (keeps_db compat_same) m.
Proof. induction 1; keeps_tac. Qed.
Lemma account_step_compat w w' :
  account_step w w' → compat_same (w_committed w) (w_committed w').
Proof. account_step_tac. Qed.

Lemma step_compat_tokens w w' :
  step w w' → integrity (w_committed w) →
  compat_tokens_step (w_committed w) (w_committed w').
Proof.
  destruct 1 as [| | | | | |w w' Hs|w w' Hs|w w' Hs|w w' Hs|m w Hm|m w Hm|w w' Hc]; intros Hint;
    [..|by apply compat_step_compat| | | | | |]; apply cts_same.
  - apply token_compat.
  - apply revoke_compat.
  - apply device_compat.
  - apply create_compat.
  - apply end_compat.
  - apply name_compat.
  - by apply page_step_compat.
  - by apply job_step_compat.
  - by apply account_step_compat.
  - apply (run_transaction_keeps _ m (transaction_compat m Hm)).
  - apply (run_transaction_keeps _ m (upkeep_compat m Hm)).
  - by rewrite Hc.
Qed.
End Requests.

(** ** The tokens of a compatibility session *)

(** A session has at most one refresh token that can still be used, and a
    refresh token was issued with an access token of its own session. *)
Record compat_tokens_ok (d : Db) : Prop := {
  ct_live : ∀ k1 r1 k2 r2, compat_refresh_tokens d !! k1 = Some r1 →
    compat_refresh_tokens d !! k2 = Some r2 → compat_live r1 → compat_live r2 →
    CompatRefreshTokenLookup.compat_session_id r1 =
    CompatRefreshTokenLookup.compat_session_id r2 → k1 = k2;
  ct_pair : ∀ k r, compat_refresh_tokens d !! k = Some r → ∃ a,
    compat_access_tokens d !! CompatRefreshTokenLookup.compat_access_token_id r = Some a ∧
    CompatAccessTokenLookup.compat_session_id a = CompatRefreshTokenLookup.compat_session_id r;
}.

Lemma no_compat_tokens_ok d : compat_refresh_tokens d = ∅ → compat_tokens_ok d.
Proof. intros Hr. split; rewrite Hr; intros k *; by rewrite lookup_empty. Qed.

(** The rows of the access tokens keep their session. *)
Lemma access_session_evolves d d' k a :
  evolves d d' → compat_access_tokens d !! k = Some a → ∃ a',
    compat_access_tokens d' !! k = Some a' ∧
    CompatAccessTokenLookup.compat_session_id a' = CompatAccessTokenLookup.compat_session_id a.
Proof.
  intros Hev Hk. destruct (ev_compat_access _ _ Hev k a Hk) as (a' & Hk' & [Hfix _]).
  exists a'. split; [done|]. by injection Hfix.
Qed.

Lemma consumed_in_fixed sid t r :
  CompatRefreshTokenLookup.compat_session_id (consumed_in sid t r) =
    CompatRefreshTokenLookup.compat_session_id r ∧
  CompatRefreshTokenLookup.compat_access_token_id (consumed_in sid t r) =
    CompatRefreshTokenLookup.compat_access_token_id r ∧
  (compat_live (consumed_in sid t r) →
     compat_live r ∧ CompatRefreshTokenLookup.compat_session_id r ≠ sid).
Proof.
  unfold consumed_in, compat_live.
  destruct (bool_decide (_ = sid)) eqn:E1; simpl; [|by apply bool_decide_eq_false in E1].
  destruct (bool_decide (_ = None)) eqn:E2; simpl; [done|].
  by apply bool_decide_eq_false in E2.
Qed.

(** Where the refresh tokens of the next state come from. *)
Lemma compat_refresh_rows {R} (w w' : World R) ttl resp rt aid nrid k r :
  compat_refresh_effect w w' ttl resp rt aid nrid →
  compat_refresh_tokens (w_committed w') !! k = Some r →
  k = nrid ∧ CompatRefreshTokenLookup.compat_session_id r =
    CompatRefreshTokenLookup.compat_session_id rt ∧
    CompatRefreshTokenLookup.compat_access_token_id r = aid ∨
  k ≠ nrid ∧ ∃ r0, compat_refresh_tokens (w_committed w) !! k = Some r0 ∧
    CompatRefreshTokenLookup.compat_session_id r = CompatRefreshTokenLookup.compat_session_id r0 ∧
    CompatRefreshTokenLookup.compat_access_token_id r =
      CompatRefreshTokenLookup.compat_access_token_id r0 ∧
    (compat_live r → compat_live r0 ∧ CompatRefreshTokenLookup.compat_session_id r0 ≠
       CompatRefreshTokenLookup.compat_session_id rt).
Proof.
  intros He Hk. destruct (decide (k = nrid)) as [->|Hne].
  - left. destruct (cre_new_refresh _ _ _ _ _ _ _ He) as [t Ht]. rewrite Hk in Ht.
    by injection Ht as ->.
  - right. split; [done|]. destruct (cre_consumed _ _ _ _ _ _ _ He) as (t & _ & Ht).
    rewrite Ht in Hk by done. apply fmap_Some in Hk as (r0 & H0 & ->).
    exists r0. split; [done|]. apply consumed_in_fixed.
Qed.

Section Preserved.
Context {R : Type}.

Lemma compat_tokens_opened d d' sid aid a :
  integrity d → compat_tokens_ok d → compat_sessions d !! sid = None →
  CompatAccessTokenLookup.compat_session_id a = sid →
  compat_access_tokens d' = <[aid := a]> (compat_access_tokens d) →
  compat_access_tokens d !! aid = None →
  (compat_refresh_tokens d' = compat_refresh_tokens d ∨
   ∃ rid txt t, compat_refresh_tokens d !! rid = None ∧ compat_refresh_tokens d' =
     <[rid := CompatRefreshTokenLookup.mk rid txt t None aid sid]> (compat_refresh_tokens d)) →
  compat_tokens_ok d'.
Proof.
  intros Hint [Hl Hp] Hs Ha Hacc Hfresh Href.
  assert (∀ k r, compat_refresh_tokens d !! k = Some r →
    CompatRefreshTokenLookup.compat_session_id r ≠ sid) as Hn.
  { intros k r Hk <-. destruct (compat_refresh_session_fkey _ Hint k r _ Hk eq_refl). congruence. }
  assert (∀ k r, compat_refresh_tokens d !! k = Some r → ∃ a,
    compat_access_tokens d' !! CompatRefreshTokenLookup.compat_access_token_id r = Some a ∧
    CompatAccessTokenLookup.compat_session_id a = CompatRefreshTokenLookup.compat_session_id r)
    as Hp'.
  { intros k r Hk. destruct (Hp k r Hk) as (b & Hb & ?). exists b. split; [|done].
    rewrite Hacc, lookup_insert_ne; [done|congruence]. }
  destruct Href as [Href|(rid & txt & t & Hrid & Href)]; split; rewrite ?Href; try done.
  - intros k1 r1 k2 r2 [[<- <-]|[? H1]]%lookup_insert_Some
      [[<- <-]|[? H2]]%lookup_insert_Some; simpl; intros; try done; eauto;
      exfalso; [eapply Hn; [exact H2 | done] | eapply Hn; [exact H1 | done]].
  - intros k r [[<- <-]|[? Hk]]%lookup_insert_Some; [|by eapply Hp']. simpl.
    exists a. by rewrite Hacc, lookup_insert_eq.
Qed.

Lemma compat_tokens_ok_step d d' :
  integrity d → evolves d d' → compat_tokens_ok d → compat_tokens_step (R := R) d d' →
  compat_tokens_ok d'.
Proof.
  intros Hint Hev Hok
    [[Ha Hr]|sid aid a ? ? ? ? ?|ttl w w' input rid rt s resp aid nrid <- <- Hal He].
  - destruct Hok as [Hl Hp]. split; by rewrite ?Ha, ?Hr.
  - by eapply compat_tokens_opened.
  - destruct Hok as [Hl Hp]. split.
    + intros k1 r1 k2 r2 H1 H2 L1 L2 Hs.
      destruct (compat_refresh_rows _ _ _ _ _ _ _ _ _ He H1) as [(-> & S1 & _)|(N1 & x1 & X1 & S1 & _ & K1)],
        (compat_refresh_rows _ _ _ _ _ _ _ _ _ He H2) as [(-> & S2 & _)|(N2 & x2 & X2 & S2 & _ & K2)];
        try destruct (K1 L1) as [? ?]; try destruct (K2 L2) as [? ?]; try congruence.
      eapply (Hl k1 x1 k2 x2); try done. congruence.
    + intros k r Hk.
      destruct (compat_refresh_rows _ _ _ _ _ _ _ _ _ He Hk) as [(-> & S1 & A1)|(N1 & x1 & X1 & S1 & A1 & _)];
        rewrite S1, A1.
      * destruct (cre_new_access _ _ _ _ _ _ _ He) as (t & _ & Ht). eauto.
      * destruct (Hp _ _ X1) as (a & Hka & <-). by eapply access_session_evolves.
Qed.
End Preserved.
