(* ===== verification/CompatTheorems.v ===== *)
(** * Theorems on the compatibility API

    The rotation of the tokens, the session a login opens, the end of a
    session, what is true of them after any history of requests, and that the
    SSO logins stay readable. *)

From stdpp Require Import base tactics list strings gmap relations.
From Stdlib Require Import ZArith Lia Ascii.
From S2P Require Import Prelude Text Scope Externals Formats Pagination TokenFormat DataModel CompatModel Storage TokenRepo GrantRepo QueueRepo Jobs Tasks UserRepo CompatRepo PersonalRepo AppSessionRepo Passwords ClientAuth TokenEndpoint Revocation DeviceAuthorize GraphqlSession WebSession Introspection CompatEndpoints Authorization DeviceConsent ClientMetadata Registration RegisterForms Register AccountPages AccountMutations RepoFacts CompatRepoFacts Integrity Evolution Scenario TokenFacts DeviceFacts RevocationFacts GraphqlFacts CompatRefreshFacts TaskFacts DeactivationFacts ConsentFacts RegistrationFacts AccountSteps AccountIntegrity CompatLoginFacts IntrospectionFacts Lifecycle CompatHistory.
#[local] Open Scope Z_scope.

Section Theorems.
Context {R C : Type} `{!RngCore R} {crc : Crc} {base64 : Base64} {sha2 : Sha2}
  {ulid_text : UlidText} {url_lib : UrlLib} {jwks_json : JwksJson}
  {client_crypto : ClientCrypto} {policy : Policy} {templates : Templates}
  {keystore : Keystore R} {url_builder : DeviceAuthorize.UrlBuilder} {url_split : UrlSplit}
  {hs : Homeserver} {pg_text : PgText} {password_crates : PasswordCrates R C}
  {names : MatrixNames} {limits : Limits} {login_policy : LoginPolicy}
  {rng_bytes : RngBytes R} {url_edit : UrlEdit} {url_encoded : UrlEncoded}
  {collation : PgCollation} {unicode : UnicodeCase} {chrono : ChronoText} {texts : ErrorTexts}
  {aead : Aead} {base64_std : Base64Std} {psl : PublicSuffixes} {hex : Hex}
  {json : MetadataJson} {registration_policy : RegistrationPolicy}
  `{!RngUniform R} {localparts : FreeLocalparts} {addresses : AddressParser}
  {locales : LocaleParser} {register_policy : RegisterPolicy} {email_policy : EmailPolicy}
  {captcha_api : CaptchaApi} {account_limits : AccountLimits} {lower : UnicodeLower}
  {mailer : Mailer} {pg_json : PgJson} {pg_pattern : PgPattern}.
Implicit Types w : World R.

(** C18: a refresh of compatibility tokens that is answered was asked with a
    refresh token that was live, of a session that is not finished; it gives a
    new pair of tokens to that session, consumes every live refresh token of
    it, leaves the access token of the old pair expired, and changes nothing
    else. *)
Theorem compat_refresh_rotation ip cfg input w resp w' :
  integrity (w_committed w) →
  CompatRefresh.refresh_request ip cfg input w = (Ok resp, w') →
  check input = Ok CompatRefreshTokenType ∧
  ∃ rid rt s aid nrid, compat_refresh_allowed (w_committed w) input rid rt s ∧
    compat_refresh_effect w w' (compat_token_ttl cfg) resp rt aid nrid.
Proof. apply compat_refresh_Ok. Qed.

(** C17: a login that is answered proved the password of a user, or presented a
    login token fulfilled less than thirty seconds ago and not exchanged yet,
    which it exchanges; the user is neither locked nor deactivated; it opens
    one session, on the device asked for, ends every other active session of
    the user on that device, and gives the session one access token and, if
    asked for, one refresh token. *)
Theorem compat_login_opens_session pm ip cfg ua input w resp w' :
  integrity (w_committed w) → Login.post pm ip cfg ua input w = (Ok resp, w') →
  ∃ uid u device sid aid, login_effect pm cfg input resp w w' uid u device sid aid.
Proof. apply login_Ok. Qed.

Lemma steps_compat_tokens_ok w w' :
  rtc step w w' → integrity (w_committed w) → compat_tokens_ok (w_committed w) →
  compat_tokens_ok (w_committed w').
Proof.
  induction 1 as [|w1 w2 w3 H _ IH]; intros Hint Hok; [done|].
  apply IH; [by eapply step_integrity|].
  eapply (compat_tokens_ok_step (R := R)); [exact Hint|by apply step_evolves|exact Hok|].
  by apply step_compat_tokens.
Qed.

(** C19: whatever requests a deployment that starts without compatibility
    tokens answers, a compatibility session never has two refresh tokens that
    can still be used, and the access token a refresh token was issued with is
    one of the same session. *)
Theorem one_compat_refresh_token w w' :
  integrity (w_committed w) → compat_refresh_tokens (w_committed w) = ∅ → rtc step w w' →
  compat_tokens_ok (w_committed w').
Proof. intros Hint Hr Hs. eapply steps_compat_tokens_ok; [done..|]. by apply no_compat_tokens_ok. Qed.

(** ** Login tokens *)

(** C21: a login token is exchanged once: after a login with it was answered,
    and whatever requests follow, no login with it is answered. *)
Theorem login_token_exchanged_once pm ip cfg ua input token w resp w1 w2 pm' ip' cfg' ua' input' :
  integrity (w_committed w) →
  Login.credentials input = Login.CredentialsToken token →
  Login.post pm ip cfg ua input w = (Ok resp, w1) →
  rtc step w1 w2 →
  Login.credentials input' = Login.CredentialsToken token →
  is_ok (Login.post pm' ip' cfg' ua' input' w2).1 = false.
Proof.
  intros Hint Hcr H Hs Hcr'.
  assert (step w w1) as Hstep.
  { replace w1 with (Login.post pm ip cfg ua input w).2 by (by rewrite H). apply step_compat, compat_login. }
  assert (integrity (w_committed w2)) as Hint2
    by (eapply steps_integrity; [exact Hs|by eapply step_integrity]).
  apply login_Ok in H as (uid & u & device & sid & aid & He); [|done].
  pose proof (lg_credentials _ _ _ _ _ _ _ _ _ _ _ He) as Hc. rewrite Hcr in Hc.
  destruct Hc as (lid & l & t1 & t2 & _ & _ & (Hl & Htok & _) & Hsso).
  destruct (ev_sso_logins _ _ (steps_evolve _ _ Hs) lid
    (CompatSsoLoginRepository.with_exchanged t2 sid l)) as (l' & Hl' & [Hfix Hm]).
  { by rewrite Hsso, lookup_insert_eq. }
  destruct (Login.post pm' ip' cfg' ua' input' w2) as [[resp'|e] w3] eqn:H2; [|done]. exfalso.
  apply login_Ok in H2 as (uid' & u' & device' & sid' & aid' & He'); [|done].
  pose proof (lg_credentials _ _ _ _ _ _ _ _ _ _ _ He') as Hc'. rewrite Hcr' in Hc'.
  destruct Hc' as (lid2 & l2 & t3 & t4 & _ & _ & (Hl2 & Htok2 & Hx2 & _) & _).
  injection Hfix as Hf1 Hf2 Hf3 Hf4.
  destruct (same_text _ _ _ _ _ _ (sso_logins_unique _ Hint2) Hl2 Hl') as [-> ->];
    [congruence|].
  simpl in Hm. inversion Hm as [|? ? ? ? _ Hm']; subst.
  inversion Hm' as [|? ? ? ? [?|[? ?]] _]; congruence.
Qed.

(** ** Sessions that are over *)

Definition compat_finished (d : Db) (sid : Ulid) : Prop :=
  ∃ s t, compat_sessions d !! sid = Some s ∧ CompatSessionLookup.finished_at s = Some t.

Lemma compat_finished_evolves d d' sid : evolves d d' → compat_finished d sid → compat_finished d' sid.
Proof.
  intros Hev (s & t & Hk & Hf).
  destruct (ev_compat_sessions _ _ Hev _ _ Hk) as (s' & Hk' & [_ Hm]).
  inversion Hm as [|? ? ? ? [Hn|[t' Ht']] _]; [congruence|]. exists s', t'. done.
Qed.

(** No token is issued for a session that is over. *)
Lemma compat_finished_step d d' sid :
  integrity d → compat_finished d sid → compat_tokens_step (R := R) d d' →
  (∀ k a, compat_access_tokens d' !! k = Some a →
     CompatAccessTokenLookup.compat_session_id a = sid → is_Some (compat_access_tokens d !! k)) ∧
  (∀ k r, compat_refresh_tokens d' !! k = Some r →
     CompatRefreshTokenLookup.compat_session_id r = sid → is_Some (compat_refresh_tokens d !! k)).
Proof.
  intros Hint (s0 & t0 & Hs0 & Hf0)
    [[Ha Hr]|sid' aid a Hn Hsid _ Hacc Href|ttl w w' input rid rt s resp aid nrid <- <- Hal He].
  - rewrite Ha, Hr. eauto.
  - assert (sid' ≠ sid) by congruence. split.
    + intros k b Hk Hb. rewrite Hacc in Hk. apply lookup_insert_Some in Hk as [[_ <-]|[_ ?]];
        [congruence|eauto].
    + intros k r Hk Hb. destruct Href as [Href|(rid & txt & t & _ & Href)]; rewrite Href in Hk;
        [eauto|]. apply lookup_insert_Some in Hk as [[_ <-]|[_ ?]]; [simpl in Hb; congruence|eauto].
  - assert (CompatRefreshTokenLookup.compat_session_id rt ≠ sid) as Hne.
    { intros <-. destruct Hal as [_ _ _ Hs Hv]. congruence. } split.
    + intros k b Hk Hb. destruct (decide (k = aid)) as [->|Hka].
      { destruct (cre_new_access _ _ _ _ _ _ _ He) as (t & _ & Ht). rewrite Hk in Ht.
        by injection Ht as ->. }
      destruct (decide (k = CompatRefreshTokenLookup.compat_access_token_id rt)) as [->|Hko].
      { apply (compat_refresh_access_fkey _ Hint rid rt); [apply Hal|done]. }
      rewrite (cre_other_access _ _ _ _ _ _ _ He k Hka Hko) in Hk. eauto.
    + intros k r Hk Hb.
      destruct (compat_refresh_rows _ _ _ _ _ _ _ _ _ He Hk) as [(_ & ? & _)|(_ & r0 & ? & _)];
        [congruence|eauto].
Qed.

Lemma steps_compat_finished w w' sid :
  rtc step w w' → integrity (w_committed w) → compat_finished (w_committed w) sid →
  (∀ k a, compat_access_tokens (w_committed w') !! k = Some a →
     CompatAccessTokenLookup.compat_session_id a = sid →
     is_Some (compat_access_tokens (w_committed w) !! k)) ∧
  (∀ k r, compat_refresh_tokens (w_committed w') !! k = Some r →
     CompatRefreshTokenLookup.compat_session_id r = sid →
     is_Some (compat_refresh_tokens (w_committed w) !! k)).
Proof.
  induction 1 as [|w1 w2 w3 H Hr IH]; intros Hint Hfin; [eauto|].
  pose proof (step_evolves _ _ H) as Hev. pose proof (steps_evolve _ _ Hr) as Hev'.
  destruct IH as [IHa IHr]; [by eapply step_integrity | by eapply compat_finished_evolves|].
  destruct (compat_finished_step _ _ sid Hint Hfin (step_compat_tokens _ _ H Hint)) as [Ha Hre].
  split.
  - intros k a Hk Hs. destruct (IHa k a Hk Hs) as [a1 Ha1].
    destruct (ev_compat_access _ _ Hev' k a1 Ha1) as (a' & Ha' & [Hfix _]).
    apply (Ha k a1 Ha1). injection Hfix as ? ? ? ?. congruence.
  - intros k r Hk Hs. destruct (IHr k r Hk Hs) as [r1 Hr1].
    destruct (ev_compat_refresh _ _ Hev' k r1 Hr1) as (r' & Hr' & [Hfix _]).
    apply (Hre k r1 Hr1). injection Hfix as ? ? ? ? ?. congruence.
Qed.

(** The text of a token of a session that is over is not active. *)
Lemma finished_access_inactive d t sid k a :
  integrity d → compat_finished d sid → compat_access_tokens d !! k = Some a →
  CompatAccessTokenLookup.compat_session_id a = sid →
  ¬ token_active d t (CompatAccessTokenLookup.access_token a) CompatAccessTokenType.
Proof.
  intros Hint (s & t0 & Hs & Hf) Hk <- Ha.
  apply (compat_access_active_iff d t _ k a) in Ha as (_ & s' & Hs' & Hv & _); [|done..].
  unfold CompatSession.is_valid in Hv. simpl in Hv. simplify_eq. by rewrite Hf in Hv.
Qed.

Lemma finished_refresh_inactive d t sid k a :
  integrity d → compat_finished d sid → compat_refresh_tokens d !! k = Some a →
  CompatRefreshTokenLookup.compat_session_id a = sid →
  ¬ token_active d t (CompatRefreshTokenLookup.refresh_token a) CompatRefreshTokenType.
Proof.
  intros Hint (s & t0 & Hs & Hf) Hk <- Ha.
  apply (compat_refresh_active_iff d t _ k a) in Ha as (_ & s' & Hs' & Hv & _); [|done..].
  unfold CompatSession.is_valid in Hv. simpl in Hv. simplify_eq. by rewrite Hf in Hv.
Qed.

Lemma finished_refresh_refused ip cfg w sid k r :
  integrity (w_committed w) → compat_finished (w_committed w) sid →
  compat_refresh_tokens (w_committed w) !! k = Some r →
  CompatRefreshTokenLookup.compat_session_id r = sid →
  is_ok (CompatRefresh.refresh_request ip cfg (CompatRefreshTokenLookup.refresh_token r) w).1 = false.
Proof.
  intros Hint (s & t0 & Hs & Hf) Hk Hsid.
  destruct (CompatRefresh.refresh_request _ _ _ w) as [[resp|e] w'] eqn:H; [|done]. exfalso.
  apply compat_refresh_Ok in H as (_ & rid & rt & s' & aid & nrid & Hal & _); [|done].
  destruct Hal as [Hrt Htxt _ Hs' Hv].
  destruct (same_text _ _ _ _ _ _ (compat_refresh_unique _ Hint) Hrt Hk Htxt) as [-> ->].
  congruence.
Qed.

(** C20: the end of a compatibility session is the end of its tokens: whatever
    requests follow, it stays finished and gets no token any more, its refresh
    tokens are refused, and the introspection endpoint says of none of its
    tokens that it is active. *)
Theorem compat_session_over ip cfg h auth w w' sid :
  integrity (w_committed w) → compat_finished (w_committed w) sid → rtc step w w' →
  compat_finished (w_committed w') sid ∧
  (∀ k a, compat_access_tokens (w_committed w') !! k = Some a →
     CompatAccessTokenLookup.compat_session_id a = sid →
     is_Some (compat_access_tokens (w_committed w) !! k) ∧
     (presents auth (CompatAccessTokenLookup.access_token a) CompatAccessTokenType →
      says (Introspection.introspection_request h auth w').1 ≠ Some true)) ∧
  (∀ k r, compat_refresh_tokens (w_committed w') !! k = Some r →
     CompatRefreshTokenLookup.compat_session_id r = sid →
     is_Some (compat_refresh_tokens (w_committed w) !! k) ∧
     is_ok (CompatRefresh.refresh_request ip cfg (CompatRefreshTokenLookup.refresh_token r) w').1
       = false ∧
     (presents auth (CompatRefreshTokenLookup.refresh_token r) CompatRefreshTokenType →
      says (Introspection.introspection_request h auth w').1 ≠ Some true)).
Proof.
  intros Hint Hfin Hs. pose proof (steps_integrity _ _ Hs Hint) as Hint'.
  pose proof (compat_finished_evolves _ _ _ (steps_evolve _ _ Hs) Hfin) as Hfin'.
  destruct (steps_compat_finished _ _ _ Hs Hint Hfin) as [Ha Hr].
  assert (∀ txt ty, presents auth txt ty →
    ¬ token_active (w_committed w') (w_clock w' (w_ticks w')) txt ty →
    says (Introspection.introspection_request h auth w').1 ≠ Some true) as Hsay.
  { intros txt ty Hp Hna Hsay.
    destruct (Introspection.introspection_request h auth w') as [r w2] eqn:H. simpl in Hsay.
    apply introspection_says in H as [?|(_ & [[? ?]|(txt' & ty' & Hp' & Ht & _)])]; [congruence..| |done].
    apply Ht in Hsay as [Ht' _]. destruct Hp as (f & Hf & <- & Hc & _), Hp' as (f' & Hf' & <- & Hc' & _).
    simplify_eq. congruence. }
  split_and!; [done|..].
  - intros k a Hk Hsid. split; [by eapply Ha|]. intros Hp. eapply Hsay; [exact Hp|].
    by eapply finished_access_inactive.
  - intros k r Hk Hsid. split_and!; [by eapply Hr|by eapply finished_refresh_refused|].
    intros Hp. eapply Hsay; [exact Hp|]. by eapply finished_refresh_inactive.
Qed.

(** ** Logout *)

(** The access token of a request of a client of the compatibility API: not
    expired at a reading [t], of a session that is not finished. *)
Record compat_authorized (d : Db) (auth : option string) (t : DateTime)
    (a : CompatAccessTokenLookup.t) (s : CompatSessionLookup.t) : Prop := {
  ca_token : ∃ k tok, auth = Some tok ∧ check tok = Ok CompatAccessTokenType ∧
    compat_access_tokens d !! k = Some a ∧ CompatAccessTokenLookup.access_token a = tok;
  ca_valid : ∀ e, CompatAccessTokenLookup.expires_at a = Some e → t < e;
  ca_session : compat_sessions d !! CompatAccessTokenLookup.compat_session_id a = Some s;
  ca_active : CompatSessionLookup.finished_at s = None;
}.

Lemma compat_access_valid a t :
  CompatAccessToken.is_valid (CompatAccessTokenRepository.of_row a) t = true →
  ∀ e, CompatAccessTokenLookup.expires_at a = Some e → t < e.
Proof. unfold CompatAccessToken.is_valid. simpl. intros H e He. rewrite He in H. by apply Z.ltb_lt. Qed.

Lemma compat_session_valid s :
  CompatSession.is_valid (CompatSessionRepository.of_row s) = true →
  CompatSessionLookup.finished_at s = None.
Proof. unfold CompatSession.is_valid. simpl. by destruct (CompatSessionLookup.finished_at s). Qed.

Lemma logout_Ok ip auth w u w' :
  integrity (w_committed w) → CompatLogout.logout_request ip auth w = (Ok u, w') →
  ∃ t a s f id tj, reading w w' t ∧ reading w w' f ∧ compat_authorized (w_committed w) auth t a s ∧
    queue_jobs (w_committed w) !! id = None ∧
    w_committed w' = set_rows (<[id := QueueJobRepository.sync_devices_row id
        (CompatSessionLookup.user_id s) tj]> (queue_jobs (w_committed w)))
      (set_rows (<[CompatAccessTokenLookup.compat_session_id a :=
        CompatSessionRepository.with_finished_at f s]> (compat_sessions (w_committed w)))
        (w_committed w)).
Proof.
  intros Hint H. unfold CompatLogout.logout_request, CompatLogout.post in H.
  apply bind_Ok_inv in H as (u0 & w0 & Hpool & H).
  apply bind_Ok_inv in H as (tok & ? & [-> ->]%compat_require_inv & H).
  apply bind_Ok_inv in H as (ty & ? & [Hty%map_err_Ok ->]%lift_inv & H).
  apply bind_Ok_inv in H as (u1 & ? & [->%bool_decide_eq_true ->]%compat_guard_inv & H).
  apply bind_Ok_inv in H as (o & w1 & Hfind & H).
  apply bind_Ok_inv in H as (x & ? & [-> ->]%compat_require_inv & H).
  apply bind_Ok_inv in H as (t & w2 & Hnow & H).
  apply bind_Ok_inv in H as (u2 & ? & [Hval ->]%compat_guard_inv & H).
  apply bind_Ok_inv in H as (so & w3 & Hses & H).
  apply bind_Ok_inv in H as (se & ? & [Hse ->]%compat_require_inv & H).
  apply bind_Ok_inv in H as (u3 & w4 & Hrec & H).
  apply bind_Ok_inv in H as (uo & w5 & Huser & H).
  apply bind_Ok_inv in H as (us & ? & [-> ->]%compat_require_inv & H).
  apply bind_Ok_inv in H as (s' & w6 & Hfin & H).
  apply bind_Ok_inv in H as (u4 & w7 & Hjob & Hsave).
  time_passed.
  apply mmap_err_Ok_inv, from_pool_inv in Hpool as [T0 _].
  apply mmap_err_Ok_inv, compat_access_find_inv in Hfind as [(T1 & _) (k & a & Ha & Htxt & ->)].
  pose proof (now_reading _ _ _ Hnow) as Rt. apply now_inv in Hnow as [_ (T2 & _)].
  apply mmap_err_Ok_inv, compat_session_lookup_inv in Hses as [(T3 & _) ->].
  apply record_compat_inv in Hrec as (T4 & _).
  apply mmap_err_Ok_inv, user_lookup_inv in Huser as [(T5 & _) Huser].
  apply mmap_err_Ok_inv, compat_session_finish_inv in Hfin as (f & r & Rf & Hr & _ & T6 & _).
  apply mmap_err_Ok_inv, schedule_inv in Hjob as (id & tj & Hid & T7 & _).
  apply mmap_err_Ok_inv, save_inv in Hsave as [C8 _].
  rewrite T0 in *. rewrite T5, T4, T3, T2, T1 in *.
  destruct (compat_sessions (w_committed w) !! _) as [s|] eqn:Hs; [|done]. simpl in Hse.
  destruct (CompatSession.is_valid (CompatSessionRepository.of_row s)) eqn:Hv; [|done].
  injection Hse as <-. symmetry in Huser. apply fmap_Some in Huser as (ur & Hur & ->).
  pose proof (compat_sessions_pkey _ Hint _ _ Hs) as Hsid.
  pose proof (users_pkey _ Hint _ _ Hur) as Huid. simpl in *. rewrite Hsid, Huid, ?T6 in *.
  rewrite Hs in Hr. injection Hr as <-.
  exists t, a, s, f, id, tj. split_and!; [reading_solve|reading_solve| |done|].
  - split; [eauto 10|by apply compat_access_valid|done|by apply compat_session_valid].
  - by rewrite C8, T7.
Qed.

(** The active compatibility sessions of a user end. *)
Definition end_sessions_of (uid : Ulid) (t : DateTime) (r : CompatSessionLookup.t) :
    CompatSessionLookup.t :=
  if bool_decide (CompatSessionLookup.user_id r = uid)
     && bool_decide (CompatSessionLookup.finished_at r = None)
  then CompatSessionRepository.with_finished_at t r else r.

Lemma active_of_user d u t r :
  (if CompatSessionFilter.generate_condition (CompatSessionFilter.active_only
        (CompatSessionFilter.for_user u CompatSessionFilter.new)) None d r
   then CompatSessionRepository.with_finished_at t r else r) = end_sessions_of (User.id u) t r.
Proof.
  unfold end_sessions_of, CompatSessionFilter.generate_condition. simpl.
  rewrite !andb_true_r. destruct (bool_decide (_ = User.id u)); [|done].
  by destruct (CompatSessionLookup.finished_at r).
Qed.

Lemma end_active_inv u w n w' :
  CompatSessionRepository.finish_bulk (CompatSessionFilter.active_only
    (CompatSessionFilter.for_user u CompatSessionFilter.new)) w = (Ok n, w') →
  ∃ t, w_txn w' = set_rows (end_sessions_of (User.id u) t <$> compat_sessions (w_txn w)) (w_txn w).
Proof.
  intros (t & -> & _)%compat_session_finish_bulk_inv. exists t.
  assert (∀ m m' : gmap Z CompatSessionLookup.t, m = m' →
    set_rows m (w_txn w) = set_rows m' (w_txn w)) as Heq by (by intros ?? ->).
  apply Heq, map_fmap_ext. intros i r _. apply active_of_user.
Qed.

Lemma logout_all_Ok ip auth input w u w' :
  integrity (w_committed w) → CompatLogoutAll.logout_all_request ip auth input w = (Ok u, w') →
  input = Some true ∧
  ∃ t a s f id tj, reading w w' t ∧ compat_authorized (w_committed w) auth t a s ∧
    user_active (w_committed w) (CompatSessionLookup.user_id s) ∧
    queue_jobs (w_committed w) !! id = None ∧
    w_committed w' = set_rows (<[id := QueueJobRepository.sync_devices_row id
        (CompatSessionLookup.user_id s) tj]> (queue_jobs (w_committed w)))
      (set_rows (end_sessions_of (CompatSessionLookup.user_id s) f <$>
        compat_sessions (w_committed w)) (w_committed w)).
Proof.
  intros Hint H. unfold CompatLogoutAll.logout_all_request, CompatLogoutAll.post in H.
  apply bind_Ok_inv in H as (u0 & w0 & Hpool & H).
  apply bind_Ok_inv in H as (tok & ? & [-> ->]%compat_require_inv & H).
  apply bind_Ok_inv in H as (ty & ? & [Hty%map_err_Ok ->]%lift_inv & H).
  apply bind_Ok_inv in H as (u1 & ? & [->%bool_decide_eq_true ->]%compat_guard_inv & H).
  apply bind_Ok_inv in H as (o & w1 & Hfind & H).
  apply bind_Ok_inv in H as (x & ? & [-> ->]%compat_require_inv & H).
  apply bind_Ok_inv in H as (t & w2 & Hnow & H).
  apply bind_Ok_inv in H as (u2 & ? & [Hval ->]%compat_guard_inv & H).
  apply bind_Ok_inv in H as (so & w3 & Hses & H).
  apply bind_Ok_inv in H as (se & ? & [-> ->]%compat_require_inv & H).
  apply bind_Ok_inv in H as (u3 & ? & [Hv ->]%compat_guard_inv & H).
  apply bind_Ok_inv in H as (u4 & w4 & Hrec & H).
  apply bind_Ok_inv in H as (uo & w5 & Huser & H).
  apply bind_Ok_inv in H as (us & ? & [-> ->]%compat_require_inv & H).
  apply bind_Ok_inv in H as (u5 & ? & [Huv ->]%compat_guard_inv & H).
  apply bind_Ok_inv in H as (u6 & ? & [Hin ->]%compat_guard_inv & H).
  apply bind_Ok_inv in H as (n & w6 & Hfin & H).
  apply bind_Ok_inv in H as (u7 & w7 & Hjob & Hsave).
  time_passed. split; [by destruct input as [[]|]|].
  apply mmap_err_Ok_inv, from_pool_inv in Hpool as [T0 _].
  apply mmap_err_Ok_inv, compat_access_find_inv in Hfind as [(T1 & _) (k & a & Ha & Htxt & ->)].
  pose proof (now_reading _ _ _ Hnow) as Rt. apply now_inv in Hnow as [_ (T2 & _)].
  apply mmap_err_Ok_inv, compat_session_lookup_inv in Hses as [(T3 & _) Hse].
  apply record_compat_inv in Hrec as (T4 & _).
  apply mmap_err_Ok_inv, user_lookup_inv in Huser as [(T5 & _) Huser].
  apply mmap_err_Ok_inv, end_active_inv in Hfin as (f & T6).
  apply mmap_err_Ok_inv, schedule_inv in Hjob as (id & tj & Hid & T7 & _).
  apply mmap_err_Ok_inv, save_inv in Hsave as [C8 _].
  rewrite T0 in *. rewrite T5, T4, T3, T2, T1 in *.
  symmetry in Hse. apply fmap_Some in Hse as (s & Hs & ->).
  symmetry in Huser. apply fmap_Some in Huser as (ur & Hur & ->).
  pose proof (users_pkey _ Hint _ _ Hur) as Huid. simpl in *.
  exists t, a, s, f, id, tj. split_and!; [reading_solve| | | |].
  - split; [eauto 10|by apply compat_access_valid|done|by apply compat_session_valid].
  - by eapply user_active_valid.
  - by rewrite T6 in Hid.
  - by rewrite C8, T7, T6, Huid.
Qed.

(** C23: a logout that is answered was asked with an access token that was not
    expired, of a session that was not finished; it ends that session, or, when
    asked for all of them, every active compatibility session of the user and
    no other, has the devices of the user synchronized, and changes nothing
    else. *)
Theorem compat_logout_ends_sessions ip auth input w u w' :
  integrity (w_committed w) →
  (CompatLogout.logout_request ip auth w = (Ok u, w') →
   ∃ t a s f id tj, reading w w' t ∧ reading w w' f ∧
     compat_authorized (w_committed w) auth t a s ∧ queue_jobs (w_committed w) !! id = None ∧
     w_committed w' = set_rows (<[id := QueueJobRepository.sync_devices_row id
         (CompatSessionLookup.user_id s) tj]> (queue_jobs (w_committed w)))
       (set_rows (<[CompatAccessTokenLookup.compat_session_id a :=
         CompatSessionRepository.with_finished_at f s]> (compat_sessions (w_committed w)))
         (w_committed w))) ∧
  (CompatLogoutAll.logout_all_request ip auth input w = (Ok u, w') →
   input = Some true ∧
   ∃ t a s f id tj, reading w w' t ∧ compat_authorized (w_committed w) auth t a s ∧
     user_active (w_committed w) (CompatSessionLookup.user_id s) ∧
     queue_jobs (w_committed w) !! id = None ∧
     w_committed w' = set_rows (<[id := QueueJobRepository.sync_devices_row id
         (CompatSessionLookup.user_id s) tj]> (queue_jobs (w_committed w)))
       (set_rows (end_sessions_of (CompatSessionLookup.user_id s) f <$>
         compat_sessions (w_committed w)) (w_committed w))).
Proof. intros Hint. split; [by apply logout_Ok | by apply logout_all_Ok]. Qed.
End Theorems.

(** ** Witnesses *)
Section Witnesses.
Import Scenario AccountScenario.

(** Alice has a password and an SSO login she fulfilled a second ago. *)
Definition alice_password : UserPasswordLookup.t := UserPasswordLookup.mk 5 2 "ahunter2" 2 None 0.
Definition sso_row : CompatSsoLoginLookup.t :=
  CompatSsoLoginLookup.mk 6 "token" "https://app.example.com/" 0 (Some 1000000) None None (Some 3).
Definition compat_db : Db :=
  mkDb ∅ {[2 := user]} {[3 := browser]} ∅ ∅ ∅ ∅ ∅ ∅ ∅ ∅ ∅ None ∅ ∅ ∅ {[6 := sso_row]} ∅ ∅
    {[5 := alice_password]} ∅ ∅ no_accounts.
Definition compat_world : World Z := world compat_db 0 0.

Lemma integrity_compat_db : integrity compat_db.
Proof.
  split; intros k *; simpl; intros;
    repeat match goal with
      | H : {[_ := _]} !! _ = Some _ |- _ => apply lookup_singleton_Some in H as [<- <-]
      | H : ∅ !! _ = Some _ |- _ => by rewrite lookup_empty in H
      end; try done; simplify_eq/=; vm_compute; eauto.
Qed.

Definition password_login : Login.RequestBody :=
  Login.mkRequestBody (Login.CredentialsPassword (Some (Login.IdentifierUser "alice")) None
    "hunter2") true (Some "DEVICE") None.
Definition token_login_body : Login.RequestBody :=
  Login.mkRequestBody (Login.CredentialsToken "token") true (Some "OTHER") None.

Definition no_response : Login.ResponseBody := Login.mkResponseBody "" None "" None None.
Definition login_run := Login.post manager None config None password_login compat_world.
Definition login_response : Login.ResponseBody :=
  match login_run.1 with Ok r => r | Err _ => no_response end.

Example login_run_ok : is_ok login_run.1 = true.
Proof. vm_compute. reflexivity. Qed.

Lemma compat_login_opens_session_witness :
  ∃ uid u device sid aid,
    login_effect manager config password_login login_response compat_world login_run.2 uid u
      device sid aid.
Proof.
  apply (compat_login_opens_session manager None config None password_login compat_world
           login_response login_run.2).
  - apply integrity_compat_db.
  - unfold login_run. apply fst_run. vm_compute. reflexivity.
Defined.

(** The refresh token of the login is used. *)
Definition login_refresh : string := default "" (Login.r_refresh_token login_response).
Definition refresh_run := CompatRefresh.refresh_request None config login_refresh login_run.2.
Definition refresh_response : CompatRefresh.ResponseBody :=
  match refresh_run.1 with Ok r => r | Err _ => CompatRefresh.mkResponseBody "" "" 0 end.

Lemma compat_history : rtc (step (R := Z)) compat_world refresh_run.2.
Proof.
  eapply rtc_l; [apply step_compat, (compat_login manager None config None password_login)|].
  apply rtc_once, step_compat, (compat_refresh None config login_refresh).
Qed.

Lemma compat_refresh_rotation_witness :
  check login_refresh = Ok CompatRefreshTokenType ∧
  ∃ rid rt s aid nrid, compat_refresh_allowed (w_committed login_run.2) login_refresh rid rt s ∧
    compat_refresh_effect login_run.2 refresh_run.2 (compat_token_ttl config) refresh_response rt
      aid nrid.
Proof.
  apply (compat_refresh_rotation None config login_refresh login_run.2 refresh_response
           refresh_run.2).
  - apply (steps_integrity compat_world); [|apply integrity_compat_db].
    apply rtc_once, step_compat, (compat_login manager None config None password_login).
  - unfold refresh_run. apply fst_run. vm_compute. reflexivity.
Defined.

Lemma one_compat_refresh_token_witness : compat_tokens_ok (w_committed refresh_run.2).
Proof.
  apply (one_compat_refresh_token compat_world refresh_run.2);
    [apply integrity_compat_db | reflexivity | apply compat_history].
Defined.

Definition token_run := Login.post manager None config None token_login_body compat_world.
Definition token_response : Login.ResponseBody :=
  match token_run.1 with Ok r => r | Err _ => no_response end.

Lemma login_token_exchanged_once_witness :
  is_ok token_run.1 = true ∧
  is_ok (Login.post manager None config None token_login_body token_run.2).1 = false.
Proof.
  split; [vm_compute; reflexivity|].
  apply (login_token_exchanged_once manager None config None token_login_body "token" compat_world
           token_response token_run.2 token_run.2 manager None config None token_login_body).
  - apply integrity_compat_db.
  - reflexivity.
  - unfold token_run. apply fst_run. vm_compute. reflexivity.
  - apply rtc_refl.
  - reflexivity.
Defined.

(** Alice logs out of the session she opened. *)
Definition login_auth : option string := Some (Login.r_access_token login_response).
Definition logout_run := CompatLogout.logout_request None login_auth login_run.2.

Lemma login_integrity : integrity (w_committed login_run.2).
Proof.
  apply (steps_integrity compat_world); [|apply integrity_compat_db].
  apply rtc_once, step_compat, (compat_login manager None config None password_login).
Qed.

Lemma compat_logout_ends_sessions_witness :
  ∃ t a s f id tj, reading login_run.2 logout_run.2 t ∧ reading login_run.2 logout_run.2 f ∧
     compat_authorized (w_committed login_run.2) login_auth t a s ∧
     queue_jobs (w_committed login_run.2) !! id = None ∧
     w_committed logout_run.2 = set_rows (<[id := QueueJobRepository.sync_devices_row id
         (CompatSessionLookup.user_id s) tj]> (queue_jobs (w_committed login_run.2)))
       (set_rows (<[CompatAccessTokenLookup.compat_session_id a :=
         CompatSessionRepository.with_finished_at f s]> (compat_sessions (w_committed login_run.2)))
         (w_committed login_run.2)).
Proof.
  refine (proj1 (compat_logout_ends_sessions None login_auth None login_run.2 tt logout_run.2 _) _).
  - apply login_integrity.
  - unfold logout_run. apply fst_run. vm_compute. reflexivity.
Defined.

(** The session that is over, and its refresh token presented. *)
Definition over_session : Ulid :=
  match map_to_list (compat_sessions (w_committed logout_run.2)) with
  | (k, _) :: _ => k
  | [] => 0
  end.

Lemma compat_finished_of d sid :
  is_Some (compat_sessions d !! sid ≫= CompatSessionLookup.finished_at) → compat_finished d sid.
Proof.
  intros [t Ht]. apply bind_Some in Ht as (s & Hs & Hf). by exists s, t.
Qed.

Lemma logout_finished : compat_finished (w_committed logout_run.2) over_session.
Proof. apply compat_finished_of. vm_compute. eauto. Qed.

Lemma compat_session_over_witness :
  compat_finished (w_committed logout_run.2) over_session ∧
  (∀ k r, compat_refresh_tokens (w_committed logout_run.2) !! k = Some r →
     CompatRefreshTokenLookup.compat_session_id r = over_session →
     is_ok (CompatRefresh.refresh_request None config (CompatRefreshTokenLookup.refresh_token r)
              logout_run.2).1 = false).
Proof.
  destruct (compat_session_over None config None introspection_auth logout_run.2 logout_run.2
    over_session) as (Hf & _ & Hr).
  - unfold logout_run. apply (steps_integrity login_run.2); [|apply login_integrity].
    apply rtc_once, step_compat, (compat_logout None login_auth).
  - apply logout_finished.
  - apply rtc_refl.
  - split; [exact Hf|]. intros k r Hk Hs. apply (Hr k r Hk Hs).
Defined.
End Witnesses.

(** ** The SSO logins stay readable

    The rows of [compat_sso_logins] always decode: whatever requests are made,
    the columns of a login are those of one of its three states, and its
    redirection is a URL. *)

#[local] Open Scope Z_scope.

Section Decoding.
Context {url_lib : UrlLib}.

(** A row that decodes. *)
Definition sso_readable (r : CompatSsoLoginLookup.t) : Prop :=
  is_ok (CompatSsoLoginRepository.try_from r) = true.

Definition sso_ok (d : Db) : Prop :=
  ∀ k r, compat_sso_logins d !! k = Some r → sso_readable r.

Lemma sso_readable_iff r :
  sso_readable r ↔
  is_Some (url_parse (CompatSsoLoginLookup.redirect_uri r)) ∧
  match CompatSsoLoginLookup.fulfilled_at r, CompatSsoLoginLookup.exchanged_at r,
        CompatSsoLoginLookup.user_session_id r, CompatSsoLoginLookup.compat_session_id r with
  | None, None, None, None | Some _, None, Some _, None | Some _, Some _, _, Some _ => True
  | _, _, _, _ => False
  end.
Proof.
  unfold sso_readable, CompatSsoLoginRepository.try_from, is_Some.
  destruct (url_parse _); simpl; [|split; [done|by intros [[] _]]].
  destruct (CompatSsoLoginLookup.fulfilled_at r), (CompatSsoLoginLookup.exchanged_at r),
    (CompatSsoLoginLookup.user_session_id r), (CompatSsoLoginLookup.compat_session_id r); naive_solver.
Qed.

Lemma sso_readable_fulfilled t b r :
  sso_readable r → sso_readable (CompatSsoLoginRepository.with_fulfilled t b r).
Proof.
  rewrite !sso_readable_iff. intros [? H]. split; [done|]. simpl. revert H.
  by destruct (CompatSsoLoginLookup.fulfilled_at r), (CompatSsoLoginLookup.exchanged_at r),
    (CompatSsoLoginLookup.user_session_id r), (CompatSsoLoginLookup.compat_session_id r).
Qed.

Lemma sso_readable_exchanged t s r :
  is_Some (CompatSsoLoginLookup.fulfilled_at r) → sso_readable r →
  sso_readable (CompatSsoLoginRepository.with_exchanged t s r).
Proof. rewrite !sso_readable_iff. simpl. intros [f ->]. intros [? _]. done. Qed.

Definition keeps_sso (d d' : Db) : Prop := sso_ok d → sso_ok d'.

#[export] Instance keeps_sso_preorder : PreOrder keeps_sso.
Proof. split; [by intros ? ?|]. unfold keeps_sso. auto. Qed.

#[export] Instance keeps_sso_on_core : OnCore keeps_sso.
Proof.
  intros d d' H. apply (f_equal compat_sso_logins) in H.
  change (compat_sso_logins d' = compat_sso_logins d) in H.
  unfold keeps_sso, sso_ok. by rewrite H.
Qed.

Lemma sso_ok_insert d k r m :
  sso_readable r → m = <[k := r]> (compat_sso_logins d) →
  ∀ d', compat_sso_logins d' = m → keeps_sso d d'.
Proof.
  intros Hr -> d' Hd Hok k' r'. rewrite Hd.
  intros [[_ <-]|[_ ?]]%lookup_insert_Some; [done|by eapply Hok].
Qed.

Lemma sso_ok_update d k r0 t b d' :
  compat_sso_logins d !! k = Some r0 →
  compat_sso_logins d' =
    <[k := CompatSsoLoginRepository.with_fulfilled t b r0]> (compat_sso_logins d) →
  keeps_sso d d'.
Proof.
  intros H0 Hd Hok. eapply sso_ok_insert; [|reflexivity|exact Hd|exact Hok].
  by eapply sso_readable_fulfilled, Hok.
Qed.
End Decoding.

Ltac sso_solve :=
  first [ by intros ? | intros ?; assumption
        | match goal with H : _ !! _ = Some _ |- _ => by eapply sso_ok_update; [exact H|] end ].

#[export] Hint Extern 1 (keeps (keeps_db keeps_sso) (execute (insert_stmt _ _ _))) =>
  apply (keeps_db_execute _); intros ??? (? & ? & ? & ->)%insert_stmt_inv; sso_solve : keeps.
#[export] Hint Extern 1 (keeps (keeps_db keeps_sso) (execute (update_stmt _ _ _))) =>
  apply (keeps_db_execute _); intros ??? [->|(? & ? & ? & ->)]%update_stmt_any; sso_solve : keeps.
#[export] Hint Extern 1 (keeps (keeps_db keeps_sso) (execute (update_row_where_stmt _ _ _))) =>
  apply (keeps_db_execute _); intros ??? [->|(? & ? & ? & ->)]%update_row_where_any; sso_solve
  : keeps.
#[export] Hint Extern 1
    (keeps (keeps_db keeps_sso) (execute (UserRepository.insert_user_stmt _))) =>
  apply (keeps_db_execute _); intros ??? [->|(? & ? & ->)]%insert_user_any; sso_solve : keeps.
#[export] Hint Extern 2 (keeps (keeps_db keeps_sso) (execute _)) =>
  apply (keeps_db_execute _); unfold update_where_stmt; intros ??? [= <- <-]; sso_solve : keeps.

Section Requests.
Context {R C : Type} `{!RngCore R} {crc : Crc} {base64 : Base64} {sha2 : Sha2}
  {ulid_text : UlidText} {url_lib : UrlLib} {url_laws : UrlLaws} {jwks_json : JwksJson}
  {client_crypto : ClientCrypto} {policy : Policy} {templates : Templates}
  {keystore : Keystore R} {url_builder : DeviceAuthorize.UrlBuilder} {url_split : UrlSplit}
  {hs : Homeserver} {pg_text : PgText} {password_crates : PasswordCrates R C}
  {names : MatrixNames} {limits : Limits} {login_policy : LoginPolicy}
  {rng_bytes : RngBytes R} {url_edit : UrlEdit} {url_encoded : UrlEncoded}
  {collation : PgCollation} {unicode : UnicodeCase} {chrono : ChronoText} {texts : ErrorTexts}
  {aead : Aead} {base64_std : Base64Std} {psl : PublicSuffixes} {hex : Hex}
  {json : MetadataJson} {registration_policy : RegistrationPolicy}
  `{!RngUniform R} {localparts : FreeLocalparts} {addresses : AddressParser}
  {locales : LocaleParser} {register_policy : RegisterPolicy} {email_policy : EmailPolicy}
  {captcha_api : CaptchaApi} {account_limits : AccountLimits} {lower : UnicodeLower}
  {mailer : Mailer} {pg_json : PgJson} {pg_pattern : PgPattern}.
Implicit Types w : World R.

#[local] Hint Unfold check_stage authorization_code_grant TokenEndpoint.post token_request : mas_ops.

Lemma transaction_sso m : transaction (R := R) m → keeps (keeps_db keeps_sso) m.
Proof. induction 1; keeps_tac. Qed.

Lemma token_sso ip cfg ua auth : txn_keeps keeps_sso (token_request (R := R) ip cfg ua auth).
Proof. apply txn_keeps_pool; [apply _ | keeps_tac]. Qed.
Lemma revoke_sso ip auth : txn_keeps keeps_sso (Revoke.revoke_request (R := R) ip auth).
Proof. apply txn_keeps_pool; [apply _ | keeps_tac]. Qed.
Lemma device_sso ip cfg ua auth :
  txn_keeps keeps_sso (DeviceAuthorize.device_authorization_request (R := R) ip cfg ua auth).
Proof. apply txn_keeps_pool; [apply _ | keeps_tac]. Qed.
Lemma create_sso requester input :
  txn_keeps keeps_sso (Graphql.create_oauth2_session (R := R) requester input).
Proof. txn_tac. keeps_tac. Qed.
Lemma end_sso requester id :
  txn_keeps keeps_sso (Graphql.end_oauth2_session (R := R) requester id).
Proof. txn_tac. keeps_tac. Qed.
Lemma name_sso requester id n :
  txn_keeps keeps_sso (Graphql.set_oauth2_session_name (R := R) requester id n).
Proof. txn_tac. keeps_tac. Qed.
Lemma undo_sso s : txn_keeps keeps_sso (Login.undo_session (R := R) s).
Proof. apply txn_keeps_pool; [apply _ | keeps_tac]. Qed.

(** A login leaves the logins alone, or exchanges one that was fulfilled. *)
Lemma login_sso pm ip cfg ua input w :
  integrity (w_committed w) →
  keeps_sso (w_committed w) (w_committed (Login.post pm ip cfg ua input w).2).
Proof.
  intros Hint. unfold Login.post.
  destruct (Login.open_session pm ip cfg ua input w) as [[[[[s user] a] r]|e] w1] eqn:Ho.
  - rewrite (bind_run_Ok _ _ _ _ _ Ho).
    apply open_session_Ok in Ho as (uid & u & device & sid & aid & He); [|done].
    transitivity (w_committed w1);
      [|apply (provision_txn_keeps keeps_sso ip s user (response_of cfg input s user a r) undo_sso)].
    pose proof (lg_credentials _ _ _ _ _ _ _ _ _ _ _ He) as Hc.
    destruct (Login.credentials input) as [idf us pw|token|]; [| |done].
    + destruct Hc as (_ & Hs & _). unfold keeps_sso, sso_ok. by rewrite Hs.
    + destruct Hc as (lid & l & t1 & t2 & _ & _ & (Hl & _ & _ & f & _ & _ & Hf & _) & Hs).
      intros Hok. eapply sso_ok_insert; [|reflexivity|exact Hs|exact Hok].
      eapply sso_readable_exchanged; [eauto|by eapply Hok].
  - unfold bind. rewrite Ho. simpl. apply open_session_err in Ho as [-> _]. done.
Qed.

Lemma sso_add_inv token uri w l w' :
  CompatSsoLoginRepository.add token uri w = (Ok l, w') →
  ∃ id t, compat_sso_logins (w_txn w) !! id = None ∧
    w_txn w' = set_rows (<[id := CompatSsoLoginLookup.mk id token uri t None None None None]>
                           (compat_sso_logins (w_txn w))) (w_txn w).
Proof. intros H. op_inv H. world_simpl. insert_inv Hc. eauto. Qed.

Lemma redirect_err params :
  err_keeps same_committed (SsoRedirect.sso_redirect_request (R := R) params).
Proof. unfold SsoRedirect.sso_redirect_request, SsoRedirect.get. err_tac. Qed.

(** A login is added with a redirection that was parsed. *)
Lemma redirect_sso params w :
  keeps_sso (w_committed w) (w_committed (SsoRedirect.sso_redirect_request params w).2).
Proof.
  destruct (SsoRedirect.sso_redirect_request params w) as [[x|e] w'] eqn:H.
  - unfold SsoRedirect.sso_redirect_request, SsoRedirect.get in H.
    apply bind_Ok_inv in H as (u0 & w0 & [T0 _]%mmap_err_Ok_inv%from_pool_inv & H).
    apply bind_Ok_inv in H as (txt & ? & [_ ->]%compat_require_inv & H).
    apply bind_Ok_inv in H as (url & ? & [Hurl ->]%compat_require_inv & H).
    apply bind_Ok_inv in H as (u1 & ? & [_ ->]%compat_guard_inv & H).
    apply bind_Ok_inv in H as (u2 & ? & [_ ->]%compat_guard_inv & H).
    apply bind_Ok_inv in H as (tok & w1 & (T1 & _)%with_rng_same & H).
    apply bind_Ok_inv in H as (l & w2 & Hadd%mmap_err_Ok_inv & H).
    apply bind_Ok_inv in H as (u3 & w3 & [C3 _]%mmap_err_Ok_inv%save_inv & [= <- <-]).
    apply sso_add_inv in Hadd as (id & t & Hid & T2). simpl. rewrite C3, T2, T1, T0.
    eapply (sso_ok_insert _ id (CompatSsoLoginLookup.mk id tok url t None None None None));
      [|reflexivity..].
    apply sso_readable_iff. simpl. split; [|done]. rewrite (url_parse_idem _ _ Hurl). eauto.
  - apply redirect_err in H as [Hc _]. simpl. rewrite Hc. done.
Qed.

Lemma compat_step_sso w w' :
  compat_step w w' → integrity (w_committed w) → keeps_sso (w_committed w) (w_committed w').
Proof.
  destruct 1; intros Hint; [| | |by apply login_sso|by apply redirect_sso|..];
    txn_goal; (apply txn_keeps_pool; [apply _ | keeps_tac]).
Qed.

Lemma page_step_sso w w' : page_step w w' → keeps_sso (w_committed w) (w_committed w').
Proof. page_step_tac. Qed.
Lemma job_step_sso w w' : job_step w w' → keeps_sso (w_committed w) (w_committed w').
Proof. job_step_tac. Qed.
Lemma upkeep_sso m : upkeep (R := R) m → keeps (keeps_db keeps_sso) m.
Proof. induction 1; keeps_tac. Qed.
Lemma account_step_sso w w' : account_step w w' → keeps_sso (w_committed w) (w_committed w').
Proof. account_step_tac. Qed.

Lemma step_sso w w' :
  step w w' → integrity (w_committed w) → keeps_sso (w_committed w) (w_committed w').
Proof.
  destruct 1 as [| | | | | |w w' Hs|w w' Hs|w w' Hs|w w' Hs|m w Hm|m w Hm|w w' Hc]; intros Hint.
  - apply token_sso.
  - apply revoke_sso.
  - apply device_sso.
  - apply create_sso.
  - apply end_sso.
  - apply name_sso.
  - by apply compat_step_sso.
  - by apply page_step_sso.
  - by apply job_step_sso.
  - by apply account_step_sso.
  - apply (run_transaction_keeps _ m (transaction_sso m Hm)).
  - apply (run_transaction_keeps _ m (upkeep_sso m Hm)).
  - by rewrite Hc.
Qed.

(** C26: the rows of the SSO logins are well formed in every state: whatever
    requests a deployment answers, if the logins could be read at the start
    they can be read at the end, none of them in a mixture of states. *)
Theorem sso_logins_readable w w' :
  integrity (w_committed w) → sso_ok (w_committed w) → rtc step w w' →
  ∀ k r, compat_sso_logins (w_committed w') !! k = Some r →
    ∃ l, CompatSsoLoginRepository.try_from r = Ok l.
Proof.
  intros Hint Hok Hs. assert (sso_ok (w_committed w')) as Hok'.
  { revert Hint Hok. induction Hs as [|w1 w2 w3 H _ IH]; intros Hint Hok; [done|].
    apply IH; [by eapply step_integrity|]. by eapply step_sso. }
  intros k r Hr. specialize (Hok' k r Hr). unfold sso_readable in Hok'.
  destruct (CompatSsoLoginRepository.try_from r); eauto. done.
Qed.
End Requests.

(** *** Witness *)
Section Witnesses.
Import Scenario AccountScenario.

Lemma sso_ok_compat_db : sso_ok compat_db.
Proof. intros k r. simpl. intros [_ <-]%lookup_singleton_Some. reflexivity. Qed.

Lemma sso_logins_readable_witness :
  is_ok token_run.1 = true ∧
  (∀ k r, compat_sso_logins (w_committed token_run.2) !! k = Some r →
    ∃ l, CompatSsoLoginRepository.try_from r = Ok l).
Proof.
  split; [vm_compute; reflexivity|].
  apply (sso_logins_readable compat_world token_run.2).
  - apply integrity_compat_db.
  - apply sso_ok_compat_db.
  - unfold token_run. apply rtc_once, step_compat, (compat_login manager).
Defined.
End Witnesses.
