(* ===== verification/RecoveryFacts.v ===== *)
(** * Correctness of the recovery of accounts

    What the mutation that sets a password by recovery requires and writes, and
    that a recovery is good for one password whatever requests, jobs and clean-ups
    follow (the histories of [Lifecycle]). *)

From stdpp Require Import base tactics list strings gmap relations.
From Stdlib Require Import ZArith Lia.
From S2P Require Import Prelude Text Scope Externals Pagination Formats TokenFormat DataModel CompatModel UpstreamModel AccountModel Storage QueueRepo Triples TokenRepo GrantRepo UserRepo UpstreamRepo AccountRepo CompatRepo PersonalRepo Jobs AppSessionRepo Passwords ClientAuth TokenEndpoint Revocation DeviceAuthorize GraphqlSession WebSession Introspection CompatEndpoints Authorization DeviceConsent ClientMetadata Registration RegisterForms Register AccountPages AccountMutations Tasks RepoFacts CompatRepoFacts Integrity Evolution Scenario TaskFacts DeactivationFacts TokenFacts CodeExchange RefreshRotation OtherGrants DeviceFacts RevocationFacts GraphqlFacts CompatRefreshFacts CompatLoginFacts ConsentFacts RegistrationFacts AccountIntegrity AccountSteps Lifecycle.
#[local] Open Scope Z_scope.

(** ** Runs of the repository *)
Section Runs.
Context {R C : Type} `{!RngCore R} {ulid_text : UlidText} {password_crates : PasswordCrates R C}.
Implicit Types w : World R.

Lemma db_Ok {A} (m : M (World R) DatabaseError A) w a w' :
  db m w = (Ok a, w') → m w = (Ok a, w').
Proof. by intros ?%mmap_err_Ok_inv%mmap_err_Ok_inv. Qed.

Lemma needed_inv {A} (o : option A) message w a w' :
  needed o message w = (Ok a, w') → o = Some a ∧ w' = w.
Proof.
  intros H%mmap_err_Ok_inv. unfold Graphql.context, lift in H. destruct o; simpl in H; naive_solver.
Qed.

Lemma find_ticket_inv x w o w' :
  UserRecoveryRepository.find_ticket x w = (Ok o, w') →
  same_db w w' ∧ ∀ t, o = Some t → ∃ k row,
    user_recovery_tickets (accounts (w_txn w)) !! k = Some row ∧
    UserRecoveryTicketRow.ticket row = x ∧ t = UserRecoveryRepository.ticket_of_row row.
Proof.
  intros H. op_inv H. subst. split; [same_world|]. intros t Ht.
  destruct (find_row _ _) as [row|] eqn:Hf; [|done]. injection Ht as <-.
  apply find_row_Some in Hf as [Hp%bool_decide_eq_true (k & Hk)]. eauto.
Qed.

Lemma lookup_recovery_inv id w o w' :
  UserRecoveryRepository.lookup_session id w = (Ok o, w') →
  same_db w w' ∧
  o = UserRecoveryRepository.of_row <$> user_recovery_sessions (accounts (w_txn w)) !! id.
Proof. intros H. op_inv H. subst. split; [same_world | done]. Qed.

Lemma email_lookup_inv id w o w' :
  UserEmailRepository.lookup id w = (Ok o, w') →
  same_db w w' ∧ o = UserEmailRepository.of_row <$> user_emails (w_txn w) !! id.
Proof. intros H. op_inv H. subst. split; [same_world | done]. Qed.

(** A password that is added is the hash of what was typed in. *)
Definition password_replaced (pm : PasswordManager) (uid : Ulid) (new_password : string)
    (d d' : Db) : Prop :=
  ∃ inner c h pid t, pm = Some inner ∧ hash_blocking (current_hasher inner) c new_password = Some h ∧
    user_passwords d !! pid = None ∧
    d' = set_rows (<[pid := UserPasswordLookup.mk pid uid h (current_version inner) None t]>
                     (user_passwords d)) d.

Lemma replace_password_inv pm user p w x w' :
  UserMutations.replace_password pm user p w = (Ok x, w') →
  same_committed w w' ∧ password_replaced pm (User.id user) p (w_txn w) (w_txn w').
Proof.
  intros H. assert (same_committed w w') as Hc by (eapply keeps_run; [|exact H]; keeps_tac).
  split; [done|]. unfold UserMutations.replace_password in H.
  apply bind_Ok_inv in H as ([v h] & w1 & H1%mmap_err_Ok_inv & H).
  unfold Login.on_rng in H1. destruct (hash pm p (w_rng w)) as [r rng] eqn:Hh.
  injection H1 as -> <-. apply hash_Ok in Hh as (inner & c & -> & -> & Hh).
  apply bind_Ok_inv in H as (np & w2 & H2%db_Ok & [= _ <-]).
  op_inv H2. world_simpl. insert_inv Hi. exists inner, c, h. do 2 eexists. done.
Qed.

Lemma consume_ticket_inv x s w s' w' :
  UserRecoveryRepository.consume_ticket x s w = (Ok s', w') →
  same_committed w w' ∧ UserRecoverySession.consumed_at s = None ∧
  ∃ t row, user_recovery_sessions (accounts (w_txn w)) !! UserRecoverySession.id s = Some row ∧
    w_txn w' = set_rows (<[UserRecoverySession.id s :=
                            UserRecoveryRepository.with_consumed_at t row]>
                           (user_recovery_sessions (accounts (w_txn w)))) (w_txn w).
Proof.
  intros H. unfold UserRecoveryRepository.consume_ticket in H.
  case_bool_decide as Hs; [done|]. run_inv H. world_simpl. update_inv r Hc.
  split; [same_world|]. split; [by apply eq_None_not_Some|]. eauto.
Qed.
End Runs.

(** What follows the commit of a mutation. *)
Lemma commits_for_db_save {R A} (ok : A → Prop) (m : M (World R) MutationError A) :
  (∀ w, ∃ a, (m w).1 = Ok a ∧ ok a) → commits_for ok (do! db save; m).
Proof.
  intros H w. unfold db, graphql, Graphql.repository, bind, mmap_err.
  destruct (save_cases w) as [(w' & -> & _)|(w' & Hs & Hc)]; [right; apply H|left].
  pose proof (err_keeps_save _ _ _ Hs) as Hk. by rewrite Hs in *.
Qed.

Ltac mutation_commits :=
  repeat (intros; lazymatch goal with
    | |- commits_for _ (bind (db (@save _)) _) =>
        apply commits_for_db_save; intros; eexists; split; [reflexivity|simpl; eauto]
    | |- commits_for _ (bind _ _) => apply commits_for_bind; [keeps_tac | intros ?]
    | |- commits_for _ (match ?x with _ => _ end) => destruct x
    | |- commits_for _ _ => solve [apply commits_for_keeps; keeps_tac]
    end).

(** ** Recovery *)
Section Recovery.
Context {R C : Type} `{!RngCore R} {ulid_text : UlidText} {password_crates : PasswordCrates R C}.
Implicit Types w : World R.

Definition is_allowed (r : result MutationError UserMutations.SetPasswordStatus) : bool :=
  match r with Ok UserMutations.Allowed => true | _ => false end.

Lemma recovery_commits requester cfg pm ticket p :
  commits_for (eq UserMutations.Allowed)
    (UserMutations.set_password_by_recovery (R := R) requester cfg pm ticket p).
Proof. unfold UserMutations.set_password_by_recovery. mutation_commits. Qed.

(** The ticket was sent to an address of a user who may log in, for a recovery
    that is not used, and has not expired. *)
Record recovery_allowed (d : Db) (ticket : string) (t0 : DateTime) (uid sid : Ulid) : Prop := {
  recovery_ticket : ∃ k row eid erow,
    user_recovery_tickets (accounts d) !! k = Some row ∧
    UserRecoveryTicketRow.ticket row = ticket ∧ t0 < UserRecoveryTicketRow.expires_at row ∧
    UserRecoveryTicketRow.user_recovery_session_id row = sid ∧
    UserRecoveryTicketRow.user_email_id row = eid ∧
    user_emails d !! eid = Some erow ∧ UserEmailLookup.user_id erow = uid;
  recovery_session : ∃ row, user_recovery_sessions (accounts d) !! sid = Some row ∧
    UserRecoverySessionRow.consumed_at row = None;
  recovery_user : ∃ row, users d !! uid = Some row ∧ UserLookup.locked_at row = None ∧
    UserLookup.deactivated_at row = None;
}.

(** A new password of the user, and the recovery used. *)
Definition recovered (pm : PasswordManager) (uid sid : Ulid) (p : string) (d d' : Db) : Prop :=
  ∃ d1 t row, password_replaced (R := R) pm uid p d d1 ∧
    user_recovery_sessions (accounts d) !! sid = Some row ∧
    d' = set_rows (<[sid := UserRecoveryRepository.with_consumed_at t row]>
                     (user_recovery_sessions (accounts d))) d1.

Lemma ticket_user_inv x w u w' :
  UserMutations.ticket_user x w = (Ok u, w') →
  same_db w w' ∧ ∃ erow urow,
    user_emails (w_txn w) !! UserRecoveryTicket.user_email_id x = Some erow ∧
    users (w_txn w) !! UserEmailLookup.user_id erow = Some urow ∧
    u = UserRepository.of_row urow.
Proof.
  intros H. unfold UserMutations.ticket_user in H.
  apply bind_Ok_inv in H as (o & w1 & [D1 ->]%db_Ok%email_lookup_inv & H).
  apply bind_Ok_inv in H as (e & ? & [He ->]%needed_inv & H).
  apply bind_Ok_inv in H as (o & w2 & [D2 ->]%db_Ok%user_lookup_inv & H).
  apply needed_inv in H as [Hu ->]. split; [by transitivity w1|].
  apply fmap_Some in He as (erow & He & ->). same_txn D1.
  apply fmap_Some in Hu as (urow & Hu & ->). eauto.
Qed.

Lemma recovery_Ok requester cfg pm ticket p w w' :
  integrity (w_committed w) → account_integrity (w_committed w) →
  UserMutations.set_password_by_recovery requester cfg pm ticket p w
    = (Ok UserMutations.Allowed, w') →
  requester = Graphql.Anonymous ∧ account_recovery_allowed cfg = true ∧
  is_password_complex_enough pm p = Ok true ∧
  ∃ n uid sid, recovery_allowed (w_committed w) ticket (w_clock w n) uid sid ∧
    recovered pm uid sid p (w_committed w) (w_committed w').
Proof.
  intros Hdb Hint H. unfold UserMutations.set_password_by_recovery in H.
  destruct (is_unauthenticated requester) eqn:Hr; [|done].
  destruct (is_enabled pm); [|done]. destruct (account_recovery_allowed cfg) eqn:Ha; [|done].
  simpl in H. split; [by destruct requester|]. split; [done|].
  apply bind_Ok_inv in H as (c & ? & [Hcomplex ->]%lift_inv & H). destruct c; [|done]. simpl in H.
  split; [by destruct (is_password_complex_enough pm p) as [[]|]; simplify_eq/=|].
  apply bind_Ok_inv in H as (? & w1 & [T1 [_ K1]]%db_Ok%from_pool_inv & H). revert Hint Hdb.
  rewrite <-T1, <-K1. clear T1 K1. intros Hint Hdb.
  apply bind_Ok_inv in H as (o & w2 & [(T2 & _ & K2) Ht]%db_Ok%find_ticket_inv & H).
  rewrite <-T2, <-K2 in *. clear T2 K2. destruct o as [tk|]; [|done].
  destruct (Ht tk eq_refl) as (k & row & Hk & Htext & ->). clear Ht.
  apply bind_Ok_inv in H as (o & w3 & [(T3 & _ & K3) ->]%db_Ok%lookup_recovery_inv & H).
  rewrite <-T3, <-K3 in *. clear T3 K3.
  apply bind_Ok_inv in H as (s & ? & [Hs ->]%needed_inv & H).
  apply fmap_Some in Hs as (srow & Hs & ->).
  case_bool_decide as Hc; [done|]. apply eq_None_not_Some in Hc. simpl in Hc.
  apply bind_Ok_inv in H as (t & w4 & [-> (T4 & _ & K4)]%now_inv & H).
  destruct (UserRecoveryTicket.active _ _) eqn:Hx; [|done]. simpl in H.
  apply Z.ltb_lt in Hx. simpl in Hx.
  apply bind_Ok_inv in H as (u & w5 & [(T5 & _ & K5) Hu]%ticket_user_inv & H).
  rewrite <-T4, <-K4 in *. clear T4 K4. rewrite <-T5, <-K5 in *. clear T5 K5.
  destruct Hu as (erow & urow & He & Hu & ->).
  destruct (User.is_valid _) eqn:Hv; [|done]. simpl in H. apply valid_user_row in Hv as [Hl Hd].
  apply bind_Ok_inv in H as (? & w6 & [_ Hp]%replace_password_inv & H). simpl in Hp.
  rewrite (users_pkey _ Hdb _ _ Hu) in Hp.
  apply bind_Ok_inv in H as (s' & w7 & (_ & _ & tc & crow & Hcrow & T7)%db_Ok%consume_ticket_inv & H).
  simpl in Hcrow, T7.
  apply bind_Ok_inv in H as (? & w8 & [C8 T8]%db_Ok%save_inv & [= <-]).
  assert (accounts (w_txn w6) = accounts (w_txn w5)) as Hacc
    by (destruct Hp as (? & ? & ? & ? & ? & _ & _ & _ & ->); done).
  rewrite Hacc in *. simpl in Hs. pose proof (recovery_sessions_pkey _ Hint _ _ Hs) as Hid.
  rewrite Hid in Hcrow, T7. rewrite Hs in Hcrow. injection Hcrow as <-.
  eexists _, (UserEmailLookup.user_id erow), (UserRecoveryTicketRow.user_recovery_session_id row).
  split.
  - split; [|by exists srow|exists urow; auto].
    exists k, row, (UserRecoveryTicketRow.user_email_id row), erow.
    split_and!; [exact Hk|exact Htext| |done|done|exact He|done].
    exact Hx.
  - exists (w_txn w6), tc, srow. split_and!; [exact Hp|exact Hs|].
    rewrite C8, T7. simpl. by rewrite Hacc.
Qed.

(** C8: a password is set by recovery only for somebody who is not logged in, who
    holds an unexpired ticket of a recovery that is not used, sent to an address of
    a user who is neither locked nor deactivated, and with a password that is
    complex enough: then the hash of the new password is written and the recovery is
    marked as used, and nothing else changes. In every other case, whatever
    fails, nothing is committed. *)
Theorem account_recovered requester cfg pm ticket p w r w' :
  integrity (w_committed w) → account_integrity (w_committed w) →
  UserMutations.set_password_by_recovery requester cfg pm ticket p w = (r, w') →
  r ≠ Ok UserMutations.Allowed ∧ w_committed w' = w_committed w ∨
  r = Ok UserMutations.Allowed ∧ requester = Graphql.Anonymous ∧
    account_recovery_allowed cfg = true ∧ is_password_complex_enough pm p = Ok true ∧
    ∃ n uid sid, recovery_allowed (w_committed w) ticket (w_clock w n) uid sid ∧
      recovered pm uid sid p (w_committed w) (w_committed w').
Proof.
  intros Hdb Hint H. destruct (decide (is_allowed r = true)) as [Hr|Hr].
  - right. destruct r as [[]|]; try done. split; [done|].
    by apply recovery_Ok with (1 := Hdb) (2 := Hint) in H.
  - left. split; [by intros ->|]. destruct (recovery_commits requester cfg pm ticket p w) as [[Hc _]|Hc].
    + by rewrite H in Hc.
    + rewrite H in Hc. destruct Hc as (a & Ha & <-). simpl in Ha. by subst r.
Qed.

(** Nobody sets a password with a ticket whose recoveries are all used or gone. *)
Lemma recovery_refused requester cfg pm ticket p w r w' :
  integrity (w_committed w) → account_integrity (w_committed w) →
  (∀ k row, user_recovery_tickets (accounts (w_committed w)) !! k = Some row →
     UserRecoveryTicketRow.ticket row = ticket →
     ∀ srow, recoveries_of (w_committed w) !! UserRecoveryTicketRow.user_recovery_session_id row
               = Some srow → UserRecoverySessionRow.consumed_at srow ≠ None) →
  UserMutations.set_password_by_recovery requester cfg pm ticket p w = (r, w') →
  r ≠ Ok UserMutations.Allowed ∧ w_committed w' = w_committed w.
Proof.
  intros Hdb Hint Hused H. destruct (decide (is_allowed r = true)) as [Hr|Hr].
  - exfalso. destruct r as [[]|]; try done.
    apply recovery_Ok with (1 := Hdb) (2 := Hint) in H as (_ & _ & _ & n & uid & sid & Ha & _).
    destruct (recovery_ticket _ _ _ _ _ Ha) as (k & row & ? & ? & Hk & Ht & _ & <- & _).
    destruct (recovery_session _ _ _ _ _ Ha) as (srow & Hrow & Hfree).
    by destruct (Hused k row Hk Ht srow Hrow).
  - split; [by intros ->|]. destruct (recovery_commits requester cfg pm ticket p w) as [[Hc _]|Hc].
    + by rewrite H in Hc.
    + rewrite H in Hc. destruct Hc as (a & Ha & <-). simpl in Ha. by subst r.
Qed.
End Recovery.

(** ** The recoveries in a history *)

Definition recovery_used (d : Db) (sid : Ulid) : Prop :=
  ∃ row, recoveries_of d !! sid = Some row ∧ UserRecoverySessionRow.consumed_at row ≠ None.

Lemma recovered_used {R C : Type} {password_crates : PasswordCrates R C} pm uid sid p d d' :
  recovered (R := R) pm uid sid p d d' → recovery_used d' sid.
Proof. intros (d1 & t & row & _ & _ & ->). eexists. split; [apply lookup_insert_eq|done]. Qed.

(** What is used stays used. *)
Definition recoveries_le (d d' : Db) : Prop := ∀ sid, recovery_used d sid → recovery_used d' sid.

(** Recoveries may be deleted, and nothing else is done to them. *)
Definition recoveries_cut (d d' : Db) : Prop :=
  ∀ sid, recoveries_of d' !! sid = None ∨ recoveries_of d' !! sid = recoveries_of d !! sid.

#[export] Instance recoveries_le_preorder : PreOrder recoveries_le.
Proof. split; [by intros d sid|]. intros x y z H1 H2 sid H. auto. Qed.
#[export] Instance recoveries_cut_preorder : PreOrder recoveries_cut.
Proof.
  split; [intros d sid; by right|]. intros x y z H1 H2 sid.
  destruct (H2 sid) as [?| ->]; [by left|apply H1].
Qed.

Lemma recoveries_same d d' : recoveries_of d' = recoveries_of d → recoveries_le d d'.
Proof. intros H sid. unfold recovery_used. by rewrite H. Qed.
Lemma recoveries_uncut d d' : recoveries_of d' = recoveries_of d → recoveries_cut d d'.
Proof. intros H sid. right. by rewrite H. Qed.
#[export] Instance le_on_recoveries : OnRecoveries recoveries_le.
Proof. intros d d' _. apply recoveries_same. Qed.
#[export] Instance cut_on_recoveries : OnRecoveries recoveries_cut.
Proof. intros d d' _. apply recoveries_uncut. Qed.

Lemma recoveries_insert d k row (cs : Db → bool) n d' :
  insert_stmt (Row := UserRecoverySessionRow.t) k row cs d = Some (n, d') → recoveries_le d d'.
Proof.
  intros (Hk & _ & _ & ->)%insert_stmt_inv sid (r & Hr & Hu). exists r. split; [|done].
  unfold recoveries_of in *. simpl in *. rewrite lookup_insert_ne; [done|]. by intros ->; simplify_eq.
Qed.
Lemma recoveries_consume d k t (cs : Db → bool) n d' :
  update_stmt k (UserRecoveryRepository.with_consumed_at t) cs d = Some (n, d') →
  recoveries_le d d'.
Proof.
  intros [->|(row & Hk & _ & ->)]%update_stmt_any sid (r & Hr & Hu); [by exists r|].
  unfold recovery_used, recoveries_of in *. simpl in *.
  destruct (decide (k = sid)) as [->|]; [rewrite lookup_insert_eq|rewrite lookup_insert_ne by done];
    eexists; split; done.
Qed.
Lemma recoveries_delete ids :
  ∀ d n d', UserRecoveryRepository.delete_sessions_stmt ids d = Some (n, d') → recoveries_cut d d'.
Proof.
  intros d n d' [= _ <-] sid. unfold recoveries_of. simpl.
  destruct (base.filter _ _ !! sid) as [r|] eqn:Hr; [|by left]. right.
  by apply map_lookup_filter_Some in Hr as [-> _].
Qed.

Ltac recoveries_solve :=
  first [reflexivity | by apply recoveries_same | by apply recoveries_uncut].

(** The statements that leave the recoveries alone. *)
Ltac recoveries_stmt :=
  intros ???;
  first [ intros (? & ? & ? & ->)%insert_stmt_inv; recoveries_solve
        | intros [->|(? & ? & ? & ->)]%update_stmt_any; recoveries_solve
        | intros [->|(? & ? & ? & ->)]%update_row_where_any; recoveries_solve
        | intros [->|(? & ? & ->)]%insert_user_any; recoveries_solve
        | unfold update_where_stmt, delete_threepids_stmt; intros [= _ <-]; recoveries_solve ].

#[export] Hint Extern 2 (keeps (keeps_db recoveries_le) (execute _)) =>
  apply (keeps_db_execute _);
  first [ intros ???; exact (recoveries_insert _ _ _ _ _ _)
        | intros ???; exact (recoveries_consume _ _ _ _ _ _) | recoveries_stmt ]
  : keeps.
#[export] Hint Extern 2 (keeps (keeps_db recoveries_cut) (execute _)) =>
  apply (keeps_db_execute _); first [ exact (recoveries_delete _) | recoveries_stmt ] : keeps.

Section History.
Context {R C : Type} `{!RngCore R} {crc : Crc} {base64 : Base64} {sha2 : Sha2}
  {ulid_text : UlidText} {url_lib : UrlLib} {jwks_json : JwksJson}
  {client_crypto : ClientCrypto} {policy : Policy} {templates : Templates}
  {keystore : Keystore R} {url_builder : DeviceAuthorize.UrlBuilder} {url_split : UrlSplit}
  {hs : Homeserver} {pg_text : PgText} {password_crates : PasswordCrates R C}
  {names : MatrixNames} {limits : Limits} {login_policy : LoginPolicy}
  {rng_bytes : RngBytes R} {url_edit : UrlEdit} {url_encoded : UrlEncoded}
  {collation : PgCollation} {unicode : UnicodeCase} {chrono : ChronoText} {texts : ErrorTexts}
  {aead : Aead} {base64_std : Base64Std} {psl : PublicSuffixes} {hex : Hex}
  {json : MetadataJson} {registration_policy : RegistrationPolicy}
  `{!RngUniform R} {localparts : FreeLocalparts} {addresses : AddressParser}
  {locales : LocaleParser} {register_policy : RegisterPolicy} {email_policy : EmailPolicy}
  {captcha_api : CaptchaApi} {account_limits : AccountLimits} {lower : UnicodeLower}
  {mailer : Mailer} {pg_json : PgJson} {pg_pattern : PgPattern}.
Implicit Types w : World R.

#[local] Hint Unfold check_stage authorization_code_grant TokenEndpoint.post token_request : mas_ops.

Lemma transaction_recoveries m : transaction (R := R) m → keeps (keeps_db recoveries_le) m.
Proof. induction 1; keeps_tac. Qed.
Lemma upkeep_recoveries m : upkeep (R := R) m → keeps (keeps_db recoveries_cut) m.
Proof. induction 1; keeps_tac. Qed.
Lemma token_recoveries ip cfg ua auth :
  txn_keeps recoveries_le (token_request (R := R) ip cfg ua auth).
Proof. apply txn_keeps_pool; [apply _ | keeps_tac]. Qed.
Lemma revoke_recoveries ip auth :
  txn_keeps recoveries_le (Revoke.revoke_request (R := R) ip auth).
Proof. apply txn_keeps_pool; [apply _ | keeps_tac]. Qed.
Lemma device_recoveries ip cfg ua auth :
  txn_keeps recoveries_le (DeviceAuthorize.device_authorization_request (R := R) ip cfg ua auth).
Proof. apply txn_keeps_pool; [apply _ | keeps_tac]. Qed.
Lemma create_recoveries requester input :
  txn_keeps recoveries_le (Graphql.create_oauth2_session (R := R) requester input).
Proof. txn_tac. keeps_tac. Qed.
Lemma end_recoveries requester id :
  txn_keeps recoveries_le (Graphql.end_oauth2_session (R := R) requester id).
Proof. txn_tac. keeps_tac. Qed.
Lemma name_recoveries requester id n :
  txn_keeps recoveries_le (Graphql.set_oauth2_session_name (R := R) requester id n).
Proof. txn_tac. keeps_tac. Qed.
Lemma compat_step_recoveries w w' :
  compat_step w w' → recoveries_le (w_committed w) (w_committed w').
Proof. compat_step_tac. Qed.
Lemma page_step_recoveries w w' :
  page_step w w' → recoveries_le (w_committed w) (w_committed w').
Proof. page_step_tac. Qed.
Lemma job_step_recoveries w w' : job_step w w' → recoveries_le (w_committed w) (w_committed w').
Proof. job_step_tac. Qed.
Lemma account_step_recoveries w w' :
  account_step w w' → recoveries_le (w_committed w) (w_committed w').
Proof. account_step_tac. Qed.

Lemma step_recoveries w w' :
  step w w' → recoveries_le (w_committed w) (w_committed w') ∨
              recoveries_cut (w_committed w) (w_committed w').
Proof.
  destruct 1 as [| | | | | |w w' Hs|w w' Hs|w w' Hs|w w' Hs|m w Hm|m w Hm|w w' Hc].
  - left. apply token_recoveries.
  - left. apply revoke_recoveries.
  - left. apply device_recoveries.
  - left. apply create_recoveries.
  - left. apply end_recoveries.
  - left. apply name_recoveries.
  - left. by apply compat_step_recoveries.
  - left. by apply page_step_recoveries.
  - left. by apply job_step_recoveries.
  - left. by apply account_step_recoveries.
  - left. apply (run_transaction_keeps _ m (transaction_recoveries m Hm)).
  - right. apply (run_transaction_keeps _ m (upkeep_recoveries m Hm)).
  - left. rewrite Hc. reflexivity.
Qed.

(** A step that does not give the identifier of a recovery to another one. *)
Definition step_without (sid : Ulid) w w' : Prop :=
  step w w' ∧ (recoveries_of (w_committed w) !! sid = None →
               recoveries_of (w_committed w') !! sid = None).

(** The recovery is used, or was deleted. *)
Definition recovery_over (d : Db) (sid : Ulid) : Prop :=
  ∀ row, recoveries_of d !! sid = Some row → UserRecoverySessionRow.consumed_at row ≠ None.

Lemma recovery_over_cases d sid :
  recovery_over d sid ↔ recoveries_of d !! sid = None ∨ recovery_used d sid.
Proof.
  unfold recovery_over, recovery_used.
  destruct (recoveries_of d !! sid) as [row|]; [|split; [by left|done]]. split.
  - intros H. right. eauto.
  - intros [|(r & [= ->] & Hr)] r' [= <-]; done.
Qed.

Lemma step_over sid w w' :
  step_without sid w w' → recovery_over (w_committed w) sid → recovery_over (w_committed w') sid.
Proof.
  rewrite !recovery_over_cases. intros [Hs Hnew] [H|H]; [left; auto|].
  destruct (step_recoveries _ _ Hs) as [Hle|Hcut]; [right; by apply Hle|].
  destruct (Hcut sid) as [?|Heq]; [by left|right]. unfold recovery_used. by rewrite Heq.
Qed.

Lemma steps_over sid w w' :
  rtc (step_without sid) w w' → recovery_over (w_committed w) sid →
  recovery_over (w_committed w') sid.
Proof. induction 1; eauto using step_over. Qed.

Lemma steps_without sid w w' : rtc (step_without sid) w w' → rtc step w w'.
Proof. apply rtc_subrel. by intros ?? []. Qed.

(** C9: a recovery is good for one password: once a ticket has set a password,
    and whatever requests, jobs and clean-ups follow, its recovery stays used
    or is deleted, as long as no other recovery draws its identifier; and then no
    request with a ticket of that recovery, itself included, sets a password,
    whoever asks, and such a request commits nothing. *)
Theorem recovery_used_once requester cfg pm ticket p w w1 :
  integrity (w_committed w) → account_integrity (w_committed w) →
  UserMutations.set_password_by_recovery requester cfg pm ticket p w
    = (Ok UserMutations.Allowed, w1) →
  ∃ k row sid, user_recovery_tickets (accounts (w_committed w)) !! k = Some row ∧
    UserRecoveryTicketRow.ticket row = ticket ∧
    UserRecoveryTicketRow.user_recovery_session_id row = sid ∧
    ∀ w2, rtc (step_without sid) w1 w2 →
      recovery_over (w_committed w2) sid ∧
      ∀ requester' cfg' pm' ticket' p' r w3,
        (∀ k row, user_recovery_tickets (accounts (w_committed w2)) !! k = Some row →
           UserRecoveryTicketRow.ticket row = ticket' →
           UserRecoveryTicketRow.user_recovery_session_id row = sid) →
        UserMutations.set_password_by_recovery requester' cfg' pm' ticket' p' w2 = (r, w3) →
        r ≠ Ok UserMutations.Allowed ∧ w_committed w3 = w_committed w2.
Proof.
  intros Hdb Hint H.
  assert (step w w1) as Hs.
  { apply step_account. right. right. left.
    replace w1 with (UserMutations.set_password_by_recovery requester cfg pm ticket p w).2
      by (by rewrite H). apply mutation_recovery. }
  pose proof (recovery_Ok _ _ _ _ _ _ _ Hdb Hint H) as (_ & _ & _ & n & uid & sid & Ha & He).
  destruct (recovery_ticket _ _ _ _ _ Ha) as (k & row & ? & ? & Hk & Ht & _ & Hsid & _).
  exists k, row, sid. split_and!; [done..|]. intros w2 Hw2.
  assert (recovery_over (w_committed w2) sid) as Hover.
  { apply (steps_over _ _ _ Hw2), recovery_over_cases. right. by eapply recovered_used. }
  split; [done|]. intros requester' cfg' pm' ticket' p' r w3 Hsame. apply steps_without in Hw2.
  assert (rtc step w w2) as Hs2 by (by eapply rtc_l). apply recovery_refused.
  - by apply (steps_integrity _ _ Hs2).
  - by apply (steps_accounts _ _ Hs2).
  - intros k' row' Hk' Ht'. rewrite (Hsame k' row' Hk' Ht'). apply Hover.
Qed.
End History.

(** ** Witnesses *)
Section Witnesses.
Import Scenario AccountScenario.

Definition recovery_run :=
  UserMutations.set_password_by_recovery Graphql.Anonymous account_config manager "ticket"
    "long enough" account_world.

Lemma recovery_run_allowed : recovery_run = (Ok UserMutations.Allowed, recovery_run.2).
Proof. apply fst_run. vm_compute. reflexivity. Qed.

Lemma account_recovered_witness :
  recovery_run.1 = Ok UserMutations.Allowed ∧
  ∃ n uid sid, recovery_allowed account_db "ticket" (w_clock account_world n) uid sid ∧
    recovered manager uid sid "long enough" account_db (w_committed recovery_run.2).
Proof.
  destruct (account_recovered Graphql.Anonymous account_config manager "ticket" "long enough"
              account_world (Ok UserMutations.Allowed) recovery_run.2)
    as [[[] _]|(_ & _ & _ & _ & H)].
  - apply integrity_account_db.
  - apply account_integrity_db.
  - apply recovery_run_allowed.
  - reflexivity.
  - split; [vm_compute; reflexivity | exact H].
Defined.

(** The recoveries are cleaned up, and the ticket is presented again before and
    after that. *)
Definition recovery_again w :=
  UserMutations.set_password_by_recovery Graphql.Anonymous account_config manager "ticket"
    "another one" w.
Definition cleaned_up : World Z :=
  (run_transaction (do! UserRecoveryRepository.cleanup None 100 10; ret tt) recovery_run.2).2.

Example recovery_cleaned_up :
  (recovery_again recovery_run.2).1 = Ok UserMutations.RecoveryTicketAlreadyUsed ∧
  recoveries_of (w_committed cleaned_up) = ∅ ∧
  (recovery_again cleaned_up).1 = Ok UserMutations.NoSuchRecoveryTicket.
Proof. split_and!; vm_compute; reflexivity. Qed.

Lemma recovery_used_once_witness :
  ∃ k row sid, user_recovery_tickets (accounts account_db) !! k = Some row ∧
    UserRecoveryTicketRow.ticket row = "ticket"%string ∧
    UserRecoveryTicketRow.user_recovery_session_id row = sid ∧
    ∀ w2, rtc (step_without sid) recovery_run.2 w2 →
      recovery_over (w_committed w2) sid ∧
      ∀ requester' cfg' pm' ticket' p' r w3,
        (∀ k row, user_recovery_tickets (accounts (w_committed w2)) !! k = Some row →
           UserRecoveryTicketRow.ticket row = ticket' →
           UserRecoveryTicketRow.user_recovery_session_id row = sid) →
        UserMutations.set_password_by_recovery requester' cfg' pm' ticket' p' w2 = (r, w3) →
        r ≠ Ok UserMutations.Allowed ∧ w_committed w3 = w_committed w2.
Proof.
  apply (recovery_used_once Graphql.Anonymous account_config manager "ticket" "long enough"
           account_world).
  - apply integrity_account_db.
  - apply account_integrity_db.
  - apply recovery_run_allowed.
Defined.
End Witnesses.
