(* ===== verification/RegisterFacts.v ===== *)
(** * Correctness of the end of a registration

    What the last step of a registration requires of the database, and the
    user, the session and the rows it writes. *)

From stdpp Require Import base tactics list strings gmap.
From Stdlib Require Import ZArith Lia.
From S2P Require Import Prelude Text Scope Externals Formats Pagination TokenFormat DataModel CompatModel UpstreamModel AccountModel Storage TokenRepo GrantRepo QueueRepo UserRepo UpstreamRepo AccountRepo CompatRepo Jobs Tasks Passwords ClientAuth TokenEndpoint GraphqlSession WebSession CompatEndpoints Authorization DeviceConsent RegisterForms Register AccountPages AccountMutations Triples RepoFacts CompatRepoFacts Integrity Evolution Scenario TokenFacts TaskFacts DeactivationFacts CodeExchange GraphqlFacts CompatRefreshFacts CompatLoginFacts ConsentFacts AccountIntegrity AccountSteps.
#[local] Open Scope Z_scope.

Section Checks.
Context {R : Type} `{!RngCore R, !RngBytes R} {base64 : Base64} {ulid_text : UlidText}
  {url_lib : UrlLib} {pg_text : PgText} {localparts : FreeLocalparts}.
Implicit Types (w : World R) (d : Db) (reg : UserRegistration.t).

Lemma repo_Ok {A} (m : M (World R) DatabaseError A) w a w' :
  repo m w = (Ok a, w') → m w = (Ok a, w').
Proof. apply mmap_err_Ok_inv. Qed.

Lemma context_Ok {A} (o : option A) message w a w' :
  context o message w = (Ok a, w') → o = Some a ∧ w' = w.
Proof. unfold context, lift. destruct o; simpl; naive_solver. Qed.

(** Reading a row of a table. *)
Definition reads_row {Row A} (table : Db → gmap Z Row)
    (decode : Row → result DatabaseInconsistencyError A) (id : Ulid) d (a : A) : Prop :=
  ∃ row, table d !! id = Some row ∧ decode row = Ok a.

Definition registrations_of d := user_registrations (accounts d).
Definition tokens_of d := user_registration_tokens (accounts d).
Definition authentications_of d := user_email_authentications (accounts d).
Definition providers_of d := upstream_oauth_providers (accounts d).
Definition upstream_sessions_of d := upstream_oauth_authorization_sessions (accounts d).
Definition links_of d := upstream_oauth_links (accounts d).

(** Reads of one row. *)
Ltac read_row_tac H :=
  op_inv H; subst;
  match goal with Hd : match ?o with Some _ => _ | None => _ end |- _ =>
    destruct o eqn:?; destruct_ex; simplify_eq/=; split; [same_world | eexists; eauto] end.

Lemma registration_lookup_inv id w reg w' :
  UserRegistrationRepository.lookup id w = (Ok (Some reg), w') →
  same_db w w' ∧ reads_row registrations_of UserRegistrationRepository.try_from id (w_txn w) reg.
Proof. intros H. read_row_tac H. Qed.
Lemma token_lookup_inv id w x w' :
  UserRegistrationTokenRepository.lookup id w = (Ok (Some x), w') →
  same_db w w' ∧ reads_row tokens_of UserRegistrationTokenRepository.try_from id (w_txn w) x.
Proof. intros H. read_row_tac H. Qed.
Lemma provider_lookup_inv id w x w' :
  UpstreamOAuthProviderRepository.lookup id w = (Ok (Some x), w') →
  same_db w w' ∧ reads_row providers_of UpstreamOAuthProviderRepository.try_from id (w_txn w) x.
Proof. intros H. read_row_tac H. Qed.
Lemma upstream_lookup_inv id w x w' :
  UpstreamOAuthSessionRepository.lookup id w = (Ok (Some x), w') →
  same_db w w' ∧
  reads_row upstream_sessions_of UpstreamOAuthSessionRepository.try_from id (w_txn w) x.
Proof. intros H. read_row_tac H. Qed.

(** A row that needs no decoding. *)
Lemma authentication_lookup_inv id w o w' :
  UserEmailAuthenticationRepository.lookup_authentication id w = (Ok o, w') →
  same_db w w' ∧
  o = UserEmailAuthenticationRepository.of_row <$> authentications_of (w_txn w) !! id.
Proof. intros H. op_inv H. subst. split; [same_world | done]. Qed.
Lemma link_lookup_inv id w o w' :
  UpstreamOAuthLinkRepository.lookup id w = (Ok o, w') →
  same_db w w' ∧ o = UpstreamOAuthLinkRepository.of_row <$> links_of (w_txn w) !! id.
Proof. intros H. op_inv H. subst. split; [same_world | done]. Qed.

(** No row has the value, whatever the case. *)
Lemma no_rows {Row} (p : Row → Prop) `{!∀ r, Decision (p r)} (m : gmap Z Row) :
  filter p (map_to_list m).*2 = [] → ∀ k r, m !! k = Some r → ¬ p r.
Proof.
  intros Hn k r Hk Hp. assert (r ∈ filter p (map_to_list m).*2) as Hin.
  { apply list_elem_of_filter. split; [done|]. apply list_elem_of_fmap. exists (k, r).
    split; [done|]. by apply elem_of_map_to_list. }
  rewrite Hn in Hin. by apply elem_of_nil in Hin.
Qed.

Lemma exists_username_inv n w b w' :
  UserRepository.exists_username n w = (Ok b, w') →
  same_db w w' ∧ (b = false → ∀ k u, users (w_txn w) !! k = Some u →
                    pg_lower (UserLookup.username u) ≠ pg_lower n).
Proof.
  intros H. op_inv H. subst. split; [same_world|]. intros Hb%bool_decide_eq_false%dec_stable.
  exact (no_rows _ _ Hb).
Qed.

Lemma count_email_inv e w n w' :
  UserEmailRepository.count (UserEmailFilter.for_email e UserEmailFilter.new) w = (Ok n, w') →
  same_db w w' ∧ (n <= 0 → ∀ k r, user_emails (w_txn w) !! k = Some r →
                    pg_lower (UserEmailLookup.email r) ≠ pg_lower e).
Proof.
  intros H. op_inv H. subst. split; [same_world|]. intros Hn k r Hk Heq.
  assert (matching_rows (UserEmailFilter.generate_condition
            (UserEmailFilter.for_email e UserEmailFilter.new)) (w_txn w) = []) as Hl
    by (apply length_zero_iff_nil; lia).
  eapply (no_rows _ (user_emails (w_txn w)) Hl k r Hk).
  unfold UserEmailFilter.generate_condition. simpl. by apply bool_decide_eq_true.
Qed.

(** *** What the checks find *)

(** Whether the registration needs a token. *)
Definition token_needed (cfg : AccountConfig) d reg (b : bool) : Prop :=
  match UserRegistration.upstream_oauth_authorization_session_id reg with
  | None => b = password_registration_token_required cfg || registration_token_required cfg
  | Some sid => ∃ s p,
      reads_row upstream_sessions_of UpstreamOAuthSessionRepository.try_from sid d s ∧
      reads_row providers_of UpstreamOAuthProviderRepository.try_from
        (UpstreamOAuthAuthorizationSession.provider_id s) d p ∧
      b = UpstreamOAuthProvider.registration_token_required p || registration_token_required cfg
  end.

Definition token_checked (cfg : AccountConfig) d reg (t : DateTime)
    (o : option UserRegistrationToken.t) : Prop :=
  match o with
  | None => token_needed cfg d reg false
  | Some x => token_needed cfg d reg true ∧ ∃ tid,
      UserRegistration.user_registration_token_id reg = Some tid ∧
      reads_row tokens_of UserRegistrationTokenRepository.try_from tid d x ∧
      UserRegistrationToken.is_valid x t = true
  end.

Definition email_checked d reg (o : option UserEmailAuthentication.t) : Prop :=
  match o with
  | None => UserRegistration.email_authentication_id reg = None
  | Some a => ∃ aid row,
      UserRegistration.email_authentication_id reg = Some aid ∧
      authentications_of d !! aid = Some row ∧
      a = UserEmailAuthenticationRepository.of_row row ∧
      UserEmailAuthenticationLookup.completed_at row ≠ None ∧
      ∀ k e, user_emails d !! k = Some e →
        pg_lower (UserEmailLookup.email e) ≠ pg_lower (UserEmailAuthenticationLookup.email row)
  end.

Definition upstream_checked d reg
    (o : option (UpstreamOAuthAuthorizationSession.t * UpstreamOAuthLink.t)) : Prop :=
  match o with
  | None => UserRegistration.upstream_oauth_authorization_session_id reg = None
  | Some (s, l) => ∃ sid lid row,
      UserRegistration.upstream_oauth_authorization_session_id reg = Some sid ∧
      reads_row upstream_sessions_of UpstreamOAuthSessionRepository.try_from sid d s ∧
      UpstreamOAuthAuthorizationSession.is_consumed s = false ∧
      UpstreamOAuthAuthorizationSession.link_id s = Some lid ∧
      links_of d !! lid = Some row ∧ l = UpstreamOAuthLinkRepository.of_row row ∧
      LinkLookup.user_id row = None
  end.

Lemma load_registration_inv id message w reg w' :
  load_registration id message w = (Ok reg, w') →
  same_db w w' ∧ reads_row registrations_of UserRegistrationRepository.try_from id (w_txn w) reg.
Proof.
  intros (o & w1 & H1%repo_Ok & [-> ->]%context_Ok)%bind_Ok_inv. by apply registration_lookup_inv.
Qed.

Lemma load_upstream_inv sid w s w' :
  RegisterEnd.load_upstream_session sid w = (Ok s, w') →
  same_db w w' ∧
  reads_row upstream_sessions_of UpstreamOAuthSessionRepository.try_from sid (w_txn w) s.
Proof.
  intros (o & w1 & H1%repo_Ok & [-> ->]%context_Ok)%bind_Ok_inv. by apply upstream_lookup_inv.
Qed.

Lemma check_username_inv reg w u w' :
  RegisterEnd.check_username reg w = (Ok u, w') →
  same_db w w' ∧ free_localpart (UserRegistration.username reg) = true ∧
  ∀ k r, users (w_txn w) !! k = Some r →
    pg_lower (UserLookup.username r) ≠ pg_lower (UserRegistration.username reg).
Proof.
  intros (taken & w1 & [D1 Hfree]%repo_Ok%exists_username_inv & H)%bind_Ok_inv.
  destruct taken; [done|]. specialize (Hfree eq_refl).
  apply bind_Ok_inv in H as (b & w2 & H2%mmap_err_Ok_inv & H). destruct b; [|done].
  injection H as _ ->. pose proof (localpart_same_db (UserRegistration.username reg) w1) as D2. rewrite H2 in D2.
  split; [by transitivity w1|]. split; [|done].
  unfold is_localpart_available in H2. by destruct (w_homeserver_faults w1) as [|[] ?]; simplify_eq.
Qed.

Lemma token_required_inv cfg reg w b w' :
  RegisterEnd.token_required cfg reg w = (Ok b, w') →
  same_db w w' ∧ token_needed cfg (w_txn w) reg b.
Proof.
  unfold RegisterEnd.token_required, token_needed.
  destruct (UserRegistration.upstream_oauth_authorization_session_id reg) as [sid|];
    [|by intros [= <- <-]].
  intros (s & w1 & [D1 Hs]%load_upstream_inv & H)%bind_Ok_inv.
  apply bind_Ok_inv in H as (o & w2 & H2%repo_Ok & H).
  apply bind_Ok_inv in H as (p & ? & [-> ->]%context_Ok & [= <- <-]).
  apply provider_lookup_inv in H2 as [D2 Hp]. split; [by transitivity w1|].
  destruct D1 as (T1 & _). rewrite T1 in Hp. eauto.
Qed.

Lemma check_token_inv cfg reg w o w' :
  RegisterEnd.check_token cfg reg w = (Ok (Proceed o), w') →
  same_db w w' ∧ ∃ n, token_checked cfg (w_txn w) reg (w_clock w n) o.
Proof.
  intros (b & w1 & [D1 Hb]%token_required_inv & H)%bind_Ok_inv.
  destruct b; simpl in H; [|injection H as <- <-; split; [done|]; by exists O].
  destruct (UserRegistration.user_registration_token_id reg) as [tid|] eqn:Htid; [|done].
  apply bind_Ok_inv in H as (o' & w2 & H2%repo_Ok & H).
  apply bind_Ok_inv in H as (x & ? & [-> ->]%context_Ok & H).
  apply token_lookup_inv in H2 as [D2 Hx].
  apply bind_Ok_inv in H as (t & w3 & [-> D3]%now_inv & H).
  destruct (UserRegistrationToken.is_valid x _) eqn:Hv; [|done]. injection H as <- <-.
  destruct D1 as (T1 & C1 & K1), D2 as (T2 & C2 & K2), D3 as (T3 & C3 & K3).
  split; [split_and!; congruence|]. exists (w_ticks w2). split; [done|]. exists tid.
  rewrite <-T1, <-K1, <-K2. done.
Qed.

Lemma check_email_inv reg w o w' :
  RegisterEnd.check_email reg w = (Ok (Proceed o), w') →
  same_db w w' ∧ email_checked (w_txn w) reg o.
Proof.
  unfold RegisterEnd.check_email.
  destruct (UserRegistration.email_authentication_id reg) as [aid|] eqn:Haid;
    [|by intros [= <- <-]].
  intros (oa & w1 & [D1 ->]%repo_Ok%authentication_lookup_inv & H)%bind_Ok_inv.
  apply bind_Ok_inv in H as (a & ? & [Ha ->]%context_Ok & H).
  apply fmap_Some in Ha as (row & Ha & ->). case_bool_decide as Hc; [done|].
  apply bind_Ok_inv in H as (n & w2 & [D2 Hn]%repo_Ok%count_email_inv & H).
  destruct (0 <? n) eqn:Hz.
  - by apply bind_Ok_inv in H as (? & ? & _ & (? & ? & _ & [= ])%bind_Ok_inv).
  - injection H as <- <-. split; [by transitivity w1|]. exists aid, row. destruct D1 as (T1 & _).
    rewrite <-T1. split_and!; try done; [by rewrite T1|]. apply Hn. by apply Z.ltb_ge in Hz.
Qed.

Lemma check_upstream_inv reg w o w' :
  RegisterEnd.check_upstream reg w = (Ok o, w') →
  same_db w w' ∧ upstream_checked (w_txn w) reg o.
Proof.
  unfold RegisterEnd.check_upstream.
  destruct (UserRegistration.upstream_oauth_authorization_session_id reg) as [sid|] eqn:Hsid;
    [|by intros [= <- <-]].
  intros (s & w1 & [D1 Hs]%load_upstream_inv & H)%bind_Ok_inv.
  apply bind_Ok_inv in H as (lid & ? & [Hlid ->]%context_Ok & H).
  destruct (UpstreamOAuthAuthorizationSession.is_consumed s) eqn:Hc; [done|].
  apply bind_Ok_inv in H as (ol & w2 & [D2 ->]%repo_Ok%link_lookup_inv & H).
  apply bind_Ok_inv in H as (l & ? & [Hl ->]%context_Ok & H).
  apply fmap_Some in Hl as (row & Hl & ->). case_bool_decide as Hu; [done|].
  injection H as <- <-. split; [by transitivity w1|]. exists sid, lid, row.
  destruct D1 as (T1 & _). rewrite <-T1. split_and!; try done; [by rewrite T1|].
  by apply eq_None_not_Some.
Qed.
End Checks.

(** ** What is written *)
Section Writes.
Context {R : Type} `{!RngCore R, !RngBytes R} {base64 : Base64} {ulid_text : UlidText}
  {url_lib : UrlLib} {pg_text : PgText} {localparts : FreeLocalparts}.
Implicit Types (w : World R) (d : Db) (reg : UserRegistration.t).

Lemma complete_registration_inv reg w reg' w' :
  UserRegistrationRepository.complete reg w = (Ok reg', w') →
  same_committed w w' ∧ ∃ t row,
    registrations_of (w_txn w) !! UserRegistration.id reg = Some row ∧
    UserRegistrationLookup.completed_at row = None ∧
    reg' = UserRegistration.with_completed_at reg (Some t) ∧
    w_txn w' = set_rows (<[UserRegistration.id reg :=
                             UserRegistrationRepository.with_completed_at t row]>
                           (registrations_of (w_txn w))) (w_txn w).
Proof.
  intros H. op_inv H. world_simpl. split; [same_world|].
  match goal with H : Ok _ = ensure_affected_rows _ _ |- _ =>
    symmetry in H; apply ensure_affected_rows_inv in H as -> end.
  match goal with H : UserRegistrationRepository.update_pending_stmt _ _ _ _ = _ |- _ =>
    unfold UserRegistrationRepository.update_pending_stmt, update_checked_stmt in H end.
  simpl in *. destruct (user_registrations _ !! _) as [row|] eqn:Hrow; [|done].
  case_bool_decide as Hc; [|done]. simplify_eq/=. eauto 10.
Qed.

Lemma use_token_inv x w x' w' :
  UserRegistrationTokenRepository.use_token x w = (Ok x', w') →
  same_committed w w' ∧ ∃ t row,
    tokens_of (w_txn w) !! UserRegistrationToken.id x = Some row ∧
    UserRegistrationTokenLookup.revoked_at row = None ∧
    w_txn w' = set_rows (<[UserRegistrationToken.id x :=
                             UserRegistrationTokenRepository.with_use t row]>
                           (tokens_of (w_txn w))) (w_txn w).
Proof.
  intros H. assert (same_committed w w') as Hc by (eapply keeps_run; [|exact H]; keeps_tac).
  split; [done|]. op_inv H. world_simpl.
  match goal with H : UserRegistrationTokenRepository.use_token_stmt _ _ _ = _ |- _ =>
    apply use_token_any in H as (row & Hrow & Hr & Ht) end.
  match goal with H : gets _ _ = _ |- _ => unfold gets in H; injection H as _ <- end.
  eauto 10.
Qed.

Lemma schedule_job_inv {J} `{!InsertableJob J} (job : J) w u w' :
  schedule_job job w = (Ok u, w') →
  same_committed w w' ∧ ∃ m : gmap Z QueueJobRow.t, w_txn w' = set_rows m (w_txn w).
Proof.
  intros H. unfold schedule_job in H. op_inv H. world_simpl. insert_inv Hi.
  split; [same_world | eauto].
Qed.

Lemma user_add_inv n w u w' :
  UserRepository.add n w = (Ok u, w') →
  same_committed w w' ∧ ∃ t, User.username u = n ∧
    users (w_txn w) !! User.id u = None ∧
    w_txn w' = set_rows (<[User.id u := UserLookup.mk (User.id u) n t None None false false]>
                           (users (w_txn w))) (w_txn w).
Proof.
  intros H. op_inv H. world_simpl. split; [same_world|].
  match goal with H : Ok _ = ensure_affected_rows _ _ |- _ =>
    symmetry in H; apply ensure_affected_rows_inv in H as -> end.
  match goal with H : UserRepository.insert_user_stmt _ _ = _ |- _ =>
    unfold UserRepository.insert_user_stmt in H end.
  case_bool_decide; [|done]. insert_inv Hi. eexists. split_and!; try done; eassumption.
Qed.

Lemma browser_add_inv user ua w s w' :
  BrowserSessionRepository.add user ua w = (Ok s, w') →
  same_committed w w' ∧ ∃ t, BrowserSession.user s = user ∧
    user_sessions (w_txn w) !! BrowserSession.id s = None ∧
    w_txn w' = set_rows (<[BrowserSession.id s :=
                             UserSessionRow.mk (BrowserSession.id s) (User.id user) t None ua None
                               None]> (user_sessions (w_txn w))) (w_txn w).
Proof.
  intros H. op_inv H. world_simpl. insert_inv Hi. split; [same_world|].
  eexists. split_and!; try done; eassumption.
Qed.

(** One row more, about a user. *)
Definition row_added {Row} (row : Ulid → DateTime → Row) (m m' : gmap Z Row) : Prop :=
  ∃ id t, m !! id = None ∧ m' = <[id := row id t]> m.

Lemma add_email_inv user email w u w' :
  RegisterEnd.when_some email (RegisterEnd.add_email user) w = (Ok u, w') →
  same_committed w w' ∧ ∃ m,
    match email with
    | None => m = user_emails (w_txn w)
    | Some a => row_added (λ id, UserEmailLookup.mk id (User.id user)
                                   (UserEmailAuthentication.email a)) (user_emails (w_txn w)) m
    end ∧ w_txn w' = set_rows m (w_txn w).
Proof.
  destruct email as [a|]; unfold RegisterEnd.when_some, RegisterEnd.add_email.
  - intros (e & w1 & H1%repo_Ok & [= _ <-])%bind_Ok_inv. op_inv H1. world_simpl. insert_inv Hi.
    split; [same_world|]. eexists. split; [|eassumption].
    eexists _, _. split; [eassumption|done].
  - intros [= _ <-]. split; [done|]. eexists. split; [done|]. by destruct (w_txn w).
Qed.

(** A session is authenticated with a password. *)
Lemma authenticate_password_inv s p w a w' :
  SessionAuthentications.authenticate_with_password s p w = (Ok a, w') →
  same_committed w w' ∧ ∃ m : gmap Z AuthenticationRow.t, w_txn w' = set_rows m (w_txn w).
Proof.
  intros H. op_inv H. world_simpl. split; [same_world|].
  match goal with H : SessionAuthentications.insert_authentication_stmt _ _ = _ |- _ =>
    unfold SessionAuthentications.insert_authentication_stmt in H;
    destruct (insert_stmt _ _ _ _) as [[? d1]|] eqn:Hi; [injection H as _ <- | discriminate H] end.
  apply insert_stmt_inv in Hi as (_ & _ & _ & ->). eexists. reflexivity.
Qed.

Lemma add_password_inv user s password w u w' :
  RegisterEnd.when_some password (RegisterEnd.add_password user s) w = (Ok u, w') →
  same_committed w w' ∧ ∃ m (ma : gmap Z AuthenticationRow.t),
    match password with
    | None => m = user_passwords (w_txn w)
    | Some p => row_added (λ id, UserPasswordLookup.mk id (User.id user)
                                   (UserRegistrationPassword.hashed_password p)
                                   (UserRegistrationPassword.version p) None)
                  (user_passwords (w_txn w)) m
    end ∧ w_txn w' = set_rows ma (set_rows m (w_txn w)).
Proof.
  destruct password as [p|]; unfold RegisterEnd.when_some, RegisterEnd.add_password.
  - intros (row & w1 & H1%repo_Ok & H)%bind_Ok_inv.
    apply bind_Ok_inv in H as (a & w2 & [K2 (ma & T2)]%repo_Ok%authenticate_password_inv & [= _ <-]).
    op_inv H1. world_simpl. insert_inv Hi. split.
    + transitivity w1; [same_world | done].
    + eexists _, ma. split; [eexists _, _; split; [eassumption|done]|].
      rewrite T2. by f_equal.
  - intros [= _ <-]. split; [done|]. eexists _, (user_session_authentications (w_txn w)).
    split; [done|]. by destruct (w_txn w).
Qed.

(** The link of an identity is given its user. *)
Definition link_given (uid : Ulid) (l : UpstreamOAuthLink.t) (m : gmap Z LinkLookup.t) :
    gmap Z LinkLookup.t :=
  alter (UpstreamOAuthLinkRepository.with_user_id (Some uid)) (UpstreamOAuthLink.id l) m.

Lemma associate_inv l user w u w' :
  UpstreamOAuthLinkRepository.associate_to_user l user w = (Ok u, w') →
  same_committed w w' ∧
  w_txn w' = set_rows (link_given (User.id user) l (links_of (w_txn w))) (w_txn w).
Proof.
  intros H. op_inv H. world_simpl. split; [same_world|].
  match goal with H : update_stmt _ _ _ _ = _ |- _ => unfold update_stmt in H end.
  unfold link_given, links_of in *. simpl in *.
  destruct (upstream_oauth_links _ !! _) as [row|] eqn:Hrow.
  - destruct (exists_row _ _); [|done]. simplify_eq/=.
    match goal with H : _ = w_txn w' |- _ => rewrite <-H end.
    by rewrite (alter_Some _ _ _ _ Hrow).
  - simplify_eq/=. match goal with H : _ = w_txn w' |- _ => rewrite <-H end.
    rewrite (alter_None _ _ _ Hrow).
    by destruct (w_txn w) as [? ? ? ? ? ? ? ? ? ? ? ? ? ? ? ? ? ? ? ? ? ? []].
Qed.

(** A database whose table is what it was. *)
Lemma same_rows d :
  d = set_rows (upstream_oauth_authorization_sessions (accounts d)) d ∧
  d = set_rows (user_terms (accounts d)) d.
Proof. by destruct d as [? ? ? ? ? ? ? ? ? ? ? ? ? ? ? ? ? ? ? ? ? ? []]. Qed.

Lemma consume_upstream_inv s b w s' w' :
  UpstreamOAuthSessionRepository.consume s b w = (Ok s', w') →
  same_committed w w' ∧ ∃ m : gmap Z UpstreamSessionLookup.t, w_txn w' = set_rows m (w_txn w).
Proof.
  intros H. op_inv H. world_simpl. split; [same_world|].
  match goal with H : update_stmt _ _ _ _ = _ |- _ =>
    apply update_stmt_any in H as [Ht|(row & _ & _ & Ht)]; rewrite Ht end.
  - eexists. apply same_rows.
  - eexists. reflexivity.
Qed.

Lemma authenticate_upstream_inv s u w a w' :
  SessionAuthentications.authenticate_with_upstream s u w = (Ok a, w') →
  same_committed w w' ∧ ∃ (m : gmap Z AuthenticationRow.t) (ms : gmap Z UpstreamSessionLookup.t),
    w_txn w' = set_rows ms (set_rows m (w_txn w)).
Proof.
  intros H. op_inv H. world_simpl. split; [same_world|].
  match goal with H : SessionAuthentications.insert_authentication_stmt _ _ = _ |- _ =>
    unfold SessionAuthentications.insert_authentication_stmt in H;
    destruct (insert_stmt _ _ _ _) as [[? d1]|] eqn:Hi; [injection H as _ <- | discriminate H] end.
  apply insert_stmt_inv in Hi as (_ & _ & _ & ->). eexists _, _. reflexivity.
Qed.

Lemma add_upstream_inv user s upstream w u w' :
  RegisterEnd.when_some upstream (RegisterEnd.add_upstream user s) w = (Ok u, w') →
  same_committed w w' ∧ ∃ (m : gmap Z AuthenticationRow.t) (ms : gmap Z UpstreamSessionLookup.t) ml,
    ml = match upstream with
         | None => links_of (w_txn w)
         | Some x => link_given (User.id user) x.2 (links_of (w_txn w))
         end ∧ w_txn w' = set_rows ms (set_rows m (set_rows ml (w_txn w))).
Proof.
  destruct upstream as [[us l]|]; unfold RegisterEnd.when_some, RegisterEnd.add_upstream.
  - intros (us' & w1 & [K1 (m1 & T1)]%repo_Ok%consume_upstream_inv & H)%bind_Ok_inv.
    apply bind_Ok_inv in H as (? & w2 & [K2 T2]%repo_Ok%associate_inv & H).
    apply bind_Ok_inv in H as (a & w3 & [K3 (m & ms & T3)]%repo_Ok%authenticate_upstream_inv & [= _ <-]).
    split; [transitivity w1; [|transitivity w2]; done|]. exists m, ms. eexists. split; [done|].
    rewrite T3, T2, T1. reflexivity.
  - intros [= _ <-]. split; [done|].
    exists (user_session_authentications (w_txn w)), (upstream_sessions_of (w_txn w)).
    eexists. split; [done|]. by destruct (w_txn w) as [? ? ? ? ? ? ? ? ? ? ? ? ? ? ? ? ? ? ? ? ? ? []].
Qed.

Lemma accept_terms_inv user (url : option Url) w u w' :
  RegisterEnd.when_some url (λ x, repo (UserTermsRepository.accept_terms user x)) w = (Ok u, w') →
  same_committed w w' ∧ ∃ m : gmap Z UserTermsRow.t, w_txn w' = set_rows m (w_txn w).
Proof.
  destruct url as [x|]; unfold RegisterEnd.when_some.
  - intros H%repo_Ok. op_inv H. world_simpl. split; [same_world|].
    match goal with H : UserTermsRepository.insert_terms_stmt _ _ = _ |- _ =>
      apply insert_terms_any in H as [Ht|(_ & _ & _ & Ht)]; rewrite Ht end.
    + eexists. apply same_rows.
    + eexists. reflexivity.
  - intros [= _ <-]. split; [done|]. eexists. apply same_rows.
Qed.

(** The user of a registration: alone with its name, its session, its address,
    its password and its identity at a provider. *)
Record account_created reg (email : option UserEmailAuthentication.t)
    (upstream : option (UpstreamOAuthAuthorizationSession.t * UpstreamOAuthLink.t))
    (ua : option string) (uid bid : Ulid) d d' : Prop := {
  ac_user : users d !! uid = None ∧ ∃ t,
    users d' = <[uid := UserLookup.mk uid (UserRegistration.username reg) t None None false false]>
                 (users d);
  ac_session : user_sessions d !! bid = None ∧ ∃ t,
    user_sessions d' = <[bid := UserSessionRow.mk bid uid t None ua None None]> (user_sessions d);
  ac_email :
    match email with
    | None => user_emails d' = user_emails d
    | Some a => row_added (λ id, UserEmailLookup.mk id uid (UserEmailAuthentication.email a))
                  (user_emails d) (user_emails d')
    end;
  ac_password :
    match UserRegistration.password reg with
    | None => user_passwords d' = user_passwords d
    | Some p => row_added (λ id, UserPasswordLookup.mk id uid
                                   (UserRegistrationPassword.hashed_password p)
                                   (UserRegistrationPassword.version p) None)
                  (user_passwords d) (user_passwords d')
    end;
  ac_links :
    links_of d' = match upstream with
                  | None => links_of d
                  | Some x => link_given uid x.2 (links_of d)
                  end;
  ac_sessions :
    oauth2_sessions d' = oauth2_sessions d ∧ oauth2_access_tokens d' = oauth2_access_tokens d ∧
    oauth2_refresh_tokens d' = oauth2_refresh_tokens d ∧ compat_sessions d' = compat_sessions d ∧
    compat_access_tokens d' = compat_access_tokens d ∧ personal_sessions d' = personal_sessions d;
}.

Lemma create_user_inv ua reg email upstream w s w' :
  RegisterEnd.create_user ua reg email upstream w = (Ok s, w') →
  same_committed w w' ∧
  account_created reg email upstream ua (User.id (BrowserSession.user s)) (BrowserSession.id s)
    (w_txn w) (w_txn w') ∧
  registrations_of (w_txn w') = registrations_of (w_txn w) ∧
  tokens_of (w_txn w') = tokens_of (w_txn w).
Proof.
  intros H. assert (same_committed w w') as Hc by (eapply keeps_run; [|exact H]; keeps_tac).
  split; [done|]. unfold RegisterEnd.create_user in H.
  apply bind_Ok_inv in H as (user & w1 & [_ (t1 & Hn & Hfree & T1)]%repo_Ok%user_add_inv & H).
  apply bind_Ok_inv in H as (session & w2 & [_ (t2 & Hu & Hs & T2)]%repo_Ok%browser_add_inv & H).
  apply bind_Ok_inv in H as (? & w3 & [_ (me & He & T3)]%add_email_inv & H).
  apply bind_Ok_inv in H as (? & w4 & [_ (mp & ma & Hp & T4)]%add_password_inv & H).
  apply bind_Ok_inv in H as (? & w5 & [_ (mb & ms & ml & Hl & T5)]%add_upstream_inv & H).
  apply bind_Ok_inv in H as (? & w6 & [_ (mt & T6)]%accept_terms_inv & H).
  apply bind_Ok_inv in H as (? & w7 & [_ (mj & T7)]%repo_Ok%schedule_job_inv & [= <- <-]).
  subst user. rewrite T4, T3, T2, T1 in Hl. rewrite T3, T2, T1 in Hp. rewrite T2, T1 in He.
  rewrite T1 in Hs. rewrite T6, T5, T4, T3, T2, T1 in T7. rewrite T7.
  clear T1 T2 T3 T4 T5 T6 T7 Hc.
  split; [|done].
  split; [split; [done|by exists t1]|split; [done|by exists t2]|..]; simpl in *.
  - by destruct email; [|subst].
  - by destruct (UserRegistration.password reg); [|subst].
  - by subst ml; destruct upstream.
  - done.
Qed.

(** *** The last step of a registration *)

(** Every check on the registration. *)
Record finish_allowed (cfg : AccountConfig) (cookies : RegisterJar) (id : Ulid) reg
    (token : option UserRegistrationToken.t) (email : option UserEmailAuthentication.t)
    (upstream : option (UpstreamOAuthAuthorizationSession.t * UpstreamOAuthLink.t))
    (t1 t2 : DateTime) d : Prop := {
  fa_registration :
    reads_row registrations_of UserRegistrationRepository.try_from id d reg;
  fa_pending : UserRegistration.completed_at reg = None;
  fa_recent : t1 - UserRegistration.created_at reg <= 3600 * 1000000;
  fa_cookie :
    UserRegistration.id reg ∈ UserRegistrationSessions.load (registrations cookies);
  fa_username :
    free_localpart (UserRegistration.username reg) = true ∧
    ∀ k r, users d !! k = Some r →
      pg_lower (UserLookup.username r) ≠ pg_lower (UserRegistration.username reg);
  fa_token : token_checked cfg d reg t2 token;
  fa_email : email_checked d reg email;
  fa_upstream : upstream_checked d reg upstream;
  fa_name : UserRegistration.display_name reg ≠ None;
}.

(** The registration is completed, its token used once more, and its user
    created. *)
Record registered reg (token : option UserRegistrationToken.t)
    (email : option UserEmailAuthentication.t)
    (upstream : option (UpstreamOAuthAuthorizationSession.t * UpstreamOAuthLink.t))
    (ua : option string) (uid bid : Ulid) d d' : Prop := {
  rg_completed : ∃ t row,
    registrations_of d !! UserRegistration.id reg = Some row ∧
    UserRegistrationLookup.completed_at row = None ∧
    registrations_of d' = <[UserRegistration.id reg :=
                              UserRegistrationRepository.with_completed_at t row]>
                            (registrations_of d);
  rg_token :
    match token with
    | None => tokens_of d' = tokens_of d
    | Some x => ∃ t row,
        tokens_of d !! UserRegistrationToken.id x = Some row ∧
        UserRegistrationTokenLookup.revoked_at row = None ∧
        tokens_of d' = <[UserRegistrationToken.id x :=
                           UserRegistrationTokenRepository.with_use t row]> (tokens_of d)
    end;
  rg_account : account_created reg email upstream ua uid bid d d';
}.

Lemma use_some_token_inv token w u w' :
  RegisterEnd.when_some token (λ x, do! repo (UserRegistrationTokenRepository.use_token x); ret tt) w
    = (Ok u, w') →
  same_committed w w' ∧ ∃ m, w_txn w' = set_rows m (w_txn w) ∧
    match token with
    | None => m = tokens_of (w_txn w)
    | Some x => ∃ t row, tokens_of (w_txn w) !! UserRegistrationToken.id x = Some row ∧
        UserRegistrationTokenLookup.revoked_at row = None ∧
        m = <[UserRegistrationToken.id x := UserRegistrationTokenRepository.with_use t row]>
              (tokens_of (w_txn w))
    end.
Proof.
  destruct token as [x|]; unfold RegisterEnd.when_some.
  - intros (x' & w1 & [K (t & row & Hrow & Hr & T)]%repo_Ok%use_token_inv & [= _ <-])%bind_Ok_inv.
    split; [done|]. eexists. split; [exact T|]. eauto.
  - intros [= _ <-]. split; [done|]. eexists. split; [|done].
    by destruct (w_txn w) as [? ? ? ? ? ? ? ? ? ? ? ? ? ? ? ? ? ? ? ? ? ? []].
Qed.

(** What the last step writes, when it commits. *)
Lemma complete_inv ip ua cookies reg token email upstream w r w' :
  RegisterEnd.complete ip ua cookies reg token email upstream w = (r, w') →
  w_committed w' = w_committed w ∨ ∃ uid bid,
    registered reg token email upstream ua uid bid (w_txn w) (w_committed w') ∧
    ∀ page c, r = Ok (page, c) → Graphql.current (session_info (jar c)) = Some bid.
Proof.
  intros H. unfold RegisterEnd.complete in H. assert (same_committed w w) as K by done.
  commit_step H K reg' w1 H1. apply repo_Ok, complete_registration_inv in H1
    as (_ & t & row & Hrow & Hpending & -> & T1).
  commit_step H K u2 w2 H2. apply use_some_token_inv in H2 as (_ & m2 & T2 & Hm2).
  commit_step H K sessions w3 H3. apply lift_inv in H3 as [_ ->].
  commit_step H K t4 w4 H4. apply now_inv in H4 as [-> (T4 & _)].
  commit_step H K s w5 H5. apply create_user_inv in H5 as (_ & Hac & Hreg & Htok).
  apply commit_save_inv in H as [H|(w6 & Hw & H)]; [| |keeps_tac].
  { left. rewrite H. apply K. }
  right. exists (User.id (BrowserSession.user s)), (BrowserSession.id s).
  rewrite Hw. rewrite T4, T2, T1 in *. split.
  - split.
    + exists t, row. by split_and!.
    + destruct token as [x|]; [|by subst m2; rewrite Htok].
      destruct Hm2 as (t' & trow & Ht & Hr & ->). exists t', trow. by split_and!.
    + destruct Hac. by split.
  - intros page c ->. apply bind_Ok_inv in H as (? & w7 & _ & H).
    apply bind_Ok_inv in H as (action & w8 & _ & [= _ <- _]). done.
Qed.

Lemma same_db_step w w1 d c :
  w_txn w = d → w_clock w = c → same_db w w1 → w_txn w1 = d ∧ w_clock w1 = c.
Proof. intros Ht Hk (T & _ & K). split; congruence. Qed.

(** C7: a registration is finished only when every check passed: it exists, is not
    completed, is less than an hour old and was started by this browser; its name
    is free here and on the homeserver; it carries a valid token when one is needed;
    its address was confirmed and belongs to nobody; its identity at a provider is
    not linked; and a display name was chosen. Then the registration is marked
    as completed, its token counted as used once more, and one user is created with
    its browser session, address, password and link, in one commit; no other
    session or token is touched, and the cookie is the new session's. In every
    other case nothing is committed. *)
Theorem registration_finished ip cfg ua cookies id w r w' :
  RegisterEnd.register_finish_request ip cfg ua cookies id w = (r, w') →
  w_committed w' = w_committed w ∨
  ∃ reg token email upstream n m uid bid,
    finish_allowed cfg cookies id reg token email upstream (w_clock w n) (w_clock w m)
      (w_committed w) ∧
    registered reg token email upstream ua uid bid (w_committed w) (w_committed w') ∧
    ∀ page c, r = Ok (page, c) → Graphql.current (session_info (jar c)) = Some bid.
Proof.
  intros H. unfold RegisterEnd.register_finish_request, RegisterEnd.get in H.
  assert (same_committed w w) as K by done.
  commit_step H K u0 w0 H0. apply repo_Ok, from_pool_inv in H0 as [T0 [_ C0]].
  commit_step H K reg w1 H1. apply load_registration_inv in H1 as [D1 Hreg]. rewrite T0 in Hreg.
  destruct (same_db_step _ _ _ _ T0 C0 D1) as [T1 C1]. clear D1 T0 C0.
  destruct (is_completed reg) eqn:Hpending.
  { commit_step H K answer w2 H2. left. injection H as _ <-. apply K. }
  apply bool_decide_eq_false, eq_None_not_Some in Hpending.
  commit_step H K t1 w2 H2. apply now_inv in H2 as [-> D2].
  destruct (same_db_step _ _ _ _ T1 C1 D2) as [T2 C2]. rewrite C1 in H.
  destruct (RegisterEnd.HOUR <? _) eqn:Hrecent; [left; injection H as _ <-; apply K|].
  apply Z.ltb_ge in Hrecent.
  destruct (UserRegistrationSessions.contains reg _) eqn:Hcookie;
    [|left; injection H as _ <-; apply K].
  apply bool_decide_eq_true in Hcookie. cbn [negb] in H.
  commit_step H K u3 w3 H3. apply check_username_inv in H3 as (D3 & Hlocal & Hname).
  rewrite T2 in Hname. destruct (same_db_step _ _ _ _ T2 C2 D3) as [T3 C3].
  commit_step H K token w4 H4.
  destruct token as [token|page]; [|left; injection H as _ <-; apply K].
  apply check_token_inv in H4 as (D4 & m & Htoken). rewrite T3, C3 in Htoken.
  destruct (same_db_step _ _ _ _ T3 C3 D4) as [T4 C4].
  commit_step H K email w5 H5.
  destruct email as [email|page]; [|left; injection H as _ <-; apply K].
  apply check_email_inv in H5 as [D5 Hemail]. rewrite T4 in Hemail.
  destruct (same_db_step _ _ _ _ T4 C4 D5) as [T5 C5].
  commit_step H K upstream w6 H6. apply check_upstream_inv in H6 as [D6 Hupstream].
  rewrite T5 in Hupstream. destruct (same_db_step _ _ _ _ T5 C5 D6) as [T6 C6].
  case_bool_decide as Hdisplay; [left; injection H as _ <-; apply K|].
  apply complete_inv in H as [H|(uid & bid & Hreg' & Hpage)]; [left; rewrite H; apply K|right].
  rewrite T6 in Hreg'. exists reg, token, email, upstream, (w_ticks w1), m, uid, bid.
  split; [|by split]. by split.
Qed.
End Writes.

(** ** Witness *)
Section Witnesses.
Import Scenario AccountScenario.

Definition finish_run :=
  RegisterEnd.register_finish_request None account_config (Some "browser"%string) bob_cookies 10
    account_world.
Definition bobs d := filter (λ r, UserLookup.username r = "bob"%string) (map_to_list (users d)).*2.

Lemma registration_finished_witness :
  bool_decide (bobs (w_committed finish_run.2) = []) = false ∧
  (w_committed finish_run.2 = account_db ∨
   ∃ reg token email upstream n m uid bid,
     finish_allowed account_config bob_cookies 10 reg token email upstream (clock n) (clock m)
       account_db ∧
     registered reg token email upstream (Some "browser"%string) uid bid account_db
       (w_committed finish_run.2) ∧
     ∀ page c, finish_run.1 = Ok (page, c) → Graphql.current (session_info (jar c)) = Some bid).
Proof.
  split; [vm_compute; reflexivity|].
  apply (registration_finished None account_config (Some "browser"%string) bob_cookies 10
           account_world finish_run.1 finish_run.2).
  unfold finish_run. by destruct (RegisterEnd.register_finish_request _ _ _ _ _ _).
Defined.
End Witnesses.
