(* ===== verification/UpstreamFacts.v ===== *)
(** * Correctness of the upstream providers and of the registration tokens

    The authorization sessions of [UpstreamRepo] against the state machine of
    [UpstreamModel], what is read back of a provider that is written, and the
    filters on registration tokens against their validity. *)

From stdpp Require Import base tactics list strings gmap.
From Stdlib Require Import ZArith Lia.
From S2P Require Import Prelude Text Scope Externals Formats Pagination TokenFormat DataModel CompatModel UpstreamModel AccountModel Storage TokenRepo GrantRepo QueueRepo UserRepo UpstreamRepo AccountRepo Triples RepoFacts CompatRepoFacts Integrity.
#[local] Open Scope Z_scope.

(** ** Authorization sessions *)

(** A row and the session it is read as. *)
Definition stands_for (d : Db) (s : UpstreamOAuthAuthorizationSession.t) : Prop :=
  ∃ r, upstream_oauth_authorization_sessions (accounts d)
         !! UpstreamOAuthAuthorizationSession.id s = Some r ∧
       UpstreamOAuthSessionRepository.try_from r = Ok s.

Lemma try_from_inv r s :
  UpstreamOAuthSessionRepository.try_from r = Ok s →
  UpstreamOAuthSessionRepository.state_of r = Ok (UpstreamOAuthAuthorizationSession.state s) ∧
  s = UpstreamOAuthAuthorizationSession.mk
        (UpstreamSessionLookup.upstream_oauth_authorization_session_id r)
        (UpstreamOAuthAuthorizationSession.state s)
        (UpstreamSessionLookup.upstream_oauth_provider_id r) (UpstreamSessionLookup.state r)
        (UpstreamSessionLookup.code_challenge_verifier r) (UpstreamSessionLookup.nonce r)
        (UpstreamSessionLookup.created_at r).
Proof.
  unfold UpstreamOAuthSessionRepository.try_from.
  destruct (UpstreamOAuthSessionRepository.state_of r) as [st|]; [|done].
  intros [= <-]. done.
Qed.

(** The columns of a pending row, and of a completed one. *)
Lemma state_of_pending r :
  UpstreamOAuthSessionRepository.state_of r = Ok UpstreamOAuthAuthorizationSessionState.Pending →
  UpstreamSessionLookup.consumed_at r = None ∧ UpstreamSessionLookup.unlinked_at r = None.
Proof.
  unfold UpstreamOAuthSessionRepository.state_of. by repeat case_match.
Qed.

Lemma state_of_completed r t l i c e u :
  UpstreamOAuthSessionRepository.state_of r
    = Ok (UpstreamOAuthAuthorizationSessionState.Completed t l i c e u) →
  UpstreamSessionLookup.completed_at r = Some t ∧
  UpstreamSessionLookup.upstream_oauth_link_id r = Some l ∧
  UpstreamSessionLookup.id_token r = i ∧ UpstreamSessionLookup.id_token_claims r = c ∧
  UpstreamSessionLookup.extra_callback_parameters r = e ∧ UpstreamSessionLookup.userinfo r = u ∧
  UpstreamSessionLookup.unlinked_at r = None.
Proof.
  unfold UpstreamOAuthSessionRepository.state_of. repeat case_match; intros; simplify_eq/=; done.
Qed.

Section Sessions.
Context {R : Type} `{!RngCore R} {pg_json : PgJson} {pg_pattern : PgPattern}.
Implicit Types w : World R.

Lemma complete_stored s link i c e u w s' w' :
  stands_for (w_txn w) s →
  UpstreamOAuthSessionRepository.complete_with_link s link i c e u w = (Ok s', w') →
  (∃ t, UpstreamOAuthAuthorizationSession.complete s t link i c e u = Ok s') ∧
  stands_for (w_txn w') s'.
Proof.
  intros (r & Hr & Hs) H. apply try_from_inv in Hs as [Hst Heq]. op_inv H. world_simpl.
  match goal with Hc : Ok _ = map_err _ _ |- _ => apply map_err_Ok in Hc; rename Hc into Hcomplete end.
  split; [by eexists|]. unfold UpstreamOAuthAuthorizationSession.complete in Hcomplete.
  destruct (UpstreamOAuthAuthorizationSession.state s) eqn:Hstate; [|done..].
  injection Hcomplete as <-. apply state_of_pending in Hst as [Hcons Hunl].
  match goal with H : update_stmt _ _ _ _ = _ |- _ => unfold update_stmt in H; simpl in H;
    rewrite Hr in H; destruct (exists_row _ _); [injection H as _ <-|discriminate H] end.
  eexists. split; [apply lookup_insert_eq|].
  unfold UpstreamOAuthSessionRepository.try_from, UpstreamOAuthSessionRepository.state_of. simpl.
  rewrite Hcons, Hunl. rewrite Heq. done.
Qed.

Lemma consume_stored s b w s' w' :
  stands_for (w_txn w) s →
  UpstreamOAuthSessionRepository.consume s b w = (Ok s', w') →
  (∃ t, UpstreamOAuthAuthorizationSession.consume s t = Ok s') ∧ stands_for (w_txn w') s'.
Proof.
  intros (r & Hr & Hs) H. apply try_from_inv in Hs as [Hst Heq]. op_inv H. world_simpl.
  match goal with Hc : Ok _ = map_err _ _ |- _ => apply map_err_Ok in Hc; rename Hc into Hconsume end.
  split; [by eexists|]. unfold UpstreamOAuthAuthorizationSession.consume in Hconsume.
  destruct (UpstreamOAuthAuthorizationSession.state s) eqn:Hstate; [done| |done..].
  injection Hconsume as <-.
  apply state_of_completed in Hst as (Hcomp & Hlink & Hi & Hc & He & Hu & Hunl).
  match goal with H : update_stmt _ _ _ _ = _ |- _ => unfold update_stmt in H; simpl in H;
    rewrite Hr in H; destruct (exists_row _ _); [injection H as _ <-|discriminate H] end.
  eexists. split; [apply lookup_insert_eq|].
  unfold UpstreamOAuthSessionRepository.try_from, UpstreamOAuthSessionRepository.state_of. simpl.
  rewrite Hcomp, Hlink, Hi, Hc, He, Hu, Hunl. rewrite Heq. done.
Qed.

(** The state of a session whose link is removed. *)
Definition unlinked (t : DateTime) (st : UpstreamOAuthAuthorizationSessionState.t) :
    option UpstreamOAuthAuthorizationSessionState.t :=
  completed ← UpstreamOAuthAuthorizationSessionState.completed_at st;
  Some (UpstreamOAuthAuthorizationSessionState.Unlinked completed
          (UpstreamOAuthAuthorizationSessionState.consumed_at st) t
          (UpstreamOAuthAuthorizationSessionState.id_token st)
          (UpstreamOAuthAuthorizationSessionState.id_token_claims st)).

Lemma state_of_linked r st l :
  UpstreamOAuthSessionRepository.state_of r = Ok st →
  UpstreamOAuthAuthorizationSessionState.link_id st = Some l →
  UpstreamSessionLookup.upstream_oauth_link_id r = Some l ∧
  is_Some (UpstreamSessionLookup.completed_at r) ∧
  ∀ t, unlinked t st = Some (UpstreamOAuthAuthorizationSessionState.Unlinked
    (default 0 (UpstreamSessionLookup.completed_at r)) (UpstreamSessionLookup.consumed_at r) t
    (UpstreamSessionLookup.id_token r) (UpstreamSessionLookup.id_token_claims r)).
Proof.
  unfold UpstreamOAuthSessionRepository.state_of.
  repeat case_match; intros; simplify_eq/=; eauto.
Qed.

Lemma remove_stored link w w' s :
  UpstreamOAuthLinkRepository.remove link w = (Ok tt, w') → stands_for (w_txn w) s →
  UpstreamOAuthAuthorizationSession.link_id s = Some (UpstreamOAuthLink.id link) →
  ∃ t st, unlinked t (UpstreamOAuthAuthorizationSession.state s) = Some st ∧
    stands_for (w_txn w') (UpstreamOAuthAuthorizationSession.with_state s st).
Proof.
  intros H (r & Hr & Hs) Hlink. apply try_from_inv in Hs as [Hst Heq]. op_inv H. world_simpl.
  match goal with H : update_where_stmt _ _ _ = _ |- _ => injection H as _ Hd end.
  match goal with H : delete_links_stmt _ _ = _ |- _ => unfold delete_links_stmt in H;
    case_bool_decide; [injection H as _ Hd'|discriminate H] end.
  destruct (state_of_linked _ _ _ Hst Hlink) as (Hl & [c Hc] & Hun).
  eexists _, _. split; [apply Hun|].
  exists (UpstreamOAuthLinkRepository.with_unlinked (w_clock w (w_ticks w)) r). split.
  - rewrite <-Hd'. simpl. rewrite <-Hd. simpl. rewrite lookup_fmap.
    simpl in Hr. rewrite Hr. simpl. by rewrite bool_decide_eq_true_2.
  - unfold UpstreamOAuthSessionRepository.try_from, UpstreamOAuthSessionRepository.state_of. simpl.
    rewrite Hc, Heq.
    by destruct (UpstreamSessionLookup.id_token r), (UpstreamSessionLookup.id_token_claims r),
      (UpstreamSessionLookup.extra_callback_parameters r), (UpstreamSessionLookup.userinfo r),
      (UpstreamSessionLookup.consumed_at r).
Qed.

(** C11: the authorization sessions of the upstream providers follow their state
    machine in the database: completing a session with a link, or consuming it,
    succeeds only from the state the machine allows, and the row that is written
    reads back as the state the machine gives; removing a link leaves its
    sessions readable, as unlinked. *)
Theorem upstream_sessions_refine s w :
  stands_for (w_txn w) s →
  (∀ link i c e u s' w',
     UpstreamOAuthSessionRepository.complete_with_link s link i c e u w = (Ok s', w') →
     (∃ t, UpstreamOAuthAuthorizationSession.complete s t link i c e u = Ok s') ∧
     stands_for (w_txn w') s') ∧
  (∀ b s' w', UpstreamOAuthSessionRepository.consume s b w = (Ok s', w') →
     (∃ t, UpstreamOAuthAuthorizationSession.consume s t = Ok s') ∧ stands_for (w_txn w') s') ∧
  (∀ link w', UpstreamOAuthLinkRepository.remove link w = (Ok tt, w') →
     UpstreamOAuthAuthorizationSession.link_id s = Some (UpstreamOAuthLink.id link) →
     ∃ t st, unlinked t (UpstreamOAuthAuthorizationSession.state s) = Some st ∧
       stands_for (w_txn w') (UpstreamOAuthAuthorizationSession.with_state s st)).
Proof.
  intros Hs. split_and!; intros.
  - by eapply complete_stored.
  - by eapply consume_stored.
  - by eapply remove_stored.
Qed.
End Sessions.

(** ** Providers *)

(** What the parsers of the columns accept. *)
Record readable_params `{!UrlLib} (p : UpstreamOAuthProviderParams.t) : Prop := {
  rp_scope : scope_ok (UpstreamOAuthProviderParams.scope p) ∧
             UpstreamOAuthProviderParams.scope p ≠ [];
  rp_urls : ∀ u, u ∈ [UpstreamOAuthProviderParams.authorization_endpoint_override p;
                      UpstreamOAuthProviderParams.token_endpoint_override p;
                      UpstreamOAuthProviderParams.userinfo_endpoint_override p;
                      UpstreamOAuthProviderParams.jwks_uri_override p] →
             ∀ v, u = Some v → url_parse v = Some v;
}.

Section Providers.
Context {R : Type} `{!RngCore R} {url_lib : UrlLib}.
Implicit Types w : World R.

Lemma parsed_url col id u :
  (∀ v, u = Some v → url_parse v = Some v) →
  UpstreamOAuthProviderRepository.parsed_opt col id url_parse u = Ok u.
Proof.
  intros Hu. unfold UpstreamOAuthProviderRepository.parsed_opt, UpstreamOAuthProviderRepository.parsed.
  destruct u as [v|]; [|done]. by rewrite (Hu v eq_refl).
Qed.

(** The provider with other parameters. *)
Definition provider_with (additional : list (string * string)) (p : UpstreamOAuthProviderParams.t) :
    UpstreamOAuthProviderParams.t :=
  let P := p in
  UpstreamOAuthProviderParams.mk (UpstreamOAuthProviderParams.issuer P)
    (UpstreamOAuthProviderParams.human_name P) (UpstreamOAuthProviderParams.brand_name P)
    (UpstreamOAuthProviderParams.scope P) (UpstreamOAuthProviderParams.token_endpoint_auth_method P)
    (UpstreamOAuthProviderParams.token_endpoint_signing_alg P)
    (UpstreamOAuthProviderParams.id_token_signed_response_alg P)
    (UpstreamOAuthProviderParams.fetch_userinfo P)
    (UpstreamOAuthProviderParams.userinfo_signed_response_alg P)
    (UpstreamOAuthProviderParams.client_id P)
    (UpstreamOAuthProviderParams.encrypted_client_secret P)
    (UpstreamOAuthProviderParams.claims_imports P)
    (UpstreamOAuthProviderParams.authorization_endpoint_override P)
    (UpstreamOAuthProviderParams.token_endpoint_override P)
    (UpstreamOAuthProviderParams.userinfo_endpoint_override P)
    (UpstreamOAuthProviderParams.jwks_uri_override P)
    (UpstreamOAuthProviderParams.discovery_mode P) (UpstreamOAuthProviderParams.pkce_mode P)
    (UpstreamOAuthProviderParams.response_mode P) additional
    (UpstreamOAuthProviderParams.forward_login_hint P)
    (UpstreamOAuthProviderParams.pg_app_scheme P) (UpstreamOAuthProviderParams.ui_order P)
    (UpstreamOAuthProviderParams.on_backchannel_logout P)
    (UpstreamOAuthProviderParams.registration_token_required P).

(** A row that is written from parameters, whenever it was created. *)
Lemma row_of_readable id p additional order t :
  readable_params p →
  UpstreamOAuthProviderRepository.try_from
    (UpstreamOAuthProviderRepository.row_of id p additional order t) =
  Ok (UpstreamOAuthProviderRepository.provider_of id (provider_with (default [] additional) p) t).
Proof.
  intros [[Hok Hne] Hurls]. unfold UpstreamOAuthProviderRepository.try_from. simpl.
  unfold UpstreamOAuthProviderRepository.scope_of.
  rewrite (Scope_reads_back _ Hok Hne). simpl.
  rewrite !parsed_url by (apply Hurls; set_solver).
  destruct p as [? ? ? ? am ? ? ? ? ? ? ? ? ? ? ? dm pm rm ? ? ? ? obl ?]. simpl.
  by destruct am, dm, pm, obl, rm as [[]|].
Qed.
Lemma provider_read_back id row q w w' o :
  upstream_oauth_providers (accounts (w_txn w)) !! id = Some row →
  UpstreamOAuthProviderRepository.try_from row = Ok q →
  UpstreamOAuthProviderRepository.lookup id w = (Ok o, w') → o = Some q.
Proof.
  intros Hrow Hq H. op_inv H. subst.
  match goal with Hd : match ?x with Some _ => _ | None => _ end |- _ =>
    change x with (upstream_oauth_providers (accounts (w_txn w)) !! id) in Hd;
    rewrite Hrow in Hd; destruct Hd as (q' & -> & Hq') end.
  rewrite Hq in Hq'. by injection Hq' as ->.
Qed.

Lemma provider_with_same p :
  provider_with (UpstreamOAuthProviderParams.additional_authorization_parameters p) p = p.
Proof. by destruct p. Qed.

Lemma upsert_inv id p w q w' :
  UpstreamOAuthProviderRepository.upsert id p w = (Ok q, w') →
  ∃ t, upstream_oauth_providers (accounts (w_txn w')) !! id
         = Some (UpstreamOAuthProviderRepository.row_of id p
             (Some (UpstreamOAuthProviderParams.additional_authorization_parameters p))
             (UpstreamOAuthProviderParams.ui_order p) t) ∧
       q = UpstreamOAuthProviderRepository.provider_of id p t.
Proof.
  intros H. op_inv H. subst.
  match goal with H : UpstreamOAuthProviderRepository.upsert_provider_stmt _ _ _ = _ |- _ =>
    injection H as _ Hd end.
  match goal with H : gets _ _ = _ |- _ => unfold gets in H; injection H as Hc <- end.
  subst. rewrite <-Hd. simpl. rewrite lookup_insert_eq.
  destruct (upstream_oauth_providers _ !! id) as [r|]; eexists; split; reflexivity.
Qed.

(** C37: what is written of an upstream provider is what is read: a provider that is
    inserted or updated from the configuration reads back as the value the
    operation returned, the date of creation of an existing one kept. A provider
    that is added instead reads back without its additional authorization
    parameters, although the value returned has them. *)
Theorem provider_reads_back id p :
  readable_params p →
  (∀ w q w', UpstreamOAuthProviderRepository.upsert id p w = (Ok q, w') →
     ∀ o w2, UpstreamOAuthProviderRepository.lookup id w' = (Ok o, w2) → o = Some q) ∧
  (∀ w q w', UpstreamOAuthProviderRepository.add p w = (Ok q, w') →
     UpstreamOAuthProvider.additional_authorization_parameters q
       = UpstreamOAuthProviderParams.additional_authorization_parameters p ∧
     ∀ o w2,
       UpstreamOAuthProviderRepository.lookup (UpstreamOAuthProvider.id q) w' = (Ok o, w2) →
       o = Some (UpstreamOAuthProviderRepository.provider_of (UpstreamOAuthProvider.id q)
                   (provider_with [] p) (UpstreamOAuthProvider.created_at q))).
Proof.
  intros Hp. split.
  - intros w q w' (t & Hrow & ->)%upsert_inv o w2 H.
    eapply provider_read_back; [exact Hrow| |exact H].
    rewrite row_of_readable by done. simpl. by rewrite provider_with_same.
  - intros w q w' H. op_inv H. world_simpl. insert_inv Hi. split; [done|]. intros o w2 Hl.
    eapply provider_read_back; [| |exact Hl].
    + match goal with H : w_txn w' = _ |- _ => rewrite H end. apply lookup_insert_eq.
    + by rewrite row_of_readable.
Qed.
End Providers.

(** ** Registration tokens *)

Lemma u32_of_i32_Some v n : u32_of_i32 v = Some n → n = v.
Proof. unfold u32_of_i32. destruct (0 <=? v); by intros [=]. Qed.

Lemma token_columns r x :
  UserRegistrationTokenRepository.try_from r = Ok x →
  UserRegistrationToken.usage_limit x = UserRegistrationTokenLookup.usage_limit r ∧
  UserRegistrationToken.times_used x = UserRegistrationTokenLookup.times_used r ∧
  UserRegistrationToken.expires_at x = UserRegistrationTokenLookup.expires_at r ∧
  UserRegistrationToken.revoked_at x = UserRegistrationTokenLookup.revoked_at r.
Proof.
  unfold UserRegistrationTokenRepository.try_from.
  destruct (UserRegistrationTokenLookup.usage_limit r) as [l|];
    [destruct (u32_of_i32 l) as [l'|] eqn:Hl; [|done]; apply u32_of_i32_Some in Hl as ->|]; simpl;
    (destruct (u32_of_i32 (UserRegistrationTokenLookup.times_used r)) as [n|] eqn:Hn; [|done]);
    apply u32_of_i32_Some in Hn as ->; intros [= <-]; done.
Qed.

Lemma expiry_earlier now e : (now <=? e) = negb (e <=? now - 1).
Proof. destruct (Z.leb_spec now e), (Z.leb_spec e (now - 1)); done || lia. Qed.

Lemma valid_earlier now r x :
  UserRegistrationTokenRepository.try_from r = Ok x →
  UserRegistrationTokenFilter.valid now r = UserRegistrationToken.is_valid x (now - 1).
Proof.
  intros (Hl & Ht & He & Hr)%token_columns.
  unfold UserRegistrationTokenFilter.valid, UserRegistrationTokenFilter.not_expired,
    UserRegistrationToken.is_valid. rewrite Hl, Ht, He, Hr. clear.
  assert (∀ o : option Z, match o with None => true | Some e => now <=? e end
            = negb match o with Some e => e <=? now - 1 | None => false end) as ->
    by (intros [e|]; [apply expiry_earlier | done]).
  assert (∀ (o : option Z) n, match o with None => true | Some l => n <? l end
            = negb match o with Some l => l <=? n | None => false end) as ->
    by (intros [l|] n; [apply Z.ltb_antisym | done]).
  assert (∀ o : option DateTime, bool_decide (o = None) = negb (bool_decide (is_Some o))) as ->
    by (intros [d|]; done).
  generalize (bool_decide (is_Some (UserRegistrationTokenLookup.revoked_at r))). intros revoked.
  destruct (match UserRegistrationTokenLookup.usage_limit r with Some _ => _ | None => _ end),
    (match UserRegistrationTokenLookup.expires_at r with Some _ => _ | None => _ end), revoked; done.
Qed.

(** C38: the filters of the registration tokens against the validity of a token:
    listing the valid (or the invalid) tokens as of a date selects exactly the rows
    whose token was valid (or was not) at the instant before, so the filter and
    the check that a registration makes agree except at the very microsecond a
    token expires, when it is listed as valid and refused. *)
Theorem token_filter_agrees now b r x :
  UserRegistrationTokenRepository.try_from r = Ok x →
  UserRegistrationTokenFilter.generate_condition
    (UserRegistrationTokenFilter.with_valid b (UserRegistrationTokenFilter.new now)) r
    = eqb b (UserRegistrationToken.is_valid x (now - 1)) ∧
  (UserRegistrationToken.expires_at x ≠ Some now →
   UserRegistrationToken.is_valid x (now - 1) = UserRegistrationToken.is_valid x now) ∧
  (UserRegistrationToken.expires_at x = Some now →
   UserRegistrationToken.is_valid x now = false).
Proof.
  intros Hx. split_and!.
  - unfold UserRegistrationTokenFilter.generate_condition. simpl. rewrite (valid_earlier now r x Hx).
    unfold BrowserSessionFilter.add_option.
    by destruct b, (UserRegistrationToken.is_valid x (now - 1)).
  - intros He. unfold UserRegistrationToken.is_valid.
    destruct (UserRegistrationToken.expires_at x) as [e|]; [|done].
    assert ((e <=? now - 1) = (e <=? now)) as ->; [|done].
    assert (e ≠ now) by congruence. destruct (Z.leb_spec e (now - 1)), (Z.leb_spec e now); done || lia.
  - intros He. unfold UserRegistrationToken.is_valid. rewrite He, Z.leb_refl. by case_bool_decide.
Qed.

(** ** Witnesses *)
Section Witnesses.
Import Counter.
#[local] Instance no_json : PgJson := λ _ _, None.
#[local] Instance same_text : PgPattern := λ s p, bool_decide (s = p).

#[local] Existing Instance counter_rng.

Definition clock (n : nat) : DateTime := 1000000 * Z.of_nat n.
Definition a_link : LinkLookup.t := LinkLookup.mk 2 1 None "subject" None 0.
Definition pending_row : UpstreamSessionLookup.t :=
  UpstreamSessionLookup.mk 3 1 None "state" None None None None None 0 None None None None None.
Definition pending : UpstreamOAuthAuthorizationSession.t :=
  UpstreamOAuthAuthorizationSession.mk 3 UpstreamOAuthAuthorizationSessionState.Pending 1 "state"
    None None 0.
Definition upstream_db : Db :=
  mkDb ∅ ∅ ∅ ∅ ∅ ∅ ∅ ∅ ∅ ∅ ∅ ∅ None ∅ ∅ ∅ ∅ ∅ ∅ ∅ ∅ ∅
    (mkAccounts ∅ ∅ ∅ ∅ ∅ ∅ ∅ ∅ {[2 := a_link]} {[3 := pending_row]}).
Definition upstream_world : World Z :=
  mkWorld upstream_db upstream_db 0 clock 0 (clock 0) [] [] [] [] [].
Definition the_link : UpstreamOAuthLink.t := UpstreamOAuthLinkRepository.of_row a_link.
Definition completion :=
  UpstreamOAuthSessionRepository.complete_with_link pending the_link None None None None
    upstream_world.
Definition completed : UpstreamOAuthAuthorizationSession.t :=
  UpstreamOAuthAuthorizationSession.with_state pending
    (UpstreamOAuthAuthorizationSessionState.Completed 0 2 None None None None).

Lemma upstream_sessions_refine_witness :
  completion.1 = Ok completed ∧ stands_for (w_txn completion.2) completed.
Proof.
  split; [vm_compute; reflexivity|].
  eapply (proj1 (upstream_sessions_refine pending upstream_world _) the_link None None None None
            completed completion.2).
  unfold completion. apply fst_run. vm_compute. reflexivity.
  Unshelve. eexists. split; reflexivity.
Defined.

Definition oidc_params : UpstreamOAuthProviderParams.t :=
  UpstreamOAuthProviderParams.mk (Some "https://idp.example.com/"%string) None None ["openid"]
    TokenAuthMethod.ClientSecretPost None "RS256" false None "client" None
    (ClaimsImports.mk None false
       (LocalpartPreference.mk ImportAction.Ignore None OnConflict.Fail_)
       (ImportPreference.mk ImportAction.Ignore None) (ImportPreference.mk ImportAction.Ignore None)
       None)
    None None None None DiscoveryMode.Oidc PkceMode.Auto None [("prompt", "login")] false None 0
    OnBackchannelLogout.DoNothing false.

Lemma provider_reads_back_witness :
  readable_params oidc_params ∧
  ∀ o w2, UpstreamOAuthProviderRepository.lookup 5
            (UpstreamOAuthProviderRepository.upsert 5 oidc_params upstream_world).2 = (Ok o, w2) →
    o = Some (UpstreamOAuthProviderRepository.provider_of 5 oidc_params 0).
Proof.
  assert (readable_params oidc_params) as Hp.
  { split.
    - split; [|done]. apply (Scope_from_str_spec "openid"). reflexivity.
    - intros u Hu v ->. simpl in Hu. set_solver. }
  split; [exact Hp|]. intros o w2 H.
  refine (proj1 (provider_reads_back 5 oidc_params Hp) upstream_world _ _ _ o w2 H).
  apply fst_run. vm_compute. reflexivity.
Defined.

Definition token_row : UserRegistrationTokenLookup.t :=
  UserRegistrationTokenLookup.mk 12 "invitation" (Some 3) 1 0 None (Some 1000) None.
Definition token_of_row : UserRegistrationToken.t :=
  UserRegistrationToken.mk 12 "invitation" (Some 3) 1 0 None (Some 1000) None.

Lemma token_filter_agrees_witness :
  UserRegistrationTokenFilter.generate_condition
    (UserRegistrationTokenFilter.with_valid true (UserRegistrationTokenFilter.new 1000)) token_row
    = true ∧
  UserRegistrationToken.is_valid token_of_row 1000 = false.
Proof.
  destruct (token_filter_agrees 1000 true token_row token_of_row) as (H1 & _ & H2); [reflexivity|].
  split; [rewrite H1; reflexivity | apply H2; reflexivity].
Defined.
End Witnesses.
