(* ===== verification/CleanupFacts.v ===== *)
(** * Correctness of the clean-ups

    What a clean-up removes, batch after batch: the rows that are old enough,
    all of them and nothing else; that its loop ends; and that the schema's
    constraints survive the deletions. *)

From stdpp Require Import base tactics list strings gmap sorting.
From Stdlib Require Import ZArith Lia.
From S2P Require Import Prelude Text Scope Externals Formats Pagination TokenFormat DataModel CompatModel UpstreamModel AccountModel Storage QueueRepo QueueWorker TokenRepo GrantRepo UserRepo UpstreamRepo AccountRepo CompatRepo PersonalRepo AppSessionRepo RegisterForms Tasks Cleanup Triples RepoFacts CompatRepoFacts Integrity AccountIntegrity ClientAuth WebSession Passwords Jobs TokenEndpoint GraphqlSession Introspection CompatEndpoints Authorization DeviceConsent ClientMetadata Registration Scenario AccountSteps.
#[local] Open Scope Z_scope.

(** ** The rows of a batch *)

Section Chosen.
Context {Row : Type} `{!Table Row} (id : Row → Z) (f : Row → Z) (old : Row → bool)
  (after : option Z → Z → bool).

(** The rows a batch removes: the first [n] of the old ones after the cursor. *)
Definition chosen (n : nat) (since : option Z) (d : Db) : list Row :=
  take n (order_asc f (matching_rows (λ r, old r && after since (f r)) d)).

Lemma chosen_spec n since d r :
  r ∈ chosen n since d → (∃ k, rows d !! k = Some r) ∧ old r = true ∧ after since (f r) = true.
Proof.
  intros (i & Hi & _)%elem_of_take. apply list_elem_of_lookup_2 in Hi.
  rewrite order_asc_perm in Hi. apply matching_spec in Hi as [[? ?]%andb_prop ?]. auto.
Qed.

Lemma chosen_length n since d : (length (chosen n since d) ≤ n)%nat.
Proof. apply firstn_le_length. Qed.

Lemma chosen_rest n since d k r :
  rows d !! k = Some r → old r = true → after since (f r) = true → r ∉ chosen n since d →
  length (chosen n since d) = n ∧ ∀ b, b ∈ chosen n since d → f b <= f r.
Proof.
  intros Hk Ho Ha Hn. unfold chosen in *.
  set (l := order_asc f _) in *.
  assert (r ∈ l) as Hl.
  { unfold l. rewrite order_asc_perm. eapply elem_of_matching; [exact Hk|]. by rewrite Ho, Ha. }
  rewrite <- (take_drop n l) in Hl. apply elem_of_app in Hl as [?|Hl]; [done|].
  split.
  - apply length_take_le. destruct (Nat.le_gt_cases n (length l)); [done|].
    rewrite drop_ge in Hl by lia. inversion Hl.
  - intros b Hb. assert (StronglySorted (asc f) l) as Hs by apply order_asc_sorted.
    rewrite <- (take_drop n l) in Hs. exact (StronglySorted_app_1_elem_of _ _ _ b r Hs Hb Hl).
Qed.

Lemma chosen_ids n since d : keyed id (rows d) → NoDup (id <$> chosen n since d).
Proof.
  intros Hk. unfold chosen. set (rs := matching_rows _ d).
  enough (NoDup (id <$> rs)) as Hrs.
  { rewrite <- (order_asc_perm f rs), <- (take_drop n (order_asc f rs)), fmap_app in Hrs.
    by apply NoDup_app in Hrs as [? _]. }
  unfold rs, matching_rows.
  assert (NoDup (id <$> (map_to_list (rows d)).*2)) as Hnd.
  { rewrite <- list_fmap_compose.
    rewrite (list_fmap_ext _ fst).
    - apply NoDup_fst_map_to_list.
    - intros i [k r] Hi. apply list_elem_of_lookup_2, elem_of_map_to_list in Hi. simpl. eauto. }
  revert Hnd. generalize ((map_to_list (rows d)).*2). intros l.
  induction l as [|r l IH]; simpl; [done|]. intros [Hr Hl]%NoDup_cons.
  rewrite filter_cons. case_decide; [|auto]. simpl. apply NoDup_cons. split; [|auto].
  intros (r' & Heq & [_ Hin]%list_elem_of_filter)%list_elem_of_fmap. apply Hr. rewrite Heq.
  by apply list_elem_of_fmap_2.
Qed.

Lemma chosen_key n since d k r :
  keyed id (rows d) → rows d !! k = Some r →
  k ∈ id <$> chosen n since d → r ∈ chosen n since d.
Proof.
  intros Hk Hr (r' & -> & Hin)%list_elem_of_fmap.
  destruct (chosen_spec _ _ _ _ Hin) as [(k' & Hk') _].
  pose proof (Hk _ _ Hk') as Heq. rewrite Heq in Hr. by simplify_eq.
Qed.
End Chosen.

(** ** What a batch does to the old rows *)

(** The old rows, by primary key, with their place in the order. *)
Definition stale {Row} `{!Table Row} (f : Row → Z) (old : Db → Row → bool) (d : Db) : gmap Z Z :=
  omap (λ r, if old d r then Some (f r) else None) (rows d).

(** A batch on the old rows: at most [BATCH_SIZE] of them, every one of them that
    comes after the cursor when they are fewer, and none that comes after one
    that is left. *)
Record batch (after : option Z → Z → bool) (S : gmap Z Z) (since : option Z) (n : nat)
    (cur : option Z) (S' : gmap Z Z) (ids : list Z) : Prop := {
  batch_nodup : NoDup ids;
  batch_length : n = length ids;
  batch_bound : Z.of_nat n <= BATCH_SIZE;
  batch_sub k : k ∈ ids → is_Some (S !! k);
  batch_rest : S' = filter (λ kx, kx.1 ∉ ids) S;
  batch_last k x : Z.of_nat n ≠ BATCH_SIZE → S !! k = Some x → after since x = true → k ∈ ids;
  batch_cursor k x : Z.of_nat n = BATCH_SIZE → S' !! k = Some x → after since x = true →
    after cur x = true;
}.

(** What a statement does to the table: the rows of the batch are deleted, or are
    not old any more, and the others stay as old as they were. *)
Record effect {Row} `{!Table Row} (id : Row → Z) (f : Row → Z) (old : Db → Row → bool)
    (gone : bool) (ids : list Z) (d d' : Db) : Prop := {
  effect_back k r' : rows d' !! k = Some r' →
    ∃ r, rows d !! k = Some r ∧ id r' = id r ∧ (gone = true → k ∉ ids);
  effect_kept k r : k ∉ ids → rows d !! k = Some r →
    ∃ r', rows d' !! k = Some r' ∧ f r' = f r ∧ old d' r' = old d r;
  effect_batch k r' : k ∈ ids → rows d' !! k = Some r' → old d' r' = false;
  effect_stays k r : gone = false → rows d !! k = Some r → is_Some (rows d' !! k);
}.

Section Effect.
Context {Row : Type} `{!Table Row} (id : Row → Z) (f : Row → Z) (old : Db → Row → bool).

Lemma lookup_stale d k x :
  stale f old d !! k = Some x ↔ ∃ r, rows d !! k = Some r ∧ old d r = true ∧ f r = x.
Proof.
  unfold stale. rewrite lookup_omap. destruct (rows d !! k) as [r|]; simpl.
  - destruct (old d r) eqn:Ho; split.
    + intros [= <-]. eauto.
    + by intros (? & [= <-] & _ & <-).
    + done.
    + intros (? & [= <-] & ? & _). congruence.
  - split; [done|]. by intros (? & ? & _).
Qed.

Lemma effect_keyed gone ids d d' :
  effect id f old gone ids d d' → keyed id (rows d) → keyed id (rows d').
Proof.
  intros He Hk k r' Hr'. destruct (effect_back _ _ _ _ _ _ _ He k r' Hr') as (r & Hr & -> & _).
  eauto.
Qed.

Lemma effect_stale gone ids d d' :
  effect id f old gone ids d d' →
  stale f old d' = filter (λ kx, kx.1 ∉ ids) (stale f old d).
Proof.
  intros He. apply map_eq. intros k. apply option_eq. intros x.
  rewrite map_lookup_filter_Some, !lookup_stale. simpl. split.
  - intros (r' & Hr' & Ho & <-).
    assert (k ∉ ids) as Hk.
    { intros Hin. by rewrite (effect_batch _ _ _ _ _ _ _ He k r' Hin Hr') in Ho. }
    split; [|done]. destruct (effect_back _ _ _ _ _ _ _ He k r' Hr') as (r & Hr & _).
    destruct (effect_kept _ _ _ _ _ _ _ He k r Hk Hr) as (r1 & Hr1 & Hf & Ho1).
    simplify_eq. exists r. by rewrite <- Ho1.
  - intros [(r & Hr & Ho & <-) Hk].
    destruct (effect_kept _ _ _ _ _ _ _ He k r Hk Hr) as (r1 & Hr1 & Hf & Ho1).
    exists r1. by rewrite Ho1.
Qed.

Lemma effect_dom gone ids d d' :
  effect id f old gone ids d d' →
  dom (rows d') = if gone then dom (rows d) ∖ list_to_set ids else dom (rows d).
Proof.
  intros He. apply set_eq. intros k. rewrite elem_of_dom. split.
  - intros [r' Hr']. destruct (effect_back _ _ _ _ _ _ _ He k r' Hr') as (r & Hr & _ & Hg).
    apply elem_of_dom_2 in Hr. destruct gone; [|done].
    apply elem_of_difference. split; [done|]. rewrite elem_of_list_to_set. auto.
  - destruct gone.
    + intros [[r Hr]%elem_of_dom Hk]%elem_of_difference. rewrite elem_of_list_to_set in Hk.
      destruct (effect_kept _ _ _ _ _ _ _ He k r Hk Hr) as (r1 & ? & _). eauto.
    + intros [r Hr]%elem_of_dom. by eapply effect_stays.
Qed.

(** The rows chosen make a batch, when the cursor is the place of the last. *)
Lemma chosen_batch after gone since cur d d' :
  keyed id (rows d) →
  let B := chosen f (old d) after (Z.to_nat BATCH_SIZE) since d in
  (∀ r, r ∉ B → (∃ b, b ∈ B) → (∃ k, rows d !! k = Some r) → (∀ b, b ∈ B → f b <= f r) →
    after cur (f r) = true) →
  effect id f old gone (id <$> B) d d' →
  batch after (stale f old d) since (length B) cur (stale f old d') (id <$> B).
Proof.
  intros Hk B Hcur He. split.
  - by apply chosen_ids.
  - by rewrite length_fmap.
  - pose proof (chosen_length f (old d) after (Z.to_nat BATCH_SIZE) since d). fold B in H.
    unfold BATCH_SIZE in *. lia.
  - intros k (r & -> & Hr)%list_elem_of_fmap.
    destruct (chosen_spec _ _ _ _ _ _ _ Hr) as ((k & Hkr) & Ho & _).
    rewrite (Hk _ _ Hkr). exists (f r). apply lookup_stale. eauto.
  - by eapply effect_stale.
  - intros k x Hn (r & Hr & Ho & <-)%lookup_stale Ha.
    destruct (decide (k ∈ id <$> B)) as [|Hkin]; [done|].
    assert (r ∉ B) as Hin.
    { intros Hin. apply Hkin. rewrite <- (Hk _ _ Hr). by apply list_elem_of_fmap_2. }
    exfalso. destruct (chosen_rest _ _ _ _ _ _ _ _ Hr Ho Ha Hin) as [Hl _]. fold B in Hl.
    unfold BATCH_SIZE in *. lia.
  - intros k x Hn. rewrite (effect_stale _ _ _ _ He).
    intros [(r & Hr & Ho & <-)%lookup_stale Hkin]%map_lookup_filter_Some Ha. simpl in Hkin.
    assert (r ∉ B) as Hin.
    { intros Hin. apply Hkin. rewrite <- (Hk _ _ Hr). by apply list_elem_of_fmap_2. }
    destruct (chosen_rest _ _ _ _ _ _ _ _ Hr Ho Ha Hin) as [_ Hle].
    apply Hcur; [done| |by eauto|done].
    destruct B as [|b B'] eqn:HB; [unfold BATCH_SIZE in Hn; simpl in Hn; lia|].
    exists b. by apply elem_of_cons; left.
Qed.
End Effect.

(** ** The loop *)

Lemma batch_size after S since n cur S' ids :
  batch after S since n cur S' ids → (size S = n + size S')%nat.
Proof.
  intros Hb. destruct Hb as [Hnd -> _ Hsub -> _ _].
  rewrite <- !size_dom.
  assert (dom (filter (λ kx : Z * Z, kx.1 ∉ ids) S) = dom S ∖ list_to_set ids) as ->.
  { apply set_eq. intros k.
    rewrite elem_of_difference, elem_of_list_to_set, !elem_of_dom. unfold is_Some.
    setoid_rewrite map_lookup_filter_Some. naive_solver. }
  assert (list_to_set ids ⊆ dom S) as Hs.
  { intros k Hk%elem_of_list_to_set. by apply elem_of_dom, Hsub. }
  rewrite size_difference, size_list_to_set by done.
  pose proof (subseteq_size _ _ Hs) as Hle. rewrite size_list_to_set in Hle by done. lia.
Qed.

Lemma dom_filter_keys (X : gset Z) (S : gmap Z Z) :
  dom (filter (λ kx, kx.1 ∉ X) S) = dom S ∖ X.
Proof.
  apply set_eq. intros k. rewrite elem_of_difference, !elem_of_dom. unfold is_Some.
  setoid_rewrite map_lookup_filter_Some. naive_solver.
Qed.

Lemma removed_dom (X K : gset Z) (S : gmap Z Z) :
  X ⊆ dom S → (K ∖ X) ∖ dom (filter (λ kx, kx.1 ∉ X) S) = K ∖ dom S.
Proof.
  intros HX. rewrite dom_filter_keys, difference_difference_l_L. f_equal.
  apply set_eq. intros k. rewrite elem_of_union, elem_of_difference. specialize (HX k).
  destruct (decide (k ∈ X)); tauto.
Qed.

(** What the operation of a clean-up promises its loop: each run is a batch on
    the old rows [S] of the table with keys [K], which [gone] says whether it
    deletes. *)
Class CleansUp {R} (after : option Z → Z → bool) (gone : bool) (I : Db → Prop)
    (S : Db → gmap Z Z) (K : Db → gset Z)
    (op : option Z → M (World R) DatabaseError (nat * option Z)) : Prop := {
  cleans_committed since : keeps same_committed (op since);
  cleans_batch since w n cur w' : I (w_txn w) → op since w = (Ok (n, cur), w') →
    I (w_txn w') ∧ ∃ ids, batch after (S (w_txn w)) since n cur (S (w_txn w')) ids ∧
      K (w_txn w') = if gone then K (w_txn w) ∖ list_to_set ids else K (w_txn w);
}.

Section Loop.
Context {R : Type} {texts : ErrorTexts} (cancelled : nat → bool) (after : option Z → Z → bool)
  (gone : bool) (I : Db → Prop) (S : Db → gmap Z Z) (K : Db → gset Z)
  (op : option Z → M (World R) DatabaseError (nat * option Z)) `{!CleansUp after gone I S K op}.
Implicit Types w : World R.

(** A turn fails and commits nothing, or commits a batch. *)
Lemma batches_turn fuel turn since total w r w' :
  batches cancelled op (Datatypes.S fuel) turn since total w = (r, w') →
  cancelled turn = true ∧ r = Ok (Some total) ∧ w' = w ∨
  cancelled turn = false ∧ (∃ e, r = Err e) ∧ w_committed w' = w_committed w ∨
  cancelled turn = false ∧ ∃ w1 n cur w2 w3,
    w_txn w1 = w_committed w ∧ op since w1 = (Ok (n, cur), w2) ∧
    w_committed w3 = w_txn w2 ∧
    if Z.of_nat n =? BATCH_SIZE
    then batches cancelled op fuel (Datatypes.S turn) cur (total + n) w3 = (r, w')
    else r = Ok (Some (total + n)%nat) ∧ w' = w3.
Proof.
  simpl. destruct (cancelled turn) eqn:Hc.
  { intros [= <- <-]. by left. }
  intros H. right. unfold bind in H.
  destruct (retry_db from_pool w) as [[[]|e] w1] eqn:H1.
  2:{ injection H as <- <-. left. split_and!; [done | by eexists |].
      apply mmap_err_Err_inv in H1 as (e' & H1 & _). by apply (keeps_run _ _ _ _ _ keeps_from_pool) in H1 as [? _]. }
  apply mmap_err_Ok_inv, from_pool_inv in H1 as (Ht1 & Hc1 & _).
  destruct (retry_db (op since) w1) as [[[n cur]|e] w2] eqn:H2.
  2:{ injection H as <- <-. left. split_and!; [done | by eexists |].
      apply mmap_err_Err_inv in H2 as (e' & H2 & _).
      apply (keeps_run _ _ _ _ _ (cleans_committed since)) in H2 as [? _]. congruence. }
  apply mmap_err_Ok_inv in H2.
  pose proof (keeps_run _ _ _ _ _ (cleans_committed since) H2) as [Hc2 _].
  destruct (retry_db save w2) as [[[]|e] w3] eqn:H3.
  2:{ injection H as <- <-. left. split_and!; [done | by eexists |].
      apply mmap_err_Err_inv in H3 as (e' & H3 & _). apply err_keeps_save in H3 as [? _].
      congruence. }
  apply mmap_err_Ok_inv, save_inv in H3 as (Hc3 & _).
  right. split; [done|]. exists w1, n, cur, w2, w3. split_and!; try done.
  destruct (Z.of_nat n =? BATCH_SIZE); [done|]. by injection H as <- <-.
Qed.

(** Whatever happens, only old rows were removed. *)
Definition removed (X : gset Z) (d d' : Db) : Prop :=
  X ⊆ dom (S d) ∧ S d' = filter (λ kx, kx.1 ∉ X) (S d) ∧
  K d' = if gone then K d ∖ X else K d.

Lemma removed_none d : removed ∅ d d.
Proof.
  split_and!; [set_solver| |by destruct gone; [rewrite difference_empty_L|]].
  symmetry. apply map_filter_id. intros. set_solver.
Qed.

Lemma removed_trans X Y d1 d2 d3 : removed X d1 d2 → removed Y d2 d3 → removed (X ∪ Y) d1 d3.
Proof.
  intros (HX & HS & HK) (HY & HS' & HK'). split_and!.
  - rewrite HS in HY. apply union_subseteq. split; [done|].
    intros k Hk%HY. apply elem_of_dom in Hk as [x [Hx _]%map_lookup_filter_Some].
    by apply elem_of_dom_2 in Hx.
  - rewrite HS', HS, map_filter_filter. apply map_filter_ext. intros k x _. simpl. set_solver.
  - rewrite HK', HK. destruct gone; [|done]. set_solver.
Qed.

Lemma removed_batch since w n cur w' :
  I (w_txn w) → op since w = (Ok (n, cur), w') →
  I (w_txn w') ∧ ∃ ids, batch after (S (w_txn w)) since n cur (S (w_txn w')) ids ∧
    removed (list_to_set ids) (w_txn w) (w_txn w').
Proof.
  intros HI (HI' & ids & Hb & HK)%cleans_batch; [|done]. split; [done|]. exists ids.
  split; [done|]. split_and!; [| |done].
  - intros k Hk%elem_of_list_to_set. by apply elem_of_dom; eapply batch_sub.
  - rewrite (batch_rest _ _ _ _ _ _ _ Hb). apply map_filter_ext. intros k x _. simpl.
    by rewrite elem_of_list_to_set.
Qed.

Lemma batches_partial fuel turn since total w r w' :
  batches cancelled op fuel turn since total w = (r, w') → I (w_committed w) →
  I (w_committed w') ∧ ∃ X, removed X (w_committed w) (w_committed w').
Proof.
  revert turn since total w. induction fuel as [|fuel IH]; intros turn since total w.
  { intros [= <- <-] HI. split; [done|]. exists ∅. apply removed_none. }
  intros [(_ & _ & ->)|[(_ & _ & ->)|(_ & w1 & n & cur & w2 & w3 & Ht & Hop & Hc & H)]]%batches_turn HI.
  1,2: by split; [|exists ∅; apply removed_none].
  rewrite <- Ht in *. apply removed_batch in Hop as (HI2 & ids & _ & Hr); [|done].
  rewrite <- Hc in *. destruct (Z.of_nat n =? BATCH_SIZE).
  - apply IH in H as (HI' & X & HX); [|done]. split; [done|]. eexists. by eapply removed_trans.
  - destruct H as [_ ->]. eauto.
Qed.

(** Without a cancellation nothing old is left. *)
Lemma batches_complete fuel turn since total w m w' :
  (∀ t, cancelled t = false) →
  batches cancelled op fuel turn since total w = (Ok (Some m), w') → I (w_committed w) →
  (∀ k x, S (w_committed w) !! k = Some x → after since x = true) →
  m = (total + size (S (w_committed w)))%nat ∧ S (w_committed w') = ∅ ∧
  K (w_committed w') =
    if gone then K (w_committed w) ∖ dom (S (w_committed w)) else K (w_committed w).
Proof.
  intros Hcan. revert turn since total w. induction fuel as [|fuel IH]; intros turn since total w.
  { done. }
  intros [(Ht & _)|[(_ & [e ?] & _)|(_ & w1 & n & cur & w2 & w3 & Ht & Hop & Hc & H)]]%batches_turn
    HI Hafter; [congruence|done|].
  rewrite <- Ht in *. apply removed_batch in Hop as (HI2 & ids & Hb & (HX & HS & HK)); [|done].
  rewrite <- Hc in *. pose proof (batch_size _ _ _ _ _ _ _ Hb) as Hsize.
  destruct (Z.eqb_spec (Z.of_nat n) BATCH_SIZE) as [Hn|Hn].
  - apply IH in H as (-> & -> & ->); [|done|].
    + split_and!; [lia|done|]. rewrite HK. destruct gone; [|done].
      rewrite HS. by apply removed_dom.
    + intros k x Hx. eapply batch_cursor; [done..|]. eapply Hafter.
      rewrite HS in Hx. by apply map_lookup_filter_Some in Hx as [Hx _].
  - destruct H as [[= ->] ->].
    assert (S (w_committed w3) = ∅) as Hempty.
    { apply map_empty. intros k. apply eq_None_not_Some. intros [x Hx]. rewrite HS in Hx.
      apply map_lookup_filter_Some in Hx as [Hx Hk]. simpl in Hk.
      rewrite elem_of_list_to_set in Hk. apply Hk. eapply batch_last; eauto. }
    rewrite Hempty, map_size_empty in Hsize. split_and!; [lia|done|].
    rewrite HK. destruct gone; [|done]. f_equal. apply set_eq. intros k. split; [apply HX|].
    intros [x Hx]%elem_of_dom. rewrite elem_of_list_to_set. eapply batch_last; eauto.
Qed.

(** The fuel that is enough. *)
Lemma batches_fuel fuel turn since total w w' :
  batches cancelled op fuel turn since total w = (Ok None, w') → I (w_committed w) →
  (fuel * Z.to_nat BATCH_SIZE ≤ size (S (w_committed w)))%nat.
Proof.
  revert turn since total w. induction fuel as [|fuel IH]; intros turn since total w; [lia|].
  intros [(_ & ? & _)|[(_ & [e ?] & _)|(_ & w1 & n & cur & w2 & w3 & Ht & Hop & Hc & H)]]%batches_turn
    HI; [done..|].
  rewrite <- Ht in *. apply removed_batch in Hop as (HI2 & ids & Hb & _); [|done].
  rewrite <- Hc in *. apply batch_size in Hb.
  destruct (Z.eqb_spec (Z.of_nat n) BATCH_SIZE) as [Hn|Hn]; [|by destruct H].
  apply IH in H; [|done]. lia.
Qed.
End Loop.

(** ** Clean-ups by date and by identifier *)

Definition from_date (since : option Z) (x : Z) : bool :=
  match since with Some s => s <=? x | None => true end.
Definition after_id (since : option Z) (x : Z) : bool :=
  match since with Some s => s <? x | None => true end.

Definition date {Row} (col : Row → option DateTime) (r : Row) : Z := default 0 (col r).

(** The rows whose date is before [until], and those whose identifier is at
    most [until], that also meet the condition of the clean-up. *)
Definition old_date {Row} (col : Row → option DateTime) (p : Db → Row → bool) (until : DateTime)
    (d : Db) (r : Row) : bool :=
  p d r && match col r with Some t => t <? until | None => false end.
Definition old_id {Row} (id : Row → Z) (p : Row → bool) (until : Ulid) (_ : Db) (r : Row) : bool :=
  p r && (id r <=? until).

Section Clean.
Context {Row : Type} `{!Table Row} (id : Row → Z).

Lemma oldest_rows_chosen col (p : Db → Row → bool) since until d :
  oldest_rows col (p d) since until BATCH_SIZE d
  = chosen (date col) (old_date col p until d) from_date (Z.to_nat BATCH_SIZE) since d.
Proof.
  unfold oldest_rows, chosen, matching_rows. f_equal.
  change (λ r, default 0 (col r)) with (date col). f_equal. apply list_filter_iff. intros r.
  unfold in_dates, old_date, date, from_date. destruct (p d r), (col r), since; simpl;
    rewrite ?andb_true_iff, ?andb_false_r; try tauto; naive_solver.
Qed.

Lemma cleanup_rows_chosen p since until d :
  cleanup_rows id p since until BATCH_SIZE d
  = chosen id (old_id id p until d) after_id (Z.to_nat BATCH_SIZE) since d.
Proof.
  unfold cleanup_rows, chosen, matching_rows. f_equal. f_equal. apply list_filter_iff. intros r.
  unfold old_id, after_id. destruct (p r), since; simpl; rewrite ?andb_true_iff, ?andb_true_r; tauto.
Qed.

(** [MAX] of the column of old rows. *)
Lemma max_date_spec col (rs : list Row) :
  rs ≠ [] → (∀ r, r ∈ rs → is_Some (col r)) →
  ∃ b, b ∈ rs ∧ max_date col rs = Some (date col b).
Proof.
  induction rs as [|r rs IH]; [done|]. intros _ Hs.
  destruct (Hs r) as [t Ht]; [by left|]. destruct (decide (rs = [])) as [->|Hne].
  - exists r. split; [by left|]. simpl. unfold date. by rewrite Ht.
  - destruct IH as (b & Hb & Hm); [done|by intros; apply Hs; right|].
    unfold max_date in *. simpl. rewrite Hm, Ht. destruct (Z.max_spec t (date col b)) as [[_ ->]|[_ ->]].
    + exists b. split; [by right|done].
    + exists r. split; [by left|]. unfold date. by rewrite Ht.
Qed.

Lemma max_id_spec (ids : list Z) :
  ids ≠ [] → ∃ i, i ∈ ids ∧ QueueJobRepository.max_id ids = Some i.
Proof.
  destruct ids as [|i l]; [done|]. intros _. simpl.
  enough (∃ j, j ∈ i :: l ∧ foldr Z.max i l = j) as (j & ? & <-) by eauto.
  induction l as [|x l IH]; simpl.
  - exists i. split; [by left|done].
  - destruct IH as (j & Hj & ->). destruct (Z.max_spec x j) as [[_ ->]|[_ ->]].
    + exists j. split; [|done]. set_solver.
    + exists x. split; [|done]. set_solver.
Qed.

(** What a clean-up must show of its statement. *)
Definition cleans (f : Row → Z) (old : Db → Row → bool) (gone : bool)
    (stmt : list Ulid → Db → option (nat * Db)) : Prop :=
  ∀ ids d n d', keyed id (rows d) → NoDup ids →
    (∀ k, k ∈ ids → ∃ r, rows d !! k = Some r ∧ old d r = true) →
    stmt ids d = Some (n, d') → effect id f old gone ids d d'.
Definition counts (stmt : list Ulid → Db → option (nat * Db)) : Prop :=
  ∀ ids d n d', keyed id (rows d) → NoDup ids → (∀ k, k ∈ ids → is_Some (rows d !! k)) →
    stmt ids d = Some (n, d') → n = length ids.

Lemma chosen_old f (old : Db → Row → bool) after n since d k :
  keyed id (rows d) → k ∈ id <$> chosen f (old d) after n since d →
  ∃ r, rows d !! k = Some r ∧ old d r = true.
Proof.
  intros Hk (r & -> & Hr)%list_elem_of_fmap.
  destruct (chosen_spec _ _ _ _ _ _ _ Hr) as ((k & Hkr) & Ho & _). rewrite (Hk _ _ Hkr). eauto.
Qed.

Section Ops.
Context {R : Type} (gone : bool).

#[local] Ltac fold_keeps :=
  lazymatch goal with |- ∀ w, same_committed w (?m w).2 => change (keeps same_committed m) end.

Lemma cleans_by_date col p until stmt op :
  (∀ since w, op since w =
     (do to_x <- gets (λ w : World R, oldest_rows col (p (w_txn w)) since until BATCH_SIZE (w_txn w));
      do count <- execute (stmt (id <$> to_x));
      ret (count, max_date col to_x)) w) →
  cleans (date col) (old_date col p until) gone stmt → counts stmt →
  CleansUp from_date gone (λ d, keyed id (rows d)) (stale (date col) (old_date col p until))
    (λ d, dom (rows (Row := Row) d)) op.
Proof.
  intros Hop Hc Hn. split.
  - intros since w. rewrite Hop. revert w. fold_keeps. keeps_tac.
  - intros since w n cur w' Hk. rewrite Hop. unfold bind at 1. simpl.
    rewrite oldest_rows_chosen.
    set (B := chosen _ _ _ _ _ _). intros H. run_inv H. simplify_eq.
    match goal with H : stmt _ _ = Some _ |- _ =>
      pose proof H as Hcount; apply Hc in H as He;
        [|done|by apply chosen_ids|by intros k; apply chosen_old] end.
    apply Hn in Hcount as ->; [|done|by apply chosen_ids|].
    2:{ intros k (r & ? & _)%chosen_old; eauto. }
    rewrite length_fmap. split; [by eapply effect_keyed|]. exists (id <$> B).
    split; [|by eapply effect_dom]. eapply chosen_batch; [done| |done].
    intros r _ [b Hb] _ Hle. fold B in Hb, Hle.
    destruct (max_date_spec col B) as (m & Hm & Hmax).
    { by intros HB; rewrite HB in Hb; apply not_elem_of_nil in Hb. }
    { intros x (_ & Ho & _)%chosen_spec. unfold old_date in Ho. destruct (col x); [by eexists|].
      by rewrite andb_false_r in Ho. }
    fold B. rewrite Hmax. simpl. by apply Z.leb_le, Hle.
Qed.

Lemma cleans_by_id p until stmt op :
  (∀ since w, op since w =
     (do to_x <- gets (λ w : World R, cleanup_rows id p since until BATCH_SIZE (w_txn w));
      do! execute (stmt (id <$> to_x));
      ret (length (id <$> to_x), QueueJobRepository.max_id (id <$> to_x))) w) →
  cleans id (old_id id p until) gone stmt →
  CleansUp after_id gone (λ d, keyed id (rows d)) (stale id (old_id id p until))
    (λ d, dom (rows (Row := Row) d)) op.
Proof.
  intros Hop Hc. split.
  - intros since w. rewrite Hop. revert w. fold_keeps. keeps_tac.
  - intros since w n cur w' Hk. rewrite Hop. unfold bind at 1. simpl.
    rewrite cleanup_rows_chosen.
    set (B := chosen _ _ _ _ _ _). intros H. run_inv H. simplify_eq.
    match goal with H : stmt _ _ = Some _ |- _ =>
      apply Hc in H as He; [|done|by apply chosen_ids|by intros k; apply chosen_old] end.
    rewrite length_fmap. split; [by eapply effect_keyed|]. exists (id <$> B).
    split; [|by eapply effect_dom]. eapply chosen_batch; [done| |done].
    intros r Hr [b Hb] [k Hkr] Hle. fold B in Hb, Hle, Hr.
    destruct (max_id_spec (id <$> B)) as (i & Hi & Hmax).
    { intros HB%fmap_nil_inv. by rewrite HB in Hb; apply not_elem_of_nil in Hb. }
    fold B. rewrite Hmax. simpl. apply Z.ltb_lt.
    destruct (Z.le_lteq i (id r)) as [[?|Heq] _]; [|done|].
    + apply list_elem_of_fmap in Hi as (m & -> & Hm). by apply Hle.
    + destruct Hr. rewrite Heq, (Hk _ _ Hkr) in Hi.
      by apply (chosen_key id id _ _ _ _ _ k r Hk Hkr).
Qed.
End Ops.
End Clean.

(** ** The statements *)

Section Statements.
Context {Row : Type} `{!Table Row} (id : Row → Z) (f : Row → Z) (old : Db → Row → bool).

(** A deletion, which may touch a column of the rows that stay. *)
Lemma effect_delete ids d d' (g : Row → Row) :
  (∀ k, rows d' !! k = if decide (k ∈ ids) then None else g <$> rows d !! k) →
  (∀ k r, k ∉ ids → rows d !! k = Some r →
    id (g r) = id r ∧ f (g r) = f r ∧ old d' (g r) = old d r) →
  effect id f old true ids d d'.
Proof.
  intros Hrows Hg. split.
  - intros k r'. rewrite Hrows. case_decide as Hk; [done|].
    intros (r & Hr & ->)%fmap_Some. exists r. destruct (Hg k r Hk Hr) as (Hid & _). auto.
  - intros k r Hk Hr. rewrite Hrows, decide_False by done. rewrite Hr. simpl.
    destruct (Hg k r Hk Hr) as (_ & ? & ?). eauto.
  - intros k r' Hk. by rewrite Hrows, decide_True.
  - done.
Qed.

Lemma cleans_delete stmt :
  (∀ m d, rows (set_rows m d) = m) →
  (∀ ids d n d', keyed id (rows d) →
     (∀ k, k ∈ ids → ∃ r, rows d !! k = Some r ∧ old d r = true) → stmt ids d = Some (n, d') →
     ∃ d0 g, delete_where_stmt (λ r, bool_decide (id r ∈ ids)) d0 = Some (n, d') ∧
       rows d0 = g <$> rows d ∧
       ∀ k r, rows d !! k = Some r →
         id (g r) = id r ∧ f (g r) = f r ∧ (k ∉ ids → old d' (g r) = old d r)) →
  cleans id f old true stmt.
Proof.
  intros Hset Hstmt ids d n d' Hk Hnd Hids H.
  destruct (Hstmt _ _ _ _ Hk Hids H) as (d0 & g & [= _ <-] & H0 & Hg).
  apply (effect_delete _ _ _ g).
  - intros k. rewrite Hset, H0. destruct (rows d !! k) as [r|] eqn:Hr.
    + destruct (Hg k r Hr) as (Hid & _). rewrite (Hk _ _ Hr) in Hid. case_decide as Hin.
      * apply eq_None_not_Some. intros [x (Hx & Hf)%map_lookup_filter_Some].
        rewrite lookup_fmap, Hr in Hx. injection Hx as <-. simpl in Hf. rewrite Hid in Hf.
        by apply bool_decide_eq_false in Hf.
      * simpl. apply map_lookup_filter_Some. rewrite lookup_fmap, Hr. split; [done|]. simpl.
        rewrite Hid. by apply bool_decide_eq_false.
    + transitivity (None : option Row); [|by case_decide].
      apply eq_None_not_Some. intros [x (Hx & _)%map_lookup_filter_Some].
      by rewrite lookup_fmap, Hr in Hx.
  - intros k r Hn Hr. destruct (Hg k r Hr) as (? & ? & ?). auto.
Qed.

Lemma filter_ids_size ids (m : gmap Z Row) :
  keyed id m → NoDup ids → (∀ k, k ∈ ids → is_Some (m !! k)) →
  size (filter (λ kr : Z * Row, bool_decide (id kr.2 ∈ ids) = true) m) = length ids.
Proof.
  intros Hk Hnd Hids. rewrite <- size_dom, <- (size_list_to_set (C := gset Z) ids) by done.
  f_equal. apply set_eq. intros k. rewrite elem_of_list_to_set, elem_of_dom. split.
  - intros [r [Hr Hb%bool_decide_eq_true]%map_lookup_filter_Some]. simpl in Hb.
    by rewrite (Hk _ _ Hr) in Hb.
  - intros Hin. destruct (Hids k Hin) as [r Hr]. exists r.
    apply map_lookup_filter_Some. split; [done|]. apply bool_decide_eq_true. simpl.
    by rewrite (Hk _ _ Hr).
Qed.

Lemma counts_delete stmt :
  (∀ ids d n d', stmt ids d = Some (n, d') →
     ∃ d0 g, delete_where_stmt (λ r, bool_decide (id r ∈ ids)) d0 = Some (n, d') ∧
       rows d0 = g <$> rows d ∧ ∀ r, id (g r) = id r) →
  counts id stmt.
Proof.
  intros Hstmt ids d n d' Hk Hnd Hids H.
  destruct (Hstmt _ _ _ _ H) as (d0 & g & [= <- _] & H0 & Hg). rewrite H0.
  apply filter_ids_size; [by apply keyed_fmap|done|].
  intros k Hin. rewrite lookup_fmap, fmap_is_Some. auto.
Qed.

(** An update that makes the rows of the batch recent. *)
Lemma cleans_update (clear : Row → Row) :
  (∀ m d, rows (set_rows m d) = m) →
  (∀ r, id (clear r) = id r) → (∀ d r, old d (clear r) = false) →
  (∀ d d' r, old d' r = old d r) →
  cleans id f old false (λ ids, update_where_stmt (λ r, bool_decide (id r ∈ ids)) clear).
Proof.
  intros Hset Hid Hclear Hold ids d n d' Hk Hnd Hids [= _ <-]. split.
  - intros k r'. rewrite Hset. intros (r & <- & Hr)%lookup_fmap_Some. exists r.
    split_and!; [done| |done]. by case_bool_decide.
  - intros k r Hn Hr. rewrite Hset, lookup_fmap, Hr. simpl. eexists. split; [done|].
    rewrite (Hk _ _ Hr), bool_decide_eq_false_2 by done. auto.
  - intros k r' Hin. rewrite Hset. intros (r & <- & Hr)%lookup_fmap_Some.
    by rewrite (Hk _ _ Hr), bool_decide_eq_true_2 by done.
  - intros k r _ Hr. rewrite Hset, lookup_fmap, Hr. by eexists.
Qed.

Lemma counts_update (clear : Row → Row) :
  counts id (λ ids, update_where_stmt (λ r, bool_decide (id r ∈ ids)) clear).
Proof. intros ids d n d' Hk Hnd Hids [= <- _]. by apply filter_ids_size. Qed.
End Statements.

(** ** The clean-up jobs *)

Inductive CleanupJob : Type :=
| RevokedAccessTokens | ExpiredAccessTokens | RevokedRefreshTokens | ConsumedRefreshTokens
| FinishedCompatSessions | FinishedOAuth2Sessions | FinishedUserSessions
| InactiveOAuth2Ips | InactiveCompatIps | InactiveUserIps
| AuthorizationGrants | DeviceCodeGrants | UpstreamSessions | UpstreamLinks
| UserRegistrations | UserRecoverySessions | UserEmailAuthentications | QueueJobs.

#[export] Instance CleanupJob_eq_dec : EqDecision CleanupJob.
Proof. solve_decision. Defined.

(** What a job looks for, when it starts at [now_]. *)
Definition by_date_of {Row} `{!Table Row} (col : Row → option DateTime) (p : Db → Row → bool)
    (until : DateTime) : Db → gmap Z Z := stale (date col) (old_date col p until).
Definition by_id_of {Row} `{!Table Row} (id : Row → Z) (p : Row → bool) (until : Ulid) :
    Db → gmap Z Z := stale id (old_id id p until).

Definition any {A} (_ : A) : bool := true.
Definition has {Row V} (col : Row → option V) (r : Row) : bool := bool_decide (is_Some (col r)).
Definition lacks {Row V} `{!EqDecision V} (col : Row → option V) (r : Row) : bool :=
  bool_decide (col r = None).
Definition ended (r : QueueJobRow.t) : bool :=
  QueueJobRepository.has_status Completed r || QueueJobRepository.has_status Failed r.

Definition old_rows (j : CleanupJob) (now_ : DateTime) : Db → gmap Z Z :=
  match j with
  | RevokedAccessTokens =>
      by_date_of OAuth2AccessTokenLookup.revoked_at (λ _, any) (now_ - HOURS 1)
  | ExpiredAccessTokens =>
      by_date_of OAuth2AccessTokenLookup.expires_at (λ _, any) (now_ - DAYS 30)
  | RevokedRefreshTokens =>
      by_date_of OAuth2RefreshTokenLookup.revoked_at (λ _, any) (now_ - HOURS 1)
  | ConsumedRefreshTokens =>
      by_date_of OAuth2RefreshTokenLookup.consumed_at RefreshTokenCleanup.next_consumed
        (now_ - HOURS 1)
  | FinishedCompatSessions =>
      by_date_of CompatSessionLookup.finished_at (λ _, any) (now_ - DAYS 30)
  | FinishedOAuth2Sessions =>
      by_date_of OAuthSessionLookup.finished_at (λ _, any) (now_ - DAYS 30)
  | FinishedUserSessions =>
      by_date_of UserSessionRow.finished_at BrowserSessionCleanup.unreferenced (now_ - DAYS 30)
  | InactiveOAuth2Ips =>
      by_date_of OAuthSessionLookup.last_active_at (λ _, has OAuthSessionLookup.last_active_ip)
        (now_ - DAYS 30)
  | InactiveCompatIps =>
      by_date_of CompatSessionLookup.last_active_at (λ _, has CompatSessionLookup.last_active_ip)
        (now_ - DAYS 30)
  | InactiveUserIps =>
      by_date_of UserSessionRow.last_active_at (λ _, has UserSessionRow.last_active_ip)
        (now_ - DAYS 30)
  | AuthorizationGrants =>
      by_id_of GrantLookup.oauth2_authorization_grant_id any (max_ulid_at (now_ - DAYS 7))
  | DeviceCodeGrants =>
      by_id_of OAuth2DeviceGrantLookup.oauth2_device_code_grant_id any
        (max_ulid_at (now_ - DAYS 7))
  | UpstreamSessions =>
      by_id_of UpstreamSessionLookup.upstream_oauth_authorization_session_id
        (lacks UpstreamSessionLookup.user_session_id) (max_ulid_at (now_ - DAYS 7))
  | UpstreamLinks =>
      by_id_of LinkLookup.upstream_oauth_link_id (lacks LinkLookup.user_id)
        (max_ulid_at (now_ - DAYS 7))
  | UserRegistrations =>
      by_id_of UserRegistrationLookup.user_registration_id any (max_ulid_at (now_ - DAYS 30))
  | UserRecoverySessions =>
      by_id_of UserRecoverySessionRow.user_recovery_session_id any (max_ulid_at (now_ - DAYS 7))
  | UserEmailAuthentications =>
      by_id_of UserEmailAuthenticationLookup.user_email_authentication_id any
        (max_ulid_at (now_ - DAYS 7))
  | QueueJobs => by_id_of QueueJobRow.queue_job_id ended (max_ulid_at (now_ - DAYS 30))
  end.

(** The identifiers of the table a job works on. *)
Definition keys (j : CleanupJob) (d : Db) : gset Z :=
  match j with
  | RevokedAccessTokens | ExpiredAccessTokens => dom (oauth2_access_tokens d)
  | RevokedRefreshTokens | ConsumedRefreshTokens => dom (oauth2_refresh_tokens d)
  | FinishedCompatSessions | InactiveCompatIps => dom (compat_sessions d)
  | FinishedOAuth2Sessions | InactiveOAuth2Ips => dom (oauth2_sessions d)
  | FinishedUserSessions | InactiveUserIps => dom (user_sessions d)
  | AuthorizationGrants => dom (oauth2_authorization_grants d)
  | DeviceCodeGrants => dom (oauth2_device_code_grant d)
  | UpstreamSessions => dom (upstream_oauth_authorization_sessions (accounts d))
  | UpstreamLinks => dom (upstream_oauth_links (accounts d))
  | UserRegistrations => dom (user_registrations (accounts d))
  | UserRecoverySessions => dom (user_recovery_sessions (accounts d))
  | UserEmailAuthentications => dom (user_email_authentications (accounts d))
  | QueueJobs => dom (queue_jobs d)
  end.

(** Addresses are forgotten, everything else is deleted. *)
Definition deletes (j : CleanupJob) : bool :=
  match j with InactiveOAuth2Ips | InactiveCompatIps | InactiveUserIps => false | _ => true end.

Definition cursor_of (j : CleanupJob) : option Z → Z → bool :=
  match j with
  | AuthorizationGrants | DeviceCodeGrants | UpstreamSessions | UpstreamLinks
  | UserRegistrations | UserRecoverySessions | UserEmailAuthentications | QueueJobs => after_id
  | _ => from_date
  end.

(** The primary keys the deletions rely on. *)
Definition keyed_table (j : CleanupJob) (d : Db) : Prop :=
  match j with
  | RevokedAccessTokens | ExpiredAccessTokens =>
      keyed OAuth2AccessTokenLookup.oauth2_access_token_id (oauth2_access_tokens d)
  | RevokedRefreshTokens | ConsumedRefreshTokens =>
      keyed OAuth2RefreshTokenLookup.oauth2_refresh_token_id (oauth2_refresh_tokens d)
  | FinishedCompatSessions | InactiveCompatIps =>
      keyed CompatSessionLookup.compat_session_id (compat_sessions d)
  | FinishedOAuth2Sessions | InactiveOAuth2Ips =>
      keyed OAuthSessionLookup.oauth2_session_id (oauth2_sessions d)
  | FinishedUserSessions | InactiveUserIps =>
      keyed UserSessionRow.user_session_id (user_sessions d)
  | AuthorizationGrants =>
      keyed GrantLookup.oauth2_authorization_grant_id (oauth2_authorization_grants d)
  | DeviceCodeGrants =>
      keyed OAuth2DeviceGrantLookup.oauth2_device_code_grant_id (oauth2_device_code_grant d)
  | UpstreamSessions =>
      keyed UpstreamSessionLookup.upstream_oauth_authorization_session_id
        (upstream_oauth_authorization_sessions (accounts d))
  | UpstreamLinks => keyed LinkLookup.upstream_oauth_link_id (upstream_oauth_links (accounts d))
  | UserRegistrations =>
      keyed UserRegistrationLookup.user_registration_id (user_registrations (accounts d))
  | UserRecoverySessions =>
      keyed UserRecoverySessionRow.user_recovery_session_id (user_recovery_sessions (accounts d))
  | UserEmailAuthentications =>
      keyed UserEmailAuthenticationLookup.user_email_authentication_id
        (user_email_authentications (accounts d))
  | QueueJobs => keyed QueueJobRow.queue_job_id (queue_jobs d)
  end.

Section Jobs.
Context {R : Type} {texts : ErrorTexts}.

(** The job, and the operation its loop repeats. *)
Definition run (j : CleanupJob) (cancelled : nat → bool) (fuel : nat) :
    M (World R) JobError (option nat) :=
  match j with
  | RevokedAccessTokens => cleanup_revoked_oauth_access_tokens_job cancelled fuel
  | ExpiredAccessTokens => cleanup_expired_oauth_access_tokens_job cancelled fuel
  | RevokedRefreshTokens => cleanup_revoked_oauth_refresh_tokens_job cancelled fuel
  | ConsumedRefreshTokens => cleanup_consumed_oauth_refresh_tokens_job cancelled fuel
  | FinishedCompatSessions => cleanup_finished_compat_sessions_job cancelled fuel
  | FinishedOAuth2Sessions => cleanup_finished_oauth2_sessions_job cancelled fuel
  | FinishedUserSessions => cleanup_finished_user_sessions_job cancelled fuel
  | InactiveOAuth2Ips => cleanup_inactive_oauth2_session_ips_job cancelled fuel
  | InactiveCompatIps => cleanup_inactive_compat_session_ips_job cancelled fuel
  | InactiveUserIps => cleanup_inactive_user_session_ips_job cancelled fuel
  | AuthorizationGrants => cleanup_oauth_authorization_grants_job cancelled fuel
  | DeviceCodeGrants => cleanup_oauth_device_code_grants_job cancelled fuel
  | UpstreamSessions => cleanup_upstream_oauth_sessions_job cancelled fuel
  | UpstreamLinks => cleanup_upstream_oauth_links_job cancelled fuel
  | UserRegistrations => cleanup_user_registrations_job cancelled fuel
  | UserRecoverySessions => cleanup_user_recovery_sessions_job cancelled fuel
  | UserEmailAuthentications => cleanup_user_email_authentications_job cancelled fuel
  | QueueJobs => cleanup_queue_jobs_job cancelled fuel
  end.

(** *** The statement of each job *)

(** The operation of a job at its start. *)
Definition operation (j : CleanupJob) (now_ : DateTime) (since : option Z) :
    M (World R) DatabaseError (nat * option Z) :=
  match j with
  | RevokedAccessTokens => AccessTokenCleanup.cleanup_revoked since (now_ - HOURS 1) BATCH_SIZE
  | ExpiredAccessTokens => AccessTokenCleanup.cleanup_expired since (now_ - DAYS 30) BATCH_SIZE
  | RevokedRefreshTokens => RefreshTokenCleanup.cleanup_revoked since (now_ - HOURS 1) BATCH_SIZE
  | ConsumedRefreshTokens => RefreshTokenCleanup.cleanup_consumed since (now_ - HOURS 1) BATCH_SIZE
  | FinishedCompatSessions =>
      CompatSessionRepository.cleanup_finished since (now_ - DAYS 30) BATCH_SIZE
  | FinishedOAuth2Sessions =>
      OAuth2SessionCleanup.cleanup_finished since (now_ - DAYS 30) BATCH_SIZE
  | FinishedUserSessions =>
      BrowserSessionCleanup.cleanup_finished since (now_ - DAYS 30) BATCH_SIZE
  | InactiveOAuth2Ips =>
      OAuth2SessionCleanup.cleanup_inactive_ips since (now_ - DAYS 30) BATCH_SIZE
  | InactiveCompatIps =>
      CompatSessionRepository.cleanup_inactive_ips since (now_ - DAYS 30) BATCH_SIZE
  | InactiveUserIps =>
      BrowserSessionCleanup.cleanup_inactive_ips since (now_ - DAYS 30) BATCH_SIZE
  | AuthorizationGrants =>
      AuthorizationGrantCleanup.cleanup since (max_ulid_at (now_ - DAYS 7)) BATCH_SIZE
  | DeviceCodeGrants =>
      DeviceCodeGrantCleanup.cleanup since (max_ulid_at (now_ - DAYS 7)) BATCH_SIZE
  | UpstreamSessions =>
      UpstreamOAuthSessionRepository.cleanup_orphaned since (max_ulid_at (now_ - DAYS 7)) BATCH_SIZE
  | UpstreamLinks =>
      UpstreamOAuthLinkRepository.cleanup_orphaned since (max_ulid_at (now_ - DAYS 7)) BATCH_SIZE
  | UserRegistrations =>
      UserRegistrationRepository.cleanup since (max_ulid_at (now_ - DAYS 30)) BATCH_SIZE
  | UserRecoverySessions =>
      UserRecoveryRepository.cleanup since (max_ulid_at (now_ - DAYS 7)) BATCH_SIZE
  | UserEmailAuthentications =>
      UserEmailAuthenticationRepository.cleanup_authentications since
        (max_ulid_at (now_ - DAYS 7)) BATCH_SIZE
  | QueueJobs => QueueJobRepository.cleanup since (max_ulid_at (now_ - DAYS 30)) BATCH_SIZE
  end.

Lemma run_operation j cancelled fuel w :
  run j cancelled fuel w
  = batches cancelled (operation j (w_clock w (w_ticks w))) fuel 0 None 0 (Storage.tick w).
Proof. by destruct j. Qed.
End Jobs.

Section Statements.

Lemma access_tokens_cleaned col until :
  cleans OAuth2AccessTokenLookup.oauth2_access_token_id (date col)
    (old_date col (λ _, any) until) true AccessTokenCleanup.delete_stmt.
Proof.
  apply cleans_delete; [done|]. intros ids d n d' _ _ H.
  eexists _, (λ r, r). split; [exact H|]. rewrite map_fmap_id. done.
Qed.

Lemma access_tokens_counted :
  counts OAuth2AccessTokenLookup.oauth2_access_token_id AccessTokenCleanup.delete_stmt.
Proof.
  apply counts_delete. intros ids d n d' H. eexists _, (λ r, r). split; [exact H|].
  by rewrite map_fmap_id.
Qed.

Lemma refresh_tokens_counted :
  counts OAuth2RefreshTokenLookup.oauth2_refresh_token_id RefreshTokenCleanup.delete_stmt.
Proof.
  apply counts_delete. intros ids d n d' H.
  by exists (set_rows (RefreshTokenCleanup.clear_next ids <$> oauth2_refresh_tokens d) d),
    (RefreshTokenCleanup.clear_next ids).
Qed.

Lemma revoked_refresh_tokens_cleaned until :
  cleans OAuth2RefreshTokenLookup.oauth2_refresh_token_id
    (date OAuth2RefreshTokenLookup.revoked_at)
    (old_date OAuth2RefreshTokenLookup.revoked_at (λ _, any) until) true
    RefreshTokenCleanup.delete_stmt.
Proof.
  apply cleans_delete; [done|]. intros ids d n d' _ _ H.
  by exists (set_rows (RefreshTokenCleanup.clear_next ids <$> oauth2_refresh_tokens d) d),
    (RefreshTokenCleanup.clear_next ids).
Qed.

(** A token whose next one is deleted stays as consumed as it was. *)
Lemma next_consumed_kept ids d n d' r :
  keyed OAuth2RefreshTokenLookup.oauth2_refresh_token_id (oauth2_refresh_tokens d) →
  (∀ k, k ∈ ids → ∃ r, oauth2_refresh_tokens d !! k = Some r ∧
     is_Some (OAuth2RefreshTokenLookup.consumed_at r)) →
  RefreshTokenCleanup.delete_stmt ids d = Some (n, d') →
  RefreshTokenCleanup.next_consumed d' (RefreshTokenCleanup.clear_next ids r)
  = RefreshTokenCleanup.next_consumed d r.
Proof.
  intros Hk Hids [= _ <-]. unfold RefreshTokenCleanup.next_consumed. simpl.
  destruct (OAuth2RefreshTokenLookup.next_oauth2_refresh_token_id r) as [i|]; simpl; [|done].
  case_decide as Hin.
  - destruct (Hids i Hin) as (x & -> & Hx). by rewrite bool_decide_eq_true_2.
  - destruct (oauth2_refresh_tokens d !! i) as [x|] eqn:Hx.
    + assert (filter (λ kr : Z * OAuth2RefreshTokenLookup.t, bool_decide
                 (OAuth2RefreshTokenLookup.oauth2_refresh_token_id kr.2 ∈ ids) = false)
                (RefreshTokenCleanup.clear_next ids <$> oauth2_refresh_tokens d) !! i
              = Some (RefreshTokenCleanup.clear_next ids x)) as ->; [|done].
      apply map_lookup_filter_Some. rewrite lookup_fmap, Hx. split; [done|]. simpl.
      rewrite (Hk _ _ Hx). by apply bool_decide_eq_false.
    + assert (filter (λ kr : Z * OAuth2RefreshTokenLookup.t, bool_decide
                 (OAuth2RefreshTokenLookup.oauth2_refresh_token_id kr.2 ∈ ids) = false)
                (RefreshTokenCleanup.clear_next ids <$> oauth2_refresh_tokens d) !! i
              = None) as ->; [|done].
      apply map_lookup_filter_None. left. by rewrite lookup_fmap, Hx.
Qed.

Lemma consumed_refresh_tokens_cleaned until :
  cleans OAuth2RefreshTokenLookup.oauth2_refresh_token_id
    (date OAuth2RefreshTokenLookup.consumed_at)
    (old_date OAuth2RefreshTokenLookup.consumed_at RefreshTokenCleanup.next_consumed until) true
    RefreshTokenCleanup.delete_stmt.
Proof.
  apply cleans_delete; [done|]. intros ids d n d' Hk Hids H.
  exists (set_rows (RefreshTokenCleanup.clear_next ids <$> oauth2_refresh_tokens d) d),
    (RefreshTokenCleanup.clear_next ids).
  split_and!; [done|done|]. intros k r Hr. split_and!; [done|done|]. intros Hn.
  unfold old_date. simpl. f_equal. eapply next_consumed_kept; [done| |exact H].
  intros k' (r' & Hr' & Ho)%Hids. exists r'. split; [done|].
  unfold old_date in Ho. destruct (OAuth2RefreshTokenLookup.consumed_at r'); [by eexists|].
  by rewrite andb_false_r in Ho.
Qed.

Lemma kept_lookup {Row} (ids : list Z) (m : gmap Z Row) k :
  filter (λ kr : Z * Row, bool_decide (kr.1 ∉ ids) = true) m !! k
  = if decide (k ∈ ids) then None else (λ r, r) <$> m !! k.
Proof.
  case_decide as Hk.
  - apply map_lookup_filter_None. right. intros r _. simpl. by rewrite bool_decide_eq_false_2 by tauto.
  - destruct (m !! k) as [r|] eqn:Hr; simpl.
    + apply map_lookup_filter_Some. split; [done|]. by apply bool_decide_eq_true.
    + apply map_lookup_filter_None. by left.
Qed.

Lemma compat_sessions_cleaned until :
  cleans CompatSessionLookup.compat_session_id (date CompatSessionLookup.finished_at)
    (old_date CompatSessionLookup.finished_at (λ _, any) until) true
    CompatSessionRepository.delete_sessions_stmt.
Proof.
  intros ids d n d' Hk _ _ H. unfold CompatSessionRepository.delete_sessions_stmt in H.
  case_bool_decide; [|done]. injection H as _ <-.
  apply (effect_delete _ _ _ _ _ _ (λ r, r)); [|done]. intros k. simpl. apply kept_lookup.
Qed.

Lemma compat_sessions_counted :
  counts CompatSessionLookup.compat_session_id CompatSessionRepository.delete_sessions_stmt.
Proof.
  intros ids d n d' _ _ _ H. unfold CompatSessionRepository.delete_sessions_stmt in H.
  case_bool_decide; [|done]. by injection H as <- _.
Qed.

Lemma oauth2_sessions_deleted ids d n d' :
  OAuth2SessionCleanup.delete_stmt ids d = Some (n, d') →
  ∃ d0, delete_where_stmt (λ r, bool_decide (OAuthSessionLookup.oauth2_session_id r ∈ ids)) d0
        = Some (n, d') ∧ oauth2_sessions d0 = oauth2_sessions d.
Proof.
  unfold OAuth2SessionCleanup.delete_stmt. case_bool_decide as Hg; [|done]. intros H.
  eexists. split; [exact H|done].
Qed.

Lemma oauth2_sessions_cleaned until :
  cleans OAuthSessionLookup.oauth2_session_id (date OAuthSessionLookup.finished_at)
    (old_date OAuthSessionLookup.finished_at (λ _, any) until) true
    OAuth2SessionCleanup.delete_stmt.
Proof.
  apply cleans_delete; [done|].
  intros ids d n d' _ _ (d0 & H & Hd)%oauth2_sessions_deleted. exists d0, (λ r, r).
  rewrite map_fmap_id. done.
Qed.

Lemma oauth2_sessions_counted :
  counts OAuthSessionLookup.oauth2_session_id OAuth2SessionCleanup.delete_stmt.
Proof.
  apply counts_delete. intros ids d n d' (d0 & H & Hd)%oauth2_sessions_deleted.
  exists d0, (λ r, r). by rewrite map_fmap_id.
Qed.

Lemma user_sessions_deleted ids d n d' :
  BrowserSessionCleanup.delete_stmt ids d = Some (n, d') →
  (∃ d0, delete_where_stmt (λ r, bool_decide (UserSessionRow.user_session_id r ∈ ids)) d0
         = Some (n, d') ∧ user_sessions d0 = user_sessions d) ∧
  oauth2_sessions d' = oauth2_sessions d ∧ compat_sessions d' = compat_sessions d.
Proof.
  unfold BrowserSessionCleanup.delete_stmt. case_match eqn:Hg; [|done]. intros H. split.
  - eexists. split; [exact H|done].
  - by injection H as _ <-.
Qed.

Lemma user_sessions_cleaned until :
  cleans UserSessionRow.user_session_id (date UserSessionRow.finished_at)
    (old_date UserSessionRow.finished_at BrowserSessionCleanup.unreferenced until) true
    BrowserSessionCleanup.delete_stmt.
Proof.
  apply cleans_delete; [done|].
  intros ids d n d' _ _ [(d0 & Hdel & Hd) [Ho Hc]]%user_sessions_deleted. exists d0, (λ r, r).
  rewrite map_fmap_id. split_and!; [done|done|]. intros k r _. split_and!; [done|done|]. intros _.
  unfold old_date, BrowserSessionCleanup.unreferenced. by rewrite Ho, Hc.
Qed.

Lemma user_sessions_counted :
  counts UserSessionRow.user_session_id BrowserSessionCleanup.delete_stmt.
Proof.
  apply counts_delete. intros ids d n d' [(d0 & H & Hd) _]%user_sessions_deleted.
  exists d0, (λ r, r). by rewrite map_fmap_id.
Qed.

(** The tables deleted from by identifier, some with what refers to the rows. *)
Lemma cleans_by_key {Row} `{!Table Row} (id f : Row → Z) old stmt :
  (∀ m d, rows (Row := Row) (set_rows m d) = m) → (∀ d d' r, old d' r = old d r) →
  (∀ ids d n d', stmt ids d = Some (n, d') →
     ∃ d0, delete_where_stmt (λ r : Row, bool_decide (id r ∈ ids)) d0 = Some (n, d') ∧
       rows d0 = rows (Row := Row) d) →
  cleans id f old true stmt.
Proof.
  intros Hset Hold Hstmt. apply cleans_delete; [done|].
  intros ids d n d' _ _ (d0 & H0 & Hd)%Hstmt. exists d0, (λ r, r).
  rewrite map_fmap_id. split_and!; [done|done|]. intros k r _. auto.
Qed.

Lemma unlisted_lookup {Row} (ids : list Z) (m : gmap Z Row) k :
  filter (λ kr : Z * Row, kr.1 ∉ ids) m !! k
  = if decide (k ∈ ids) then None else (λ r, r) <$> m !! k.
Proof.
  case_decide as Hin.
  - apply map_lookup_filter_None. right. intros r _. simpl. tauto.
  - rewrite option_fmap_id. apply option_eq. intros r. rewrite map_lookup_filter_Some. simpl. tauto.
Qed.

Lemma upstream_sessions_cleaned until :
  cleans UpstreamSessionLookup.upstream_oauth_authorization_session_id
    UpstreamSessionLookup.upstream_oauth_authorization_session_id
    (old_id UpstreamSessionLookup.upstream_oauth_authorization_session_id
       (lacks UpstreamSessionLookup.user_session_id) until) true
    (λ ids d, Some (length ids, delete_upstream_sessions ids d)).
Proof.
  intros ids d n d' Hk _ _ [= _ <-]. apply (effect_delete _ _ _ _ _ _ (λ r, r)); [|done].
  intros k. apply unlisted_lookup.
Qed.

Lemma registrations_cleaned until :
  cleans UserRegistrationLookup.user_registration_id UserRegistrationLookup.user_registration_id
    (old_id UserRegistrationLookup.user_registration_id any until) true
    UserRegistrationRepository.delete_registrations_stmt.
Proof.
  apply cleans_delete; [done|]. intros ids d n d' _ _ H.
  eexists _, (λ r, if bool_decide (UserRegistrationLookup.email_authentication_id r ∈ Some <$> _)
                   then UserRegistrationRepository.with_email_authentication_id None r else r).
  split_and!; [exact H|reflexivity|]. intros k r _. unfold old_id.
  by case_bool_decide.
Qed.

Lemma authorization_grants_cleaned until :
  let id := GrantLookup.oauth2_authorization_grant_id in
  cleans id id (old_id id any until) true
    (λ ids, delete_where_stmt (λ r, bool_decide (id r ∈ ids))).
Proof. apply cleans_by_key; [done|done|]. intros ids d n d' H. by exists d. Qed.

Lemma device_code_grants_cleaned until :
  let id := OAuth2DeviceGrantLookup.oauth2_device_code_grant_id in
  cleans id id (old_id id any until) true
    (λ ids, delete_where_stmt (λ r, bool_decide (id r ∈ ids))).
Proof. apply cleans_by_key; [done|done|]. intros ids d n d' H. by exists d. Qed.

Lemma upstream_links_cleaned until :
  let id := LinkLookup.upstream_oauth_link_id in
  cleans id id (old_id id (lacks LinkLookup.user_id) until) true
    UpstreamOAuthLinkRepository.cleanup_links_stmt.
Proof.
  apply cleans_by_key; [done|done|]. intros ids d n d' H. eexists. split; [exact H|done].
Qed.

Lemma recovery_sessions_cleaned until :
  let id := UserRecoverySessionRow.user_recovery_session_id in
  cleans id id (old_id id any until) true UserRecoveryRepository.delete_sessions_stmt.
Proof.
  apply cleans_by_key; [done|done|]. intros ids d n d' H. eexists. split; [exact H|done].
Qed.

Lemma email_authentications_cleaned until :
  let id := UserEmailAuthenticationLookup.user_email_authentication_id in
  cleans id id (old_id id any until) true
    UserEmailAuthenticationRepository.delete_authentications_stmt.
Proof.
  intros id ids d n d' Hk _ _ [= _ <-]. apply (effect_delete _ _ _ _ _ _ (λ r, r)); [|done].
  intros k. apply unlisted_lookup.
Qed.

Lemma queue_jobs_cleaned until :
  cleans QueueJobRow.queue_job_id QueueJobRow.queue_job_id
    (old_id QueueJobRow.queue_job_id ended until) true QueueJobRepository.delete_stmt.
Proof.
  intros ids d n d' Hk _ _ [= _ <-].
  apply (effect_delete _ _ _ _ _ _ (λ r, QueueJobRepository.with_next_attempt
    (QueueJobRepository.unless_deleted ids (QueueJobRow.next_attempt_id r)) r)); [|done].
  intros k. simpl. rewrite map_lookup_imap. destruct (queue_jobs d !! k); simpl; by case_decide.
Qed.
End Statements.

Section Jobs.
Context {R : Type} {texts : ErrorTexts}.
Implicit Types w : World R.

Lemma queue_cleanup_rows since until w :
  QueueJobRepository.cleanup since until BATCH_SIZE w =
  (do to_x <- gets (λ w : World R,
     cleanup_rows QueueJobRow.queue_job_id ended since until BATCH_SIZE (w_txn w));
   do! execute (QueueJobRepository.delete_stmt (QueueJobRow.queue_job_id <$> to_x));
   ret (length (QueueJobRow.queue_job_id <$> to_x),
        QueueJobRepository.max_id (QueueJobRow.queue_job_id <$> to_x))) w.
Proof.
  unfold QueueJobRepository.cleanup, QueueJobRepository.to_delete, cleanup_rows, bind, gets.
  by rewrite fmap_take.
Qed.

#[export] Instance operation_cleans j now_ :
  CleansUp (R := R) (cursor_of j) (deletes j) (keyed_table j) (old_rows j now_) (keys j)
    (operation j now_).
Proof.
  destruct j.
  - refine (cleans_by_date OAuth2AccessTokenLookup.oauth2_access_token_id true
      OAuth2AccessTokenLookup.revoked_at (λ _, any) (now_ - HOURS 1)
      AccessTokenCleanup.delete_stmt _ _ (access_tokens_cleaned _ _) access_tokens_counted); by intros.
  - refine (cleans_by_date OAuth2AccessTokenLookup.oauth2_access_token_id true
      OAuth2AccessTokenLookup.expires_at (λ _, any) (now_ - DAYS 30)
      AccessTokenCleanup.delete_stmt _ _ (access_tokens_cleaned _ _) access_tokens_counted); by intros.
  - refine (cleans_by_date OAuth2RefreshTokenLookup.oauth2_refresh_token_id true
      OAuth2RefreshTokenLookup.revoked_at (λ _, any) (now_ - HOURS 1)
      RefreshTokenCleanup.delete_stmt _ _ (revoked_refresh_tokens_cleaned _) refresh_tokens_counted); by intros.
  - refine (cleans_by_date OAuth2RefreshTokenLookup.oauth2_refresh_token_id true
      OAuth2RefreshTokenLookup.consumed_at RefreshTokenCleanup.next_consumed (now_ - HOURS 1)
      RefreshTokenCleanup.delete_stmt _ _ (consumed_refresh_tokens_cleaned _) refresh_tokens_counted); by intros.
  - refine (cleans_by_date CompatSessionLookup.compat_session_id true
      CompatSessionLookup.finished_at (λ _, any) (now_ - DAYS 30)
      CompatSessionRepository.delete_sessions_stmt _ _ (compat_sessions_cleaned _) compat_sessions_counted); by intros.
  - refine (cleans_by_date OAuthSessionLookup.oauth2_session_id true
      OAuthSessionLookup.finished_at (λ _, any) (now_ - DAYS 30)
      OAuth2SessionCleanup.delete_stmt _ _ (oauth2_sessions_cleaned _) oauth2_sessions_counted); by intros.
  - refine (cleans_by_date UserSessionRow.user_session_id true
      UserSessionRow.finished_at BrowserSessionCleanup.unreferenced (now_ - DAYS 30)
      BrowserSessionCleanup.delete_stmt _ _ (user_sessions_cleaned _) user_sessions_counted); by intros.
  - refine (cleans_by_date OAuthSessionLookup.oauth2_session_id false
      OAuthSessionLookup.last_active_at (λ _, has OAuthSessionLookup.last_active_ip) (now_ - DAYS 30)
      _ _ _ (cleans_update _ _ _ OAuth2SessionCleanup.without_ip _ _ _ _) (counts_update _ _)); by intros.
  - refine (cleans_by_date CompatSessionLookup.compat_session_id false
      CompatSessionLookup.last_active_at (λ _, has CompatSessionLookup.last_active_ip) (now_ - DAYS 30)
      _ _ _ (cleans_update _ _ _ CompatSessionRepository.without_ip _ _ _ _) (counts_update _ _)); by intros.
  - refine (cleans_by_date UserSessionRow.user_session_id false
      UserSessionRow.last_active_at (λ _, has UserSessionRow.last_active_ip) (now_ - DAYS 30)
      _ _ _ (cleans_update _ _ _ BrowserSessionCleanup.without_ip _ _ _ _) (counts_update _ _)); by intros.
  - refine (cleans_by_id GrantLookup.oauth2_authorization_grant_id true any
      (max_ulid_at (now_ - DAYS 7)) _ _ _ (authorization_grants_cleaned _)); by intros.
  - refine (cleans_by_id OAuth2DeviceGrantLookup.oauth2_device_code_grant_id true any
      (max_ulid_at (now_ - DAYS 7)) _ _ _ (device_code_grants_cleaned _)); by intros.
  - refine (cleans_by_id UpstreamSessionLookup.upstream_oauth_authorization_session_id true (lacks UpstreamSessionLookup.user_session_id)
      (max_ulid_at (now_ - DAYS 7)) _ _ _ (upstream_sessions_cleaned _)); by intros.
  - refine (cleans_by_id LinkLookup.upstream_oauth_link_id true (lacks LinkLookup.user_id)
      (max_ulid_at (now_ - DAYS 7)) _ _ _ (upstream_links_cleaned _)); by intros.
  - refine (cleans_by_id UserRegistrationLookup.user_registration_id true any
      (max_ulid_at (now_ - DAYS 30)) _ _ _ (registrations_cleaned _)); by intros.
  - refine (cleans_by_id UserRecoverySessionRow.user_recovery_session_id true any
      (max_ulid_at (now_ - DAYS 7)) _ _ _ (recovery_sessions_cleaned _)); by intros.
  - refine (cleans_by_id UserEmailAuthenticationLookup.user_email_authentication_id true any
      (max_ulid_at (now_ - DAYS 7)) _ _ _ (email_authentications_cleaned _)); by intros.
  - refine (cleans_by_id QueueJobRow.queue_job_id true ended (max_ulid_at (now_ - DAYS 30))
      QueueJobRepository.delete_stmt _ _ (queue_jobs_cleaned _)).
    intros since w. apply queue_cleanup_rows.
Qed.
End Jobs.

(** ** The constraints survive the deletions *)

Section Integrity.

(** A column emptied where it refers to a deleted row. *)
Lemma refs_cleared {Row Row'} (col : Row → option Z) f (m : gmap Z Row) id (tgt : gmap Z Row') ids :
  refs col m tgt → keyed id tgt →
  (∀ r, col (f r) = QueueJobRepository.unless_deleted ids (col r)) →
  refs col (f <$> m) (filter (λ kr, bool_decide (id kr.2 ∈ ids) = false) tgt).
Proof.
  intros Hm Hk Hf k r v (r0 & <- & Hr0)%lookup_fmap_Some. rewrite Hf.
  unfold QueueJobRepository.unless_deleted. destruct (col r0) as [i|] eqn:Hi; [|done].
  case_decide as Hin; [done|]. intros [= <-]. destruct (Hm _ _ _ Hr0 Hi) as [r' Hr'].
  exists r'. apply map_lookup_filter_Some. split; [done|]. simpl. rewrite (Hk _ _ Hr').
  by apply bool_decide_eq_false.
Qed.

Lemma delete_access_tokens_integrity ids d n d' :
  AccessTokenCleanup.delete_stmt ids d = Some (n, d') → preserves_integrity d d'.
Proof.
  intros [= _ <-] H. destruct H. split; simpl; try deletion_solve.
  by apply refs_cleared.
Qed.

Lemma delete_refresh_tokens_integrity ids d n d' :
  RefreshTokenCleanup.delete_stmt ids d = Some (n, d') → preserves_integrity d d'.
Proof.
  intros [= _ <-] H. destruct H. split; simpl; try deletion_solve.
  apply refs_filter_source, refs_cleared; [by apply refs_fmap_target | by apply keyed_fmap | done].
Qed.

(** A table none of whose rows refers to the rows deleted from another. *)
Lemma refs_spared {Row Row'} (col : Row → option Z) (m : gmap Z Row) id (tgt : gmap Z Row')
    (ids : list Z) :
  refs col m tgt → keyed id tgt →
  (∀ k r v, m !! k = Some r → col r = Some v → v ∉ ids) →
  refs col m (filter (λ kr, bool_decide (id kr.2 ∈ ids) = false) tgt).
Proof.
  intros Hm Hk Hn. apply refs_filter_target; [done|]. intros k r v r' Hr Hv Hr'. simpl.
  apply bool_decide_eq_false. rewrite (Hk _ _ Hr'). by eapply Hn.
Qed.

Definition gone_in (ids : list Ulid) (s : option Ulid) : bool :=
  match s with Some s => bool_decide (s ∈ ids) | None => false end.

Lemma gone_in_false ids s v : gone_in ids s = false → s = Some v → v ∉ ids.
Proof. intros H ->. by apply bool_decide_eq_false in H. Qed.

Lemma delete_oauth2_sessions_integrity ids d n d' :
  OAuth2SessionCleanup.delete_stmt ids d = Some (n, d') → preserves_integrity d d'.
Proof.
  unfold OAuth2SessionCleanup.delete_stmt. case_bool_decide as Hg; [|done]. intros H Hd.
  set (access := OAuth2AccessTokenLookup.oauth2_access_token_id <$> _) in H.
  set (refresh := OAuth2RefreshTokenLookup.oauth2_refresh_token_id <$> _) in H.
  assert (∀ k r, oauth2_access_tokens d !! k = Some r →
            OAuth2AccessTokenLookup.oauth2_session_id r ∈ ids →
            OAuth2AccessTokenLookup.oauth2_access_token_id r ∈ access) as Haccess.
  { intros k r Hr Hin. apply list_elem_of_fmap_2. eapply elem_of_matching; [exact Hr|].
    by apply bool_decide_eq_true. }
  assert (∀ k r, oauth2_refresh_tokens d !! k = Some r →
            OAuth2RefreshTokenLookup.oauth2_session_id r ∈ ids →
            OAuth2RefreshTokenLookup.oauth2_refresh_token_id r ∈ refresh) as Hrefresh.
  { intros k r Hr Hin. apply list_elem_of_fmap_2. eapply elem_of_matching; [exact Hr|].
    by apply bool_decide_eq_true. }
  clearbody access refresh.
  destruct (RefreshTokenCleanup.delete_stmt refresh d) as [[n1 d1]|] eqn:H1; [|done].
  pose proof (delete_refresh_tokens_integrity _ _ _ _ H1 Hd) as Hd1. simpl in H.
  destruct (AccessTokenCleanup.delete_stmt access d1) as [[n2 d2]|] eqn:H2; [|done].
  pose proof (delete_access_tokens_integrity _ _ _ _ H2 Hd1) as Hd2. simpl in H.
  injection H as _ <-. injection H1 as _ <-. injection H2 as _ <-.
  destruct Hd2. split; simpl in *; try deletion_solve.
  - apply refs_spared; [done..|]. intros k r v [Hr Hp]%map_lookup_filter_Some [= <-]. simpl in Hp.
    apply bool_decide_eq_false in Hp. eauto.
  - apply refs_spared; [done..|].
    intros k r v (r1 & <- & [(r0 & <- & Hr0)%lookup_fmap_Some Hp]%map_lookup_filter_Some)%lookup_fmap_Some [= <-].
    simpl in *. apply bool_decide_eq_false in Hp. eauto.
  - apply refs_spared; [done..|]. intros k r v Hr Hv. by apply (gone_in_false _ _ _ (Hg k r Hr)).
  - apply refs_spared; [by apply refs_filter_source|done|]. intros k r v [_ Hp]%map_lookup_filter_Some Hv.
    simpl in Hp. by apply (gone_in_false _ _ _ Hp Hv).
Qed.

Lemma delete_compat_sessions_integrity ids d n d' :
  CompatSessionRepository.delete_sessions_stmt ids d = Some (n, d') → preserves_integrity d d'.
Proof.
  unfold CompatSessionRepository.delete_sessions_stmt. case_bool_decide as Hg; [|done].
  intros [= _ <-] Hd. destruct Hd. split; simpl in *; try deletion_solve.
  - apply refs_filter_target; [deletion_solve|]. intros k r v r' [_ Hp]%map_lookup_filter_Some [= <-] _.
    exact Hp.
  - apply refs_filter_target; [deletion_solve|]. intros k r v r' [_ Hp]%map_lookup_filter_Some [= <-] _.
    exact Hp.
  - intros k r v Hr [= <-]. exact (Hg k r Hr).
  - apply refs_filter_target; [deletion_solve|]. intros k r v r' [_ Hp]%map_lookup_filter_Some Hv _.
    simpl in *. by rewrite Hv in Hp.
Qed.

(** The tables that keep no reference to the browser sessions deleted. *)
Lemma refs_kept {Row Row'} (col : Row → option Z) (m : gmap Z Row) id (tgt : gmap Z Row')
    (ids : list Z) :
  refs col m tgt → keyed id tgt →
  map_Forall (λ _ r, match col r with Some s => bool_decide (s ∉ ids) | None => true end = true) m →
  refs col m (filter (λ kr, bool_decide (id kr.2 ∈ ids) = false) tgt).
Proof.
  intros Hm Hk Hkept. apply refs_spared; [done..|]. intros k r v Hr Hv.
  specialize (Hkept k r Hr). simpl in Hkept. rewrite Hv in Hkept.
  by apply bool_decide_eq_true in Hkept.
Qed.

Lemma delete_user_sessions_integrity ids d n d' :
  BrowserSessionCleanup.delete_stmt ids d = Some (n, d') → preserves_integrity d d'.
Proof.
  unfold BrowserSessionCleanup.delete_stmt. case_match eqn:Hg; [|done].
  apply andb_prop in Hg as [[Hgrants Ho]%andb_prop Hc].
  apply bool_decide_eq_true in Hgrants, Ho, Hc.
  intros [= _ <-] Hd. destruct Hd. split; simpl in *; try deletion_solve.
  - by apply refs_kept.
  - by apply refs_cleared.
  - by apply refs_kept.
  - by apply refs_kept.
  - apply refs_kept; [by apply refs_filter_source|done|].
    intros k r [_ Hp]%map_lookup_filter_Some. exact Hp.
Qed.

Lemma delete_user_sessions_accounts ids d n d' :
  BrowserSessionCleanup.delete_stmt ids d = Some (n, d') → integrity d → preserves_accounts d d'.
Proof.
  unfold BrowserSessionCleanup.delete_stmt. case_match eqn:Hg; [|done].
  intros [= _ <-] Hi Hd. destruct Hd. split; simpl in *; try deletion_solve.
  apply refs_cleared; [done | apply (user_sessions_pkey _ Hi) | done].
Qed.

#[local] Hint Extern 1 (keeps (keeps_db preserves_integrity) (execute (AccessTokenCleanup.delete_stmt _))) =>
  apply (keeps_db_execute _); apply delete_access_tokens_integrity : keeps.
#[local] Hint Extern 1 (keeps (keeps_db preserves_integrity) (execute (RefreshTokenCleanup.delete_stmt _))) =>
  apply (keeps_db_execute _); apply delete_refresh_tokens_integrity : keeps.
#[local] Hint Extern 1 (keeps (keeps_db preserves_integrity) (execute (OAuth2SessionCleanup.delete_stmt _))) =>
  apply (keeps_db_execute _); apply delete_oauth2_sessions_integrity : keeps.
#[local] Hint Extern 1
    (keeps (keeps_db preserves_integrity) (execute (CompatSessionRepository.delete_sessions_stmt _))) =>
  apply (keeps_db_execute _); apply delete_compat_sessions_integrity : keeps.
#[local] Hint Extern 1 (keeps (keeps_db preserves_integrity) (execute (BrowserSessionCleanup.delete_stmt _))) =>
  apply (keeps_db_execute _); apply delete_user_sessions_integrity : keeps.

#[local] Hint Extern 3 (keeps (keeps_db preserves_integrity) (execute _)) =>
  apply (keeps_db_execute _); intros ??? [= _ <-] Hd; destruct Hd; split; simpl; deletion_solve
  : keeps.

#[local] Hint Extern 1
    (keeps (keeps_db preserves_accounts) (execute (OAuth2SessionCleanup.delete_stmt _))) =>
  apply (keeps_db_execute _); intros d n d'; unfold OAuth2SessionCleanup.delete_stmt;
  (case_bool_decide; [|done]); intros [= _ <-] Hd; destruct Hd; split; simpl; deletion_solve : keeps.
#[local] Hint Extern 1
    (keeps (keeps_db preserves_accounts) (execute (CompatSessionRepository.delete_sessions_stmt _))) =>
  apply (keeps_db_execute _); intros d n d'; unfold CompatSessionRepository.delete_sessions_stmt;
  (case_bool_decide; [|done]); intros [= _ <-] Hd; destruct Hd; split; simpl; deletion_solve : keeps.
#[local] Hint Extern 1
    (keeps (keeps_db preserves_accounts) (execute (QueueJobRepository.delete_stmt _))) =>
  apply (keeps_db_execute _); intros ??? [= _ <-] Hd; by destruct Hd; split : keeps.

#[local] Hint Unfold AccessTokenCleanup.cleanup_revoked AccessTokenCleanup.cleanup_expired
  AccessTokenCleanup.cleanup RefreshTokenCleanup.cleanup_revoked
  RefreshTokenCleanup.cleanup_consumed CompatSessionRepository.cleanup_finished
  OAuth2SessionCleanup.cleanup_finished BrowserSessionCleanup.cleanup_finished
  OAuth2SessionCleanup.cleanup_inactive_ips CompatSessionRepository.cleanup_inactive_ips
  BrowserSessionCleanup.cleanup_inactive_ips AuthorizationGrantCleanup.cleanup
  DeviceCodeGrantCleanup.cleanup UpstreamOAuthSessionRepository.cleanup_orphaned
  UpstreamOAuthLinkRepository.cleanup_orphaned UserRegistrationRepository.cleanup
  UserRecoveryRepository.cleanup UserEmailAuthenticationRepository.cleanup_authentications
  QueueJobRepository.cleanup : mas_ops.

Lemma operation_integrity {R} j now_ since :
  keeps (keeps_db preserves_integrity) (operation (R := R) j now_ since).
Proof. destruct j; simpl; keeps_tac. Qed.

Lemma operation_accounts {R} j now_ since :
  j ≠ FinishedUserSessions →
  keeps (keeps_db preserves_accounts) (operation (R := R) j now_ since).
Proof. intros Hj. destruct j; simpl; by keeps_tac. Qed.

(** Both sets of constraints at once: the email authentications refer to the
    browser sessions. *)
Definition schema (d : Db) : Prop := integrity d ∧ account_integrity d.
Definition preserves_schema (d d' : Db) : Prop := schema d → schema d'.

#[export] Instance preserves_schema_preorder : PreOrder preserves_schema.
Proof. split; [by intros d Hd|]. intros x y z Hxy Hyz Hx. auto. Qed.

Lemma keeps_both {R E A} (m : M (World R) E A) :
  keeps (keeps_db preserves_integrity) m → keeps (keeps_db preserves_accounts) m →
  keeps same_committed m → keeps (keeps_db preserves_schema) m.
Proof.
  intros Hi Ha Hs w. specialize (Hi w) as [Hi _]. specialize (Ha w) as [Ha _].
  specialize (Hs w) as [Hs _]. split; [|by left]. intros [? ?]. split; auto.
Qed.

Lemma operation_schema {R} j now_ since :
  keeps (keeps_db preserves_schema) (operation (R := R) j now_ since).
Proof.
  destruct (decide (j = FinishedUserSessions)) as [->|Hj].
  - simpl. unfold BrowserSessionCleanup.cleanup_finished.
    apply keeps_bind; [apply _ | keeps_tac | intros to_delete].
    apply keeps_bind; [apply _ | | keeps_tac].
    apply (keeps_db_execute _). intros d n d' H [Hi Ha].
    split; [by eapply delete_user_sessions_integrity | by eapply delete_user_sessions_accounts].
  - apply keeps_both; [apply operation_integrity | by apply operation_accounts |].
    apply (cleans_committed (CleansUp := operation_cleans j now_)).
Qed.

Lemma batches_schema {R} {texts : ErrorTexts} cancelled after gone I S K
    (op : option Z → M (World R) DatabaseError (nat * option Z))
    `{!CleansUp after gone I S K op} fuel turn since total w r w' :
  (∀ since, keeps (keeps_db preserves_schema) (op since)) →
  batches cancelled op fuel turn since total w = (r, w') →
  preserves_schema (w_committed w) (w_committed w').
Proof.
  intros Hop. revert turn since total w. induction fuel as [|fuel IH]; intros turn since total w.
  { by intros [= _ <-]. }
  intros Hb. destruct (batches_turn cancelled after gone I S K op _ _ _ _ _ _ _ Hb)
    as [(_ & _ & ->)|[(_ & _ & ->)|(_ & w1 & n & cur & w2 & w3 & Ht & Hrun & Hc & H)]]; [done..|].
  apply (keeps_run _ _ _ _ _ (Hop since)) in Hrun as [Hq _]. rewrite Ht, <- Hc in Hq.
  transitivity (w_committed w3); [done|].
  destruct (Z.of_nat n =? BATCH_SIZE); [by apply IH in H|]. by destruct H as [_ ->].
Qed.
End Integrity.

(** ** What a clean-up job does *)

Section Theorems.
Context {R : Type} {texts : ErrorTexts}.
Implicit Types w : World R.

Lemma all_after j k x (S : gmap Z Z) : S !! k = Some x → cursor_of j None x = true.
Proof. by destruct j. Qed.

(** C34: a clean-up job that runs to its end removes every row that is old enough,
    as many as it counts, and the others stay: the addresses of inactive sessions
    are forgotten and the sessions kept, everything else that is old is deleted.
    However a run ends, by a failure of the database or a cancellation too, it
    removes only rows that are old enough, and the constraints of the schema hold
    after it. *)
Theorem old_rows_cleaned j cancelled fuel w r w' :
  schema (w_committed w) → keyed_table j (w_committed w) →
  run j cancelled fuel w = (r, w') →
  let old := old_rows j (w_clock w (w_ticks w)) in
  let d := w_committed w in
  let d' := w_committed w' in
  schema d' ∧
  (∃ X, X ⊆ dom (old d) ∧ keys j d' = if deletes j then keys j d ∖ X else keys j d) ∧
  (∀ n, r = Ok (Some n) → (∀ t, cancelled t = false) →
     n = size (old d) ∧ old d' = ∅ ∧
     keys j d' = if deletes j then keys j d ∖ dom (old d) else keys j d).
Proof.
  intros Hs Hk H old d d'. rewrite run_operation in H. split_and!.
  - eapply batches_schema; [apply operation_cleans | apply operation_schema | exact H | exact Hs].
  - eapply batches_partial in H as (_ & X & HX & _ & HK); [|apply operation_cleans|exact Hk].
    by exists X.
  - intros n -> Hc. eapply batches_complete in H; [|apply operation_cleans|done|exact Hk|].
    + exact H.
    + intros k x Hx. by eapply all_after.
Qed.

(** The loop of a clean-up ends: a turn more than the full batches among the
    old rows is enough. *)
Theorem cleanup_ends j cancelled fuel w :
  keyed_table j (w_committed w) →
  (size (old_rows j (w_clock w (w_ticks w)) (w_committed w))
   < fuel * Z.to_nat BATCH_SIZE)%nat →
  (run j cancelled fuel w).1 ≠ Ok None.
Proof.
  intros Hk Hf Hr. apply fst_run in Hr. rewrite run_operation in Hr.
  eapply batches_fuel in Hr; [|apply operation_cleans|exact Hk].
  apply Nat.lt_nge in Hf. exact (Hf Hr).
Qed.
End Theorems.

(** ** Witnesses *)
Section Witnesses.
Import Scenario AccountScenario.

Definition old_session : OAuthSessionLookup.t :=
  OAuthSessionLookup.mk 20 (Some 2) (Some 3) 1 ["openid"] 0 None None None None None.
Definition revoked_token : OAuth2AccessTokenLookup.t :=
  OAuth2AccessTokenLookup.mk 21 20 "mat_old" 0 None (Some 1000000) None.
Definition its_refresh_token : OAuth2RefreshTokenLookup.t :=
  OAuth2RefreshTokenLookup.mk 23 "mar_old" 0 None None (Some 21) 20 None.

(** A token that was revoked more than an hour ago. *)
Definition cleanup_db : Db :=
  mkDb {[1 := client]} {[2 := user]} {[3 := browser]} ∅ {[20 := old_session]}
    {[21 := revoked_token]} {[23 := its_refresh_token]} ∅ ∅ ∅ ∅ ∅ None ∅ ∅ ∅ ∅ ∅ ∅ ∅ ∅ ∅
    no_accounts.
Definition cleanup_world : World Z := world cleanup_db 0 4000.

Lemma cleanup_schema : schema cleanup_db.
Proof. split; check_constraints. Qed.

Definition cleanup_run := run RevokedAccessTokens (λ _, false) 1 cleanup_world.

Lemma cleanup_run_ok : cleanup_run = (Ok (Some 1%nat), cleanup_run.2).
Proof. apply fst_run. vm_compute. reflexivity. Qed.

Lemma old_rows_cleaned_witness :
  cleanup_run.1 = Ok (Some 1%nat) ∧ oauth2_access_tokens (w_committed cleanup_run.2) = ∅ ∧
  size (oauth2_refresh_tokens (w_committed cleanup_run.2)) = 1%nat ∧
  old_rows RevokedAccessTokens (clock 4000) (w_committed cleanup_run.2) = ∅.
Proof.
  split_and!; [vm_compute; reflexivity..|].
  destruct (old_rows_cleaned RevokedAccessTokens (λ _, false) 1 cleanup_world
              (Ok (Some 1%nat)) cleanup_run.2) as (_ & _ & H).
  - exact cleanup_schema.
  - apply (access_tokens_pkey _ (proj1 cleanup_schema)).
  - exact cleanup_run_ok.
  - by destruct (H 1%nat eq_refl (λ _, eq_refl)) as (_ & ? & _).
Defined.

Lemma cleanup_ends_witness : is_ok cleanup_run.1 = true ∧ cleanup_run.1 ≠ Ok None.
Proof.
  split; [vm_compute; reflexivity|].
  apply (cleanup_ends RevokedAccessTokens (λ _, false) 1 cleanup_world).
  - apply (access_tokens_pkey _ (proj1 cleanup_schema)).
  - vm_compute. lia.
Defined.
End Witnesses.
